(* ===== verification/_CoqProject ===== *)
-Q . S2P
Prelude.v
Sbe.v
Tensor.v
Seqlock.v
Ring.v
RingProtocol.v
Trace.v
Tracelink.v
MergeMap.v
JoinBarrier.v
MpscQueue.v
Uri.v
Message.v
Shm.v
ConsumerManager.v
ProgressPoller.v
Driver.v
DriverLease.v
DriverMessages.v
DriverClient.v
Control.v
Metadata.v
Machine.v
Regions.v
ConsumerMapping.v
ConsumerRegions.v
ConsumerSession.v
ProducerMapping.v
ProducerRegions.v
ProducerSession.v
Discovery.v
DiscoveryMessages.v
DiscoverySession.v
Conductor.v
ConductorThreads.v
ConductorSafety.v
ConductorAgent.v
ConductorSession.v
