(* ===== verification/Prelude.v ===== *)
(** * Verification of the tensor pool: shared-memory frames, joins and the media driver

    The program moves tensors between processes through memory that a driver
    owns.  A producer attaches to a stream with a lease from the driver, writes
    frames into a ring of 256-byte header slots and per-pool payload slots, and
    announces each frame on an Aeron channel; consumers map the same memory and
    read a frame under a sequence lock.  Around this data plane lie identifiers
    for tracing (trace ids and links between frames), merge maps and join
    barriers that decide when an output combining several inputs may be
    produced, and a queue between application threads and the client conductor.

    ** Files and what they model

    - [Prelude] (this file): C integers, results, pointers, list lemmas, tactics.
    - [Sbe]: the class [Sbe] of buffer accessors the generated codecs offer, and
      its little-endian instance; messages as lists of writes and programs of
      reads.  Its clients are the components with messages or memory layouts.
    - [Tensor] (src/common/tp_tensor.c, encoder in src/client/tp_producer.c): data
      types, strides, header validation and codec.
    - [Seqlock] (tp_seqlock.h, tp_slot.c): the sequence word and slot addresses.
    - [Ring] (src/client/tp_producer.c, src/client/tp_consumer.c, tp_slot.c): a
      publication as the list of its stores ([publish_frame_stores]), the
      claim interface, and a read as a program of loads ([read_slot]).
    - [RingProtocol]: all interleavings of the stores of a producer with the
      loads of a consumer, as a step relation.
    - [Trace] (tp_trace.c): the identifier generator and the interleavings of
      threads that share one.
    - [Tracelink] (tp_tracelink.c and the validator of tp_producer.c).
    - [MergeMap] (tp_merge_map.c): rules, four codecs, the registry.
    - [JoinBarrier] (tp_join_barrier.c): the three barriers.
    - [MpscQueue] (tp_mpsc_queue.c): every atomic step of offer and poll, and the
      interleavings of any number of threads.
    - [Uri] (tp_uri.c, path functions of src/driver/tp_driver.c): the URI parser
      and the paths and URIs the driver builds for its regions.
    - [Shm] (tp_shm.c): the superblock of a region, and mapping a region, in a
      monad over the descriptors and mappings of the process with an arbitrary
      [kernel].
    - [ConsumerManager] (src/client/tp_consumer_registry.c,
      src/client/tp_consumer_manager.c, fan-out of tp_producer.c): the consumers a
      producer serves and the publications it opens for them.
    - [ProgressPoller] (src/client/tp_progress_poller.c, validator of
      tp_consumer.c): which progress messages reach the application.
    - [Driver] (src/driver/tp_driver.c): the handlers and the duty cycle, in a
      state monad over the driver with a [world] for clock, random source,
      allocations and files.
    - [DriverLease]: an abstract lease machine and the proof that the driver
      refines it.
    - [Message]: messages of variable length as lists of parts, the bytes an
      encoder offers and what a reader finds in them.
    - [DriverMessages] (both sides of the driver protocol): the bytes the driver
      and its clients send, and the decoders.
    - [DriverClient] (src/client/tp_driver_client.c, leases in tp_client.c): attach,
      detach and keepalive as a client drives them, and its event poller.
    - [Control] (src/client/tp_control.c, tp_control_adapter.c, announcement of
      tp_driver.c): the control plane's messages as bytes, their decoders and the
      dispatch to callbacks.
    - [Metadata] (tp_metadata_poller.c, tp_qos.c): blobs and reports.
    - [Machine]: the monad both ends of a stream run in: a state of their own, the
      process of [Shm], events, and a [world] for memory, clocks, allocations and
      the answers of Aeron; its weakest preconditions.
    - [Regions]: what a consumer or a producer has mapped.  The class [Holder] says
      where a state keeps its regions; mapping, validating and unmapping them is
      defined and specified once for every instance.
    - [ConsumerMapping] (src/client/tp_consumer.c): a consumer that maps and gives
      up regions as announcements, the driver and liveness checks tell it.
    - [ConsumerRegions]: the theorems over any run of a consumer.
    - [ConsumerSession]: how a consumer follows an announcement, whoever sends it,
      and the consumer joined to the driver and to a producer over the bytes they
      send.
    - [ProducerMapping] (src/client/tp_producer.c): the life of a producer besides
      its frames: attaching, control messages and reports of consumers, periodic
      announcements and stamps, its data source, closing.
    - [ProducerRegions]: the theorems over any run of a producer.
    - [ProducerSession]: the producer joined to its consumers and to the driver
      over the bytes they send.
    - [Discovery] (src/discovery/tp_discovery_service.c): the registry of the
      discovery service: announcements, tags, expiry and queries.
    - [DiscoveryMessages] (tp_discovery_service.c, src/client/tp_discovery_client.c):
      requests and answers as bytes, what the service does with each fragment and
      a client with each answer.
    - [DiscoverySession]: what a client learns of an announced stream, and the loop
      that waits for an answer.
    - [Conductor] (src/client/tp_client_conductor.c, first functions of
      src/client/tp_client.c): the client conductor as programs over the memory it
      shares with application threads; an access to freed memory faults.
    - [ConductorThreads]: what application threads do between two accesses, and the
      invariant that says who has each request; its lemmas for single accesses.
    - [ConductorSafety]: weakest preconditions of interrupted programs, and the work
      on requests.
    - [ConductorAgent]: pollers and the nested duty cycle.
    - [ConductorSession]: the theorems over all interleavings and over undisturbed
      duty cycles.

    State records keep the names of the C structs and their fields carry a short
    prefix; an operation has the name of its C function.

    ** What the theorems show

    - Data plane: a frame that is read is a committed frame, whole
      ([read_frame_not_torn]); a published frame can be read back
      ([publish_then_read]); slots do not overlap below the sizes at which the
      32-bit products wrap ([slot_ranges_disjoint]).
    - Codecs: round trips of tensor headers, trace link sets and both merge maps;
      what the decoders accept is well formed.
    - Identifiers: trace ids are unique over all threads and a call ends;
      trace links are only sent for the frame last announced in their slot.
    - Joins: readiness of each barrier is characterised by the log of updates,
      not by the state, and so is which inputs are stale; the registry of merge
      maps is a map for both kinds, also when an allocation fails.
    - Queue: delivery of each item once and in order, exclusive slots, justified
      refusals, termination of undisturbed calls.
    - Driver: refinement of the lease machine, exclusive producers and
      identifiers, the two outcomes of an attach, epochs that never decrease and
      grow with each producer, exact expiry, no lease ends unannounced.
    - Regions: the parser accepts exactly the texts of a declared grammar, which
      contains the URIs of the wire specification, and reads back what the
      driver writes ([uri_parse_iff], [region_uri_roundtrip]); regions have files
      of their own; a mapping is preceded by every check, in order, and leaks
      nothing ([shm_map_checked], [shm_map_descriptors]); the client accepts the
      superblock the driver wrote exactly when it is as expected.
    - Consumers of a producer: the registry is a bounded map, publications are
      owned by its entries, the policy is the least wish, descriptors reach who
      is due and no rate-limited consumer too often.
    - Progress: acceptance is characterised by the messages accepted before, in
      both modes of the tracker.
    - Driver client: over bytes in both directions client and driver agree on the
      lease ([attach_agreement]: the driver's configuration fits the wire); the
      asynchronous attach only takes an answer under its own correlation identifier;
      a lease is kept alive when both sides go by the same intervals; a blocking
      attach returns.
    - Control plane: a message reaches the callback of its kind with the values
      sent; whatever arrives, views lie inside the fragment unless a decoder reads
      beyond it, which [control_fragment_sound] delimits; blobs are only completed
      whole.
    - Consumer: over any run that attaches only while nothing is mapped, the process holds exactly the regions the consumer
      knows of, frames are only read from validated regions of one configuration,
      polling returns; the driver's announcement leads to the driver's regions,
      its revocation to none and a bounded back-off; lost descriptors are counted
      exactly.
    - Producer: the same account of its regions over any run
      ([producer_regions_given_back], [producer_regions_validated],
      [producer_polls_return]); its announcement fits its buffer exactly and makes
      a consumer map what the producer mapped ([producer_announcement_mapped]); it
      obeys the revocation of its lease.
    - Discovery: the registry keeps one entry of the newest epoch for each stream
      over any run ([registry_kept]: an allocation that fails may leave an entry
      without its pools); a query answers with exactly what matches and has been
      heard of in time ([query_exact]); an answer of acceptable results is read as it
      was sent, and a decoded announcement reaches a client unchanged
      ([announced_stream_reaches_client]) - from a decoded request, because no client's
      request is read as it was sent ([request_never_read]).
    - Conductor: in every interleaving with application threads each request waits
      in one place and is answered with what was asked for, once; the only access
      to freed memory is to a request that was answered before it was unlinked
      ([requests_stay_consistent], and [answer_taken_too_early] for a schedule in
      which it happens).  Undisturbed, every request that Aeron answers is answered
      ([requests_are_answered]) and each poller is called once, in order, up to the
      first that fails, whose error the cycle returns ([pollers_called_once]).
    Examples next to the theorems evaluate the definitions on inputs at the edge
    of the hypotheses, and show what the code does beyond them.

    ** Bounds and fuel

    Unsigned arithmetic is reduced at its width; signed arithmetic that could
    overflow goes through a checked operation whose failure is a result of its
    own, so no theorem assumes its absence unless it says so.  Loops of the
    source are structural on lists or on a count read before the loop; the
    expiry loop of the driver takes the number of leases as fuel, each turn
    removing a lease or passing one.  The queue theorems hold while fewer than
    2^63 items have been offered, the driver theorems for 2^62 uses of the
    world with a clock below 2^63 nanoseconds.  The loops of the conductor take a number of turns, and
    [requests_are_answered] asks for one turn for each request; one level of nested
    duty cycles is enough because a nested one calls no pollers.  The loops over the characters of
    a URI and over the components of a path take the length of the text as fuel;
    every turn consumes characters.

    ** What is not modelled

    Memory is sequentially consistent: the fences of the source are not
    distinguished from plain program order.  Aeron's transport is outside: what a
    subscription delivers is arbitrary, a publication is a number and the result
    of an offer an arbitrary answer.  The system calls behind a mapping are
    answers of an arbitrary kernel; directory handling, the writing of region
    files beyond their superblock, epoch garbage collection, logging and the
    configuration readers are outside; where a handler depends on their success
    the success is an argument.  The supervisor hook of the driver's duty cycle
    and the polling of its subscription are replaced by the arrival of arbitrary
    control fragments.  While a manager waits for a publication or a
    consumer for a subscription the client's other pollers run; they are taken
    not to touch the manager or the consumer, as are callbacks.  The theorems
    on either end assume of the kernel that a mapping can be given back, that
    descriptors are not negative and that no mapping is at NULL ([kernel_ok]);
    [aeron_alloc] returns zeroed memory.  A generated setter that refuses to
    write past its buffer makes the whole message not fit; the block length that the
    generated encoder of a discovery result gives its group of tags is a parameter
    ([TagsGroup]), 4 or 0 depending on the tool that generates it.  The supervisor
    and the configuration files are not modelled, of discovery only the opening
    and closing of its subscriptions is left out, and of the conductor the options
    it sets in Aeron's context and the agent runner's thread.  In [Conductor] the command
    queue is a list, which [MpscQueue] justifies; addresses are not used again, so that
    every access to a freed request is seen; pollers are called and changed by the
    thread of the conductor only, and what an application thread does with a request
    is one step.

    ** Conventions of this file

    - C unsigned integers of width [w] are [Z] values kept in range by an
      explicit reduction ([u8], [u16], [u32], [u64]); signed arithmetic that
      the C standard leaves undefined on overflow goes through [i32_checked]
      and [i64_checked], which return [None] there.
    - [ptr A] is a possibly NULL pointer to an [A].
    - [res A] is the return of a function that sets [errno] with [TP_SET_ERR]
      and returns -1: [Err e] carries the code the C source stores.
    - [tp_simp] and the [tp] hint database automate the arithmetic side
      conditions that recur in the component files. *)

From Stdlib Require Import ZArith Lia Bool.
From stdpp Require Export base list option numbers sets.

#[global] Open Scope Z_scope.

Declare Scope tp_scope.
Delimit Scope tp_scope with tp.

(** ** Pointers and results *)

Abbreviation ptr := option (only parsing).
Abbreviation NULL := None (only parsing).

(** The [errno] values the sources pass to [TP_SET_ERR]; [EOS n] stands for a
    value copied from the [errno] of a failed system call. *)
Inductive errno :=
  | EINVAL
  | ENOMEM
  | EAGAIN
  | EACCES
  | EOS (n : Z).

#[export] Instance errno_eq_dec : EqDecision errno.
Proof. solve_decision. Defined.

Inductive res (A : Type) :=
  | Ok (a : A)
  | Err (e : errno).

Arguments Ok {A} a.
Arguments Err {A} e.

#[export] Instance res_eq_dec {A} `{EqDecision A} : EqDecision (res A).
Proof. solve_decision. Defined.

Definition res_bind {A B} (m : res A) (k : A -> res B) : res B :=
  match m with
  | Ok a => k a
  | Err e => Err e
  end.

Notation "'let!' x ':=' m 'in' k" := (res_bind m (fun x => k))
  (at level 10, x name, m at level 100, k at level 200) : tp_scope.

(** [guard! c else e in k]: the C idiom [if (!c) { TP_SET_ERR(e, ..); return -1; }]. *)
Notation "'guard!' c 'else' e 'in' k" := (if c then k else Err e)
  (at level 10, c at level 100, e at level 100, k at level 200) : tp_scope.

#[global] Open Scope tp_scope.

(** ** Machine integers *)

Definition u8 (z : Z) : Z := z mod 2 ^ 8.
Definition u16 (z : Z) : Z := z mod 2 ^ 16.
Definition u32 (z : Z) : Z := z mod 2 ^ 32.
Definition u64 (z : Z) : Z := z mod 2 ^ 64.

(** Conversion of a 16-, 32- or 64-bit pattern to the signed type. *)
Definition i16 (z : Z) : Z := (z + 2 ^ 15) mod 2 ^ 16 - 2 ^ 15.
Definition i32 (z : Z) : Z := (z + 2 ^ 31) mod 2 ^ 32 - 2 ^ 31.
Definition i64 (z : Z) : Z := (z + 2 ^ 63) mod 2 ^ 64 - 2 ^ 63.

Definition is_u8 (z : Z) : Prop := 0 <= z < 2 ^ 8.
Definition is_u16 (z : Z) : Prop := 0 <= z < 2 ^ 16.
Definition is_u32 (z : Z) : Prop := 0 <= z < 2 ^ 32.
Definition is_u64 (z : Z) : Prop := 0 <= z < 2 ^ 64.
Definition is_i16 (z : Z) : Prop := - 2 ^ 15 <= z < 2 ^ 15.
Definition is_i32 (z : Z) : Prop := - 2 ^ 31 <= z < 2 ^ 31.
Definition is_i64 (z : Z) : Prop := - 2 ^ 63 <= z < 2 ^ 63.

#[export] Instance is_u8_dec z : Decision (is_u8 z).
Proof. unfold is_u8. apply _. Defined.
#[export] Instance is_u32_dec z : Decision (is_u32 z).
Proof. unfold is_u32. apply _. Defined.
#[export] Instance is_u64_dec z : Decision (is_u64 z).
Proof. unfold is_u64. apply _. Defined.
#[export] Instance is_i32_dec z : Decision (is_i32 z).
Proof. unfold is_i32. apply _. Defined.

(** Signed arithmetic: [None] is the undefined behaviour of an overflow. *)
Definition i32_checked (z : Z) : option Z :=
  if (- 2 ^ 31 <=? z) && (z <? 2 ^ 31) then Some z else None.
Definition i64_checked (z : Z) : option Z :=
  if (- 2 ^ 63 <=? z) && (z <? 2 ^ 63) then Some z else None.

Definition TP_NULL_U32 : Z := 2 ^ 32 - 1.
Definition TP_NULL_U64 : Z := 2 ^ 64 - 1.
Definition TP_LAYOUT_VERSION : Z := 1.

Ltac unfold_widths :=
  unfold is_u8, is_u16, is_u32, is_u64, is_i16, is_i32, is_i64, u8, u16, u32, u64,
    i16, i32, i64, TP_NULL_U32, TP_NULL_U64 in *.

(** [ulia]: linear arithmetic after the width predicates are unfolded. *)
Ltac ulia := unfold_widths; lia.

Lemma u8_small z : is_u8 z -> u8 z = z.
Proof. intros H. apply Z.mod_small. exact H. Qed.
Lemma u16_small z : is_u16 z -> u16 z = z.
Proof. intros H. apply Z.mod_small. exact H. Qed.
Lemma u32_small z : is_u32 z -> u32 z = z.
Proof. intros H. apply Z.mod_small. exact H. Qed.
Lemma u64_small z : is_u64 z -> u64 z = z.
Proof. intros H. apply Z.mod_small. exact H. Qed.

Lemma u8_range z : is_u8 (u8 z).
Proof. apply Z.mod_pos_bound. lia. Qed.
Lemma u16_range z : is_u16 (u16 z).
Proof. apply Z.mod_pos_bound. lia. Qed.
Lemma u32_range z : is_u32 (u32 z).
Proof. apply Z.mod_pos_bound. lia. Qed.
Lemma u64_range z : is_u64 (u64 z).
Proof. apply Z.mod_pos_bound. lia. Qed.

Lemma u64_idem z : u64 (u64 z) = u64 z.
Proof. apply u64_small, u64_range. Qed.
Lemma u64_add_l x y : u64 (u64 x + y) = u64 (x + y).
Proof. apply Z.add_mod_idemp_l. lia. Qed.

Lemma i16_small z : is_i16 z -> i16 z = z.
Proof. intros H. unfold i16. rewrite Z.mod_small; ulia. Qed.
Lemma i32_small z : is_i32 z -> i32 z = z.
Proof. intros H. unfold i32. rewrite Z.mod_small; ulia. Qed.
Lemma i64_small z : is_i64 z -> i64 z = z.
Proof. intros H. unfold i64. rewrite Z.mod_small; ulia. Qed.

Lemma i32_checked_Some z x : i32_checked z = Some x -> x = z /\ is_i32 z.
Proof.
  unfold i32_checked. destruct (_ && _) eqn:E; [|discriminate].
  intros [= <-]. apply andb_true_iff in E as [? ?]. ulia.
Qed.

Lemma i32_checked_ok z : is_i32 z -> i32_checked z = Some z.
Proof.
  intros H. unfold i32_checked.
  replace ((- 2 ^ 31 <=? z) && (z <? 2 ^ 31)) with true; [done|].
  symmetry. apply andb_true_iff. ulia.
Qed.

Lemma i64_checked_ok z : is_i64 z -> i64_checked z = Some z.
Proof.
  intros H. unfold i64_checked.
  replace ((- 2 ^ 63 <=? z) && (z <? 2 ^ 63)) with true; [done|].
  symmetry. apply andb_true_iff. ulia.
Qed.

(** Casting a signed value to the unsigned type of its width and back. *)
Lemma i16_u16 z : is_i16 z -> i16 (u16 z) = z.
Proof.
  intros H. unfold i16, u16. rewrite Zplus_mod_idemp_l.
  rewrite Z.mod_small; ulia.
Qed.
Lemma i32_u32 z : is_i32 z -> i32 (u32 z) = z.
Proof.
  intros H. unfold i32, u32. rewrite Zplus_mod_idemp_l.
  rewrite Z.mod_small; ulia.
Qed.
Lemma i64_u64 z : is_i64 z -> i64 (u64 z) = z.
Proof.
  intros H. unfold i64, u64. rewrite Zplus_mod_idemp_l.
  rewrite Z.mod_small; ulia.
Qed.

Create HintDb tp.
Create Rewrite HintDb tp.
#[export] Hint Resolve u8_range u16_range u32_range u64_range : tp.
#[export] Hint Rewrite u8_small u16_small u32_small u64_small i32_small
  i64_small using (first [assumption | ulia]) : tp.

(** ** Powers of two and masks *)

(** [value != 0 && (value & (value - 1)) == 0]. *)
Definition tp_is_power_of_two (value : Z) : bool :=
  negb (value =? 0) && (Z.land value (value - 1) =? 0).

Lemma land_pow2_mask a k :
  0 <= k -> Z.land a (2 ^ k - 1) = a mod 2 ^ k.
Proof. intros Hk. rewrite Z.sub_1_r, <- Z.ones_equiv. by apply Z.land_ones. Qed.

(** The mask of any positive size stays below the size. *)
Lemma land_mask_lt a n : 0 <= a -> 0 < n -> 0 <= Z.land a (n - 1) < n.
Proof.
  intros Ha Hn. split; [apply Z.land_nonneg; lia|].
  destruct (decide (n = 1)) as [->|Hn1].
  { change (1 - 1) with 0. rewrite Z.land_0_r. lia. }
  assert (Hle : Z.land a (n - 1) <= n - 1); [|lia].
  apply Z.ldiff_le; [lia|].
  apply Z.bits_inj'. intros i Hi.
  rewrite Z.ldiff_spec, Z.land_spec, Z.bits_0.
  destruct (Z.testbit a i), (Z.testbit (n - 1) i); done.
Qed.

Lemma is_power_of_two_pow2 n :
  0 < n -> tp_is_power_of_two n = true -> exists k, 0 <= k /\ n = 2 ^ k.
Proof.
  intros Hn H. exists (Z.log2 n). split; [apply Z.log2_nonneg|].
  unfold tp_is_power_of_two in H. apply andb_true_iff in H as [_ H%Z.eqb_eq].
  pose proof (Z.log2_spec n Hn) as [Hlo Hhi].
  destruct (decide (n = 2 ^ Z.log2 n)) as [|Hne]; [done|exfalso].
  assert (Hb : Z.testbit (Z.land n (n - 1)) (Z.log2 n) = true).
  { rewrite Z.land_spec, (Z.bit_log2 n Hn). simpl.
    pose proof (Z.pow_pos_nonneg 2 (Z.log2 n) ltac:(lia) (Z.log2_nonneg n)).
    replace (Z.log2 n) with (Z.log2 (n - 1)); [apply Z.bit_log2; lia|].
    apply Z.log2_unique; [apply Z.log2_nonneg|lia]. }
  rewrite H, Z.bits_0 in Hb. discriminate.
Qed.

Lemma land_power_of_two_mod a n :
  0 < n -> tp_is_power_of_two n = true -> Z.land a (n - 1) = a mod n.
Proof.
  intros Hn Hp. destruct (is_power_of_two_pow2 n Hn Hp) as (k & Hk & ->).
  by apply land_pow2_mask.
Qed.

Lemma pow2_is_power_of_two k : 0 <= k -> tp_is_power_of_two (2 ^ k) = true.
Proof.
  intros Hk. unfold tp_is_power_of_two. apply andb_true_iff. split.
  - apply negb_true_iff, Z.eqb_neq. lia.
  - apply Z.eqb_eq. rewrite land_pow2_mask by done. apply Z.mod_same. lia.
Qed.

(** Two values of one residue class that are closer than the modulus agree. *)
Lemma mod_eq_close a b n :
  0 < n -> a mod n = b mod n -> Z.abs (a - b) < n -> a = b.
Proof.
  intros Hn Hm Habs.
  pose proof (Z.div_mod a n ltac:(lia)). pose proof (Z.div_mod b n ltac:(lia)).
  assert (Hq : a - b = n * (a / n - b / n)) by nia.
  assert (a / n - b / n = 0) by nia. lia.
Qed.

(** ** Lists *)

(** The first index whose element satisfies [f], as a C search loop finds it. *)
Fixpoint find_index {A} (f : A -> bool) (l : list A) : option nat :=
  match l with
  | [] => None
  | x :: l' => if f x then Some O else S <$> find_index f l'
  end.

Lemma find_index_Some {A} (f : A -> bool) l i :
  find_index f l = Some i <->
  exists x, l !! i = Some x /\ f x = true /\
            (forall j y, (j < i)%nat -> l !! j = Some y -> f y = false).
Proof.
  revert i. induction l as [|a l IH]; intros i; simpl.
  { split; [discriminate|]. intros (x & Hx & _). by rewrite lookup_nil in Hx. }
  destruct (f a) eqn:Ha.
  - split.
    + intros [= <-]. exists a. repeat split; [done|]. intros; lia.
    + intros (x & Hx & Hfx & Hmin). destruct i as [|i]; [done|].
      specialize (Hmin 0%nat a ltac:(lia) eq_refl). congruence.
  - destruct i as [|i]; simpl.
    + split; [destruct (find_index f l); simpl; discriminate|].
      intros (x & [= ->] & Hfx & _). congruence.
    + rewrite fmap_Some. split.
      * intros (j & Hj & [= <-]). apply IH in Hj as (x & Hx & Hfx & Hmin).
        exists x. repeat split; [done..|]. intros [|k] y Hk Hy; [by inversion Hy; subst|].
        apply (Hmin k); [lia|done].
      * intros (x & Hx & Hfx & Hmin). exists i. split; [|done].
        apply IH. exists x. repeat split; [done..|].
        intros j y Hj Hy. apply (Hmin (S j)); [lia|done].
Qed.

Lemma find_index_None {A} (f : A -> bool) l :
  find_index f l = None <-> Forall (fun x => f x = false) l.
Proof.
  induction l as [|a l IH]; simpl; [split; [constructor|done]|].
  destruct (f a) eqn:Ha.
  - split; [discriminate|]. intros H. inversion H. congruence.
  - rewrite Forall_cons_iff. destruct (find_index f l); simpl; split.
    + discriminate.
    + intros [_ H%IH]. discriminate.
    + intros _. split; [done|]. by apply IH.
    + done.
Qed.

Lemma find_index_lookup {A} (f : A -> bool) l i :
  find_index f l = Some i -> exists x, l !! i = Some x /\ f x = true.
Proof. intros (x & ? & ? & _)%find_index_Some. eauto. Qed.

Lemma find_index_lt {A} (f : A -> bool) l i :
  find_index f l = Some i -> (i < length l)%nat.
Proof. intros (x & Hx & _)%find_index_lookup. by eapply lookup_lt_Some. Qed.

(** ** Tactics *)

(** Split every boolean conjunction, comparison and hypothesis equation. *)
Ltac bool_simp :=
  repeat match goal with
  | H : _ && _ = true |- _ => apply andb_true_iff in H; destruct H
  | H : _ || _ = false |- _ => apply orb_false_iff in H; destruct H
  | H : negb _ = true |- _ => apply negb_true_iff in H
  | H : negb _ = false |- _ => apply negb_false_iff in H
  | H : (_ =? _) = true |- _ => apply Z.eqb_eq in H
  | H : (_ =? _) = false |- _ => apply Z.eqb_neq in H
  | H : (_ <? _) = true |- _ => apply Z.ltb_lt in H
  | H : (_ <? _) = false |- _ => apply Z.ltb_ge in H
  | H : (_ <=? _) = true |- _ => apply Z.leb_le in H
  | H : (_ <=? _) = false |- _ => apply Z.leb_gt in H
  | H : (_ >? _) = _ |- _ => rewrite Z.gtb_ltb in H
  | H : bool_decide _ = true |- _ => apply bool_decide_eq_true in H
  | H : bool_decide _ = false |- _ => apply bool_decide_eq_false in H
  end.

(** Follow the guards of a handler in hypothesis [H]. *)
Ltac step_guard H :=
  match type of H with
  | context [if ?c then _ else _] => let E := fresh "E" in destruct c eqn:E
  | context [match ?m with _ => _ end] => let E := fresh "E" in destruct m eqn:E
  end.

Ltac follow H := repeat (step_guard H; try discriminate H); simplify_eq/=; bool_simp.

(** Membership in literal lists: case analysis of a hypothesis, and the proof
    of a closed goal by computation. *)
Ltac in_cases :=
  repeat match goal with
  | H : _ ∈ _ :: _ |- _ => apply elem_of_cons in H as [->|H]
  | H : _ ∈ [] |- _ => by apply not_elem_of_nil in H
  end.
Ltac in_compute := apply (bool_decide_eq_true_1 _); vm_compute; reflexivity.
