(* ===== verification/Sbe.v ===== *)
(** * Sbe: the interface of the generated message codecs

    The C sources read and write messages through flyweights that the SBE tool
    generates at build time from [schemas/*.xml]; the generated C files are not
    part of the repository.  This file states what the sources rely on as a
    type class [Sbe], so that every codec theorem is proved against the
    interface:

    - [sbe_get]/[sbe_put] read and write one primitive field of a given width
      at a byte offset (the generated [X_f(&codec)] and [X_set_f(&codec, v)]);
    - [sbe_enum] is the generated enum decoder, which yields the schema's valid
      values and the null value;
    - [sbe_group_wrap]/[sbe_group_next] are [X_g_wrap_for_decode] and
      [X_g_next], which return NULL when the group header or the next entry
      does not fit in the buffer;
    - [sbe_var_data] is the getter [X_d] of variable-length data behind a 32-bit
      length, NULL when the data does not fit in the buffer; nothing is assumed of
      the position [sbe_var_failed] it leaves then.

    Field offsets are those of the schemas: SBE packs the fields of a block in
    schema order without padding.  [le_sbe] instantiates the class with the
    little-endian encoding the schemas declare. *)

From Stdlib Require Import ZArith Lia Bool.
From S2P Require Import Prelude.

Abbreviation bytes := (list Z) (only parsing).

Definition blen (b : bytes) : Z := Z.of_nat (length b).

Class Sbe := {
  sbe_get : Z -> bytes -> Z -> Z;            (* width, buffer, offset *)
  sbe_put : Z -> bytes -> Z -> Z -> bytes;   (* width, buffer, offset, value *)
  sbe_enum : list Z -> Z -> Z -> option Z;   (* valid values, null value, raw *)
  sbe_group_wrap : bytes -> Z -> Z -> option (Z * Z);
    (* buffer, position, buffer length: block length and count *)
  sbe_group_next : Z -> Z -> Z -> option Z;
    (* position, block length, buffer length: offset of the entry *)
  sbe_var_data : Z -> Z -> Z -> option Z;
    (* position of the length field, length, buffer length: offset of the data *)
  sbe_var_failed : Z -> Z;
    (* where a getter that refused to read at a position leaves the position *)

  sbe_put_len : forall w b off v, blen (sbe_put w b off v) = blen b;
  sbe_get_range : forall w b off, 0 <= w -> 0 <= sbe_get w b off < 2 ^ (8 * w);
  sbe_get_put_eq : forall w b off v,
    0 <= w -> 0 <= off -> off + w <= blen b -> 0 <= v < 2 ^ (8 * w) ->
    sbe_get w (sbe_put w b off v) off = v;
  sbe_get_ext : forall w b b' off,
    0 <= w -> 0 <= off ->
    (forall i, off <= Z.of_nat i < off + w -> b !! i = b' !! i) ->
    sbe_get w b off = sbe_get w b' off;
  sbe_get_drop : forall w b k off,
    0 <= off -> sbe_get w (drop k b) off = sbe_get w b (Z.of_nat k + off);
  sbe_put_outside : forall w b off v i,
    0 <= w -> 0 <= off -> Z.of_nat i < off \/ off + w <= Z.of_nat i ->
    sbe_put w b off v !! i = b !! i;
  sbe_enum_valid : forall valid null raw,
    raw ∈ valid -> sbe_enum valid null raw = Some raw;
  sbe_enum_null : forall valid null, sbe_enum valid null null = Some null;
  sbe_enum_sound : forall valid null raw v,
    sbe_enum valid null raw = Some v -> v = raw /\ (raw ∈ valid \/ raw = null);
  sbe_group_wrap_spec : forall b pos len,
    sbe_group_wrap b pos len =
      (if pos + 4 <=? len then Some (sbe_get 2 b pos, sbe_get 2 b (pos + 2))
       else None);
  sbe_group_next_spec : forall pos block len,
    sbe_group_next pos block len = (if pos + block <=? len then Some pos else None);
  sbe_var_data_spec : forall pos n len,
    sbe_var_data pos n len = (if pos + 4 + n <=? len then Some (pos + 4) else None);
}.

Lemma sbe_get_put_ne `{Sbe} w w' b off off' v :
  0 <= w -> 0 <= w' -> 0 <= off -> 0 <= off' ->
  off + w <= off' \/ off' + w' <= off ->
  sbe_get w (sbe_put w' b off' v) off = sbe_get w b off.
Proof.
  intros Hw Hw' Ho Ho' Hdis. apply sbe_get_ext; [done..|].
  intros i Hi. apply sbe_put_outside; lia.
Qed.

(** ** Decoders as read programs

    A decoder reads one field after another.  As a program over reads it can be
    run on a buffer that stays as it is ([rrun]) or, one read at a time, on
    memory that a writer changes in between.  [RLoad] is the atomic load of a
    slot's commit word, [RRead w off k] a plain read of [w] bytes at [off]. *)

Inductive rprog (A : Type) :=
  | RRet (a : A)
  | RRead (w off : Z) (k : Z -> rprog A)
  | RLoad (k : Z -> rprog A).

Arguments RRet {A} a.
Arguments RRead {A} w off k.
Arguments RLoad {A} k.

Fixpoint rbind {A B} (p : rprog A) (f : A -> rprog B) : rprog B :=
  match p with
  | RRet a => f a
  | RRead w off k => RRead w off (fun v => rbind (k v) f)
  | RLoad k => RLoad (fun v => rbind (k v) f)
  end.

Definition read (w off : Z) : rprog Z := RRead w off (fun v => RRet v).

Notation "'read!' x ':=' m 'in' k" := (rbind m (fun x => k))
  (at level 10, x name, m at level 100, k at level 200) : tp_scope.

(** [rguard! c else e in k]: a failed check ends the decoder. *)
Notation "'rguard!' c 'else' e 'in' k" := (if c then k else RRet (Err e))
  (at level 10, c at level 100, e at level 100, k at level 200) : tp_scope.

(** [n] consecutive fields of [w] bytes from [base]. *)
Fixpoint read_array (w : Z) (n : nat) (base : Z) : rprog (list Z) :=
  match n with
  | O => RRet []
  | S n' => read! v := read w base in read! l := read_array w n' (base + w) in RRet (v :: l)
  end.

Fixpoint rrun `{Sbe} {A} (p : rprog A) (b : bytes) : A :=
  match p with
  | RRet a => a
  | RRead w off k => rrun (k (sbe_get w b off)) b
  | RLoad k => rrun (k (sbe_get 8 b 0)) b
  end.

Lemma rrun_bind `{Sbe} {A B} (p : rprog A) (f : A -> rprog B) b :
  rrun (rbind p f) b = rrun (f (rrun p b)) b.
Proof. induction p as [a|w off k IH|k IH]; simpl; [done|apply IH..]. Qed.

(** Shift every plain read: a decoder applied to a sub-buffer. *)
Fixpoint rshift {A} (base : Z) (p : rprog A) : rprog A :=
  match p with
  | RRet a => RRet a
  | RRead w off k => RRead w (base + off) (fun v => rshift base (k v))
  | RLoad k => RLoad (fun v => rshift base (k v))
  end.

(** A decoder without atomic loads that reads only the first [n] bytes. *)
Fixpoint reads_within {A} (n : Z) (p : rprog A) : Prop :=
  match p with
  | RRet _ => True
  | RRead w off k => 0 <= w /\ 0 <= off /\ off + w <= n /\ forall v, reads_within n (k v)
  | RLoad _ => False
  end.

Lemma reads_within_bind {A B} n (p : rprog A) (f : A -> rprog B) :
  reads_within n p -> (forall a, reads_within n (f a)) -> reads_within n (rbind p f).
Proof.
  intros Hp Hf. induction p as [a|w off k IH|k IH]; simpl in *; [apply Hf| |done].
  destruct Hp as (? & ? & ? & Hk). split_and!; try done. intros v. apply IH, Hk.
Qed.

Lemma reads_within_read n w off : 0 <= w -> 0 <= off -> off + w <= n -> reads_within n (read w off).
Proof. intros. by split_and!. Qed.

Lemma reads_within_array n w k base :
  0 <= w -> 0 <= base -> base + w * Z.of_nat k <= n -> reads_within n (read_array w k base).
Proof.
  revert base. induction k as [|k IH]; intros base Hw Hb Hn; [done|].
  cbn [read_array]. apply reads_within_bind; [apply reads_within_read; nia|].
  intros v. apply reads_within_bind; [apply IH; nia|done].
Qed.

(** A decoder applied to a sub-buffer that agrees with [b'] on what it reads. *)
Lemma rrun_rshift `{Sbe} {A} n (p : rprog A) base b b' :
  reads_within n p ->
  (forall i, Z.of_nat i < n -> b !! (base + i)%nat = b' !! i) ->
  rrun (rshift (Z.of_nat base) p) b = rrun p b'.
Proof.
  intros Hp Hext. induction p as [a|w off k IH|k IH]; simpl in *; [done| |done].
  destruct Hp as (Hw & Ho & Hn & Hk). rewrite (IH _ (Hk _)). f_equal. f_equal.
  rewrite <- sbe_get_drop by done. apply sbe_get_ext; [done..|].
  intros i Hi. rewrite lookup_drop. apply Hext. lia.
Qed.

(** ** Sequences of field writes *)

Record write := Write { w_off : Z; w_width : Z; w_val : Z }.

Section Writes.
Context `{Sbe}.

(** Consecutive field stores into one buffer. *)
Definition sbe_puts (ws : list write) (b : bytes) : bytes :=
  fold_left (fun b w => sbe_put (w_width w) b (w_off w) (w_val w)) ws b.

(** All stores lie within [n] bytes. *)
Definition writes_in (n : Z) (ws : list write) : bool :=
  forallb (fun w => (0 <=? w_off w) && (0 <=? w_width w) &&
                    (w_off w + w_width w <=? n)) ws.

Definition write_fits (w : write) : Prop := 0 <= w_val w < 2 ^ (8 * w_width w).

(** What a sequence of stores leaves in the field [off, off + width):
    [inl v] the value [v] was stored last, [inr true] the field is as before,
    [inr false] some store overlapped it in part. *)
Fixpoint last_write (ws : list write) (off width : Z) (acc : Z + bool) : Z + bool :=
  match ws with
  | [] => acc
  | w :: ws' =>
    last_write ws' off width
      (if (w_off w =? off) && (w_width w =? width) then inl (w_val w)
       else if (w_off w + w_width w <=? off) || (off + width <=? w_off w) then acc
       else inr false)
  end.

(** Consecutive entries of one width: a repeating group of one field. *)
Definition array_writes (w base : Z) (vals : list Z) : list write :=
  imap (fun i v => Write (base + w * Z.of_nat i) w v) vals.

Lemma sbe_puts_len ws b : blen (sbe_puts ws b) = blen b.
Proof.
  revert b. induction ws as [|w ws IH]; intros b; simpl; [done|].
  by rewrite IH, sbe_put_len.
Qed.

Lemma sbe_puts_app ws ws' b : sbe_puts (ws ++ ws') b = sbe_puts ws' (sbe_puts ws b).
Proof. unfold sbe_puts. by rewrite fold_left_app. Qed.

Definition field_is (b : bytes) (off width : Z) (old : Z) (a : Z + bool) : Prop :=
  match a with
  | inl v => sbe_get width b off = v
  | inr true => sbe_get width b off = old
  | inr false => True
  end.

Lemma sbe_get_puts ws b off width old acc :
  writes_in (blen b) ws = true -> Forall write_fits ws ->
  0 <= width -> 0 <= off ->
  field_is b off width old acc ->
  field_is (sbe_puts ws b) off width old (last_write ws off width acc).
Proof.
  intros Hin Hfit Hw Ho. revert b acc Hin.
  induction Hfit as [|w ws Hv _ IH]; intros b acc Hin Hacc; [done|].
  simpl in Hin |- *. apply andb_true_iff in Hin as [Hin Hins]. bool_simp.
  apply IH; [by rewrite sbe_put_len|].
  destruct (_ && _) eqn:Esame; bool_simp; subst.
  { simpl. by apply sbe_get_put_eq. }
  destruct (_ || _) eqn:Edis; [|done].
  apply orb_true_iff in Edis.
  assert (Hsame : sbe_get width (sbe_put (w_width w) b (w_off w) (w_val w)) off =
                  sbe_get width b off).
  { apply sbe_get_put_ne; try done. destruct Edis; bool_simp; lia. }
  unfold field_is in *. destruct acc as [|[]]; by rewrite ?Hsame.
Qed.

(** Stores outside a field leave it. *)
Lemma sbe_get_puts_outside ws b off width :
  0 <= width -> 0 <= off ->
  Forall (fun w => 0 <= w_off w /\ 0 <= w_width w /\
                   (off + width <= w_off w \/ w_off w + w_width w <= off)) ws ->
  sbe_get width (sbe_puts ws b) off = sbe_get width b off.
Proof.
  intros Hw Ho Hws. revert b. induction Hws as [|w ws (? & ? & ?) _ IH]; intros b; simpl; [done|].
  rewrite IH. apply sbe_get_put_ne; done.
Qed.

Lemma array_writes_cons w base v vals :
  array_writes w base (v :: vals) = Write base w v :: array_writes w (base + w) vals.
Proof.
  unfold array_writes. cbn [imap]. f_equal; [f_equal; lia|].
  apply imap_ext. intros i x _. simpl. f_equal. lia.
Qed.

Lemma array_writes_outside w base vals off width b :
  0 <= w -> 0 <= base -> 0 <= width -> 0 <= off ->
  off + width <= base \/ base + w * Z.of_nat (length vals) <= off ->
  sbe_get width (sbe_puts (array_writes w base vals) b) off = sbe_get width b off.
Proof.
  intros Hw Hb Hwd Ho Hd. apply sbe_get_puts_outside; try done.
  apply Forall_lookup. intros i x Hi. unfold array_writes in Hi.
  rewrite list_lookup_imap, fmap_Some in Hi. destruct Hi as (v & Hv & ->).
  apply lookup_lt_Some in Hv. simpl. nia.
Qed.

Lemma array_writes_get w base vals b i v :
  0 <= w -> 0 <= base -> base + w * Z.of_nat (length vals) <= blen b ->
  Forall (fun v => 0 <= v < 2 ^ (8 * w)) vals -> vals !! i = Some v ->
  sbe_get w (sbe_puts (array_writes w base vals) b) (base + w * Z.of_nat i) = v.
Proof.
  intros Hw Hb Hlen Hv Hi. revert base b i Hb Hlen Hi.
  induction Hv as [|x vals Hx _ IH]; intros base b i Hb Hlen Hi; [by rewrite lookup_nil in Hi|].
  rewrite array_writes_cons. simpl. cbn [length] in Hlen. destruct i as [|i].
  - injection Hi as ->. change (fold_left _ ?l ?c) with (sbe_puts l c).
    rewrite Z.mul_0_r, Z.add_0_r, array_writes_outside by nia.
    apply sbe_get_put_eq; nia.
  - change (fold_left _ ?l ?c) with (sbe_puts l c).
    replace (base + w * Z.of_nat (S i)) with (base + w + w * Z.of_nat i) by lia.
    apply IH; [lia| |done]. rewrite sbe_put_len. nia.
Qed.

(** The form used by the codec proofs: offsets are literals, so the premises
    on [writes_in] and [last_write] are computed. *)
Lemma sbe_get_puts_val ws b off width v n :
  writes_in n ws = true -> n <= blen b -> Forall write_fits ws ->
  0 <= width -> 0 <= off ->
  last_write ws off width (inr true) = inl v ->
  sbe_get width (sbe_puts ws b) off = v.
Proof.
  intros Hin Hn Hfit Hw Ho Hl.
  pose proof (sbe_get_puts ws b off width (sbe_get width b off) (inr true)) as P.
  rewrite Hl in P. apply P; try done.
  apply forallb_forall. intros x Hx.
  pose proof (proj1 (forallb_forall _ _) Hin x Hx) as Hx'. simpl in Hx'.
  bool_simp. rewrite !andb_true_iff, !Z.leb_le. lia.
Qed.

Lemma sbe_get_puts_old ws b off width n :
  writes_in n ws = true -> n <= blen b -> Forall write_fits ws ->
  0 <= width -> 0 <= off ->
  last_write ws off width (inr true) = inr true ->
  sbe_get width (sbe_puts ws b) off = sbe_get width b off.
Proof.
  intros Hin Hn Hfit Hw Ho Hl.
  pose proof (sbe_get_puts ws b off width (sbe_get width b off) (inr true)) as P.
  rewrite Hl in P. apply P; try done.
  apply forallb_forall. intros x Hx.
  pose proof (proj1 (forallb_forall _ _) Hin x Hx) as Hx'. simpl in Hx'.
  bool_simp. rewrite !andb_true_iff, !Z.leb_le. lia.
Qed.
End Writes.

(** ** Repeating groups *)

Definition shift_write (k : Z) (w : write) : write := Write (k + w_off w) (w_width w) (w_val w).

Section Groups.
Context `{Sbe} {A : Type} (size : Z) (fields : A -> list write).

(** The stores for the entries of a group, each [size] bytes long. *)
Fixpoint group_writes (base : Z) (l : list A) : list write :=
  match l with
  | [] => []
  | a :: l' => map (shift_write base) (fields a) ++ group_writes (base + size) l'
  end.

Context (Hsize : 0 <= size) (Hin : forall a, writes_in size (fields a) = true).

Lemma fields_range a w :
  In w (fields a) -> 0 <= w_off w /\ 0 <= w_width w /\ w_off w + w_width w <= size.
Proof.
  intros Hw. pose proof (proj1 (forallb_forall _ _) (Hin a) w Hw) as E. simpl in E. bool_simp. lia.
Qed.

Lemma group_writes_range base l w :
  In w (group_writes base l) ->
  base <= w_off w /\ 0 <= w_width w /\ w_off w + w_width w <= base + size * Z.of_nat (length l).
Proof.
  revert base. induction l as [|a l IH]; intros base; cbn [group_writes length]; [done|].
  intros [Hw|Hw]%in_app_iff.
  - apply in_map_iff in Hw as (x & <- & Hx%fields_range). simpl. nia.
  - apply IH in Hw. nia.
Qed.

Lemma group_writes_outside base l off width b :
  0 <= base -> 0 <= width -> 0 <= off ->
  off + width <= base \/ base + size * Z.of_nat (length l) <= off ->
  sbe_get width (sbe_puts (group_writes base l) b) off = sbe_get width b off.
Proof.
  intros Hb Hw Ho Hd. apply sbe_get_puts_outside; [done..|].
  apply List.Forall_forall. intros w Hx%group_writes_range. lia.
Qed.

Lemma group_writes_fit base l :
  (forall a, In a l -> Forall write_fits (fields a)) -> Forall write_fits (group_writes base l).
Proof.
  revert base. induction l as [|a l IH]; intros base Hf; simpl; [apply Forall_nil_2|].
  apply Forall_app_2; [|apply IH; intros; apply Hf; by right].
  apply Forall_fmap. eapply Forall_impl; [apply Hf; by left|]. done.
Qed.

Lemma last_write_shift k ws off width acc :
  last_write (map (shift_write k) ws) (k + off) width acc = last_write ws off width acc.
Proof.
  revert acc. induction ws as [|w ws IH]; intros acc; [done|]. simpl.
  replace (k + w_off w =? k + off) with (w_off w =? off) by (apply eq_iff_eq_true; rewrite !Z.eqb_eq; lia).
  replace (k + w_off w + w_width w <=? k + off) with (w_off w + w_width w <=? off)
    by (apply eq_iff_eq_true; rewrite !Z.leb_le; lia).
  replace (k + off + width <=? k + w_off w) with (off + width <=? w_off w)
    by (apply eq_iff_eq_true; rewrite !Z.leb_le; lia).
  apply IH.
Qed.

Lemma shift_writes_in k n ws :
  0 <= k -> writes_in n ws = true -> writes_in (k + n) (map (shift_write k) ws) = true.
Proof.
  intros Hk Hw. apply forallb_forall. intros x Hx. apply in_map_iff in Hx as (w & <- & Hx).
  pose proof (proj1 (forallb_forall _ _) Hw w Hx) as E. simpl in *. bool_simp.
  rewrite !andb_true_iff, !Z.leb_le. lia.
Qed.

(** A field of entry [i] is what the entry's stores left there. *)
Lemma group_writes_get base l i a off width v b :
  0 <= base -> base + size * Z.of_nat (length l) <= blen b ->
  (forall a, In a l -> Forall write_fits (fields a)) ->
  l !! i = Some a -> 0 <= width -> 0 <= off -> off + width <= size ->
  last_write (fields a) off width (inr true) = inl v ->
  sbe_get width (sbe_puts (group_writes base l) b) (base + size * Z.of_nat i + off) = v.
Proof.
  intros Hb Hlen Hf Hi Hw Ho Hs Hl. revert base b i Hb Hlen Hi.
  induction l as [|x l IH]; intros base b i Hb Hlen Hi; [by rewrite lookup_nil in Hi|].
  cbn [length] in Hlen. cbn [group_writes]. rewrite sbe_puts_app.
  pose proof (Z.mul_nonneg_nonneg size (Z.of_nat (length l)) Hsize ltac:(lia)).
  destruct i as [|i].
  - injection Hi as ->. rewrite group_writes_outside by nia.
    rewrite Z.mul_0_r, Z.add_0_r.
    apply (sbe_get_puts_val _ _ _ _ _ (base + size)); try lia.
    + by apply shift_writes_in.
    + apply Forall_fmap. eapply Forall_impl; [apply Hf; by left|]. done.
    + by rewrite last_write_shift.
  - replace (base + size * Z.of_nat (S i) + off) with (base + size + size * Z.of_nat i + off) by lia.
    apply IH; try done; [|lia|rewrite sbe_puts_len; nia]. intros y Hy. apply Hf. by right.
Qed.
(** What the receiver of an encoded message with one group finds in it. *)
Lemma group_message base fixed b l :
  0 <= base -> base + size * Z.of_nat (length l) <= blen b ->
  (forall a, In a l -> Forall write_fits (fields a)) ->
  let m := take (Z.to_nat (base + size * Z.of_nat (length l)))
             (sbe_puts (group_writes base l) (sbe_puts fixed b)) in
  blen m = base + size * Z.of_nat (length l) /\
  (forall w off, 0 <= w -> 0 <= off -> off + w <= base ->
     sbe_get w m off = sbe_get w (sbe_puts fixed b) off) /\
  (forall i a off width v, l !! i = Some a -> 0 <= width -> 0 <= off -> off + width <= size ->
     last_write (fields a) off width (inr true) = inl v ->
     sbe_get width m (base + size * Z.of_nat i + off) = v).
Proof.
  intros Hb Hlen Hf m.
  pose proof (Z.mul_nonneg_nonneg size (Z.of_nat (length l)) Hsize ltac:(lia)).
  assert (Hb1 : blen (sbe_puts fixed b) = blen b) by apply sbe_puts_len.
  assert (Hm : blen m = base + size * Z.of_nat (length l)).
  { subst m. pose proof (sbe_puts_len (group_writes base l) (sbe_puts fixed b)).
    unfold blen in *. rewrite length_take. lia. }
  assert (Hext : forall w off, 0 <= w -> 0 <= off -> off + w <= base + size * Z.of_nat (length l) ->
            sbe_get w m off = sbe_get w (sbe_puts (group_writes base l) (sbe_puts fixed b)) off).
  { intros w off ? ? ?. apply sbe_get_ext; try done. intros i Hi. apply lookup_take_lt. lia. }
  split_and!; [done| |].
  - intros w off ? ? ?. rewrite Hext by lia. apply group_writes_outside; try done. by left.
  - intros i a off width v Hi ? ? ? Hl. pose proof (lookup_lt_Some _ _ _ Hi).
    rewrite Hext by nia. eapply group_writes_get; try done. lia.
Qed.
End Groups.

(** The loop that decodes a group: [entry] decodes the fields at an offset. *)
Fixpoint decode_group `{Sbe} {A} (entry : bytes -> Z -> res A) (b : bytes) (pos block : Z) (n : nat)
    : res (list A) :=
  match n with
  | O => Ok []
  | S n' =>
    match sbe_group_next pos block (blen b) with
    | None => Err EINVAL
    | Some off =>
      let! a := entry b off in
      let! l := decode_group entry b (pos + block) block n' in
      Ok (a :: l)
    end
  end.

Lemma decode_group_ok `{Sbe} {A B} (entry : bytes -> Z -> res A) (f : B -> A) b pos block l :
  0 <= block -> pos + block * Z.of_nat (length l) <= blen b ->
  (forall i x, l !! i = Some x -> entry b (pos + block * Z.of_nat i) = Ok (f x)) ->
  decode_group entry b pos block (length l) = Ok (map f l).
Proof.
  revert pos. induction l as [|x l IH]; intros pos Hb Hlen He; [done|].
  cbn [length] in Hlen. simpl. rewrite sbe_group_next_spec.
  replace (pos + block <=? blen b) with true by (symmetry; apply Z.leb_le; nia).
  pose proof (He 0%nat x eq_refl) as Hx. rewrite Z.mul_0_r, Z.add_0_r in Hx. rewrite Hx. simpl.
  rewrite IH; [done|done|lia|]. intros i y Hy. rewrite <- (He (S i) y Hy). f_equal. lia.
Qed.

Lemma decode_group_sound `{Sbe} {A} (entry : bytes -> Z -> res A) (P : A -> Prop) b pos block n l :
  (forall off a, entry b off = Ok a -> P a) ->
  decode_group entry b pos block n = Ok l -> length l = n /\ Forall P l.
Proof.
  intros Hp. revert pos l. induction n as [|n IH]; intros pos l E; simpl in E.
  { by simplify_eq. }
  destruct (sbe_group_next _ _ _) as [off|]; [|done].
  destruct (entry b off) as [a|] eqn:Ea; simpl in E; [|done].
  destruct (decode_group _ _ _ _ _) as [l'|] eqn:El; simpl in E; [|done]. simplify_eq.
  apply IH in El as [<- Hl]. split; [done|]. constructor; eauto.
Qed.

(** ** The little-endian instance *)

Module Le.
Definition byte_at (b : bytes) (i : nat) : Z := default 0 (b !! i) mod 256.

Fixpoint get (n : nat) (b : bytes) (off : nat) : Z :=
  match n with
  | O => 0
  | S n' => byte_at b off + 256 * get n' b (S off)
  end.

Fixpoint put (n : nat) (b : bytes) (off : nat) (v : Z) : bytes :=
  match n with
  | O => b
  | S n' => put n' (<[off := v mod 256]> b) (S off) (v / 256)
  end.

Lemma get_ext n b b' off :
  (forall i, (off <= i < off + n)%nat -> b !! i = b' !! i) ->
  get n b off = get n b' off.
Proof.
  revert off. induction n as [|n IH]; intros off Hext; simpl; [done|].
  unfold byte_at. rewrite (Hext off) by lia. rewrite (IH (S off)); [done|].
  intros i Hi. apply Hext. lia.
Qed.

Lemma put_length n b off v : length (put n b off v) = length b.
Proof.
  revert b off v. induction n as [|n IH]; intros; simpl; [done|].
  by rewrite IH, length_insert.
Qed.

Lemma put_outside n b off v i :
  (i < off \/ off + n <= i)%nat -> put n b off v !! i = b !! i.
Proof.
  revert b off v. induction n as [|n IH]; intros b off v Hi; simpl; [done|].
  rewrite IH by lia. apply list_lookup_insert_ne. lia.
Qed.

Lemma get_range n b off : 0 <= get n b off < 2 ^ (8 * Z.of_nat n).
Proof.
  revert off. induction n as [|n IH]; intros off; [simpl; lia|].
  replace (8 * Z.of_nat (S n)) with (8 + 8 * Z.of_nat n) by lia.
  rewrite Z.pow_add_r by lia. change (2 ^ 8) with 256. cbn [get].
  pose proof (IH (S off)). pose proof (Z.mod_pos_bound (default 0 (b !! off)) 256).
  unfold byte_at. nia.
Qed.

Lemma get_put n b off v :
  (off + n <= length b)%nat -> get n (put n b off v) off = v mod 2 ^ (8 * Z.of_nat n).
Proof.
  revert b off v. induction n as [|n IH]; intros b off v Hlen.
  { simpl. by rewrite Z.mod_1_r. }
  replace (8 * Z.of_nat (S n)) with (8 + 8 * Z.of_nat n) by lia.
  rewrite Z.pow_add_r by lia. change (2 ^ 8) with 256. cbn [get put].
  rewrite IH by (rewrite length_insert; lia).
  unfold byte_at. rewrite put_outside by lia.
  rewrite list_lookup_insert_eq by lia. simpl.
  rewrite Zmod_mod, Z.rem_mul_r by lia. done.
Qed.

Lemma get_drop n b k off : get n (drop k b) off = get n b (k + off)%nat.
Proof.
  revert off. induction n as [|n IH]; intros off; simpl; [done|].
  unfold byte_at. rewrite lookup_drop, IH. by rewrite Nat.add_succ_r.
Qed.

Definition enum (valid : list Z) (null raw : Z) : option Z :=
  if bool_decide (raw ∈ valid) || (raw =? null) then Some raw else None.
End Le.

#[export, program] Instance le_sbe : Sbe := {|
  sbe_get w b off := Le.get (Z.to_nat w) b (Z.to_nat off);
  sbe_put w b off v := Le.put (Z.to_nat w) b (Z.to_nat off) v;
  sbe_enum := Le.enum;
  sbe_group_wrap b pos len :=
    if pos + 4 <=? len
    then Some (Le.get 2 b (Z.to_nat pos), Le.get 2 b (Z.to_nat (pos + 2)))
    else None;
  sbe_group_next pos block len := if pos + block <=? len then Some pos else None;
  sbe_var_data pos n len := if pos + 4 + n <=? len then Some (pos + 4) else None;
  sbe_var_failed pos := pos + 4;
|}.
Next Obligation. intros. unfold blen. by rewrite Le.put_length. Qed.
Next Obligation.
  intros w b off Hw. pose proof (Le.get_range (Z.to_nat w) b (Z.to_nat off)) as R.
  by rewrite Z2Nat.id in R.
Qed.
Next Obligation.
  intros w b off v Hw Ho Hb Hv. unfold blen in Hb.
  pose proof (Le.get_put (Z.to_nat w) b (Z.to_nat off) v ltac:(lia)) as P.
  rewrite Z2Nat.id, Z.mod_small in P by done. exact P.
Qed.
Next Obligation.
  intros w b b' off Hw Ho Hext. apply Le.get_ext. intros i Hi. apply Hext. lia.
Qed.
Next Obligation.
  intros w b k off Ho. pose proof (Le.get_drop (Z.to_nat w) b k (Z.to_nat off)) as P.
  rewrite <- (Nat2Z.id k) in P at 2. rewrite <- Z2Nat.inj_add in P by lia. exact P.
Qed.
Next Obligation.
  intros w b off v i Hw Ho Hi. apply Le.put_outside. lia.
Qed.
Next Obligation.
  intros. unfold Le.enum. by rewrite bool_decide_eq_true_2.
Qed.
Next Obligation.
  intros. unfold Le.enum. by rewrite Z.eqb_refl, orb_true_r.
Qed.
Next Obligation.
  intros valid null raw v. unfold Le.enum. destruct (_ || _) eqn:E; [|done].
  intros [= <-]. split; [done|].
  apply orb_true_iff in E as [E|E]; bool_simp; auto.
Qed.
Next Obligation. done. Qed.
Next Obligation. done. Qed.
Next Obligation. done. Qed.

(** ** The common message header and group header *)

Section Headers.
Context `{Sbe}.

Definition messageHeader_encoded_length : Z := 8.
Definition messageHeader_blockLength (b : bytes) : Z := sbe_get 2 b 0.
Definition messageHeader_templateId (b : bytes) : Z := sbe_get 2 b 2.
Definition messageHeader_schemaId (b : bytes) : Z := sbe_get 2 b 4.
Definition messageHeader_version (b : bytes) : Z := sbe_get 2 b 6.

(** The four setters every encoder calls after [messageHeader_wrap]. *)
Definition messageHeader_writes (block template schema version : Z) : list write :=
  [Write 0 2 block; Write 2 2 template; Write 4 2 schema; Write 6 2 version].

(** [X_g_wrap_for_encode]: the group header (block length, number of entries). *)
Definition group_header_writes (pos block count : Z) : list write :=
  [Write pos 2 block; Write (pos + 2) 2 count].
End Headers.

(** Solves the range side conditions of field writes. *)
Ltac write_fit_tac :=
  unfold write_fits; cbn [w_val w_width];
  first [ assumption | apply u8_range | apply u16_range | apply u32_range | apply u64_range
        | split; [discriminate | reflexivity] | ulia ].
Ltac write_fits_tac :=
  repeat first [apply Forall_nil_2 | apply Forall_cons_2; [write_fit_tac|]].

(** [sbe_field n]: replace one field read of a written buffer by the value the
    writes stored there; [n] bounds the writes. [sbe_run n] executes a read
    program field by field. *)
Ltac sbe_field n :=
  match goal with
  | |- context [sbe_get ?w (sbe_puts ?ws ?b) ?off] =>
    erewrite (sbe_get_puts_val ws b off w _ n);
      [|reflexivity|by assumption|by assumption|lia|lia|reflexivity]
  end.
Ltac sbe_run n :=
  unfold read;
  repeat first [ progress cbn [rrun rbind read_array w_val] | sbe_field n | rewrite Z.eqb_refl ].
