(* ===== verification/Tensor.v ===== *)
(** * Tensor: tensor headers (tp_tensor.c and the encoder in tp_producer.c)

    [tp_tensor_header_t] with its decoder, its validator - which also fills
    missing strides - and the encoder the producer uses.  The validator
    multiplies strides by dimensions in [int32_t]; the model returns [None]
    where that product overflows, which is undefined behaviour in C.

    The theorems: in a validated header distinct elements are at least the
    innermost stride apart, so that they do not overlap when that stride is at
    least an element's size; validation is idempotent, and decoding inverts
    encoding. *)

From Stdlib Require Import ZArith Lia Bool.
From S2P Require Import Prelude Sbe.

Definition TP_MAX_DIMS : Z := 8.

(** ** Schema constants: wire-schema.xml *)

Definition tensor_pool_majorOrder_ROW : Z := 1.
Definition tensor_pool_majorOrder_COLUMN : Z := 2.
Definition tensor_pool_progressUnit_NONE : Z := 0.
Definition tensor_pool_progressUnit_ROWS : Z := 1.
Definition tensor_pool_progressUnit_COLUMNS : Z := 2.

Definition dtype_values : list Z := [0; 1; 2; 3; 4; 5; 6; 7; 8; 9; 10; 11; 13; 14].
Definition majorOrder_values : list Z := [0; 1; 2].
Definition progressUnit_values : list Z := [0; 1; 2].
Definition int16_null : Z := - 2 ^ 15.
Definition uint8_null : Z := 255.

Definition tensorHeader_sbe_block_length : Z := 184.
Definition tensorHeader_sbe_template_id : Z := 52.
Definition tensorHeader_sbe_schema_id : Z := 900.
Definition tensorHeader_sbe_schema_version : Z := 1.

(** [tp_dtype_size_bytes]: the switch over the dtype enumerators. *)
Definition tp_dtype_size_bytes (dtype : Z) : Z :=
  if bool_decide (dtype ∈ [1; 2; 11; 13; 14]) then 1
  else if bool_decide (dtype ∈ [3; 4]) then 2
  else if bool_decide (dtype ∈ [5; 6; 9]) then 4
  else if bool_decide (dtype ∈ [7; 8; 10]) then 8
  else 0.

Record tp_tensor_header_t := {
  th_dtype : Z;                   (* int16_t *)
  th_major_order : Z;             (* int16_t *)
  th_ndims : Z;                   (* uint8_t *)
  th_progress_unit : Z;           (* uint8_t *)
  th_progress_stride_bytes : Z;   (* uint32_t *)
  th_dims : list Z;               (* int32_t[8] *)
  th_strides : list Z;            (* int32_t[8] *)
}.

Definition set_strides (h : tp_tensor_header_t) (s : list Z) : tp_tensor_header_t :=
  {| th_dtype := th_dtype h; th_major_order := th_major_order h;
     th_ndims := th_ndims h; th_progress_unit := th_progress_unit h;
     th_progress_stride_bytes := th_progress_stride_bytes h;
     th_dims := th_dims h; th_strides := s |}.

(** The values a [tp_tensor_header_t] object can hold. *)
Record tensor_wf (h : tp_tensor_header_t) : Prop := {
  twf_dtype : is_i16 (th_dtype h);
  twf_order : is_i16 (th_major_order h);
  twf_ndims : is_u8 (th_ndims h);
  twf_unit : is_u8 (th_progress_unit h);
  twf_pstride : is_u32 (th_progress_stride_bytes h);
  twf_dims_len : length (th_dims h) = 8%nat;
  twf_strides_len : length (th_strides h) = 8%nat;
  twf_dims : Forall is_i32 (th_dims h);
  twf_strides : Forall is_i32 (th_strides h);
}.

(** ** tp_tensor_header_validate *)

Definition dim_or_1 (d : Z) : Z := if 0 <? d then d else 1.

(** The ROW loop of [tp_tensor_fill_strides]: [i = k - 1] down to [0].  The
    boolean is false where the C function returns -1. *)
Fixpoint fill_row (dims strides : list Z) (k : nat) : option (list Z * bool) :=
  match k with
  | O => Some (strides, true)
  | S i =>
    match i32_checked (strides !!! S i * dim_or_1 (dims !!! S i)) with
    | None => None
    | Some expected =>
      if strides !!! i =? 0 then fill_row dims (<[i := expected]> strides) i
      else if strides !!! i <? expected then Some (strides, false)
      else fill_row dims strides i
    end
  end.

(** The COLUMN loop: [i] up to [ndims - 1], [n] iterations left. *)
Fixpoint fill_column (dims strides : list Z) (i n : nat) : option (list Z * bool) :=
  match n with
  | O => Some (strides, true)
  | S n' =>
    match i32_checked (strides !!! (i - 1)%nat * dim_or_1 (dims !!! (i - 1)%nat)) with
    | None => None
    | Some expected =>
      if strides !!! i =? 0 then fill_column dims (<[i := expected]> strides) (S i) n'
      else if strides !!! i <? expected then Some (strides, false)
      else fill_column dims strides (S i) n'
    end
  end.

Definition fill_first (strides : list Z) (i : nat) (elem_size : Z) : list Z :=
  if strides !!! i =? 0 then <[i := elem_size]> strides else strides.

Definition tp_tensor_fill_strides (h : tp_tensor_header_t) (elem_size : Z)
    : option (tp_tensor_header_t * bool) :=
  let n := Z.to_nat (th_ndims h) in
  if th_major_order h =? tensor_pool_majorOrder_ROW then
    if th_ndims h =? 0 then Some (h, false)
    else
      '(s, ok) ← fill_row (th_dims h) (fill_first (th_strides h) (n - 1) elem_size) (n - 1);
      Some (set_strides h s, ok)
  else if th_major_order h =? tensor_pool_majorOrder_COLUMN then
    if th_ndims h =? 0 then Some (h, false)
    else
      '(s, ok) ← fill_column (th_dims h) (fill_first (th_strides h) 0 elem_size) 1 (n - 1);
      Some (set_strides h s, ok)
  else Some (h, false).

Definition tp_tensor_validate_progress (h : tp_tensor_header_t) : bool :=
  if th_progress_unit h =? tensor_pool_progressUnit_NONE then true
  else if th_progress_stride_bytes h =? 0 then false
  else if th_progress_unit h =? tensor_pool_progressUnit_ROWS then
    negb (th_ndims h =? 0) &&
    (u32 (th_strides h !!! 0%nat) =? th_progress_stride_bytes h)
  else if th_progress_unit h =? tensor_pool_progressUnit_COLUMNS then
    negb (th_ndims h <? 2) &&
    (u32 (th_strides h !!! 1%nat) =? th_progress_stride_bytes h)
  else false.

(** The dims/strides sign loop of [tp_tensor_header_validate]. *)
Definition dims_nonneg (h : tp_tensor_header_t) : bool :=
  forallb (fun i => (0 <=? th_dims h !!! i) && (0 <=? th_strides h !!! i))
          (seq 0 (Z.to_nat (th_ndims h))).

(** The header is an in/out parameter: its strides are filled in place, also
    on the error paths after [tp_tensor_fill_strides]. *)
Definition tp_tensor_header_validate (header : ptr tp_tensor_header_t)
    : option (ptr tp_tensor_header_t * res unit) :=
  match header with
  | NULL => Some (NULL, Err EINVAL)
  | Some h =>
    if (th_ndims h =? 0) || (TP_MAX_DIMS <? th_ndims h) then Some (Some h, Err EINVAL)
    else
      let elem_size := tp_dtype_size_bytes (th_dtype h) in
      if elem_size =? 0 then Some (Some h, Err EINVAL)
      else if negb (dims_nonneg h) then Some (Some h, Err EINVAL)
      else
        '(h', ok) ← tp_tensor_fill_strides h elem_size;
        if negb ok then Some (Some h', Err EINVAL)
        else if negb (tp_tensor_validate_progress h') then Some (Some h', Err EINVAL)
        else Some (Some h', Ok tt)
  end.

(** ** tp_tensor_header_decode and tp_encode_tensor_header *)

Section Codec.
Context `{Sbe}.

(** Message header: blockLength 0, templateId 2, schemaId 4, version 6.  Block
    fields from byte 8: dtype 0, majorOrder 2, ndims 4, padAlign 5,
    progressUnit 6, progressStrideBytes 7, dims 11, strides 43. *)
Definition tensor_header_reads : rprog (res tp_tensor_header_t) :=
  let hdr := messageHeader_encoded_length in
  read! schema_id := read 2 4 in
  read! template_id := read 2 2 in
  read! version := read 2 6 in
  read! block_length := read 2 0 in
  rguard! schema_id =? tensorHeader_sbe_schema_id else EINVAL in
  rguard! template_id =? tensorHeader_sbe_template_id else EINVAL in
  rguard! version =? tensorHeader_sbe_schema_version else EINVAL in
  rguard! block_length =? tensorHeader_sbe_block_length else EINVAL in
  read! raw_dtype := read 2 (hdr + 0) in
  match sbe_enum dtype_values int16_null (i16 raw_dtype) with
  | None => RRet (Err EINVAL)
  | Some dtype =>
    read! raw_order := read 2 (hdr + 2) in
    match sbe_enum majorOrder_values int16_null (i16 raw_order) with
    | None => RRet (Err EINVAL)
    | Some order =>
      read! ndims := read 1 (hdr + 4) in
      read! raw_progress := read 1 (hdr + 6) in
      match sbe_enum progressUnit_values uint8_null raw_progress with
      | None => RRet (Err EINVAL)
      | Some progress =>
        read! pstride := read 4 (hdr + 7) in
        read! dims := read_array 4 8 (hdr + 11) in
        read! strides := read_array 4 8 (hdr + 43) in
        RRet (Ok {| th_dtype := i16 dtype; th_major_order := i16 order;
                    th_ndims := ndims; th_progress_unit := u8 progress;
                    th_progress_stride_bytes := pstride;
                    th_dims := map i32 dims; th_strides := map i32 strides |})
      end
    end
  end.

Definition tp_tensor_header_decode (buffer : ptr bytes) (length : Z)
    : res tp_tensor_header_t :=
  match buffer with
  | NULL => Err EINVAL
  | Some b =>
    guard! tensorHeader_sbe_block_length + messageHeader_encoded_length <=? length
      else EINVAL in
    rrun tensor_header_reads b
  end.

(** [dims] and [strides] are written alternately, element by element. *)
Definition tensor_array_writes (h : tp_tensor_header_t) : list write :=
  concat (map (fun i =>
    [Write (8 + 11 + 4 * Z.of_nat i) 4 (u32 (th_dims h !!! i));
     Write (8 + 43 + 4 * Z.of_nat i) 4 (u32 (th_strides h !!! i))]) (seq 0 8)).

Definition tensor_header_writes (h : tp_tensor_header_t) : list write :=
  messageHeader_writes tensorHeader_sbe_block_length tensorHeader_sbe_template_id
    tensorHeader_sbe_schema_id tensorHeader_sbe_schema_version ++
  [Write (8 + 0) 2 (u16 (th_dtype h)); Write (8 + 2) 2 (u16 (th_major_order h));
   Write (8 + 4) 1 (th_ndims h); Write (8 + 5) 1 0;
   Write (8 + 6) 1 (th_progress_unit h);
   Write (8 + 7) 4 (th_progress_stride_bytes h)] ++
  tensor_array_writes h.

Definition tp_encode_tensor_header (buffer : bytes) (tensor : tp_tensor_header_t)
    : res bytes :=
  guard! 8 + tensorHeader_sbe_block_length <=? blen buffer else EINVAL in
  Ok (sbe_puts (tensor_header_writes tensor) (replicate (length buffer) 0)).
End Codec.

(** [tp_prepare_tensor_header]: copy, clear the unused dimensions, validate. *)
Definition clear_from (n : nat) (l : list Z) : list Z :=
  imap (fun i x => if (i <? n)%nat then x else 0) l.

Definition tp_prepare_tensor_header (tensor : ptr tp_tensor_header_t)
    : option (res tp_tensor_header_t) :=
  match tensor with
  | NULL => Some (Err EINVAL)
  | Some h =>
    let n := Z.to_nat (th_ndims h) in
    let out :=
      if th_ndims h <? TP_MAX_DIMS then
        {| th_dtype := th_dtype h; th_major_order := th_major_order h;
           th_ndims := th_ndims h; th_progress_unit := th_progress_unit h;
           th_progress_stride_bytes := th_progress_stride_bytes h;
           th_dims := clear_from n (th_dims h);
           th_strides := clear_from n (th_strides h) |}
      else h in
    '(out', r) ← tp_tensor_header_validate (Some out);
    Some match out', r with
         | Some h', Ok _ => Ok h'
         | _, Err e => Err e
         | NULL, Ok _ => Err EINVAL
         end
  end.

(** ** Strided layouts *)

(** The (dimension, stride) pairs of a header, outermost dimension first: axis
    0 is outermost in ROW order and innermost in COLUMN order. *)
Definition tensor_axes (h : tp_tensor_header_t) : list (Z * Z) :=
  let n := Z.to_nat (th_ndims h) in
  map (fun i =>
    let j := if th_major_order h =? tensor_pool_majorOrder_COLUMN then (n - 1 - i)%nat else i in
    (th_dims h !!! j, th_strides h !!! j)) (seq 0 n).

(** Each stride covers the whole extent of the next inner axis. *)
Fixpoint axes_nested (axes : list (Z * Z)) : Prop :=
  match axes with
  | (_, s) :: (((d', s') :: _) as rest) => s' * dim_or_1 d' <= s /\ axes_nested rest
  | _ => True
  end.

Definition axes_pos (axes : list (Z * Z)) : Prop :=
  Forall (fun '(d, s) => 0 <= d /\ 0 < s) axes.

(** The byte offset of the element at [idx]. *)
Fixpoint element_offset (idx : list Z) (axes : list (Z * Z)) : Z :=
  match idx, axes with
  | i :: idx', (_, s) :: axes' => i * s + element_offset idx' axes'
  | _, _ => 0
  end.

Definition in_axes (idx : list Z) (axes : list (Z * Z)) : Prop :=
  Forall2 (fun i '(d, _) => 0 <= i < d) idx axes.

Fixpoint innermost_stride (axes : list (Z * Z)) : Z :=
  match axes with
  | [] => 0
  | [(_, s)] => s
  | _ :: axes' => innermost_stride axes'
  end.

Lemma dim_or_1_pos d : 0 < dim_or_1 d.
Proof. unfold dim_or_1. destruct (0 <? d) eqn:E; bool_simp; lia. Qed.

Lemma element_offset_bound idx d s axes :
  axes_nested ((d, s) :: axes) -> axes_pos ((d, s) :: axes) ->
  in_axes idx ((d, s) :: axes) ->
  0 <= element_offset idx ((d, s) :: axes) /\
  element_offset idx ((d, s) :: axes) + innermost_stride ((d, s) :: axes) <= s * d.
Proof.
  revert idx d s. induction axes as [|[d' s'] axes IH]; intros idx d s Hn Hp Hi.
  - inversion Hi as [|i ? idx' ? Hi0 Hi']; subst. inversion Hi'; subst.
    inversion Hp as [|? ? Hds Hp']; subst. simpl. nia.
  - inversion Hi as [|i ? idx' ? Hi0 Hi']; subst.
    inversion Hp as [|? ? Hds Hp']; subst.
    destruct Hn as [Hs Hn]. destruct (IH idx' d' s' Hn Hp' Hi') as [Hlo Hhi].
    assert (Hd' : dim_or_1 d' = d').
    { inversion Hi' as [|j ? ? ? Hj]; subst. unfold dim_or_1.
      destruct (0 <? d') eqn:E; bool_simp; lia. }
    rewrite Hd' in Hs.
    change (innermost_stride ((d, s) :: (d', s') :: axes))
      with (innermost_stride ((d', s') :: axes)).
    change (element_offset (i :: idx') ((d, s) :: (d', s') :: axes))
      with (i * s + element_offset idx' ((d', s') :: axes)). nia.
Qed.

(** Distinct in-range elements are at least the innermost stride apart. *)
Lemma element_offset_separated axes idx idx' :
  axes_nested axes -> axes_pos axes -> in_axes idx axes -> in_axes idx' axes ->
  idx <> idx' ->
  innermost_stride axes <= Z.abs (element_offset idx axes - element_offset idx' axes).
Proof.
  revert idx idx'. induction axes as [|[d s] axes IH]; intros idx idx' Hn Hp Hi Hi' Hne.
  { inversion Hi; inversion Hi'; subst. done. }
  inversion Hi as [|i ? r ? Hi0 Hr]; subst. inversion Hi' as [|j ? r' ? Hj0 Hr']; subst.
  inversion Hp as [|? ? Hds Hp']; subst. cbn [element_offset].
  destruct axes as [|[d' s'] axes].
  { inversion Hr; inversion Hr'; subst. simpl.
    assert (i <> j) by congruence. nia. }
  destruct Hn as [Hs Hn].
  change (innermost_stride ((d, s) :: (d', s') :: axes))
    with (innermost_stride ((d', s') :: axes)).
  destruct (decide (i = j)) as [->|Hij].
  { replace (j * s + _ - _) with (element_offset r ((d', s') :: axes) -
      element_offset r' ((d', s') :: axes)) by lia.
    apply IH; try done. congruence. }
  pose proof (element_offset_bound _ _ _ _ Hn Hp' Hr).
  pose proof (element_offset_bound _ _ _ _ Hn Hp' Hr').
  assert (Hd' : dim_or_1 d' = d').
  { inversion Hr as [|k ? ? ? Hk]; subst. unfold dim_or_1.
    destruct (0 <? d') eqn:E; bool_simp; lia. }
  rewrite Hd' in Hs.
  destruct (Z.lt_ge_cases i j); nia.
Qed.

(** ** The stride loops *)

(** The first [n] strides are non-negative [int32_t] values. *)
Definition strides_ok (n : nat) (s : list Z) : Prop :=
  forall i, (i < n)%nat -> is_i32 (s !!! i) /\ 0 <= s !!! i.

Lemma strides_ok_insert n s i x :
  strides_ok n s -> is_i32 x -> 0 <= x -> strides_ok n (<[i := x]> s).
Proof.
  intros Hs Hx Hx0 j Hj. rewrite list_lookup_total_insert.
  destruct (decide _); auto.
Qed.

Section Loops.
Variable N : nat.

(** Stride [i] covers the extent of axis [j]. *)
Definition covers (dims s : list Z) (i j : nat) : Prop :=
s !!! j * dim_or_1 (dims !!! j) <= s !!! i.

Lemma expected_ok s d j e :
strides_ok N s -> (j < N)%nat -> i32_checked (s !!! j * dim_or_1 d) = Some e ->
e = s !!! j * dim_or_1 d /\ is_i32 e /\ 0 <= e /\ (0 < s !!! j -> 0 < e).
Proof.
intros Hs Hj [-> Hr]%i32_checked_Some. pose proof (dim_or_1_pos d).
pose proof (Hs j Hj) as [_ ?]. split_and!; try ulia; nia.
Qed.

(** What a successful ROW loop guarantees. *)
Lemma fill_row_spec dims s k s' :
strides_ok N s -> (N <= length s)%nat -> (k < N)%nat -> 0 < s !!! k ->
fill_row dims s k = Some (s', true) ->
strides_ok N s' /\ length s' = length s /\
(forall i, (k <= i)%nat -> s' !!! i = s !!! i) /\
(forall i, (i < k)%nat -> covers dims s' i (S i) /\ 0 < s' !!! i) /\
(forall i, s !!! i <> 0 -> s' !!! i = s !!! i).
Proof.
revert s. induction k as [|k IH]; intros s Hs Hl0 Hk Hpos Hf; simpl in Hf.
{ simplify_eq. split_and!; try done; lia. }
destruct (i32_checked _) as [e|] eqn:He; [|done].
apply expected_ok in He as (-> & Hei & He0 & Hep); [|done|lia]. specialize (Hep Hpos).
assert (Hgen : forall s1, strides_ok N s1 -> length s1 = length s ->
  (forall i, i <> k -> s1 !!! i = s !!! i) ->
  s !!! S k * dim_or_1 (dims !!! S k) <= s1 !!! k ->
  (s !!! k <> 0 -> s1 !!! k = s !!! k) ->
  fill_row dims s1 k = Some (s', true) ->
  strides_ok N s' /\ length s' = length s /\
  (forall i, (S k <= i)%nat -> s' !!! i = s !!! i) /\
  (forall i, (i < S k)%nat -> covers dims s' i (S i) /\ 0 < s' !!! i) /\
  (forall i, s !!! i <> 0 -> s' !!! i = s !!! i)).
{ intros s1 Hs1 Hl1 Hsame Hcov Hnz Hf1.
  destruct (IH s1 Hs1 ltac:(lia) ltac:(lia) ltac:(lia) Hf1)
    as (Hok & Hl & Hge & Hlt & Hz).
  split; [done|]. split; [congruence|]. split_and!.
  - intros i Hi. rewrite Hge, Hsame; lia.
  - intros i Hi. destruct (decide (i = k)) as [->|]; [|apply Hlt; lia].
    unfold covers. rewrite !Hge, (Hsame (S k)) by lia. split; [done|lia].
  - intros i Hi. destruct (decide (i = k)) as [->|Hne].
    + rewrite Hge by lia. by apply Hnz.
    + rewrite Hz by (rewrite Hsame by done; done). by apply Hsame. }
destruct (s !!! k =? 0) eqn:Ez; bool_simp.
- eapply Hgen; [| | | | |exact Hf].
  + by apply strides_ok_insert.
  + by rewrite length_insert.
  + intros i Hi. by apply list_lookup_total_insert_ne.
  + rewrite list_lookup_total_insert_eq by lia. done.
  + done.
- destruct (s !!! k <? _) eqn:El; [done|]. bool_simp.
  by eapply Hgen; [..|exact Hf].
Qed.

(** The loop leaves nested strides alone. *)
Lemma fill_row_fixpoint dims s k :
strides_ok N s -> (k < N)%nat ->
(forall i, (i < k)%nat -> covers dims s i (S i) /\ 0 < s !!! i) ->
fill_row dims s k = Some (s, true).
Proof.
intros Hs. induction k as [|k IH]; intros HN Hc; simpl; [done|].
destruct (Hc k ltac:(lia)) as [Hk Hk0]. unfold covers in Hk.
pose proof (Hs k ltac:(lia)) as [? _].
pose proof (Hs (S k) ltac:(lia)) as [_ ?].
pose proof (dim_or_1_pos (dims !!! S k)).
rewrite i32_checked_ok by (unfold is_i32 in *; nia).
replace (s !!! k =? 0) with false by (symmetry; apply Z.eqb_neq; lia).
replace (s !!! k <? _) with false by (symmetry; apply Z.ltb_ge; lia).
apply IH; [lia|]. intros i Hi. apply Hc. lia.
Qed.

(** What a successful COLUMN loop guarantees. *)
Lemma fill_column_spec dims s i n s' :
strides_ok N s -> (N <= length s)%nat -> (0 < i)%nat -> (i + n <= N)%nat -> 0 < s !!! (i - 1)%nat ->
fill_column dims s i n = Some (s', true) ->
strides_ok N s' /\ length s' = length s /\
(forall j, (j < i)%nat -> s' !!! j = s !!! j) /\
(forall j, (i <= j < i + n)%nat -> covers dims s' j (j - 1) /\ 0 < s' !!! j) /\
(forall j, s !!! j <> 0 -> s' !!! j = s !!! j).
Proof.
revert s i. induction n as [|n IH]; intros s i Hs Hl0 Hi Hl Hpos Hf; simpl in Hf.
{ simplify_eq. split_and!; try done; lia. }
destruct (i32_checked _) as [e|] eqn:He; [|done].
apply expected_ok in He as (-> & Hei & He0 & Hep); [|done|lia]. specialize (Hep Hpos).
assert (Hgen : forall s1, strides_ok N s1 -> length s1 = length s ->
  (forall j, j <> i -> s1 !!! j = s !!! j) ->
  s !!! (i - 1)%nat * dim_or_1 (dims !!! (i - 1)%nat) <= s1 !!! i ->
  (s !!! i <> 0 -> s1 !!! i = s !!! i) ->
  fill_column dims s1 (S i) n = Some (s', true) ->
  strides_ok N s' /\ length s' = length s /\
  (forall j, (j < i)%nat -> s' !!! j = s !!! j) /\
  (forall j, (i <= j < i + S n)%nat -> covers dims s' j (j - 1) /\ 0 < s' !!! j) /\
  (forall j, s !!! j <> 0 -> s' !!! j = s !!! j)).
{ intros s1 Hs1 Hl1 Hsame Hcov Hnz Hf1.
  assert (Hpos1 : 0 < s1 !!! (S i - 1)%nat).
  { replace (S i - 1)%nat with i by lia. lia. }
  destruct (IH s1 (S i) Hs1 ltac:(lia) ltac:(lia) ltac:(lia) Hpos1 Hf1)
    as (Hok & Hl' & Hlt & Hge & Hz).
  split; [done|]. split; [congruence|]. split_and!.
  - intros j Hj. rewrite Hlt, Hsame; lia.
  - intros j Hj. destruct (decide (j = i)) as [->|]; [|apply Hge; lia].
    unfold covers. rewrite !Hlt, (Hsame (i - 1)%nat) by lia. split; [done|lia].
  - intros j Hj. destruct (decide (j = i)) as [->|Hne].
    + rewrite Hlt by lia. by apply Hnz.
    + rewrite Hz by (rewrite Hsame by done; done). by apply Hsame. }
destruct (s !!! i =? 0) eqn:Ez; bool_simp.
- eapply Hgen; [| | | | |exact Hf].
  + by apply strides_ok_insert.
  + by rewrite length_insert.
  + intros j Hj. by apply list_lookup_total_insert_ne.
  + rewrite list_lookup_total_insert_eq by lia. done.
  + done.
- destruct (s !!! i <? _) eqn:El; [done|]. bool_simp.
  by eapply Hgen; [..|exact Hf].
Qed.

Lemma fill_column_fixpoint dims s i n :
strides_ok N s -> (0 < i)%nat -> (i + n <= N)%nat ->
(forall j, (i <= j < i + n)%nat -> covers dims s j (j - 1) /\ 0 < s !!! j) ->
fill_column dims s i n = Some (s, true).
Proof.
intros Hs. revert i. induction n as [|n IH]; intros i Hi HN Hc; simpl; [done|].
destruct (Hc i ltac:(lia)) as [Hk Hk0]. unfold covers in Hk.
pose proof (Hs i ltac:(lia)) as [? _].
pose proof (Hs (i - 1)%nat ltac:(lia)) as [_ ?].
pose proof (dim_or_1_pos (dims !!! (i - 1)%nat)).
rewrite i32_checked_ok by (unfold is_i32 in *; nia).
replace (s !!! i =? 0) with false by (symmetry; apply Z.eqb_neq; lia).
replace (s !!! i <? _) with false by (symmetry; apply Z.ltb_ge; lia).
apply IH; [lia..|]. intros j Hj. apply Hc. lia.
Qed.

Lemma tp_dtype_size_range d : 0 <= tp_dtype_size_bytes d <= 8.
Proof. unfold tp_dtype_size_bytes. repeat case_bool_decide; lia. Qed.

Lemma fill_first_spec s i e :
strides_ok N s -> (i < N)%nat -> (N <= length s)%nat -> 0 < e <= 8 ->
strides_ok N (fill_first s i e) /\ length (fill_first s i e) = length s /\
0 < fill_first s i e !!! i /\
(forall j, s !!! j <> 0 -> fill_first s i e !!! j = s !!! j).
Proof.
intros Hs Hi Hl He. unfold fill_first. pose proof (Hs i Hi) as [_ ?].
destruct (s !!! i =? 0) eqn:E; bool_simp.
- split; [apply strides_ok_insert; [done|ulia|lia]|]. split; [by rewrite length_insert|].
  split; [rewrite list_lookup_total_insert_eq; lia|].
  intros j Hj. apply list_lookup_total_insert_ne. congruence.
- split_and!; try done; try (by apply Hs); lia.
Qed.

Lemma fill_first_id s i e : s !!! i <> 0 -> fill_first s i e = s.
Proof. intros H. unfold fill_first. by destruct (Z.eqb_spec (s !!! i) 0). Qed.

End Loops.

(** ** Properties of validation *)

(** What [tp_tensor_header_validate] establishes of a header it accepts. *)
Record tensor_valid (h : tp_tensor_header_t) : Prop := {
  tv_ndims : 1 <= th_ndims h <= TP_MAX_DIMS;
  tv_dtype : 0 < tp_dtype_size_bytes (th_dtype h);
  tv_order : th_major_order h = tensor_pool_majorOrder_ROW \/
             th_major_order h = tensor_pool_majorOrder_COLUMN;
  tv_dims : forall i, (i < Z.to_nat (th_ndims h))%nat -> 0 <= th_dims h !!! i;
  tv_strides : forall i, (i < Z.to_nat (th_ndims h))%nat -> 0 < th_strides h !!! i;
  tv_row : th_major_order h = tensor_pool_majorOrder_ROW ->
    forall i, (S i < Z.to_nat (th_ndims h))%nat ->
    covers (th_dims h) (th_strides h) i (S i);
  tv_column : th_major_order h = tensor_pool_majorOrder_COLUMN ->
    forall i, (S i < Z.to_nat (th_ndims h))%nat ->
    covers (th_dims h) (th_strides h) (S i) i;
  tv_progress : tp_tensor_validate_progress h = true;
}.

Lemma dims_nonneg_spec h :
  dims_nonneg h = true <->
  forall i, (i < Z.to_nat (th_ndims h))%nat ->
    0 <= th_dims h !!! i /\ 0 <= th_strides h !!! i.
Proof.
  unfold dims_nonneg. rewrite forallb_forall. split.
  - intros H i Hi. specialize (H i). rewrite in_seq in H.
    specialize (H ltac:(lia)). bool_simp. done.
  - intros H i Hi. apply in_seq in Hi. destruct (H i ltac:(lia)).
    apply andb_true_iff. lia.
Qed.

Lemma fill_row_i32 dims s k s' ok :
  Forall is_i32 s -> fill_row dims s k = Some (s', ok) ->
  Forall is_i32 s' /\ length s' = length s.
Proof.
  revert s. induction k as [|k IH]; intros s Hs Hf; simpl in Hf; [by simplify_eq|].
  destruct (i32_checked _) as [e|] eqn:He; [|done]. apply i32_checked_Some in He as [-> He].
  destruct (_ =? 0).
  - apply IH in Hf; [|by apply Forall_insert]. by rewrite length_insert in Hf.
  - destruct (_ <? _); [by simplify_eq|by apply IH].
Qed.

Lemma fill_column_i32 dims s i n s' ok :
  Forall is_i32 s -> fill_column dims s i n = Some (s', ok) ->
  Forall is_i32 s' /\ length s' = length s.
Proof.
  revert s i. induction n as [|n IH]; intros s i Hs Hf; simpl in Hf; [by simplify_eq|].
  destruct (i32_checked _) as [e|] eqn:He; [|done]. apply i32_checked_Some in He as [-> He].
  destruct (_ =? 0).
  - apply IH in Hf; [|by apply Forall_insert]. by rewrite length_insert in Hf.
  - destruct (_ <? _); [by simplify_eq|by eapply IH].
Qed.

Lemma fill_first_i32 s i e :
  Forall is_i32 s -> 0 <= e <= 8 ->
  Forall is_i32 (fill_first s i e) /\ length (fill_first s i e) = length s.
Proof.
  intros Hs He. unfold fill_first. destruct (_ =? 0); [|done].
  split; [apply Forall_insert; [done|ulia]|apply length_insert].
Qed.

(** The guards of an accepting run. *)
Lemma validate_inv h h' :
  tp_tensor_header_validate (Some h) = Some (Some h', Ok tt) ->
  1 <= th_ndims h <= TP_MAX_DIMS /\ 0 < tp_dtype_size_bytes (th_dtype h) <= 8 \/
  th_ndims h < 0.
Proof.
  unfold tp_tensor_header_validate, TP_MAX_DIMS. intros H. pose proof (tp_dtype_size_range (th_dtype h)).
  follow H; lia.
Qed.

Definition strides_preserved (h h' : tp_tensor_header_t) : Prop :=
  h' = set_strides h (th_strides h') /\
  length (th_strides h') = length (th_strides h) /\
  forall i, th_strides h !!! i <> 0 -> th_strides h' !!! i = th_strides h !!! i.

Lemma fill_strides_sound h e h' :
  tensor_wf h -> 1 <= th_ndims h <= TP_MAX_DIMS -> 0 < e <= 8 -> dims_nonneg h = true ->
  tp_tensor_fill_strides h e = Some (h', true) ->
  tensor_wf h' /\ strides_preserved h h' /\
  (th_major_order h = tensor_pool_majorOrder_ROW \/
   th_major_order h = tensor_pool_majorOrder_COLUMN) /\
  (forall i, (i < Z.to_nat (th_ndims h))%nat -> 0 < th_strides h' !!! i) /\
  (th_major_order h = tensor_pool_majorOrder_ROW ->
    forall i, (S i < Z.to_nat (th_ndims h))%nat ->
    covers (th_dims h) (th_strides h') i (S i)) /\
  (th_major_order h = tensor_pool_majorOrder_COLUMN ->
    forall i, (S i < Z.to_nat (th_ndims h))%nat ->
    covers (th_dims h) (th_strides h') (S i) i).
Proof.
  intros Hwf Hn He Hd. unfold tp_tensor_fill_strides.
  set (n := Z.to_nat (th_ndims h)) in *. unfold TP_MAX_DIMS in Hn.
  pose proof (twf_strides_len _ Hwf) as Hlen.
  assert (Hs : strides_ok n (th_strides h)).
  { intros i Hi. split; [|by apply dims_nonneg_spec].
    destruct (lookup_lt_is_Some_2 (th_strides h) i ltac:(lia)) as [x Hx].
    rewrite (list_lookup_total_correct _ _ _ Hx).
    eapply Forall_lookup_1; [apply (twf_strides _ Hwf)|done]. }
  assert (Hwf' : forall s, Forall is_i32 s -> length s = 8%nat -> tensor_wf (set_strides h s))
    by (intros; by destruct Hwf; constructor).
  replace (th_ndims h =? 0) with false by (symmetry; apply Z.eqb_neq; lia).
  destruct (th_major_order h =? tensor_pool_majorOrder_ROW) eqn:Er; bool_simp.
  - destruct (fill_first_spec n (th_strides h) (n - 1) e Hs ltac:(lia) ltac:(lia) He)
      as (Hs1 & Hl1 & Hp1 & Hz1).
    destruct (fill_first_i32 (th_strides h) (n - 1) e (twf_strides _ Hwf) ltac:(lia)) as [Hi1 _].
    destruct (fill_row _ _ _) as [[s ok]|] eqn:Ef; simpl; [|done]. intros [= <- ->].
    pose proof (fill_row_i32 _ _ _ _ _ Hi1 Ef) as [Hi2 Hl2].
    destruct (fill_row_spec n _ _ (n - 1) _ Hs1 ltac:(lia) ltac:(lia) Hp1 Ef)
      as (Hok & _ & Hge & Hlt & Hz).
    split_and!; [apply Hwf'; [done|congruence]| |by left| | |].
    + split_and!; [done|simpl; congruence|]. intros i Hi. simpl.
      rewrite Hz; rewrite Hz1; done.
    + intros i Hi. simpl. destruct (decide (i = n - 1)%nat) as [->|].
      * rewrite Hge by lia. done.
      * apply Hlt. lia.
    + intros _ i Hi. apply Hlt. lia.
    + intros Ec. rewrite Er in Ec. discriminate Ec.
  - destruct (th_major_order h =? tensor_pool_majorOrder_COLUMN) eqn:Ec; bool_simp; [|done].
    destruct (fill_first_spec n (th_strides h) 0 e Hs ltac:(lia) ltac:(lia) He)
      as (Hs1 & Hl1 & Hp1 & Hz1).
    destruct (fill_first_i32 (th_strides h) 0 e (twf_strides _ Hwf) ltac:(lia)) as [Hi1 _].
    destruct (fill_column _ _ _ _) as [[s ok]|] eqn:Ef; simpl; [|done]. intros [= <- ->].
    pose proof (fill_column_i32 _ _ _ _ _ _ Hi1 Ef) as [Hi2 Hl2].
    destruct (fill_column_spec n _ _ 1 (n - 1) _ Hs1 ltac:(lia) ltac:(lia) ltac:(lia) Hp1 Ef)
      as (Hok & _ & Hlt & Hge & Hz).
    split_and!; [apply Hwf'; [done|congruence]| |by right| | |].
    + split_and!; [done|simpl; congruence|]. intros i Hi. simpl.
      rewrite Hz; rewrite Hz1; done.
    + intros i Hi. simpl. destruct (decide (i = 0)%nat) as [->|].
      * rewrite Hlt by lia. done.
      * apply Hge. lia.
    + intros E. rewrite E in Er. done.
    + intros _ i Hi. destruct (Hge (S i) ltac:(lia)) as [Hc _].
      by rewrite Nat.sub_succ, Nat.sub_0_r in Hc.
Qed.

Lemma validate_sound h h' :
  tensor_wf h -> tp_tensor_header_validate (Some h) = Some (Some h', Ok tt) ->
  tensor_wf h' /\ tensor_valid h' /\ strides_preserved h h'.
Proof.
  intros Hwf H. pose proof (twf_ndims _ Hwf) as Hnr. pose proof (validate_inv _ _ H) as Hg.
  unfold tp_tensor_header_validate in H.
  destruct Hg as [[Hn He]|Hneg]; [|unfold is_u8 in Hnr; lia].
  follow H. destruct (tp_tensor_fill_strides _ _) as [[h1 ok]|] eqn:Ef; simpl in H; [|done].
  follow H.
  subst ok. destruct (fill_strides_sound _ _ _ Hwf Hn He ltac:(done) Ef)
    as (Hwf' & Hpres & Hord & Hpos & Hrow & Hcol).
  split; [done|]. split; [|done]. destruct Hpres as [Heq _].
  assert (th_ndims h' = th_ndims h /\ th_dtype h' = th_dtype h /\ th_dims h' = th_dims h /\
          th_major_order h' = th_major_order h) as (En & Et & Ed & Em) by (by rewrite Heq).
  constructor; rewrite ?En, ?Et, ?Ed, ?Em; try done; try lia.
  intros i Hi. by apply (dims_nonneg_spec h).
Qed.

Lemma fill_strides_fixpoint h e :
  tensor_wf h -> tensor_valid h -> tp_tensor_fill_strides h e = Some (h, true).
Proof.
  intros Hwf Hv. unfold tp_tensor_fill_strides. destruct Hv as [Hn _ Hord _ Hp Hr Hc _].
  unfold TP_MAX_DIMS in Hn. set (n := Z.to_nat (th_ndims h)) in *.
  replace (th_ndims h =? 0) with false by (symmetry; apply Z.eqb_neq; lia).
  assert (Hs : strides_ok n (th_strides h)).
  { intros i Hi. pose proof (twf_strides_len _ Hwf). split; [|by apply Z.lt_le_incl, Hp].
    destruct (lookup_lt_is_Some_2 (th_strides h) i ltac:(lia)) as [x Hx].
    rewrite (list_lookup_total_correct _ _ _ Hx).
    eapply Forall_lookup_1; [apply (twf_strides _ Hwf)|done]. }
  assert (Hset : set_strides h (th_strides h) = h) by (by destruct h).
  rewrite !fill_first_id by (apply Z.neq_sym, Z.lt_neq, Hp; lia).
  destruct Hord as [Eo|Eo]; rewrite Eo; simpl.
  - rewrite (fill_row_fixpoint n); [simpl; by rewrite Hset|done|lia|].
    intros i Hi. split; [by apply Hr; [|lia]|apply Hp; lia].
  - rewrite (fill_column_fixpoint n); [simpl; by rewrite Hset|done|lia|lia|].
    intros j Hj. split; [|apply Hp; lia]. replace j with (S (j - 1)) at 1 by lia.
    apply Hc; [done|lia].
Qed.

Lemma validate_fixpoint h :
  tensor_wf h -> tensor_valid h ->
  tp_tensor_header_validate (Some h) = Some (Some h, Ok tt).
Proof.
  intros Hwf Hv. unfold tp_tensor_header_validate.
  rewrite fill_strides_fixpoint by done. destruct Hv as [Hn Hd _ Hdim Hp _ _ Hprog].
  replace (_ || _) with false
    by (symmetry; apply orb_false_iff; rewrite Z.eqb_neq, Z.ltb_ge; lia).
  replace (_ =? 0) with false by (symmetry; apply Z.eqb_neq; lia).
  replace (dims_nonneg h) with true; [by simpl; rewrite Hprog|].
  symmetry. apply dims_nonneg_spec. intros i Hi. split; [by apply Hdim|].
  by apply Z.lt_le_incl, Hp.
Qed.

Lemma axes_nested_map (f : nat -> Z * Z) k n :
  (forall i, (k <= i)%nat -> (S i < k + n)%nat ->
     snd (f (S i)) * dim_or_1 (fst (f (S i))) <= snd (f i)) ->
  axes_nested (map f (seq k n)).
Proof.
  revert k. induction n as [|n IH]; intros k Hf; [done|].
  destruct n as [|n]; [simpl; by destruct (f k)|].
  change (map f (seq k (S (S n)))) with (f k :: f (S k) :: map f (seq (S (S k)) n)).
  specialize (IH (S k)). specialize (Hf k ltac:(lia) ltac:(lia)) as Hk.
  destruct (f k) as [d s], (f (S k)) as [d' s'] eqn:E. simpl in Hk. split; [done|].
  rewrite <- E. apply IH. intros i Hi1 Hi2. apply Hf; lia.
Qed.

Lemma tensor_axes_nested h : tensor_valid h -> axes_nested (tensor_axes h).
Proof.
  intros Hv. destruct Hv as [Hn _ Hord _ _ Hr Hc _]. apply axes_nested_map.
  intros i _ Hi. simpl. destruct Hord as [E|E]; rewrite E; simpl.
  - apply Hr; [done|lia].
  - set (n := Z.to_nat (th_ndims h)) in *.
    replace (n - 1 - i)%nat with (S (n - 1 - S i)) by lia. apply Hc; [done|lia].
Qed.

Lemma tensor_axes_pos h : tensor_valid h -> axes_pos (tensor_axes h).
Proof.
  intros Hv. destruct Hv as [_ _ _ Hd Hp _ _ _]. unfold tensor_axes. apply Forall_forall.
  intros [d s] (i & Hi & Hin)%list_elem_of_In%in_map_iff. apply in_seq in Hin.
  simplify_eq. set (n := Z.to_nat (th_ndims h)) in *.
  destruct (_ =? _); (split; [apply Hd; lia|apply Hp; lia]).
Qed.

Lemma innermost_stride_pos axes : axes <> [] -> axes_pos axes -> 0 < innermost_stride axes.
Proof.
  intros Hne Hp. induction Hp as [|[d s] axes Hds Hp IH]; [done|].
  destruct axes; [simpl; lia|]. by apply IH.
Qed.

(** The index of the innermost axis. *)
Definition innermost (h : tp_tensor_header_t) : nat :=
  if th_major_order h =? tensor_pool_majorOrder_COLUMN then 0%nat else (Z.to_nat (th_ndims h) - 1)%nat.

Lemma innermost_stride_at h :
  1 <= th_ndims h -> innermost_stride (tensor_axes h) = th_strides h !!! innermost h.
Proof.
  intros Hn. assert (Hmap : forall (f : nat -> Z * Z) n k,
    innermost_stride (map f (seq k (S n))) = snd (f (k + n)%nat)).
  { intros f n. induction n as [|n IH]; intros k; [simpl; rewrite Nat.add_0_r; by destruct (f k)|].
    rewrite <- Nat.add_succ_comm, <- IH. simpl. by destruct (f k), (f (S k)). }
  unfold tensor_axes, innermost. destruct (Z.to_nat (th_ndims h)) as [|n] eqn:E; [lia|].
  cbv zeta. rewrite Hmap. simpl. destruct (th_major_order h =? tensor_pool_majorOrder_COLUMN);
    f_equal; lia.
Qed.

(** Filling strides gives the innermost axis the size of an element, when its
    stride is to be inferred, and leaves it otherwise. *)
Lemma fill_strides_innermost h e h' :
  tensor_wf h -> 1 <= th_ndims h <= TP_MAX_DIMS -> 0 < e <= 8 -> dims_nonneg h = true ->
  tp_tensor_fill_strides h e = Some (h', true) ->
  th_strides h' !!! innermost h =
    if th_strides h !!! innermost h =? 0 then e else th_strides h !!! innermost h.
Proof.
  intros Hwf Hn He Hd. unfold tp_tensor_fill_strides, innermost. set (n := Z.to_nat (th_ndims h)).
  unfold TP_MAX_DIMS in Hn. pose proof (twf_strides_len _ Hwf) as Hlen.
  assert (Hs : strides_ok n (th_strides h)).
  { intros i Hi. destruct (lookup_lt_is_Some_2 (th_strides h) i ltac:(lia)) as [x Hx].
    rewrite (list_lookup_total_correct _ _ _ Hx). split.
    - eapply Forall_lookup_1; [apply (twf_strides _ Hwf)|done].
    - rewrite <- (list_lookup_total_correct _ _ _ Hx). by apply (dims_nonneg_spec h). }
  assert (Hfirst : forall i, (i < n)%nat -> fill_first (th_strides h) i e !!! i =
    if th_strides h !!! i =? 0 then e else th_strides h !!! i).
  { intros i Hi. unfold fill_first. destruct (th_strides h !!! i =? 0); [|done].
    apply list_lookup_total_insert_eq. lia. }
  replace (th_ndims h =? 0) with false by (symmetry; apply Z.eqb_neq; lia).
  destruct (Z.eqb_spec (th_major_order h) tensor_pool_majorOrder_ROW) as [Er|Er].
  - rewrite Er. simpl. destruct (fill_row _ _ _) as [[s ok]|] eqn:Ef; simpl; [|done]. intros [= <- ->].
    destruct (fill_first_spec n (th_strides h) (n - 1) e Hs ltac:(lia) ltac:(lia) He) as (Hs1 & Hl1 & Hp1 & _).
    destruct (fill_row_spec n _ _ (n - 1) _ Hs1 ltac:(lia) ltac:(lia) Hp1 Ef) as (_ & _ & _ & _ & Hz).
    simpl. rewrite <- Hfirst by lia. apply Hz. lia.
  - destruct (Z.eqb_spec (th_major_order h) tensor_pool_majorOrder_COLUMN); [|done].
    destruct (fill_column _ _ _ _) as [[s ok]|] eqn:Ef; simpl; [|done]. intros [= <- ->].
    destruct (fill_first_spec n (th_strides h) 0 e Hs ltac:(lia) ltac:(lia) He) as (Hs1 & Hl1 & Hp1 & _).
    destruct (fill_column_spec n _ _ 1 (n - 1) _ Hs1 ltac:(lia) ltac:(lia) ltac:(lia) Hp1 Ef)
      as (_ & _ & _ & _ & Hz).
    simpl. rewrite <- Hfirst by lia. apply Hz. lia.
Qed.

(** The innermost stride of an accepted header. *)
Lemma validate_innermost h h' :
  tensor_wf h -> tp_tensor_header_validate (Some h) = Some (Some h', Ok tt) ->
  innermost_stride (tensor_axes h') =
    if innermost_stride (tensor_axes h) =? 0 then tp_dtype_size_bytes (th_dtype h)
    else innermost_stride (tensor_axes h).
Proof.
  intros Hwf H. pose proof (twf_ndims _ Hwf) as Hnr.
  destruct (validate_sound _ _ Hwf H) as (_ & _ & Heq & _).
  pose proof (validate_inv _ _ H) as [[Hn He]|Hneg]; [|unfold is_u8 in Hnr; lia].
  assert (Hsame : th_ndims h' = th_ndims h /\ innermost h' = innermost h) by (by rewrite Heq).
  destruct Hsame as [En Ei]. rewrite !innermost_stride_at, Ei by lia.
  unfold tp_tensor_header_validate in H. follow H.
  destruct (tp_tensor_fill_strides _ _) as [[h1 ok]|] eqn:Ef; simpl in H; [|done].
  follow H. subst ok. by eapply fill_strides_innermost.
Qed.

(** ** The codec *)

Section CodecLemmas.
Context `{Sbe}.

Lemma tensor_writes_fit h : tensor_wf h -> Forall write_fits (tensor_header_writes h).
Proof.
  intros Hwf. destruct Hwf. unfold tensor_header_writes, messageHeader_writes.
  apply Forall_app; split; [write_fits_tac|]. apply Forall_app; split; [write_fits_tac|].
  unfold tensor_array_writes. apply Forall_concat, Forall_forall.
  intros ws (i & <- & _)%list_elem_of_In%in_map_iff. write_fits_tac.
Qed.

Lemma tensor_codec_roundtrip h b :
  tensor_wf h -> 192 <= blen b ->
  th_dtype h ∈ dtype_values -> th_major_order h ∈ majorOrder_values ->
  th_progress_unit h ∈ progressUnit_values ->
  tp_tensor_header_decode (Some (sbe_puts (tensor_header_writes h) b)) 192 = Ok h.
Proof.
  intros Hwf Hb Hd Ho Hp. pose proof (tensor_writes_fit h Hwf) as Hfit.
  destruct Hwf as [Wd Wo Wn Wu Wps Ld Ls Fd Fs].
  unfold tp_tensor_header_decode, tensor_header_reads, messageHeader_encoded_length.
  change (tensorHeader_sbe_block_length + 8 <=? 192) with true. cbv iota.
  sbe_run 192. rewrite i16_u16, sbe_enum_valid by done.
  sbe_run 192. rewrite i16_u16, sbe_enum_valid by done.
  sbe_run 192. rewrite sbe_enum_valid by done.
  sbe_run 192. cbn [map].
  rewrite !i32_u32 by (apply Forall_lookup_total_1; [done|rewrite ?Ld, ?Ls; lia]).
  destruct h as [dt mo nd pu ps dims strides]; simpl in *.
  do 8 (destruct dims as [|? dims]; [discriminate|]).
  do 8 (destruct strides as [|? strides]; [discriminate|]).
  destruct dims; [|discriminate]. destruct strides; [|discriminate].
  simpl. rewrite u8_small by ulia.
  rewrite !i16_small by done. done.
Qed.
End CodecLemmas.

(** ** Preparation by the producer *)

Lemma clear_from_wf n l : Forall is_i32 l -> Forall is_i32 (clear_from n l).
Proof.
  intros H. apply Forall_lookup. intros i x. unfold clear_from.
  rewrite list_lookup_imap, fmap_Some. intros (y & Hy & ->).
  destruct (_ <? _)%nat; [by eapply Forall_lookup_1|ulia].
Qed.

Lemma tp_prepare_sound h h' :
  tensor_wf h -> tp_prepare_tensor_header (Some h) = Some (Ok h') ->
  tensor_wf h' /\ tensor_valid h'.
Proof.
  intros Hwf. unfold tp_prepare_tensor_header.
  set (out := if _ <? _ then _ else _). assert (Hout : tensor_wf out).
  { subst out. destruct (_ <? _); [|done]. destruct Hwf.
    constructor; simpl; try done; unfold clear_from; rewrite ?length_imap; try done;
      by apply clear_from_wf. }
  destruct (tp_tensor_header_validate (Some out)) as [[[o|] [[]|]]|] eqn:E; simpl; try done.
  intros [= ->]. by destruct (validate_sound _ _ Hout E) as (? & ? & _).
Qed.

Lemma tensor_valid_enums h :
  tensor_valid h ->
  th_dtype h ∈ dtype_values /\ th_major_order h ∈ majorOrder_values /\
  th_progress_unit h ∈ progressUnit_values.
Proof.
  intros [_ Hd Ho _ _ _ _ Hp]. split_and!.
  - unfold tp_dtype_size_bytes in Hd. unfold dtype_values.
    repeat case_bool_decide; try lia; in_cases; in_compute.
  - unfold majorOrder_values, tensor_pool_majorOrder_ROW, tensor_pool_majorOrder_COLUMN in *.
    destruct Ho as [-> | ->]; in_compute.
  - unfold tp_tensor_validate_progress, progressUnit_values, tensor_pool_progressUnit_NONE,
      tensor_pool_progressUnit_ROWS, tensor_pool_progressUnit_COLUMNS in *.
    repeat (step_guard Hp; try discriminate Hp); bool_simp;
      match goal with E : th_progress_unit h = _ |- _ => rewrite E end; in_compute.
Qed.

(** ** Properties *)

(** C30: In a header that [tp_tensor_header_validate] accepts, with the strides it
    filled in, the offsets of two distinct in-range elements differ by at least the
    innermost stride, which is positive, in ROW and in COLUMN order.  So the elements
    do not overlap when the innermost stride was left to be inferred, or was given
    as at least the size of an element.  The validator does not require the latter,
    although the wire specification demands that overlapping strides are rejected:
    see [tensor_validate_accepts_overlap]. *)
Theorem tensor_validate_layout h h' idx idx' :
  tensor_wf h -> tp_tensor_header_validate (Some h) = Some (Some h', Ok tt) ->
  in_axes idx (tensor_axes h') -> in_axes idx' (tensor_axes h') -> idx <> idx' ->
  let distance := Z.abs (element_offset idx (tensor_axes h') - element_offset idx' (tensor_axes h')) in
  let given := innermost_stride (tensor_axes h) in
  let size := tp_dtype_size_bytes (th_dtype h) in
  0 < innermost_stride (tensor_axes h') <= distance /\
  (given = 0 \/ size <= given -> size <= distance).
Proof.
  intros Hwf H Hi Hi' Hne. destruct (validate_sound _ _ Hwf H) as (_ & Hv & _).
  pose proof (tensor_axes_nested _ Hv). pose proof (tensor_axes_pos _ Hv).
  pose proof (validate_innermost _ _ Hwf H) as Hin. cbv zeta.
  assert (Hd : 0 < innermost_stride (tensor_axes h') <=
    Z.abs (element_offset idx (tensor_axes h') - element_offset idx' (tensor_axes h'))).
  { split; [|by apply element_offset_separated].
    apply innermost_stride_pos; [|done]. intros E. rewrite E in Hi, Hi'.
    inversion Hi; inversion Hi'. congruence. }
  split; [done|]. intros Hg.
  destruct (Z.eqb_spec (innermost_stride (tensor_axes h)) 0); lia.
Qed.

Definition example_header (order : Z) (dims strides : list Z) : tp_tensor_header_t :=
  {| th_dtype := 9; th_major_order := order; th_ndims := 3; th_progress_unit := 0;
     th_progress_stride_bytes := 0; th_dims := dims ++ replicate 5 0;
     th_strides := strides ++ replicate 5 0 |}.

Lemma example_header_wf order :
  is_i16 order -> tensor_wf (example_header order [4; 3; 5] [0; 0; 0]).
Proof. intros. by constructor; simpl; try done; repeat constructor. Qed.

Theorem tensor_validate_layout_witness :
  exists h', tp_tensor_header_validate (Some (example_header 1 [4; 3; 5] [0; 0; 0])) =
               Some (Some h', Ok tt) /\
  tp_dtype_size_bytes 9 = 4 /\
  4 <= Z.abs (element_offset [1; 2; 4] (tensor_axes h') - element_offset [2; 0; 0] (tensor_axes h')).
Proof.
  eexists. split; [reflexivity|]. split; [reflexivity|].
  apply (tensor_validate_layout (example_header 1 [4; 3; 5] [0; 0; 0]) _ [1; 2; 4] [2; 0; 0]).
  - by apply example_header_wf.
  - reflexivity.
  - repeat constructor; lia.
  - repeat constructor; lia.
  - discriminate.
  - left. reflexivity.
Defined.

(** What the producer sends is what the consumer gets and accepts: a header
    prepared by [tp_prepare_tensor_header] and encoded by
    [tp_encode_tensor_header] decodes to itself, and the consumer's own
    [tp_tensor_header_validate] accepts it and changes nothing. *)
Theorem tensor_header_roundtrip `{Sbe} h h' buf b :
  tensor_wf h -> tp_prepare_tensor_header (Some h) = Some (Ok h') ->
  tp_encode_tensor_header buf h' = Ok b ->
  tp_tensor_header_decode (Some b) 192 = Ok h' /\
  tp_tensor_header_validate (Some h') = Some (Some h', Ok tt).
Proof.
  intros Hwf Hprep Henc. destruct (tp_prepare_sound _ _ Hwf Hprep) as [Hwf' Hv'].
  destruct (tensor_valid_enums _ Hv') as (? & ? & ?). split; [|by apply validate_fixpoint].
  unfold tp_encode_tensor_header in Henc. follow Henc.
  apply tensor_codec_roundtrip; try done. unfold blen in *. rewrite length_replicate.
  unfold tensorHeader_sbe_block_length in *. lia.
Qed.

Theorem tensor_header_roundtrip_witness :
  exists h' b, tp_prepare_tensor_header (Some (example_header 2 [4; 3; 5] [0; 0; 0])) =
                 Some (Ok h') /\
  tp_encode_tensor_header (replicate 256 7) h' = Ok b /\
  tp_tensor_header_decode (Some b) 192 = Ok h' /\
  tp_tensor_header_validate (Some h') = Some (Some h', Ok tt).
Proof.
  eexists _, _. split; [reflexivity|]. split; [reflexivity|].
  eapply (tensor_header_roundtrip (example_header 2 [4; 3; 5] [0; 0; 0])
            _ (replicate 256 7)); [|reflexivity|reflexivity].
  by apply example_header_wf.
Defined.

(** ** What the validator lets through *)

(** The wire specification requires headers whose strides overlap to be
    rejected; a FLOAT32 header with innermost stride 1 is accepted, and its
    neighbouring 4-byte elements overlap. *)
Theorem tensor_validate_accepts_overlap :
  exists h', tp_tensor_header_validate (Some (example_header 1 [4; 3; 5] [0; 0; 1])) =
               Some (Some h', Ok tt) /\
  Z.abs (element_offset [0; 0; 0] (tensor_axes h') - element_offset [0; 0; 1] (tensor_axes h'))
    < tp_dtype_size_bytes (th_dtype h').
Proof. eexists. split; reflexivity. Qed.

(** Dimensions read from shared memory can make the [int32_t] product of
    [tp_tensor_fill_strides] overflow before any bound is checked. *)
Theorem tensor_validate_overflow :
  tp_tensor_header_validate (Some (example_header 1 [1; 65536; 65536] [0; 0; 0])) = None.
Proof. reflexivity. Qed.
