(* ===== verification/Seqlock.v ===== *)
(** * Seqlock: commit words and slot addresses (tp_seqlock.h, tp_slot.c)

    A slot's first 64-bit word holds [2 * seq] while frame [seq] is being
    written and [2 * seq + 1] once it is committed.  [tp_slot_decode] reads the
    256-byte slot header. *)

From Stdlib Require Import ZArith Lia Bool.
From S2P Require Import Prelude Sbe.

Definition TP_SUPERBLOCK_SIZE_BYTES : Z := 64.
Definition TP_HEADER_SLOT_BYTES : Z := 256.

(** ** The commit word *)

Definition tp_seq_in_progress (seq : Z) : Z := Z.lor (u64 (Z.shiftl seq 1)) 0.
Definition tp_seq_committed (seq : Z) : Z := Z.lor (u64 (Z.shiftl seq 1)) 1.
Definition tp_seq_is_committed (seq_commit : Z) : bool := negb (Z.land seq_commit 1 =? 0).
Definition tp_seq_value (seq_commit : Z) : Z := Z.shiftr seq_commit 1.

Lemma u64_double seq : u64 (2 * seq) = 2 * (seq mod 2 ^ 63).
Proof.
  unfold u64. change (2 ^ 64) with (2 * 2 ^ 63). rewrite Z.mul_mod_distr_l; lia.
Qed.

Lemma tp_seq_in_progress_eq seq : tp_seq_in_progress seq = 2 * (seq mod 2 ^ 63).
Proof.
  unfold tp_seq_in_progress. rewrite Z.lor_0_r, Z.shiftl_mul_pow2, Z.mul_comm by lia.
  apply u64_double.
Qed.

Lemma lor_double_1 x : Z.lor (2 * x) 1 = 2 * x + 1.
Proof.
  apply Z.bits_inj'. intros n Hn. rewrite Z.lor_spec.
  destruct (decide (n = 0)) as [->|].
  - rewrite Z.testbit_even_0, Z.testbit_odd_0. done.
  - replace n with (Z.succ (n - 1)) by lia.
    rewrite Z.testbit_even_succ, Z.testbit_odd_succ by lia.
    change 1 with (2 * 0 + 1). rewrite Z.testbit_odd_succ, Z.bits_0, orb_false_r; lia || done.
Qed.

Lemma tp_seq_committed_eq seq : tp_seq_committed seq = 2 * (seq mod 2 ^ 63) + 1.
Proof.
  unfold tp_seq_committed. rewrite Z.shiftl_mul_pow2, Z.mul_comm by lia.
  change (2 ^ 1) with 2. by rewrite u64_double, lor_double_1.
Qed.

Lemma tp_seq_is_committed_odd w : tp_seq_is_committed w = Z.odd w.
Proof.
  unfold tp_seq_is_committed. change 1 with (Z.ones 1). rewrite Z.land_ones by lia.
  rewrite Zmod_odd. by destruct (Z.odd w).
Qed.

Lemma tp_seq_value_eq w : tp_seq_value w = w / 2.
Proof. unfold tp_seq_value. rewrite Z.shiftr_div_pow2 by lia. done. Qed.

Lemma in_progress_not_committed seq : tp_seq_is_committed (tp_seq_in_progress seq) = false.
Proof. rewrite tp_seq_is_committed_odd, tp_seq_in_progress_eq. by rewrite Z.odd_mul. Qed.

Lemma committed_is_committed seq : tp_seq_is_committed (tp_seq_committed seq) = true.
Proof.
  rewrite tp_seq_is_committed_odd, tp_seq_committed_eq. by rewrite Z.odd_add, Z.odd_mul.
Qed.

Lemma committed_value seq : tp_seq_value (tp_seq_committed seq) = seq mod 2 ^ 63.
Proof.
  rewrite tp_seq_value_eq, tp_seq_committed_eq.
  replace (2 * _ + 1) with (1 + (seq mod 2 ^ 63) * 2) by lia.
  rewrite Z.div_add by lia. done.
Qed.

(** ** Slot addresses *)

(** The byte offset of [tp_slot_at(base, index)] from [base]: the product
    [index * TP_HEADER_SLOT_BYTES] is an [unsigned int]. *)
Definition tp_slot_at (index : Z) : Z :=
  TP_SUPERBLOCK_SIZE_BYTES + u32 (index * TP_HEADER_SLOT_BYTES).

(** The byte offset of a payload slot from the pool's base, as computed in
    [tp_producer_publish_frame], [tp_producer_try_claim] and
    [tp_consumer_read_frame]: both factors are [uint32_t]. *)
Definition payload_at (header_index stride_bytes : Z) : Z :=
  TP_SUPERBLOCK_SIZE_BYTES + u32 (header_index * stride_bytes).

Lemma payload_at_small i stride n :
  0 <= i < n -> 0 <= stride -> n * stride <= 2 ^ 32 -> 0 < stride ->
  payload_at i stride = TP_SUPERBLOCK_SIZE_BYTES + i * stride.
Proof. intros. unfold payload_at. rewrite u32_small; [done|unfold is_u32; nia]. Qed.

(** ** tp_slot_decode *)

Definition slotHeader_sbe_block_length : Z := 60.

Record tp_slot_view_t := {
  sv_seq_commit : Z;
  sv_values_len_bytes : Z;
  sv_payload_slot : Z;
  sv_pool_id : Z;
  sv_payload_offset : Z;
  sv_timestamp_ns : Z;
  sv_meta_version : Z;
  sv_header_bytes_length : Z;
}.

(** The reads of [tp_slot_decode], at the offsets of SlotHeader in
    wire-schema.xml.  The length of the header bytes is read twice: as a value of
    the view, and by the getter of the bytes, which fails when they do not fit in
    the slot.  The view's [header_bytes] pointer is at offset [slot_header_bytes]. *)
Definition slot_header_bytes : Z := 64.

Definition slot_reads `{Sbe} (slot_length : Z) : rprog (res tp_slot_view_t) :=
  read! seq_commit := read 8 0 in
  read! values_len_bytes := read 4 8 in
  read! payload_slot := read 4 12 in
  read! pool_id := read 2 16 in
  read! payload_offset := read 4 18 in
  read! timestamp_ns := read 8 22 in
  read! meta_version := read 4 30 in
  read! header_bytes_length := read 4 slotHeader_sbe_block_length in
  read! data_length := read 4 slotHeader_sbe_block_length in
  match sbe_var_data slotHeader_sbe_block_length data_length slot_length with
  | None => RRet (Err EINVAL)
  | Some _ =>
    RRet (Ok {| sv_seq_commit := seq_commit; sv_values_len_bytes := values_len_bytes;
                sv_payload_slot := payload_slot; sv_pool_id := pool_id;
                sv_payload_offset := payload_offset; sv_timestamp_ns := timestamp_ns;
                sv_meta_version := meta_version; sv_header_bytes_length := header_bytes_length |})
  end.

Definition tp_slot_decode `{Sbe} (slot : ptr bytes) (slot_length : Z) : res tp_slot_view_t :=
  match slot with
  | NULL => Err EINVAL
  | Some b =>
    guard! TP_HEADER_SLOT_BYTES <=? slot_length else EINVAL in
    rrun (slot_reads slot_length) b
  end.

(** ** Properties *)

(** The commit word separates writing from committed and carries the
    sequence number: for every sequence number below 2^63 the committed word
    decodes to it, the in-progress word is never taken for a committed one, and
    for [a < b] all four words are ordered. *)
Theorem seqlock_word_correct a b :
  0 <= a -> a < b -> b < 2 ^ 63 ->
  tp_seq_is_committed (tp_seq_committed a) = true /\
  tp_seq_is_committed (tp_seq_in_progress a) = false /\
  tp_seq_value (tp_seq_committed a) = a /\
  tp_seq_in_progress a < tp_seq_committed a < tp_seq_in_progress b /\
  is_u64 (tp_seq_committed b).
Proof.
  intros Ha Hab Hb. rewrite committed_is_committed, in_progress_not_committed, committed_value.
  rewrite !tp_seq_in_progress_eq, !tp_seq_committed_eq, !Z.mod_small by lia. ulia.
Qed.

Theorem seqlock_word_correct_witness :
  tp_seq_is_committed (tp_seq_committed 4) = true /\
  tp_seq_is_committed (tp_seq_in_progress 4) = false /\
  tp_seq_value (tp_seq_committed 4) = 4 /\
  tp_seq_in_progress 4 < tp_seq_committed 4 < tp_seq_in_progress 5 /\
  is_u64 (tp_seq_committed 5).
Proof. apply (seqlock_word_correct 4 5); lia. Defined.

(** Header slots and payload slots do not alias: below the size at which
    the 32-bit offset products wrap, distinct indices give disjoint ranges that
    lie behind the superblock and within the region. *)
Theorem slot_ranges_disjoint i j n stride :
  0 <= i < n -> 0 <= j < n -> i <> j -> n <= 2 ^ 24 -> 0 < stride -> n * stride <= 2 ^ 32 ->
  TP_HEADER_SLOT_BYTES <= Z.abs (tp_slot_at i - tp_slot_at j) /\
  stride <= Z.abs (payload_at i stride - payload_at j stride) /\
  TP_SUPERBLOCK_SIZE_BYTES <= tp_slot_at i <=
    TP_SUPERBLOCK_SIZE_BYTES + (n - 1) * TP_HEADER_SLOT_BYTES /\
  TP_SUPERBLOCK_SIZE_BYTES <= payload_at i stride <=
    TP_SUPERBLOCK_SIZE_BYTES + (n - 1) * stride.
Proof.
  intros Hi Hj Hne Hn Hs Hns. rewrite !(payload_at_small _ stride n) by lia.
  unfold tp_slot_at, TP_HEADER_SLOT_BYTES, TP_SUPERBLOCK_SIZE_BYTES.
  rewrite !u32_small by (unfold is_u32; lia). nia.
Qed.

Theorem slot_ranges_disjoint_witness :
  TP_HEADER_SLOT_BYTES <= Z.abs (tp_slot_at 3 - tp_slot_at 5) /\
  640 <= Z.abs (payload_at 3 640 - payload_at 5 640) /\
  TP_SUPERBLOCK_SIZE_BYTES <= tp_slot_at 3 <=
    TP_SUPERBLOCK_SIZE_BYTES + (8 - 1) * TP_HEADER_SLOT_BYTES /\
  TP_SUPERBLOCK_SIZE_BYTES <= payload_at 3 640 <=
    TP_SUPERBLOCK_SIZE_BYTES + (8 - 1) * 640.
Proof. apply (slot_ranges_disjoint 3 5 8 640); lia. Defined.

(** Beyond that size the payload offsets wrap: in a pool of 8192 slots of 1 MiB
    (8 GiB) slots 0 and 4096 share their memory. *)
Theorem payload_at_wraps : payload_at 4096 1048576 = payload_at 0 1048576.
Proof. reflexivity. Qed.
