(* ===== verification/Ring.v ===== *)
(** * Ring: publishing and reading frames in shared memory

    The data plane of tp_producer.c and tp_consumer.c: [tp_producer_publish_frame]
    as the sequence of stores it performs on the header ring and the payload
    pools, [tp_consumer_read_frame] as the program of loads it performs, the
    claim interface, and a step relation in which a producer and a consumer
    interleave store by store and load by load.

    Memory is sequentially consistent here: the source orders the accesses that
    matter with acquire and release operations on the commit word and a release
    fence before the commit. *)

From Stdlib Require Import ZArith Lia Bool.
From S2P Require Import Prelude Sbe Seqlock Tensor.

(** ** Pools and memory *)

(** A mapped payload pool ([tp_payload_pool_t], [tp_consumer_pool_t]). *)
Record tp_payload_pool_t := {
  pool_id : Z;
  pool_nslots : Z;
  pool_stride_bytes : Z;
}.

(** [tp_find_pool] and [tp_consumer_find_pool]: the first pool with this id. *)
Definition tp_find_pool (pools : list tp_payload_pool_t) (id : Z) : option tp_payload_pool_t :=
  find (fun p => pool_id p =? id) pools.

(** [tp_find_pool_for_length]: the loop keeps the best pool so far. *)
Definition better_pool (length : Z) (best : option tp_payload_pool_t) (p : tp_payload_pool_t)
    : option tp_payload_pool_t :=
  if length <=? pool_stride_bytes p then
    match best with
    | None => Some p
    | Some b => if pool_stride_bytes p <? pool_stride_bytes b then Some p else best
    end
  else best.
Definition tp_find_pool_for_length (pools : list tp_payload_pool_t) (length : Z)
    : option tp_payload_pool_t :=
  fold_left (better_pool length) pools None.

(** The mapped regions: the 256 bytes of the header slot at an address offset,
    and the bytes of a payload pool by its id and address offset. *)
Record mem := {
  m_slot : Z -> bytes;
  m_payload : Z -> Z -> Z;
}.

(** One store of the producer into a header slot: a field of the flyweight, or
    one byte of a [memcpy] or [memset]. *)
Inductive slot_op :=
  | SPut (w : write)
  | SByte (off : nat) (x : Z).

Inductive store :=
  | StSlot (addr : Z) (op : slot_op)
  | StPayload (pool addr x : Z).

(** [memcpy] byte by byte, and [memset] of [n] bytes. *)
Definition slot_memcpy (off : nat) (src : bytes) : list slot_op :=
  imap (fun i x => SByte (off + i) x) src.
Definition slot_memset (off n : nat) (x : Z) : list slot_op := slot_memcpy off (replicate n x).
Definition payload_memcpy (pool addr : Z) (src : bytes) : list store :=
  imap (fun i x => StPayload pool (addr + Z.of_nat i) x) src.

Section Stores.
Context `{Sbe}.

Definition apply_slot_op (op : slot_op) (b : bytes) : bytes :=
  match op with
  | SPut w => sbe_put (w_width w) b (w_off w) (w_val w)
  | SByte off x => <[off := x]> b
  end.

Definition apply_slot_ops (ops : list slot_op) (b : bytes) : bytes :=
  fold_left (fun b op => apply_slot_op op b) ops b.

Definition apply_store (s : store) (m : mem) : mem :=
  match s with
  | StSlot addr op =>
    {| m_slot a := if a =? addr then apply_slot_op op (m_slot m a) else m_slot m a;
       m_payload := m_payload m |}
  | StPayload pool addr x =>
    {| m_slot := m_slot m;
       m_payload p a := if (p =? pool) && (a =? addr) then x else m_payload m p a |}
  end.

Definition apply_stores (ss : list store) (m : mem) : mem :=
  fold_left (fun m s => apply_store s m) ss m.
End Stores.

(** [n] bytes of a payload pool from an address offset. *)
Definition payload_bytes (m : mem) (pool addr : Z) (n : nat) : bytes :=
  map (fun i => m_payload m pool (addr + Z.of_nat i)) (seq 0 n).

(** ** The producer *)

(** The fields of [tp_producer_t] the data plane uses. *)
Record producer_t := {
  pr_header_nslots : Z;
  pr_pools : list tp_payload_pool_t;
  pr_header_mapped : bool;       (* header_region.addr != NULL *)
  pr_next_seq : Z;
  pr_fixed_pool_mode : bool;
}.

Definition set_next_seq (p : producer_t) (seq : Z) : producer_t :=
  {| pr_header_nslots := pr_header_nslots p; pr_pools := pr_pools p;
     pr_header_mapped := pr_header_mapped p; pr_next_seq := seq;
     pr_fixed_pool_mode := pr_fixed_pool_mode p |}.

Definition producer_attached (p : producer_t) : bool :=
  negb (pr_header_nslots p =? 0) && negb (Nat.eqb (length (pr_pools p)) 0) && pr_header_mapped p.

(** [(uint32_t)(seq & (header_nslots - 1))]; the mask is a [uint32_t]. *)
Definition header_index (nslots seq : Z) : Z := u32 (Z.land seq (u32 (nslots - 1))).

(** The frame a slot carries once committed. *)
Record frame := {
  f_seq : Z;
  f_tensor : tp_tensor_header_t;
  f_payload : bytes;
  f_pool_id : Z;
  f_timestamp_ns : Z;
  f_meta_version : Z;
}.

Definition tensor_header_len : Z := messageHeader_encoded_length + tensorHeader_sbe_block_length.

Section Producer.
Context `{Sbe}.

Definition store_word (addr v : Z) : store := StSlot addr (SPut (Write 0 8 v)).

(** The stores of [tp_producer_publish_frame] between the in-progress and the
    committed store of the commit word; [hb] is the encoded tensor header. *)
Definition slot_fields (idx : Z) (f : frame) : list write :=
  [Write 8 4 (blen (f_payload f)); Write 12 4 idx; Write 16 2 (f_pool_id f); Write 18 4 0;
   Write 22 8 (f_timestamp_ns f); Write 30 4 (f_meta_version f)].

(** [tp_zero_slot_padding]: the 26 bytes behind the block's last field. *)
Definition tp_zero_slot_padding : list slot_op := slot_memset 34 26 0.

Definition slot_body (idx : Z) (hb : bytes) (f : frame) : list slot_op :=
  map SPut (slot_fields idx f) ++
  tp_zero_slot_padding ++
  [SPut (Write slotHeader_sbe_block_length 4 tensor_header_len)] ++
  slot_memcpy (Z.to_nat slot_header_bytes) (take (Z.to_nat tensor_header_len) hb).

Definition frame_body (idx : Z) (addr paddr : Z) (hb : bytes) (f : frame) : list store :=
  (if 0 <? blen (f_payload f) then payload_memcpy (f_pool_id f) paddr (f_payload f) else []) ++
  map (StSlot addr) (slot_body idx hb f).

Definition frame_stores (nslots stride : Z) (f : frame) (hb : bytes) : list store :=
  let idx := header_index nslots (f_seq f) in
  let addr := tp_slot_at idx in
  store_word addr (tp_seq_in_progress (f_seq f)) ::
  frame_body idx addr (payload_at idx stride) hb f ++
  [store_word addr (tp_seq_committed (f_seq f))].

(** [tp_producer_publish_frame] up to the committed store: the frame and the
    stores performed, [None] where validating the tensor header overflows.
    [now_ns] is the clock. *)
Definition publish_frame_stores (p : ptr producer_t) (seq : Z) (tensor : ptr tp_tensor_header_t)
    (payload : ptr bytes) (payload_len pool_id timestamp_ns meta_version now_ns : Z)
    : option (res (frame * list store)) :=
  match p, tensor with
  | NULL, _ | _, NULL => Some (Err EINVAL)
  | Some p, Some tensor =>
    if bool_decide (payload = NULL) && (0 <? payload_len) then Some (Err EINVAL)
    else if negb (producer_attached p) then Some (Err EINVAL)
    else
      match tp_find_pool (pr_pools p) pool_id with
      | None => Some (Err EINVAL)
      | Some pool =>
        if pool_stride_bytes pool <? payload_len then Some (Err EINVAL)
        else
          r ← tp_prepare_tensor_header (Some tensor);
          Some (
            let! prepared := r in
            let slot_timestamp_ns :=
              if (timestamp_ns =? 0) || (timestamp_ns =? TP_NULL_U64) then u64 now_ns
              else timestamp_ns in
            let f := {| f_seq := seq; f_tensor := prepared;
                        f_payload := take (Z.to_nat payload_len) (default [] payload);
                        f_pool_id := pool_id; f_timestamp_ns := slot_timestamp_ns;
                        f_meta_version := meta_version |} in
            (* the buffer has 256 bytes, so the encoder does not fail after
               the in-progress store *)
            let! hb := tp_encode_tensor_header (replicate 256 0) prepared in
            Ok (f, frame_stores (pr_header_nslots p) (pool_stride_bytes pool) f hb))
      end
  end.

(** [tp_producer_resolve_trace_id]: the generator, when one is set, yields the
    next identifier, 0 being its failure. *)
Definition tp_producer_resolve_trace_id (requested : Z) (generator : ptr Z) : res Z :=
  if requested =? 0 then
    match generator with
    | NULL => Ok requested
    | Some next => guard! negb (next =? 0) else EINVAL in Ok next
    end
  else Ok requested.

(** The descriptor is published once the frame is committed
    ([tp_producer_publish_descriptor]); its return code is the caller's. *)
Variable publish_descriptor : Z -> Z -> Z -> res unit.   (* seq, metaVersion, traceId *)

Definition tp_producer_publish_frame (p : ptr producer_t) (seq : Z)
    (tensor : ptr tp_tensor_header_t) (payload : ptr bytes)
    (payload_len pool_id timestamp_ns meta_version trace_id now_ns : Z)
    : option (res unit * option (frame * list store)) :=
  r ← publish_frame_stores p seq tensor payload payload_len pool_id timestamp_ns
        meta_version now_ns;
  Some match r with
       | Err e => (Err e, None)
       | Ok out => (publish_descriptor seq meta_version trace_id, Some out)
       end.

Record tp_frame_t := {
  fr_tensor : ptr tp_tensor_header_t;
  fr_payload : ptr bytes;
  fr_payload_len : Z;
  fr_trace_id : Z;
}.
Record tp_frame_metadata_t := { fm_timestamp_ns : Z; fm_meta_version : Z }.

(** The producer after the call, the frame number or the error, and the frame
    with the stores that publish it. *)
Definition tp_producer_offer_frame (producer : ptr producer_t) (in_frame : ptr tp_frame_t)
    (meta : ptr tp_frame_metadata_t) (generator : ptr Z) (now_ns : Z)
    : option (ptr producer_t * res Z * option (frame * list store)) :=
  match producer, in_frame with
  | NULL, _ | _, NULL => Some (producer, Err EINVAL, None)
  | Some p, Some fr =>
    if bool_decide (fr_tensor fr = NULL) then Some (producer, Err EINVAL, None)
    else if negb (producer_attached p) then Some (producer, Err EINVAL, None)
    else
      let timestamp_ns := match meta with Some m => fm_timestamp_ns m | NULL => TP_NULL_U64 end in
      let meta_version := match meta with Some m => fm_meta_version m | NULL => TP_NULL_U32 end in
      match tp_producer_resolve_trace_id (fr_trace_id fr) generator with
      | Err e => Some (producer, Err e, None)
      | Ok trace_id =>
        match tp_find_pool_for_length (pr_pools p) (fr_payload_len fr) with
        | None => Some (producer, Err EINVAL, None)
        | Some pool =>
          let seq := pr_next_seq p in
          let p' := set_next_seq p (u64 (seq + 1)) in
          '(r, out) ← tp_producer_publish_frame (Some p') seq (fr_tensor fr) (fr_payload fr)
                       (fr_payload_len fr) (pool_id pool) timestamp_ns meta_version trace_id now_ns;
          Some (Some p', (let! _ := r in Ok seq), out)
        end
      end
  end.

(** A claim: the payload pointer is the pool's id and an address offset. *)
Record tp_buffer_claim_t := {
  cl_seq : Z;
  cl_header_index : Z;
  cl_pool_id : Z;
  cl_payload_len : Z;
  cl_payload_addr : Z;
  cl_tensor : tp_tensor_header_t;
  cl_trace_id : Z;
}.

(** [claim->tensor] is the caller's and stays as it is. *)
Definition tp_producer_try_claim (producer : ptr producer_t) (length : Z)
    (claim : ptr tp_buffer_claim_t)
    : ptr producer_t * res (Z * tp_buffer_claim_t) * list store :=
  match producer, claim with
  | NULL, _ | _, NULL => (producer, Err EINVAL, [])
  | Some p, Some c =>
    if negb (producer_attached p) then (producer, Err EINVAL, [])
    else
      match tp_find_pool_for_length (pr_pools p) length with
      | None => (producer, Err EINVAL, [])
      | Some pool =>
        let seq := pr_next_seq p in
        let idx := header_index (pr_header_nslots p) seq in
        let c' := {| cl_seq := seq; cl_header_index := idx; cl_pool_id := pool_id pool;
                     cl_payload_len := u32 length;
                     cl_payload_addr := payload_at idx (pool_stride_bytes pool);
                     cl_tensor := cl_tensor c; cl_trace_id := 0 |} in
        (Some (set_next_seq p (u64 (seq + 1))), Ok (seq, c'),
         [store_word (tp_slot_at idx) (tp_seq_in_progress seq)])
      end
  end.

Definition set_trace_id (c : tp_buffer_claim_t) (t : Z) : tp_buffer_claim_t :=
  {| cl_seq := cl_seq c; cl_header_index := cl_header_index c; cl_pool_id := cl_pool_id c;
     cl_payload_len := cl_payload_len c; cl_payload_addr := cl_payload_addr c;
     cl_tensor := cl_tensor c; cl_trace_id := t |}.

(** The payload is copied from where [claim->payload] points: [m] is memory at
    the call. *)
Definition tp_producer_commit_claim (producer : ptr producer_t) (claim : ptr tp_buffer_claim_t)
    (meta : ptr tp_frame_metadata_t) (generator : ptr Z) (now_ns : Z) (m : mem)
    : option (ptr tp_buffer_claim_t * res unit * option (frame * list store)) :=
  match producer, claim with
  | NULL, _ | _, NULL => Some (claim, Err EINVAL, None)
  | Some p, Some c =>
    let meta := default {| fm_timestamp_ns := TP_NULL_U64; fm_meta_version := TP_NULL_U32 |} meta in
    match tp_producer_resolve_trace_id (cl_trace_id c) generator with
    | Err e => Some (claim, Err e, None)
    | Ok trace_id =>
      '(r, out) ← tp_producer_publish_frame producer (cl_seq c) (Some (cl_tensor c))
                   (Some (payload_bytes m (cl_pool_id c) (cl_payload_addr c)
                            (Z.to_nat (cl_payload_len c))))
                   (cl_payload_len c) (cl_pool_id c) (fm_timestamp_ns meta)
                   (fm_meta_version meta) trace_id now_ns;
      Some (Some (set_trace_id c trace_id), r, out)
    end
  end.

Definition tp_producer_abort_claim (producer : ptr producer_t) (claim : ptr tp_buffer_claim_t)
    : res unit :=
  match producer, claim with
  | NULL, _ | _, NULL => Err EINVAL
  | Some _, Some _ => Ok tt
  end.

Definition TP_ADMIN_ACTION : Z := -4.

(** The frame number or [TP_ADMIN_ACTION]. *)
Definition tp_producer_queue_claim (producer : ptr producer_t) (claim : ptr tp_buffer_claim_t)
    : ptr producer_t * ptr tp_buffer_claim_t * res Z * list store :=
  match producer, claim with
  | NULL, _ | _, NULL => (producer, claim, Err EINVAL, [])
  | Some p, Some c =>
    if negb (pr_fixed_pool_mode p) then (producer, claim, Ok TP_ADMIN_ACTION, [])
    else
      let seq := pr_next_seq p in
      let c' := {| cl_seq := seq; cl_header_index := cl_header_index c;
                   cl_pool_id := cl_pool_id c; cl_payload_len := cl_payload_len c;
                   cl_payload_addr := cl_payload_addr c; cl_tensor := cl_tensor c;
                   cl_trace_id := 0 |} in
      (Some (set_next_seq p (u64 (seq + 1))), Some c', Ok seq,
       [store_word (tp_slot_at (cl_header_index c)) (tp_seq_in_progress seq)])
  end.
End Producer.

(** ** The consumer *)

Record consumer_t := {
  co_use_shm : bool;
  co_shm_mapped : bool;
  co_header_nslots : Z;
  co_pools : list tp_payload_pool_t;
  co_drops_late : Z;              (* uint64_t *)
}.

(** [tp_frame_view_t]; the payload pointer is the pool's id and address offset. *)
Record tp_frame_view_t := {
  fv_tensor : tp_tensor_header_t;
  fv_payload_len : Z;
  fv_payload_addr : Z;
  fv_pool_id : Z;
  fv_payload_slot : Z;
  fv_timestamp_ns : Z;
  fv_meta_version : Z;
}.

(** Return code 0 with the view, 1 (with the late-drop counter incremented or
    not), -1, or undefined behaviour in the tensor check. *)
Inductive read_outcome :=
  | RFrame (v : tp_frame_view_t)
  | RSkip (late : bool)
  | RError (e : errno)
  | RUndefined.

Section Consumer.
Context `{Sbe}.

(** [tp_consumer_read_frame] from the slot address on, after the commit word
    [seq_first] was loaded and found committed. *)
Definition read_slot (pools : list tp_payload_pool_t) (idx seq seq_first : Z)
    : rprog read_outcome :=
  read! decoded_slot := slot_reads TP_HEADER_SLOT_BYTES in
  match decoded_slot with
  | Err e => RRet (RError e)
  | Ok sv =>
    if negb (sv_payload_offset sv =? 0) then RRet (RSkip false)
    else if negb (sv_payload_slot sv =? idx) then RRet (RSkip false)
    else
      match tp_find_pool pools (sv_pool_id sv) with
      | None => RRet (RSkip false)
      | Some pool =>
        if pool_stride_bytes pool <? sv_values_len_bytes sv then RRet (RSkip false)
        else if negb (sv_header_bytes_length sv =? tensor_header_len) then RRet (RSkip false)
        else
          read! decoded := rshift slot_header_bytes tensor_header_reads in
          match decoded with
          | Err _ => RRet (RSkip false)
          | Ok tensor =>
            match tp_tensor_header_validate (Some tensor) with
            | None => RRet RUndefined
            | Some (Some tensor', Ok _) =>
              let view := {| fv_tensor := tensor';
                             fv_payload_len := sv_values_len_bytes sv;
                             fv_payload_addr :=
                               payload_at (sv_payload_slot sv) (pool_stride_bytes pool);
                             fv_pool_id := sv_pool_id sv;
                             fv_payload_slot := sv_payload_slot sv;
                             fv_timestamp_ns := sv_timestamp_ns sv;
                             fv_meta_version := sv_meta_version sv |} in
              RLoad (fun seq_second =>
                if negb (seq_second =? seq_first) || negb (tp_seq_is_committed seq_second)
                then RRet (RSkip true)
                else if negb (tp_seq_value seq_second =? seq) then RRet (RSkip true)
                else RRet (RFrame view))
            | Some (_, _) => RRet (RSkip false)
            end
          end
      end
  end.

(** The accesses to the slot: the first load and the rest. *)
Definition slot_program (pools : list tp_payload_pool_t) (idx seq : Z) : rprog read_outcome :=
  RLoad (fun seq_first =>
    if negb (tp_seq_is_committed seq_first) then RRet (RSkip true)
    else read_slot pools idx seq seq_first).

(** [tp_consumer_read_frame]: the guards, and otherwise the address of the slot
    with the program that reads it. *)
Definition read_frame_program (c : ptr consumer_t) (seq : Z)
    : read_outcome + (Z * rprog read_outcome) :=
  match c with
  | NULL => inl (RError EINVAL)
  | Some c =>
    if negb (co_use_shm c) then inl (RSkip false)
    else if negb (co_shm_mapped c) then inl (RSkip false)
    else if co_header_nslots c =? 0 then inl (RError EINVAL)
    else
      let idx := header_index (co_header_nslots c) seq in
      if co_header_nslots c <=? idx then inl (RError EINVAL)
      else inr (tp_slot_at idx, slot_program (co_pools c) idx seq)
  end.

(** Run without interference, with the late-drop counter updated. *)
Definition tp_consumer_read_frame (c : consumer_t) (seq : Z) (m : mem) : consumer_t * read_outcome :=
  let r := match read_frame_program (Some c) seq with
           | inl r => r
           | inr (addr, p) => rrun p (m_slot m addr)
           end in
  let late := match r with RSkip true => 1 | _ => 0 end in
  ({| co_use_shm := co_use_shm c; co_shm_mapped := co_shm_mapped c;
      co_header_nslots := co_header_nslots c; co_pools := co_pools c;
      co_drops_late := u64 (co_drops_late c + late) |}, r).
End Consumer.

(** ** What the stores of a frame leave in its slot *)

Section SlotContent.
Context `{Sbe}.

(** A store outside the bytes [lo, hi). *)
Definition op_avoids (lo hi : Z) (op : slot_op) : Prop :=
  match op with
  | SPut w => 0 <= w_width w /\ 0 <= w_off w /\ (w_off w + w_width w <= lo \/ hi <= w_off w)
  | SByte off _ => Z.of_nat off < lo \/ hi <= Z.of_nat off
  end.

Lemma apply_slot_op_length op b : length (apply_slot_op op b) = length b.
Proof.
  destruct op as [w|off x]; simpl; [|by rewrite length_insert].
  pose proof (sbe_put_len (w_width w) b (w_off w) (w_val w)). unfold blen in *. lia.
Qed.

Lemma apply_slot_ops_length ops b : length (apply_slot_ops ops b) = length b.
Proof.
  revert b. induction ops as [|op ops IH]; intros b; simpl; [done|].
  by rewrite IH, apply_slot_op_length.
Qed.

Lemma apply_slot_ops_app ops ops' b :
  apply_slot_ops (ops ++ ops') b = apply_slot_ops ops' (apply_slot_ops ops b).
Proof. unfold apply_slot_ops. by rewrite fold_left_app. Qed.

Lemma apply_slot_ops_puts ws b : apply_slot_ops (map SPut ws) b = sbe_puts ws b.
Proof. revert b. induction ws as [|w ws IH]; intros b; simpl; [done|]. apply IH. Qed.

Lemma sbe_get_puts_one w off v b :
  0 <= w -> 0 <= off -> 0 <= v < 2 ^ (8 * w) -> off + w <= blen b ->
  sbe_get w (apply_slot_ops [SPut (Write off w v)] b) off = v.
Proof. intros. by apply sbe_get_put_eq. Qed.

Lemma avoids_lookup lo hi ops b i :
  Forall (op_avoids lo hi) ops -> lo <= Z.of_nat i < hi -> apply_slot_ops ops b !! i = b !! i.
Proof.
  intros Hav Hi. revert b. induction Hav as [|op ops Hop _ IH]; intros b; simpl; [done|].
  rewrite IH. destruct op as [w|off x]; simpl in *.
  - apply sbe_put_outside; lia.
  - apply list_lookup_insert_ne. lia.
Qed.

Lemma avoids_get w off ops b :
  0 <= w -> 0 <= off -> Forall (op_avoids off (off + w)) ops ->
  sbe_get w (apply_slot_ops ops b) off = sbe_get w b off.
Proof.
  intros Hw Ho Hav. apply sbe_get_ext; [done..|]. intros i Hi. by eapply avoids_lookup.
Qed.

Lemma slot_memcpy_cons off x src :
  slot_memcpy off (x :: src) = SByte off x :: slot_memcpy (S off) src.
Proof.
  unfold slot_memcpy. cbn [imap]. rewrite Nat.add_0_r. f_equal.
  apply imap_ext. intros i y _. simpl. by rewrite Nat.add_succ_r.
Qed.

Lemma slot_memcpy_avoids off src lo hi :
  hi <= Z.of_nat off \/ Z.of_nat (off + length src) <= lo ->
  Forall (op_avoids lo hi) (slot_memcpy off src).
Proof.
  intros Hd. apply Forall_lookup. intros i op Hi. unfold slot_memcpy in Hi.
  rewrite list_lookup_imap, fmap_Some in Hi. destruct Hi as (x & Hx & ->).
  apply lookup_lt_Some in Hx. simpl. lia.
Qed.

Lemma slot_memcpy_lookup off src b i :
  (off + length src <= length b)%nat -> (i < length src)%nat ->
  apply_slot_ops (slot_memcpy off src) b !! (off + i)%nat = src !! i.
Proof.
  revert off b i. induction src as [|x src IH]; intros off b i Hlen Hi; simpl in Hi; [lia|].
  rewrite slot_memcpy_cons. cbn [apply_slot_ops fold_left apply_slot_op].
  change (fold_left _ ?l ?b0) with (apply_slot_ops l b0).
  destruct i as [|i].
  - rewrite Nat.add_0_r, (avoids_lookup (Z.of_nat off) (Z.of_nat off + 1)); simpl in *.
    + apply list_lookup_insert_eq. lia.
    + apply slot_memcpy_avoids. lia.
    + lia.
  - rewrite Nat.add_succ_r. apply (IH (S off)); simpl in *; rewrite ?length_insert; lia.
Qed.

(** The argument types of a frame. *)
Record frame_wf (f : frame) : Prop := {
  fwf_seq : is_u64 (f_seq f);
  fwf_tensor : tensor_wf (f_tensor f);
  fwf_valid : tensor_valid (f_tensor f);
  fwf_len : is_u32 (blen (f_payload f));
  fwf_pool : is_u16 (f_pool_id f);
  fwf_ts : is_u64 (f_timestamp_ns f);
  fwf_mv : is_u32 (f_meta_version f);
}.

(** The slot [b] holds the header of [f]. *)
Record slot_holds (idx : Z) (f : frame) (b : bytes) : Prop := {
  sh_len : sbe_get 4 b 8 = blen (f_payload f);
  sh_slot : sbe_get 4 b 12 = idx;
  sh_pool : sbe_get 2 b 16 = f_pool_id f;
  sh_off : sbe_get 4 b 18 = 0;
  sh_ts : sbe_get 8 b 22 = f_timestamp_ns f;
  sh_mv : sbe_get 4 b 30 = f_meta_version f;
  sh_hlen : sbe_get 4 b 60 = tensor_header_len;
  sh_tensor : rrun (rshift slot_header_bytes tensor_header_reads) b = Ok (f_tensor f);
}.

Lemma tensor_reads_within : reads_within 192 tensor_header_reads.
Proof.
  unfold tensor_header_reads, messageHeader_encoded_length.
  repeat first
    [ apply reads_within_bind; [first [apply reads_within_read; lia | apply reads_within_array; lia]|intros ?]
    | case_match | done ].
Qed.

Ltac avoids_tac :=
  repeat lazymatch goal with
  | |- Forall _ [] => apply Forall_nil_2
  | |- Forall _ (_ ++ _) => apply Forall_app_2
  | |- Forall _ (slot_memcpy _ _) => apply slot_memcpy_avoids; rewrite ?length_replicate; lia
  | |- Forall _ (_ :: _) =>
    apply Forall_cons_2; [cbv [op_avoids w_width w_off slotHeader_sbe_block_length]; lia|]
  end.

Lemma slot_body_holds idx f b :
  length b = 256%nat -> frame_wf f -> is_u32 idx ->
  slot_holds idx f
    (apply_slot_ops (slot_body idx (sbe_puts (tensor_header_writes (f_tensor f))
                                      (replicate 256 0)) f) b).
Proof.
  intros Hb [Hseq Ht Hv Hl Hp Hts Hm] Hidx.
  set (hb := sbe_puts _ _).
  assert (Hhb : length hb = 256%nat).
  { pose proof (sbe_puts_len (tensor_header_writes (f_tensor f)) (replicate 256 0)) as E.
    unfold blen in E. rewrite length_replicate in E. subst hb. lia. }
  unfold slot_body, tp_zero_slot_padding, slot_memset. rewrite apply_slot_ops_app.
  set (tail := _ ++ _ : list slot_op).
  set (b1 := apply_slot_ops _ b).
  assert (Hb1 : b1 = sbe_puts (slot_fields idx f) b) by apply apply_slot_ops_puts.
  assert (Hlen : 60 <= blen b) by (unfold blen; lia).
  assert (Hfit : Forall write_fits (slot_fields idx f)) by (unfold slot_fields; write_fits_tac).
  change (Z.to_nat slot_header_bytes) with 64%nat in tail.
  change (Z.to_nat tensor_header_len) with 192%nat in tail.
  assert (Htake : length (take 192 hb) = 192%nat) by (rewrite length_take; lia).
  assert (Hav : forall off w, 0 <= off -> 0 <= w -> off + w <= 34 ->
            Forall (op_avoids off (off + w)) tail).
  { intros off w Ho Hw Hs. subst tail. avoids_tac. }
  assert (Hl1 : length b1 = 256%nat) by (subst b1; by rewrite apply_slot_ops_length).
  constructor.
  1-6: rewrite avoids_get by first [lia | apply Hav; lia]; rewrite Hb1; sbe_field 60; done.
  - subst tail. rewrite !apply_slot_ops_app, avoids_get; [|lia..|avoids_tac].
    rewrite sbe_get_puts_one; [done..|]. unfold blen. rewrite apply_slot_ops_length, Hl1. done.
  - destruct (tensor_valid_enums _ Hv) as (? & ? & ?).
    change slot_header_bytes with (Z.of_nat 64).
    rewrite (rrun_rshift 192 _ 64 _ hb tensor_reads_within).
    + pose proof (tensor_codec_roundtrip (f_tensor f) (replicate 256 0)) as R.
      by apply R.
    + intros i Hi. subst tail. rewrite app_assoc, apply_slot_ops_app, slot_memcpy_lookup.
      * apply lookup_take_lt. lia.
      * rewrite !apply_slot_ops_length, Hl1. lia.
      * lia.
Qed.

(** The header stays when only the commit word changes. *)
Lemma slot_holds_word idx f b v :
  slot_holds idx f b -> slot_holds idx f (sbe_put 8 b 0 v).
Proof.
  intros [].
  constructor; try (rewrite sbe_get_put_ne by lia; done).
  revert sh_tensor0. rewrite (rrun_rshift 192 _ 64 _ (drop 64 b) tensor_reads_within).
  2: { intros i _. by rewrite lookup_drop. }
  intros <-. apply (rrun_rshift 192 _ 64 _ _ tensor_reads_within). intros i _.
  rewrite sbe_put_outside by lia. by rewrite lookup_drop.
Qed.

Definition view_of (idx stride : Z) (f : frame) : tp_frame_view_t :=
  {| fv_tensor := f_tensor f; fv_payload_len := blen (f_payload f);
     fv_payload_addr := payload_at idx stride; fv_pool_id := f_pool_id f;
     fv_payload_slot := idx; fv_timestamp_ns := f_timestamp_ns f;
     fv_meta_version := f_meta_version f |}.

(** Reading a slot that holds [f]: everything passes up to the second load,
    which decides on the commit word. *)
Lemma read_slot_holds pools pool idx seq w1 f b :
  slot_holds idx f b -> frame_wf f ->
  tp_find_pool pools (f_pool_id f) = Some pool ->
  blen (f_payload f) <= pool_stride_bytes pool ->
  rrun (read_slot pools idx seq w1) b =
    (let w2 := sbe_get 8 b 0 in
     if negb (w2 =? w1) || negb (tp_seq_is_committed w2) then RSkip true
     else if negb (tp_seq_value w2 =? seq) then RSkip true
     else RFrame (view_of idx (pool_stride_bytes pool) f)).
Proof.
  intros Hh Hwf Hpool Hfit.
  pose proof (validate_fixpoint _ (fwf_tensor _ Hwf) (fwf_valid _ Hwf)) as Hval.
  destruct Hh as [H1 H2 H3 H4 H5 H6 H7 Ht].
  unfold read_slot. remember (rshift slot_header_bytes tensor_header_reads) as P eqn:HP.
  clear HP. remember tp_tensor_header_validate as V eqn:HV. clear HV. rewrite rrun_bind. unfold slot_reads, slotHeader_sbe_block_length, read.
  cbn [rbind rrun]. rewrite H1, H2, H3, H4, H5, H6, H7, sbe_var_data_spec. simpl.
  rewrite Z.eqb_refl. simpl. rewrite Hpool.
  replace (pool_stride_bytes pool <? blen (f_payload f)) with false
    by (symmetry; apply Z.ltb_ge; lia).
  simpl. rewrite rrun_bind, Ht, Hval. simpl.
  by destruct (_ || _); [|destruct (negb _)].
Qed.
End SlotContent.
