(* ===== verification/RingProtocol.v ===== *)
(** * RingProtocol: a producer and a consumer on the same ring

    A transition system in which one producer publishes frames and fills
    claims, store by store, while a consumer runs [tp_consumer_read_frame], load
    by load.  The main theorem: a frame the consumer accepts is a frame the
    producer committed, with its payload intact at the time it is accepted.

    The producer thread runs one publish call at a time.  The application may
    write a claim's payload while a publish runs, as a device that fills the
    buffer does, but only while fewer than [nslots] frames were started after
    the claim: a claim held longer loses its slot to a newer frame. *)

From Stdlib Require Import ZArith Lia Bool.
From S2P Require Import Prelude Sbe Seqlock Tensor Ring.

(** ** Configuration *)

(** The ring and its pools as a producer and a consumer have them after attach:
    the sizes keep the 32-bit offset products from wrapping. *)
Record ring_ok (n : Z) (pools : list tp_payload_pool_t) : Prop := {
  ro_pos : 0 < n;
  ro_max : n <= 2 ^ 24;
  ro_pow2 : tp_is_power_of_two n = true;
  ro_ids : NoDup (map pool_id pools);
  ro_pool : Forall (fun p => is_u16 (pool_id p) /\ 0 < pool_stride_bytes p /\
                             is_u32 (pool_stride_bytes p) /\
                             n * pool_stride_bytes p <= 2 ^ 32) pools;
}.

(** Memory as the driver creates it: 256-byte slots whose commit word is 0. *)
Definition fresh_mem `{Sbe} (n : Z) (m : mem) : Prop :=
  forall i, 0 <= i < n ->
    length (m_slot m (tp_slot_at i)) = 256%nat /\ sbe_get 8 (m_slot m (tp_slot_at i)) 0 = 0.

(** ** The transition system *)

Record sys := {
  s_prod : producer_t;
  s_todo : option (frame * list store);   (* the publish call in progress *)
  s_claims : list tp_buffer_claim_t;      (* handed to the application *)
  s_mem : mem;
  s_hist : list frame;                    (* the frames committed so far *)
  s_reader : option (Z * Z * rprog read_outcome);  (* frame number, slot address, the rest *)
}.

Definition with_reader (s : sys) (r : option (Z * Z * rprog read_outcome)) : sys :=
  {| s_prod := s_prod s; s_todo := s_todo s; s_claims := s_claims s; s_mem := s_mem s;
     s_hist := s_hist s; s_reader := r |}.

Definition with_mem (s : sys) (m : mem) : sys :=
  {| s_prod := s_prod s; s_todo := s_todo s; s_claims := s_claims s; s_mem := m;
     s_hist := s_hist s; s_reader := s_reader s |}.

Definition with_claims (s : sys) (cs : list tp_buffer_claim_t) : sys :=
  {| s_prod := s_prod s; s_todo := s_todo s; s_claims := cs; s_mem := s_mem s;
     s_hist := s_hist s; s_reader := s_reader s |}.

Definition set_tensor (c : tp_buffer_claim_t) (t : tp_tensor_header_t) : tp_buffer_claim_t :=
  {| cl_seq := cl_seq c; cl_header_index := cl_header_index c; cl_pool_id := cl_pool_id c;
     cl_payload_len := cl_payload_len c; cl_payload_addr := cl_payload_addr c;
     cl_tensor := t; cl_trace_id := cl_trace_id c |}.

(** Fewer than [nslots] frames were started after the claim. *)
Definition claim_live (p : producer_t) (c : tp_buffer_claim_t) : Prop :=
  pr_next_seq p <= cl_seq c + pr_header_nslots p.

Definition meta_wf (meta : ptr tp_frame_metadata_t) : Prop :=
  match meta with
  | NULL => True
  | Some m => is_u64 (fm_timestamp_ns m) /\ is_u32 (fm_meta_version m)
  end.

Section System.
Context `{Sbe}.
Variable publish_descriptor : Z -> Z -> Z -> res unit.
Variable co : consumer_t.

Inductive producer_step (s : sys) : sys -> Prop :=
  | step_offer fr meta generator now p' r out :
      s_todo s = None -> pr_next_seq (s_prod s) < 2 ^ 63 ->
      (forall t, fr_tensor fr = Some t -> tensor_wf t) -> is_u32 (fr_payload_len fr) ->
      (forall b, fr_payload fr = Some b -> fr_payload_len fr = blen b) -> meta_wf meta ->
      tp_producer_offer_frame publish_descriptor (Some (s_prod s)) (Some fr) meta generator now =
        Some (Some p', r, out) ->
      producer_step s {| s_prod := p'; s_todo := out; s_claims := s_claims s;
                         s_mem := s_mem s; s_hist := s_hist s; s_reader := s_reader s |}
  | step_claim length c p' seq c' ss :
      s_todo s = None -> pr_next_seq (s_prod s) < 2 ^ 63 -> 0 <= length ->
      tp_producer_try_claim (Some (s_prod s)) length (Some c) = (Some p', Ok (seq, c'), ss) ->
      producer_step s {| s_prod := p'; s_todo := None; s_claims := c' :: s_claims s;
                         s_mem := apply_stores ss (s_mem s); s_hist := s_hist s;
                         s_reader := s_reader s |}
  | step_fill c off x :
      c ∈ s_claims s -> claim_live (s_prod s) c -> 0 <= off < cl_payload_len c ->
      producer_step s
        (with_mem s (apply_store (StPayload (cl_pool_id c) (cl_payload_addr c + off) x) (s_mem s)))
  | step_commit c cs cs' t meta generator now c' r out :
      s_todo s = None -> s_claims s = cs ++ c :: cs' -> claim_live (s_prod s) c ->
      tensor_wf t -> meta_wf meta ->
      tp_producer_commit_claim publish_descriptor (Some (s_prod s)) (Some (set_tensor c t))
        meta generator now (s_mem s) = Some (Some c', r, out) ->
      producer_step s {| s_prod := s_prod s; s_todo := out;
                         s_claims := match out with Some _ => cs ++ cs' | None => s_claims s end;
                         s_mem := s_mem s; s_hist := s_hist s; s_reader := s_reader s |}
  | step_abort c cs cs' :
      s_claims s = cs ++ c :: cs' ->
      tp_producer_abort_claim (Some (s_prod s)) (Some c) = Ok tt ->
      producer_step s (with_claims s (cs ++ cs'))
  | step_store f st rest :
      s_todo s = Some (f, st :: rest) ->
      producer_step s {| s_prod := s_prod s;
                         s_todo := match rest with [] => None | _ => Some (f, rest) end;
                         s_claims := s_claims s; s_mem := apply_store st (s_mem s);
                         s_hist := match rest with [] => f :: s_hist s | _ => s_hist s end;
                         s_reader := s_reader s |}.

Inductive reader_step (s : sys) : sys -> Prop :=
  | step_begin seq addr p :
      is_u64 seq -> read_frame_program (Some co) seq = inr (addr, p) ->
      reader_step s (with_reader s (Some (seq, addr, p)))
  | step_read seq addr w off k :
      s_reader s = Some (seq, addr, RRead w off k) ->
      reader_step s (with_reader s (Some (seq, addr, k (sbe_get w (m_slot (s_mem s) addr) off))))
  | step_load seq addr k :
      s_reader s = Some (seq, addr, RLoad k) ->
      reader_step s (with_reader s (Some (seq, addr, k (sbe_get 8 (m_slot (s_mem s) addr) 0)))).

Inductive reachable (s0 : sys) : sys -> Prop :=
  | reach_refl : reachable s0 s0
  | reach_producer s s' : reachable s0 s -> producer_step s s' -> reachable s0 s'
  | reach_reader s s' : reachable s0 s -> reader_step s s' -> reachable s0 s'.

(** After attach: nothing published, the consumer has the producer's ring. *)
Record initial (s : sys) : Prop := {
  in_ring : ring_ok (pr_header_nslots (s_prod s)) (pr_pools (s_prod s));
  in_seq : pr_next_seq (s_prod s) = 0;
  in_todo : s_todo s = None;
  in_claims : s_claims s = [];
  in_mem : fresh_mem (pr_header_nslots (s_prod s)) (s_mem s);
  in_hist : s_hist s = [];
  in_reader : s_reader s = None;
  in_nslots : co_header_nslots co = pr_header_nslots (s_prod s);
  in_pools : co_pools co = pr_pools (s_prod s);
}.
End System.

(** ** The ring's arithmetic *)

Section Ring.
Context (n : Z) (pools : list tp_payload_pool_t) (Hring : ring_ok n pools).

Lemma header_index_mod seq : 0 <= seq -> header_index n seq = seq mod n.
Proof.
  intros Hs. destruct Hring as [Hp Hm H2 _ _]. unfold header_index.
  rewrite (u32_small (n - 1)), land_power_of_two_mod by ulia || done.
  apply u32_small. pose proof (Z.mod_pos_bound seq n Hp). ulia.
Qed.

Lemma header_index_range seq : 0 <= seq -> 0 <= header_index n seq < n.
Proof.
  intros Hs. rewrite header_index_mod by done. apply Z.mod_pos_bound, Hring.
Qed.

(** Frames of one slot are at least [n] apart. *)
Lemma header_index_ne a b :
  0 <= a -> 0 <= b -> a <> b -> Z.abs (a - b) < n -> header_index n a <> header_index n b.
Proof.
  intros Ha Hb Hne Hd E. rewrite !header_index_mod in E by done.
  apply Hne, (mod_eq_close a b n); [apply Hring|done|lia].
Qed.

Lemma slot_at_inj i j : 0 <= i < n -> 0 <= j < n -> tp_slot_at i = tp_slot_at j -> i = j.
Proof.
  intros Hi Hj. destruct Hring as [_ Hm _ _ _]. unfold tp_slot_at, TP_HEADER_SLOT_BYTES.
  rewrite !u32_small by ulia. lia.
Qed.

Lemma find_pool_In id pool : tp_find_pool pools id = Some pool -> pool ∈ pools /\ pool_id pool = id.
Proof.
  unfold tp_find_pool. intros Hf. apply find_some in Hf as [Hin E]. bool_simp.
  by rewrite list_elem_of_In.
Qed.

Lemma find_pool_ids pool : pool ∈ pools -> tp_find_pool pools (pool_id pool) = Some pool.
Proof.
  intros Hin. pose proof (ro_ids _ _ Hring) as Hnd. clear Hring.
  induction pools as [|q qs IH]; [by apply not_elem_of_nil in Hin|].
  simpl in *. apply NoDup_cons in Hnd as [Hq Hnd].
  destruct (Z.eqb_spec (pool_id q) (pool_id pool)) as [E|E].
  - apply elem_of_cons in Hin as [->|Hin]; [done|]. exfalso. apply Hq. rewrite E.
    by apply list_elem_of_fmap_2.
  - apply elem_of_cons in Hin as [->|Hin]; [done|]. by apply IH.
Qed.

Lemma best_pool_inv length best l q :
  (forall b, best = Some b -> b ∈ pools /\ length <= pool_stride_bytes b) ->
  (forall p, p ∈ l -> p ∈ pools) ->
  fold_left (better_pool length) l best = Some q -> q ∈ pools /\ length <= pool_stride_bytes q.
Proof.
  revert best. induction l as [|p l IH]; intros best Hb Hl Hq; simpl in Hq; [by apply Hb|].
  apply IH in Hq; [done| |].
  - intros b. unfold better_pool. repeat case_match; intros E; simplify_eq; bool_simp;
      eauto using list_elem_of_here.
    all: try (split; [apply Hl, list_elem_of_here|lia]).
    all: by apply Hb.
  - intros p' Hp'. by apply Hl, list_elem_of_further.
Qed.

Lemma find_pool_for_length_spec length q :
  tp_find_pool_for_length pools length = Some q -> q ∈ pools /\ length <= pool_stride_bytes q.
Proof. intros Hq. by apply (best_pool_inv length None pools q) in Hq. Qed.

Lemma pool_facts p :
  p ∈ pools -> is_u16 (pool_id p) /\ 0 < pool_stride_bytes p /\ is_u32 (pool_stride_bytes p) /\
               n * pool_stride_bytes p <= 2 ^ 32.
Proof. intros Hin. pose proof (ro_pool _ _ Hring) as HF. rewrite Forall_forall in HF. auto. Qed.

Lemma payload_at_pool p i :
  p ∈ pools -> 0 <= i < n ->
  payload_at i (pool_stride_bytes p) = TP_SUPERBLOCK_SIZE_BYTES + i * pool_stride_bytes p.
Proof.
  intros Hin Hi. pose proof (pool_facts p Hin). apply (payload_at_small _ _ n); lia.
Qed.

(** Bytes of two slots of one pool differ. *)
Lemma payload_disjoint p i j a b :
  p ∈ pools -> 0 <= i < n -> 0 <= j < n -> i <> j ->
  0 <= a < pool_stride_bytes p -> 0 <= b < pool_stride_bytes p ->
  payload_at i (pool_stride_bytes p) + a <> payload_at j (pool_stride_bytes p) + b.
Proof. intros Hin Hi Hj Hne Ha Hb. rewrite !payload_at_pool by done. nia. Qed.

(** ** The invariant *)

Section Invariant.
Context `{Sbe}.

Definition word (m : mem) (i : Z) : Z := sbe_get 8 (m_slot m (tp_slot_at i)) 0.

(** What every frame on the way into the ring satisfies. *)
Record frame_fits (f : frame) (pool : tp_payload_pool_t) : Prop := {
  ff_wf : frame_wf f;
  ff_pool : tp_find_pool pools (f_pool_id f) = Some pool;
  ff_len : blen (f_payload f) <= pool_stride_bytes pool;
  ff_seq : 0 <= f_seq f < 2 ^ 63;
}.

(** The frame's payload is in its slot of the pool. *)
Definition payload_in (m : mem) (f : frame) (pool : tp_payload_pool_t) : Prop :=
  forall k x, f_payload f !! k = Some x ->
    m_payload m (f_pool_id f)
      (payload_at (header_index n (f_seq f)) (pool_stride_bytes pool) + Z.of_nat k) = x.

(** A committed slot holds a frame of the history. *)
Definition slot_ok (m : mem) (hist : list frame) (i : Z) : Prop :=
  length (m_slot m (tp_slot_at i)) = 256%nat /\
  (Z.odd (word m i) = true -> exists f pool,
     f ∈ hist /\ frame_fits f pool /\ header_index n (f_seq f) = i /\
     word m i = tp_seq_committed (f_seq f) /\
     slot_holds i f (m_slot m (tp_slot_at i)) /\ payload_in m f pool).

Record claim_ok (next : Z) (hist : list frame) (m : mem) (c : tp_buffer_claim_t) : Prop := {
  ck_seq : 0 <= cl_seq c < next;
  ck_new : forall f, f ∈ hist -> f_seq f <> cl_seq c;
  ck_pool : exists pool, pool ∈ pools /\ pool_id pool = cl_pool_id c /\
              0 <= cl_payload_len c <= pool_stride_bytes pool /\
              cl_payload_addr c = payload_at (header_index n (cl_seq c)) (pool_stride_bytes pool);
  ck_word : next <= cl_seq c + n ->
            word m (header_index n (cl_seq c)) = tp_seq_in_progress (cl_seq c);
}.

(** The part [ops] of the frame's slot stores is done, and the payload
    stores among [done] are. *)
Definition slot_ops_of (ss : list store) : list slot_op :=
  omap (fun st => match st with StSlot _ op => Some op | _ => None end) ss.

Definition in_flight (m : mem) (f : frame) (done : list store) : Prop :=
  (done = [] \/ exists b, length b = 256%nat /\
     m_slot m (tp_slot_at (header_index n (f_seq f))) = apply_slot_ops (slot_ops_of done) b) /\
  (forall p a x, StPayload p a x ∈ done -> m_payload m p a = x).

Definition frame_hb (f : frame) : bytes :=
  sbe_puts (tensor_header_writes (f_tensor f)) (replicate 256 0).

Record todo_ok (next : Z) (hist : list frame) (claims : list tp_buffer_claim_t) (m : mem)
    (f : frame) (rest : list store) : Prop := {
  tk_fits : exists pool done, frame_fits f pool /\
    frame_stores n (pool_stride_bytes pool) f (frame_hb f) = done ++ rest /\
    in_flight m f done;
  tk_rest : rest <> [];
  tk_seq : f_seq f < next <= f_seq f + n;
  tk_new : forall f', f' ∈ hist -> f_seq f' <> f_seq f;
  tk_claims : forall c, c ∈ claims -> cl_seq c <> f_seq f;
}.

Record inv (s : sys) : Prop := {
  inv_n : pr_header_nslots (s_prod s) = n;
  inv_pools : pr_pools (s_prod s) = pools;
  inv_next : 0 <= pr_next_seq (s_prod s) <= 2 ^ 63;
  inv_slots : forall i, 0 <= i < n -> slot_ok (s_mem s) (s_hist s) i;
  inv_hist : forall f, f ∈ s_hist s -> 0 <= f_seq f < pr_next_seq (s_prod s);
  inv_claims : forall c, c ∈ s_claims s ->
                 claim_ok (pr_next_seq (s_prod s)) (s_hist s) (s_mem s) c;
  inv_distinct : NoDup (map cl_seq (s_claims s));
  inv_todo : forall f rest, s_todo s = Some (f, rest) ->
               todo_ok (pr_next_seq (s_prod s)) (s_hist s) (s_claims s) (s_mem s) f rest;
}.

(** ** Single stores *)

(** A store into slot [i] or into its payload in some pool. *)
Definition store_at (i : Z) (st : store) : Prop :=
  match st with
  | StSlot a op => a = tp_slot_at i
  | StPayload p a x => exists pool k, pool ∈ pools /\ pool_id pool = p /\
      a = payload_at i (pool_stride_bytes pool) + k /\ 0 <= k < pool_stride_bytes pool
  end.

Lemma store_slot_ne st i j m :
  store_at i st -> 0 <= i < n -> 0 <= j < n -> i <> j ->
  m_slot (apply_store st m) (tp_slot_at j) = m_slot m (tp_slot_at j).
Proof.
  intros Hst Hi Hj Hne. destruct st as [a op|p a x]; simpl in *; [|done]. subst a.
  destruct (Z.eqb_spec (tp_slot_at j) (tp_slot_at i)) as [E|]; [|done].
  apply slot_at_inj in E; [congruence|done..].
Qed.

Lemma store_slot_length st a m :
  length (m_slot (apply_store st m) a) = length (m_slot m a).
Proof.
  destruct st as [a' op|p a' x]; simpl; [|done]. destruct (a =? a'); [|done].
  apply apply_slot_op_length.
Qed.

Lemma store_payload_ne st i j m pool k :
  store_at i st -> 0 <= i < n -> 0 <= j < n -> i <> j ->
  pool ∈ pools -> 0 <= k < pool_stride_bytes pool ->
  m_payload (apply_store st m) (pool_id pool) (payload_at j (pool_stride_bytes pool) + k) =
  m_payload m (pool_id pool) (payload_at j (pool_stride_bytes pool) + k).
Proof.
  intros Hst Hi Hj Hne Hp Hk. destruct st as [a op|p a x]; simpl in *; [done|].
  destruct Hst as (pool' & k' & Hp' & Hid & -> & Hk').
  destruct (_ && _) eqn:E; [|done]. bool_simp. exfalso. subst p.
  assert (pool' = pool) as ->.
  { apply find_pool_ids in Hp, Hp'. rewrite <- H0 in Hp'. congruence. }
  by eapply (payload_disjoint pool i j k' k).
Qed.

Lemma frame_fits_pool f pool :
  frame_fits f pool -> pool ∈ pools /\ pool_id pool = f_pool_id f.
Proof. intros Hf. by apply find_pool_In, (ff_pool _ _ Hf). Qed.

Lemma payload_index f pool k x :
  frame_fits f pool -> f_payload f !! k = Some x -> 0 <= Z.of_nat k < pool_stride_bytes pool.
Proof.
  intros Hf Hk%lookup_lt_Some. pose proof (ff_len _ _ Hf). unfold blen in *. lia.
Qed.

Lemma word_store_ne st i j m :
  store_at i st -> 0 <= i < n -> 0 <= j < n -> i <> j ->
  word (apply_store st m) j = word m j.
Proof. intros. unfold word. by erewrite store_slot_ne by eassumption. Qed.

Lemma payload_in_store st i m f pool :
  store_at i st -> 0 <= i < n -> frame_fits f pool -> i <> header_index n (f_seq f) ->
  payload_in m f pool -> payload_in (apply_store st m) f pool.
Proof.
  intros Hst Hi Hf Hne Hin k x Hk.
  destruct (frame_fits_pool _ _ Hf) as [Hp Hid]. rewrite <- Hid.
  rewrite (store_payload_ne st i) ; try done.
  - rewrite Hid. by apply Hin.
  - apply header_index_range, (ff_seq _ _ Hf).
  - by eapply payload_index.
Qed.

(** A store leaves the other slots alone; its own must not end committed. *)
Lemma slot_ok_store st i j m hist :
  store_at i st -> 0 <= i < n -> 0 <= j < n -> slot_ok m hist j ->
  (i = j -> Z.odd (word (apply_store st m) i) = false) ->
  slot_ok (apply_store st m) hist j.
Proof.
  intros Hst Hi Hj [Hlen Hok] Heven. split; [by rewrite store_slot_length|].
  intros Hodd. destruct (decide (i = j)) as [<-|Hne]; [rewrite Heven in Hodd; done|].
  rewrite (word_store_ne st i) in Hodd |- * by done.
  rewrite (store_slot_ne st i) by done.
  destruct (Hok Hodd) as (f & pool & ? & ? & <- & ? & ? & ?).
  exists f, pool. split_and!; try done. by eapply payload_in_store.
Qed.

Lemma slot_ok_hist m hist hist' i :
  (forall f, f ∈ hist -> f ∈ hist') -> slot_ok m hist i -> slot_ok m hist' i.
Proof.
  intros Hsub [Hlen Hok]. split; [done|]. intros Hodd.
  destruct (Hok Hodd) as (f & pool & ? & ?). exists f, pool. auto.
Qed.

Lemma claim_ok_store st i next hist m c :
  store_at i st -> 0 <= i < n -> claim_ok next hist m c ->
  (next <= cl_seq c + n -> i = header_index n (cl_seq c) ->
   word (apply_store st m) i = tp_seq_in_progress (cl_seq c)) ->
  claim_ok next hist (apply_store st m) c.
Proof.
  intros Hst Hi [Hseq Hnew Hpool Hword] Hw. constructor; try done.
  intros Hlive. destruct (decide (i = header_index n (cl_seq c))) as [E|Hne].
  - rewrite <- E at 1. by apply Hw.
  - rewrite (word_store_ne st i); auto. apply header_index_range. lia.
Qed.

(** ** The stores of a frame *)

Definition body_store (f : frame) (pool : tp_payload_pool_t) (st : store) : Prop :=
  match st with
  | StSlot a op => a = tp_slot_at (header_index n (f_seq f)) /\ op_avoids 0 8 op
  | StPayload p a x => p = f_pool_id f /\ exists k,
      a = payload_at (header_index n (f_seq f)) (pool_stride_bytes pool) + Z.of_nat k /\
      f_payload f !! k = Some x
  end.

Definition frame_mid (f : frame) (pool : tp_payload_pool_t) : list store :=
  let idx := header_index n (f_seq f) in
  frame_body idx (tp_slot_at idx) (payload_at idx (pool_stride_bytes pool)) (frame_hb f) f.
Definition first_store (f : frame) : store :=
  store_word (tp_slot_at (header_index n (f_seq f))) (tp_seq_in_progress (f_seq f)).
Definition last_store (f : frame) : store :=
  store_word (tp_slot_at (header_index n (f_seq f))) (tp_seq_committed (f_seq f)).

Lemma frame_stores_eq f pool :
  frame_stores n (pool_stride_bytes pool) f (frame_hb f) =
  first_store f :: frame_mid f pool ++ [last_store f].
Proof. done. Qed.

Lemma slot_body_avoids idx hb f : Forall (op_avoids 0 8) (slot_body idx hb f).
Proof.
  unfold slot_body, tp_zero_slot_padding, slot_memset, slot_fields.
  repeat apply Forall_app_2.
  - repeat (apply Forall_cons_2; [cbv [op_avoids w_width w_off]; lia|]). apply Forall_nil_2.
  - apply slot_memcpy_avoids. lia.
  - apply Forall_cons_2; [cbv [op_avoids w_width w_off slotHeader_sbe_block_length]; lia|].
    apply Forall_nil_2.
  - apply slot_memcpy_avoids. change (Z.to_nat slot_header_bytes) with 64%nat. lia.
Qed.

Lemma frame_mid_body f pool : Forall (body_store f pool) (frame_mid f pool).
Proof.
  unfold frame_mid, frame_body. apply Forall_app_2.
  - destruct (_ <? _); [|apply Forall_nil_2]. apply Forall_lookup. intros i st Hi.
    unfold payload_memcpy in Hi. rewrite list_lookup_imap, fmap_Some in Hi.
    destruct Hi as (x & Hx & ->). simpl. eauto.
  - apply Forall_fmap. eapply Forall_impl; [apply slot_body_avoids|]. by intros op Hop.
Qed.

Lemma slot_ops_of_app a b : slot_ops_of (a ++ b) = slot_ops_of a ++ slot_ops_of b.
Proof. apply omap_app. Qed.

Lemma slot_ops_of_payload p a src : slot_ops_of (payload_memcpy p a src) = [].
Proof.
  unfold slot_ops_of, payload_memcpy. induction src as [|x src IH] using rev_ind.
  - done.
  - by rewrite imap_app, omap_app, IH.
Qed.

Lemma slot_ops_of_slot a ops : slot_ops_of (map (StSlot a) ops) = ops.
Proof. induction ops as [|op ops IH]; simpl; [done|]. by f_equal. Qed.

Lemma slot_ops_of_mid f pool :
  slot_ops_of (frame_mid f pool) = slot_body (header_index n (f_seq f)) (frame_hb f) f.
Proof.
  unfold frame_mid, frame_body. rewrite slot_ops_of_app, slot_ops_of_slot.
  destruct (0 <? _); [by rewrite slot_ops_of_payload|done].
Qed.

Lemma payload_stores_mid f pool k x :
  f_payload f !! k = Some x ->
  StPayload (f_pool_id f)
    (payload_at (header_index n (f_seq f)) (pool_stride_bytes pool) + Z.of_nat k) x
  ∈ frame_mid f pool.
Proof.
  intros Hk. unfold frame_mid, frame_body. apply elem_of_app. left.
  replace (0 <? blen (f_payload f)) with true.
  2: { symmetry. apply Z.ltb_lt. apply lookup_lt_Some in Hk. unfold blen. lia. }
  apply list_elem_of_lookup. exists k. unfold payload_memcpy.
  by rewrite list_lookup_imap, Hk.
Qed.

Lemma body_store_at f pool st :
  frame_fits f pool -> body_store f pool st -> store_at (header_index n (f_seq f)) st.
Proof.
  intros Hf. destruct st as [a op|p a x]; simpl; [by intros [-> _]|].
  intros (-> & k & -> & Hk). destruct (frame_fits_pool _ _ Hf) as [Hp Hid].
  exists pool, (Z.of_nat k). split_and!; try done; by eapply payload_index.
Qed.

Lemma slot_ops_of_avoids f pool ss :
  Forall (body_store f pool) ss -> Forall (op_avoids 0 8) (slot_ops_of ss).
Proof.
  induction 1 as [|[a op|p a x] ss Hst _ IH]; simpl; [done| |done].
  destruct Hst. by constructor.
Qed.

(** Where a publish call stands. *)
Lemma frame_stores_split f pool prefix st rest :
  frame_stores n (pool_stride_bytes pool) f (frame_hb f) = prefix ++ st :: rest ->
  (prefix = [] /\ st = first_store f /\ rest <> []) \/
  (exists d, prefix = first_store f :: d /\ Forall (body_store f pool) d /\
             body_store f pool st /\ rest <> []) \/
  (prefix = first_store f :: frame_mid f pool /\ st = last_store f /\ rest = []).
Proof.
  rewrite frame_stores_eq. pose proof (frame_mid_body f pool) as Hb.
  destruct prefix as [|st0 d]; simpl.
  { intros [= <- <-]. left. split_and!; try done. by destruct (frame_mid f pool). }
  intros [= <- E]. right. destruct rest as [|st1 rest _] using rev_ind.
  - right. by apply app_inj_tail in E as [-> ->].
  - left. rewrite app_comm_cons, app_assoc in E. apply app_inj_tail in E as [E _].
    rewrite E, Forall_app, Forall_cons in Hb. exists d. split_and!; try tauto.
    by destruct rest.
Qed.

(** The stores of a prefix of a publish call. *)
Lemma prefix_payload f pool prefix rest p a x :
  frame_stores n (pool_stride_bytes pool) f (frame_hb f) = prefix ++ rest ->
  StPayload p a x ∈ prefix -> body_store f pool (StPayload p a x).
Proof.
  rewrite frame_stores_eq. intros E Hin.
  assert (Hin' : StPayload p a x ∈ first_store f :: frame_mid f pool ++ [last_store f]).
  { rewrite E. apply elem_of_app. by left. }
  apply elem_of_cons in Hin' as [Hin'|Hin']; [done|].
  apply elem_of_app in Hin' as [Hin'|Hin']; [|apply list_elem_of_singleton in Hin'; done].
  pose proof (frame_mid_body f pool) as Hb. rewrite Forall_forall in Hb. by apply Hb.
Qed.

Lemma in_flight_word f pool d m :
  Forall (body_store f pool) d -> is_u64 (tp_seq_in_progress (f_seq f)) ->
  in_flight m f (first_store f :: d) ->
  word m (header_index n (f_seq f)) = tp_seq_in_progress (f_seq f).
Proof.
  intros Hd Hw [[|(b & Hb & Hs)] _]; [done|]. unfold word. rewrite Hs. simpl.
  rewrite avoids_get; [|lia..|by eapply slot_ops_of_avoids].
  apply sbe_get_put_eq; try done. unfold blen. by rewrite Hb.
Qed.

Lemma in_flight_step f pool prefix st rest m :
  frame_fits f pool ->
  length (m_slot m (tp_slot_at (header_index n (f_seq f)))) = 256%nat ->
  frame_stores n (pool_stride_bytes pool) f (frame_hb f) = prefix ++ st :: rest ->
  in_flight m f prefix -> in_flight (apply_store st m) f (prefix ++ [st]).
Proof.
  intros Hf Hlen E [Hslot Hpay].
  assert (Hst : body_store f pool st \/
                exists v, st = store_word (tp_slot_at (header_index n (f_seq f))) v).
  { apply frame_stores_split in E as [(_ & -> & _)|[(? & _ & _ & ? & _)|(_ & -> & _)]];
      unfold first_store, last_store; eauto. }
  split.
  - right. rewrite slot_ops_of_app.
    assert (exists b, length b = 256%nat /\
      m_slot m (tp_slot_at (header_index n (f_seq f))) = apply_slot_ops (slot_ops_of prefix) b)
      as (b & Hb & Hs) by (destruct Hslot as [->|]; eauto).
    exists b. split; [done|]. rewrite apply_slot_ops_app, <- Hs.
    destruct st as [a op|p a x]; simpl; [|done].
    assert (a = tp_slot_at (header_index n (f_seq f))) as ->
      by (destruct Hst as [[? _]|[v Ev]]; [done|by inversion Ev]).
    by rewrite Z.eqb_refl.
  - intros p a x Hin. apply elem_of_app in Hin as [Hin|Hin].
    + specialize (Hpay _ _ _ Hin). destruct st as [|p' a' x']; simpl; [done|].
      destruct (_ && _) eqn:Eq; [|done]. bool_simp. subst.
      apply (prefix_payload _ _ _ _ _ _ _ E) in Hin as (_ & k & Ek & Hk).
      destruct Hst as [(_ & k' & Ek' & Hk')|[v [=]]].
      assert (k = k') as -> by lia. congruence.
    + apply list_elem_of_singleton in Hin as <-. simpl. by rewrite !Z.eqb_refl.
Qed.

Lemma in_flight_foreign st i f pool prefix rest m :
  frame_fits f pool -> store_at i st -> 0 <= i < n -> i <> header_index n (f_seq f) ->
  frame_stores n (pool_stride_bytes pool) f (frame_hb f) = prefix ++ rest ->
  in_flight m f prefix -> in_flight (apply_store st m) f prefix.
Proof.
  intros Hf Hst Hi Hne E [Hslot Hpay].
  pose proof (header_index_range (f_seq f) (proj1 (ff_seq _ _ Hf))) as Hr. split.
  - destruct Hslot as [->|(b & Hb & Hs)]; [by left|]. right. exists b.
    by rewrite (store_slot_ne st i).
  - intros p a x Hin. rewrite <- (Hpay _ _ _ Hin).
    destruct (prefix_payload _ _ _ _ _ _ _ E Hin) as (-> & k & -> & Hk).
    destruct (frame_fits_pool _ _ Hf) as [Hp <-].
    apply (store_payload_ne st i); try done. by eapply payload_index.
Qed.

Lemma fits_words f pool :
  frame_fits f pool ->
  is_u64 (tp_seq_in_progress (f_seq f)) /\ is_u64 (tp_seq_committed (f_seq f)) /\
  is_u32 (header_index n (f_seq f)).
Proof.
  intros Hf. pose proof (ff_seq _ _ Hf) as Hs.
  pose proof (header_index_range _ (proj1 Hs)). pose proof (ro_max _ _ Hring).
  rewrite tp_seq_in_progress_eq, tp_seq_committed_eq, Z.mod_small by lia. ulia.
Qed.

(** The commit store completes the slot. *)
Lemma commit_slot_ok f pool m hist :
  frame_fits f pool -> f ∈ hist ->
  in_flight m f (first_store f :: frame_mid f pool) ->
  slot_ok (apply_store (last_store f) m) hist (header_index n (f_seq f)).
Proof.
  intros Hf Hin [[|(b & Hb & Hs)] Hpay]; [done|].
  destruct (fits_words _ _ Hf) as (_ & Hw & Hidx).
  set (i := header_index n (f_seq f)) in *.
  assert (Hslot : m_slot (apply_store (last_store f) m) (tp_slot_at i) =
                  sbe_put 8 (m_slot m (tp_slot_at i)) 0 (tp_seq_committed (f_seq f))).
  { simpl. subst i. by rewrite Z.eqb_refl. }
  assert (Hlen : length (m_slot m (tp_slot_at i)) = 256%nat)
    by (rewrite Hs, apply_slot_ops_length; done).
  split; [by rewrite store_slot_length|]. intros _.
  exists f, pool. split_and!; try done.
  - unfold word. rewrite Hslot. apply sbe_get_put_eq; try done.
    unfold blen. by rewrite Hlen.
  - rewrite Hslot, Hs. apply slot_holds_word. simpl. rewrite slot_ops_of_mid.
    apply slot_body_holds; [|apply Hf|done].
    pose proof (sbe_put_len 8 b 0 (tp_seq_in_progress (f_seq f))). unfold blen in *. lia.
  - intros k x Hk. simpl. apply Hpay, elem_of_cons. right. by apply payload_stores_mid.
Qed.

(** A store of a word, and the word it leaves. *)
Lemma word_after_store m i v :
  length (m_slot m (tp_slot_at i)) = 256%nat -> is_u64 v ->
  word (apply_store (store_word (tp_slot_at i) v) m) i = v.
Proof.
  intros Hl Hv. unfold word. simpl. rewrite Z.eqb_refl.
  apply sbe_get_put_eq; try done. unfold blen. by rewrite Hl.
Qed.

Lemma apply_stores_snoc pre st m :
  apply_stores (pre ++ [st]) m = apply_store st (apply_stores pre m).
Proof. unfold apply_stores. by rewrite fold_left_app. Qed.

(** A publish call without interference. *)
Lemma in_flight_all f pool pre rest m :
  frame_fits f pool ->
  length (m_slot m (tp_slot_at (header_index n (f_seq f)))) = 256%nat ->
  frame_stores n (pool_stride_bytes pool) f (frame_hb f) = pre ++ rest ->
  in_flight (apply_stores pre m) f pre /\
  length (m_slot (apply_stores pre m) (tp_slot_at (header_index n (f_seq f)))) = 256%nat.
Proof.
  intros Hf Hlen. revert rest. induction pre as [|st pre IH] using rev_ind; intros rest E.
  - split; [|done]. split; [by left|]. intros p a x Hin. by apply not_elem_of_nil in Hin.
  - rewrite <- app_assoc in E. destruct (IH _ E) as [Hfl Hl].
    rewrite apply_stores_snoc.
    split; [by eapply in_flight_step|]. by rewrite store_slot_length.
Qed.

Lemma publish_slot_ok f pool m :
  frame_fits f pool ->
  length (m_slot m (tp_slot_at (header_index n (f_seq f)))) = 256%nat ->
  slot_ok (apply_stores (frame_stores n (pool_stride_bytes pool) f (frame_hb f)) m) [f]
    (header_index n (f_seq f)).
Proof.
  intros Hf Hlen. pose proof (frame_stores_eq f pool) as E. rewrite app_comm_cons in E.
  destruct (in_flight_all _ _ _ _ _ Hf Hlen E) as [Hfl _].
  rewrite E, apply_stores_snoc.
  eapply commit_slot_ok; [done|by left|done].
Qed.

Lemma publish_word f pool m :
  frame_fits f pool ->
  length (m_slot m (tp_slot_at (header_index n (f_seq f)))) = 256%nat ->
  word (apply_stores (frame_stores n (pool_stride_bytes pool) f (frame_hb f)) m)
    (header_index n (f_seq f)) = tp_seq_committed (f_seq f).
Proof.
  intros Hf Hlen. pose proof (frame_stores_eq f pool) as E. rewrite app_comm_cons in E.
  destruct (in_flight_all _ _ _ _ _ Hf Hlen E) as [_ Hl].
  rewrite E, apply_stores_snoc.
  apply word_after_store; [done|]. apply (fits_words _ _ Hf).
Qed.

(** ** Publish calls *)

Lemma publish_frame_stores_ok p seq tensor payload len id ts mv now f ss :
  publish_frame_stores (Some p) seq tensor payload len id ts mv now = Some (Ok (f, ss)) ->
  pr_header_nslots p = n -> pr_pools p = pools -> 0 <= seq < 2 ^ 63 ->
  (forall t, tensor = Some t -> tensor_wf t) -> is_u32 len -> is_u64 ts -> is_u32 mv ->
  f_seq f = seq /\
  exists pool, frame_fits f pool /\ ss = frame_stores n (pool_stride_bytes pool) f (frame_hb f).
Proof.
  intros E Hn Hp Hseq Ht Hlen Hts Hmv. unfold publish_frame_stores in E.
  destruct tensor as [t|]; [|done]. rewrite Hn, Hp in E.
  destruct (_ && _); [done|]. destruct (negb _); [done|].
  destruct (tp_find_pool pools id) as [pool|] eqn:Epool; [|done].
  destruct (_ <? _) eqn:El; [done|]. bool_simp.
  destruct (tp_prepare_tensor_header (Some t)) as [[h|]|] eqn:Eprep; simpl in E; try done.
  injection E as <- <-. split; [done|]. exists pool.
  destruct (tp_prepare_sound _ _ (Ht _ eq_refl) Eprep) as [Hwf Hv].
  split; [|done]. destruct (find_pool_In _ _ Epool) as [Hin Hid].
  destruct (pool_facts _ Hin) as (Hid16 & _ & Hs32 & _).
  set (pl := take _ _). assert (Hpl : 0 <= blen pl <= len).
  { subst pl. unfold blen. rewrite length_take. ulia. }
  constructor; simpl; try done; [|lia].
  constructor; simpl; try done; try ulia. destruct (_ || _); [apply u64_range|done].
Qed.

Lemma publish_frame_out pd p seq tensor payload len id ts mv tr now r out :
  tp_producer_publish_frame pd (Some p) seq tensor payload len id ts mv tr now =
    Some (r, out) ->
  forall f ss, out = Some (f, ss) ->
    publish_frame_stores (Some p) seq tensor payload len id ts mv now = Some (Ok (f, ss)).
Proof.
  unfold tp_producer_publish_frame. intros E f ss ->.
  destruct (publish_frame_stores _ _ _ _ _ _ _ _ _) as [[[f' ss']|e]|]; simpl in E; try done.
  by simplify_eq.
Qed.

(** A publish call that starts. *)
Lemma todo_start next hist claims m f pool :
  frame_fits f pool -> f_seq f < next <= f_seq f + n ->
  (forall f', f' ∈ hist -> f_seq f' <> f_seq f) ->
  (forall c, c ∈ claims -> cl_seq c <> f_seq f) ->
  todo_ok next hist claims m f (frame_stores n (pool_stride_bytes pool) f (frame_hb f)).
Proof.
  intros Hf Hseq Hh Hc. constructor; try done. exists pool, []. split_and!; try done.
  split; [by left|]. intros p a x Hin. by apply not_elem_of_nil in Hin.
Qed.

Lemma claim_ok_next next next' hist m c :
  next <= next' -> claim_ok next hist m c -> claim_ok next' hist m c.
Proof. intros Hle []. constructor; try done; [lia|]. intros. auto with lia. Qed.

Lemma meta_wf_default meta :
  meta_wf meta ->
  is_u64 (fm_timestamp_ns (default {| fm_timestamp_ns := TP_NULL_U64;
                                      fm_meta_version := TP_NULL_U32 |} meta)) /\
  is_u32 (fm_meta_version (default {| fm_timestamp_ns := TP_NULL_U64;
                                      fm_meta_version := TP_NULL_U32 |} meta)).
Proof. destruct meta as [[]|]; simpl; [done|]. intros _. ulia. Qed.

(** ** Every step of the producer keeps the invariant *)

Variable pd : Z -> Z -> Z -> res unit.

Lemma claims_distinct_live next hist m c f :
  claim_ok next hist m c -> 0 <= f_seq f -> f_seq f < next <= f_seq f + n ->
  cl_seq c <> f_seq f -> next <= cl_seq c + n ->
  header_index n (cl_seq c) <> header_index n (f_seq f).
Proof.
  intros Hc H0 Hf Hne Hl. pose proof (ck_seq _ _ _ _ Hc). apply header_index_ne; lia.
Qed.

Lemma inv_offer s fr meta generator now p' r out :
  inv s -> s_todo s = None -> pr_next_seq (s_prod s) < 2 ^ 63 ->
  (forall t, fr_tensor fr = Some t -> tensor_wf t) -> is_u32 (fr_payload_len fr) ->
  meta_wf meta ->
  tp_producer_offer_frame pd (Some (s_prod s)) (Some fr) meta generator now =
    Some (Some p', r, out) ->
  inv {| s_prod := p'; s_todo := out; s_claims := s_claims s;
         s_mem := s_mem s; s_hist := s_hist s; s_reader := s_reader s |}.
Proof.
  intros [In Ip Inext Isl Ih Icl Id _] Htodo Hlt Ht Hlen Hmeta E.
  unfold tp_producer_offer_frame in E.
  destruct (bool_decide _); [by simplify_eq|]. destruct (negb _); [by simplify_eq|].
  destruct (tp_producer_resolve_trace_id _ _) as [tr|]; [|by simplify_eq].
  destruct (tp_find_pool_for_length _ _) as [pool|] eqn:Ep; [|by simplify_eq].
  destruct (tp_producer_publish_frame _ _ _ _ _ _ _ _ _ _ _) as [[r' out']|] eqn:Epub;
    simpl in E; [|done]. simplify_eq.
  assert (Hnext : u64 (pr_next_seq (s_prod s) + 1) = pr_next_seq (s_prod s) + 1)
    by (apply u64_small; ulia).
  constructor; simpl; rewrite ?Hnext; try done; try lia.
  - intros f Hf. specialize (Ih f Hf). lia.
  - intros c Hc. eapply claim_ok_next; [|by apply Icl]. lia.
  - intros f ss ->. pose proof (publish_frame_out _ _ _ _ _ _ _ _ _ _ _ _ _ Epub f ss eq_refl)
      as Es.
    assert (Hm : is_u64 (match meta with Some m => fm_timestamp_ns m | NULL => TP_NULL_U64 end) /\
                 is_u32 (match meta with Some m => fm_meta_version m | NULL => TP_NULL_U32 end)).
    { destruct meta as [[]|]; simpl in *; [done|]. ulia. }
    apply publish_frame_stores_ok in Es as (Hs & pool' & Hf & ->); try done; try lia.
    2-3: apply Hm.
    apply todo_start; try done; rewrite Hs.
    + pose proof (ro_pos _ _ Hring). lia.
    + intros f' Hf'. specialize (Ih f' Hf'). lia.
    + intros c Hc. pose proof (ck_seq _ _ _ _ (Icl c Hc)). lia.
Qed.

Lemma in_progress_even seq : Z.odd (tp_seq_in_progress seq) = false.
Proof. rewrite <- tp_seq_is_committed_odd. apply in_progress_not_committed. Qed.

Lemma inv_claim s len c p' seq c' ss :
  inv s -> s_todo s = None -> pr_next_seq (s_prod s) < 2 ^ 63 -> 0 <= len ->
  tp_producer_try_claim (Some (s_prod s)) len (Some c) = (Some p', Ok (seq, c'), ss) ->
  inv {| s_prod := p'; s_todo := None; s_claims := c' :: s_claims s;
         s_mem := apply_stores ss (s_mem s); s_hist := s_hist s; s_reader := s_reader s |}.
Proof.
  intros [In Ip Inext Isl Ih Icl Id _] Htodo Hlt Hlen E.
  unfold tp_producer_try_claim in E. destruct (negb _); [done|].
  destruct (tp_find_pool_for_length _ _) as [pool|] eqn:Ep; [|done]. simplify_eq.
  rewrite Ip in Ep. apply find_pool_for_length_spec in Ep as [Hin Hstride].
  destruct (pool_facts _ Hin) as (_ & _ & Hs32 & _).
  set (q := pr_next_seq (s_prod s)) in *.
  assert (Hnext : u64 (q + 1) = q + 1) by (apply u64_small; ulia).
  pose proof (header_index_range q ltac:(lia)) as Hi.
  pose proof (ro_pos _ _ Hring). rewrite In. set (i := header_index n q) in *.
  assert (Hw64 : is_u64 (tp_seq_in_progress q)).
  { rewrite tp_seq_in_progress_eq, Z.mod_small by lia. ulia. }
  cbn [apply_stores fold_left].
  assert (Hw : word (apply_store (store_word (tp_slot_at i) (tp_seq_in_progress q)) (s_mem s)) i
               = tp_seq_in_progress q) by (apply word_after_store; [apply Isl|]; done).
  assert (Hat : store_at i (store_word (tp_slot_at i) (tp_seq_in_progress q))) by done.
  constructor; cbn [s_prod s_todo s_claims s_mem s_hist set_next_seq pr_header_nslots
    pr_pools pr_next_seq]; rewrite ?Hnext; try done; try lia.
  - intros j Hj. apply (slot_ok_store _ i); auto. intros _. rewrite Hw. apply in_progress_even.
  - intros f Hf. specialize (Ih f Hf). lia.
  - intros d Hd. apply elem_of_cons in Hd as [->|Hd].
    + constructor; cbn [cl_seq cl_payload_len cl_payload_addr cl_pool_id]; try lia.
      * intros f Hf. specialize (Ih f Hf). lia.
      * exists pool. rewrite u32_small by ulia. by split_and!.
      * intros _. exact Hw.
    + apply (claim_ok_store _ i); try done.
      * eapply claim_ok_next; [|by apply Icl]. lia.
      * intros Hl Hix. exfalso. pose proof (ck_seq _ _ _ _ (Icl d Hd)).
        revert Hix. apply header_index_ne; lia.
  - simpl. apply NoDup_cons. split; [|done]. intros (d & Hd & Hdin)%list_elem_of_fmap.
    pose proof (ck_seq _ _ _ _ (Icl d Hdin)). lia.
Qed.

Lemma claim_fill_at next hist m c off x :
  claim_ok next hist m c -> 0 <= off < cl_payload_len c ->
  store_at (header_index n (cl_seq c))
    (StPayload (cl_pool_id c) (cl_payload_addr c + off) x).
Proof.
  intros Hc Hoff. destruct (ck_pool _ _ _ _ Hc) as (pool & Hin & Hid & Hlen & Ha).
  exists pool, off. rewrite Ha. split_and!; try done; lia.
Qed.

Lemma word_payload p a x m i : word (apply_store (StPayload p a x) m) i = word m i.
Proof. done. Qed.

Ltac sys_simp :=
  cbn [with_mem with_claims with_reader s_prod s_todo s_claims s_mem s_hist s_reader].

Lemma inv_fill s c off x :
  inv s -> c ∈ s_claims s -> claim_live (s_prod s) c -> 0 <= off < cl_payload_len c ->
  inv (with_mem s
         (apply_store (StPayload (cl_pool_id c) (cl_payload_addr c + off) x) (s_mem s))).
Proof.
  intros [In Ip Inext Isl Ih Icl Id It] Hc Hlive Hoff. unfold claim_live in Hlive.
  rewrite In in Hlive. pose proof (Icl c Hc) as Hok.
  pose proof (claim_fill_at _ _ _ _ _ x Hok Hoff) as Hat.
  pose proof (ck_seq _ _ _ _ Hok) as Hcs.
  pose proof (header_index_range (cl_seq c) ltac:(lia)) as Hi.
  constructor; sys_simp; try done.
  - intros j Hj. apply (slot_ok_store _ (header_index n (cl_seq c))); auto.
    intros _. rewrite word_payload, (ck_word _ _ _ _ Hok) by done. apply in_progress_even.
  - intros d Hd. apply (claim_ok_store _ (header_index n (cl_seq c))); auto.
    intros Hl Hix. rewrite word_payload, Hix. by apply (ck_word _ _ _ _ (Icl d Hd)).
  - intros f rest Hf. destruct (It f rest Hf) as [(pool & pre & Hff & E & Hfl) Hr Hs Hn' Hcl].
    constructor; try done. exists pool, pre. split_and!; try done.
    eapply in_flight_foreign; try done. pose proof (ff_seq _ _ Hff).
    eapply claims_distinct_live; try done; try lia. by apply Hcl.
Qed.

Lemma payload_bytes_length m pool addr k : length (payload_bytes m pool addr k) = k.
Proof. unfold payload_bytes. by rewrite length_map, length_seq. Qed.

Lemma inv_commit s c cs cs' t meta generator now c' r out :
  inv s -> s_todo s = None -> s_claims s = cs ++ c :: cs' -> claim_live (s_prod s) c ->
  tensor_wf t -> meta_wf meta ->
  tp_producer_commit_claim pd (Some (s_prod s)) (Some (set_tensor c t))
    meta generator now (s_mem s) = Some (Some c', r, out) ->
  inv {| s_prod := s_prod s; s_todo := out;
         s_claims := match out with Some _ => cs ++ cs' | None => s_claims s end;
         s_mem := s_mem s; s_hist := s_hist s; s_reader := s_reader s |}.
Proof.
  intros Hinv Htodo Hcs Hlive Ht Hmeta E. destruct Hinv as [In Ip Inext Isl Ih Icl Id It].
  assert (Hin : c ∈ s_claims s) by (rewrite Hcs; apply elem_of_app; right; by left).
  pose proof (Icl c Hin) as Hok. unfold claim_live in Hlive. rewrite In in Hlive.
  pose proof (ck_seq _ _ _ _ Hok) as Hcseq.
  unfold tp_producer_commit_claim in E.
  destruct (tp_producer_resolve_trace_id _ _) as [tr|]; [|by simplify_eq].
  destruct (tp_producer_publish_frame _ _ _ _ _ _ _ _ _ _ _) as [[r' out']|] eqn:Epub;
    simpl in E; [|done]. simplify_eq.
  assert (Hsub : forall d, d ∈ cs ++ cs' -> d ∈ s_claims s).
  { intros d. rewrite Hcs, !elem_of_app, elem_of_cons. tauto. }
  assert (Hnd : NoDup (cl_seq c :: map cl_seq (cs ++ cs'))).
  { rewrite Hcs in Id. rewrite map_app in *. simpl in Id.
    by rewrite Permutation_middle. }
  apply NoDup_cons in Hnd as [Hcnew Hnd].
  constructor; simpl; try done.
  - intros d Hd. apply Icl. destruct out; auto.
  - by destruct out.
  - intros f ss ->. pose proof (publish_frame_out _ _ _ _ _ _ _ _ _ _ _ _ _ Epub f ss eq_refl)
      as Es.
    destruct (meta_wf_default _ Hmeta) as [Hm1 Hm2].
    destruct (ck_pool _ _ _ _ Hok) as (pool0 & Hp0 & _ & Hlen & _).
    destruct (pool_facts _ Hp0) as (_ & _ & Hs32 & _).
    apply publish_frame_stores_ok in Es as (Hs & pool & Hf & ->); try done; try lia.
    2: { simpl. lia. }
    2: { intros ? [= <-]. done. }
    2: { simpl. ulia. }
    simpl in Hs. apply todo_start; try done; rewrite ?Hs.
    + lia.
    + intros f' Hf'. by apply (ck_new _ _ _ _ Hok).
    + intros d Hd Heq. apply Hcnew. rewrite <- Heq. by apply list_elem_of_fmap_2.
Qed.

Lemma inv_abort s c cs cs' :
  inv s -> s_claims s = cs ++ c :: cs' -> inv (with_claims s (cs ++ cs')).
Proof.
  intros [In Ip Inext Isl Ih Icl Id It] Hcs.
  assert (Hsub : forall d, d ∈ cs ++ cs' -> d ∈ s_claims s).
  { intros d. rewrite Hcs, !elem_of_app, elem_of_cons. tauto. }
  constructor; simpl; auto.
  - rewrite Hcs in Id. rewrite map_app in *. simpl in Id.
    rewrite <- Permutation_middle in Id. by apply NoDup_cons in Id as [_ Id].
  - intros f rest Hf. destruct (It f rest Hf). constructor; auto.
Qed.

Definition after_store (s : sys) (f : frame) (st : store) (rest : list store) : sys :=
  {| s_prod := s_prod s;
     s_todo := match rest with [] => None | _ => Some (f, rest) end;
     s_claims := s_claims s; s_mem := apply_store st (s_mem s);
     s_hist := match rest with [] => f :: s_hist s | _ => s_hist s end;
     s_reader := s_reader s |}.

(** The word of the slot while the frame is written. *)
Lemma store_word_even f pool prefix st rest m :
  frame_fits f pool -> rest <> [] ->
  length (m_slot m (tp_slot_at (header_index n (f_seq f)))) = 256%nat ->
  frame_stores n (pool_stride_bytes pool) f (frame_hb f) = prefix ++ st :: rest ->
  in_flight m f prefix ->
  store_at (header_index n (f_seq f)) st /\
  word (apply_store st m) (header_index n (f_seq f)) = tp_seq_in_progress (f_seq f).
Proof.
  intros Hf Hrest Hlen E Hfl. pose proof (in_flight_step _ _ _ _ _ _ Hf Hlen E Hfl) as Hfl'.
  destruct (fits_words _ _ Hf) as (Hw & _ & _).
  destruct (frame_stores_split _ _ _ _ _ E) as [(-> & -> & _)|[(d & -> & Hd & Hst & _)|(_ & _ & ->)]];
    [| |done].
  - split; [done|]. by eapply (in_flight_word f pool []).
  - split; [by eapply body_store_at|]. apply (in_flight_word f pool (d ++ [st])); try done.
    apply Forall_app. split; [done|]. by constructor.
Qed.

Lemma inv_store s f st rest :
  inv s -> s_todo s = Some (f, st :: rest) -> inv (after_store s f st rest).
Proof.
  intros [In Ip Inext Isl Ih Icl Id It] Htodo.
  destruct (It f _ Htodo) as [(pool & pre & Hf & E & Hfl) _ Hs Hnew Hcl].
  pose proof (ff_seq _ _ Hf) as Hseq.
  pose proof (header_index_range (f_seq f) ltac:(lia)) as Hi.
  set (i := header_index n (f_seq f)) in *.
  destruct (Isl i Hi) as [Hlen _].
  assert (Hlive : forall c, c ∈ s_claims s -> pr_next_seq (s_prod s) <= cl_seq c + n ->
            i <> header_index n (cl_seq c)).
  { intros c Hc Hl He. symmetry in He. revert He.
    eapply (claims_distinct_live _ _ _ c f); [by apply Icl| | |by apply Hcl|done]; lia. }
  assert (Hat : store_at i st).
  { destruct (frame_stores_split _ _ _ _ _ E) as [(_ & -> & _)|[(d & _ & _ & Hst & _)|(_ & -> & _)]];
      [done|by eapply body_store_at|done]. }
  assert (Hclaims : forall c, c ∈ s_claims s ->
            claim_ok (pr_next_seq (s_prod s)) (s_hist s) (apply_store st (s_mem s)) c).
  { intros c Hc. apply (claim_ok_store _ i); auto. intros Hl He. by destruct (Hlive c Hc Hl). }
  destruct (decide (rest = [])) as [->|Hrest].
  - destruct (frame_stores_split _ _ _ _ _ E) as [(_ & _ & ?)|[(? & _ & _ & _ & ?)|(-> & -> & _)]];
      [done..|].
    constructor; cbn [after_store s_prod s_todo s_claims s_mem s_hist]; try done.
    + intros j Hj. destruct (decide (j = i)) as [->|Hne].
      { eapply commit_slot_ok; [done|by left|done]. }
      eapply slot_ok_hist; [intros g Hg; by right|].
      apply (slot_ok_store _ i); auto. congruence.
    + intros g Hg. apply elem_of_cons in Hg as [->|Hg]; [lia|auto].
    + intros c Hc. destruct (Hclaims c Hc). constructor; try done.
      intros g Hg. apply elem_of_cons in Hg as [->|Hg]; [|auto]. by apply not_eq_sym, Hcl.
  - destruct (store_word_even f pool pre st rest (s_mem s)) as [_ Hw]; try done.
    replace (after_store s f st rest) with
      {| s_prod := s_prod s; s_todo := Some (f, rest); s_claims := s_claims s;
         s_mem := apply_store st (s_mem s); s_hist := s_hist s; s_reader := s_reader s |}
      by (unfold after_store; by destruct rest).
    constructor; cbn [s_prod s_todo s_claims s_mem s_hist]; try done.
    + intros j Hj. apply (slot_ok_store _ i); auto. intros _. fold i in Hw. rewrite Hw.
      apply in_progress_even.
    + intros g rest' [= <- <-]. constructor; try done. exists pool, (pre ++ [st]).
      split_and!; [done| |by eapply in_flight_step].
      by rewrite <- app_assoc.
Qed.

Lemma producer_step_inv s s' : inv s -> producer_step pd s s' -> inv s'.
Proof.
  intros Hinv Hstep. destruct Hstep.
  - by eapply inv_offer.
  - by eapply inv_claim.
  - by apply inv_fill.
  - by eapply inv_commit.
  - by eapply inv_abort.
  - by apply inv_store.
Qed.

(** ** The reader *)

(** Whatever a step does to a slot, a committed word that was there before
    does not come back. *)
Lemma word_not_repeated s s' i f :
  inv s -> producer_step pd s s' -> 0 <= i < n -> f ∈ s_hist s ->
  word (s_mem s') i = tp_seq_committed (f_seq f) ->
  m_slot (s_mem s') (tp_slot_at i) = m_slot (s_mem s) (tp_slot_at i).
Proof.
  intros Hinv Hstep Hi Hf Hw. pose proof (producer_step_inv _ _ Hinv Hstep) as Hinv'.
  assert (Hodd : Z.odd (tp_seq_committed (f_seq f)) = true)
    by (rewrite <- tp_seq_is_committed_odd; apply committed_is_committed).
  destruct Hstep as [| len c p' q c' ss Htodo Hlt Hlen E| | | |g st rest Htodo];
    cbn [s_mem with_mem with_claims] in *; try done.
  - unfold tp_producer_try_claim in E. destruct (negb _); [done|].
    destruct (tp_find_pool_for_length _ _) as [pool|]; [|done]. simplify_eq.
    rewrite (inv_n _ Hinv) in *. cbn [apply_stores fold_left] in *.
    pose proof (inv_next _ Hinv).
    pose proof (header_index_range (pr_next_seq (s_prod s)) ltac:(lia)) as Hj.
    destruct (decide (header_index n (pr_next_seq (s_prod s)) = i)) as [<-|Hne].
    + rewrite word_after_store in Hw.
      * rewrite <- Hw, in_progress_even in Hodd. done.
      * by apply (inv_slots _ Hinv).
      * rewrite tp_seq_in_progress_eq, Z.mod_small by lia. ulia.
    + by apply (store_slot_ne _ (header_index n (pr_next_seq (s_prod s)))).
  - destruct (inv_todo _ Hinv g _ Htodo) as [(pool & pre & Hg & E & Hfl) _ Hs Hnew _].
    pose proof (ff_seq _ _ Hg) as Hseq.
    pose proof (header_index_range (f_seq g) ltac:(lia)) as Hj.
    destruct (inv_slots _ Hinv _ Hj) as [Hlen _].
    destruct (decide (header_index n (f_seq g) = i)) as [<-|Hne].
    + exfalso. destruct (decide (rest = [])) as [->|Hrest].
      * destruct (frame_stores_split _ _ _ _ _ E) as [(_ & _ & ?)|[(? & _ & _ & _ & ?)|(-> & -> & _)]];
          [done..|].
        unfold last_store in Hw. rewrite word_after_store in Hw by (done || apply (fits_words _ _ Hg)).
        pose proof (inv_hist _ Hinv f Hf). pose proof (inv_next _ Hinv).
        apply (Hnew f Hf). rewrite !tp_seq_committed_eq, !Z.mod_small in Hw by lia. lia.
      * destruct (store_word_even g pool pre st rest (s_mem s)) as [_ Hw']; try done.
        rewrite Hw' in Hw. rewrite <- Hw, in_progress_even in Hodd. done.
    + destruct (decide (rest = [])) as [->|Hrest].
      * destruct (frame_stores_split _ _ _ _ _ E) as [(_ & _ & ?)|[(? & _ & _ & _ & ?)|(-> & -> & _)]];
          [done..|]. by apply (store_slot_ne _ (header_index n (f_seq g))).
      * destruct (store_word_even g pool pre st rest (s_mem s)) as [Hat _]; try done.
        by apply (store_slot_ne _ (header_index n (f_seq g))).
Qed.

(** The rest of a read accepts a frame only through a second load of the
    same word. *)
Fixpoint guarded (c1 : Z) (p : rprog read_outcome) : Prop :=
  match p with
  | RRet r => forall v, r <> RFrame v
  | RRead _ _ k => forall x, guarded c1 (k x)
  | RLoad k => forall x, exists r, k x = RRet r /\ forall v, r = RFrame v -> x = c1
  end.

Lemma guarded_bind {A} c1 m (p : rprog A) (f : A -> rprog read_outcome) :
  reads_within m p -> (forall a, guarded c1 (f a)) -> guarded c1 (rbind p f).
Proof.
  intros Hp Hf. induction p as [a|w off k IH|k IH]; simpl in *; [done| |done].
  intros x. apply IH, Hp.
Qed.

Lemma guarded_bind_shift {A} c1 m base (p : rprog A) (f : A -> rprog read_outcome) :
  reads_within m p -> (forall a, guarded c1 (f a)) -> guarded c1 (rbind (rshift base p) f).
Proof.
  intros Hp Hf. induction p as [a|w off k IH|k IH]; simpl in *; [done| |done].
  intros x. apply IH, Hp.
Qed.

Lemma slot_reads_within len : reads_within 256 (slot_reads len).
Proof.
  unfold slot_reads, slotHeader_sbe_block_length.
  repeat (apply reads_within_bind; [apply reads_within_read; lia|intros ?]).
  by destruct (sbe_var_data _ _ _).
Qed.

Lemma read_slot_guarded idx seq c1 : guarded c1 (read_slot pools idx seq c1).
Proof.
  unfold read_slot. eapply guarded_bind; [apply slot_reads_within|]. intros [sv|]; [|done].
  destruct (negb _); [done|]. destruct (negb _); [done|].
  destruct (tp_find_pool _ _); [|done]. destruct (_ <? _); [done|]. destruct (negb _); [done|].
  eapply guarded_bind_shift; [apply tensor_reads_within|].
  intros [tensor|]; [|done]. destruct (tp_tensor_header_validate _) as [[[?|] [?|]]|]; try done.
  simpl. intros x. destruct (negb (x =? c1) || _) eqn:E; [by eexists|].
  bool_simp. destruct (negb _); by eexists.
Qed.

Definition read_running (s : sys) (i seq : Z) (p : rprog read_outcome) : Prop :=
  exists f, f ∈ s_hist s /\ guarded (tp_seq_committed (f_seq f)) p /\
    (word (s_mem s) i = tp_seq_committed (f_seq f) ->
     rrun p (m_slot (s_mem s) (tp_slot_at i)) =
     rrun (read_slot pools i seq (tp_seq_committed (f_seq f)))
       (m_slot (s_mem s) (tp_slot_at i))).

Definition reader_inv (s : sys) : Prop :=
  forall seq addr p, s_reader s = Some (seq, addr, p) ->
    0 <= seq /\ addr = tp_slot_at (header_index n seq) /\
    (p = slot_program pools (header_index n seq) seq \/
     read_running s (header_index n seq) seq p \/ exists r, p = RRet r).

Variable co : consumer_t.
Context (Hco_n : co_header_nslots co = n) (Hco_p : co_pools co = pools).

Lemma producer_step_reader s s' :
  inv s -> producer_step pd s s' -> reader_inv s -> reader_inv s'.
Proof.
  intros Hinv Hstep Hr seq addr p Hp.
  assert (Hsame : s_reader s' = s_reader s) by (destruct Hstep; done).
  rewrite Hsame in Hp. destruct (Hr _ _ _ Hp) as (Hseq & -> & Hcase). split_and!; try done.
  destruct Hcase as [?|[(f & Hf & Hg & Hrun)|?]]; [by left| |by do 2 right].
  right; left. exists f.
  assert (Hsub : f ∈ s_hist s').
  { destruct Hstep as [| | | | |g st [|] ?]; cbn; try done. by right. }
  split_and!; try done. intros Hw.
  pose proof (word_not_repeated s s' (header_index n seq) f Hinv Hstep
                (header_index_range _ Hseq) Hf Hw) as Hslot.
  rewrite Hslot. apply Hrun. unfold word in *. by rewrite <- Hslot.
Qed.

Lemma read_frame_program_inr seq addr p :
  0 <= seq -> read_frame_program (Some co) seq = inr (addr, p) ->
  addr = tp_slot_at (header_index n seq) /\
  p = slot_program pools (header_index n seq) seq.
Proof.
  intros Hseq. unfold read_frame_program. rewrite Hco_n, Hco_p.
  repeat (destruct (_ : bool); [done|]). by intros [= <- <-].
Qed.

Lemma first_load s i seq :
  inv s -> 0 <= i < n ->
  let v := sbe_get 8 (m_slot (s_mem s) (tp_slot_at i)) 0 in
  let p := if negb (tp_seq_is_committed v) then RRet (RSkip true)
           else read_slot pools i seq v in
  read_running s i seq p \/ p = RRet (RSkip true).
Proof.
  intros Hinv Hi. cbv zeta.
  destruct (tp_seq_is_committed _) eqn:Ec; [left|by right].
  rewrite tp_seq_is_committed_odd in Ec.
  destruct (inv_slots _ Hinv i Hi) as [_ Hok].
  destruct (Hok Ec) as (f & pool & Hf & _ & _ & Hw & _). unfold word in Hw.
  exists f. rewrite Hw. simpl. split_and!; try done. apply read_slot_guarded.
Qed.

Lemma reader_step_inv s s' : inv s -> reader_step co s s' -> inv s'.
Proof. intros [] Hstep. destruct Hstep; constructor; done. Qed.

Lemma reader_step_reader s s' :
  inv s -> reader_step co s s' -> reader_inv s -> reader_inv s'.
Proof.
  intros Hinv Hstep Hr.
  destruct Hstep as [seq addr p Hu Hp|seq addr w off k Hp|seq addr k Hp];
    intros seq' addr' p' [= <- <- <-].
  - apply read_frame_program_inr in Hp as [-> ->]; [|ulia]. split_and!; [ulia|done|by left].
  - destruct (Hr _ _ _ Hp) as (Hseq & -> & [Hc|[(f & Hf & Hg & Hrun)|[r Hc]]]); [done| |done].
    split_and!; try done. right; left. exists f. split_and!; [done|apply Hg|done].
  - destruct (Hr _ _ _ Hp) as (Hseq & -> & [Hc|[(f & Hf & Hg & Hrun)|[r Hc]]]); [| |done];
      split_and!; try done; right.
    + injection Hc as ->.
      destruct (first_load s (header_index n seq) seq Hinv (header_index_range _ Hseq));
        [by left|right; by eexists].
    + simpl in Hg. destruct (Hg (sbe_get 8 (m_slot (s_mem s) (tp_slot_at (header_index n seq))) 0))
        as (r & -> & _). right. by eexists.
Qed.

Lemma accepted_frame s s' seq addr v :
  inv s -> reader_inv s -> reader_step co s s' ->
  s_reader s' = Some (seq, addr, RRet (RFrame v)) ->
  exists f pool, f ∈ s_hist s /\ f_seq f = seq /\ frame_fits f pool /\
    v = view_of (header_index n seq) (pool_stride_bytes pool) f /\ payload_in (s_mem s) f pool.
Proof.
  intros Hinv Hr Hstep Hs'.
  destruct Hstep as [seq0 addr0 p Hu Hp|seq0 addr0 w off k Hp|seq0 addr0 k Hp];
    cbn [with_reader s_reader] in Hs'; simplify_eq.
  - apply read_frame_program_inr in Hp as [_ Hp]; [done|ulia].
  - destruct (Hr _ _ _ Hp) as (Hseq & -> & [Hc|[(f & Hf & Hg & Hrun)|[r Hc]]]); [done| |done].
    match goal with E : k _ = _ |- _ => rename E into Ek end.
    simpl in Hg. specialize (Hg (sbe_get w (m_slot (s_mem s) (tp_slot_at (header_index n seq))) off)).
    rewrite Ek in Hg. by destruct (Hg v).
  - match goal with E : k _ = _ |- _ => rename E into Ek end.
    destruct (Hr _ _ _ Hp) as (Hseq & -> & [Hc|[(f & Hf & Hg & Hrun)|[r Hc]]]); [| |done].
    { injection Hc as ->. simpl in Ek. destruct (negb _); [done|].
      unfold read_slot, slot_reads, read in Ek. done. }
    simpl in Hg. cbn [rrun] in Hrun. fold (word (s_mem s) (header_index n seq)) in Ek, Hrun.
    destruct (Hg (word (s_mem s) (header_index n seq))) as (r & Er & Hv).
    rewrite Ek in Er. injection Er as <-. specialize (Hv v eq_refl).
    specialize (Hrun Hv). rewrite Ek in Hrun. cbn [rrun] in Hrun.
    pose proof (header_index_range _ Hseq) as Hi.
    destruct (inv_slots _ Hinv _ Hi) as [_ Hok].
    destruct Hok as (g & pool & Hgin & Hgf & Hgi & Hgw & Hgh & Hgp).
    { rewrite Hv, <- tp_seq_is_committed_odd. apply committed_is_committed. }
    rewrite (read_slot_holds pools pool _ seq _ g _ Hgh) in Hrun; [|apply Hgf..].
    fold (word (s_mem s) (header_index n seq)) in Hrun. cbv zeta in Hrun.
    destruct (_ || _); [done|]. destruct (negb _) eqn:Eseq; [done|].
    bool_simp. injection Hrun as ->. exists g, pool. split_and!; try done.
    rewrite Hgw, committed_value in Eseq. pose proof (ff_seq _ _ Hgf).
    by rewrite Z.mod_small in Eseq by lia.
Qed.

Lemma reachable_inv s0 s :
  inv s0 -> reader_inv s0 -> reachable pd co s0 s -> inv s /\ reader_inv s.
Proof.
  intros H0 Hr0. induction 1 as [|s s' _ [Hi Hr] Hs|s s' _ [Hi Hr] Hs]; [done| |].
  - split; [by eapply producer_step_inv|by eapply producer_step_reader].
  - split; [by eapply reader_step_inv|by eapply reader_step_reader].
Qed.
End Invariant.
End Ring.

Lemma initial_inv `{Sbe} co s :
  initial co s -> inv (pr_header_nslots (s_prod s)) (pr_pools (s_prod s)) s /\
  reader_inv (pr_header_nslots (s_prod s)) (pr_pools (s_prod s)) s.
Proof.
  intros [Hring Hseq Htodo Hcl Hmem Hhist Hrd Hn Hp]. split.
  - constructor; rewrite ?Hcl, ?Hhist, ?Htodo, ?Hseq; try done.
    + intros i Hi. destruct (Hmem i Hi) as [Hl Hw]. split; [done|].
      unfold word. by rewrite Hw.
    + intros f Hf. by apply not_elem_of_nil in Hf.
    + intros c Hc. by apply not_elem_of_nil in Hc.
    + apply NoDup_nil_2.
  - intros seq addr p E. congruence.
Qed.

Lemma payload_bytes_in `{Sbe} n m f pool :
  payload_in n m f pool ->
  payload_bytes m (f_pool_id f) (payload_at (header_index n (f_seq f)) (pool_stride_bytes pool))
    (Z.to_nat (blen (f_payload f))) = f_payload f.
Proof.
  intros Hpay. unfold blen. rewrite Nat2Z.id.
  apply list_eq. intros k. unfold payload_bytes. rewrite list_lookup_fmap.
  destruct (f_payload f !! k) as [x|] eqn:Ek.
  - rewrite lookup_seq_lt by (by eapply lookup_lt_Some). simpl. f_equal. by apply Hpay.
  - rewrite lookup_seq_ge; [done|]. by apply lookup_ge_None.
Qed.

(** ** Properties *)

(** C1: The consumer never returns a torn frame.  In every interleaving of a
    producer that offers, claims, fills, commits and aborts frames with a
    consumer that reads the ring load by load, when [tp_consumer_read_frame]
    returns a frame for the number [seq] then the producer has committed a frame
    with that number; tensor header, pool, timestamp, metadata version and
    payload length are those of that frame, and the bytes the payload pointer
    designates are at that moment the payload that was published. *)
Theorem read_frame_not_torn `{Sbe} pd co s0 s s' seq addr v :
  initial co s0 -> reachable pd co s0 s -> reader_step co s s' ->
  s_reader s' = Some (seq, addr, RRet (RFrame v)) ->
  exists f, f ∈ s_hist s /\ f_seq f = seq /\
    fv_tensor v = f_tensor f /\ fv_pool_id v = f_pool_id f /\
    fv_timestamp_ns v = f_timestamp_ns f /\ fv_meta_version v = f_meta_version f /\
    fv_payload_len v = blen (f_payload f) /\
    payload_bytes (s_mem s) (fv_pool_id v) (fv_payload_addr v) (Z.to_nat (fv_payload_len v)) =
      f_payload f.
Proof.
  intros Hinit Hreach Hstep Hv. destruct (initial_inv _ _ Hinit) as [Hi0 Hr0].
  pose proof (in_ring _ _ Hinit) as Hring.
  destruct (reachable_inv _ _ Hring pd co (in_nslots _ _ Hinit) (in_pools _ _ Hinit) _ _ Hi0 Hr0
              Hreach) as [Hi Hr].
  destruct (accepted_frame _ _ Hring co (in_nslots _ _ Hinit) (in_pools _ _ Hinit)
              _ _ _ _ _ Hi Hr Hstep Hv)
    as (f & pool & Hf & <- & Hfits & -> & Hpay).
  exists f. split_and!; try done. by apply payload_bytes_in.
Qed.

Lemma publish_frame_fields `{Sbe} p seq t payload len id ts mv now f ss :
  publish_frame_stores (Some p) seq (Some t) payload len id ts mv now = Some (Ok (f, ss)) ->
  tp_prepare_tensor_header (Some t) = Some (Ok (f_tensor f)) /\ f_pool_id f = id /\
  f_meta_version f = mv /\
  f_timestamp_ns f = (if (ts =? 0) || (ts =? TP_NULL_U64) then u64 now else ts) /\
  f_payload f = take (Z.to_nat len) (default [] payload).
Proof.
  unfold publish_frame_stores. intros E.
  destruct (_ && _); [done|]. destruct (negb _); [done|].
  destruct (tp_find_pool _ _); [|done]. destruct (_ <? _); [done|].
  destruct (tp_prepare_tensor_header (Some t)) as [[h|]|]; simpl in E; try done.
  by injection E as <-.
Qed.

Definition counted_drops (co : consumer_t) (r : read_outcome) : consumer_t :=
  {| co_use_shm := co_use_shm co; co_shm_mapped := co_shm_mapped co;
     co_header_nslots := co_header_nslots co; co_pools := co_pools co;
     co_drops_late := u64 (co_drops_late co + match r with RSkip true => 1 | _ => 0 end) |}.

(** Reading a slot that holds a committed frame, for any number of the slot. *)
Lemma read_committed `{Sbe} n co m f pool q :
  ring_ok n (co_pools co) -> co_header_nslots co = n ->
  co_use_shm co = true -> co_shm_mapped co = true -> frame_fits (co_pools co) f pool ->
  word m (header_index n (f_seq f)) = tp_seq_committed (f_seq f) ->
  slot_holds (header_index n (f_seq f)) f (m_slot m (tp_slot_at (header_index n (f_seq f)))) ->
  0 <= q -> header_index n q = header_index n (f_seq f) ->
  let r := if q =? f_seq f
           then RFrame (view_of (header_index n (f_seq f)) (pool_stride_bytes pool) f)
           else RSkip true in
  tp_consumer_read_frame co q m = (counted_drops co r, r).
Proof.
  intros Hring Hn Hshm Hmap Hf Hw Hh Hq Hqi. pose proof (header_index_range n _ Hring q Hq) as Hr.
  pose proof (ff_seq _ _ _ Hf) as Hseq.
  unfold tp_consumer_read_frame, read_frame_program, counted_drops. rewrite Hshm, Hmap, Hn.
  simpl negb. cbv iota. replace (n =? 0) with false by (symmetry; apply Z.eqb_neq; lia).
  replace (n <=? header_index n q) with false by (symmetry; apply Z.leb_gt; lia).
  rewrite Hqi. unfold slot_program. cbn [rrun]. fold (word m (header_index n (f_seq f))).
  rewrite Hw, committed_is_committed. cbn [negb].
  rewrite (read_slot_holds _ pool _ q _ f _ Hh); [|apply Hf..].
  cbv zeta. fold (word m (header_index n (f_seq f))).
  rewrite Hw, committed_is_committed, Z.eqb_refl, committed_value, Z.mod_small by lia.
  cbn [negb orb]. rewrite (Z.eqb_sym q). by destruct (_ =? _).
Qed.

(** C13: Publishing and reading agree without interference.  Once
    [tp_producer_publish_frame] has committed frame [seq], [tp_consumer_read_frame]
    of that number returns the frame: its tensor header as prepared, its pool,
    timestamp and metadata version, and a pointer at which the payload lies.
    Reading another number of the same slot is a late drop, which is counted. *)
Theorem publish_then_read `{Sbe} n p co seq t payload len id ts mv now f ss m :
  ring_ok n (pr_pools p) -> pr_header_nslots p = n ->
  co_use_shm co = true -> co_shm_mapped co = true ->
  co_header_nslots co = n -> co_pools co = pr_pools p ->
  0 <= seq < 2 ^ 63 -> tensor_wf t -> is_u32 len -> is_u64 ts -> is_u32 mv ->
  length (m_slot m (tp_slot_at (header_index n seq))) = 256%nat ->
  publish_frame_stores (Some p) seq (Some t) payload len id ts mv now = Some (Ok (f, ss)) ->
  exists v,
    tp_consumer_read_frame co seq (apply_stores ss m) = (counted_drops co (RFrame v), RFrame v) /\
    tp_prepare_tensor_header (Some t) = Some (Ok (fv_tensor v)) /\
    fv_pool_id v = id /\ fv_meta_version v = mv /\
    fv_timestamp_ns v = (if (ts =? 0) || (ts =? TP_NULL_U64) then u64 now else ts) /\
    payload_bytes (apply_stores ss m) id (fv_payload_addr v) (Z.to_nat (fv_payload_len v)) =
      take (Z.to_nat len) (default [] payload) /\
    forall seq', 0 <= seq' -> seq' <> seq -> header_index n seq' = header_index n seq ->
      tp_consumer_read_frame co seq' (apply_stores ss m) =
        (counted_drops co (RSkip true), RSkip true).
Proof.
  intros Hring Hn Hshm Hmap Hcn Hcp Hseq Ht Hlen Hts Hmv Hm E.
  destruct (publish_frame_fields _ _ _ _ _ _ _ _ _ _ _ E) as (Hft & Hfi & Hfm & Hfts & Hfp).
  apply (publish_frame_stores_ok n _ Hring) in E as (<- & pool & Hf & ->); try done.
  2: { by intros ? [= <-]. }
  pose proof (publish_slot_ok n _ Hring f pool m Hf Hm) as [_ Hok].
  pose proof (publish_word n _ Hring f pool m Hf Hm) as Hw.
  set (m' := apply_stores _ m) in *.
  destruct Hok as (g & pool' & Hg & Hf' & _ & _ & Hh & Hpay).
  { rewrite Hw, <- tp_seq_is_committed_odd. apply committed_is_committed. }
  apply list_elem_of_singleton in Hg as ->.
  assert (pool' = pool) as ->.
  { pose proof (ff_pool _ _ _ Hf) as E1. rewrite (ff_pool _ _ _ Hf') in E1. by injection E1. }
  rewrite <- Hcp in Hring, Hf.
  pose proof (fun q => read_committed n co m' f pool q Hring Hcn Hshm Hmap Hf Hw Hh) as Hread.
  exists (view_of (header_index n (f_seq f)) (pool_stride_bytes pool) f). split_and!; try done.
  - rewrite Hread by first [lia|done]. by rewrite Z.eqb_refl.
  - simpl. rewrite <- Hfi, <- Hfp. by apply payload_bytes_in.
  - intros q Hq Hne Hqi. rewrite Hread by done.
    by replace (q =? f_seq f) with false by (symmetry; apply Z.eqb_neq; lia).
Qed.

(** A concrete run: one frame is offered and stored, then read. *)
Module Run.
Section Run.
Context `{Sbe}.

Definition store_step (s : sys) : sys :=
  match s_todo s with
  | Some (f, st :: rest) =>
    {| s_prod := s_prod s;
       s_todo := match rest with [] => None | _ => Some (f, rest) end;
       s_claims := s_claims s; s_mem := apply_store st (s_mem s);
       s_hist := match rest with [] => f :: s_hist s | _ => s_hist s end;
       s_reader := s_reader s |}
  | _ => s
  end.

Definition read_step (s : sys) : sys :=
  match s_reader s with
  | Some (seq, addr, RRead w off k) =>
    with_reader s (Some (seq, addr, k (sbe_get w (m_slot (s_mem s) addr) off)))
  | Some (seq, addr, RLoad k) =>
    with_reader s (Some (seq, addr, k (sbe_get 8 (m_slot (s_mem s) addr) 0)))
  | _ => s
  end.

Lemma reach_stores pd co s0 s k :
  reachable pd co s0 s -> reachable pd co s0 (Nat.iter k store_step s).
Proof.
  intros Hr. induction k as [|k IH]; [done|]. simpl. unfold store_step at 1.
  destruct (s_todo _) as [[f [|st rest]]|] eqn:E; [done| |done].
  eapply reach_producer; [exact IH|]. by apply step_store.
Qed.

Lemma reach_reads pd co s0 s k :
  reachable pd co s0 s -> reachable pd co s0 (Nat.iter k read_step s).
Proof.
  intros Hr. induction k as [|k IH]; [done|]. simpl. unfold read_step at 1.
  destruct (s_reader _) as [[[q a] [r|w off c|c]]|] eqn:E; [done| | |done];
    (eapply reach_reader; [exact IH|]); [by eapply step_read|by eapply step_load].
Qed.

Definition run_prod : producer_t :=
  {| pr_header_nslots := 1;
     pr_pools := [{| pool_id := 3; pool_nslots := 1; pool_stride_bytes := 64 |}];
     pr_header_mapped := true; pr_next_seq := 0; pr_fixed_pool_mode := false |}.
Definition run_co : consumer_t :=
  {| co_use_shm := true; co_shm_mapped := true; co_header_nslots := 1;
     co_pools := pr_pools run_prod; co_drops_late := 0 |}.
Definition run_start : sys :=
  {| s_prod := run_prod; s_todo := None; s_claims := [];
     s_mem := {| m_slot _ := replicate 256 0; m_payload _ _ := 0 |};
     s_hist := []; s_reader := None |}.
Definition run_frame : tp_frame_t :=
  {| fr_tensor := Some (example_header 1 [4; 3; 5] [0; 0; 0]);
     fr_payload := Some [7; 8; 9]; fr_payload_len := 3; fr_trace_id := 0 |}.
Definition run_pd (_ _ _ : Z) : res unit := Ok tt.

Definition run_offered : sys :=
  match tp_producer_offer_frame run_pd (Some run_prod) (Some run_frame) NULL NULL 5 with
  | Some (Some p, _, out) =>
    {| s_prod := p; s_todo := out; s_claims := []; s_mem := s_mem run_start;
       s_hist := []; s_reader := None |}
  | _ => run_start
  end.
Definition run_stored : sys := Nat.iter 300 store_step run_offered.
Definition run_begun : sys :=
  match read_frame_program (Some run_co) 0 with
  | inr (addr, p) => with_reader run_stored (Some (0, addr, p))
  | inl _ => run_stored
  end.
(** Up to the second load of the commit word. *)
Definition run_checked : sys := Nat.iter 35 read_step run_begun.
End Run.

Lemma run_initial : initial run_co run_start.
Proof.
  assert (Hr : ring_ok 1 (pr_pools run_prod)).
  { constructor; [lia|lia|done|by apply NoDup_singleton|]. apply Forall_singleton.
    cbn. ulia. }
  assert (Hm : fresh_mem 1 (s_mem run_start)).
  { intros i Hi. split; [apply length_replicate|]. vm_compute. done. }
  by constructor.
Qed.

Lemma run_reachable : reachable run_pd run_co run_start run_checked.
Proof.
  apply reach_reads. unfold run_begun. simpl read_frame_program. cbv iota beta.
  eapply reach_reader; [|by apply step_begin]. apply reach_stores.
  eapply reach_producer; [apply reach_refl|].
  eapply (step_offer run_pd run_start run_frame NULL NULL 5); try done.
  - intros t [= <-]. by apply example_header_wf.
  - intros b [= <-]. done.
Qed.
End Run.

Theorem read_frame_not_torn_witness :
  exists s' seq addr v, reader_step Run.run_co Run.run_checked s' /\
    s_reader s' = Some (seq, addr, RRet (RFrame v)) /\
    exists f, f ∈ s_hist Run.run_checked /\ f_seq f = seq /\
    fv_tensor v = f_tensor f /\ fv_pool_id v = f_pool_id f /\
    fv_timestamp_ns v = f_timestamp_ns f /\ fv_meta_version v = f_meta_version f /\
    fv_payload_len v = blen (f_payload f) /\
    payload_bytes (s_mem Run.run_checked) (fv_pool_id v) (fv_payload_addr v)
      (Z.to_nat (fv_payload_len v)) = f_payload f.
Proof.
  assert (Hs : exists seq addr v, reader_step Run.run_co Run.run_checked (Run.read_step Run.run_checked) /\
    s_reader (Run.read_step Run.run_checked) = Some (seq, addr, RRet (RFrame v))).
  { eexists _, _, _. split; [|vm_compute; reflexivity].
    unfold Run.read_step. destruct (s_reader Run.run_checked) as [[[q a] [r|w off c|c]]|] eqn:E.
    1, 4: exfalso; revert E; vm_compute; discriminate.
    - by eapply step_read.
    - by eapply step_load. }
  destruct Hs as (seq & addr & v & Hstep & Hv).
  exists (Run.read_step Run.run_checked), seq, addr, v. split; [exact Hstep|]. split; [exact Hv|].
  eapply (read_frame_not_torn Run.run_pd Run.run_co Run.run_start); [| |exact Hstep|exact Hv].
  - exact Run.run_initial.
  - exact Run.run_reachable.
Defined.

Theorem publish_then_read_witness :
  exists f ss v,
    publish_frame_stores (Some Run.run_prod) 0 (Some (example_header 1 [4; 3; 5] [0; 0; 0]))
      (Some [7; 8; 9]) 3 3 0 6 5 = Some (Ok (f, ss)) /\
    snd (tp_consumer_read_frame Run.run_co 0 (apply_stores ss (s_mem Run.run_start))) = RFrame v /\
    fv_timestamp_ns v = 5 /\
    payload_bytes (apply_stores ss (s_mem Run.run_start)) 3 (fv_payload_addr v)
      (Z.to_nat (fv_payload_len v)) = [7; 8; 9].
Proof.
  destruct (publish_frame_stores (Some Run.run_prod) 0
              (Some (example_header 1 [4; 3; 5] [0; 0; 0])) (Some [7; 8; 9]) 3 3 0 6 5)
    as [[[f ss]|]|] eqn:E; [|exfalso; revert E; vm_compute; discriminate..].
  destruct (publish_then_read 1 Run.run_prod Run.run_co 0 (example_header 1 [4; 3; 5] [0; 0; 0])
              (Some [7; 8; 9]) 3 3 0 6 5 f ss (s_mem Run.run_start))
    as (v & Hr & _ & _ & _ & Hts & Hp & _); try done; try ulia.
  - exact (in_ring _ _ Run.run_initial).
  - by apply example_header_wf.
  - exists f, ss, v. rewrite Hr. by split_and!.
Defined.

(** [tp_producer_queue_claim] keeps [claim->header_index] while the commit of
    the claim publishes at [seq & (nslots - 1)]: here the claim of slot 1 is
    queued as frame 2, so that slot 1 is marked in progress, and its payload is
    written, while frame 2 is committed in slot 2; slot 1 belongs to frame 5. *)
Theorem queue_claim_marks_old_slot :
  let p := {| pr_header_nslots := 4; pr_pools := pr_pools Run.run_prod;
              pr_header_mapped := true; pr_next_seq := 2; pr_fixed_pool_mode := true |} in
  let c := {| cl_seq := 1; cl_header_index := 1; cl_pool_id := 3; cl_payload_len := 3;
              cl_payload_addr := payload_at 1 64; cl_tensor := example_header 1 [4; 3; 5] [0; 0; 0];
              cl_trace_id := 0 |} in
  snd (tp_producer_queue_claim (Some p) (Some c)) =
    [store_word (tp_slot_at 1) (tp_seq_in_progress 2)] /\
  snd (fst (tp_producer_queue_claim (Some p) (Some c))) = Ok 2 /\
  header_index 4 2 = 2 /\ header_index 4 5 = 1.
Proof. done. Qed.
