(* ===== verification/Trace.v ===== *)
(** * Trace: the trace identifier generator (tp_trace.c)

    Snowflake-style identifiers: milliseconds, node id and sequence in one 64-bit
    word.  [tp_trace_id_generator_next] is a compare-and-swap loop; the
    transition system below interleaves any number of threads in it, with
    spurious failures of the weak compare-and-swap. *)

From Stdlib Require Import ZArith Lia Bool Sorted.
From S2P Require Import Prelude.

Definition TP_TRACE_MAX_NODE_AND_SEQUENCE_BITS : Z := 22.
Definition TP_TRACE_NODE_ID_BITS_DEFAULT : Z := 10.
Definition TP_TRACE_SEQUENCE_BITS_DEFAULT : Z := 12.

(** The fields that stay as initialised; the atomic [timestamp_sequence] and the
    clock are separate. *)
Record tp_trace_id_generator_t := {
  tg_node_id_bits : Z;
  tg_sequence_bits : Z;
  tg_node_id_and_sequence_bits : Z;
  tg_max_node_id : Z;
  tg_max_sequence : Z;
  tg_node_bits : Z;
  tg_timestamp_offset_ms : Z;
}.

(** [x << n] on a [uint64_t]: undefined from 64 on. *)
Definition shl64 (x n : Z) : option Z :=
  if n <? 64 then Some (u64 (Z.shiftl x n)) else None.

(** [default_ms] is the default clock; [clock] the time of a caller's clock. *)
Definition tp_trace_id_generator_init (generator : ptr unit)
    (node_id_bits sequence_bits node_id timestamp_offset_ms default_ms : Z) (clock : ptr Z)
    : option (res (tp_trace_id_generator_t * Z)) :=
  match generator with
  | NULL => Some (Err EINVAL)
  | Some _ =>
    let bits := u8 (node_id_bits + sequence_bits) in
    if TP_TRACE_MAX_NODE_AND_SEQUENCE_BITS <? bits then Some (Err EINVAL)
    else
      n ← shl64 1 node_id_bits;
      let max_node_id := u64 (n - 1) in
      if max_node_id <? node_id then Some (Err EINVAL)
      else if default_ms <? timestamp_offset_ms then Some (Err EINVAL)
      else
        s ← shl64 1 sequence_bits;
        node_bits ← shl64 node_id sequence_bits;
        let g := {| tg_node_id_bits := node_id_bits; tg_sequence_bits := sequence_bits;
                    tg_node_id_and_sequence_bits := bits; tg_max_node_id := max_node_id;
                    tg_max_sequence := u64 (s - 1); tg_node_bits := node_bits;
                    tg_timestamp_offset_ms := timestamp_offset_ms |} in
        let now_ms := default default_ms clock in
        Some (if now_ms <? timestamp_offset_ms then Err EINVAL else Ok (g, 0))
  end.

Definition tp_trace_id_generator_init_default (generator : ptr unit) (node_id default_ms : Z)
    : option (res (tp_trace_id_generator_t * Z)) :=
  tp_trace_id_generator_init generator TP_TRACE_NODE_ID_BITS_DEFAULT
    TP_TRACE_SEQUENCE_BITS_DEFAULT node_id 0 default_ms NULL.

(** One iteration of the loop in [tp_trace_id_generator_next]: the word the
    compare-and-swap tries to store, [None] where the iteration only yields. *)
Definition next_word (g : tp_trace_id_generator_t) (old clock_ms : Z) : option Z :=
  let timestamp_ms := u64 (clock_ms - tg_timestamp_offset_ms g) in
  let old_timestamp_ms := Z.shiftr old (tg_node_id_and_sequence_bits g) in
  if old_timestamp_ms <? timestamp_ms then
    Some (u64 (Z.shiftl timestamp_ms (tg_node_id_and_sequence_bits g)))
  else
    let old_sequence := Z.land old (tg_max_sequence g) in
    if old_sequence <? tg_max_sequence g then Some (u64 (old + 1)) else None.

Definition trace_id_of (g : tp_trace_id_generator_t) (word : Z) : Z :=
  Z.lor word (tg_node_bits g).

(** The call of a single thread whose compare-and-swap succeeds: the word and
    the identifier after the clock readings [clocks], one per iteration. *)
Fixpoint tp_trace_id_generator_next (g : tp_trace_id_generator_t) (word : Z) (clocks : list Z)
    : option (Z * Z) :=
  match clocks with
  | [] => None
  | c :: clocks' =>
    match next_word g word c with
    | Some w => Some (w, trace_id_of g w)
    | None => tp_trace_id_generator_next g word clocks'
    end
  end.

Definition tp_trace_id_extract_timestamp (g : ptr tp_trace_id_generator_t) (trace_id : Z) : Z :=
  match g with
  | NULL => 0
  | Some g => Z.shiftr trace_id (tg_node_id_and_sequence_bits g)
  end.
Definition tp_trace_id_extract_node_id (g : ptr tp_trace_id_generator_t) (trace_id : Z) : Z :=
  match g with
  | NULL => 0
  | Some g => Z.land (Z.shiftr trace_id (tg_sequence_bits g)) (tg_max_node_id g)
  end.
Definition tp_trace_id_extract_sequence (g : ptr tp_trace_id_generator_t) (trace_id : Z) : Z :=
  match g with
  | NULL => 0
  | Some g => Z.land trace_id (tg_max_sequence g)
  end.

(** ** Concurrent use *)

Inductive pc :=
  | Idle
  | Loaded (old : Z)              (* after the atomic load *)
  | Ready (old clock_ms : Z).     (* after reading the clock *)

Record gsys := {
  g_word : Z;                     (* timestamp_sequence *)
  g_threads : nat -> pc;
  g_ids : list (nat * Z);         (* returned so far, newest first *)
}.

Definition set_pc (f : nat -> pc) (t : nat) (p : pc) : nat -> pc :=
  fun t' => if Nat.eqb t' t then p else f t'.

(** The clock stays in the range the layout has room for. *)
Definition clock_fits (g : tp_trace_id_generator_t) (c : Z) : Prop :=
  tg_timestamp_offset_ms g <= c /\
  c - tg_timestamp_offset_ms g < 2 ^ (64 - tg_node_id_and_sequence_bits g).

Inductive gstep (g : tp_trace_id_generator_t) (s : gsys) : gsys -> Prop :=
  | g_load t :
      g_threads s t = Idle ->
      gstep g s {| g_word := g_word s; g_threads := set_pc (g_threads s) t (Loaded (g_word s));
                   g_ids := g_ids s |}
  | g_clock t old c :
      g_threads s t = Loaded old -> clock_fits g c ->
      gstep g s {| g_word := g_word s; g_threads := set_pc (g_threads s) t (Ready old c);
                   g_ids := g_ids s |}
  | g_cas t old c w :
      g_threads s t = Ready old c -> next_word g old c = Some w -> g_word s = old ->
      gstep g s {| g_word := w; g_threads := set_pc (g_threads s) t Idle;
                   g_ids := (t, trace_id_of g w) :: g_ids s |}
  | g_retry t old c :               (* a failed or spurious exchange, or a yield *)
      g_threads s t = Ready old c ->
      gstep g s {| g_word := g_word s; g_threads := set_pc (g_threads s) t Idle;
                   g_ids := g_ids s |}.

Inductive greach (g : tp_trace_id_generator_t) (s0 : gsys) : gsys -> Prop :=
  | greach_refl : greach g s0 s0
  | greach_step s s' : greach g s0 s -> gstep g s s' -> greach g s0 s'.

(** ** The layout *)

(** What [tp_trace_id_generator_init] establishes, with the undefined shifts
    excluded by sizes that do not wrap the 8-bit sum. *)
Record gen_ok (g : tp_trace_id_generator_t) (node_id : Z) : Prop := {
  go_node_bits : 0 <= tg_node_id_bits g;
  go_seq_bits : 0 <= tg_sequence_bits g;
  go_sum : tg_node_id_and_sequence_bits g = tg_node_id_bits g + tg_sequence_bits g;
  go_max : tg_node_id_and_sequence_bits g <= 22;
  go_max_node : tg_max_node_id g = 2 ^ tg_node_id_bits g - 1;
  go_max_seq : tg_max_sequence g = 2 ^ tg_sequence_bits g - 1;
  go_node : 0 <= node_id < 2 ^ tg_node_id_bits g;
  go_bits : tg_node_bits g = node_id * 2 ^ tg_sequence_bits g;
  go_offset : is_u64 (tg_timestamp_offset_ms g);
}.

Lemma shl64_small x n : 0 <= n -> 0 <= x -> x * 2 ^ n < 2 ^ 64 -> n < 64 ->
  shl64 x n = Some (x * 2 ^ n).
Proof.
  intros Hn Hx Hs Hlt. unfold shl64. replace (n <? 64) with true by (symmetry; apply Z.ltb_lt; lia).
  rewrite Z.shiftl_mul_pow2, u64_small by (done || ulia). done.
Qed.

Lemma pow2_le_22 b : 0 <= b <= 22 -> 1 <= 2 ^ b <= 4194304.
Proof.
  intros Hb. pose proof (Z.pow_le_mono_r 2 b 22). pose proof (Z.pow_pos_nonneg 2 b). lia.
Qed.

Lemma init_gen_ok nb sb node off now clock g w :
  0 <= nb -> 0 <= sb -> nb + sb < 256 -> 0 <= node -> is_u64 off ->
  tp_trace_id_generator_init (Some tt) nb sb node off now clock = Some (Ok (g, w)) ->
  gen_ok g node /\ w = 0 /\ off <= default now clock /\ tg_timestamp_offset_ms g = off.
Proof.
  intros Hnb Hsb Hsum Hnode Hoff E. unfold tp_trace_id_generator_init in E.
  rewrite u8_small in E by ulia. destruct (_ <? _) eqn:E1; [done|]. bool_simp.
  unfold TP_TRACE_MAX_NODE_AND_SEQUENCE_BITS in *.
  pose proof (pow2_le_22 nb ltac:(lia)). pose proof (pow2_le_22 sb ltac:(lia)).
  pose proof (pow2_le_22 (nb + sb) ltac:(lia)) as Hp. rewrite Z.pow_add_r in Hp by lia.
  rewrite (shl64_small 1 nb) in E by lia. simpl in E. rewrite Z.mul_1_l, (u64_small (2 ^ nb - 1)) in E by ulia.
  destruct (2 ^ nb - 1 <? node) eqn:E2; [done|]. destruct (now <? off); [done|]. bool_simp.
  rewrite !shl64_small in E by nia. simpl in E. rewrite Z.mul_1_l, (u64_small (2 ^ sb - 1)) in E by ulia.
  destruct (_ <? _) eqn:E3; [done|]. bool_simp. injection E as <- <-.
  split_and!; try done. constructor; simpl; try done; lia.
Qed.

Lemma testbit_high x k i : 0 <= x < 2 ^ k -> 0 <= k <= i -> Z.testbit x i = false.
Proof.
  intros Hx Hi. rewrite <- (Z.mod_small x (2 ^ k)) by done. apply Z.mod_pow2_bits_high. lia.
Qed.

Section Generator.
Context (g : tp_trace_id_generator_t) (node_id : Z) (Hg : gen_ok g node_id).

Abbreviation nsb := (tg_node_id_and_sequence_bits g).
Abbreviation sb := (tg_sequence_bits g).
Abbreviation nb := (tg_node_id_bits g).

(** A word of the generator: a timestamp and a sequence, the node bits clear. *)
Record word_ok (w : Z) : Prop := {
  wo_range : is_u64 w;
  wo_seq : w mod 2 ^ nsb < 2 ^ sb;
}.

Lemma pow_nsb : 2 ^ nsb = 2 ^ nb * 2 ^ sb.
Proof.
  destruct Hg. rewrite go_sum0. by apply Z.pow_add_r.
Qed.

Lemma pow_pos : 0 < 2 ^ nb /\ 0 < 2 ^ sb /\ 0 < 2 ^ nsb.
Proof. destruct Hg. split_and!; apply Z.pow_pos_nonneg; lia. Qed.

Lemma word_split w :
  word_ok w -> exists T q, w = T * 2 ^ nsb + q /\ 0 <= q < 2 ^ sb /\ 0 <= T.
Proof.
  intros [Hr Hs]. pose proof pow_pos. exists (w / 2 ^ nsb), (w mod 2 ^ nsb).
  pose proof (Z.div_mod w (2 ^ nsb) ltac:(lia)).
  pose proof (Z.mod_pos_bound w (2 ^ nsb) ltac:(lia)).
  destruct Hr as [Hr _]. pose proof (Z.div_pos w (2 ^ nsb) Hr ltac:(lia)). lia.
Qed.

(** The node bits fall between the timestamp and the sequence. *)
Lemma trace_id_add w : word_ok w -> trace_id_of g w = w + node_id * 2 ^ sb.
Proof.
  intros Hw. destruct (word_split w Hw) as (T & q & -> & Hq & HT). clear Hw.
  pose proof pow_nsb as Hn. pose proof pow_pos as (Hp1 & Hp2 & Hp3). destruct Hg.
  unfold trace_id_of. rewrite go_bits0.
  assert (Hland : Z.land (T * 2 ^ nsb + q) (node_id * 2 ^ sb) = 0).
  { apply Z.bits_inj'. intros i Hi. rewrite Z.land_spec, Z.bits_0.
    destruct (decide (i < sb)) as [Hlt|Hge].
    { rewrite (Z.mul_pow2_bits_low node_id) by lia. apply andb_false_r. }
    apply andb_false_iff. destruct (decide (i < nsb)) as [Hlt'|Hge'].
    - left. rewrite <- (Z.mod_pow2_bits_low _ nsb), Z.add_comm, Z.mod_add by lia.
      rewrite Z.mod_small by nia. apply (testbit_high q sb); lia.
    - right. apply (testbit_high _ nsb); nia. }
  by rewrite (Z.add_nocarry_lxor (T * 2 ^ nsb + q)), Z.lxor_lor by exact Hland.
Qed.

Lemma shiftr_word w : 0 <= w -> Z.shiftr w nsb = w / 2 ^ nsb.
Proof. intros _. pose proof Hg as []. apply Z.shiftr_div_pow2. lia. Qed.

Lemma land_max_seq w : 0 <= w -> Z.land w (tg_max_sequence g) = w mod 2 ^ sb.
Proof. intros _. destruct Hg. rewrite go_max_seq0. by apply land_pow2_mask. Qed.

(** The sequence part of a word. *)
Lemma mod_seq w : word_ok w -> w mod 2 ^ sb = w mod 2 ^ nsb.
Proof.
  intros Hw. destruct (word_split w Hw) as (T & q & -> & Hq & HT).
  pose proof pow_pos as (P1 & P2 & P3). trans q.
  - replace (T * 2 ^ nsb + q) with (q + T * 2 ^ nb * 2 ^ sb) by (rewrite pow_nsb; lia).
    rewrite Z.mod_add, Z.mod_small; lia.
  - rewrite Z.add_comm, Z.mod_add, Z.mod_small; [done| |lia]. rewrite pow_nsb. nia.
Qed.

(** The two branches of an iteration, without the bit operations. *)
Lemma next_word_cases w c :
  word_ok w -> clock_fits g c ->
  let ts := c - tg_timestamp_offset_ms g in
  (w / 2 ^ nsb < ts /\ next_word g w c = Some (ts * 2 ^ nsb)) \/
  (ts <= w / 2 ^ nsb /\
   next_word g w c = if w mod 2 ^ nsb <? 2 ^ sb - 1 then Some (w + 1) else None).
Proof.
  intros Hw Hc. pose proof pow_pos as (P1 & P2 & P3). destruct Hc as [Hc1 Hc2].
  assert (H64 : 2 ^ 64 = 2 ^ (64 - nsb) * 2 ^ nsb).
  { destruct Hg. rewrite <- Z.pow_add_r by lia. f_equal. lia. }
  assert (Hle : 2 ^ (64 - nsb) <= 2 ^ 64) by (destruct Hg; apply Z.pow_le_mono_r; lia).
  pose proof (go_offset _ _ Hg) as Hoff. cbv zeta. unfold next_word.
  set (ts := c - tg_timestamp_offset_ms g) in *.
  rewrite (u64_small ts) by ulia. rewrite shiftr_word, land_max_seq by apply Hw.
  rewrite (go_max_seq _ _ Hg), mod_seq by done.
  destruct (_ <? ts) eqn:Et; bool_simp; [left|right]; (split; [done|]).
  - rewrite Z.shiftl_mul_pow2 by (destruct Hg; lia).
    rewrite u64_small by (unfold is_u64 in *; nia). done.
  - destruct (_ <? _) eqn:Es; [|done]. bool_simp. f_equal. apply u64_small.
    pose proof (wo_range _ Hw) as Hr. pose proof (Z.div_mod w (2 ^ nsb) ltac:(lia)) as Ew.
    pose proof (Z.mod_pos_bound w (2 ^ nsb) P3). unfold is_u64 in *.
    assert (w / 2 ^ nsb < 2 ^ (64 - nsb)) by (apply Z.div_lt_upper_bound; lia).
    assert (w mod 2 ^ nsb + 1 < 2 ^ nsb) by (rewrite pow_nsb in *; nia). nia.
Qed.

(** What a stored word is made of, and when the iteration stores one. *)
Lemma next_word_parts w c w' :
  word_ok w -> clock_fits g c -> next_word g w c = Some w' ->
  let ts := c - tg_timestamp_offset_ms g in
  w' / 2 ^ nsb = Z.max (w / 2 ^ nsb) ts /\
  w' mod 2 ^ nsb = if w / 2 ^ nsb <? ts then 0 else w mod 2 ^ nsb + 1.
Proof.
  intros Hw Hc E. cbv zeta. pose proof pow_pos as (P1 & P2 & P3).
  destruct (next_word_cases w c Hw Hc) as [Hlt|Hge].
  - destruct Hlt as [Hlt Hn]. rewrite Hn in E. injection E as <-.
    replace (_ <? _) with true by (symmetry; apply Z.ltb_lt; lia).
    rewrite Z.div_mul, Z.mod_mul by lia. lia.
  - destruct Hge as [Hge Hn]. rewrite Hn in E. destruct (_ <? 2 ^ sb - 1) eqn:Es; [|done].
    injection E as <-. bool_simp.
    replace (_ <? _) with false by (symmetry; apply Z.ltb_ge; lia).
    assert (w mod 2 ^ nsb + 1 < 2 ^ nsb) by (rewrite pow_nsb in *; nia).
    pose proof (Z.mod_pos_bound w (2 ^ nsb) P3).
    assert (Ew : w + 1 = (w mod 2 ^ nsb + 1) + w / 2 ^ nsb * 2 ^ nsb).
    { pose proof (Z.div_mod w (2 ^ nsb) ltac:(lia)). lia. }
    rewrite Ew at 1 2. rewrite Z.div_add, Z.div_small, Z.mod_add, Z.mod_small by lia. lia.
Qed.

Lemma next_word_later w c :
  word_ok w -> clock_fits g c -> w / 2 ^ nsb < c - tg_timestamp_offset_ms g ->
  next_word g w c <> None.
Proof.
  intros Hw Hc Hlt. destruct (next_word_cases w c Hw Hc) as [[_ ->]|[Hge _]]; [done|lia].
Qed.

(** Every stored word is larger than the one it replaces. *)
Lemma next_word_spec w c w' :
  word_ok w -> clock_fits g c -> next_word g w c = Some w' -> word_ok w' /\ w < w'.
Proof.
  intros Hw Hc E. pose proof pow_pos as (P1 & P2 & P3).
  assert (Hr : is_u64 w').
  { unfold next_word in E. repeat case_match; simplify_eq; apply u64_range. }
  destruct (next_word_parts w c w' Hw Hc E) as [Hd Hm].
  pose proof (Z.div_mod w (2 ^ nsb) ltac:(lia)). pose proof (Z.div_mod w' (2 ^ nsb) ltac:(lia)).
  pose proof (Z.mod_pos_bound w (2 ^ nsb) P3).
  destruct (next_word_cases w c Hw Hc) as [[Hlt Hn]|[Hge Hn]]; rewrite Hn in E.
  - replace (_ <? _) with true in Hm by (symmetry; apply Z.ltb_lt; lia).
    split; [constructor; [done|lia]|nia].
  - replace (_ <? _) with false in Hm by (symmetry; apply Z.ltb_ge; lia).
    destruct (_ <? 2 ^ sb - 1) eqn:Es; [|done]. bool_simp. injection E as <-.
    split; [constructor; [done|lia]|lia].
Qed.

(** ** Extraction *)

Lemma extract_trace_id w :
  word_ok w ->
  tp_trace_id_extract_timestamp (Some g) (trace_id_of g w) = w / 2 ^ nsb /\
  tp_trace_id_extract_node_id (Some g) (trace_id_of g w) = node_id /\
  tp_trace_id_extract_sequence (Some g) (trace_id_of g w) = w mod 2 ^ nsb.
Proof.
  intros Hw. rewrite trace_id_add by done. destruct (word_split w Hw) as (T & q & -> & Hq & HT).
  pose proof pow_pos as (P1 & P2 & P3). pose proof (go_node _ _ Hg) as Hn.
  pose proof pow_nsb as Hp. unfold tp_trace_id_extract_timestamp, tp_trace_id_extract_node_id,
    tp_trace_id_extract_sequence.
  rewrite (go_max_node _ _ Hg), (go_max_seq _ _ Hg).
  rewrite !Z.shiftr_div_pow2, !land_pow2_mask by (destruct Hg; lia).
  assert (E1 : T * 2 ^ nsb + q + node_id * 2 ^ sb = (node_id * 2 ^ sb + q) + T * 2 ^ nsb) by lia.
  assert (E2 : T * 2 ^ nsb + q + node_id * 2 ^ sb = q + (T * 2 ^ nb + node_id) * 2 ^ sb)
    by (rewrite Hp; lia).
  assert (Hs : 0 <= node_id * 2 ^ sb + q < 2 ^ nsb) by (rewrite Hp; nia).
  split_and!.
  - rewrite E1, Z.div_add, (Z.div_small (node_id * 2 ^ sb + q)) by lia.
    rewrite (Z.add_comm (T * _)), Z.div_add, Z.div_small by nia. lia.
  - rewrite E2, Z.div_add, Z.div_small by lia.
    rewrite Z.add_0_l, Z.add_comm, Z.mod_add, Z.mod_small by lia. done.
  - rewrite E2, Z.mod_add, Z.mod_small by lia.
    rewrite (Z.add_comm (T * _)), Z.mod_add, Z.mod_small by nia. done.
Qed.

(** ** Interleaved threads *)

Record ginv (s : gsys) : Prop := {
  gi_word : word_ok (g_word s);
  gi_clock : forall t old c, g_threads s t = Ready old c -> clock_fits g c;
  gi_ids : Forall (fun '(_, id) => exists w, word_ok w /\ 0 < w <= g_word s /\
                                            id = trace_id_of g w) (g_ids s);
  gi_sorted : StronglySorted Z.gt (map snd (g_ids s));
}.

Lemma set_pc_clock f t p :
  (forall old c, p = Ready old c -> clock_fits g c) ->
  (forall t' old c, f t' = Ready old c -> clock_fits g c) ->
  forall t' old c, set_pc f t p t' = Ready old c -> clock_fits g c.
Proof. intros Hp Hf t' old c. unfold set_pc. destruct (Nat.eqb t' t); eauto. Qed.

Lemma gstep_inv s s' : ginv s -> gstep g s s' -> ginv s'.
Proof.
  intros [Hw Hc Hi Hs] Hstep.
  destruct Hstep as [t Ht|t old c Ht Hfit|t old c w Ht Hn <-|t old c Ht]; constructor; simpl;
    try done.
  - apply set_pc_clock; [discriminate|done].
  - apply set_pc_clock; [|done]. by intros ? ? [= <- <-].
  - eapply next_word_spec; eauto.
  - apply set_pc_clock; [discriminate|done].
  - destruct (next_word_spec _ _ _ Hw (Hc _ _ _ Ht) Hn) as [Hw' Hlt].
    pose proof (wo_range _ Hw) as Hr. apply Forall_cons. split.
    + exists w. split_and!; try done; ulia.
    + eapply Forall_impl; [exact Hi|]. intros [? ?] (v & ? & ? & ?). exists v.
      split_and!; try done; lia.
  - destruct (next_word_spec _ _ _ Hw (Hc _ _ _ Ht) Hn) as [Hw' Hlt].
    constructor; [done|]. apply Forall_map. eapply Forall_impl; [exact Hi|].
    intros [t' id] (v & Hv & Hle & ->). simpl. rewrite !trace_id_add by done. lia.
  - apply set_pc_clock; [discriminate|done].
Qed.

Lemma greach_inv s0 s : ginv s0 -> greach g s0 s -> ginv s.
Proof. intros H0. induction 1 as [|s s' _ IH Hs]; [done|]. by eapply gstep_inv. Qed.
End Generator.

Definition gstart : gsys := {| g_word := 0; g_threads _ := Idle; g_ids := [] |}.

Lemma word_ok_0 g node : gen_ok g node -> word_ok g 0.
Proof.
  intros Hg. constructor; [ulia|]. rewrite Z.mod_0_l; [apply (pow_pos g node Hg)|].
  pose proof (pow_pos g node Hg). lia.
Qed.

Lemma gstart_inv g node : gen_ok g node -> ginv g gstart.
Proof.
  intros Hg. constructor; simpl; [by eapply word_ok_0|done|apply Forall_nil_2|apply SSorted_nil].
Qed.

Lemma sorted_gt_NoDup l : StronglySorted Z.gt l -> NoDup l.
Proof.
  induction 1 as [|x l _ IH Hx]; constructor; [|done].
  intros Hin. rewrite Forall_forall in Hx. specialize (Hx _ Hin). lia.
Qed.

(** ** Properties *)

(** C29: Trace identifiers are unique.  However any number of threads interleave
    in [tp_trace_id_generator_next] on an initialised generator, with spurious
    failures of the exchange, the identifiers are returned in strictly
    increasing order of their exchanges, none of them is 0 (the failure value),
    and each carries the node id it was configured with, so that generators
    with different node ids do not collide either. *)
Theorem trace_ids_unique nb sb node off now clock g s :
  0 <= nb -> 0 <= sb -> nb + sb < 256 -> 0 <= node -> is_u64 off ->
  tp_trace_id_generator_init (Some tt) nb sb node off now clock = Some (Ok (g, g_word gstart)) ->
  greach g gstart s ->
  StronglySorted Z.gt (map snd (g_ids s)) /\ NoDup (map snd (g_ids s)) /\
  forall t id, (t, id) ∈ g_ids s -> id <> 0 /\ tp_trace_id_extract_node_id (Some g) id = node.
Proof.
  intros Hnb Hsb Hsum Hnode Hoff Hinit Hreach.
  destruct (init_gen_ok _ _ _ _ _ _ _ _ Hnb Hsb Hsum Hnode Hoff Hinit) as (Hg & _ & _).
  destruct (greach_inv g node Hg _ _ (gstart_inv g node Hg) Hreach) as [_ _ Hids Hsort].
  split_and!; [done|by apply sorted_gt_NoDup|].
  intros t id Hin. rewrite Forall_forall in Hids. destruct (Hids _ Hin) as (w & Hw & Hpos & ->).
  split.
  - rewrite (trace_id_add g node Hg w Hw). pose proof (go_node _ _ Hg).
    pose proof (pow_pos g node Hg). nia.
  - by apply (extract_trace_id g node Hg w Hw).
Qed.

(** A single call returns, and its identifier can be taken apart.  When one
    of the clock readings passes the timestamp of the last identifier the loop
    ends; the identifier's timestamp is the later of the clock and the previous
    timestamp, its node id is the configured one, and its sequence restarts at 0
    in a new millisecond and otherwise counts up. *)
Theorem trace_next_returns g node w clocks :
  gen_ok g node -> word_ok g w -> Forall (clock_fits g) clocks ->
  Exists (fun c => w / 2 ^ tg_node_id_and_sequence_bits g < c - tg_timestamp_offset_ms g) clocks ->
  exists w' id c, tp_trace_id_generator_next g w clocks = Some (w', id) /\ c ∈ clocks /\
    w < w' /\
    let ts := c - tg_timestamp_offset_ms g in
    let old_ts := tp_trace_id_extract_timestamp (Some g) (trace_id_of g w) in
    let old_seq := tp_trace_id_extract_sequence (Some g) (trace_id_of g w) in
    tp_trace_id_extract_timestamp (Some g) id = Z.max old_ts ts /\
    tp_trace_id_extract_node_id (Some g) id = node /\
    tp_trace_id_extract_sequence (Some g) id = (if old_ts <? ts then 0 else old_seq + 1).
Proof.
  intros Hg Hw Hfit Hex. destruct (extract_trace_id g node Hg w Hw) as (Et & _ & Es).
  induction Hfit as [|c clocks Hc Hfit IH]; [by apply Exists_nil in Hex|].
  cbn [tp_trace_id_generator_next]. destruct (next_word g w c) as [w'|] eqn:En.
  - destruct (next_word_spec g node Hg w c w' Hw Hc En) as [Hw' Hlt].
    destruct (extract_trace_id g node Hg w' Hw') as (E1 & E2 & E3).
    apply (next_word_parts g node Hg w c w' Hw Hc) in En as [E4 E5].
    exists w', (trace_id_of g w'), c. cbv zeta. rewrite Et, Es, E1, E2, E3, E4, E5.
    split_and!; try done. by left.
  - apply Exists_cons in Hex as [Hex|Hex].
    + exfalso. by apply (next_word_later g node Hg w c Hw Hc Hex).
    + destruct (IH Hex) as (w' & id & c' & -> & Hin & Hrest). exists w', id, c'.
      split; [done|]. split; [by right|exact Hrest].
Qed.

Definition example_gen : tp_trace_id_generator_t :=
  {| tg_node_id_bits := 10; tg_sequence_bits := 12; tg_node_id_and_sequence_bits := 22;
     tg_max_node_id := 1023; tg_max_sequence := 4095; tg_node_bits := 5 * 4096;
     tg_timestamp_offset_ms := 0 |}.

Lemma example_gen_ok : gen_ok example_gen 5.
Proof. constructor; simpl; done || ulia. Qed.

(** Two threads: both load 0, the first exchange wins, the second retries. *)
Lemma example_run :
  exists s, greach example_gen gstart s /\
    map snd (g_ids s) = [trace_id_of example_gen (7 * 2 ^ 22 + 1); trace_id_of example_gen (7 * 2 ^ 22)].
Proof.
  assert (Hc : clock_fits example_gen 7) by (split; done).
  eexists. split.
  - eapply greach_step; [eapply greach_step; [eapply greach_step;
      [eapply greach_step; [eapply greach_step; [eapply greach_step;
        [apply greach_refl|]|]|]|]|]|].
    + by apply (g_load _ _ 0).
    + by apply (g_clock _ _ 0 0 7).
    + by eapply (g_cas _ _ 0 0 7).
    + by apply (g_load _ _ 1).
    + by apply (g_clock _ _ 1 (7 * 2 ^ 22) 7).
    + by eapply (g_cas _ _ 1 (7 * 2 ^ 22) 7).
  - done.
Qed.

Theorem trace_ids_unique_witness :
  exists s, greach example_gen gstart s /\ length (g_ids s) = 2%nat /\
    NoDup (map snd (g_ids s)) /\
    forall t id, (t, id) ∈ g_ids s -> id <> 0 /\ tp_trace_id_extract_node_id (Some example_gen) id = 5.
Proof.
  destruct example_run as (s & Hr & Hids). exists s. split; [exact Hr|].
  split; [rewrite <- (length_map snd), Hids; reflexivity|].
  apply (trace_ids_unique 10 12 5 0 3 NULL example_gen s); try done; try ulia.
Defined.

Theorem trace_next_returns_witness :
  exists w' id c, tp_trace_id_generator_next example_gen (7 * 2 ^ 22 + 4095) [7; 7; 8] = Some (w', id) /\
    c ∈ [7; 7; 8] /\ tp_trace_id_extract_node_id (Some example_gen) id = 5.
Proof.
  destruct (trace_next_returns example_gen 5 (7 * 2 ^ 22 + 4095) [7; 7; 8])
    as (w' & id & c & H1 & H2 & _ & _ & H3 & _).
  - exact example_gen_ok.
  - constructor; [ulia|done].
  - repeat constructor; done.
  - do 2 apply Exists_cons_tl. apply Exists_cons_hd. reflexivity.
  - exists w', id, c. by split_and!.
Defined.

(** The size check adds the two bit counts in 8 bits: 200 and 60 pass it, and
    the shift by 200 that follows is undefined. *)
Theorem trace_init_sum_wraps :
  tp_trace_id_generator_init (Some tt) 200 60 0 0 1 NULL = None /\
  TP_TRACE_MAX_NODE_AND_SEQUENCE_BITS < 200 + 60.
Proof. done. Qed.
