(* ===== verification/Tracelink.v ===== *)
(** * Tracelink: trace links between frames (tp_tracelink.c)

    A TraceLinkSet names the parents of a frame's trace identifier.  The file
    models its validation, its codec, the choice of a trace identifier for a
    frame with given parents, the producer's history of published descriptors
    (tp_producer.c) and the check against it when a set is sent. *)

From Stdlib Require Import ZArith Lia Bool.
From S2P Require Import Prelude Sbe Ring.

Definition TP_TRACELINK_MAX_PARENTS : Z := 256.

(** TraceLinkSet in trace-link-schema.xml: block of 28 bytes, then the group
    header and one 8-byte entry per parent. *)
Definition traceLinkSet_sbe_block_length : Z := 28.
Definition traceLinkSet_sbe_template_id : Z := 1.
Definition traceLinkSet_sbe_schema_id : Z := 904.
Definition traceLinkSet_sbe_schema_version : Z := 1.
Definition traceLinkSet_group : Z := messageHeader_encoded_length + traceLinkSet_sbe_block_length.

(** [parents] is the array behind the pointer, [parent_count] the count. *)
Record tp_tracelink_set_t := {
  ts_stream_id : Z;
  ts_epoch : Z;
  ts_seq : Z;
  ts_trace_id : Z;
  ts_parents : ptr (list Z);
  ts_parent_count : Z;
}.

(** ** Validation *)

(** The inner loop: [parents[i]] equals an earlier parent. *)
Definition duplicate_at (parents : list Z) (i : nat) : bool :=
  existsb (fun j => parents !!! i =? parents !!! j) (seq 0 i).

Definition tp_tracelink_validate_parents (parents : ptr (list Z)) (parent_count : Z) : bool :=
  match parents with
  | NULL => false
  | Some parents =>
    negb (parent_count =? 0) &&
    forallb (fun i => negb (parents !!! i =? 0) && negb (duplicate_at parents i))
      (seq 0 (Z.to_nat parent_count))
  end.

(** [tp_tracelink_resolve_trace_id]: the trace id and whether a set has to be
    sent.  [generator] is the generator's next identifier, 0 on its failure. *)
Definition tp_tracelink_resolve_trace_id (generator : ptr Z) (parents : ptr (list Z))
    (parent_count : Z) : res (Z * bool) :=
  guard! negb (TP_TRACELINK_MAX_PARENTS <? parent_count) else EINVAL in
  guard! (negb (0 <? parent_count) || negb (bool_decide (parents = NULL))) else EINVAL in
  guard! (negb (0 <? parent_count) || tp_tracelink_validate_parents parents parent_count)
    else EINVAL in
  if parent_count =? 1 then Ok (default [] parents !!! 0%nat, false)
  else
    match generator with
    | NULL => Err EINVAL
    | Some trace_id =>
      guard! negb (trace_id =? 0) else EINVAL in
      Ok (trace_id, 1 <? parent_count)
    end.

(** ** The codec *)

Section Codec.
Context `{Sbe}.

Definition tracelink_required (parent_count : Z) : Z :=
  messageHeader_encoded_length + traceLinkSet_sbe_block_length + 4 + parent_count * 8.

Definition tracelink_fixed_writes (s : tp_tracelink_set_t) : list write :=
  messageHeader_writes traceLinkSet_sbe_block_length traceLinkSet_sbe_template_id
    traceLinkSet_sbe_schema_id traceLinkSet_sbe_schema_version ++
  [Write (8 + 0) 4 (ts_stream_id s); Write (8 + 4) 8 (ts_epoch s);
   Write (8 + 12) 8 (ts_seq s); Write (8 + 20) 8 (ts_trace_id s)] ++
  group_header_writes traceLinkSet_group 8 (u16 (ts_parent_count s)).

(** The buffer after the call and the encoded length. *)
Definition tp_tracelink_set_encode (buffer : ptr bytes) (set : ptr tp_tracelink_set_t)
    : res (bytes * Z) :=
  match buffer, set with
  | NULL, _ | _, NULL => Err EINVAL
  | Some b, Some s =>
    guard! negb (ts_trace_id s =? 0) else EINVAL in
    guard! (negb (ts_parent_count s =? 0) && negb (65535 <? ts_parent_count s)) else EINVAL in
    guard! tp_tracelink_validate_parents (ts_parents s) (ts_parent_count s) else EINVAL in
    guard! negb (blen b <? tracelink_required (ts_parent_count s)) else EINVAL in
    let parents := take (Z.to_nat (ts_parent_count s)) (default [] (ts_parents s)) in
    Ok (sbe_puts (array_writes 8 (traceLinkSet_group + 4) parents)
          (sbe_puts (tracelink_fixed_writes s) b),
        tracelink_required (ts_parent_count s))
  end.

(** The decoding loop: [acc] holds the parents read so far. *)
Fixpoint decode_parents (b : bytes) (pos block : Z) (n : nat) (acc : list Z) : res (list Z) :=
  match n with
  | O => Ok acc
  | S n' =>
    match sbe_group_next pos block (blen b) with
    | None => Err EINVAL
    | Some entry =>
      let p := sbe_get 8 b entry in
      guard! negb (p =? 0) else EINVAL in
      guard! negb (existsb (fun q => p =? q) acc) else EINVAL in
      decode_parents b (pos + block) block n' (acc ++ [p])
    end
  end.

(** [Ok None] is the return value 1: another message. *)
Definition tp_tracelink_set_decode (buffer : ptr bytes) (max_parents : Z)
    : res (option tp_tracelink_set_t) :=
  match buffer with
  | NULL => Err EINVAL
  | Some b =>
    guard! negb (blen b <? messageHeader_encoded_length) else EINVAL in
    if negb (messageHeader_schemaId b =? traceLinkSet_sbe_schema_id) ||
       negb (messageHeader_templateId b =? traceLinkSet_sbe_template_id) then Ok None
    else
      guard! negb (traceLinkSet_sbe_schema_version <? messageHeader_version b) else EINVAL in
      guard! messageHeader_blockLength b =? traceLinkSet_sbe_block_length else EINVAL in
      let trace_id := sbe_get 8 b (8 + 20) in
      guard! negb (trace_id =? 0) else EINVAL in
      match sbe_group_wrap b traceLinkSet_group (blen b) with
      | None => Err EINVAL
      | Some (block, count) =>
        guard! negb ((count <? 1) || (max_parents <? count)) else EINVAL in
        let! parents := decode_parents b (traceLinkSet_group + 4) block (Z.to_nat count) [] in
        Ok (Some {| ts_stream_id := sbe_get 4 b (8 + 0); ts_epoch := sbe_get 8 b (8 + 4);
                    ts_seq := sbe_get 8 b (8 + 12); ts_trace_id := trace_id;
                    ts_parents := Some parents; ts_parent_count := count |})
      end
  end.
End Codec.

(** ** The producer's side *)

Record tp_tracelink_entry_t := { te_seq : Z; te_trace_id : Z }.

(** The function pointer: NULL, the default that [tp_producer_init] installs, or
    the application's. *)
Inductive validator :=
  | VNone
  | VDefault
  | VUser (f : tp_tracelink_set_t -> res unit).

(** The fields of [tp_producer_t] that trace links use. *)
Record tl_producer := {
  tl_stream_id : Z;
  tl_epoch : Z;
  tl_header_nslots : Z;
  tl_entries : ptr (list tp_tracelink_entry_t);
  tl_control_publication : bool;
  tl_validator : validator;
}.

(** [tp_producer_set_tracelink_validator]. *)
Definition tp_producer_set_tracelink_validator (p : ptr tl_producer) (v : validator)
    : ptr tl_producer :=
  match p with
  | NULL => NULL
  | Some p => Some {| tl_stream_id := tl_stream_id p; tl_epoch := tl_epoch p;
                      tl_header_nslots := tl_header_nslots p; tl_entries := tl_entries p;
                      tl_control_publication := tl_control_publication p; tl_validator := v |}
  end.

Definition set_entries (p : tl_producer) (e : ptr (list tp_tracelink_entry_t)) : tl_producer :=
  {| tl_stream_id := tl_stream_id p; tl_epoch := tl_epoch p;
     tl_header_nslots := tl_header_nslots p; tl_entries := e;
     tl_control_publication := tl_control_publication p; tl_validator := tl_validator p |}.

(** [aeron_alloc] may fail ([alloc_ok]); the old entries are freed first. *)
Definition tp_producer_init_tracelink_entries (p : tl_producer) (alloc_ok : bool)
    : tl_producer * res unit :=
  if tl_header_nslots p =? 0 then (p, Ok tt)
  else if negb alloc_ok then (set_entries p NULL, Err ENOMEM)
  else (set_entries p (Some (replicate (Z.to_nat (tl_header_nslots p))
                               {| te_seq := TP_NULL_U64; te_trace_id := 0 |})), Ok tt).

Definition entry_index (nslots seq : Z) : nat := Z.to_nat (Z.land seq (u32 (nslots - 1))).

Definition tp_producer_record_tracelink_descriptor (p : tl_producer) (seq trace_id : Z)
    : tl_producer :=
  match tl_entries p with
  | NULL => p
  | Some entries =>
    if tl_header_nslots p =? 0 then p
    else set_entries p (Some (<[entry_index (tl_header_nslots p) seq :=
                                {| te_seq := seq; te_trace_id := trace_id |}]> entries))
  end.

Definition tp_producer_default_tracelink_validator (p : tl_producer) (s : tp_tracelink_set_t)
    : res unit :=
  match tl_entries p with
  | NULL => Err EINVAL
  | Some entries =>
    guard! negb (tl_header_nslots p =? 0) else EINVAL in
    match entries !! entry_index (tl_header_nslots p) (ts_seq s) with
    | None => Err EINVAL   (* not reached: the array has nslots entries *)
    | Some entry =>
      guard! negb (negb (te_seq entry =? ts_seq s) || negb (te_trace_id entry =? ts_trace_id s))
        else EINVAL in
      Ok tt
    end
  end.

Section Send.
Context `{Sbe}.

(** [offer] is the publication's result for a message; [alloc_ok] whether
    [aeron_alloc] succeeds.  Yields the result and the message offered.  A
    stack buffer of 512 bytes is used when it is large enough. *)
Definition tp_producer_send_tracelink_set (offer : bytes -> Z) (alloc_ok : bool)
    (producer : ptr tl_producer) (set : ptr tp_tracelink_set_t) : res unit * option bytes :=
  match producer, set with
  | NULL, _ | _, NULL => (Err EINVAL, None)
  | Some p, Some s =>
    if negb (tl_control_publication p) then (Err EINVAL, None)
    else if negb (ts_stream_id s =? tl_stream_id p) || negb (ts_epoch s =? tl_epoch p)
    then (Err EINVAL, None)
    else
      match match tl_validator p with
            | VNone => Ok tt
            | VDefault => tp_producer_default_tracelink_validator p s
            | VUser f => f s
            end with
      | Err e => (Err e, None)
      | Ok _ =>
        let required_len := tracelink_required (ts_parent_count s) in
        let buffer_len := if 512 <? required_len then required_len else 512 in
        if (512 <? required_len) && negb alloc_ok then (Err ENOMEM, None)
        else
          match tp_tracelink_set_encode (Some (replicate (Z.to_nat buffer_len) 0)) (Some s) with
          | Err e => (Err e, None)
          | Ok (b, n) =>
            let message := take (Z.to_nat n) b in
            if offer message <? 0 then (Err (EOS (offer message)), Some message)
            else (Ok tt, Some message)
          end
      end
  end.

Definition tp_producer_send_tracelink_set_ex (offer : bytes -> Z) (alloc_ok : bool)
    (producer : ptr tl_producer) (seq trace_id : Z) (parents : ptr (list Z)) (parent_count : Z)
    : res unit * option bytes :=
  match producer with
  | NULL => (Err EINVAL, None)
  | Some p =>
    tp_producer_send_tracelink_set offer alloc_ok producer
      (Some {| ts_stream_id := tl_stream_id p; ts_epoch := tl_epoch p; ts_seq := seq;
               ts_trace_id := trace_id; ts_parents := parents; ts_parent_count := parent_count |})
  end.

Definition tp_tracelink_set_from_claim (producer : ptr tl_producer) (claim : ptr tp_buffer_claim_t)
    (parents : ptr (list Z)) (parent_count : Z) : res tp_tracelink_set_t :=
  match producer, claim with
  | NULL, _ | _, NULL => Err EINVAL
  | Some p, Some c =>
    guard! negb (cl_trace_id c =? 0) else EINVAL in
    Ok {| ts_stream_id := tl_stream_id p; ts_epoch := tl_epoch p; ts_seq := cl_seq c;
          ts_trace_id := cl_trace_id c; ts_parents := parents; ts_parent_count := parent_count |}
  end.
End Send.

(** ** Lemmas: validation *)

Lemma validate_parents_spec l n :
  0 <= n <= Z.of_nat (length l) ->
  tp_tracelink_validate_parents (Some l) n = true <->
  n <> 0 /\ NoDup (take (Z.to_nat n) l) /\ 0 ∉ take (Z.to_nat n) l.
Proof.
  intros Hn. unfold tp_tracelink_validate_parents. rewrite andb_true_iff, negb_true_iff, Z.eqb_neq.
  apply and_iff_compat_l. rewrite forallb_forall.
  assert (Hlk : forall i, (i < Z.to_nat n)%nat -> take (Z.to_nat n) l !! i = Some (l !!! i)).
  { intros i Hi. rewrite lookup_take_lt by done. apply list_lookup_lookup_total_lt. lia. }
  assert (Hlt : forall i x, take (Z.to_nat n) l !! i = Some x -> (i < Z.to_nat n)%nat).
  { intros i x Hx%lookup_lt_Some. rewrite length_take in Hx. lia. }
  split.
  - intros Hall.
    assert (Hi : forall i, (i < Z.to_nat n)%nat ->
              l !!! i <> 0 /\ forall j, (j < i)%nat -> l !!! i <> l !!! j).
    { intros i Hi. specialize (Hall i). rewrite in_seq in Hall. specialize (Hall ltac:(lia)).
      apply andb_true_iff in Hall as [H0 Hd]. bool_simp. split; [done|]. intros j Hj E.
      unfold duplicate_at in Hd. apply not_true_iff_false in Hd. apply Hd, existsb_exists.
      exists j. rewrite in_seq, Z.eqb_eq. split; [lia|done]. }
    split.
    + apply NoDup_alt. intros i j x Hx Hy. pose proof (Hlt _ _ Hx). pose proof (Hlt _ _ Hy).
      rewrite Hlk in Hx, Hy by done. destruct (lt_eq_lt_dec i j) as [[Hij|]|Hij]; [|done|].
      * destruct (Hi j) as [_ Hne]; [done|]. destruct (Hne i Hij). congruence.
      * destruct (Hi i) as [_ Hne]; [done|]. destruct (Hne j Hij). congruence.
    + intros (i & Hx)%list_elem_of_lookup. pose proof (Hlt _ _ Hx). rewrite Hlk in Hx by done.
      destruct (Hi i); [done|]. congruence.
  - intros [Hnd H0] i Hin. apply in_seq in Hin. apply andb_true_iff. split.
    + apply negb_true_iff, Z.eqb_neq. intros E. apply H0, list_elem_of_lookup.
      exists i. rewrite Hlk by lia. congruence.
    + apply negb_true_iff, not_true_iff_false. unfold duplicate_at.
      rewrite existsb_exists. intros (j & Hj & E). apply in_seq in Hj. bool_simp.
      rewrite NoDup_alt in Hnd. assert (i = j); [|lia].
      apply (Hnd i j (l !!! i)); rewrite Hlk by lia; congruence.
Qed.

(** ** Lemmas: the codec *)

Section CodecLemmas.
Context `{Sbe}.

Record set_wf (s : tp_tracelink_set_t) : Prop := {
  sw_stream : is_u32 (ts_stream_id s);
  sw_epoch : is_u64 (ts_epoch s);
  sw_seq : is_u64 (ts_seq s);
  sw_trace : is_u64 (ts_trace_id s);
  sw_parents : exists l, ts_parents s = Some l /\ Forall is_u64 l /\
                         0 <= ts_parent_count s <= Z.of_nat (length l);
}.

(** The set as the receiver has it: exactly [parent_count] parents. *)
Definition trimmed (s : tp_tracelink_set_t) : tp_tracelink_set_t :=
  {| ts_stream_id := ts_stream_id s; ts_epoch := ts_epoch s; ts_seq := ts_seq s;
     ts_trace_id := ts_trace_id s;
     ts_parents := Some (take (Z.to_nat (ts_parent_count s)) (default [] (ts_parents s)));
     ts_parent_count := ts_parent_count s |}.

Lemma decode_parents_all b pos l acc :
  0 <= pos -> pos + 8 * Z.of_nat (length l) <= blen b ->
  (forall i x, l !! i = Some x -> sbe_get 8 b (pos + 8 * Z.of_nat i) = x) ->
  NoDup (acc ++ l) -> 0 ∉ l ->
  decode_parents b pos 8 (length l) acc = Ok (acc ++ l).
Proof.
  revert pos acc. induction l as [|x l IH]; intros pos acc Hpos Hlen Hget Hnd H0.
  { simpl. by rewrite app_nil_r. }
  cbn [length] in Hlen. simpl. rewrite sbe_group_next_spec.
  replace (pos + 8 <=? blen b) with true by (symmetry; apply Z.leb_le; lia).
  pose proof (Hget 0%nat x eq_refl) as Hx. rewrite Z.mul_0_r, Z.add_0_r in Hx. rewrite Hx.
  apply not_elem_of_cons in H0 as [Hx0 H0].
  replace (x =? 0) with false by (symmetry; apply Z.eqb_neq; lia). simpl.
  destruct (existsb _ acc) eqn:Eex.
  { exfalso. apply existsb_exists in Eex as (y & Hy & E). bool_simp. subst y.
    apply NoDup_app in Hnd as (_ & Hd & _). apply (Hd x); [by apply list_elem_of_In|by left]. }
  assert (Ha : acc ++ (x :: l) = (acc ++ [x]) ++ l) by (by rewrite <- app_assoc).
  simpl. rewrite Ha in Hnd |- *.
  apply IH; try done; try lia.
  intros i y Hy. rewrite <- (Hget (S i) y Hy). f_equal. lia.
Qed.

Lemma fixed_writes_fit s : set_wf s -> Forall write_fits (tracelink_fixed_writes s).
Proof.
  intros []. unfold tracelink_fixed_writes, messageHeader_writes, group_header_writes.
  cbn [app]. write_fits_tac.
Qed.

Lemma decode_parents_sound b pos block n acc l :
  decode_parents b pos block n acc = Ok l -> NoDup acc -> 0 ∉ acc ->
  NoDup l /\ (0 ∉ l) /\ length l = (length acc + n)%nat.
Proof.
  revert pos acc. induction n as [|n IH]; intros pos acc E Hnd H0; simpl in E.
  { simplify_eq. split_and!; [done|done|lia]. }
  destruct (sbe_group_next _ _ _) as [entry|]; [|done].
  destruct (negb (_ =? 0)) eqn:Ez; [|done]. destruct (existsb _ acc) eqn:Eex; [done|].
  bool_simp. apply IH in E as (? & ? & Hl).
  - split_and!; try done. rewrite length_app in Hl. simpl in Hl. lia.
  - apply NoDup_app. split_and!; [done| |by apply NoDup_singleton].
    intros x Hx Hin. apply list_elem_of_singleton in Hin as ->.
    apply not_true_iff_false in Eex. apply Eex, existsb_exists.
    exists (sbe_get 8 b entry). by rewrite <- list_elem_of_In, Z.eqb_refl.
  - rewrite elem_of_app. intros [?|Hin]; [done|]. apply list_elem_of_singleton in Hin. congruence.
Qed.
End CodecLemmas.

(** ** Lemmas: the producer's history *)

Definition record_all (p : tl_producer) (recs : list (Z * Z)) : tl_producer :=
  fold_left (fun p r => tp_producer_record_tracelink_descriptor p (fst r) (snd r)) recs p.

(** The last record that falls on the entry of [seq]. *)
Fixpoint last_record (nslots : Z) (recs : list (Z * Z)) (seq : Z) (acc : option (Z * Z))
    : option (Z * Z) :=
  match recs with
  | [] => acc
  | r :: recs' =>
    last_record nslots recs' seq
      (if bool_decide (entry_index nslots (fst r) = entry_index nslots seq) then Some r else acc)
  end.

Lemma entry_index_lt nslots seq :
  is_u32 nslots -> nslots <> 0 -> 0 <= seq -> (entry_index nslots seq < Z.to_nat nslots)%nat.
Proof.
  intros Hn Hnz Hs. unfold entry_index. rewrite u32_small by ulia.
  pose proof (land_mask_lt seq nslots Hs). ulia.
Qed.

Definition entry_of (o : option (Z * Z)) (e : tp_tracelink_entry_t) : Prop :=
  match o with
  | Some (s, t) => e = {| te_seq := s; te_trace_id := t |}
  | None => e = {| te_seq := TP_NULL_U64; te_trace_id := 0 |}
  end.

Lemma record_all_entries p recs entries seq acc e :
  is_u32 (tl_header_nslots p) -> tl_header_nslots p <> 0 -> 0 <= seq ->
  tl_entries p = Some entries -> length entries = Z.to_nat (tl_header_nslots p) ->
  entries !! entry_index (tl_header_nslots p) seq = Some e -> entry_of acc e ->
  exists entries' e', tl_entries (record_all p recs) = Some entries' /\
    tl_header_nslots (record_all p recs) = tl_header_nslots p /\
    entries' !! entry_index (tl_header_nslots p) seq = Some e' /\
    entry_of (last_record (tl_header_nslots p) recs seq acc) e'.
Proof.
  intros Hn Hnz Hs. revert p entries e acc Hn Hnz.
  induction recs as [|[s t] recs IH]; intros p entries e acc Hn Hnz He Hlen Hlk Hacc.
  { exists entries, e. by split_and!. }
  simpl. set (p' := tp_producer_record_tracelink_descriptor p s t).
  assert (Hp' : p' = set_entries p (Some (<[entry_index (tl_header_nslots p) s :=
                       {| te_seq := s; te_trace_id := t |}]> entries))).
  { subst p'. unfold tp_producer_record_tracelink_descriptor. rewrite He.
    by replace (tl_header_nslots p =? 0) with false by (symmetry; apply Z.eqb_neq; lia). }
  pose proof (entry_index_lt _ _ Hn Hnz Hs) as Hlt.
  replace (tl_header_nslots p) with (tl_header_nslots p') by (by rewrite Hp').
  case_bool_decide as Eix.
  - eapply (IH p' _ {| te_seq := s; te_trace_id := t |}); rewrite ?Hp'; simpl; try done.
    + by rewrite length_insert.
    + rewrite Hp' in Eix. simpl in Eix. rewrite Eix. apply list_lookup_insert_eq. lia.
  - eapply (IH p'); rewrite ?Hp'; simpl; try done.
    + by rewrite length_insert.
    + rewrite Hp' in Eix. simpl in Eix. by rewrite list_lookup_insert_ne.
Qed.

(** What a receiver finds in the encoded message. *)
Lemma tracelink_message `{Sbe} s b ps :
  Forall is_u64 ps -> NoDup ps -> (0 ∉ ps) -> 40 + 8 * Z.of_nat (length ps) <= blen b ->
  let m := take (Z.to_nat (40 + 8 * Z.of_nat (length ps)))
             (sbe_puts (array_writes 8 40 ps) (sbe_puts (tracelink_fixed_writes s) b)) in
  blen m = 40 + 8 * Z.of_nat (length ps) /\
  decode_parents m 40 8 (length ps) [] = Ok ps /\
  forall w off, 0 <= w -> 0 <= off -> off + w <= 40 ->
    sbe_get w m off = sbe_get w (sbe_puts (tracelink_fixed_writes s) b) off.
Proof.
  intros Hu Hnd Hno0 Hb m.
  set (b1 := sbe_puts (tracelink_fixed_writes s) b) in *.
  assert (Hb1 : blen b1 = blen b) by apply sbe_puts_len.
  assert (Hb2 : blen (sbe_puts (array_writes 8 40 ps) b1) = blen b) by (by rewrite sbe_puts_len).
  assert (Hm : blen m = 40 + 8 * Z.of_nat (length ps)).
  { subst m. unfold blen in *. rewrite length_take. lia. }
  assert (Hext : forall w off, 0 <= w -> 0 <= off -> off + w <= 40 + 8 * Z.of_nat (length ps) ->
            sbe_get w m off = sbe_get w (sbe_puts (array_writes 8 40 ps) b1) off).
  { intros w off ? ? ?. apply sbe_get_ext; try done. intros i Hi. apply lookup_take_lt. lia. }
  split_and!; [done| |].
  - apply (decode_parents_all m 40 ps []); try done; [lia|]. intros i x Hi.
    pose proof (lookup_lt_Some _ _ _ Hi). rewrite Hext by lia. apply array_writes_get; try done.
    lia.
  - intros w off ? ? ?. rewrite Hext by lia. apply array_writes_outside; try done. by left.
Qed.

Lemma tracelink_roundtrip_aux `{Sbe} s b b' n max_parents :
  set_wf s -> ts_parent_count s <= max_parents ->
  tp_tracelink_set_encode (Some b) (Some s) = Ok (b', n) ->
  tp_tracelink_set_decode (Some (take (Z.to_nat n) b')) max_parents = Ok (Some (trimmed s)).
Proof.
  intros Hwf Hmax E. pose proof (fixed_writes_fit s Hwf) as Hfit.
  destruct Hwf as [_ _ _ _ (l & Hl & Hu & Hc)]. unfold tp_tracelink_set_encode in E.
  destruct (negb (ts_trace_id s =? 0)) eqn:Et; [|done].
  destruct (_ && _) eqn:Ec; [|done]. destruct (tp_tracelink_validate_parents _ _) eqn:Ev; [|done].
  destruct (negb (blen b <? _)) eqn:Eb; [|done]. bool_simp. injection E as <- <-.
  rewrite Hl in *. cbn [default id from_option] in *.
  apply validate_parents_spec in Ev as (_ & Hnd & Hno0); [|done].
  unfold trimmed. rewrite Hl. cbn [default id from_option].
  set (ps := take (Z.to_nat (ts_parent_count s)) l) in *.
  assert (Hps : ts_parent_count s = Z.of_nat (length ps)) by (subst ps; rewrite length_take; lia).
  replace (tracelink_required (ts_parent_count s)) with (40 + 8 * Z.of_nat (length ps)) in *
    by (unfold tracelink_required, messageHeader_encoded_length, traceLinkSet_sbe_block_length; lia).
  change (traceLinkSet_group + 4) with 40.
  destruct (tracelink_message s b ps) as (Hm & Hdec & Hget); [by apply Forall_take|done..|].
  set (m := take (Z.to_nat (40 + 8 * Z.of_nat (length ps))) _) in *.
  unfold tp_tracelink_set_decode, messageHeader_schemaId, messageHeader_templateId,
    messageHeader_version, messageHeader_blockLength, messageHeader_encoded_length.
  rewrite sbe_group_wrap_spec, Hm. change traceLinkSet_group with 36.
  replace (_ <? 8) with false by (symmetry; apply Z.ltb_ge; lia).
  replace (36 + 4 <=? _) with true by (symmetry; apply Z.leb_le; lia).
  rewrite !Hget by lia.
  assert (H40 : 40 <= blen b) by lia. repeat sbe_field 40. cbn [w_val].
  rewrite (u16_small (ts_parent_count s)) by ulia. cbn [negb orb andb].
  replace (ts_trace_id s =? 0) with false by (symmetry; by apply Z.eqb_neq).
  replace (_ || (max_parents <? _)) with false
    by (symmetry; apply orb_false_iff; rewrite !Z.ltb_ge; lia).
  change (36 + 4) with 40. by rewrite Hps, Nat2Z.id, Hdec.
Qed.

Lemma record_all_validator p recs : tl_validator (record_all p recs) = tl_validator p.
Proof.
  revert p. induction recs as [|r recs IH]; intros p; [done|]. simpl. rewrite IH.
  unfold tp_producer_record_tracelink_descriptor. destruct (tl_entries p); [|done].
  by destruct (_ =? 0).
Qed.

(** ** Properties *)

(** A set that [tp_tracelink_set_encode] accepts is decoded to the same set
    by [tp_tracelink_set_decode], parents in order, from the encoded bytes
    alone, by any receiver with room for the parents. *)
Theorem tracelink_roundtrip `{Sbe} s b b' n max_parents :
  set_wf s -> ts_parent_count s <= max_parents ->
  tp_tracelink_set_encode (Some b) (Some s) = Ok (b', n) ->
  tp_tracelink_set_decode (Some (take (Z.to_nat n) b')) max_parents = Ok (Some (trimmed s)).
Proof. apply tracelink_roundtrip_aux. Qed.

Definition example_set : tp_tracelink_set_t :=
  {| ts_stream_id := 7; ts_epoch := 3; ts_seq := 9; ts_trace_id := 42;
     ts_parents := Some [11; 12; 13; 14]; ts_parent_count := 3 |}.

Lemma example_set_wf : set_wf example_set.
Proof.
  constructor; simpl; try ulia. exists [11; 12; 13; 14]. split_and!; [done| |simpl; lia..].
  repeat constructor; ulia.
Qed.

Theorem tracelink_roundtrip_witness :
  exists b' n, tp_tracelink_set_encode (Some (replicate 512 1)) (Some example_set) = Ok (b', n) /\
  tp_tracelink_set_decode (Some (take (Z.to_nat n) b')) 16 = Ok (Some (trimmed example_set)).
Proof.
  destruct (tp_tracelink_set_encode (Some (replicate 512 1)) (Some example_set)) as [[b' n]|] eqn:E;
    [|exfalso; revert E; vm_compute; discriminate].
  exists b', n. split; [reflexivity|].
  eapply tracelink_roundtrip; [exact example_set_wf| |exact E]. simpl. lia.
Defined.

(** A decoded set is well formed whatever the bytes were: the trace
    identifier is not 0, there are between one and [max_parents] parents, they
    are not 0 and pairwise distinct, so that the sender's own validation accepts
    the set. *)
Theorem tracelink_decode_sound `{Sbe} buffer max_parents s :
  tp_tracelink_set_decode buffer max_parents = Ok (Some s) ->
  ts_trace_id s <> 0 /\ 1 <= ts_parent_count s <= max_parents /\
  (exists l, ts_parents s = Some l /\ Z.of_nat (length l) = ts_parent_count s /\
             NoDup l /\ 0 ∉ l) /\
  tp_tracelink_validate_parents (ts_parents s) (ts_parent_count s) = true.
Proof.
  intros E. unfold tp_tracelink_set_decode in E. destruct buffer as [b|]; [|done].
  destruct (negb (blen b <? _)); [|done]. destruct (_ || _); [done|].
  destruct (negb (_ <? _)); [|done]. destruct (_ =? traceLinkSet_sbe_block_length); [|done].
  destruct (negb (_ =? 0)) eqn:Et; [|done].
  destruct (sbe_group_wrap _ _ _) as [[block count]|]; [|done].
  destruct (negb (_ || _)) eqn:Ec; [|done].
  destruct (decode_parents _ _ _ _ _) as [l|] eqn:Ed; simpl in E; [|done]. simplify_eq/=. bool_simp.
  apply decode_parents_sound in Ed as (Hnd & Hno0 & Hl); [|apply NoDup_nil_2|apply not_elem_of_nil].
  simpl in Hl. split_and!; try done; try lia.
  - exists l. split_and!; done || lia.
  - apply validate_parents_spec; [lia|]. rewrite <- Hl, firstn_all. split_and!; try done. lia.
Qed.

Theorem tracelink_decode_sound_witness :
  exists b' n s, tp_tracelink_set_encode (Some (replicate 512 1)) (Some example_set) = Ok (b', n) /\
    tp_tracelink_set_decode (Some b') 16 = Ok (Some s) /\ ts_trace_id s <> 0 /\
    1 <= ts_parent_count s <= 16.
Proof.
  destruct (tp_tracelink_set_encode (Some (replicate 512 1)) (Some example_set)) as [[b' n]|] eqn:E;
    [|exfalso; revert E; vm_compute; discriminate].
  destruct (tp_tracelink_set_decode (Some b') 16) as [[s|]|] eqn:Ed.
  - exists b', n, s. split; [reflexivity|]. split; [exact Ed|].
    destruct (tracelink_decode_sound (Some b') 16 s Ed) as (H1 & H2 & _). by split.
  - exfalso. revert Ed. injection E as <- <-. vm_compute. discriminate.
  - exfalso. revert Ed. injection E as <- <-. vm_compute. discriminate.
Defined.

(** A producer sends trace links only for frames it published.  After any
    series of published descriptors, [tp_producer_send_tracelink_set] with the
    default validator offers a message exactly for the trace identifier last
    recorded at that frame number's entry, for this stream and epoch, and what
    it offers decodes to the set. *)
Theorem tracelink_send_published `{Sbe} offer alloc_ok p recs s message max_parents :
  is_u32 (tl_header_nslots p) -> tl_header_nslots p <> 0 -> tl_validator p = VDefault ->
  set_wf s -> ts_seq s <> TP_NULL_U64 -> ts_parent_count s <= max_parents ->
  let p' := record_all (fst (tp_producer_init_tracelink_entries p true)) recs in
  tp_producer_send_tracelink_set offer alloc_ok (Some p') (Some s) = (Ok tt, Some message) ->
  last_record (tl_header_nslots p) recs (ts_seq s) None = Some (ts_seq s, ts_trace_id s) /\
  ts_stream_id s = tl_stream_id p' /\ ts_epoch s = tl_epoch p' /\
  tp_tracelink_set_decode (Some message) max_parents = Ok (Some (trimmed s)).
Proof.
  intros Hn Hnz Hv Hwf Hnull Hmax p' E.
  set (p0 := fst (tp_producer_init_tracelink_entries p true)) in *.
  assert (Hp0 : p0 = set_entries p (Some (replicate (Z.to_nat (tl_header_nslots p))
                       {| te_seq := TP_NULL_U64; te_trace_id := 0 |}))).
  { subst p0. unfold tp_producer_init_tracelink_entries.
    by replace (tl_header_nslots p =? 0) with false by (symmetry; by apply Z.eqb_neq). }
  assert (Hvp' : tl_validator p' = VDefault).
  { subst p'. rewrite record_all_validator, Hp0. done. }
  pose proof (sw_seq _ Hwf) as Hseq. pose proof (entry_index_lt _ (ts_seq s) Hn Hnz ltac:(ulia)).
  destruct (record_all_entries p0 recs (replicate (Z.to_nat (tl_header_nslots p))
              {| te_seq := TP_NULL_U64; te_trace_id := 0 |}) (ts_seq s) None
              {| te_seq := TP_NULL_U64; te_trace_id := 0 |})
    as (entries & e & He & Hn' & Hlk & Hent); rewrite ?Hp0; simpl; try done; try ulia.
  { by rewrite length_replicate. }
  { by apply lookup_replicate_2. }
  unfold tp_producer_send_tracelink_set in E. destruct (negb _); [done|].
  destruct (_ || _) eqn:Ese; [done|]. rewrite Hvp' in E. fold p' in He, Hn'.
  unfold tp_producer_default_tracelink_validator in E. rewrite He, Hn' in E.
  rewrite Hp0 in E, Hlk, Hent. cbn [set_entries tl_header_nslots] in E, Hlk, Hent.
  replace (tl_header_nslots p =? 0) with false in E by (symmetry; by apply Z.eqb_neq).
  cbn [negb] in E. rewrite Hlk in E. destruct (negb (_ || _)) eqn:Ev; [|done]. bool_simp.
  destruct (_ && _); [done|].
  destruct (tp_tracelink_set_encode _ _) as [[b n]|] eqn:Eenc; [|done].
  destruct (_ <? 0); [done|]. injection E as <-. split_and!; try done.
  - destruct (last_record _ _ _ _) as [[q t]|]; simpl in Hent; subst e; simpl in *; [congruence|].
    by destruct Hnull.
  - by eapply tracelink_roundtrip_aux.
Qed.

Definition example_tl_producer : tl_producer :=
  {| tl_stream_id := 7; tl_epoch := 3; tl_header_nslots := 8; tl_entries := NULL;
     tl_control_publication := true; tl_validator := VDefault |}.

Theorem tracelink_send_published_witness :
  let p' := record_all (fst (tp_producer_init_tracelink_entries example_tl_producer true))
              [(1, 40); (9, 42); (10, 43)] in
  exists message,
    tp_producer_send_tracelink_set (fun _ => 0) true (Some p') (Some example_set) =
      (Ok tt, Some message) /\
    tp_tracelink_set_decode (Some message) 16 = Ok (Some (trimmed example_set)).
Proof.
  destruct (tp_producer_send_tracelink_set (fun _ => 0) true
    (Some (record_all (fst (tp_producer_init_tracelink_entries example_tl_producer true))
             [(1, 40); (9, 42); (10, 43)])) (Some example_set)) as [[[]|] [message|]] eqn:E;
    [|exfalso; revert E; vm_compute; discriminate..].
  exists message. split; [exact E|].
  eapply (tracelink_send_published (fun _ => 0) true example_tl_producer
            [(1, 40); (9, 42); (10, 43)] example_set message 16); try done; try ulia.
  exact example_set_wf.
Defined.

(** The trace identifier of a frame follows from its parents: a single
    parent is passed on without a new identifier, a frame without parents gets a
    new one, a frame with several gets a new one and a set has to be sent, which
    the encoder's own validation then accepts; invalid parent lists, a missing
    or a failing generator are errors. *)
Theorem tracelink_resolve_spec generator l n r :
  0 <= n <= Z.of_nat (length l) ->
  tp_tracelink_resolve_trace_id generator (Some l) n = r ->
  match r with
  | Ok (id, emit) =>
    n <= TP_TRACELINK_MAX_PARENTS /\
    (n = 0 \/ NoDup (take (Z.to_nat n) l) /\ 0 ∉ take (Z.to_nat n) l) /\
    emit = (1 <? n) /\
    (n = 1 -> l !! 0%nat = Some id) /\
    (n <> 1 -> generator = Some id /\ id <> 0) /\
    (emit = true -> tp_tracelink_validate_parents (Some l) n = true)
  | Err e =>
    e = EINVAL /\
    (TP_TRACELINK_MAX_PARENTS < n \/
     0 < n /\ ~ (NoDup (take (Z.to_nat n) l) /\ 0 ∉ take (Z.to_nat n) l) \/
     n <> 1 /\ (generator = NULL \/ generator = Some 0))
  end.
Proof.
  intros Hn <-. unfold tp_tracelink_resolve_trace_id.
  pose proof (validate_parents_spec l n Hn) as Hv.
  remember (tp_tracelink_validate_parents (Some l) n) as v eqn:Ev.
  destruct (TP_TRACELINK_MAX_PARENTS <? n) eqn:Em; simpl; bool_simp; [auto|]. destruct v.
  - rewrite !orb_true_r. destruct (proj1 Hv eq_refl) as (Hnz & Hnd & H0).
    destruct (Z.eqb_spec n 1) as [->|Hn1].
    + split_and!; try done; auto. intros _. simpl. by apply list_lookup_lookup_total_lt; lia.
    + destruct generator as [id|]; [|auto 8]. destruct (Z.eqb_spec id 0) as [->|Hid]; simpl; [auto 8|].
      split_and!; auto; done.
  - destruct (Z.ltb_spec 0 n) as [Hpos|Hz]; simpl.
    + split; [done|]. right; left. split; [done|]. intros Hc.
      assert (false = true); [|done]. apply Hv. split; [lia|done].
    + assert (n = 0) as -> by lia. simpl.
      destruct generator as [id|]; [|auto 8]. destruct (Z.eqb_spec id 0) as [->|Hid]; simpl; [auto 8|].
      split_and!; auto; done.
Qed.

Theorem tracelink_resolve_spec_witness :
  tp_tracelink_resolve_trace_id (Some 77) (Some [5; 6; 7]) 2 = Ok (77, true) /\
  tp_tracelink_validate_parents (Some [5; 6; 7]) 2 = true.
Proof.
  split; [reflexivity|].
  pose proof (tracelink_resolve_spec (Some 77) [5; 6; 7] 2 _ ltac:(simpl; lia) eq_refl) as P.
  simpl in P. by apply P.
Defined.
