(* ===== verification/MergeMap.v ===== *)
(** * MergeMap: join-barrier merge maps (tp_merge_map.c)

    The codecs of the sequence and timestamp merge-map announcements and of the
    requests, and the registry that keeps the newest map of each output stream. *)

From Stdlib Require Import ZArith Lia Bool.
From S2P Require Import Prelude Sbe.

(** ** Rules and maps *)

Definition TP_MERGE_RULE_OFFSET : Z := 0.
Definition TP_MERGE_RULE_WINDOW : Z := 1.
Definition TP_MERGE_TIME_OFFSET_NS : Z := 0.
Definition TP_MERGE_TIME_WINDOW_NS : Z := 1.
Definition TP_TIMESTAMP_SOURCE_FRAME_DESCRIPTOR : Z := 1.
Definition TP_TIMESTAMP_SOURCE_SLOT_HEADER : Z := 2.

Record tp_sequence_merge_rule_t := {
  sr_input_stream_id : Z;
  sr_rule_type : Z;
  sr_offset : Z;                 (* int32_t *)
  sr_window_size : Z;
}.

Record tp_timestamp_merge_rule_t := {
  tr_input_stream_id : Z;
  tr_rule_type : Z;
  tr_timestamp_source : Z;
  tr_offset_ns : Z;              (* int64_t *)
  tr_window_ns : Z;
}.

(** [rules] is the array behind the pointer; its length is [rule_count]. *)
Record tp_sequence_merge_map_t := {
  sm_out_stream_id : Z;
  sm_epoch : Z;
  sm_stale_timeout_ns : Z;
  sm_rules : list tp_sequence_merge_rule_t;
}.

Record tp_timestamp_merge_map_t := {
  tm_out_stream_id : Z;
  tm_epoch : Z;
  tm_stale_timeout_ns : Z;
  tm_clock_domain : Z;
  tm_lateness_ns : Z;
  tm_rules : list tp_timestamp_merge_rule_t;
}.

Definition tp_sequence_rule_valid (r : tp_sequence_merge_rule_t) : bool :=
  if sr_rule_type r =? TP_MERGE_RULE_OFFSET then true
  else if sr_rule_type r =? TP_MERGE_RULE_WINDOW then negb (sr_window_size r =? 0)
  else false.

Definition tp_timestamp_rule_valid (r : tp_timestamp_merge_rule_t) : bool :=
  if negb (tr_timestamp_source r =? TP_TIMESTAMP_SOURCE_FRAME_DESCRIPTOR) &&
     negb (tr_timestamp_source r =? TP_TIMESTAMP_SOURCE_SLOT_HEADER) then false
  else if tr_rule_type r =? TP_MERGE_TIME_OFFSET_NS then true
  else if tr_rule_type r =? TP_MERGE_TIME_WINDOW_NS then negb (tr_window_ns r =? 0)
  else false.

(** ** The schema (join-barrier-schema.xml) *)

Definition merge_schema_id : Z := 903.
Definition merge_schema_version : Z := 1.
Definition sequenceMergeMapAnnounce_template : Z := 1.
Definition sequenceMergeMapRequest_template : Z := 2.
Definition timestampMergeMapAnnounce_template : Z := 3.
Definition timestampMergeMapRequest_template : Z := 4.
Definition sequenceMergeMapAnnounce_block : Z := 20.
Definition timestampMergeMapAnnounce_block : Z := 29.
Definition mergeMapRequest_block : Z := 12.
Definition sequence_rule_size : Z := 13.
Definition timestamp_rule_size : Z := 22.
Definition int32_null : Z := - 2 ^ 31.
Definition int64_null : Z := - 2 ^ 63.
Definition mergeRuleType_values : list Z := [0; 1].
Definition clockDomain_values : list Z := [1; 2].
Definition timestampSource_values : list Z := [1; 2].
Definition enum8_null : Z := 255.

(** The guards every decoder starts with: [Ok false] is another message. *)
Definition merge_header_check `{Sbe} (b : bytes) (template block : Z) : res bool :=
  guard! negb (blen b <? messageHeader_encoded_length) else EINVAL in
  if negb (messageHeader_schemaId b =? merge_schema_id) ||
     negb (messageHeader_templateId b =? template) then Ok false
  else
    guard! negb (merge_schema_version <? messageHeader_version b) else EINVAL in
    guard! messageHeader_blockLength b =? block else EINVAL in
    Ok true.

(** ** Sequence maps *)

Section Codecs.
Context `{Sbe}.

Definition sequence_rule_writes (r : tp_sequence_merge_rule_t) : list write :=
  [Write 0 4 (sr_input_stream_id r); Write 4 1 (sr_rule_type r)] ++
  (if sr_rule_type r =? TP_MERGE_RULE_OFFSET
   then [Write 5 4 (u32 (sr_offset r)); Write 9 4 TP_NULL_U32]
   else [Write 9 4 (sr_window_size r); Write 5 4 (u32 int32_null)]).

Definition sequence_announce_writes (m : tp_sequence_merge_map_t) : list write :=
  messageHeader_writes sequenceMergeMapAnnounce_block sequenceMergeMapAnnounce_template
    merge_schema_id merge_schema_version ++
  [Write (8 + 0) 4 (sm_out_stream_id m); Write (8 + 4) 8 (sm_epoch m);
   Write (8 + 12) 8 (if sm_stale_timeout_ns m =? TP_NULL_U64 then TP_NULL_U64
                     else sm_stale_timeout_ns m)] ++
  group_header_writes (8 + sequenceMergeMapAnnounce_block) sequence_rule_size
    (u16 (Z.of_nat (length (sm_rules m)))).

(** The buffer and the encoded length.  The encoder does not check the buffer's
    size; the theorems below assume that the message fits. *)
Definition tp_sequence_merge_map_encode (buffer : ptr bytes) (map : ptr tp_sequence_merge_map_t)
    : res (bytes * Z) :=
  match buffer, map with
  | NULL, _ | _, NULL => Err EINVAL
  | Some b, Some m =>
    let count := Z.of_nat (length (sm_rules m)) in
    guard! negb (65535 <? count) else EINVAL in
    guard! forallb tp_sequence_rule_valid (sm_rules m) else EINVAL in
    let base := 8 + sequenceMergeMapAnnounce_block + 4 in
    Ok (sbe_puts (group_writes sequence_rule_size sequence_rule_writes base (sm_rules m))
          (sbe_puts (sequence_announce_writes m) b),
        base + sequence_rule_size * count)
  end.

(** The body of the decoding loop, for the entry at [off]. *)
Definition decode_sequence_rule (b : bytes) (off : Z) : res tp_sequence_merge_rule_t :=
  match sbe_enum mergeRuleType_values enum8_null (sbe_get 1 b (off + 4)) with
  | None => Err EINVAL
  | Some rule_type =>
    let stream := sbe_get 4 b (off + 0) in
    let offset := i32 (sbe_get 4 b (off + 5)) in
    let window := sbe_get 4 b (off + 9) in
    if rule_type =? TP_MERGE_RULE_OFFSET then
      guard! negb ((offset =? int32_null) || negb (window =? TP_NULL_U32)) else EINVAL in
      Ok {| sr_input_stream_id := stream; sr_rule_type := rule_type;
            sr_offset := offset; sr_window_size := 0 |}
    else if rule_type =? TP_MERGE_RULE_WINDOW then
      guard! negb ((window =? TP_NULL_U32) || negb (offset =? int32_null)) else EINVAL in
      guard! negb (window =? 0) else EINVAL in
      Ok {| sr_input_stream_id := stream; sr_rule_type := rule_type;
            sr_offset := 0; sr_window_size := window |}
    else Err EINVAL
  end.

Definition tp_sequence_merge_map_decode (buffer : ptr bytes) (max_rules : Z)
    : res (option tp_sequence_merge_map_t) :=
  match buffer with
  | NULL => Err EINVAL
  | Some b =>
    let! known := merge_header_check b sequenceMergeMapAnnounce_template
                    sequenceMergeMapAnnounce_block in
    if negb known then Ok None
    else
      let stale := sbe_get 8 b (8 + 12) in
      match sbe_group_wrap b (8 + sequenceMergeMapAnnounce_block) (blen b) with
      | None => Err EINVAL
      | Some (block, count) =>
        guard! negb (max_rules <? count) else EINVAL in
        let! rules := decode_group decode_sequence_rule b
                        (8 + sequenceMergeMapAnnounce_block + 4) block (Z.to_nat count) in
        Ok (Some {| sm_out_stream_id := sbe_get 4 b (8 + 0); sm_epoch := sbe_get 8 b (8 + 4);
                    sm_stale_timeout_ns := if stale =? TP_NULL_U64 then TP_NULL_U64 else stale;
                    sm_rules := rules |})
      end
  end.

(** ** Timestamp maps *)

Definition timestamp_rule_writes (r : tp_timestamp_merge_rule_t) : list write :=
  [Write 0 4 (tr_input_stream_id r); Write 4 1 (tr_rule_type r);
   Write 5 1 (tr_timestamp_source r)] ++
  (if tr_rule_type r =? TP_MERGE_TIME_OFFSET_NS
   then [Write 6 8 (u64 (tr_offset_ns r)); Write 14 8 TP_NULL_U64]
   else [Write 14 8 (tr_window_ns r); Write 6 8 (u64 int64_null)]).

Definition timestamp_announce_writes (m : tp_timestamp_merge_map_t) : list write :=
  messageHeader_writes timestampMergeMapAnnounce_block timestampMergeMapAnnounce_template
    merge_schema_id merge_schema_version ++
  [Write (8 + 0) 4 (tm_out_stream_id m); Write (8 + 4) 8 (tm_epoch m);
   Write (8 + 20) 1 (tm_clock_domain m);
   Write (8 + 12) 8 (if tm_stale_timeout_ns m =? TP_NULL_U64 then TP_NULL_U64
                     else tm_stale_timeout_ns m);
   Write (8 + 21) 8 (if tm_lateness_ns m =? TP_NULL_U64 then TP_NULL_U64
                     else tm_lateness_ns m)] ++
  group_header_writes (8 + timestampMergeMapAnnounce_block) timestamp_rule_size
    (u16 (Z.of_nat (length (tm_rules m)))).

Definition tp_timestamp_merge_map_encode (buffer : ptr bytes)
    (map : ptr tp_timestamp_merge_map_t) : res (bytes * Z) :=
  match buffer, map with
  | NULL, _ | _, NULL => Err EINVAL
  | Some b, Some m =>
    let count := Z.of_nat (length (tm_rules m)) in
    guard! negb (65535 <? count) else EINVAL in
    guard! forallb tp_timestamp_rule_valid (tm_rules m) else EINVAL in
    let base := 8 + timestampMergeMapAnnounce_block + 4 in
    Ok (sbe_puts (group_writes timestamp_rule_size timestamp_rule_writes base (tm_rules m))
          (sbe_puts (timestamp_announce_writes m) b),
        base + timestamp_rule_size * count)
  end.

Definition decode_timestamp_rule (b : bytes) (off : Z) : res tp_timestamp_merge_rule_t :=
  match sbe_enum mergeRuleType_values enum8_null (sbe_get 1 b (off + 4)) with
  | None => Err EINVAL
  | Some rule_type =>
    match sbe_enum timestampSource_values enum8_null (sbe_get 1 b (off + 5)) with
    | None => Err EINVAL
    | Some source =>
      let stream := sbe_get 4 b (off + 0) in
      let offset := i64 (sbe_get 8 b (off + 6)) in
      let window := sbe_get 8 b (off + 14) in
      if rule_type =? TP_MERGE_TIME_OFFSET_NS then
        guard! negb ((offset =? int64_null) || negb (window =? TP_NULL_U64)) else EINVAL in
        Ok {| tr_input_stream_id := stream; tr_rule_type := rule_type;
              tr_timestamp_source := source; tr_offset_ns := offset; tr_window_ns := 0 |}
      else if rule_type =? TP_MERGE_TIME_WINDOW_NS then
        guard! negb ((window =? TP_NULL_U64) || negb (offset =? int64_null)) else EINVAL in
        guard! negb (window =? 0) else EINVAL in
        Ok {| tr_input_stream_id := stream; tr_rule_type := rule_type;
              tr_timestamp_source := source; tr_offset_ns := 0; tr_window_ns := window |}
      else Err EINVAL
    end
  end.

Definition tp_timestamp_merge_map_decode (buffer : ptr bytes) (max_rules : Z)
    : res (option tp_timestamp_merge_map_t) :=
  match buffer with
  | NULL => Err EINVAL
  | Some b =>
    let! known := merge_header_check b timestampMergeMapAnnounce_template
                    timestampMergeMapAnnounce_block in
    if negb known then Ok None
    else
      let stale := sbe_get 8 b (8 + 12) in
      let lateness := sbe_get 8 b (8 + 21) in
      match sbe_enum clockDomain_values enum8_null (sbe_get 1 b (8 + 20)) with
      | None => Err EINVAL
      | Some domain =>
        match sbe_group_wrap b (8 + timestampMergeMapAnnounce_block) (blen b) with
        | None => Err EINVAL
        | Some (block, count) =>
          guard! negb (max_rules <? count) else EINVAL in
          let! rules := decode_group decode_timestamp_rule b
                          (8 + timestampMergeMapAnnounce_block + 4) block (Z.to_nat count) in
          Ok (Some {| tm_out_stream_id := sbe_get 4 b (8 + 0); tm_epoch := sbe_get 8 b (8 + 4);
                      tm_stale_timeout_ns := if stale =? TP_NULL_U64 then TP_NULL_U64 else stale;
                      tm_clock_domain := u8 domain;
                      tm_lateness_ns := if lateness =? TP_NULL_U64 then TP_NULL_U64 else lateness;
                      tm_rules := rules |})
        end
      end
  end.

(** ** Requests *)

Definition request_writes (template out_stream_id epoch : Z) : list write :=
  messageHeader_writes mergeMapRequest_block template merge_schema_id merge_schema_version ++
  [Write (8 + 0) 4 out_stream_id; Write (8 + 4) 8 epoch].

Definition merge_request_encode (template : Z) (buffer : ptr bytes) (out_stream_id epoch : Z)
    : res (bytes * Z) :=
  match buffer with
  | NULL => Err EINVAL
  | Some b => Ok (sbe_puts (request_writes template out_stream_id epoch) b,
                  mergeMapRequest_block + messageHeader_encoded_length)
  end.
Definition tp_sequence_merge_map_request_encode :=
  merge_request_encode sequenceMergeMapRequest_template.
Definition tp_timestamp_merge_map_request_encode :=
  merge_request_encode timestampMergeMapRequest_template.

Definition merge_request_decode (template : Z) (buffer : ptr bytes) : res (option (Z * Z)) :=
  match buffer with
  | NULL => Err EINVAL
  | Some b =>
    let! known := merge_header_check b template mergeMapRequest_block in
    if negb known then Ok None else Ok (Some (sbe_get 4 b (8 + 0), sbe_get 8 b (8 + 4)))
  end.
Definition tp_sequence_merge_map_request_decode :=
  merge_request_decode sequenceMergeMapRequest_template.
Definition tp_timestamp_merge_map_request_decode :=
  merge_request_decode timestampMergeMapRequest_template.
End Codecs.

(** ** The registry *)

Inductive tp_merge_map_kind_t :=
  | TP_MERGE_MAP_SEQUENCE
  | TP_MERGE_MAP_TIMESTAMP.

#[export] Instance kind_eq_dec : EqDecision tp_merge_map_kind_t.
Proof. solve_decision. Defined.

(** An entry; [None] is an entry that is not in use ([tp_merge_map_entry_clear]
    sets every field to 0).  The rules are the entry's own copy, and only the
    map of the entry's kind is set. *)
Inductive merge_map :=
  | SequenceMap (m : tp_sequence_merge_map_t)
  | TimestampMap (m : tp_timestamp_merge_map_t).

Record tp_merge_map_entry_t := {
  me_kind : tp_merge_map_kind_t;
  me_out_stream_id : Z;
  me_epoch : Z;
  me_last_announce_ns : Z;
  me_map : merge_map;
}.

(** [entries] (NULL after close) and their number, the capacity. *)
Abbreviation tp_merge_map_registry_t := (ptr (list (option tp_merge_map_entry_t))).

Definition tp_merge_map_registry_init (registry : ptr unit) (capacity : Z) (alloc_ok : bool)
    : res tp_merge_map_registry_t :=
  match registry with
  | NULL => Err EINVAL
  | Some _ =>
    guard! negb (capacity =? 0) else EINVAL in
    guard! alloc_ok else ENOMEM in
    Ok (Some (replicate (Z.to_nat capacity) None))
  end.

Definition tp_merge_map_registry_close (registry : ptr tp_merge_map_registry_t)
    : ptr tp_merge_map_registry_t :=
  match registry with
  | NULL => NULL
  | Some _ => Some NULL
  end.

Definition entry_matches (kind : tp_merge_map_kind_t) (stream epoch : Z)
    (e : option tp_merge_map_entry_t) : bool :=
  match e with
  | Some e => bool_decide (me_kind e = kind) && (me_out_stream_id e =? stream) &&
              (me_epoch e =? epoch)
  | None => false
  end.

Definition tp_merge_map_registry_find_entry (registry : tp_merge_map_registry_t)
    (kind : tp_merge_map_kind_t) (stream epoch : Z) : option tp_merge_map_entry_t :=
  match registry with
  | NULL => None
  | Some entries => i ← find_index (entry_matches kind stream epoch) entries; entries !!! i
  end.

(** The entry with this key, or the first free one. *)
Definition tp_merge_map_registry_find_slot (entries : list (option tp_merge_map_entry_t))
    (kind : tp_merge_map_kind_t) (stream epoch : Z) : option nat :=
  match find_index (entry_matches kind stream epoch) entries with
  | Some i => Some i
  | None => find_index (fun e => bool_decide (e = None)) entries
  end.

Definition stale_entry (kind : tp_merge_map_kind_t) (stream epoch : Z) (e : tp_merge_map_entry_t)
    : bool :=
  bool_decide (me_kind e = kind) && (me_out_stream_id e =? stream) && negb (me_epoch e =? epoch).

Definition tp_merge_map_registry_invalidate_stream (entries : list (option tp_merge_map_entry_t))
    (kind : tp_merge_map_kind_t) (stream epoch : Z) : list (option tp_merge_map_entry_t) :=
  map (fun o => match o with
                | Some e => if stale_entry kind stream epoch e then None else o
                | None => None
                end) entries.

(** The part the two upserts share: [alloc_ok] is the allocation of the rules. *)
Definition registry_upsert (entries : list (option tp_merge_map_entry_t))
    (kind : tp_merge_map_kind_t) (stream epoch : Z) (rule_count : nat) (alloc_ok : bool)
    (now_ns : Z) (m : merge_map) : list (option tp_merge_map_entry_t) * res unit :=
  let entries := tp_merge_map_registry_invalidate_stream entries kind stream epoch in
  match tp_merge_map_registry_find_slot entries kind stream epoch with
  | None => (entries, Err ENOMEM)
  | Some i =>
    if (0 <? Z.of_nat rule_count) && negb alloc_ok then (<[i := None]> entries, Err ENOMEM)
    else (<[i := Some {| me_kind := kind; me_out_stream_id := stream; me_epoch := epoch;
                         me_last_announce_ns := now_ns; me_map := m |}]> entries, Ok tt)
  end.

(** [map->rules] NULL is an error; a map in the model always has its array. *)
Definition tp_merge_map_registry_upsert_sequence (registry : ptr tp_merge_map_registry_t)
    (map : ptr tp_sequence_merge_map_t) (alloc_ok : bool) (now_ns : Z)
    : ptr tp_merge_map_registry_t * res unit :=
  match registry, map with
  | NULL, _ | _, NULL => (registry, Err EINVAL)
  | Some NULL, Some _ => (registry, Err ENOMEM)   (* closed: no slot *)
  | Some (Some entries), Some m =>
    let '(entries, r) := registry_upsert entries TP_MERGE_MAP_SEQUENCE (sm_out_stream_id m)
                           (sm_epoch m) (length (sm_rules m)) alloc_ok now_ns (SequenceMap m) in
    (Some (Some entries), r)
  end.

Definition tp_merge_map_registry_upsert_timestamp (registry : ptr tp_merge_map_registry_t)
    (map : ptr tp_timestamp_merge_map_t) (alloc_ok : bool) (now_ns : Z)
    : ptr tp_merge_map_registry_t * res unit :=
  match registry, map with
  | NULL, _ | _, NULL => (registry, Err EINVAL)
  | Some NULL, Some _ => (registry, Err ENOMEM)   (* closed: no slot *)
  | Some (Some entries), Some m =>
    let '(entries, r) := registry_upsert entries TP_MERGE_MAP_TIMESTAMP (tm_out_stream_id m)
                           (tm_epoch m) (length (tm_rules m)) alloc_ok now_ns (TimestampMap m) in
    (Some (Some entries), r)
  end.

Definition tp_merge_map_registry_find_sequence (registry : tp_merge_map_registry_t)
    (stream epoch : Z) : ptr tp_sequence_merge_map_t :=
  e ← tp_merge_map_registry_find_entry registry TP_MERGE_MAP_SEQUENCE stream epoch;
  match me_map e with SequenceMap m => Some m | TimestampMap _ => None end.

Definition tp_merge_map_registry_find_timestamp (registry : tp_merge_map_registry_t)
    (stream epoch : Z) : ptr tp_timestamp_merge_map_t :=
  e ← tp_merge_map_registry_find_entry registry TP_MERGE_MAP_TIMESTAMP stream epoch;
  match me_map e with TimestampMap m => Some m | SequenceMap _ => None end.

(** ** Lemmas: the codecs *)

Section CodecLemmas.
Context `{Sbe}.

Definition sequence_rule_wf (r : tp_sequence_merge_rule_t) : Prop :=
  is_u32 (sr_input_stream_id r) /\ is_i32 (sr_offset r) /\ is_u32 (sr_window_size r).

Record sequence_map_wf (m : tp_sequence_merge_map_t) : Prop := {
  smw_stream : is_u32 (sm_out_stream_id m);
  smw_epoch : is_u64 (sm_epoch m);
  smw_stale : is_u64 (sm_stale_timeout_ns m);
  smw_rules : Forall sequence_rule_wf (sm_rules m);
}.

(** The null values of the optional fields cannot be sent. *)
Definition sequence_rule_sendable (r : tp_sequence_merge_rule_t) : Prop :=
  if sr_rule_type r =? TP_MERGE_RULE_OFFSET then sr_offset r <> int32_null
  else sr_window_size r <> TP_NULL_U32.

(** Only the field the rule's type uses is sent. *)
Definition sequence_rule_norm (r : tp_sequence_merge_rule_t) : tp_sequence_merge_rule_t :=
  if sr_rule_type r =? TP_MERGE_RULE_OFFSET
  then {| sr_input_stream_id := sr_input_stream_id r; sr_rule_type := sr_rule_type r;
          sr_offset := sr_offset r; sr_window_size := 0 |}
  else {| sr_input_stream_id := sr_input_stream_id r; sr_rule_type := sr_rule_type r;
          sr_offset := 0; sr_window_size := sr_window_size r |}.

Definition sequence_map_norm (m : tp_sequence_merge_map_t) : tp_sequence_merge_map_t :=
  {| sm_out_stream_id := sm_out_stream_id m; sm_epoch := sm_epoch m;
     sm_stale_timeout_ns := sm_stale_timeout_ns m;
     sm_rules := map sequence_rule_norm (sm_rules m) |}.

Lemma sequence_rule_in r : writes_in sequence_rule_size (sequence_rule_writes r) = true.
Proof. unfold sequence_rule_writes. by destruct (_ =? _). Qed.

Lemma sequence_rule_type r :
  tp_sequence_rule_valid r = true ->
  sr_rule_type r = TP_MERGE_RULE_OFFSET \/
  sr_rule_type r = TP_MERGE_RULE_WINDOW /\ sr_window_size r <> 0.
Proof.
  unfold tp_sequence_rule_valid. destruct (Z.eqb_spec (sr_rule_type r) TP_MERGE_RULE_OFFSET); [auto|].
  destruct (Z.eqb_spec (sr_rule_type r) TP_MERGE_RULE_WINDOW); [|done].
  intros ?. bool_simp. auto.
Qed.

Lemma sequence_rule_fit r :
  tp_sequence_rule_valid r = true -> sequence_rule_wf r ->
  Forall write_fits (sequence_rule_writes r).
Proof.
  intros Hv (? & ? & ?). unfold sequence_rule_writes.
  destruct (sequence_rule_type r Hv) as [-> | [-> _]]; cbn [Z.eqb]; simpl app; write_fits_tac.
Qed.

Lemma eqb_false x y : x <> y -> (x =? y) = false.
Proof. apply Z.eqb_neq. Qed.

Lemma decode_sequence_rule_ok r b off :
  tp_sequence_rule_valid r = true -> sequence_rule_wf r -> sequence_rule_sendable r ->
  (forall o w v, 0 <= w -> 0 <= o -> o + w <= sequence_rule_size ->
     last_write (sequence_rule_writes r) o w (inr true) = inl v -> sbe_get w b (off + o) = v) ->
  decode_sequence_rule b off = Ok (sequence_rule_norm r).
Proof.
  intros Hv (Hs & Ho & Hw) Hsend Hget. unfold decode_sequence_rule, sequence_rule_norm.
  unfold sequence_rule_sendable, sequence_rule_writes in *.
  destruct (sequence_rule_type r Hv) as [Ht | [Ht Hnz]]; rewrite Ht in *.
  - erewrite (Hget 4 1), (Hget 0 4), (Hget 5 4), (Hget 9 4) by (done || reflexivity).
    cbn [w_val]. rewrite sbe_enum_valid by in_compute. rewrite i32_u32 by done. simpl in Hsend |- *.
    by rewrite (eqb_false _ _ Hsend).
  - erewrite (Hget 4 1), (Hget 0 4), (Hget 5 4), (Hget 9 4) by (done || reflexivity).
    cbn [w_val]. rewrite sbe_enum_valid by in_compute. simpl in Hsend |- *.
    by rewrite (eqb_false _ _ Hsend), (eqb_false _ _ Hnz).
Qed.

Lemma sequence_announce_fit m :
  sequence_map_wf m -> Forall write_fits (sequence_announce_writes m).
Proof.
  intros []. unfold sequence_announce_writes, messageHeader_writes, group_header_writes.
  cbn [app]. destruct (_ =? _); write_fits_tac.
Qed.

Lemma null_same x n : (if x =? n then n else x) = x.
Proof. by destruct (Z.eqb_spec x n). Qed.

Lemma sequence_map_roundtrip_aux m b b' n max_rules :
  sequence_map_wf m -> Forall sequence_rule_sendable (sm_rules m) ->
  8 + 20 + 4 + 13 * Z.of_nat (length (sm_rules m)) <= blen b ->
  Z.of_nat (length (sm_rules m)) <= max_rules ->
  tp_sequence_merge_map_encode (Some b) (Some m) = Ok (b', n) ->
  tp_sequence_merge_map_decode (Some (take (Z.to_nat n) b')) max_rules =
    Ok (Some (sequence_map_norm m)).
Proof.
  intros Hwf Hsend Hb Hmax E. pose proof (sequence_announce_fit m Hwf) as Hfit.
  unfold tp_sequence_merge_map_encode in E. destruct (negb (65535 <? _)) eqn:Ec; [|done].
  destruct (forallb _ _) eqn:Ev; [|done]. bool_simp. injection E as <- <-.
  rewrite forallb_forall in Ev. pose proof (smw_rules _ Hwf) as Hrules.
  rewrite List.Forall_forall in Hsend, Hrules. set (rs := sm_rules m) in *.
  change (8 + sequenceMergeMapAnnounce_block + 4) with 32.
  destruct (group_message sequence_rule_size sequence_rule_writes ltac:(done) sequence_rule_in 32
              (sequence_announce_writes m) b rs) as (Hm & Hget & Hent); [done|done| |].
  { intros r Hr. apply sequence_rule_fit; auto. }
  set (msg := take (Z.to_nat (32 + sequence_rule_size * _)) _) in *.
  assert (Hdec : decode_group decode_sequence_rule msg 32 sequence_rule_size (length rs) =
                 Ok (map sequence_rule_norm rs)).
  { apply decode_group_ok; [done|unfold sequence_rule_size in *; lia|]. intros i r Hi.
    pose proof (list_elem_of_lookup_2 _ _ _ Hi) as Hin%list_elem_of_In.
    apply decode_sequence_rule_ok; auto. intros o w v ? ? ? Hl. by eapply Hent. }
  unfold tp_sequence_merge_map_decode, merge_header_check, messageHeader_schemaId,
    messageHeader_templateId, messageHeader_version, messageHeader_blockLength,
    messageHeader_encoded_length.
  rewrite sbe_group_wrap_spec, Hm. unfold sequence_rule_size, sequenceMergeMapAnnounce_block in *.
  replace (_ <? 8) with false by (symmetry; apply Z.ltb_ge; lia).
  replace (8 + 20 + 4 <=? _) with true by (symmetry; apply Z.leb_le; lia).
  rewrite !Hget by lia. assert (H32 : 32 <= blen b) by lia. repeat sbe_field 32.
  cbn [w_val]. fold rs. rewrite (u16_small (Z.of_nat _)), !null_same by ulia.
  change (8 + 20 + 4) with 32 in *. change sequence_rule_size with 13. rewrite Nat2Z.id, Hdec.
  replace (max_rules <? _) with false by (symmetry; apply Z.ltb_ge; lia). done.
Qed.

Definition timestamp_rule_wf (r : tp_timestamp_merge_rule_t) : Prop :=
  is_u32 (tr_input_stream_id r) /\ is_i64 (tr_offset_ns r) /\ is_u64 (tr_window_ns r).

Record timestamp_map_wf (m : tp_timestamp_merge_map_t) : Prop := {
  tmw_stream : is_u32 (tm_out_stream_id m);
  tmw_epoch : is_u64 (tm_epoch m);
  tmw_stale : is_u64 (tm_stale_timeout_ns m);
  tmw_domain : tm_clock_domain m ∈ clockDomain_values;
  tmw_lateness : is_u64 (tm_lateness_ns m);
  tmw_rules : Forall timestamp_rule_wf (tm_rules m);
}.

(** The null values of the optional fields cannot be sent. *)
Definition timestamp_rule_sendable (r : tp_timestamp_merge_rule_t) : Prop :=
  if tr_rule_type r =? TP_MERGE_TIME_OFFSET_NS then tr_offset_ns r <> int64_null
  else tr_window_ns r <> TP_NULL_U64.

(** Only the field the rule's type uses is sent. *)
Definition timestamp_rule_norm (r : tp_timestamp_merge_rule_t) : tp_timestamp_merge_rule_t :=
  if tr_rule_type r =? TP_MERGE_TIME_OFFSET_NS
  then {| tr_input_stream_id := tr_input_stream_id r; tr_rule_type := tr_rule_type r;
          tr_timestamp_source := tr_timestamp_source r;
          tr_offset_ns := tr_offset_ns r; tr_window_ns := 0 |}
  else {| tr_input_stream_id := tr_input_stream_id r; tr_rule_type := tr_rule_type r;
          tr_timestamp_source := tr_timestamp_source r;
          tr_offset_ns := 0; tr_window_ns := tr_window_ns r |}.

Definition timestamp_map_norm (m : tp_timestamp_merge_map_t) : tp_timestamp_merge_map_t :=
  {| tm_out_stream_id := tm_out_stream_id m; tm_epoch := tm_epoch m;
     tm_stale_timeout_ns := tm_stale_timeout_ns m; tm_clock_domain := tm_clock_domain m;
     tm_lateness_ns := tm_lateness_ns m;
     tm_rules := map timestamp_rule_norm (tm_rules m) |}.

Lemma timestamp_rule_in r : writes_in timestamp_rule_size (timestamp_rule_writes r) = true.
Proof. unfold timestamp_rule_writes. by destruct (_ =? _). Qed.

Lemma timestamp_rule_type r :
  tp_timestamp_rule_valid r = true ->
  tr_timestamp_source r ∈ timestampSource_values /\
  (tr_rule_type r = TP_MERGE_TIME_OFFSET_NS \/
   tr_rule_type r = TP_MERGE_TIME_WINDOW_NS /\ tr_window_ns r <> 0).
Proof.
  unfold tp_timestamp_rule_valid. destruct (_ && _) eqn:Es; [done|].
  assert (Hs : tr_timestamp_source r ∈ timestampSource_values).
  { apply andb_false_iff in Es as [Es|Es]; bool_simp; rewrite Es; in_compute. }
  destruct (Z.eqb_spec (tr_rule_type r) TP_MERGE_TIME_OFFSET_NS); [auto|].
  destruct (Z.eqb_spec (tr_rule_type r) TP_MERGE_TIME_WINDOW_NS); [|done].
  intros ?. bool_simp. auto.
Qed.

Lemma timestamp_rule_fit r :
  tp_timestamp_rule_valid r = true -> timestamp_rule_wf r ->
  Forall write_fits (timestamp_rule_writes r).
Proof.
  intros Hv (? & ? & ?). unfold timestamp_rule_writes.
  destruct (timestamp_rule_type r Hv) as [Hs Ht].
  assert (is_u8 (tr_timestamp_source r)) by (unfold timestampSource_values in Hs; in_cases; ulia).
  destruct Ht as [-> | [-> _]]; cbn [Z.eqb]; simpl app; write_fits_tac.
Qed.

Lemma decode_timestamp_rule_ok r b off :
  tp_timestamp_rule_valid r = true -> timestamp_rule_wf r -> timestamp_rule_sendable r ->
  (forall o w v, 0 <= w -> 0 <= o -> o + w <= timestamp_rule_size ->
     last_write (timestamp_rule_writes r) o w (inr true) = inl v -> sbe_get w b (off + o) = v) ->
  decode_timestamp_rule b off = Ok (timestamp_rule_norm r).
Proof.
  intros Hv (Hs & Ho & Hw) Hsend Hget. unfold decode_timestamp_rule, timestamp_rule_norm.
  unfold timestamp_rule_sendable, timestamp_rule_writes in *.
  destruct (timestamp_rule_type r Hv) as [Hsrc [Ht | [Ht Hnz]]]; rewrite Ht in *.
  - erewrite (Hget 4 1), (Hget 5 1), (Hget 0 4), (Hget 6 8), (Hget 14 8) by (done || reflexivity).
    cbn [w_val]. rewrite (sbe_enum_valid mergeRuleType_values), (sbe_enum_valid timestampSource_values) by
      first [done|in_compute]. rewrite i64_u64 by done. simpl in Hsend |- *.
    by rewrite (eqb_false _ _ Hsend).
  - erewrite (Hget 4 1), (Hget 5 1), (Hget 0 4), (Hget 6 8), (Hget 14 8) by (done || reflexivity).
    cbn [w_val]. rewrite (sbe_enum_valid mergeRuleType_values), (sbe_enum_valid timestampSource_values) by
      first [done|in_compute]. simpl in Hsend |- *.
    by rewrite (eqb_false _ _ Hsend), (eqb_false _ _ Hnz).
Qed.

Lemma timestamp_announce_fit m :
  timestamp_map_wf m -> Forall write_fits (timestamp_announce_writes m).
Proof.
  intros []. unfold timestamp_announce_writes, messageHeader_writes, group_header_writes.
  assert (is_u8 (tm_clock_domain m)) by (unfold clockDomain_values in *; in_cases; ulia).
  rewrite !null_same. cbn [app]. write_fits_tac.
Qed.

Lemma timestamp_map_roundtrip_aux m b b' n max_rules :
  timestamp_map_wf m -> Forall timestamp_rule_sendable (tm_rules m) ->
  8 + 29 + 4 + 22 * Z.of_nat (length (tm_rules m)) <= blen b ->
  Z.of_nat (length (tm_rules m)) <= max_rules ->
  tp_timestamp_merge_map_encode (Some b) (Some m) = Ok (b', n) ->
  tp_timestamp_merge_map_decode (Some (take (Z.to_nat n) b')) max_rules =
    Ok (Some (timestamp_map_norm m)).
Proof.
  intros Hwf Hsend Hb Hmax E. pose proof (timestamp_announce_fit m Hwf) as Hfit.
  unfold tp_timestamp_merge_map_encode in E. destruct (negb (65535 <? _)) eqn:Ec; [|done].
  destruct (forallb _ _) eqn:Ev; [|done]. bool_simp. injection E as <- <-.
  rewrite forallb_forall in Ev. pose proof (tmw_rules _ Hwf) as Hrules.
  rewrite List.Forall_forall in Hsend, Hrules. set (rs := tm_rules m) in *.
  change (8 + timestampMergeMapAnnounce_block + 4) with 41.
  destruct (group_message timestamp_rule_size timestamp_rule_writes ltac:(done) timestamp_rule_in 41
              (timestamp_announce_writes m) b rs) as (Hm & Hget & Hent); [done|done| |].
  { intros r Hr. apply timestamp_rule_fit; auto. }
  set (msg := take (Z.to_nat (41 + timestamp_rule_size * _)) _) in *.
  assert (Hdec : decode_group decode_timestamp_rule msg 41 timestamp_rule_size (length rs) =
                 Ok (map timestamp_rule_norm rs)).
  { apply decode_group_ok; [done|unfold timestamp_rule_size in *; lia|]. intros i r Hi.
    pose proof (list_elem_of_lookup_2 _ _ _ Hi) as Hin%list_elem_of_In.
    apply decode_timestamp_rule_ok; auto. intros o w v ? ? ? Hl. by eapply Hent. }
  unfold tp_timestamp_merge_map_decode, merge_header_check, messageHeader_schemaId,
    messageHeader_templateId, messageHeader_version, messageHeader_blockLength,
    messageHeader_encoded_length.
  assert (Hdom : is_u8 (tm_clock_domain m)).
  { pose proof (tmw_domain _ Hwf) as Hd. unfold clockDomain_values in Hd. in_cases; ulia. }
  rewrite sbe_group_wrap_spec, Hm. unfold timestamp_rule_size, timestampMergeMapAnnounce_block in *.
  replace (_ <? 8) with false by (symmetry; apply Z.ltb_ge; lia).
  replace (8 + 29 + 4 <=? _) with true by (symmetry; apply Z.leb_le; lia).
  rewrite !Hget by lia. assert (H41 : 41 <= blen b) by lia. repeat sbe_field 41.
  cbn [w_val]. rewrite sbe_enum_valid by apply Hwf. fold rs. rewrite (u16_small (Z.of_nat _)), !null_same, (u8_small (tm_clock_domain m)) by first [ulia|exact Hdom].
  change (8 + 29 + 4) with 41 in *. change timestamp_rule_size with 22. rewrite Nat2Z.id, Hdec.
  replace (max_rules <? _) with false by (symmetry; apply Z.ltb_ge; lia). done.
Qed.
End CodecLemmas.

(** ** Lemmas: the registry *)

(** At most one map per kind and output stream. *)
Definition registry_inv (entries : list (option tp_merge_map_entry_t)) : Prop :=
  forall i j x y, entries !! i = Some (Some x) -> entries !! j = Some (Some y) ->
    me_kind x = me_kind y -> me_out_stream_id x = me_out_stream_id y -> i = j.

Definition has_key (kind : tp_merge_map_kind_t) (stream epoch : Z) (x : tp_merge_map_entry_t) : Prop :=
  me_kind x = kind /\ me_out_stream_id x = stream /\ me_epoch x = epoch.

Lemma entry_matches_spec kind stream epoch o :
  entry_matches kind stream epoch o = true <-> exists x, o = Some x /\ has_key kind stream epoch x.
Proof.
  unfold has_key. destruct o as [x|]; simpl.
  - rewrite !andb_true_iff, bool_decide_eq_true, !Z.eqb_eq. naive_solver.
  - naive_solver.
Qed.

Lemma find_entry_spec entries kind stream epoch x :
  registry_inv entries ->
  tp_merge_map_registry_find_entry (Some entries) kind stream epoch = Some x <->
  Some x ∈ entries /\ has_key kind stream epoch x.
Proof.
  intros Hinv. unfold tp_merge_map_registry_find_entry.
  destruct (find_index _ entries) as [i|] eqn:Ei; simpl.
  - apply find_index_lookup in Ei as (o & Ho & Hm).
    apply entry_matches_spec in Hm as (y & -> & Hy).
    rewrite (list_lookup_total_correct _ _ _ Ho). split.
    + intros [= <-]. split; [by eapply list_elem_of_lookup_2|done].
    + intros [(j & Hj)%list_elem_of_lookup Hx]. unfold has_key in *.
      assert (i = j) as -> by (apply (Hinv i j y x); naive_solver congruence). congruence.
  - split; [done|]. intros [Hin Hx]. apply find_index_None in Ei. rewrite Forall_forall in Ei.
    specialize (Ei _ Hin). apply not_true_iff_false in Ei. destruct Ei.
    apply entry_matches_spec. eauto.
Qed.

Lemma invalidate_lookup entries kind stream epoch i x :
  tp_merge_map_registry_invalidate_stream entries kind stream epoch !! i = Some (Some x) <->
  entries !! i = Some (Some x) /\ stale_entry kind stream epoch x = false.
Proof.
  unfold tp_merge_map_registry_invalidate_stream. rewrite list_lookup_fmap.
  destruct (entries !! i) as [[y|]|]; simpl; [|naive_solver..].
  destruct (stale_entry _ _ _ y) eqn:E; naive_solver congruence.
Qed.

Lemma stale_entry_false kind stream epoch x :
  stale_entry kind stream epoch x = false <->
  (me_kind x = kind -> me_out_stream_id x = stream -> me_epoch x = epoch).
Proof.
  unfold stale_entry. rewrite !andb_false_iff, bool_decide_eq_false, Z.eqb_neq, negb_false_iff, Z.eqb_eq.
  destruct (decide (me_kind x = kind)), (decide (me_out_stream_id x = stream)); naive_solver.
Qed.

(** The slot found is the key's entry, or free with no entry for the key. *)
Lemma find_slot_spec entries kind stream epoch i :
  tp_merge_map_registry_find_slot entries kind stream epoch = Some i ->
  (exists x, entries !! i = Some (Some x) /\ has_key kind stream epoch x) \/
  (entries !! i = Some None /\ forall x, Some x ∈ entries -> ~ has_key kind stream epoch x).
Proof.
  unfold tp_merge_map_registry_find_slot. destruct (find_index (entry_matches _ _ _) _) eqn:E.
  - intros [= ->]. left. apply find_index_lookup in E as (o & Ho & Hm).
    apply entry_matches_spec in Hm as (x & -> & Hx). eauto.
  - intros (o & Ho & Hn)%find_index_lookup. bool_simp. subst o. right. split; [done|].
    intros x Hin Hx. apply find_index_None in E. rewrite Forall_forall in E.
    specialize (E _ Hin). apply not_true_iff_false in E. apply E, entry_matches_spec. eauto.
Qed.

(** What is written to the slot found: nothing, or a map of the stream. *)
Definition of_stream (kind : tp_merge_map_kind_t) (stream : Z) (o : option tp_merge_map_entry_t) : Prop :=
  forall x, o = Some x -> me_kind x = kind /\ me_out_stream_id x = stream.

(** The slot takes the place of every entry of the stream. *)
Lemma slot_entries entries kind stream epoch i o :
  let es := tp_merge_map_registry_invalidate_stream entries kind stream epoch in
  registry_inv entries -> tp_merge_map_registry_find_slot es kind stream epoch = Some i ->
  of_stream kind stream o ->
  registry_inv (<[i := o]> es) /\
  forall x, Some x ∈ <[i := o]> es <->
    o = Some x \/ Some x ∈ entries /\ ~ (me_kind x = kind /\ me_out_stream_id x = stream).
Proof.
  intros es Hinv Es Ho.
  assert (Hlen : (i < length es)%nat).
  { apply find_slot_spec in Es as [(x & Hx & _)|[Hx _]]; by eapply lookup_lt_Some. }
  assert (Hother : forall j x, j <> i -> es !! j = Some (Some x) ->
            entries !! j = Some (Some x) /\ ~ (me_kind x = kind /\ me_out_stream_id x = stream)).
  { intros j x Hj Hx. pose proof Hx as [Hx' Hst]%invalidate_lookup. split; [done|].
    intros [Hk Hs]. pose proof (proj1 (stale_entry_false _ _ _ _) Hst Hk Hs) as He.
    apply find_slot_spec in Es as [(y & Hy & Hyk & Hys & _)|[_ Hno]].
    - apply invalidate_lookup in Hy as [Hy _]. apply Hj, (Hinv j i x y); congruence.
    - apply (Hno x); [by eapply list_elem_of_lookup_2|done]. }
  split.
  - intros j k x y Hx Hy Hk Hs. destruct (decide (j = i)) as [->|Hj], (decide (k = i)) as [->|Hk']; [done| | |].
    + rewrite list_lookup_insert_eq in Hx by done. injection Hx as Hx.
      rewrite list_lookup_insert_ne in Hy by done. destruct (Ho x Hx).
      apply Hother in Hy as [_ []]; [split; congruence|done].
    + rewrite list_lookup_insert_eq in Hy by done. injection Hy as Hy.
      rewrite list_lookup_insert_ne in Hx by done. destruct (Ho y Hy).
      apply Hother in Hx as [_ []]; [split; congruence|done].
    + rewrite list_lookup_insert_ne in Hx, Hy by done.
      apply Hother in Hx as [Hx _], Hy as [Hy _]; try done. by eapply Hinv.
  - intros x. rewrite list_elem_of_lookup. split.
    + intros (j & Hj). destruct (decide (j = i)) as [->|Hne].
      * rewrite list_lookup_insert_eq in Hj by done. left. congruence.
      * rewrite list_lookup_insert_ne in Hj by done. apply Hother in Hj as [Hj ?]; [|done].
        right. split; [by eapply list_elem_of_lookup_2|done].
    + intros [->|[(j & Hj)%list_elem_of_lookup Hn]].
      * exists i. by apply list_lookup_insert_eq.
      * assert (Hj' : es !! j = Some (Some x)).
        { apply invalidate_lookup. split; [done|]. apply stale_entry_false. tauto. }
        exists j. rewrite list_lookup_insert_ne; [done|]. intros <-.
        apply find_slot_spec in Es as [(y & Hy & Hk & Hs & _)|[Hy _]]; [|congruence].
        rewrite Hj' in Hy. injection Hy as <-. by destruct Hn.
Qed.

Lemma slot_find entries kind stream epoch i o :
  let es := tp_merge_map_registry_invalidate_stream entries kind stream epoch in
  registry_inv entries -> tp_merge_map_registry_find_slot es kind stream epoch = Some i ->
  of_stream kind stream o ->
  forall k s e,
    tp_merge_map_registry_find_entry (Some (<[i := o]> es)) k s e =
      if bool_decide (k = kind /\ s = stream)
      then x ← o; if e =? me_epoch x then Some x else None
      else tp_merge_map_registry_find_entry (Some entries) k s e.
Proof.
  intros es Hinv Es Ho k s e. destruct (slot_entries _ _ _ _ _ _ Hinv Es Ho) as [Hinv' Hin].
  fold es in Hinv', Hin.
  apply option_eq. intros x. rewrite find_entry_spec by done. rewrite Hin. unfold has_key.
  case_bool_decide as Hks.
  - destruct Hks as [-> ->]. rewrite bind_Some. split.
    + intros [[->|[_ Hno]] (? & ? & He)]; [|tauto]. exists x. split; [done|]. by rewrite He, Z.eqb_refl.
    + intros (y & -> & Hy). destruct (Z.eqb_spec e (me_epoch y)) as [->|]; [|done].
      injection Hy as ->. destruct (Ho x eq_refl). tauto.
  - rewrite find_entry_spec by done. unfold has_key. split.
    + intros [[->|[Hx _]] Hk]; [|done]. destruct (Ho x eq_refl). naive_solver congruence.
    + intros [Hx (Hk & Hs & He)]. split_and!; try done. right. split; [done|].
      intros [? ?]. apply Hks. split; congruence.
Qed.

Lemma upsert_length entries kind stream epoch n alloc_ok now m entries' r :
  registry_upsert entries kind stream epoch n alloc_ok now m = (entries', r) ->
  length entries' = length entries.
Proof.
  unfold registry_upsert, tp_merge_map_registry_invalidate_stream. intros E.
  destruct (tp_merge_map_registry_find_slot _ _ _ _); [destruct (_ && _)|]; simplify_eq;
    by rewrite ?length_insert, length_map.
Qed.

(** A table without a slot for a stream has no free entry and none of the stream. *)
Lemma no_slot entries kind stream epoch :
  let es := tp_merge_map_registry_invalidate_stream entries kind stream epoch in
  tp_merge_map_registry_find_slot es kind stream epoch = None ->
  es = entries /\ Forall (fun o => o <> None) entries /\
  forall e, tp_merge_map_registry_find_entry (Some entries) kind stream e = None.
Proof.
  intros es Es. unfold tp_merge_map_registry_find_slot in Es.
  destruct (find_index (entry_matches _ _ _) _) eqn:Em; [done|].
  apply find_index_None in Es, Em. rewrite Forall_forall in Es, Em.
  assert (Hid : es = entries).
  { unfold es, tp_merge_map_registry_invalidate_stream in *. rewrite <- (map_id entries) at 2.
    apply map_ext_in. intros o Ho. specialize (Es _ (proj2 (list_elem_of_In _ _)
      (in_map _ _ _ Ho))). simpl in Es. bool_simp. destruct o as [x|]; [|done].
    by destruct (stale_entry _ _ _ _). }
  split; [done|]. split.
  - apply Forall_forall. intros o Ho. rewrite Hid in Es. specialize (Es _ Ho). by bool_simp.
  - intros e. unfold tp_merge_map_registry_find_entry.
    destruct (find_index (entry_matches kind stream e) entries) as [i|] eqn:Ei; [exfalso|done].
    apply find_index_lookup in Ei as (o & Ho & Hm). apply entry_matches_spec in Hm as (x & -> & Hk & Hs & He).
    destruct (decide (e = epoch)) as [->|Hne].
    + assert (Hin : Some x ∈ es) by (rewrite Hid; by eapply list_elem_of_lookup_2).
      specialize (Em _ Hin). apply not_true_iff_false in Em. apply Em, entry_matches_spec. by exists x.
    + rewrite <- Hid in Ho. apply invalidate_lookup in Ho as [_ Hst].
      pose proof (proj1 (stale_entry_false _ _ _ _) Hst Hk Hs). congruence.
Qed.

(** ** The registry as a map *)

Definition map_kind (m : merge_map) : tp_merge_map_kind_t :=
  match m with SequenceMap _ => TP_MERGE_MAP_SEQUENCE | TimestampMap _ => TP_MERGE_MAP_TIMESTAMP end.
Definition map_stream (m : merge_map) : Z :=
  match m with SequenceMap m => sm_out_stream_id m | TimestampMap m => tm_out_stream_id m end.
Definition map_epoch (m : merge_map) : Z :=
  match m with SequenceMap m => sm_epoch m | TimestampMap m => tm_epoch m end.
Definition map_rules (m : merge_map) : nat :=
  match m with SequenceMap m => length (sm_rules m) | TimestampMap m => length (tm_rules m) end.

(** The upsert and the lookup for a map of either kind. *)
Definition upsert_map (registry : ptr tp_merge_map_registry_t) (m : merge_map) (alloc_ok : bool) (now : Z)
    : ptr tp_merge_map_registry_t * res unit :=
  match m with
  | SequenceMap m => tp_merge_map_registry_upsert_sequence registry (Some m) alloc_ok now
  | TimestampMap m => tp_merge_map_registry_upsert_timestamp registry (Some m) alloc_ok now
  end.

Definition found_map (registry : tp_merge_map_registry_t) (kind : tp_merge_map_kind_t) (stream epoch : Z)
    : option merge_map :=
  match kind with
  | TP_MERGE_MAP_SEQUENCE => SequenceMap <$> tp_merge_map_registry_find_sequence registry stream epoch
  | TP_MERGE_MAP_TIMESTAMP => TimestampMap <$> tp_merge_map_registry_find_timestamp registry stream epoch
  end.

Definition upserted_entry (m : merge_map) (now : Z) : tp_merge_map_entry_t :=
  {| me_kind := map_kind m; me_out_stream_id := map_stream m; me_epoch := map_epoch m;
     me_last_announce_ns := now; me_map := m |}.

Lemma upsert_shared entries m alloc_ok now :
  upsert_map (Some (Some entries)) m alloc_ok now =
  let '(entries', r) := registry_upsert entries (map_kind m) (map_stream m) (map_epoch m) (map_rules m)
                          alloc_ok now m in (Some (Some entries'), r).
Proof. by destruct m. Qed.

Lemma find_of_entry registry kind stream epoch :
  found_map registry kind stream epoch =
  (x ← tp_merge_map_registry_find_entry registry kind stream epoch;
   if bool_decide (map_kind (me_map x) = kind) then Some (me_map x) else None).
Proof.
  unfold found_map, tp_merge_map_registry_find_sequence, tp_merge_map_registry_find_timestamp.
  destruct kind; destruct (tp_merge_map_registry_find_entry _ _ _ _) as [x|]; simpl; try done;
    by destruct (me_map x).
Qed.

(** What an upsert leaves to be found. *)
Lemma upsert_written entries m i o :
  let es := tp_merge_map_registry_invalidate_stream entries (map_kind m) (map_stream m) (map_epoch m) in
  registry_inv entries ->
  tp_merge_map_registry_find_slot es (map_kind m) (map_stream m) (map_epoch m) = Some i ->
  o = None \/ (exists now, o = Some (upserted_entry m now)) ->
  registry_inv (<[i := o]> es) /\ forall k s e,
    found_map (Some (<[i := o]> es)) k s e =
      if bool_decide (k = map_kind m /\ s = map_stream m)
      then _ ← o; if e =? map_epoch m then Some m else None
      else found_map (Some entries) k s e.
Proof.
  intros es Hinv Es Ho.
  assert (Hof : of_stream (map_kind m) (map_stream m) o).
  { intros x ->. destruct Ho as [|[now [= ->]]]; done. }
  split; [by eapply slot_entries|]. intros k s e.
  rewrite !find_of_entry, (slot_find _ _ _ _ _ _ Hinv Es Hof).
  case_bool_decide as Hks; [|done]. destruct Hks as [-> ->].
  destruct Ho as [->|[now ->]]; [done|]. simpl. destruct (e =? map_epoch m); [|done].
  simpl. by rewrite bool_decide_eq_true_2.
Qed.

(** ** Properties *)

(** A sequence merge map that the encoder accepts and that uses no null
    value reaches the receiver: the decoder yields the map with its rules in
    order, each with the parameter its type uses. *)
Theorem sequence_map_roundtrip `{Sbe} m b b' n max_rules :
  sequence_map_wf m -> Forall sequence_rule_sendable (sm_rules m) ->
  8 + 20 + 4 + 13 * Z.of_nat (length (sm_rules m)) <= blen b ->
  Z.of_nat (length (sm_rules m)) <= max_rules ->
  tp_sequence_merge_map_encode (Some b) (Some m) = Ok (b', n) ->
  tp_sequence_merge_map_decode (Some (take (Z.to_nat n) b')) max_rules =
    Ok (Some (sequence_map_norm m)).
Proof. apply sequence_map_roundtrip_aux. Qed.

Definition example_sequence_map : tp_sequence_merge_map_t :=
  {| sm_out_stream_id := 5; sm_epoch := 2; sm_stale_timeout_ns := TP_NULL_U64;
     sm_rules := [{| sr_input_stream_id := 1; sr_rule_type := 0; sr_offset := -3; sr_window_size := 9 |};
                  {| sr_input_stream_id := 2; sr_rule_type := 1; sr_offset := 0; sr_window_size := 4 |}] |}.

Lemma example_sequence_map_wf : sequence_map_wf example_sequence_map.
Proof. constructor; simpl; try ulia. repeat constructor; simpl; ulia. Qed.

Theorem sequence_map_roundtrip_witness :
  exists b' n, tp_sequence_merge_map_encode (Some (replicate 100 9)) (Some example_sequence_map) =
    Ok (b', n) /\
  tp_sequence_merge_map_decode (Some (take (Z.to_nat n) b')) 8 =
    Ok (Some (sequence_map_norm example_sequence_map)).
Proof.
  destruct (tp_sequence_merge_map_encode (Some (replicate 100 9)) (Some example_sequence_map))
    as [[b' n]|] eqn:E; [|exfalso; revert E; vm_compute; discriminate].
  exists b', n. split; [reflexivity|].
  eapply (sequence_map_roundtrip example_sequence_map (replicate 100 9)); [| | | |exact E].
  - exact example_sequence_map_wf.
  - repeat constructor; discriminate.
  - vm_compute. discriminate.
  - simpl. lia.
Defined.

(** The same for timestamp merge maps, with the clock domain, the lateness
    and each rule's timestamp source. *)
Theorem timestamp_map_roundtrip `{Sbe} m b b' n max_rules :
  timestamp_map_wf m -> Forall timestamp_rule_sendable (tm_rules m) ->
  8 + 29 + 4 + 22 * Z.of_nat (length (tm_rules m)) <= blen b ->
  Z.of_nat (length (tm_rules m)) <= max_rules ->
  tp_timestamp_merge_map_encode (Some b) (Some m) = Ok (b', n) ->
  tp_timestamp_merge_map_decode (Some (take (Z.to_nat n) b')) max_rules =
    Ok (Some (timestamp_map_norm m)).
Proof. apply timestamp_map_roundtrip_aux. Qed.

Definition example_timestamp_map (source : Z) : tp_timestamp_merge_map_t :=
  {| tm_out_stream_id := 5; tm_epoch := 2; tm_stale_timeout_ns := 1000; tm_clock_domain := 1;
     tm_lateness_ns := 7;
     tm_rules := [{| tr_input_stream_id := 1; tr_rule_type := 0; tr_timestamp_source := source;
                     tr_offset_ns := -3; tr_window_ns := 0 |}] |}.

Lemma example_timestamp_map_wf : timestamp_map_wf (example_timestamp_map 1).
Proof. constructor; simpl; try ulia; [in_compute|]. repeat constructor; simpl; ulia. Qed.

Theorem timestamp_map_roundtrip_witness :
  exists b' n, tp_timestamp_merge_map_encode (Some (replicate 100 9)) (Some (example_timestamp_map 1)) =
    Ok (b', n) /\
  tp_timestamp_merge_map_decode (Some (take (Z.to_nat n) b')) 8 =
    Ok (Some (timestamp_map_norm (example_timestamp_map 1))).
Proof.
  destruct (tp_timestamp_merge_map_encode (Some (replicate 100 9)) (Some (example_timestamp_map 1)))
    as [[b' n]|] eqn:E; [|exfalso; revert E; vm_compute; discriminate].
  exists b', n. split; [reflexivity|].
  eapply (timestamp_map_roundtrip (example_timestamp_map 1) (replicate 100 9)); [| | | |exact E].
  - exact example_timestamp_map_wf.
  - repeat constructor; discriminate.
  - vm_compute. discriminate.
  - simpl. lia.
Defined.

(** C34: The registry is a map: for each kind of merge map and each output stream it
    holds at most one, found under its epoch alone.  An upsert - of a sequence map or
    of a timestamp map - never touches the maps of other streams or of the other
    kind.  When it succeeds, the map is the one found for its stream, and no map of
    an older or newer epoch is.  It fails with ENOMEM in two cases: every entry is
    taken and none is of the stream, and then nothing changes; or the rules cannot be
    allocated, and then no map is left for the stream, whatever there was before
    (see [upsert_alloc_failure_drops]). *)
Theorem merge_registry_upsert entries m alloc_ok now registry' r :
  registry_inv entries ->
  upsert_map (Some (Some entries)) m alloc_ok now = (registry', r) ->
  exists entries', registry' = Some (Some entries') /\ length entries' = length entries /\
  registry_inv entries' /\
  (forall k s e, (k, s) <> (map_kind m, map_stream m) ->
     found_map (Some entries') k s e = found_map (Some entries) k s e) /\
  match r with
  | Ok _ => forall e, found_map (Some entries') (map_kind m) (map_stream m) e =
                      if e =? map_epoch m then Some m else None
  | Err err =>
    err = ENOMEM /\
    (forall e, found_map (Some entries') (map_kind m) (map_stream m) e = None) /\
    (entries' = entries /\ Forall (fun o => o <> None) entries \/
     alloc_ok = false /\ map_rules m <> 0%nat)
  end.
Proof.
  intros Hinv E. rewrite upsert_shared in E.
  destruct (registry_upsert _ _ _ _ _ _ _ _) as [entries' r'] eqn:Eu. injection E as <- <-.
  exists entries'. split; [done|]. split; [by eapply upsert_length|].
  unfold registry_upsert in Eu. destruct (tp_merge_map_registry_find_slot _ _ _ _) as [i|] eqn:Es.
  - destruct (_ && negb alloc_ok) eqn:Ea; injection Eu as <- <-.
    + destruct (upsert_written _ _ _ None Hinv Es (or_introl eq_refl)) as [Hinv' Hf].
      split; [exact Hinv'|]. split; [intros k s e Hne; by rewrite Hf, bool_decide_eq_false_2 by naive_solver|].
      split; [done|]. split; [intros e; by rewrite Hf, bool_decide_eq_true_2|].
      right. bool_simp. split; [done|]. lia.
    + destruct (upsert_written _ _ _ _ Hinv Es (or_intror (ex_intro _ now eq_refl))) as [Hinv' Hf].
      split; [exact Hinv'|]. split; [intros k s e Hne; by rewrite Hf, bool_decide_eq_false_2 by naive_solver|].
      intros e. by rewrite Hf, bool_decide_eq_true_2.
  - destruct (no_slot _ _ _ _ Es) as (Hid & Hfull & Hnone). injection Eu as <- <-. rewrite Hid.
    split; [done|]. split; [done|]. split; [done|]. split; [|by left].
    intros e. by rewrite find_of_entry, Hnone.
Qed.

(** A sequence map and a timestamp map of one stream, one after the other, and the
    first again without memory. *)
Theorem merge_registry_upsert_witness :
  exists es1 es2 es3,
    upsert_map (Some (Some [None; None])) (SequenceMap example_sequence_map) true 3 = (Some (Some es1), Ok tt) /\
    upsert_map (Some (Some es1)) (TimestampMap (example_timestamp_map 1)) true 4 = (Some (Some es2), Ok tt) /\
    upsert_map (Some (Some es2)) (SequenceMap example_sequence_map) false 5 = (Some (Some es3), Err ENOMEM) /\
    found_map (Some es2) TP_MERGE_MAP_SEQUENCE 5 2 = Some (SequenceMap example_sequence_map) /\
    found_map (Some es3) TP_MERGE_MAP_SEQUENCE 5 2 = None /\
    found_map (Some es3) TP_MERGE_MAP_TIMESTAMP 5 2 = Some (TimestampMap (example_timestamp_map 1)).
Proof.
  assert (Hinv : registry_inv [None; None]).
  { intros [|[|i]] j x y Hx; simplify_eq/=. }
  destruct (merge_registry_upsert [None; None] (SequenceMap example_sequence_map) true 3 _ _ Hinv eq_refl)
    as (es1 & E1 & _ & Hinv1 & _ & Hf1).
  injection E1 as <-.
  destruct (merge_registry_upsert _ (TimestampMap (example_timestamp_map 1)) true 4 _ _ Hinv1 eq_refl)
    as (es2 & E2 & _ & Hinv2 & Ho2 & Hf2).
  injection E2 as <-.
  destruct (merge_registry_upsert _ (SequenceMap example_sequence_map) false 5 _ _ Hinv2 eq_refl)
    as (es3 & E3 & _ & _ & Ho3 & _ & Hf3 & _).
  injection E3 as <-.
  eexists _, _, _. split; [reflexivity|]. split; [reflexivity|]. split; [reflexivity|].
  split; [rewrite Ho2 by done; exact (Hf1 2)|]. split; [exact (Hf3 2)|].
  rewrite Ho3 by done. exact (Hf2 2).
Defined.

(** ** What the codecs and the registry let through *)

(** The join-barrier specification (section 8.2) requires the timestamp source to
    be FRAME_DESCRIPTOR or SLOT_HEADER; the decoder takes the enum's null value. *)
Theorem timestamp_decode_accepts_null_source :
  let b := sbe_puts (group_writes 22 timestamp_rule_writes 41 (tm_rules (example_timestamp_map 255)))
             (sbe_puts (timestamp_announce_writes (example_timestamp_map 255)) (replicate 63 0)) in
  exists m, tp_timestamp_merge_map_decode (Some b) 8 = Ok (Some m) /\
    map tr_timestamp_source (tm_rules m) = [255] /\
    forallb tp_timestamp_rule_valid (tm_rules m) = false.
Proof. eexists. split; [vm_compute; reflexivity|]. split; reflexivity. Qed.

(** An offset of INT32_MIN is the null value: the encoder accepts the rule and
    the decoder rejects the message. *)
Theorem sequence_encode_null_offset :
  let m := {| sm_out_stream_id := 5; sm_epoch := 2; sm_stale_timeout_ns := 1;
              sm_rules := [{| sr_input_stream_id := 1; sr_rule_type := 0;
                              sr_offset := int32_null; sr_window_size := 0 |}] |} in
  match tp_sequence_merge_map_encode (Some (replicate 45 0)) (Some m) with
  | Ok (b, _) => tp_sequence_merge_map_decode (Some b) 8 = Err EINVAL
  | Err _ => False
  end.
Proof. vm_compute. reflexivity. Qed.

(** A failed allocation loses the map that was stored before. *)
Theorem upsert_alloc_failure_drops :
  let old := {| me_kind := TP_MERGE_MAP_SEQUENCE; me_out_stream_id := 5; me_epoch := 2;
                me_last_announce_ns := 1; me_map := SequenceMap example_sequence_map |} in
  tp_merge_map_registry_upsert_sequence (Some (Some [Some old])) (Some example_sequence_map) false 3 =
    (Some (Some [None]), Err ENOMEM).
Proof. reflexivity. Qed.
