(* ===== verification/JoinBarrier.v ===== *)
(** * JoinBarrier: deciding when a joined output may be produced (tp_join_barrier.c)

    A barrier tracks, per input stream of a merge map, the newest observed and
    processed sequence numbers and timestamps, and decides whether the output of
    a given sequence number or time is ready.  The three barrier types share the
    input states. *)

From Stdlib Require Import ZArith Lia Bool.
From S2P Require Import Prelude Sbe MergeMap.

(** ** State *)

Definition TP_JOIN_BARRIER_SEQUENCE : Z := 1.
Definition TP_JOIN_BARRIER_TIMESTAMP : Z := 2.
Definition TP_JOIN_BARRIER_LATEST_VALUE : Z := 3.

Definition TP_LATEST_ORDERING_SEQUENCE : Z := 1.
Definition TP_LATEST_ORDERING_TIMESTAMP : Z := 2.

Record tp_join_input_state_t := {
  js_stream_id : Z;
  js_timestamp_source : Z;
  js_observed_seq : Z;
  js_processed_seq : Z;
  js_observed_time_ns : Z;
  js_processed_time_ns : Z;
  js_min_seq_in_epoch : Z;
  js_last_observed_update_ns : Z;
  js_last_processed_update_ns : Z;
  js_has_observed_seq : bool;
  js_has_processed_seq : bool;
  js_has_observed_time : bool;
  js_has_processed_time : bool;
  js_has_min_seq_in_epoch : bool;
  js_latest_valid : bool;
}.

Definition js_zero : tp_join_input_state_t :=
  Build_tp_join_input_state_t 0 0 0 0 0 0 0 0 0 false false false false false false.

(** [memset] of an input state, then the two fields the rules set. *)
Definition js_fresh (stream_id source : Z) : tp_join_input_state_t :=
  Build_tp_join_input_state_t stream_id source 0 0 0 0 0 0 0 false false false false false false.

(** The arrays have [rule_capacity] elements each; the loops use the first
    [rule_count]. *)
Record tp_join_barrier_t := {
  jb_type : Z;
  jb_out_stream_id : Z;
  jb_epoch : Z;
  jb_stale_timeout_ns : Z;
  jb_lateness_ns : Z;
  jb_last_out_time_ns : Z;
  jb_clock_domain : Z;
  jb_allow_stale : bool;
  jb_require_processed : bool;
  jb_has_last_out_time : bool;
  jb_latest_ordering : Z;
  jb_rule_capacity : nat;
  jb_rule_count : nat;
  jb_sequence_rules : list tp_sequence_merge_rule_t;
  jb_timestamp_rules : list tp_timestamp_merge_rule_t;
  jb_states : list tp_join_input_state_t;
}.

Definition sequence_rule_zero : tp_sequence_merge_rule_t := Build_tp_sequence_merge_rule_t 0 0 0 0.
Definition timestamp_rule_zero : tp_timestamp_merge_rule_t := Build_tp_timestamp_merge_rule_t 0 0 0 0 0.

(** [calloc]ed arrays: [aeron_alloc] zeroes the memory. *)
Definition tp_join_barrier_init (barrier : ptr unit) (type : Z)
    (rule_capacity : nat) (alloc_ok : bool) : res tp_join_barrier_t :=
  match barrier with
  | NULL => Err EINVAL
  | Some _ =>
    guard! negb (Nat.eqb rule_capacity 0) else EINVAL in
    guard! alloc_ok else ENOMEM in
    Ok {| jb_type := type; jb_out_stream_id := 0; jb_epoch := 0;
          jb_stale_timeout_ns := TP_NULL_U64; jb_lateness_ns := TP_NULL_U64;
          jb_last_out_time_ns := 0; jb_clock_domain := 0; jb_allow_stale := false;
          jb_require_processed := false; jb_has_last_out_time := false;
          jb_latest_ordering := TP_LATEST_ORDERING_SEQUENCE;
          jb_rule_capacity := rule_capacity; jb_rule_count := 0;
          jb_sequence_rules := replicate rule_capacity sequence_rule_zero;
          jb_timestamp_rules := replicate rule_capacity timestamp_rule_zero;
          jb_states := replicate rule_capacity js_zero |}
  end.

(** The arrays are freed and the structure is cleared. *)
Definition tp_join_barrier_close (b : tp_join_barrier_t) : tp_join_barrier_t :=
  {| jb_type := 0; jb_out_stream_id := 0; jb_epoch := 0; jb_stale_timeout_ns := 0;
     jb_lateness_ns := 0; jb_last_out_time_ns := 0; jb_clock_domain := 0;
     jb_allow_stale := false; jb_require_processed := false; jb_has_last_out_time := false;
     jb_latest_ordering := 0; jb_rule_capacity := 0; jb_rule_count := 0;
     jb_sequence_rules := []; jb_timestamp_rules := []; jb_states := [] |}.

Definition tp_join_barrier_set_allow_stale (b : tp_join_barrier_t) (v : bool) : tp_join_barrier_t :=
  {| jb_type := jb_type b; jb_out_stream_id := jb_out_stream_id b; jb_epoch := jb_epoch b;
     jb_stale_timeout_ns := jb_stale_timeout_ns b; jb_lateness_ns := jb_lateness_ns b;
     jb_last_out_time_ns := jb_last_out_time_ns b; jb_clock_domain := jb_clock_domain b;
     jb_allow_stale := v; jb_require_processed := jb_require_processed b;
     jb_has_last_out_time := jb_has_last_out_time b; jb_latest_ordering := jb_latest_ordering b;
     jb_rule_capacity := jb_rule_capacity b; jb_rule_count := jb_rule_count b;
     jb_sequence_rules := jb_sequence_rules b; jb_timestamp_rules := jb_timestamp_rules b;
     jb_states := jb_states b |}.

Definition tp_join_barrier_set_require_processed (b : tp_join_barrier_t) (v : bool)
    : tp_join_barrier_t :=
  {| jb_type := jb_type b; jb_out_stream_id := jb_out_stream_id b; jb_epoch := jb_epoch b;
     jb_stale_timeout_ns := jb_stale_timeout_ns b; jb_lateness_ns := jb_lateness_ns b;
     jb_last_out_time_ns := jb_last_out_time_ns b; jb_clock_domain := jb_clock_domain b;
     jb_allow_stale := jb_allow_stale b; jb_require_processed := v;
     jb_has_last_out_time := jb_has_last_out_time b; jb_latest_ordering := jb_latest_ordering b;
     jb_rule_capacity := jb_rule_capacity b; jb_rule_count := jb_rule_count b;
     jb_sequence_rules := jb_sequence_rules b; jb_timestamp_rules := jb_timestamp_rules b;
     jb_states := jb_states b |}.

Definition tp_join_barrier_set_latest_ordering (b : tp_join_barrier_t) (v : Z)
    : tp_join_barrier_t :=
  {| jb_type := jb_type b; jb_out_stream_id := jb_out_stream_id b; jb_epoch := jb_epoch b;
     jb_stale_timeout_ns := jb_stale_timeout_ns b; jb_lateness_ns := jb_lateness_ns b;
     jb_last_out_time_ns := jb_last_out_time_ns b; jb_clock_domain := jb_clock_domain b;
     jb_allow_stale := jb_allow_stale b; jb_require_processed := jb_require_processed b;
     jb_has_last_out_time := jb_has_last_out_time b; jb_latest_ordering := v;
     jb_rule_capacity := jb_rule_capacity b; jb_rule_count := jb_rule_count b;
     jb_sequence_rules := jb_sequence_rules b; jb_timestamp_rules := jb_timestamp_rules b;
     jb_states := jb_states b |}.

Definition with_out_time (b : tp_join_barrier_t) (t : Z) : tp_join_barrier_t :=
  {| jb_type := jb_type b; jb_out_stream_id := jb_out_stream_id b; jb_epoch := jb_epoch b;
     jb_stale_timeout_ns := jb_stale_timeout_ns b; jb_lateness_ns := jb_lateness_ns b;
     jb_last_out_time_ns := t; jb_clock_domain := jb_clock_domain b;
     jb_allow_stale := jb_allow_stale b; jb_require_processed := jb_require_processed b;
     jb_has_last_out_time := true; jb_latest_ordering := jb_latest_ordering b;
     jb_rule_capacity := jb_rule_capacity b; jb_rule_count := jb_rule_count b;
     jb_sequence_rules := jb_sequence_rules b; jb_timestamp_rules := jb_timestamp_rules b;
     jb_states := jb_states b |}.

Definition with_states (b : tp_join_barrier_t) (ss : list tp_join_input_state_t)
    : tp_join_barrier_t :=
  {| jb_type := jb_type b; jb_out_stream_id := jb_out_stream_id b; jb_epoch := jb_epoch b;
     jb_stale_timeout_ns := jb_stale_timeout_ns b; jb_lateness_ns := jb_lateness_ns b;
     jb_last_out_time_ns := jb_last_out_time_ns b; jb_clock_domain := jb_clock_domain b;
     jb_allow_stale := jb_allow_stale b; jb_require_processed := jb_require_processed b;
     jb_has_last_out_time := jb_has_last_out_time b; jb_latest_ordering := jb_latest_ordering b;
     jb_rule_capacity := jb_rule_capacity b; jb_rule_count := jb_rule_count b;
     jb_sequence_rules := jb_sequence_rules b; jb_timestamp_rules := jb_timestamp_rules b;
     jb_states := ss |}.

(** ** Applying a merge map *)

(** An array of [n] zeroes overwritten from the front. *)
Definition load {A} (n : nat) (zero : A) (l : list A) : list A := l ++ replicate (n - length l) zero.

(** [tp_join_barrier_clear] followed by the fields and arrays of a map. *)
Definition apply_sequence (b : tp_join_barrier_t) (m : tp_sequence_merge_map_t)
    : tp_join_barrier_t :=
  let n := jb_rule_capacity b in
  {| jb_type := jb_type b; jb_out_stream_id := sm_out_stream_id m; jb_epoch := sm_epoch m;
     jb_stale_timeout_ns := sm_stale_timeout_ns m; jb_lateness_ns := TP_NULL_U64;
     jb_last_out_time_ns := 0; jb_clock_domain := 0;
     jb_allow_stale := jb_allow_stale b; jb_require_processed := jb_require_processed b;
     jb_has_last_out_time := false; jb_latest_ordering := jb_latest_ordering b;
     jb_rule_capacity := n; jb_rule_count := length (sm_rules m);
     jb_sequence_rules := load n sequence_rule_zero (sm_rules m);
     jb_timestamp_rules := replicate n timestamp_rule_zero;
     jb_states := load n js_zero (map (fun r => js_fresh (sr_input_stream_id r) 0) (sm_rules m)) |}.

Definition apply_timestamp (b : tp_join_barrier_t) (m : tp_timestamp_merge_map_t)
    : tp_join_barrier_t :=
  let n := jb_rule_capacity b in
  {| jb_type := jb_type b; jb_out_stream_id := tm_out_stream_id m; jb_epoch := tm_epoch m;
     jb_stale_timeout_ns := tm_stale_timeout_ns m;
     jb_lateness_ns := if tm_lateness_ns m =? TP_NULL_U64 then 0 else tm_lateness_ns m;
     jb_last_out_time_ns := 0; jb_clock_domain := tm_clock_domain m;
     jb_allow_stale := jb_allow_stale b; jb_require_processed := jb_require_processed b;
     jb_has_last_out_time := false; jb_latest_ordering := jb_latest_ordering b;
     jb_rule_capacity := n; jb_rule_count := length (tm_rules m);
     jb_sequence_rules := replicate n sequence_rule_zero;
     jb_timestamp_rules := load n timestamp_rule_zero (tm_rules m);
     jb_states := load n js_zero
       (map (fun r => js_fresh (tr_input_stream_id r) (tr_timestamp_source r)) (tm_rules m)) |}.

(** The four public functions: the barrier (unchanged on an error) and the result. *)
Definition apply_map {M} (type : Z) (rules : M -> nat)
    (apply : tp_join_barrier_t -> M -> tp_join_barrier_t)
    (barrier : ptr tp_join_barrier_t) (map : ptr M) : ptr tp_join_barrier_t * res unit :=
  match barrier, map with
  | NULL, _ | _, NULL => (barrier, Err EINVAL)
  | Some b, Some m =>
    if (jb_rule_capacity b <? rules m)%nat then (barrier, Err EINVAL)
    else if negb ((jb_type b =? type)) then (barrier, Err EINVAL)
    else (Some (apply b m), Ok tt)
  end.

Definition tp_join_barrier_apply_timestamp_map :=
  apply_map TP_JOIN_BARRIER_TIMESTAMP (fun m => length (tm_rules m)) apply_timestamp.
Definition tp_join_barrier_apply_latest_value_sequence_map :=
  apply_map TP_JOIN_BARRIER_LATEST_VALUE (fun m => length (sm_rules m)) apply_sequence.
Definition tp_join_barrier_apply_latest_value_timestamp_map :=
  apply_map TP_JOIN_BARRIER_LATEST_VALUE (fun m => length (tm_rules m)) apply_timestamp.

(** ** Updates *)

Definition tp_join_barrier_find_state (b : tp_join_barrier_t) (stream_id : Z) : option nat :=
  find_index (fun s => js_stream_id s =? stream_id) (take (jb_rule_count b) (jb_states b)).

(** Run an update on the stream's state. *)
Definition update_state (barrier : ptr tp_join_barrier_t) (stream_id : Z)
    (f : tp_join_barrier_t -> tp_join_input_state_t -> res tp_join_input_state_t)
    : ptr tp_join_barrier_t * res unit :=
  match barrier with
  | NULL => (NULL, Err EINVAL)
  | Some b =>
    match tp_join_barrier_find_state b stream_id with
    | None => (barrier, Err EINVAL)
    | Some i =>
      match jb_states b !! i with
      | None => (barrier, Err EINVAL)   (* not reached: the index is in range *)
      | Some s =>
        match f b s with
        | Err e => (barrier, Err e)
        | Ok s' => (Some (with_states b (<[i := s']> (jb_states b))), Ok tt)
        end
      end
    end
  end.

Definition observe_seq (seq now_ns : Z) (s : tp_join_input_state_t) : tp_join_input_state_t :=
  Build_tp_join_input_state_t (js_stream_id s) (js_timestamp_source s) seq (js_processed_seq s)
    (js_observed_time_ns s) (js_processed_time_ns s)
    (if js_has_min_seq_in_epoch s then js_min_seq_in_epoch s else seq)
    now_ns (js_last_processed_update_ns s) true (js_has_processed_seq s) (js_has_observed_time s)
    (js_has_processed_time s) true true.

Definition process_seq (seq now_ns : Z) (s : tp_join_input_state_t) : tp_join_input_state_t :=
  Build_tp_join_input_state_t (js_stream_id s) (js_timestamp_source s) (js_observed_seq s) seq
    (js_observed_time_ns s) (js_processed_time_ns s) (js_min_seq_in_epoch s)
    (js_last_observed_update_ns s) now_ns (js_has_observed_seq s) true (js_has_observed_time s)
    (js_has_processed_time s) (js_has_min_seq_in_epoch s) (js_latest_valid s).

Definition observe_time (t now_ns : Z) (s : tp_join_input_state_t) : tp_join_input_state_t :=
  Build_tp_join_input_state_t (js_stream_id s) (js_timestamp_source s) (js_observed_seq s)
    (js_processed_seq s) t (js_processed_time_ns s) (js_min_seq_in_epoch s) now_ns
    (js_last_processed_update_ns s) (js_has_observed_seq s) (js_has_processed_seq s) true
    (js_has_processed_time s) (js_has_min_seq_in_epoch s) true.

Definition process_time (t now_ns : Z) (s : tp_join_input_state_t) : tp_join_input_state_t :=
  Build_tp_join_input_state_t (js_stream_id s) (js_timestamp_source s) (js_observed_seq s)
    (js_processed_seq s) (js_observed_time_ns s) t (js_min_seq_in_epoch s)
    (js_last_observed_update_ns s) now_ns (js_has_observed_seq s) (js_has_processed_seq s)
    (js_has_observed_time s) true (js_has_min_seq_in_epoch s) (js_latest_valid s).

Definition invalidate (s : tp_join_input_state_t) : tp_join_input_state_t :=
  Build_tp_join_input_state_t (js_stream_id s) (js_timestamp_source s) (js_observed_seq s)
    (js_processed_seq s) (js_observed_time_ns s) (js_processed_time_ns s) (js_min_seq_in_epoch s)
    (js_last_observed_update_ns s) (js_last_processed_update_ns s) (js_has_observed_seq s)
    (js_has_processed_seq s) (js_has_observed_time s) (js_has_processed_time s)
    (js_has_min_seq_in_epoch s) false.

Definition tp_join_barrier_update_observed_seq (barrier : ptr tp_join_barrier_t)
    (stream_id seq now_ns : Z) : ptr tp_join_barrier_t * res unit :=
  update_state barrier stream_id (fun _ s =>
    guard! negb (js_has_observed_seq s && (seq <? js_observed_seq s)) else EINVAL in
    Ok (observe_seq seq now_ns s)).

Definition tp_join_barrier_update_processed_seq (barrier : ptr tp_join_barrier_t)
    (stream_id seq now_ns : Z) : ptr tp_join_barrier_t * res unit :=
  update_state barrier stream_id (fun _ s =>
    guard! negb (js_has_processed_seq s && (seq <? js_processed_seq s)) else EINVAL in
    Ok (process_seq seq now_ns s)).

Definition tp_join_barrier_validate_timestamp_update (b : tp_join_barrier_t)
    (s : tp_join_input_state_t) (source clock_domain : Z) : bool :=
  if negb (jb_clock_domain b =? 0) && negb (clock_domain =? jb_clock_domain b) then false
  else if negb (js_timestamp_source s =? 0) && negb (source =? js_timestamp_source s) then false
  else true.

(** A null timestamp is accepted and changes nothing. *)
Definition tp_join_barrier_update_observed_time (barrier : ptr tp_join_barrier_t)
    (stream_id timestamp_ns source clock_domain now_ns : Z) : ptr tp_join_barrier_t * res unit :=
  update_state barrier stream_id (fun b s =>
    guard! tp_join_barrier_validate_timestamp_update b s source clock_domain else EINVAL in
    if timestamp_ns =? TP_NULL_U64 then Ok s
    else
      guard! negb (js_has_observed_time s && (timestamp_ns <? js_observed_time_ns s)) else EINVAL in
      Ok (observe_time timestamp_ns now_ns s)).

Definition tp_join_barrier_update_processed_time (barrier : ptr tp_join_barrier_t)
    (stream_id timestamp_ns source clock_domain now_ns : Z) : ptr tp_join_barrier_t * res unit :=
  update_state barrier stream_id (fun b s =>
    guard! tp_join_barrier_validate_timestamp_update b s source clock_domain else EINVAL in
    if timestamp_ns =? TP_NULL_U64 then Ok s
    else
      guard! negb (js_has_processed_time s && (timestamp_ns <? js_processed_time_ns s))
        else EINVAL in
      Ok (process_time timestamp_ns now_ns s)).

Definition tp_join_barrier_invalidate_latest (barrier : ptr tp_join_barrier_t) (stream_id : Z)
    : ptr tp_join_barrier_t * res unit :=
  update_state barrier stream_id (fun _ s => Ok (invalidate s)).

(** ** Staleness *)

Definition tp_join_barrier_is_stale (b : tp_join_barrier_t) (s : tp_join_input_state_t)
    (now_ns : Z) : bool :=
  if negb (jb_allow_stale b) || (jb_stale_timeout_ns b =? TP_NULL_U64) then false
  else if js_last_observed_update_ns s =? 0 then false
  else jb_stale_timeout_ns b <? u64 (now_ns - js_last_observed_update_ns s).

(** The stale streams and their number; [stream_ids] is NULL to count only. *)
Definition tp_join_barrier_collect_stale_inputs (barrier : ptr tp_join_barrier_t) (now_ns : Z)
    (stream_ids : bool) (capacity : Z) : res (list Z * Z) :=
  match barrier with
  | NULL => Err EINVAL
  | Some b =>
    if negb (jb_allow_stale b) || (jb_stale_timeout_ns b =? TP_NULL_U64) ||
       Nat.eqb (jb_rule_count b) 0 then Ok ([], 0)
    else
      let stale := filter (fun s => tp_join_barrier_is_stale b s now_ns = true)
                     (take (jb_rule_count b) (jb_states b)) in
      let count := Z.of_nat (length stale) in
      if negb stream_ids || (capacity =? 0) then Ok ([], count)
      else
        guard! negb (capacity <? count) else EINVAL in
        Ok (map js_stream_id stale, count)
  end.

(** ** Readiness *)

(** The verdict on one input: go on with the next, return 0, return -1, or a
    signed overflow. *)
Inductive verdict :=
  | VReady
  | VNotReady
  | VInvalid
  | VUndefined.

(** The loop over the inputs stops at the first verdict that is not [VReady]. *)
Fixpoint first_verdict (vs : list verdict) : verdict :=
  match vs with
  | [] => VReady
  | VReady :: vs' => first_verdict vs'
  | v :: _ => v
  end.

(** 1, 0 or -1; [None] is undefined behaviour. *)
Definition verdict_result (v : verdict) : option (res bool) :=
  match v with
  | VReady => Some (Ok true)
  | VNotReady => Some (Ok false)
  | VInvalid => Some (Err EINVAL)
  | VUndefined => None
  end.

(** The inputs the loops visit, with their rules. *)
Definition sequence_inputs (b : tp_join_barrier_t)
    : list (tp_sequence_merge_rule_t * tp_join_input_state_t) :=
  take (jb_rule_count b) (zip (jb_sequence_rules b) (jb_states b)).
Definition timestamp_inputs (b : tp_join_barrier_t)
    : list (tp_timestamp_merge_rule_t * tp_join_input_state_t) :=
  take (jb_rule_count b) (zip (jb_timestamp_rules b) (jb_states b)).

Definition required_reached (b : tp_join_barrier_t) (s : tp_join_input_state_t) (required : Z)
    : verdict :=
  if js_observed_seq s <? u64 required then VNotReady
  else if jb_require_processed b &&
          (negb (js_has_processed_seq s) || (js_processed_seq s <? u64 required)) then VNotReady
  else VReady.

Definition sequence_input_verdict (b : tp_join_barrier_t) (out_seq now_ns : Z)
    (input : tp_sequence_merge_rule_t * tp_join_input_state_t) : verdict :=
  let '(rule, s) := input in
  if tp_join_barrier_is_stale b s now_ns then VReady
  else if negb (js_has_observed_seq s) then VNotReady
  else if sr_rule_type rule =? TP_MERGE_RULE_OFFSET then
    match i64_checked (i64 out_seq + sr_offset rule) with
    | None => VUndefined
    | Some required => if required <? 0 then VNotReady else required_reached b s required
    end
  else if sr_rule_type rule =? TP_MERGE_RULE_WINDOW then
    if sr_window_size rule =? 0 then VNotReady
    else if u64 (out_seq + 1) <? sr_window_size rule then VNotReady
    else required_reached b s (i64 out_seq)
  else VInvalid.

Definition tp_join_barrier_is_ready_sequence (barrier : ptr tp_join_barrier_t)
    (out_seq now_ns : Z) : option (res bool) :=
  match barrier with
  | NULL => Some (Err EINVAL)
  | Some b =>
    if negb ((jb_type b =? TP_JOIN_BARRIER_SEQUENCE)) then Some (Err EINVAL)
    else if Nat.eqb (jb_rule_count b) 0 then Some (Ok false)
    else verdict_result (first_verdict
           (map (sequence_input_verdict b out_seq now_ns) (sequence_inputs b)))
  end.

Definition time_reached (b : tp_join_barrier_t) (s : tp_join_input_state_t)
    (lateness required : Z) : verdict :=
  if u64 (js_observed_time_ns s + lateness) <? u64 required then VNotReady
  else if jb_require_processed b &&
          (negb (js_has_processed_time s) ||
           (u64 (js_processed_time_ns s + lateness) <? u64 required)) then VNotReady
  else VReady.

Definition tp_join_barrier_timestamp_ready_for_rule (b : tp_join_barrier_t)
    (s : tp_join_input_state_t) (rule : tp_timestamp_merge_rule_t) (out_time_ns : Z) : verdict :=
  let lateness := if jb_lateness_ns b =? TP_NULL_U64 then 0 else jb_lateness_ns b in
  if negb (js_has_observed_time s) then VNotReady
  else if tr_rule_type rule =? TP_MERGE_TIME_OFFSET_NS then
    match i64_checked (i64 out_time_ns + tr_offset_ns rule) with
    | None => VUndefined
    | Some required =>
      if required <? 0 then
        match (if tr_offset_ns rule <? 0 then i64_checked (- tr_offset_ns rule) else Some 0) with
        | None => VUndefined
        | Some back =>
          if out_time_ns <? u64 (lateness + u64 back) then VNotReady
          else time_reached b s lateness 0
        end
      else time_reached b s lateness required
    end
  else if tr_rule_type rule =? TP_MERGE_TIME_WINDOW_NS then
    if tr_window_ns rule =? 0 then VInvalid
    else if out_time_ns <? tr_window_ns rule then VNotReady
    else time_reached b s lateness (i64 out_time_ns)
  else VInvalid.

(** One turn of the loop of [tp_join_barrier_is_ready_timestamp]. *)
Definition timestamp_input_verdict (b : tp_join_barrier_t) (out_time_ns now_ns : Z)
    (input : tp_timestamp_merge_rule_t * tp_join_input_state_t) : verdict :=
  if tp_join_barrier_is_stale b (snd input) now_ns then VReady
  else tp_join_barrier_timestamp_ready_for_rule b (snd input) (fst input) out_time_ns.

(** The last output time is recorded before the inputs are looked at. *)
Definition tp_join_barrier_is_ready_timestamp (barrier : ptr tp_join_barrier_t)
    (out_time_ns clock_domain now_ns : Z) : ptr tp_join_barrier_t * option (res bool) :=
  match barrier with
  | NULL => (NULL, Some (Err EINVAL))
  | Some b =>
    if negb ((jb_type b =? TP_JOIN_BARRIER_TIMESTAMP)) then (barrier, Some (Err EINVAL))
    else if Nat.eqb (jb_rule_count b) 0 then (barrier, Some (Ok false))
    else if negb (jb_clock_domain b =? 0) && negb (clock_domain =? jb_clock_domain b)
    then (barrier, Some (Err EINVAL))
    else if jb_has_last_out_time b && (out_time_ns <? jb_last_out_time_ns b)
    then (barrier, Some (Err EINVAL))
    else
      let b' := with_out_time b out_time_ns in
      (Some b', verdict_result (first_verdict
         (map (timestamp_input_verdict b' out_time_ns now_ns) (timestamp_inputs b'))))
  end.

(** The checks of [tp_join_barrier_is_ready_latest] on one input, in order. *)
Definition latest_input_verdict (b : tp_join_barrier_t) (out_time_ns clock_domain now_ns : Z)
    (s : tp_join_input_state_t) : verdict :=
  let by_time := jb_latest_ordering b =? TP_LATEST_ORDERING_TIMESTAMP in
  if tp_join_barrier_is_stale b s now_ns then VReady
  else if (jb_latest_ordering b =? TP_LATEST_ORDERING_SEQUENCE) && negb (js_has_observed_seq s)
  then VNotReady
  else if by_time && negb (js_has_observed_time s) then VNotReady
  else if negb (jb_clock_domain b =? 0) && negb (clock_domain =? jb_clock_domain b) then VInvalid
  else if by_time && (js_timestamp_source s =? 0) then VInvalid
  else if negb (js_latest_valid s) then VNotReady
  else if negb (js_has_observed_seq s) && negb (js_has_observed_time s) then VNotReady
  else if negb (jb_clock_domain b =? 0) && negb (js_has_observed_time s) then VNotReady
  else if negb (js_has_min_seq_in_epoch s) then VNotReady
  else if js_has_observed_seq s && (js_observed_seq s <? js_min_seq_in_epoch s) then VNotReady
  else if js_has_observed_time s && (0 <? js_observed_time_ns s) && (out_time_ns =? 0)
  then VNotReady
  else VReady.

Definition tp_join_barrier_is_ready_latest (barrier : ptr tp_join_barrier_t)
    (out_seq out_time_ns clock_domain now_ns : Z) : ptr tp_join_barrier_t * option (res bool) :=
  match barrier with
  | NULL => (NULL, Some (Err EINVAL))
  | Some b =>
    if negb ((jb_type b =? TP_JOIN_BARRIER_LATEST_VALUE))
    then (barrier, Some (Err EINVAL))
    else if Nat.eqb (jb_rule_count b) 0 then (barrier, Some (Ok false))
    else
      let by_time := jb_latest_ordering b =? TP_LATEST_ORDERING_TIMESTAMP in
      if by_time && (jb_clock_domain b =? 0) then (barrier, Some (Err EINVAL))
      else if by_time && jb_has_last_out_time b && (out_time_ns <? jb_last_out_time_ns b)
      then (barrier, Some (Err EINVAL))
      else
        let b' := if by_time then with_out_time b out_time_ns else b in
        (Some b', verdict_result (first_verdict
           (map (latest_input_verdict b' out_time_ns clock_domain now_ns)
              (take (jb_rule_count b') (jb_states b')))))
  end.

Record tp_latest_selection_t := {
  ls_stream_id : Z;
  ls_seq : Z;
  ls_timestamp_ns : Z;
  ls_timestamp_source : Z;
}.

Definition collectable (b : tp_join_barrier_t) (s : tp_join_input_state_t) : bool :=
  let by_time := jb_latest_ordering b =? TP_LATEST_ORDERING_TIMESTAMP in
  negb (negb (js_latest_valid s) || negb (js_has_min_seq_in_epoch s)) &&
  negb ((jb_latest_ordering b =? TP_LATEST_ORDERING_SEQUENCE) && negb (js_has_observed_seq s)) &&
  negb (by_time && negb (js_has_observed_time s)) &&
  negb (by_time && (js_timestamp_source s =? 0)).

Definition selection_of (s : tp_join_input_state_t) : tp_latest_selection_t :=
  {| ls_stream_id := js_stream_id s; ls_seq := js_observed_seq s;
     ls_timestamp_ns := js_observed_time_ns s; ls_timestamp_source := js_timestamp_source s |}.

(** The selections; [out_count] is their number. *)
Definition tp_join_barrier_collect_latest (barrier : ptr tp_join_barrier_t) (capacity : nat)
    : res (list tp_latest_selection_t) :=
  match barrier with
  | NULL => Err EINVAL
  | Some b =>
    guard! (jb_type b =? TP_JOIN_BARRIER_LATEST_VALUE) else EINVAL in
    guard! negb (capacity <? jb_rule_count b)%nat else EINVAL in
    guard! negb ((jb_latest_ordering b =? TP_LATEST_ORDERING_TIMESTAMP) && (jb_clock_domain b =? 0))
      else EINVAL in
    let inputs := take (jb_rule_count b) (jb_states b) in
    guard! forallb (collectable b) inputs else EINVAL in
    Ok (map selection_of inputs)
  end.

(** ** Updates as a log

    Every update function called on a barrier, with its arguments. *)

Inductive update :=
  | ObserveSeq (stream_id seq now_ns : Z)
  | ProcessSeq (stream_id seq now_ns : Z)
  | ObserveTime (stream_id timestamp_ns source clock_domain now_ns : Z)
  | ProcessTime (stream_id timestamp_ns source clock_domain now_ns : Z)
  | InvalidateLatest (stream_id : Z).

Definition run_update (barrier : ptr tp_join_barrier_t) (u : update) : ptr tp_join_barrier_t :=
  fst match u with
      | ObserveSeq sid seq now => tp_join_barrier_update_observed_seq barrier sid seq now
      | ProcessSeq sid seq now => tp_join_barrier_update_processed_seq barrier sid seq now
      | ObserveTime sid t src cd now => tp_join_barrier_update_observed_time barrier sid t src cd now
      | ProcessTime sid t src cd now => tp_join_barrier_update_processed_time barrier sid t src cd now
      | InvalidateLatest sid => tp_join_barrier_invalidate_latest barrier sid
      end.

(** The calls one after another, whatever each of them returns. *)
Definition run_updates : ptr tp_join_barrier_t -> list update -> ptr tp_join_barrier_t :=
  foldl run_update.

Definition update_stream (u : update) : Z :=
  match u with
  | ObserveSeq sid _ _ | ProcessSeq sid _ _ | ObserveTime sid _ _ _ _ | ProcessTime sid _ _ _ _
  | InvalidateLatest sid => sid
  end.

(** The effect of a call on the state of the stream it names. *)
Definition update_one (domain : Z) (u : update) (s : tp_join_input_state_t)
    : tp_join_input_state_t :=
  let matches source cd :=
    ((domain =? 0) || (cd =? domain)) &&
    ((js_timestamp_source s =? 0) || (source =? js_timestamp_source s)) in
  match u with
  | ObserveSeq _ seq now =>
    if js_has_observed_seq s && (seq <? js_observed_seq s) then s else observe_seq seq now s
  | ProcessSeq _ seq now =>
    if js_has_processed_seq s && (seq <? js_processed_seq s) then s else process_seq seq now s
  | ObserveTime _ t source cd now =>
    if matches source cd && negb (t =? TP_NULL_U64) &&
       negb (js_has_observed_time s && (t <? js_observed_time_ns s))
    then observe_time t now s else s
  | ProcessTime _ t source cd now =>
    if matches source cd && negb (t =? TP_NULL_U64) &&
       negb (js_has_processed_time s && (t <? js_processed_time_ns s))
    then process_time t now s else s
  | InvalidateLatest _ => invalidate s
  end.

Definition update_input (domain : Z) (s : tp_join_input_state_t) (u : update)
    : tp_join_input_state_t :=
  if js_stream_id s =? update_stream u then update_one domain u s else s.

(** The states the loops look at. *)
Definition inputs (b : tp_join_barrier_t) : list tp_join_input_state_t :=
  take (jb_rule_count b) (jb_states b).

Lemma update_input_stream d s u : js_stream_id (update_input d s u) = js_stream_id s.
Proof.
  unfold update_input. destruct (_ =? _); [|done].
  destruct u; simpl; try destruct (_ && _); done.
Qed.

Lemma foldl_update_input_stream d us s :
  js_stream_id (foldl (update_input d) s us) = js_stream_id s.
Proof.
  revert s. induction us as [|u us IH]; intros s; simpl; [done|].
  by rewrite IH, update_input_stream.
Qed.

Lemma with_states_id b : with_states b (jb_states b) = b.
Proof. by destruct b. Qed.

(** [update_state] changes the first state with the stream's identifier. *)
Lemma update_state_eq b sid f i s :
  tp_join_barrier_find_state b sid = Some i ->
  jb_states b !! i = Some s ->
  fst (update_state (Some b) sid f) =
  Some (with_states b (<[i := match f b s with Ok s' => s' | Err _ => s end]> (jb_states b))).
Proof.
  intros Hf Hs. unfold update_state. rewrite Hf, Hs. destruct (f b s); [done|]. simpl.
  by rewrite list_insert_id, with_states_id.
Qed.

Lemma run_update_found b u i s :
  tp_join_barrier_find_state b (update_stream u) = Some i ->
  jb_states b !! i = Some s ->
  run_update (Some b) u =
  Some (with_states b (<[i := update_one (jb_clock_domain b) u s]> (jb_states b))).
Proof.
  intros Hf Hs. destruct u; simpl in Hf; unfold run_update.
  all: unfold tp_join_barrier_update_observed_seq, tp_join_barrier_update_processed_seq,
    tp_join_barrier_update_observed_time, tp_join_barrier_update_processed_time,
    tp_join_barrier_invalidate_latest.
  all: rewrite (update_state_eq _ _ _ _ _ Hf Hs); do 3 f_equal; simpl.
  all: unfold tp_join_barrier_validate_timestamp_update.
  all: repeat match goal with |- context [?c =? ?d] => destruct (Z.eqb_spec c d) end.
  all: repeat match goal with |- context [js_has_observed_seq ?x] => destruct (js_has_observed_seq x)
         | |- context [js_has_processed_seq ?x] => destruct (js_has_processed_seq x)
         | |- context [js_has_observed_time ?x] => destruct (js_has_observed_time x)
         | |- context [js_has_processed_time ?x] => destruct (js_has_processed_time x)
         | |- context [?x <? ?y] => destruct (x <? y)
         end; done.
Qed.

Lemma run_update_missing b u :
  tp_join_barrier_find_state b (update_stream u) = None -> run_update (Some b) u = Some b.
Proof.
  intros Hf. destruct u; simpl in Hf; unfold run_update.
  all: unfold tp_join_barrier_update_observed_seq, tp_join_barrier_update_processed_seq,
    tp_join_barrier_update_observed_time, tp_join_barrier_update_processed_time,
    tp_join_barrier_invalidate_latest, update_state; by rewrite Hf.
Qed.

(** With distinct input streams a call acts on the inputs one by one. *)
Lemma run_update_inputs b u :
  NoDup (js_stream_id <$> inputs b) ->
  exists b', run_update (Some b) u = Some b' /\ b' = with_states b (jb_states b') /\
    inputs b' = (fun s => update_input (jb_clock_domain b) s u) <$> inputs b.
Proof.
  intros Hnd. destruct (tp_join_barrier_find_state b (update_stream u)) as [i|] eqn:Hf.
  - destruct (find_index_lookup _ _ _ Hf) as (s & Hs & Hid%Z.eqb_eq).
    assert (Hlt : (i < jb_rule_count b)%nat).
    { apply lookup_lt_Some in Hs. rewrite length_take in Hs. lia. }
    pose proof Hs as Hs'. rewrite lookup_take_lt in Hs' by done.
    eexists. split; [by apply run_update_found|]. split; [done|].
    apply list_eq. intros j. unfold inputs; cbn [jb_rule_count jb_states with_states].
    rewrite take_insert_lt by done. rewrite list_lookup_fmap.
    fold (inputs b) in Hs |- *. destruct (decide (j = i)) as [->|Hne].
    + rewrite list_lookup_insert_eq by (by eapply lookup_lt_Some). rewrite Hs. simpl.
      unfold update_input. by rewrite Hid, Z.eqb_refl.
    + rewrite list_lookup_insert_ne by done.
      destruct (inputs b !! j) as [t|] eqn:Ht; [|done]. simpl. f_equal.
      unfold update_input. destruct (Z.eqb_spec (js_stream_id t) (update_stream u)); [|done].
      exfalso. apply Hne. eapply (NoDup_lookup _ _ _ (js_stream_id t) Hnd).
      * by rewrite list_lookup_fmap, Ht.
      * rewrite list_lookup_fmap, Hs. simpl. congruence.
  - exists b. split; [by apply run_update_missing|]. rewrite with_states_id. split; [done|].
    unfold tp_join_barrier_find_state in Hf. apply find_index_None in Hf.
    rewrite <- (list_fmap_id (inputs b)) at 1. apply Forall_fmap_ext.
    apply (Forall_impl _ _ _ Hf). intros s E. unfold update_input. simpl. by rewrite E.
Qed.

Lemma run_updates_inputs us b :
  NoDup (js_stream_id <$> inputs b) ->
  exists b', run_updates (Some b) us = Some b' /\ b' = with_states b (jb_states b') /\
    inputs b' = (fun s => foldl (update_input (jb_clock_domain b)) s us) <$> inputs b.
Proof.
  revert b. induction us as [|u us IH]; intros b Hnd.
  { exists b. rewrite with_states_id. split; [done|]. split; [done|]. simpl.
    by rewrite list_fmap_id. }
  destruct (run_update_inputs b u Hnd) as (b1 & H1 & Hb1 & Hi1).
  destruct (IH b1) as (b2 & H2 & Hb2 & Hi2).
  { rewrite Hi1, <- list_fmap_compose.
    rewrite (list_fmap_ext _ js_stream_id); [done|]. intros; apply update_input_stream. }
  exists b2. unfold run_updates in *. cbn [foldl]. rewrite H1. split; [done|].
  split; [rewrite Hb2, Hb1; by destruct b2|].
  rewrite Hi2, Hi1, <- list_fmap_compose. rewrite Hb1. done.
Qed.

(** ** What a log says about a stream *)

(** A frame of the stream with sequence number at least [r] was reported observed. *)
Definition seen_seq (us : list update) (sid r : Z) : Prop :=
  exists q now, ObserveSeq sid q now ∈ us /\ r <= q.

(** A timestamp of the stream, from the clock domain and the source of its
    rule, at least [r] was reported. *)
Definition seen_time (us : list update) (domain source sid r : Z) : Prop :=
  exists t now, ObserveTime sid t source domain now ∈ us /\ t <> TP_NULL_U64 /\ r <= t.
Definition done_time (us : list update) (domain source sid r : Z) : Prop :=
  exists t now, ProcessTime sid t source domain now ∈ us /\ t <> TP_NULL_U64 /\ r <= t.

Lemma exists_snoc {A} (P : A -> Prop) (l : list A) x :
  (exists y, y ∈ l ++ [x] /\ P y) <-> (exists y, y ∈ l /\ P y) \/ P x.
Proof.
  split.
  - intros (y & Hy & HP). apply elem_of_app in Hy as [Hy|Hy%list_elem_of_singleton]; [eauto|].
    subst. by right.
  - intros [(y & Hy & HP)|HP].
    + exists y. split; [apply elem_of_app; by left|done].
    + exists x. split; [apply elem_of_app; right; by apply list_elem_of_singleton|done].
Qed.

(** A cursor that only moves forward has reached [r] when one of its events has. *)
Lemma cursor_reached d s0 (P : tp_join_input_state_t -> Prop) (Q : update -> Prop) us :
  ~ P s0 ->
  (forall s u, js_stream_id s = js_stream_id s0 -> js_timestamp_source s = js_timestamp_source s0 ->
     P (update_input d s u) <-> P s \/ Q u) ->
  P (foldl (update_input d) s0 us) <-> exists u, u ∈ us /\ Q u.
Proof.
  intros H0 Hstep.
  assert (Hsrc : forall us s, js_timestamp_source (foldl (update_input d) s us) =
                              js_timestamp_source s).
  { clear. induction us as [|u us IH]; intros s; simpl; [done|]. rewrite IH.
    unfold update_input. destruct (_ =? _); [|done].
    destruct u; simpl; try destruct (_ && _); done. }
  induction us as [|u us IH] using rev_ind.
  - split; [done|]. intros (u & Hu & _). by apply not_elem_of_nil in Hu.
  - rewrite foldl_snoc, exists_snoc, <- IH. apply Hstep; [|apply Hsrc].
    apply foldl_update_input_stream.
Qed.

Ltac destruct_tests :=
  repeat match goal with
  | |- context [Z.eqb ?x ?y] => destruct (Z.eqb_spec x y)
  | |- context [Z.ltb ?x ?y] => destruct (Z.ltb_spec x y)
  | |- context [js_has_observed_seq ?s && _] => destruct (js_has_observed_seq s) eqn:?
  | |- context [js_has_processed_seq ?s && _] => destruct (js_has_processed_seq s) eqn:?
  | |- context [js_has_observed_time ?s && _] => destruct (js_has_observed_time s) eqn:?
  | |- context [js_has_processed_time ?s && _] => destruct (js_has_processed_time s) eqn:?
  end.

(** One call: the functions of other cursors by the shape of their tests, the
    cursor's own function by its tests. *)
Ltac cursor_step u :=
  destruct u; simpl;
  try solve [repeat match goal with |- context [if ?c then _ else _] => destruct c end;
             simpl; tauto];
  destruct_tests; simpl; intuition (congruence || lia).

Lemma observed_reached d sid src us r :
  let s := foldl (update_input d) (js_fresh sid src) us in
  js_has_observed_seq s = true /\ r <= js_observed_seq s <-> seen_seq us sid r.
Proof.
  intros s. unfold s. rewrite (cursor_reached d _
    (fun s => js_has_observed_seq s = true /\ r <= js_observed_seq s)
    (fun u => match u with ObserveSeq sid' q _ => sid' = sid /\ r <= q | _ => False end)).
  - split.
    + intros (u & Hu & HQ). destruct u; try done. destruct HQ as [-> HQ].
      by exists seq, now_ns.
    + intros (q & now & Hu & Hq). by exists (ObserveSeq sid q now).
  - intros [? _]. done.
  - intros t u Hid _. unfold update_input. rewrite Hid. simpl.
    cursor_step u.
Qed.


Lemma observed_time_reached d sid src us r :
  d <> 0 -> src <> 0 ->
  let s := foldl (update_input d) (js_fresh sid src) us in
  js_has_observed_time s = true /\ r <= js_observed_time_ns s <-> seen_time us d src sid r.
Proof.
  intros Hd Hsrc s. unfold s. rewrite (cursor_reached d _
    (fun s => js_has_observed_time s = true /\ r <= js_observed_time_ns s)
    (fun u => match u with
              | ObserveTime sid' t src' d' _ =>
                sid' = sid /\ src' = src /\ d' = d /\ t <> TP_NULL_U64 /\ r <= t
              | _ => False
              end)).
  - split.
    + intros (u & Hu & HQ). destruct u; try done. destruct HQ as (-> & -> & -> & ? & ?).
      by exists timestamp_ns, now_ns.
    + intros (t & now & Hu & Hq). by exists (ObserveTime sid t src d now).
  - intros [? _]. done.
  - intros t u Hid Hs. unfold update_input. rewrite Hid. simpl in Hs |- *.
    cursor_step u.
Qed.

Lemma processed_time_reached d sid src us r :
  d <> 0 -> src <> 0 ->
  let s := foldl (update_input d) (js_fresh sid src) us in
  js_has_processed_time s = true /\ r <= js_processed_time_ns s <-> done_time us d src sid r.
Proof.
  intros Hd Hsrc s. unfold s. rewrite (cursor_reached d _
    (fun s => js_has_processed_time s = true /\ r <= js_processed_time_ns s)
    (fun u => match u with
              | ProcessTime sid' t src' d' _ =>
                sid' = sid /\ src' = src /\ d' = d /\ t <> TP_NULL_U64 /\ r <= t
              | _ => False
              end)).
  - split.
    + intros (u & Hu & HQ). destruct u; try done. destruct HQ as (-> & -> & -> & ? & ?).
      by exists timestamp_ns, now_ns.
    + intros (t & now & Hu & Hq). by exists (ProcessTime sid t src d now).
  - intros [? _]. done.
  - intros t u Hid Hs. unfold update_input. rewrite Hid. simpl in Hs |- *.
    cursor_step u.
Qed.

(** ** The loops over the inputs *)

Lemma first_verdict_spec vs :
  Forall (fun v => v = VReady \/ v = VNotReady) vs ->
  exists ready, verdict_result (first_verdict vs) = Some (Ok ready) /\
    (ready = true <-> Forall (fun v => v = VReady) vs).
Proof.
  induction 1 as [|v vs [->| ->] Hvs IH].
  - exists true. split; [done|]. split; [intros; constructor|done].
  - destruct IH as (ready & Hr & Hiff). exists ready. split; [done|].
    rewrite Forall_cons, Hiff. tauto.
  - exists false. split; [done|]. split; [done|]. by intros [? _]%Forall_cons.
Qed.

Lemma zip_take {A B} n (l : list A) (k : list B) : take n (zip l k) = zip (take n l) (take n k).
Proof.
  revert l k. induction n as [|n IH]; intros [|x l] [|y k]; simpl; try done. by rewrite IH.
Qed.

Lemma take_load {A} n z (l : list A) : take (length l) (load n z l) = l.
Proof. apply take_app_length. Qed.

(** [js_fresh] as the rules of a map leave it, the log having been run. *)
Lemma Forall_zip_map {A B} (f : A -> B) (l : list A) (P : A * B -> Prop) :
  Forall P (zip l (f <$> l)) <-> forall x, x ∈ l -> P (x, f x).
Proof.
  induction l as [|x l IH]; simpl.
  - split; [intros _ x Hx; by apply not_elem_of_nil in Hx|constructor].
  - rewrite Forall_cons, IH. split.
    + intros [Hx Hl] y [->|Hy]%elem_of_cons; auto.
    + intros H. split; [apply H; left|]. intros; apply H; by right.
Qed.

Lemma stale_collected b now cap ids n :
  NoDup (js_stream_id <$> inputs b) -> 0 < cap ->
  tp_join_barrier_collect_stale_inputs (Some b) now true cap = Ok (ids, n) ->
  forall s, s ∈ inputs b -> tp_join_barrier_is_stale b s now = true <-> js_stream_id s ∈ ids.
Proof.
  intros Hnd Hcap Hc s Hs. unfold tp_join_barrier_collect_stale_inputs in Hc.
  destruct (_ || Nat.eqb _ _) eqn:E.
  - injection Hc as <- <-. apply orb_true_iff in E as [E|E].
    + unfold tp_join_barrier_is_stale. rewrite E. split; [done|].
      by intros H%not_elem_of_nil.
    + apply Nat.eqb_eq in E. unfold inputs in Hs. rewrite E in Hs.
      by apply not_elem_of_nil in Hs.
  - destruct (_ || (cap =? 0)) eqn:E2; [simpl in E2; bool_simp; lia|].
    destruct (cap <? _); [done|]. simpl in Hc. injection Hc as <- <-. fold (inputs b).
    rewrite list_elem_of_fmap. split.
    + intros Hst. exists s. split; [done|].
      apply list_elem_of_filter. by split.
    + intros (t & Hid & [Hst Ht]%list_elem_of_filter).
      apply list_elem_of_lookup in Hs as [i Hi], Ht as [j Hj].
      assert (i = j) as ->; [|congruence].
      eapply (NoDup_lookup _ _ _ (js_stream_id s) Hnd); rewrite list_lookup_fmap.
      * by rewrite Hi.
      * rewrite Hj. simpl. by rewrite Hid.
Qed.

(** The barrier after a map was applied and a log was run. *)
Lemma updated_barrier b (rules : list tp_join_input_state_t) us b' :
  inputs b = rules -> NoDup (js_stream_id <$> rules) ->
  run_updates (Some b) us = Some b' ->
  b' = with_states b (jb_states b') /\
  inputs b' = (fun s => foldl (update_input (jb_clock_domain b)) s us) <$> rules.
Proof.
  intros <- Hnd Hrun. destruct (run_updates_inputs us b Hnd) as (b2 & H2 & Hb2 & Hi2).
  rewrite Hrun in H2. by injection H2 as <-.
Qed.

Definition fresh_sequence (r : tp_sequence_merge_rule_t) : tp_join_input_state_t :=
  js_fresh (sr_input_stream_id r) 0.
Definition fresh_timestamp (r : tp_timestamp_merge_rule_t) : tp_join_input_state_t :=
  js_fresh (tr_input_stream_id r) (tr_timestamp_source r).

Lemma applied_inputs {A} (n : nat) (f : A -> tp_join_input_state_t) (l : list A) :
  take (length l) (load n js_zero (map f l)) = f <$> l.
Proof. rewrite <- (length_map f l). apply take_load. Qed.

Lemma updated_sequence b0 m b us b' :
  b = apply_sequence b0 m -> NoDup (sr_input_stream_id <$> sm_rules m) ->
  run_updates (Some b) us = Some b' ->
  b' = with_states b (jb_states b') /\
  inputs b' = (fun r => foldl (update_input 0) (fresh_sequence r) us) <$> sm_rules m.
Proof.
  intros -> Hnd Hrun.
  destruct (updated_barrier (apply_sequence b0 m) (fresh_sequence <$> sm_rules m) us b'
              (applied_inputs _ fresh_sequence _)
              ltac:(by rewrite <- list_fmap_compose) Hrun) as [Hb Hi].
  split; [done|]. by rewrite Hi, <- list_fmap_compose.
Qed.

Lemma updated_timestamp b0 m b us b' :
  b = apply_timestamp b0 m -> NoDup (tr_input_stream_id <$> tm_rules m) ->
  run_updates (Some b) us = Some b' ->
  b' = with_states b (jb_states b') /\
  inputs b' =
    (fun r => foldl (update_input (tm_clock_domain m)) (fresh_timestamp r) us) <$> tm_rules m.
Proof.
  intros -> Hnd Hrun.
  destruct (updated_barrier (apply_timestamp b0 m) (fresh_timestamp <$> tm_rules m) us b'
              (applied_inputs _ fresh_timestamp _)
              ltac:(by rewrite <- list_fmap_compose) Hrun) as [Hb Hi].
  split; [done|]. by rewrite Hi, <- list_fmap_compose.
Qed.

Lemma updated_streams {A} (f : A -> tp_join_input_state_t) d us (l : list A) :
  js_stream_id <$> ((fun r => foldl (update_input d) (f r) us) <$> l) =
  (fun r => js_stream_id (f r)) <$> l.
Proof.
  rewrite <- list_fmap_compose. apply list_fmap_ext. intros; apply foldl_update_input_stream.
Qed.

Lemma stale_listed {A} (f : A -> tp_join_input_state_t) d us (l : list A) b now cap ids n :
  inputs b = (fun r => foldl (update_input d) (f r) us) <$> l ->
  NoDup ((fun r => js_stream_id (f r)) <$> l) -> 0 < cap ->
  tp_join_barrier_collect_stale_inputs (Some b) now true cap = Ok (ids, n) ->
  forall r, r ∈ l ->
  tp_join_barrier_is_stale b (foldl (update_input d) (f r) us) now = true <->
  js_stream_id (f r) ∈ ids.
Proof.
  intros Hin Hnd Hcap Hc r Hr. rewrite (stale_collected b now cap ids n); [| |done|done|].
  - by rewrite foldl_update_input_stream.
  - by rewrite Hin, updated_streams.
  - rewrite Hin. apply list_elem_of_fmap. eauto.
Qed.

Lemma apply_map_ok {M} type rules apply b0 (m : M) b :
  apply_map type rules apply (Some b0) (Some m) = (Some b, Ok tt) ->
  b = apply b0 m /\ (rules m <= jb_rule_capacity b0)%nat /\ jb_type b0 = type.
Proof.
  unfold apply_map. destruct (_ <? _)%nat eqn:E; [done|]. destruct (negb _) eqn:E2; [done|].
  intros [= <-]. bool_simp. apply Nat.ltb_ge in E. done.
Qed.

(** ** Sequence readiness *)




(** ** Staleness in a log *)















(** ** Timestamp readiness *)

Definition time_satisfied (require_processed : bool) (us : list update)
    (domain lateness out_time_ns : Z) (r : tp_timestamp_merge_rule_t) : Prop :=
  let required :=
    if tr_rule_type r =? TP_MERGE_TIME_OFFSET_NS then out_time_ns + tr_offset_ns r
    else out_time_ns in
  let reached cursor :=
    cursor us domain (tr_timestamp_source r) (tr_input_stream_id r) (required - lateness) : Prop in
  0 <= required /\
  (tr_rule_type r = TP_MERGE_TIME_WINDOW_NS -> tr_window_ns r <= out_time_ns) /\
  reached seen_time /\ (require_processed = true -> reached done_time).

(** The lateness a map configures. *)
Definition map_lateness (m : tp_timestamp_merge_map_t) : Z :=
  if tm_lateness_ns m =? TP_NULL_U64 then 0 else tm_lateness_ns m.

(** No timestamp of the log is close enough to the end of the 64-bit range for
    the addition of the lateness to wrap. *)
Definition log_times_fit (lateness : Z) (u : update) : Prop :=
  match u with
  | ObserveTime _ t _ _ _ | ProcessTime _ t _ _ _ =>
    0 <= t /\ (t <> TP_NULL_U64 -> t + lateness < 2 ^ 64)
  | _ => True
  end.

(** The source of a rule and the arithmetic on its offset stay in range. *)
Record time_rule_fits (out_time_ns : Z) (r : tp_timestamp_merge_rule_t) : Prop := {
  tf_valid : tp_timestamp_rule_valid r = true;
  tf_offset : - 2 ^ 63 < tr_offset_ns r < 2 ^ 63;
  tf_required : out_time_ns + tr_offset_ns r < 2 ^ 63;
}.

Lemma time_rule_source r : tp_timestamp_rule_valid r = true -> tr_timestamp_source r <> 0.
Proof.
  unfold tp_timestamp_rule_valid. intros H E. by rewrite E in H.
Qed.

(** The newest timestamp is one of the log, so it inherits the log's bounds. *)
Lemma observed_time_fits d r us lateness :
  d <> 0 -> tr_timestamp_source r <> 0 -> Forall (log_times_fit lateness) us ->
  let s := foldl (update_input d) (fresh_timestamp r) us in
  js_has_observed_time s = true ->
  0 <= js_observed_time_ns s /\ js_observed_time_ns s + lateness < 2 ^ 64.
Proof.
  intros Hd Hs Hlog s Hhas. rewrite Forall_forall in Hlog.
  pose proof (fun x => observed_time_reached d (tr_input_stream_id r) _ us x Hd Hs) as Hiff.
  fold (fresh_timestamp r) s in Hiff. cbv zeta in Hiff. fold s in Hiff.
  destruct (proj1 (Hiff (js_observed_time_ns s))) as (t & now & Hin & Hn & Hle); [done|].
  destruct (Hlog _ Hin) as [Ht Hfit]. specialize (Hfit Hn).
  destruct (proj2 (Hiff t)) as [_ ?]; [by exists t, now|]. lia.
Qed.

Lemma processed_time_fits d r us lateness :
  d <> 0 -> tr_timestamp_source r <> 0 -> Forall (log_times_fit lateness) us ->
  let s := foldl (update_input d) (fresh_timestamp r) us in
  js_has_processed_time s = true ->
  0 <= js_processed_time_ns s /\ js_processed_time_ns s + lateness < 2 ^ 64.
Proof.
  intros Hd Hs Hlog s Hhas. rewrite Forall_forall in Hlog.
  pose proof (fun x => processed_time_reached d (tr_input_stream_id r) _ us x Hd Hs) as Hiff.
  fold (fresh_timestamp r) s in Hiff. cbv zeta in Hiff. fold s in Hiff.
  destruct (proj1 (Hiff (js_processed_time_ns s))) as (t & now & Hin & Hn & Hle); [done|].
  destruct (Hlog _ Hin) as [Ht Hfit]. specialize (Hfit Hn).
  destruct (proj2 (Hiff t)) as [_ ?]; [by exists t, now|]. lia.
Qed.

Lemma time_reached_spec b s lateness required :
  0 <= lateness -> 0 <= required < 2 ^ 64 ->
  0 <= js_observed_time_ns s -> js_observed_time_ns s + lateness < 2 ^ 64 ->
  (js_has_processed_time s = true ->
   0 <= js_processed_time_ns s /\ js_processed_time_ns s + lateness < 2 ^ 64) ->
  let v := time_reached b s lateness required in
  (v = VReady \/ v = VNotReady) /\
  (v = VReady <-> required - lateness <= js_observed_time_ns s /\
     (jb_require_processed b = true ->
      js_has_processed_time s = true /\ required - lateness <= js_processed_time_ns s)).
Proof.
  intros Hl Hr Ho1 Ho2 Hp v. unfold v, time_reached.
  rewrite (u64_small required), (u64_small (js_observed_time_ns s + lateness)) by ulia.
  destruct (Z.ltb_spec (js_observed_time_ns s + lateness) required); simpl.
  { split; [auto|intuition (congruence || lia)]. }
  destruct (jb_require_processed b), (js_has_processed_time s); simpl;
    try (split; [auto|intuition (congruence || lia)]).
  destruct (Hp eq_refl). rewrite u64_small by ulia.
  destruct (Z.ltb_spec (js_processed_time_ns s + lateness) required); simpl;
    (split; [auto|intuition (congruence || lia)]).
Qed.

Lemma time_verdict_spec b us d lateness out r :
  time_rule_fits out r -> d <> 0 -> 0 <= lateness < 2 ^ 63 -> 0 <= out < 2 ^ 63 ->
  Forall (log_times_fit lateness) us -> jb_lateness_ns b = lateness ->
  let s := foldl (update_input d) (fresh_timestamp r) us in
  let v := tp_join_barrier_timestamp_ready_for_rule b s r out in
  (v = VReady \/ v = VNotReady) /\
  (v = VReady <-> time_satisfied (jb_require_processed b) us d lateness out r).
Proof.
  intros [Hv Hoff Hreq] Hd Hlate Hout Hlog Hb s v.
  pose proof (time_rule_source r Hv) as Hsrc.
  pose proof (observed_time_fits d r us lateness Hd Hsrc Hlog) as Hof.
  pose proof (processed_time_fits d r us lateness Hd Hsrc Hlog) as Hpf.
  cbv zeta in Hof, Hpf. fold s in Hof, Hpf.
  unfold v, tp_join_barrier_timestamp_ready_for_rule, time_satisfied. cbv zeta.
  setoid_rewrite <- (observed_time_reached d _ _ us _ Hd Hsrc).
  setoid_rewrite <- (processed_time_reached d _ _ us _ Hd Hsrc).
  fold (fresh_timestamp r) s. rewrite Hb.
  replace (lateness =? TP_NULL_U64) with false by (symmetry; apply Z.eqb_neq; ulia).
  destruct (js_has_observed_time s) eqn:Hobs; simpl; [|split; [by right|intuition discriminate]].
  destruct (Hof eq_refl) as [Ho1 Ho2]. unfold tp_timestamp_rule_valid in Hv.
  destruct (negb _ && negb _); [done|].
  destruct (Z.eqb_spec (tr_rule_type r) TP_MERGE_TIME_OFFSET_NS) as [E|E].
  - rewrite i64_small, i64_checked_ok by ulia.
    rewrite E. destruct (Z.ltb_spec (out + tr_offset_ns r) 0).
    + replace (tr_offset_ns r <? 0) with true by (symmetry; apply Z.ltb_lt; lia).
      rewrite i64_checked_ok by ulia.
      rewrite (u64_small (- _)), u64_small by ulia.
      destruct (Z.ltb_spec out (lateness + - tr_offset_ns r)); [|lia].
      split; [by right|]. intuition (discriminate || lia).
    + destruct (time_reached_spec b s lateness (out + tr_offset_ns r)) as [? Hiff]; [ulia..|done|].
      split; [done|]. rewrite Hiff. intuition discriminate.
  - destruct (Z.eqb_spec (tr_rule_type r) TP_MERGE_TIME_WINDOW_NS) as [E2|]; [|done].
    bool_simp. rewrite (proj2 (Z.eqb_neq _ _) Hv).
    destruct (Z.ltb_spec out (tr_window_ns r)).
    + split; [by right|]. intuition (discriminate || lia).
    + rewrite i64_small by ulia.
      destruct (time_reached_spec b s lateness out) as [? Hiff]; [ulia..|done|].
      split; [done|]. rewrite Hiff. intuition (discriminate || lia).
Qed.

Lemma timestamp_input_spec b' b0 m us (ids : list Z) out_time now :
  tm_clock_domain m <> 0 -> 0 <= map_lateness m < 2 ^ 63 -> 0 <= out_time < 2 ^ 63 ->
  Forall (log_times_fit (map_lateness m)) us ->
  jb_require_processed b' = jb_require_processed b0 -> jb_lateness_ns b' = map_lateness m ->
  forall r, time_rule_fits out_time r ->
  let s := foldl (update_input (tm_clock_domain m)) (fresh_timestamp r) us in
  (tp_join_barrier_is_stale b' s now = true <-> tr_input_stream_id r ∈ ids) ->
  let v := timestamp_input_verdict (with_out_time b' out_time) out_time now (r, s) in
  (v = VReady \/ v = VNotReady) /\
  (v = VReady <-> tr_input_stream_id r ∈ ids \/
     time_satisfied (jb_require_processed b0) us (tm_clock_domain m) (map_lateness m) out_time r).
Proof.
  intros Hd Hlate Hout Hlog Hreq Hl r Hr s Hst v. unfold v, timestamp_input_verdict.
  rewrite <- Hst, <- Hreq. cbn [fst snd].
  change (tp_join_barrier_is_stale (with_out_time b' out_time)) with
    (tp_join_barrier_is_stale b').
  destruct (tp_join_barrier_is_stale b' s now); [split; [by left|split; auto]|].
  destruct (time_verdict_spec (with_out_time b' out_time) us (tm_clock_domain m)
    (map_lateness m) out_time r) as [? Hiff]; [done..|].
  split; [done|]. cbv zeta in Hiff. fold s in Hiff. rewrite Hiff. cbn [jb_require_processed with_out_time]. intuition discriminate.
Qed.

(** [tp_join_barrier_is_ready_timestamp] decides readiness by time.  After a
    timestamp map with valid rules on distinct streams was applied and any log
    of update calls was made, a call in the map's clock domain answers 1 or 0
    and records the output time; the answer is 1 exactly when every rule's
    input is reported stale, or a timestamp taken from the rule's source in the
    map's clock domain lies at most the map's lateness before the required time
    (and, when the barrier requires it, a processed one does).  Timestamps that
    name another source or domain do not count.  The bounds keep the 64-bit
    additions of the code from wrapping. *)
Theorem timestamp_ready_iff b0 m b us b' out_time now cap ids n
    (Hm : tm_rules m <> []) (Hd : tm_clock_domain m <> 0)
    (Hnd : NoDup (tr_input_stream_id <$> tm_rules m))
    (Hrules : Forall (time_rule_fits out_time) (tm_rules m))
    (Hlate : 0 <= map_lateness m < 2 ^ 63) (Hout : 0 <= out_time < 2 ^ 63)
    (Hlog : Forall (log_times_fit (map_lateness m)) us)
    (Happly : tp_join_barrier_apply_timestamp_map (Some b0) (Some m) = (Some b, Ok tt))
    (Hrun : run_updates (Some b) us = Some b')
    (Hcap : 0 < cap)
    (Hstale : tp_join_barrier_collect_stale_inputs (Some b') now true cap = Ok (ids, n)) :
  exists ready,
    tp_join_barrier_is_ready_timestamp (Some b') out_time (tm_clock_domain m) now =
      (Some (with_out_time b' out_time), Some (Ok ready)) /\
    (ready = true <-> forall r, r ∈ tm_rules m ->
       tr_input_stream_id r ∈ ids \/
       time_satisfied (jb_require_processed b0) us (tm_clock_domain m) (map_lateness m)
         out_time r).
Proof.
  apply apply_map_ok in Happly as (Hb & _ & Htype).
  destruct (updated_timestamp b0 m b us b' Hb Hnd Hrun) as [Hb' Hin].
  pose proof (stale_listed fresh_timestamp _ us _ b' now cap ids n Hin Hnd Hcap Hstale) as Hst.
  assert (Hz : timestamp_inputs (with_out_time b' out_time) = zip (tm_rules m) (inputs b')).
  { unfold timestamp_inputs. rewrite zip_take, Hb', Hb. cbn. by rewrite take_load. }
  assert (Hreq : jb_require_processed b' = jb_require_processed b0) by (by rewrite Hb', Hb).
  assert (Hl : jb_lateness_ns b' = map_lateness m) by (by rewrite Hb', Hb).
  unfold tp_join_barrier_is_ready_timestamp.
  replace (jb_type b' =? TP_JOIN_BARRIER_TIMESTAMP) with true
    by (rewrite Hb', Hb; simpl; by rewrite Htype).
  replace (Nat.eqb (jb_rule_count b') 0) with false
    by (rewrite Hb', Hb; simpl; by destruct (tm_rules m)).
  replace (jb_clock_domain b') with (tm_clock_domain m) by (by rewrite Hb', Hb).
  replace (jb_has_last_out_time b') with false by (by rewrite Hb', Hb).
  rewrite Z.eqb_refl, andb_false_r. cbn [negb andb]. rewrite Hz, Hin.
  rewrite Forall_forall in Hrules.
  pose proof (timestamp_input_spec b' b0 m us ids out_time now Hd Hlate Hout Hlog Hreq Hl) as Hone.
  match goal with |- context [verdict_result (first_verdict ?vs)] =>
    destruct (first_verdict_spec vs) as (ready & Hready & Hiff) end.
  - apply Forall_fmap, Forall_zip_map. intros r Hr. apply (Hone r (Hrules r Hr) (Hst r Hr)).
  - exists ready. split; [by rewrite <- Hready|].
    rewrite Hiff, Forall_fmap, Forall_zip_map.
    apply forall_proper. intros r. split; intros H Hr; specialize (H Hr); by apply (Hone r (Hrules r Hr) (Hst r Hr)).
Qed.

(** ** Latest values *)

Lemma ready_latest_inputs b out_seq out_time domain now b'' :
  tp_join_barrier_is_ready_latest (Some b) out_seq out_time domain now =
    (b'', Some (Ok true)) ->
  jb_type b = TP_JOIN_BARRIER_LATEST_VALUE /\
  ((jb_latest_ordering b =? TP_LATEST_ORDERING_TIMESTAMP) && (jb_clock_domain b =? 0)) = false /\
  exists b1, b'' = Some b1 /\ (b1 = b \/ b1 = with_out_time b out_time) /\
  Forall (fun s => latest_input_verdict b1 out_time domain now s = VReady) (inputs b1).
Proof.
  unfold tp_join_barrier_is_ready_latest. intros H. cbv zeta in H.
  destruct (negb _) eqn:Et; [done|]. destruct (Nat.eqb _ _); [done|].
  destruct (_ && (jb_clock_domain b =? 0)) eqn:Ed; [done|].
  destruct (_ && (out_time <? _)); [done|]. injection H as <- Hv.
  bool_simp. split; [done|]. split; [done|]. eexists. split; [done|].
  split; [by destruct (_ =? TP_LATEST_ORDERING_TIMESTAMP); auto|].
  revert Hv. unfold inputs. generalize (take (jb_rule_count
    (if jb_latest_ordering b =? TP_LATEST_ORDERING_TIMESTAMP then with_out_time b out_time else b))
    (jb_states (if jb_latest_ordering b =? TP_LATEST_ORDERING_TIMESTAMP
                then with_out_time b out_time else b))).
  intros l. induction l as [|s l IH]; simpl; [by constructor|].
  destruct (latest_input_verdict _ _ _ _ s) eqn:E; try done. by constructor; auto.
Qed.

(** An input that is ready and not stale passes the checks of the collection. *)
Lemma ready_collectable b out_time domain now s :
  jb_allow_stale b = false ->
  latest_input_verdict b out_time domain now s = VReady -> collectable b s = true.
Proof.
  intros Hs. unfold latest_input_verdict, tp_join_barrier_is_stale, collectable. rewrite Hs.
  cbn [negb orb]. cbv zeta.
  repeat match goal with
  | |- (if ?c then _ else _) = _ -> _ => destruct c eqn:?; [done|]
  end. intros _. bool_simp.
  repeat match goal with H : (_ && _) = false |- _ => rewrite H; clear H end.
  repeat match goal with H : ?x = true |- _ => rewrite H; clear H end. done.
Qed.

(** when [tp_join_barrier_is_ready_latest] says the output is ready,
    [tp_join_barrier_collect_latest] succeeds and selects, for every rule of the
    map in its order, the newest frame of the rule's stream that was reported
    observed since the map was applied (stale inputs not allowed, sequence
    ordering). *)
Theorem latest_ready_collects b0 m b us b' out_seq out_time domain now b'' capacity
    (Hnd : NoDup (sr_input_stream_id <$> sm_rules m))
    (Happly : tp_join_barrier_apply_latest_value_sequence_map (Some b0) (Some m) = (Some b, Ok tt))
    (Hstale : jb_allow_stale b0 = false)
    (Horder : jb_latest_ordering b0 = TP_LATEST_ORDERING_SEQUENCE)
    (Hrun : run_updates (Some b) us = Some b')
    (Hready : tp_join_barrier_is_ready_latest (Some b') out_seq out_time domain now =
                (b'', Some (Ok true)))
    (Hcap : (length (sm_rules m) <= capacity)%nat) :
  exists b1 sels, b'' = Some b1 /\
    tp_join_barrier_collect_latest (Some b1) capacity = Ok sels /\
    Forall2 (fun r sel =>
      ls_stream_id sel = sr_input_stream_id r /\
      (exists now, ObserveSeq (sr_input_stream_id r) (ls_seq sel) now ∈ us) /\
      (forall q now, ObserveSeq (sr_input_stream_id r) q now ∈ us -> q <= ls_seq sel))
      (sm_rules m) sels.
Proof.
  apply apply_map_ok in Happly as (Hb & _ & Htype).
  destruct (updated_sequence b0 m b us b' Hb Hnd Hrun) as [Hb' Hin].
  apply ready_latest_inputs in Hready as (Ht & Hd & b1 & -> & Hb1 & Hall).
  assert (Ho : jb_latest_ordering b1 = TP_LATEST_ORDERING_SEQUENCE /\ jb_allow_stale b1 = false /\
    inputs b1 = inputs b' /\ jb_type b1 = jb_type b' /\ jb_rule_count b1 = length (sm_rules m)).
  { rewrite Hb', Hb in Hb1 |- *. by destruct Hb1 as [-> | ->]. }
  destruct Ho as (Ho & Ha & Hi & Htb & Hc).
  eexists b1, _. split; [done|]. split.
  - unfold tp_join_barrier_collect_latest. rewrite Htb, Ht, Hc, Ho. cbn -[Nat.ltb].
    replace (capacity <? length (sm_rules m))%nat with false by (symmetry; by apply Nat.ltb_ge).
    replace (forallb (collectable b1) (take (length (sm_rules m)) (jb_states b1))) with true;
      [done|]. symmetry. rewrite <- Hc. apply forallb_forall. intros s Hs.
    rewrite Forall_forall in Hall. apply (ready_collectable _ out_time domain now); [done|].
    by apply Hall, list_elem_of_In.
  - rewrite <- Hc. fold (inputs b1). rewrite Hi, Hin. change @map with (fun A B f l => @fmap _ list_fmap A B f l).
    rewrite <- list_fmap_compose, Forall2_fmap_r. apply Forall_Forall2_diag, Forall_forall.
    intros r Hr. simpl. rewrite foldl_update_input_stream. split; [done|].
    pose proof (fun x => observed_reached 0 (sr_input_stream_id r) 0 us x) as Hiff.
    cbv zeta in Hiff. fold (fresh_sequence r) in Hiff.
    set (s := foldl (update_input 0) (fresh_sequence r) us) in *.
    assert (Hobs : js_has_observed_seq s = true).
    { rewrite Forall_forall in Hall. specialize (Hall s). rewrite Hi, Hin in Hall.
      assert (Hcol : collectable b1 s = true).
      { apply (ready_collectable _ out_time domain now); [done|]. apply Hall, list_elem_of_fmap.
        eauto. }
      unfold collectable in Hcol. rewrite Ho in Hcol. cbn in Hcol. bool_simp. done. }
    assert (Hmax : forall q now, ObserveSeq (sr_input_stream_id r) q now ∈ us ->
                     q <= js_observed_seq s).
    { intros q w Hq. apply (Hiff q). by exists q, w. }
    split; [|done].
    destruct (proj1 (Hiff (js_observed_seq s))) as (q & w & Hq & Hle); [done|].
    exists w. by rewrite (Z.le_antisymm _ _ Hle (Hmax q w Hq)).
Qed.

(** ** Witnesses *)

Definition ex_barrier (type : Z) : tp_join_barrier_t :=
  match tp_join_barrier_init (Some tt) type 4 true with
  | Ok b => tp_join_barrier_set_require_processed b false
  | Err _ => with_states (tp_join_barrier_close (Build_tp_join_barrier_t 0 0 0 0 0 0 0 false
      false false 0 0 0 [] [] [])) []
  end.

Definition ex_seq_rule (sid offset : Z) : tp_sequence_merge_rule_t :=
  {| sr_input_stream_id := sid; sr_rule_type := TP_MERGE_RULE_OFFSET; sr_offset := offset;
     sr_window_size := TP_NULL_U32 |}.

Definition ex_seq_map (rules : list tp_sequence_merge_rule_t) : tp_sequence_merge_map_t :=
  {| sm_out_stream_id := 7; sm_epoch := 1; sm_stale_timeout_ns := TP_NULL_U64;
     sm_rules := rules |}.

Definition ex_time_rule (sid : Z) : tp_timestamp_merge_rule_t :=
  {| tr_input_stream_id := sid; tr_rule_type := TP_MERGE_TIME_OFFSET_NS;
     tr_timestamp_source := TP_TIMESTAMP_SOURCE_SLOT_HEADER; tr_offset_ns := -5;
     tr_window_ns := TP_NULL_U64 |}.

Definition ex_time_map : tp_timestamp_merge_map_t :=
  {| tm_out_stream_id := 7; tm_epoch := 1; tm_stale_timeout_ns := TP_NULL_U64;
     tm_clock_domain := 1; tm_lateness_ns := 10; tm_rules := [ex_time_rule 1; ex_time_rule 2] |}.

(** The barrier after a map and a log, for the examples. *)
Definition after (b : ptr tp_join_barrier_t) (us : list update) : tp_join_barrier_t :=
  match run_updates b us with Some b' => b' | None => ex_barrier 0 end.

Definition ex_log : list update := [ObserveSeq 1 12 100; ObserveSeq 2 9 101; ObserveSeq 2 4 102].
Definition ex_time_log : list update :=
  [ObserveTime 1 90 2 1 100; ObserveTime 2 500 1 1 101; ObserveTime 2 95 2 1 102].

Definition ex_seq_barrier : tp_join_barrier_t :=
  apply_sequence (ex_barrier TP_JOIN_BARRIER_SEQUENCE) (ex_seq_map [ex_seq_rule 1 2; ex_seq_rule 2 (-1)]).
Definition ex_latest_barrier : tp_join_barrier_t :=
  apply_sequence (ex_barrier TP_JOIN_BARRIER_LATEST_VALUE)
    (ex_seq_map [ex_seq_rule 1 2; ex_seq_rule 2 (-1)]).
Definition ex_time_barrier : tp_join_barrier_t :=
  apply_timestamp (ex_barrier TP_JOIN_BARRIER_TIMESTAMP) ex_time_map.

Ltac nodup_compute := apply (bool_decide_eq_true_1 _); vm_compute; reflexivity.



Lemma timestamp_ready_iff_witness :
  exists ready,
    tp_join_barrier_is_ready_timestamp (Some (after (Some ex_time_barrier) ex_time_log)) 105 1 200 =
      (Some (with_out_time (after (Some ex_time_barrier) ex_time_log) 105), Some (Ok ready)) /\
    (ready = true <-> forall r, r ∈ [ex_time_rule 1; ex_time_rule 2] ->
       tr_input_stream_id r ∈ [] \/ time_satisfied false ex_time_log 1 10 105 r).
Proof.
  apply (timestamp_ready_iff (ex_barrier TP_JOIN_BARRIER_TIMESTAMP) ex_time_map ex_time_barrier
    ex_time_log (after (Some ex_time_barrier) ex_time_log) 105 200 4 [] 0).
  - done.
  - done.
  - nodup_compute.
  - repeat constructor; vm_compute; (reflexivity || discriminate).
  - vm_compute. split; [discriminate|reflexivity].
  - lia.
  - repeat constructor; vm_compute; (reflexivity || discriminate).
  - vm_compute. reflexivity.
  - vm_compute. reflexivity.
  - lia.
  - vm_compute. reflexivity.
Defined.

Lemma latest_ready_collects_witness :
  exists b1 sels,
    Some (after (Some ex_latest_barrier) ex_log) = Some b1 /\
    tp_join_barrier_collect_latest (Some b1) 2 = Ok sels /\
    Forall2 (fun r sel =>
      ls_stream_id sel = sr_input_stream_id r /\
      (exists now, ObserveSeq (sr_input_stream_id r) (ls_seq sel) now ∈ ex_log) /\
      (forall q now, ObserveSeq (sr_input_stream_id r) q now ∈ ex_log -> q <= ls_seq sel))
      [ex_seq_rule 1 2; ex_seq_rule 2 (-1)] sels.
Proof.
  apply (latest_ready_collects (ex_barrier TP_JOIN_BARRIER_LATEST_VALUE)
    (ex_seq_map [ex_seq_rule 1 2; ex_seq_rule 2 (-1)]) ex_latest_barrier ex_log
    (after (Some ex_latest_barrier) ex_log) 0 0 0 200).
  - nodup_compute.
  - vm_compute. reflexivity.
  - reflexivity.
  - reflexivity.
  - vm_compute. reflexivity.
  - vm_compute. reflexivity.
  - simpl. lia.
Defined.

(** ** What the bounds and hypotheses exclude *)

(** Two rules on one input stream: the updates only reach the first rule's
    state, so the output never becomes ready, whatever was observed. *)
Example duplicate_stream_blocks :
  let b := apply_sequence (ex_barrier TP_JOIN_BARRIER_SEQUENCE)
             (ex_seq_map [ex_seq_rule 1 0; ex_seq_rule 1 (-3)]) in
  let b' := after (Some b) [ObserveSeq 1 1000 100; ObserveSeq 1 2000 100] in
  tp_join_barrier_is_ready_sequence (Some b') 10 200 = Some (Ok false).
Proof. vm_compute. reflexivity. Qed.

(** A clock reading taken before the last update makes the difference wrap: an
    input updated "in the future" counts as stale and is skipped. *)
Example stale_clock_underflow :
  let m := {| sm_out_stream_id := 7; sm_epoch := 1; sm_stale_timeout_ns := 1000;
              sm_rules := [ex_seq_rule 1 0] |} in
  let b := apply_sequence (tp_join_barrier_set_allow_stale (ex_barrier TP_JOIN_BARRIER_SEQUENCE) true) m in
  let b' := after (Some b) [ObserveSeq 1 3 200] in
  tp_join_barrier_is_ready_sequence (Some b') 10 199 = Some (Ok true) /\
  tp_join_barrier_is_ready_sequence (Some b') 10 201 = Some (Ok false).
Proof. vm_compute. done. Qed.

(** An input that never produced a frame is never stale. *)
Example silent_input_blocks :
  let m := {| sm_out_stream_id := 7; sm_epoch := 1; sm_stale_timeout_ns := 1000;
              sm_rules := [ex_seq_rule 1 0; ex_seq_rule 2 0] |} in
  let b := apply_sequence (tp_join_barrier_set_allow_stale (ex_barrier TP_JOIN_BARRIER_SEQUENCE) true) m in
  let b' := after (Some b) [ObserveSeq 1 30 200] in
  tp_join_barrier_is_ready_sequence (Some b') 10 900 = Some (Ok false) /\
  tp_join_barrier_is_ready_sequence (Some b') 10 (2 ^ 62) = Some (Ok false).
Proof. vm_compute. done. Qed.
