(* ===== verification/MpscQueue.v ===== *)
(** * MpscQueue: the bounded lock-free command queue (tp_mpsc_queue.c)

    The client conductor takes commands from application threads through this
    ring of sequence-stamped slots.  A call of [tp_mpsc_queue_offer] or
    [tp_mpsc_queue_poll] is cut into its atomic accesses: [tstep] runs one of
    them, [qstep] picks the thread.  Positions are [size_t] values; the
    differences the code takes as [intptr_t] are checked for overflow.  The two
    [memcpy]s are one step each: [mpsc_exclusive] shows that no other thread
    touches the slot meanwhile, and the acquire and release accesses of
    [sequence] order the steps as the interleaving does. *)

From Stdlib Require Import ZArith Lia Bool.
From stdpp Require Import functions relations.
From S2P Require Import Prelude.

(** ** The queue *)

Record mpsc_slot := {
  sequence : Z;
  data : list Z;
}.

(** [head] and [tail] are the atomics; [slots] is allocated by the first offer. *)
Record tp_mpsc_queue_t := {
  slots : ptr (list mpsc_slot);
  capacity : Z;
  mask : Z;
  item_size : Z;
  head : Z;
  tail : Z;
}.

Definition tp_mpsc_queue_init (queue : ptr unit) (cap : Z) : res tp_mpsc_queue_t :=
  match queue with
  | NULL => Err EINVAL
  | Some _ =>
    guard! negb ((cap =? 0) || negb (tp_is_power_of_two cap)) else EINVAL in
    Ok {| slots := NULL; capacity := cap; mask := cap - 1; item_size := 0; head := 0; tail := 0 |}
  end.

(** [calloc]: the items are zero; [alloc_ok] is its success. *)
Definition tp_mpsc_queue_alloc_slots (q : tp_mpsc_queue_t) (size : Z) (alloc_ok : bool)
    : res tp_mpsc_queue_t :=
  guard! negb (size =? 0) else EINVAL in
  guard! alloc_ok else ENOMEM in
  Ok {| slots := Some ((fun i => {| sequence := Z.of_nat i; data := replicate (Z.to_nat size) 0 |})
                         <$> seq 0 (Z.to_nat (capacity q)));
        capacity := capacity q; mask := mask q; item_size := size; head := head q; tail := tail q |}.

Definition tp_mpsc_queue_close (q : tp_mpsc_queue_t) : tp_mpsc_queue_t :=
  {| slots := NULL; capacity := 0; mask := 0; item_size := 0; head := head q; tail := tail q |}.

Definition set_slots (q : tp_mpsc_queue_t) (l : list mpsc_slot) : tp_mpsc_queue_t :=
  {| slots := Some l; capacity := capacity q; mask := mask q; item_size := item_size q;
     head := head q; tail := tail q |}.
Definition set_head (q : tp_mpsc_queue_t) (h : Z) : tp_mpsc_queue_t :=
  {| slots := slots q; capacity := capacity q; mask := mask q; item_size := item_size q;
     head := h; tail := tail q |}.
Definition set_tail (q : tp_mpsc_queue_t) (t : Z) : tp_mpsc_queue_t :=
  {| slots := slots q; capacity := capacity q; mask := mask q; item_size := item_size q;
     head := head q; tail := t |}.

(** [pos & mask]. *)
Definition slot_index (q : tp_mpsc_queue_t) (pos : Z) : nat := Z.to_nat (Z.land pos (mask q)).

(** [tp_mpsc_slot_at]: [None] outside the allocation. *)
Definition tp_mpsc_slot_at (q : tp_mpsc_queue_t) (pos : Z) : option mpsc_slot :=
  l ← slots q; l !! slot_index q pos.

Definition store_slot (q : tp_mpsc_queue_t) (pos : Z) (s : mpsc_slot) : tp_mpsc_queue_t :=
  match slots q with
  | Some l => set_slots q (<[slot_index q pos := s]> l)
  | None => q
  end.

(** [(intptr_t)a - (intptr_t)b]. *)
Definition intptr_diff (a b : Z) : option Z := i64_checked (i64 a - i64 b).

(** ** The calls, one atomic access at a time *)

Inductive outcome :=
  | Offered
  | OfferFailed (e : errno)
  | Polled (item : list Z)
  | PollEmpty
  | PollFailed (e : errno).

Inductive pc :=
  | Ready (last : option outcome)
  | OfferCheck (item : list Z)              (* queue->slots == NULL *)
  | OfferAlloc (item : list Z)
  | OfferSize (item : list Z)
  | OfferTail (item : list Z)               (* load tail *)
  | OfferLoad (item : list Z) (pos : Z)     (* load slot->sequence *)
  | OfferCas (item : list Z) (pos : Z)
  | OfferCopy (item : list Z) (pos : Z)
  | OfferPublish (item : list Z) (pos : Z)  (* store slot->sequence *)
  | PollCheck (size : Z)
  | PollHead
  | PollLoad (pos : Z)
  | PollCas (pos : Z)
  | PollCopy (pos : Z)
  | PollRelease (pos : Z) (item : list Z)
  | Undefined.

(** [ok] is the success of [calloc] and the absence of a spurious failure of
    the weak compare-and-swap. *)
Definition tstep (ok : bool) (q : tp_mpsc_queue_t) (p : pc) : tp_mpsc_queue_t * pc :=
  match p with
  | Ready _ | Undefined => (q, p)
  | OfferCheck item => (q, if slots q is Some _ then OfferSize item else OfferAlloc item)
  | OfferAlloc item =>
    match tp_mpsc_queue_alloc_slots q (Z.of_nat (length item)) ok with
    | Ok q' => (q', OfferSize item)
    | Err e => (q, Ready (Some (OfferFailed e)))
    end
  | OfferSize item =>
    (q, if Z.of_nat (length item) =? item_size q then OfferTail item
        else Ready (Some (OfferFailed EINVAL)))
  | OfferTail item => (q, OfferLoad item (tail q))
  | OfferLoad item pos =>
    (q, match tp_mpsc_slot_at q pos with
        | None => Undefined
        | Some slot =>
          match intptr_diff (sequence slot) pos with
          | None => Undefined
          | Some diff =>
            if diff =? 0 then OfferCas item pos
            else if diff <? 0 then Ready (Some (OfferFailed EAGAIN))
            else OfferTail item
          end
        end)
  | OfferCas item pos =>
    if ok && (tail q =? pos) then (set_tail q (u64 (pos + 1)), OfferCopy item pos)
    else (q, OfferLoad item (tail q))
  | OfferCopy item pos =>
    match tp_mpsc_slot_at q pos with
    | None => (q, Undefined)
    | Some slot =>
      (store_slot q pos {| sequence := sequence slot; data := item |}, OfferPublish item pos)
    end
  | OfferPublish item pos =>
    match tp_mpsc_slot_at q pos with
    | None => (q, Undefined)
    | Some slot =>
      (store_slot q pos {| sequence := u64 (pos + 1); data := data slot |}, Ready (Some Offered))
    end
  | PollCheck size =>
    (q, match slots q with
        | None => Ready (Some (PollFailed EINVAL))
        | Some _ => if size =? item_size q then PollHead else Ready (Some (PollFailed EINVAL))
        end)
  | PollHead => (q, PollLoad (head q))
  | PollLoad pos =>
    (q, match tp_mpsc_slot_at q pos with
        | None => Undefined
        | Some slot =>
          match intptr_diff (sequence slot) (u64 (pos + 1)) with
          | None => Undefined
          | Some diff =>
            if diff =? 0 then PollCas pos
            else if diff <? 0 then Ready (Some PollEmpty)
            else PollHead
          end
        end)
  | PollCas pos =>
    if ok && (head q =? pos) then (set_head q (u64 (pos + 1)), PollCopy pos)
    else (q, PollLoad (head q))
  | PollCopy pos =>
    (q, match tp_mpsc_slot_at q pos with
        | None => Undefined
        | Some slot => PollRelease pos (data slot)
        end)
  | PollRelease pos item =>
    match tp_mpsc_slot_at q pos with
    | None => (q, Undefined)
    | Some slot =>
      (store_slot q pos {| sequence := u64 (pos + mask q + 1); data := data slot |},
       Ready (Some (Polled item)))
    end
  end.

(** A thread that is not in a call starts one. *)
Definition starts (p : pc) : bool :=
  match p with OfferCheck _ | PollCheck _ => true | _ => false end.

(** ** The threads

    Two ghost fields follow a run: the items in the order in which their
    positions were claimed at the tail, and what the polls returned, by
    position. *)
Record qsys := {
  queue : tp_mpsc_queue_t;
  threads : nat -> pc;
  sent : list (list Z);
  delivered : list (Z * list Z);
}.

Definition sent_by (p p' : pc) : list (list Z) :=
  match p, p' with OfferCas item _, OfferCopy _ _ => [item] | _, _ => [] end.
Definition delivered_by (p p' : pc) : list (Z * list Z) :=
  match p, p' with PollRelease pos item, Ready _ => [(pos, item)] | _, _ => [] end.

Definition qrun (s : qsys) (t : nat) (ok : bool) : qsys :=
  let '(q', p') := tstep ok (queue s) (threads s t) in
  {| queue := q'; threads := <[t := p']> (threads s);
     sent := sent s ++ sent_by (threads s t) p';
     delivered := delivered s ++ delivered_by (threads s t) p' |}.

Definition qcall (s : qsys) (t : nat) (p : pc) : qsys :=
  {| queue := queue s; threads := <[t := p]> (threads s); sent := sent s;
     delivered := delivered s |}.

Inductive qstep : qsys -> qsys -> Prop :=
  | QRun s t ok : qstep s (qrun s t ok)
  | QCall s t last p :
      threads s t = Ready last -> starts p = true -> qstep s (qcall s t p).

Definition qreach : qsys -> qsys -> Prop := rtc qstep.

(** A queue whose slots were allocated, with no thread in a call. *)
Definition qstart (q : tp_mpsc_queue_t) : qsys :=
  {| queue := q; threads := fun _ => Ready None; sent := []; delivered := [] |}.

(** ** Invariant *)

Definition writing (p : pc) (pos : Z) : Prop :=
  match p with OfferCopy _ pos' | OfferPublish _ pos' => pos' = pos | _ => False end.
Definition reading (p : pc) (pos : Z) : Prop :=
  match p with PollCopy pos' | PollRelease pos' _ => pos' = pos | _ => False end.

(** The slot of a position has a sequence number, and a content. *)
Definition seq_at (q : tp_mpsc_queue_t) (pos n : Z) : Prop :=
  exists slot, tp_mpsc_slot_at q pos = Some slot /\ sequence slot = n.
Definition data_at (q : tp_mpsc_queue_t) (pos : Z) (d : list Z) : Prop :=
  exists slot, tp_mpsc_slot_at q pos = Some slot /\ data slot = d.

Definition sent_at (sent : list (list Z)) (pos : Z) (item : list Z) : Prop :=
  sent !! Z.to_nat pos = Some item.

(** The shape of the queue and the bounds on its counters. *)
Record queue_ok (q : tp_mpsc_queue_t) : Prop := {
  qo_cap : 2 <= capacity q;
  qo_pow : tp_is_power_of_two (capacity q) = true;
  qo_mask : mask q = capacity q - 1;
  qo_slots : exists l, slots q = Some l /\ Z.of_nat (length l) = capacity q;
  qo_head : 0 <= head q;
  qo_order : head q <= tail q;
  qo_full : tail q <= head q + capacity q;
  qo_width : tail q + capacity q < 2 ^ 63;
}.

Definition thread_inv (q : tp_mpsc_queue_t) (sent : list (list Z)) (p : pc) : Prop :=
  match p with
  | OfferLoad _ pos => 0 <= pos <= tail q
  | OfferCas _ pos => 0 <= pos <= tail q /\ (pos = tail q -> seq_at q pos pos)
  | OfferCopy item pos =>
    head q <= pos < tail q /\ seq_at q pos pos /\ sent_at sent pos item
  | OfferPublish item pos =>
    head q <= pos < tail q /\ seq_at q pos pos /\ sent_at sent pos item /\ data_at q pos item
  | PollLoad pos => 0 <= pos <= head q
  | PollCas pos => 0 <= pos <= head q /\ (pos = head q -> seq_at q pos (pos + 1))
  | PollCopy pos =>
    0 <= pos < head q /\ tail q <= pos + capacity q /\ seq_at q pos (pos + 1) /\
    exists item, sent_at sent pos item /\ data_at q pos item
  | PollRelease pos item =>
    0 <= pos < head q /\ tail q <= pos + capacity q /\ seq_at q pos (pos + 1) /\
    sent_at sent pos item
  | OfferAlloc _ | Undefined => False
  | _ => True
  end.

(** The slot of position [i] is free for position [p] or holds it. *)
Definition slot_inv (q : tp_mpsc_queue_t) (sent : list (list Z)) (threads : nat -> pc) (i : Z)
    : Prop :=
  exists p, 0 <= p /\ p mod capacity q = i mod capacity q /\
    ((seq_at q i p /\ p < head q + capacity q /\
      (tail q <= p \/ exists t, writing (threads t) p)) \/
     (seq_at q i (p + 1) /\ p < tail q /\ tail q <= p + capacity q /\
      ((head q <= p /\ exists item, sent_at sent p item /\ data_at q i item) \/
       exists t, reading (threads t) p))).

Record qinv (s : qsys) : Prop := {
  qi_queue : queue_ok (queue s);
  qi_sent : Z.of_nat (length (sent s)) = tail (queue s);
  qi_threads : forall t, thread_inv (queue s) (sent s) (threads s t);
  qi_slots : forall i, 0 <= i -> slot_inv (queue s) (sent s) (threads s) i;
  qi_writers : forall t t' p, writing (threads s t) p -> writing (threads s t') p -> t = t';
  qi_readers : forall t t' p, reading (threads s t) p -> reading (threads s t') p -> t = t';
  qi_nodup : NoDup (delivered s).*1;
  qi_delivered : forall p x, (p, x) ∈ delivered s ->
    0 <= p < head (queue s) /\ sent_at (sent s) p x /\ forall t, ~ reading (threads s t) p;
  qi_complete : forall p, 0 <= p < head (queue s) ->
    p ∈ (delivered s).*1 \/ exists t, reading (threads s t) p;
}.

(** ** Slots *)

Section Slots.
Context (q : tp_mpsc_queue_t) (Hq : queue_ok q).

Lemma slot_index_mod pos : slot_index q pos = Z.to_nat (pos mod capacity q).
Proof.
  unfold slot_index. destruct Hq. rewrite qo_mask0. f_equal.
  apply land_power_of_two_mod; [lia|done].
Qed.

Lemma slot_at_mod pos pos' :
  pos mod capacity q = pos' mod capacity q -> tp_mpsc_slot_at q pos = tp_mpsc_slot_at q pos'.
Proof. intros H. unfold tp_mpsc_slot_at. by rewrite !slot_index_mod, H. Qed.

Lemma slot_at_total pos : exists slot, tp_mpsc_slot_at q pos = Some slot.
Proof.
  destruct (qo_slots q Hq) as (l & Hl & Hlen). unfold tp_mpsc_slot_at. rewrite Hl. simpl.
  apply lookup_lt_is_Some. rewrite slot_index_mod.
  pose proof (Z.mod_pos_bound pos (capacity q) ltac:(destruct Hq; lia)). lia.
Qed.

Lemma store_slot_ok pos s : queue_ok (store_slot q pos s).
Proof.
  destruct (qo_slots q Hq) as (l & Hl & Hlen). unfold store_slot. rewrite Hl.
  destruct Hq. constructor; simpl; try done. eexists. split; [done|]. by rewrite length_insert.
Qed.

Lemma slot_at_store pos s pos' :
  tp_mpsc_slot_at (store_slot q pos s) pos' =
  if decide (pos mod capacity q = pos' mod capacity q) then Some s else tp_mpsc_slot_at q pos'.
Proof.
  destruct (qo_slots q Hq) as (l & Hl & Hlen).
  assert (Hb : forall x, (Z.to_nat (x mod capacity q) < length l)%nat).
  { intros x. pose proof (Z.mod_pos_bound x (capacity q) ltac:(destruct Hq; lia)). lia. }
  assert (Hidx : forall x, slot_index (store_slot q pos s) x = Z.to_nat (x mod capacity q)).
  { intros x. unfold store_slot. rewrite Hl. apply slot_index_mod. }
  unfold tp_mpsc_slot_at at 1. rewrite Hidx.
  unfold store_slot at 1. rewrite Hl. simpl. rewrite slot_index_mod.
  destruct (decide _) as [E|E].
  - rewrite E. by apply list_lookup_insert_eq.
  - rewrite list_lookup_insert_ne.
    + unfold tp_mpsc_slot_at. rewrite Hl. simpl. by rewrite slot_index_mod.
    + pose proof (Z.mod_pos_bound pos (capacity q) ltac:(destruct Hq; lia)).
      pose proof (Z.mod_pos_bound pos' (capacity q) ltac:(destruct Hq; lia)). lia.
Qed.

Lemma seq_at_unique pos pos' a b :
  pos mod capacity q = pos' mod capacity q -> seq_at q pos a -> seq_at q pos' b -> a = b.
Proof.
  intros Hm (s1 & H1 & <-) (s2 & H2 & <-). rewrite (slot_at_mod _ _ Hm) in H1. congruence.
Qed.

(** Neighbouring positions have different slots: there are at least two. *)
Lemma succ_other_slot p : (p + 1) mod capacity q <> p mod capacity q.
Proof.
  intros E. assert (p + 1 = p); [|lia].
  apply (mod_eq_close _ _ (capacity q)); [destruct Hq; lia|done|destruct Hq; lia].
Qed.

End Slots.

(** The projections a store does not change. *)
Lemma store_slot_fields q pos s :
  capacity (store_slot q pos s) = capacity q /\ head (store_slot q pos s) = head q /\
  tail (store_slot q pos s) = tail q.
Proof. unfold store_slot. by destruct (slots q). Qed.

(** What a store leaves at another slot. *)
Lemma seq_at_store_other q pos s pos' n :
  queue_ok q -> pos mod capacity q <> pos' mod capacity q ->
  seq_at (store_slot q pos s) pos' n <-> seq_at q pos' n.
Proof. intros Hq Hne. unfold seq_at. rewrite slot_at_store by done. by rewrite decide_False. Qed.
Lemma data_at_store_other q pos s pos' d :
  queue_ok q -> pos mod capacity q <> pos' mod capacity q ->
  data_at (store_slot q pos s) pos' d <-> data_at q pos' d.
Proof. intros Hq Hne. unfold data_at. rewrite slot_at_store by done. by rewrite decide_False. Qed.
Lemma seq_at_store_same q pos s pos' :
  queue_ok q -> pos mod capacity q = pos' mod capacity q ->
  seq_at (store_slot q pos s) pos' (sequence s).
Proof. intros Hq He. unfold seq_at. rewrite slot_at_store by done. rewrite decide_True; eauto. Qed.
Lemma data_at_store_same q pos s pos' :
  queue_ok q -> pos mod capacity q = pos' mod capacity q ->
  data_at (store_slot q pos s) pos' (data s).
Proof. intros Hq He. unfold data_at. rewrite slot_at_store by done. rewrite decide_True; eauto. Qed.

Lemma sent_at_app l l' p x : sent_at l p x -> sent_at (l ++ l') p x.
Proof. apply lookup_app_l_Some. Qed.

(** ** Preservation *)

Lemma writing_unique p a b : writing p a -> writing p b -> a = b.
Proof. destruct p; simpl; (done || congruence). Qed.
Lemma reading_unique p a b : reading p a -> reading p b -> a = b.
Proof. destruct p; simpl; (done || congruence). Qed.

Lemma writing_inv q sent p pos :
  writing p pos -> thread_inv q sent p -> head q <= pos < tail q /\ seq_at q pos pos.
Proof. destruct p; simpl; try done; intros ->; tauto. Qed.
Lemma reading_inv q sent p pos :
  reading p pos -> thread_inv q sent p ->
  0 <= pos < head q /\ tail q <= pos + capacity q /\ seq_at q pos (pos + 1).
Proof. destruct p; simpl; try done; intros ->; tauto. Qed.

(** Two threads never work on one slot. *)
Lemma busy_other_slot s t t' a b :
  qinv s -> t <> t' ->
  writing (threads s t) a \/ reading (threads s t) a ->
  writing (threads s t') b \/ reading (threads s t') b ->
  a mod capacity (queue s) <> b mod capacity (queue s).
Proof.
  intros Hi Hne Ha Hb E. pose proof (qi_queue s Hi) as Hq.
  pose proof (qi_threads s Hi t) as Ht. pose proof (qi_threads s Hi t') as Ht'.
  destruct Ha as [Ha|Ha], Hb as [Hb|Hb].
  - apply (writing_inv _ _ _ _ Ha) in Ht as [_ Ht]. apply (writing_inv _ _ _ _ Hb) in Ht' as Ht''.
    destruct Ht'' as [_ Ht'']. pose proof (seq_at_unique _ Hq _ _ _ _ E Ht Ht''). subst b.
    apply Hne. by apply (qi_writers s Hi _ _ a).
  - apply (writing_inv _ _ _ _ Ha) in Ht as [_ Ht].
    apply (reading_inv _ _ _ _ Hb) in Ht' as (_ & _ & Ht').
    pose proof (seq_at_unique _ Hq _ _ _ _ E Ht Ht'). subst a. by apply (succ_other_slot _ Hq b).
  - apply (writing_inv _ _ _ _ Hb) in Ht' as [_ Ht'].
    apply (reading_inv _ _ _ _ Ha) in Ht as (_ & _ & Ht).
    pose proof (seq_at_unique _ Hq _ _ _ _ E Ht Ht'). subst b. by apply (succ_other_slot _ Hq a).
  - apply (reading_inv _ _ _ _ Ha) in Ht as (_ & _ & Ht).
    apply (reading_inv _ _ _ _ Hb) in Ht' as (_ & _ & Ht').
    pose proof (seq_at_unique _ Hq _ _ _ _ E Ht Ht').
    assert (a = b) by lia. subst b. apply Hne. by apply (qi_readers s Hi _ _ a).
Qed.

Lemma update_iff (P : pc -> Z -> Prop) (th : nat -> pc) t p' :
  (forall pos, P p' pos <-> P (th t) pos) ->
  forall t' pos, P (<[t := p']> th t') pos <-> P (th t') pos.
Proof.
  intros H t' pos. destruct (decide (t' = t)) as [->|Hne].
  - by rewrite fn_lookup_insert.
  - by rewrite fn_lookup_insert_ne.
Qed.

(** A step that only moves the thread's program counter. *)
Lemma qinv_local s t p' :
  qinv s -> thread_inv (queue s) (sent s) p' ->
  (forall pos, writing p' pos <-> writing (threads s t) pos) ->
  (forall pos, reading p' pos <-> reading (threads s t) pos) ->
  qinv {| queue := queue s; threads := <[t := p']> (threads s); sent := sent s;
          delivered := delivered s |}.
Proof.
  intros Hi Hp Hw Hr.
  pose proof (update_iff writing _ _ _ Hw) as Hw'. pose proof (update_iff reading _ _ _ Hr) as Hr'.
  destruct Hi. constructor; cbn [queue threads sent delivered]; try done.
  - intros t'. destruct (decide (t' = t)) as [->|Hne].
    + by rewrite fn_lookup_insert.
    + by rewrite fn_lookup_insert_ne.
  - intros i Hi. destruct (qi_slots0 i Hi) as (p & H0 & Hm & Hs). exists p.
    setoid_rewrite Hw'. setoid_rewrite Hr'. done.
  - intros ? ? ?. rewrite !Hw'. apply qi_writers0.
  - intros ? ? ?. rewrite !Hr'. apply qi_readers0.
  - intros p x Hx. setoid_rewrite Hr'. by apply qi_delivered0.
  - intros p Hpos. setoid_rewrite Hr'. by apply qi_complete0.
Qed.

(** Threads that work elsewhere keep their invariant across a store. *)
Lemma thread_inv_store q sent p pos slot :
  queue_ok q -> thread_inv q sent p ->
  (forall x, writing p x \/ reading p x -> x mod capacity q <> pos mod capacity q) ->
  (pos mod capacity q = tail q mod capacity q -> ~ seq_at q pos (tail q)) ->
  (pos mod capacity q = head q mod capacity q -> ~ seq_at q pos (head q + 1)) ->
  thread_inv (store_slot q pos slot) sent p.
Proof.
  intros Hq Ht Hother Hnt Hnh. destruct (store_slot_fields q pos slot) as (Ec & Eh & Et).
  assert (Hs : forall x n, x mod capacity q <> pos mod capacity q -> seq_at q x n ->
            seq_at (store_slot q pos slot) x n).
  { intros x n Hne. by apply seq_at_store_other. }
  assert (Hd : forall x n, x mod capacity q <> pos mod capacity q -> data_at q x n ->
            data_at (store_slot q pos slot) x n).
  { intros x n Hne. by apply data_at_store_other. }
  assert (Hmove : forall x n, pos mod capacity q = x mod capacity q -> seq_at q x n -> seq_at q pos n).
  { intros x n E (sl & Hsl & Hn). exists sl. by rewrite (slot_at_mod q Hq _ _ E). }
  destruct p; simpl in *; rewrite ?Ec, ?Eh, ?Et; try done.
  - destruct Ht as [Hb Hc]. split; [done|]. intros ->.
    destruct (decide (pos mod capacity q = tail q mod capacity q)) as [E|E].
    + exfalso. apply (Hnt E). by apply (Hmove _ _ E), Hc.
    + apply Hs; auto.
  - destruct Ht as (Hb & Hc & Hx). split; [done|]. split; [apply Hs; auto|done].
  - destruct Ht as (Hb & Hc & Hx & Hy). split; [done|]. split; [apply Hs; auto|].
    split; [done|]. apply Hd; auto.
  - destruct Ht as [Hb Hc]. split; [done|]. intros ->.
    destruct (decide (pos mod capacity q = head q mod capacity q)) as [E|E].
    + exfalso. apply (Hnh E). by apply (Hmove _ _ E), Hc.
    + apply Hs; auto.
  - destruct Ht as (Hb & Hc & Hx & item & Hy & Hz). split; [done|]. split; [done|].
    split; [apply Hs; auto|]. exists item. split; [done|]. apply Hd; auto.
  - destruct Ht as (Hb & Hc & Hx & Hy). split; [done|]. split; [done|].
    split; [apply Hs; auto|done].
Qed.

(** A slot that is being worked on is neither free for the tail nor full for the head. *)
Lemma busy_not_next s t pos :
  qinv s -> writing (threads s t) pos \/ reading (threads s t) pos ->
  (pos mod capacity (queue s) = tail (queue s) mod capacity (queue s) ->
   ~ seq_at (queue s) pos (tail (queue s))) /\
  (pos mod capacity (queue s) = head (queue s) mod capacity (queue s) ->
   ~ seq_at (queue s) pos (head (queue s) + 1)).
Proof.
  intros Hi Hb. pose proof (qi_queue s Hi) as Hq. pose proof (qi_threads s Hi t) as Ht.
  pose proof (succ_other_slot _ Hq) as Hsucc.
  split; intros E H; destruct Hb as [Hw|Hr].
  - apply (writing_inv _ _ _ _ Hw) in Ht as [? Ht].
    pose proof (seq_at_unique _ Hq _ _ _ _ eq_refl H Ht). lia.
  - apply (reading_inv _ _ _ _ Hr) in Ht as (? & ? & Ht).
    pose proof (seq_at_unique _ Hq _ _ _ _ eq_refl H Ht) as En.
    apply (Hsucc pos). by rewrite <- En, E.
  - apply (writing_inv _ _ _ _ Hw) in Ht as [? Ht].
    pose proof (seq_at_unique _ Hq _ _ _ _ eq_refl H Ht) as En.
    apply (Hsucc (head (queue s))). by rewrite En.
  - apply (reading_inv _ _ _ _ Hr) in Ht as (? & ? & Ht).
    pose proof (seq_at_unique _ Hq _ _ _ _ eq_refl H Ht). lia.
Qed.

(** A step that stores to the slot its thread works on. *)
Lemma qinv_store s t pos slot p' dl :
  qinv s -> writing (threads s t) pos \/ reading (threads s t) pos ->
  let q' := store_slot (queue s) pos slot in
  let th' := <[t := p']> (threads s) in
  let s' := {| queue := q'; threads := th'; sent := sent s; delivered := dl |} in
  thread_inv q' (sent s) p' ->
  (forall x, writing p' x -> writing (threads s t) x) ->
  (forall x, reading p' x -> reading (threads s t) x) ->
  slot_inv q' (sent s) th' pos ->
  NoDup dl.*1 ->
  (forall p x, (p, x) ∈ dl -> 0 <= p < head (queue s) /\ sent_at (sent s) p x /\
     forall t, ~ reading (th' t) p) ->
  (forall p, 0 <= p < head (queue s) -> p ∈ dl.*1 \/ exists t, reading (th' t) p) ->
  qinv s'.
Proof.
  intros Hi Hbusy q' th' s' Hp Hw Hr Hslot Hnd Hdel Hcompl.
  pose proof (qi_queue s Hi) as Hq.
  destruct (store_slot_fields (queue s) pos slot) as (Ec & Eh & Et). fold q' in Ec, Eh, Et.
  destruct (busy_not_next s t pos Hi Hbusy) as [Hnt Hnh].
  assert (Hsub : forall (P : pc -> Z -> Prop), (forall x, P p' x -> P (threads s t) x) ->
    forall t' x, P (th' t') x -> P (threads s t') x).
  { intros P HP t' x. unfold th'. destruct (decide (t' = t)) as [->|Hne].
    - rewrite fn_lookup_insert. apply HP.
    - by rewrite fn_lookup_insert_ne. }
  assert (Hkeep : forall (P : pc -> Z -> Prop) x t', (P = writing \/ P = reading) ->
    x mod capacity (queue s) <> pos mod capacity (queue s) ->
    P (threads s t') x -> P (th' t') x).
  { intros P x t' HP Hne Hx. unfold th'. rewrite fn_lookup_insert_ne; [done|]. intros <-.
    apply Hne. pose proof (qi_threads s Hi t) as Ht.
    destruct Hbusy as [Hb|Hb], HP as [-> | ->];
      [by rewrite (writing_unique _ _ _ Hx Hb)| | |by rewrite (reading_unique _ _ _ Hx Hb)];
      by destruct (threads s t). }
  constructor; cbn [queue threads sent delivered s'].
  - by apply store_slot_ok.
  - rewrite Et. apply Hi.
  - intros t'. unfold th'. destruct (decide (t' = t)) as [->|Hne].
    + by rewrite fn_lookup_insert.
    + rewrite fn_lookup_insert_ne by done. apply thread_inv_store; try done; [apply Hi|].
      intros x Hx. apply (busy_other_slot s t' t); auto.
  - intros i Hi0. destruct (decide (i mod capacity (queue s) = pos mod capacity (queue s))) as [E|E].
    + destruct Hslot as (p & H0 & Hm & Hs). rewrite Ec in Hm. exists p.
      split; [done|]. rewrite Ec, E. split; [done|]. rewrite Ec in Hs.
      assert (Hsl : tp_mpsc_slot_at q' i = tp_mpsc_slot_at q' pos).
      { apply slot_at_mod; [by apply store_slot_ok|]. by rewrite Ec. }
      unfold seq_at, data_at in *. by rewrite Hsl.
    + destruct (qi_slots s Hi i Hi0) as (p & H0 & Hm & Hs). exists p.
      split; [done|]. rewrite Ec, Eh, Et. split; [done|].
      assert (Hpp : p mod capacity (queue s) <> pos mod capacity (queue s)) by congruence.
      unfold q'. rewrite !seq_at_store_other by (done || congruence).
      destruct Hs as [(A & B & C)|(A & B & C & D)]; [left|right]; split_and!; try done.
      * destruct C as [?|[t' ?]]; [by left|right; exists t'; apply (Hkeep writing); auto].
      * destruct D as [(? & item & ? & ?)|[t' ?]].
        -- left. split; [done|]. exists item. split; [done|].
           by apply data_at_store_other; [|congruence|].
        -- right. exists t'. apply (Hkeep reading); auto.
  - intros a b p Ha Hb. apply (qi_writers s Hi a b p); by apply (Hsub writing).
  - intros a b p Ha Hb. apply (qi_readers s Hi a b p); by apply (Hsub reading).
  - done.
  - by rewrite Eh.
  - by rewrite Eh.
Qed.

(** A thread that was not busy gets a new program counter: the busy ones keep theirs. *)
Lemma update_keep (P : pc -> Z -> Prop) (th : nat -> pc) t p' t' x :
  (forall y, ~ P (th t) y) -> P (th t') x -> P (<[t := p']> th t') x.
Proof.
  intros Hn Hx. rewrite fn_lookup_insert_ne; [done|]. intros <-. by apply (Hn x).
Qed.

Lemma seq_at_mod q x y n :
  queue_ok q -> x mod capacity q = y mod capacity q -> seq_at q x n -> seq_at q y n.
Proof. intros Hq E (sl & Hs & Hn). exists sl. by rewrite <- (slot_at_mod q Hq _ _ E). Qed.

(** *** The tail compare-and-swap *)

(** A full slot is not the one the tail is about to reuse. *)
Lemma tail_not_full q x :
  queue_ok q -> seq_at q (tail q) (tail q) -> seq_at q x (x + 1) ->
  tail q <= x + capacity q -> tail q + 1 <= x + capacity q.
Proof.
  intros Hq Ht Hx Hle. destruct (decide (tail q = x + capacity q)) as [E|]; [exfalso|lia].
  pose proof (qo_cap q Hq). assert (x + 1 = tail q); [|lia].
  apply (seq_at_unique q Hq x (tail q)); [|done..].
  rewrite E. replace (x + capacity q) with (x + 1 * capacity q) by lia.
  by rewrite Z.mod_add by lia.
Qed.

Lemma thread_inv_tail q sent p item :
  queue_ok q -> seq_at q (tail q) (tail q) -> thread_inv q sent p ->
  thread_inv (set_tail q (tail q + 1)) (sent ++ [item]) p.
Proof.
  intros Hq Ht. destruct p; simpl; try done; try lia.
  - intros (? & ? & ?). split; [lia|]. split; [done|]. by apply sent_at_app.
  - intros (? & ? & ? & ?). split; [lia|]. split; [done|]. split; [by apply sent_at_app|done].
  - intros (? & ? & ? & x & ? & ?). split; [done|]. split; [by apply tail_not_full|].
    split; [done|]. exists x. split; [by apply sent_at_app|done].
  - intros (? & ? & ? & ?). split; [done|]. split; [by apply tail_not_full|].
    split; [done|]. by apply sent_at_app.
Qed.

Lemma slot_inv_tail q sent th t item i :
  queue_ok q -> seq_at q (tail q) (tail q) -> th t = OfferCas item (tail q) ->
  slot_inv q sent th i ->
  slot_inv (set_tail q (tail q + 1)) (sent ++ [item]) (<[t := OfferCopy item (tail q)]> th) i.
Proof.
  intros Hq Ht Hpc (p & H0 & Hm & Hs). exists p. split; [done|]. split; [done|].
  cbn [capacity head tail set_tail].
  destruct Hs as [(A & B & C)|(A & B & C & D)]; [left|right]; split_and!; try done; try lia.
  - destruct C as [C|[t' C]].
    + destruct (decide (p = tail q)) as [->|]; [|left; lia]. right. exists t.
      by rewrite fn_lookup_insert.
    + right. exists t'. apply update_keep; [rewrite Hpc; by intros ? []|done].
  - apply tail_not_full; try done. by apply (seq_at_mod q i p).
  - destruct D as [(? & x & ? & ?)|[t' ?]]; [left|right].
    + split; [done|]. exists x. split; [by apply sent_at_app|done].
    + exists t'. apply update_keep; [rewrite Hpc; by intros ? []|done].
Qed.

(** The position at the tail is free only within the capacity. *)
Lemma tail_room s :
  qinv s -> seq_at (queue s) (tail (queue s)) (tail (queue s)) ->
  tail (queue s) < head (queue s) + capacity (queue s).
Proof.
  intros Hi Hc. pose proof (qi_queue s Hi) as Hq.
  destruct (qi_slots s Hi (tail (queue s))) as (p & H0 & Hm & [(A & B & _)|(A & B & _)]);
    [destruct Hq; lia| |]; pose proof (seq_at_unique _ Hq _ _ _ _ eq_refl Hc A) as E.
  - lia.
  - exfalso. apply (succ_other_slot _ Hq p). congruence.
Qed.

Lemma qinv_claim_tail s t item :
  qinv s -> threads s t = OfferCas item (tail (queue s)) ->
  tail (queue s) + 1 + capacity (queue s) < 2 ^ 63 ->
  qinv {| queue := set_tail (queue s) (tail (queue s) + 1);
          threads := <[t := OfferCopy item (tail (queue s))]> (threads s);
          sent := sent s ++ [item]; delivered := delivered s |}.
Proof.
  intros Hi Hpc Hwidth. pose proof (qi_queue s Hi) as Hq.
  pose proof (qi_threads s Hi t) as Ht. rewrite Hpc in Ht. destruct Ht as [Hb Hc].
  specialize (Hc eq_refl). pose proof (tail_room s Hi Hc) as Hroom.
  pose proof (qi_sent s Hi) as Hlen.
  assert (Hbelow : forall t' p, writing (threads s t') p -> p < tail (queue s)).
  { intros t' p Hw. pose proof (qi_threads s Hi t') as Ht'.
    apply (writing_inv _ _ _ _ Hw) in Ht'. lia. }
  constructor; cbn [queue threads sent delivered].
  - destruct Hq. constructor; simpl; try done; lia.
  - rewrite length_app. simpl. lia.
  - intros t'. destruct (decide (t' = t)) as [->|Hne].
    + rewrite fn_lookup_insert. simpl. split; [destruct Hq; lia|]. split; [done|].
      unfold sent_at. rewrite lookup_app_r by lia.
      by replace (Z.to_nat (tail (queue s)) - length (sent s))%nat with 0%nat by lia.
    + rewrite fn_lookup_insert_ne by done. by apply thread_inv_tail, Hi.
  - intros i Hi0. by apply slot_inv_tail, Hi.
  - intros a b p. destruct (decide (a = t)) as [->|Ha], (decide (b = t)) as [->|Hb0];
      rewrite ?fn_lookup_insert, ?fn_lookup_insert_ne by done; try done; simpl.
    + intros <- Hw%Hbelow. lia.
    + intros Hw%Hbelow <-. lia.
    + apply Hi.
  - intros a b p. destruct (decide (a = t)) as [->|Ha], (decide (b = t)) as [->|Hb0];
      rewrite ?fn_lookup_insert, ?fn_lookup_insert_ne by done; try done. apply Hi.
  - apply Hi.
  - intros p x Hx. destruct (qi_delivered s Hi p x Hx) as (? & ? & Hnr).
    split; [done|]. split; [by apply sent_at_app|]. intros t'.
    destruct (decide (t' = t)) as [->|]; [rewrite fn_lookup_insert; by intros []|].
    by rewrite fn_lookup_insert_ne.
  - intros p Hp. destruct (qi_complete s Hi p Hp) as [|[t' Hr]]; [by left|right].
    exists t'. apply update_keep; [rewrite Hpc; by intros ? []|done].
Qed.

(** *** The head compare-and-swap *)

(** A slot full for the head holds the item sent at that position. *)
Lemma head_full s :
  qinv s -> seq_at (queue s) (head (queue s)) (head (queue s) + 1) ->
  head (queue s) < tail (queue s) /\
  exists item, sent_at (sent s) (head (queue s)) item /\ data_at (queue s) (head (queue s)) item.
Proof.
  intros Hi Hc. pose proof (qi_queue s Hi) as Hq.
  destruct (qi_slots s Hi (head (queue s))) as (p & H0 & Hm & [(A & B & _)|(A & B & _ & D)]);
    [destruct Hq; lia| |]; pose proof (seq_at_unique _ Hq _ _ _ _ eq_refl Hc A) as E.
  - exfalso. apply (succ_other_slot _ Hq (head (queue s))). congruence.
  - assert (p = head (queue s)) as -> by lia. split; [done|].
    destruct D as [(_ & item & ? & ?)|[t' Hr]]; [by exists item|].
    pose proof (qi_threads s Hi t') as Ht'. apply (reading_inv _ _ _ _ Hr) in Ht'. lia.
Qed.

Lemma thread_inv_head q sent p :
  queue_ok q -> seq_at q (head q) (head q + 1) -> thread_inv q sent p ->
  thread_inv (set_head q (head q + 1)) sent p.
Proof.
  intros Hq Hh.
  assert (Hne : forall x, head q <= x -> seq_at q x x -> head q + 1 <= x).
  { intros x Hle Hx. destruct (decide (x = head q)) as [->|]; [|lia].
    pose proof (seq_at_unique q Hq _ _ _ _ eq_refl Hh Hx). lia. }
  destruct p; simpl; try done; try lia.
  - intros (? & ? & ?). split; [|done]. split; [|lia]. apply Hne; [lia|done].
  - intros (? & ? & ? & ?). split; [|done]. split; [|lia]. apply Hne; [lia|done].
  - intros (? & ? & ? & x & ? & ?). split; [lia|]. split_and!; try done. by exists x.
  - intros (? & ? & ? & ?). split; [lia|]. done.
Qed.

Lemma slot_inv_head q sent th t i :
  queue_ok q -> th t = PollCas (head q) -> slot_inv q sent th i ->
  slot_inv (set_head q (head q + 1)) sent (<[t := PollCopy (head q)]> th) i.
Proof.
  intros Hq Hpc (p & H0 & Hm & Hs). exists p. split; [done|]. split; [done|].
  cbn [capacity head tail set_head].
  destruct Hs as [(A & B & C)|(A & B & C & D)]; [left|right]; split_and!; try done; try lia.
  - destruct C as [C|[t' C]]; [by left|right]. exists t'.
    apply update_keep; [rewrite Hpc; by intros ? []|done].
  - destruct D as [(? & x & ? & ?)|[t' ?]].
    + destruct (decide (p = head q)) as [->|].
      * right. exists t. by rewrite fn_lookup_insert.
      * left. split; [lia|]. by exists x.
    + right. exists t'. apply update_keep; [rewrite Hpc; by intros ? []|done].
Qed.

Lemma qinv_claim_head s t :
  qinv s -> threads s t = PollCas (head (queue s)) ->
  qinv {| queue := set_head (queue s) (head (queue s) + 1);
          threads := <[t := PollCopy (head (queue s))]> (threads s);
          sent := sent s; delivered := delivered s |}.
Proof.
  intros Hi Hpc. pose proof (qi_queue s Hi) as Hq.
  pose proof (qi_threads s Hi t) as Ht. rewrite Hpc in Ht. destruct Ht as [Hb Hc].
  specialize (Hc eq_refl). destruct (head_full s Hi Hc) as [Hroom Hitem].
  assert (Hbelow : forall t' p, reading (threads s t') p -> p < head (queue s)).
  { intros t' p Hw. pose proof (qi_threads s Hi t') as Ht'.
    apply (reading_inv _ _ _ _ Hw) in Ht'. lia. }
  constructor; cbn [queue threads sent delivered].
  - destruct Hq. constructor; simpl; try done; lia.
  - apply Hi.
  - intros t'. destruct (decide (t' = t)) as [->|Hne].
    + rewrite fn_lookup_insert. simpl. destruct Hq. split; [lia|]. split; [lia|]. done.
    + rewrite fn_lookup_insert_ne by done. by apply thread_inv_head, Hi.
  - intros i Hi0. by apply slot_inv_head, Hi.
  - intros a b p. destruct (decide (a = t)) as [->|Ha], (decide (b = t)) as [->|Hb0];
      rewrite ?fn_lookup_insert, ?fn_lookup_insert_ne by done; try done. apply Hi.
  - intros a b p. destruct (decide (a = t)) as [->|Ha], (decide (b = t)) as [->|Hb0];
      rewrite ?fn_lookup_insert, ?fn_lookup_insert_ne by done; try done; simpl.
    + intros <- Hw%Hbelow. lia.
    + intros Hw%Hbelow <-. lia.
    + apply Hi.
  - apply Hi.
  - intros p x Hx. destruct (qi_delivered s Hi p x Hx) as (? & ? & Hnr). cbn.
    split; [lia|]. split; [done|]. intros t'.
    destruct (decide (t' = t)) as [->|].
    + rewrite fn_lookup_insert. simpl. lia.
    + by rewrite fn_lookup_insert_ne.
  - intros p Hp. cbn in Hp. destruct (decide (p = head (queue s))) as [->|].
    + right. exists t. by rewrite fn_lookup_insert.
    + destruct (qi_complete s Hi p ltac:(lia)) as [|[t' Hr]]; [by left|right].
      exists t'. apply update_keep; [rewrite Hpc; by intros ? []|done].
Qed.

(** *** Every step *)

Lemma qinv_copy s t item pos slot :
  qinv s -> threads s t = OfferCopy item pos -> tp_mpsc_slot_at (queue s) pos = Some slot ->
  qinv {| queue := store_slot (queue s) pos {| sequence := sequence slot; data := item |};
          threads := <[t := OfferPublish item pos]> (threads s); sent := sent s;
          delivered := delivered s |}.
Proof.
  intros Hi Hpc Hslot. pose proof (qi_queue s Hi) as Hq.
  pose proof (qi_threads s Hi t) as Ht. rewrite Hpc in Ht. destruct Ht as (Hb & Hseq & Hsent).
  assert (Hn : sequence slot = pos) by (destruct Hseq as (sl & ? & ?); congruence).
  set (sl' := {| sequence := sequence slot; data := item |}).
  destruct (store_slot_fields (queue s) pos sl') as (Ec & Eh & Et).
  assert (Hs' : seq_at (store_slot (queue s) pos sl') pos pos).
  { rewrite <- Hn at 3. by apply (seq_at_store_same _ _ sl'). }
  assert (Hd' : data_at (store_slot (queue s) pos sl') pos item)
    by (by apply (data_at_store_same _ _ sl')).
  assert (Hr : forall t' p, reading (<[t := OfferPublish item pos]> (threads s) t') p <->
                            reading (threads s t') p).
  { apply update_iff. intros p. by rewrite Hpc. }
  apply qinv_store; try done; try (by rewrite Hpc).
  - left. by rewrite Hpc.
  - cbn [thread_inv]. by rewrite Eh, Et.
  - exists pos. split; [destruct Hq; lia|]. rewrite Ec, Eh, Et. split; [done|]. left.
    split; [done|]. split; [destruct Hq; lia|]. right. exists t. by rewrite fn_lookup_insert.
  - apply Hi.
  - intros p x Hx. setoid_rewrite Hr. by apply Hi.
  - intros p Hp. setoid_rewrite Hr. by apply Hi.
Qed.

Lemma qinv_publish s t item pos slot :
  qinv s -> threads s t = OfferPublish item pos -> tp_mpsc_slot_at (queue s) pos = Some slot ->
  qinv {| queue := store_slot (queue s) pos {| sequence := pos + 1; data := data slot |};
          threads := <[t := Ready (Some Offered)]> (threads s); sent := sent s;
          delivered := delivered s |}.
Proof.
  intros Hi Hpc Hslot. pose proof (qi_queue s Hi) as Hq.
  pose proof (qi_threads s Hi t) as Ht. rewrite Hpc in Ht.
  destruct Ht as (Hb & Hseq & Hsent & Hdata).
  assert (Hdn : data slot = item) by (destruct Hdata as (sl & ? & ?); congruence).
  set (sl' := {| sequence := pos + 1; data := data slot |}).
  destruct (store_slot_fields (queue s) pos sl') as (Ec & Eh & Et).
  assert (Hr : forall t' p, reading (<[t := Ready (Some Offered)]> (threads s) t') p <->
                            reading (threads s t') p).
  { apply update_iff. intros p. by rewrite Hpc. }
  apply qinv_store; try done; try (by rewrite Hpc).
  - left. by rewrite Hpc.
  - exists pos. split; [destruct Hq; lia|]. rewrite Ec, Eh, Et. split; [done|]. right.
    split; [by apply (seq_at_store_same _ _ sl')|]. split; [lia|]. split; [destruct Hq; lia|].
    left. split; [lia|]. exists item. split; [done|]. rewrite <- Hdn.
    by apply (data_at_store_same _ _ sl').
  - apply Hi.
  - intros p x Hx. setoid_rewrite Hr. by apply Hi.
  - intros p Hp. setoid_rewrite Hr. by apply Hi.
Qed.

Lemma qinv_release s t item pos slot :
  qinv s -> threads s t = PollRelease pos item -> tp_mpsc_slot_at (queue s) pos = Some slot ->
  qinv {| queue := store_slot (queue s) pos
                     {| sequence := pos + capacity (queue s); data := data slot |};
          threads := <[t := Ready (Some (Polled item))]> (threads s); sent := sent s;
          delivered := delivered s ++ [(pos, item)] |}.
Proof.
  intros Hi Hpc Hslot. pose proof (qi_queue s Hi) as Hq.
  pose proof (qi_threads s Hi t) as Ht. rewrite Hpc in Ht.
  destruct Ht as (Hb & Hcap & Hseq & Hsent).
  assert (Hread : reading (threads s t) pos) by (by rewrite Hpc).
  set (sl' := {| sequence := pos + capacity (queue s); data := data slot |}).
  destruct (store_slot_fields (queue s) pos sl') as (Ec & Eh & Et).
  assert (Hr : forall t' p, reading (<[t := Ready (Some (Polled item))]> (threads s) t') p <->
                            reading (threads s t') p /\ p <> pos).
  { intros t' p. destruct (decide (t' = t)) as [->|Hne].
    - rewrite fn_lookup_insert, Hpc. simpl. split; [done|]. intros [<- ?]. done.
    - rewrite fn_lookup_insert_ne by done. split; [|tauto]. intros Hp. split; [done|]. intros ->.
      apply Hne. by apply (qi_readers s Hi _ _ pos). }
  apply qinv_store; try done; try (by rewrite Hpc).
  - by right.
  - exists (pos + capacity (queue s)). split; [destruct Hq; lia|]. rewrite Ec, Eh, Et.
    split. { replace (pos + _) with (pos + 1 * capacity (queue s)) by lia.
             apply Z.mod_add. destruct Hq; lia. }
    left. split; [by apply (seq_at_store_same _ _ sl')|]. split; [lia|]. by left.
  - rewrite fmap_app. apply NoDup_app. split; [apply Hi|]. split; [|apply NoDup_singleton].
    intros p Hp Hp'. apply list_elem_of_singleton in Hp'. simpl in Hp'. subst p.
    apply list_elem_of_fmap in Hp as ([p x] & Hp & Hin). simpl in Hp. subst p.
    by apply (qi_delivered s Hi _ _ Hin) in Hread.
  - intros p x [Hx|Hx]%elem_of_app.
    + destruct (qi_delivered s Hi p x Hx) as (? & ? & Hn). split; [done|]. split; [done|].
      intros t'. rewrite Hr. intros [Hx' _]. by apply (Hn t').
    + apply list_elem_of_singleton in Hx as [= -> ->]. split; [done|]. split; [done|].
      intros t'. rewrite Hr. by intros [_ ?].
  - intros p Hp. rewrite fmap_app. destruct (decide (p = pos)) as [->|Hne].
    + left. apply elem_of_app. right. by apply list_elem_of_singleton.
    + destruct (qi_complete s Hi p Hp) as [?|[t' ?]].
      * left. apply elem_of_app. by left.
      * right. exists t'. by apply Hr.
Qed.

Lemma slot_seq_bound s pos slot :
  qinv s -> 0 <= pos -> tp_mpsc_slot_at (queue s) pos = Some slot ->
  0 <= sequence slot < 2 ^ 63.
Proof.
  intros Hi H0 Hs. pose proof (qi_queue s Hi) as Hq.
  destruct (qi_slots s Hi pos H0) as (p & Hp & _ & [((sl & Hsl & Hn) & ? & _)|((sl & Hsl & Hn) & ? & _)]);
    rewrite Hs in Hsl; injection Hsl as <-; destruct Hq; lia.
Qed.

Lemma intptr_diff_small a b :
  0 <= a < 2 ^ 63 -> 0 <= b < 2 ^ 63 -> intptr_diff a b = Some (a - b).
Proof. intros Ha Hb. unfold intptr_diff. rewrite !i64_small by ulia. apply i64_checked_ok. ulia. Qed.

Lemma qrun_local s t ok p' :
  tstep ok (queue s) (threads s t) = (queue s, p') ->
  sent_by (threads s t) p' = [] -> delivered_by (threads s t) p' = [] ->
  qinv s -> thread_inv (queue s) (sent s) p' ->
  (forall pos, writing p' pos <-> writing (threads s t) pos) ->
  (forall pos, reading p' pos <-> reading (threads s t) pos) ->
  qinv (qrun s t ok).
Proof.
  intros Hstep Hs Hd Hi Hp Hw Hr. unfold qrun. rewrite Hstep, Hs, Hd, !app_nil_r.
  by apply qinv_local.
Qed.

(** The two loads of a sequence number, under the invariant. *)
Lemma offer_load_eq s ok item pos :
  qinv s -> 0 <= pos <= tail (queue s) ->
  exists n, seq_at (queue s) pos n /\ 0 <= n < 2 ^ 63 /\
    tstep ok (queue s) (OfferLoad item pos) =
    (queue s, if n =? pos then OfferCas item pos
              else if n <? pos then Ready (Some (OfferFailed EAGAIN)) else OfferTail item).
Proof.
  intros Hi Hpos. pose proof (qi_queue s Hi) as Hq.
  destruct (slot_at_total _ Hq pos) as [slot Hs].
  pose proof (slot_seq_bound s pos slot Hi ltac:(lia) Hs) as Hb.
  exists (sequence slot). split; [by exists slot|]. split; [done|]. cbn [tstep]. rewrite Hs.
  rewrite intptr_diff_small by (destruct Hq; lia).
  destruct (Z.eqb_spec (sequence slot) pos), (Z.eqb_spec (sequence slot - pos) 0),
    (Z.ltb_spec (sequence slot) pos), (Z.ltb_spec (sequence slot - pos) 0); try lia; done.
Qed.

Lemma poll_load_eq s ok pos :
  qinv s -> 0 <= pos <= head (queue s) ->
  exists n, seq_at (queue s) pos n /\ 0 <= n < 2 ^ 63 /\
    tstep ok (queue s) (PollLoad pos) =
    (queue s, if n =? pos + 1 then PollCas pos
              else if n <? pos + 1 then Ready (Some PollEmpty) else PollHead).
Proof.
  intros Hi Hpos. pose proof (qi_queue s Hi) as Hq.
  destruct (slot_at_total _ Hq pos) as [slot Hs].
  pose proof (slot_seq_bound s pos slot Hi ltac:(lia) Hs) as Hb.
  exists (sequence slot). split; [by exists slot|]. split; [done|]. cbn [tstep]. rewrite Hs.
  rewrite u64_small by (destruct Hq; ulia). rewrite intptr_diff_small by (destruct Hq; lia).
  destruct (Z.eqb_spec (sequence slot) (pos + 1)), (Z.eqb_spec (sequence slot - (pos + 1)) 0),
    (Z.ltb_spec (sequence slot) (pos + 1)), (Z.ltb_spec (sequence slot - (pos + 1)) 0);
    try lia; done.
Qed.

Lemma qrun_inv s t ok :
  qinv s -> Z.of_nat (length (sent (qrun s t ok))) + capacity (queue s) < 2 ^ 63 ->
  qinv (qrun s t ok).
Proof.
  intros Hi Hwidth. pose proof (qi_queue s Hi) as Hq.
  pose proof (qi_threads s Hi t) as Ht. destruct (qo_slots _ Hq) as (l & Hl & _).
  destruct (threads s t) eqn:Hpc; try (exfalso; exact Ht).
  all: try (unfold qrun in Hwidth; rewrite Hpc in Hwidth).
  - eapply (qrun_local s t ok); rewrite ?Hpc; [reflexivity|done..].
  - eapply (qrun_local s t ok (OfferSize item)); rewrite ?Hpc; simpl; rewrite ?Hl; done.
  - eapply (qrun_local s t ok); rewrite ?Hpc; [reflexivity|..]; by destruct (Z.of_nat (length item) =? item_size (queue s)).
  - eapply (qrun_local s t ok (OfferLoad item (tail (queue s)))); rewrite ?Hpc; try done.
    simpl. destruct Hq; lia.
  - destruct (offer_load_eq s ok item pos Hi Ht) as (n & Hn & _ & Heq).
    eapply (qrun_local s t ok); rewrite ?Hpc; [exact Heq|..];
      destruct (Z.eqb_spec n pos) as [->|]; try done; destruct (n <? pos); done.
  - destruct (ok && (tail (queue s) =? pos)) eqn:E.
    + apply andb_true_iff in E as [-> <-%Z.eqb_eq]. cbn [tstep] in Hwidth.
      rewrite Z.eqb_refl in Hwidth. simpl in Hwidth. rewrite length_app in Hwidth.
      pose proof (qi_sent s Hi) as Hlen. simpl in Hwidth.
      assert (Hu : u64 (tail (queue s) + 1) = tail (queue s) + 1)
        by (apply u64_small; destruct Hq; ulia).
      pose proof (qinv_claim_tail s t item Hi Hpc ltac:(lia)) as H.
      unfold qrun. rewrite Hpc. cbn [tstep]. rewrite Z.eqb_refl. simpl. by rewrite Hu, app_nil_r.
    + eapply (qrun_local s t ok (OfferLoad item (tail (queue s)))); rewrite ?Hpc; try done.
      * cbn [tstep]. by rewrite E.
      * simpl. destruct Hq; lia.
  - destruct (slot_at_total _ Hq pos) as [slot Hs].
    pose proof (qinv_copy s t item pos slot Hi Hpc Hs) as H.
    unfold qrun. rewrite Hpc. cbn [tstep]. rewrite Hs. simpl. by rewrite !app_nil_r.
  - destruct (slot_at_total _ Hq pos) as [slot Hs].
    pose proof (qinv_publish s t item pos slot Hi Hpc Hs) as H.
    unfold qrun. rewrite Hpc. cbn [tstep]. rewrite Hs, u64_small by (destruct Hq, Ht; ulia).
    simpl. by rewrite !app_nil_r.
  - eapply (qrun_local s t ok); rewrite ?Hpc; [reflexivity|..]; rewrite ?Hl;
      by destruct (size =? item_size (queue s)).
  - eapply (qrun_local s t ok (PollLoad (head (queue s)))); rewrite ?Hpc; try done.
    simpl. destruct Hq; lia.
  - destruct (poll_load_eq s ok pos Hi Ht) as (n & Hn & _ & Heq).
    eapply (qrun_local s t ok); rewrite ?Hpc; [exact Heq|..];
      destruct (Z.eqb_spec n (pos + 1)) as [->|]; try done; destruct (n <? pos + 1); done.
  - destruct (ok && (head (queue s) =? pos)) eqn:E.
    + apply andb_true_iff in E as [-> <-%Z.eqb_eq].
      pose proof (qinv_claim_head s t Hi Hpc) as H. unfold qrun. rewrite Hpc. cbn [tstep].
      rewrite Z.eqb_refl, u64_small by (destruct Hq; ulia). simpl. by rewrite !app_nil_r.
    + eapply (qrun_local s t ok (PollLoad (head (queue s)))); rewrite ?Hpc; try done.
      * cbn [tstep]. by rewrite E.
      * simpl. destruct Hq; lia.
  - destruct (slot_at_total _ Hq pos) as [slot Hs].
    eapply (qrun_local s t ok (PollRelease pos (data slot))); rewrite ?Hpc; try done.
    + cbn [tstep]. by rewrite Hs.
    + destruct Ht as (? & ? & ? & item & Hsent & sl & Hsl & <-). simpl. split_and!; try done; try lia.
      congruence.
  - destruct (slot_at_total _ Hq pos) as [slot Hs].
    pose proof (qinv_release s t item pos slot Hi Hpc Hs) as H.
    unfold qrun. rewrite Hpc. cbn [tstep]. rewrite Hs.
    replace (pos + mask (queue s) + 1) with (pos + capacity (queue s))
      by (rewrite (qo_mask _ Hq); lia).
    rewrite u64_small by (destruct Hq, Ht; ulia). simpl. by rewrite app_nil_r.
Qed.

(** ** Reachable states *)

Lemma qrun_sent s t ok : (length (sent s) <= length (sent (qrun s t ok)))%nat.
Proof. unfold qrun. destruct (tstep _ _ _). simpl. rewrite length_app. lia. Qed.

Lemma store_slot_capacity q pos s : capacity (store_slot q pos s) = capacity q.
Proof. apply store_slot_fields. Qed.

Lemma qrun_capacity s t ok : capacity (queue (qrun s t ok)) = capacity (queue s).
Proof.
  unfold qrun. destruct (threads s t); simpl; try done.
  - unfold tp_mpsc_queue_alloc_slots. by destruct (_ =? 0), ok.
  - by destruct (_ && _).
  - destruct (tp_mpsc_slot_at _ _); [apply store_slot_capacity|done].
  - destruct (tp_mpsc_slot_at _ _); [apply store_slot_capacity|done].
  - by destruct (_ && _).
  - destruct (tp_mpsc_slot_at _ _); [apply store_slot_capacity|done].
Qed.

Lemma qinv_call s t last p :
  qinv s -> threads s t = Ready last -> starts p = true -> qinv (qcall s t p).
Proof.
  intros Hi Hpc Hp. apply qinv_local; [done|by destruct p|..];
    intros pos; rewrite Hpc; by destruct p.
Qed.

Lemma qreach_inv s0 s :
  qinv s0 -> qreach s0 s ->
  Z.of_nat (length (sent s)) + capacity (queue s0) < 2 ^ 63 ->
  qinv s /\ capacity (queue s) = capacity (queue s0).
Proof.
  intros H0. revert s. refine (rtc_ind_r (fun s =>
    Z.of_nat (length (sent s)) + capacity (queue s0) < 2 ^ 63 ->
    qinv s /\ capacity (queue s) = capacity (queue s0)) s0 (fun _ => conj H0 eq_refl) _).
  intros s1 s2 _ Hstep IH Hw. destruct Hstep as [s1 t ok|s1 t last p Hpc Hp].
  - destruct IH as [Hi Hc]; [pose proof (qrun_sent s1 t ok); lia|].
    rewrite qrun_capacity. split; [|done]. apply qrun_inv; [done|]. by rewrite Hc.
  - destruct IH as [Hi Hc]; [done|]. split; [|done]. by eapply qinv_call.
Qed.

(** The queue [tp_mpsc_queue_init] makes, its slots allocated for items of [size] bytes. *)
Definition allocated (cap size : Z) (q : tp_mpsc_queue_t) : Prop :=
  exists q0, tp_mpsc_queue_init (Some tt) cap = Ok q0 /\
    tp_mpsc_queue_alloc_slots q0 size true = Ok q.

Lemma slot_at_fresh cap size q i :
  allocated cap size q -> 0 < cap -> 0 <= i < cap ->
  exists slot, tp_mpsc_slot_at q i = Some slot /\ sequence slot = i.
Proof.
  intros (q0 & Hq0 & Hq) Hc Hi. unfold tp_mpsc_queue_init in Hq0.
  destruct (negb _) eqn:E; [|done]. injection Hq0 as <-. bool_simp.
  unfold tp_mpsc_queue_alloc_slots in Hq. destruct (negb (size =? 0)); [|done].
  injection Hq as <-. unfold tp_mpsc_slot_at. simpl. unfold slot_index. simpl.
  rewrite land_power_of_two_mod by (lia || done). rewrite Z.mod_small by lia.
  rewrite list_lookup_fmap, lookup_seq_lt by lia. simpl. eexists. split; [done|]. simpl. lia.
Qed.

Lemma qinv_start cap size q :
  allocated cap size q -> 2 <= cap -> cap < 2 ^ 63 -> qinv (qstart q).
Proof.
  intros Ha Hc Hw. pose proof (fun i => slot_at_fresh cap size q i Ha ltac:(lia)) as Hfresh.
  destruct Ha as (q0 & Hq0 & Hq). unfold tp_mpsc_queue_init in Hq0.
  destruct (negb _) eqn:E; [|done]. injection Hq0 as <-. bool_simp.
  unfold tp_mpsc_queue_alloc_slots in Hq. destruct (negb (size =? 0)); [|done].
  assert (Hok : queue_ok q).
  { injection Hq as <-. constructor; simpl; try done; try lia.
    eexists. split; [done|]. rewrite length_fmap, length_seq. lia. }
  assert (Hf : capacity q = cap /\ head q = 0 /\ tail q = 0) by (by injection Hq as <-).
  destruct Hf as (Ecap & Eh & Et).
  constructor; simpl; try done.
  - intros i Hi. exists (i mod cap). pose proof (Z.mod_pos_bound i cap ltac:(lia)) as Hb.
    split; [lia|]. rewrite Ecap, Z.mod_mod by lia. split; [done|]. left.
    split; [|rewrite Eh, Et; split; [lia|left; lia]].
    destruct (Hfresh (i mod cap) Hb) as (slot & Hs & Hseq). exists slot. split; [|done].
    rewrite <- Hs. apply slot_at_mod; [done|]. by rewrite Ecap, Z.mod_mod by lia.
  - constructor.
  - intros p x Hx. by apply not_elem_of_nil in Hx.
  - intros p Hp. lia.
Qed.

Lemma reach_start cap size q s :
  allocated cap size q -> 2 <= cap -> qreach (qstart q) s ->
  Z.of_nat (length (sent s)) + cap < 2 ^ 63 -> qinv s /\ capacity (queue s) = cap.
Proof.
  intros Ha Hc Hr Hw. assert (Hcap : capacity q = cap).
  { destruct Ha as (q0 & Hq0 & Hq). unfold tp_mpsc_queue_init in Hq0.
    destruct (negb _); [|done]. injection Hq0 as <-. unfold tp_mpsc_queue_alloc_slots in Hq.
    destruct (negb (size =? 0)); [|done]. by injection Hq as <-. }
  rewrite <- Hcap. apply (qreach_inv (qstart q)); [|done|simpl; lia].
  apply (qinv_start cap size); [done..|lia].
Qed.

(** ** Properties *)

(** C4: the queue is a lossless FIFO for any number of threads.  In every state
    reachable from an allocated queue of at least two slots, while fewer than
    2^63 items have been offered: each poll that returned an item returned the
    item offered at its position, no position is returned twice, and positions
    are claimed at the head in the order in which they were claimed at the
    tail; every position claimed at the head was returned or is being copied
    out by a thread; at most [cap] items wait; and when no call is running, the
    slots hold exactly the items between head and tail. *)
Theorem mpsc_fifo cap size q s
    (Ha : allocated cap size q) (Hc : 2 <= cap) (Hr : qreach (qstart q) s)
    (Hw : Z.of_nat (length (sent s)) + cap < 2 ^ 63) :
  NoDup (delivered s).*1 /\
  (forall p x, (p, x) ∈ delivered s -> 0 <= p < head (queue s) /\ sent s !! Z.to_nat p = Some x) /\
  (forall p, 0 <= p < head (queue s) ->
     p ∈ (delivered s).*1 \/ exists t, reading (threads s t) p) /\
  tail (queue s) = Z.of_nat (length (sent s)) /\
  head (queue s) <= tail (queue s) <= head (queue s) + cap /\
  (forall t, threads s t <> Undefined) /\
  ((forall t, exists last, threads s t = Ready last) ->
   forall p, head (queue s) <= p < tail (queue s) ->
   exists item, sent s !! Z.to_nat p = Some item /\ data_at (queue s) p item).
Proof.
  destruct (reach_start cap size q s Ha Hc Hr Hw) as [Hi Hcap].
  pose proof (qi_queue s Hi) as Hq. rewrite <- Hcap.
  split; [apply Hi|]. split. { intros p x Hx. by apply (qi_delivered s Hi) in Hx as (? & ? & _). }
  split; [apply Hi|]. split; [symmetry; apply Hi|]. split; [destruct Hq; lia|].
  split. { intros t E. pose proof (qi_threads s Hi t) as Ht. by rewrite E in Ht. }
  intros Hidle p Hp.
  destruct (qi_slots s Hi p) as (p' & H0 & Hm & [(A & B & C)|(A & B & C & D)]); [destruct Hq; lia| |].
  - exfalso. destruct C as [C|[t C]]; [|by destruct (Hidle t) as [last E]; rewrite E in C].
    assert (p' = p); [|lia]. apply (mod_eq_close _ _ (capacity (queue s))); [lia|done|lia].
  - destruct D as [[Hh D]|[t D]]; [|by destruct (Hidle t) as [last E]; rewrite E in D].
    assert (p' = p) as ->; [|done].
    destruct Hq. apply (mod_eq_close _ _ (capacity (queue s))); [lia|done|lia].
Qed.

(** between the compare-and-swap that claims a position and the store that
    releases it a thread owns the slot: two threads inside their [memcpy]
    sections always work on different slots, so neither copy can tear. *)
Theorem mpsc_exclusive cap size q s t t' a b
    (Ha : allocated cap size q) (Hc : 2 <= cap) (Hr : qreach (qstart q) s)
    (Hw : Z.of_nat (length (sent s)) + cap < 2 ^ 63) (Hne : t <> t')
    (Hbusy : writing (threads s t) a \/ reading (threads s t) a)
    (Hbusy' : writing (threads s t') b \/ reading (threads s t') b) :
  slot_index (queue s) a <> slot_index (queue s) b.
Proof.
  destruct (reach_start cap size q s Ha Hc Hr Hw) as [Hi Hcap].
  pose proof (qi_queue s Hi) as Hq. rewrite !slot_index_mod by done.
  pose proof (busy_other_slot s t t' a b Hi Hne Hbusy Hbusy').
  pose proof (Z.mod_pos_bound a (capacity (queue s)) ltac:(lia)).
  pose proof (Z.mod_pos_bound b (capacity (queue s)) ltac:(lia)). lia.
Qed.

(** the two refusals are justified when they are given.  An offer answers
    EAGAIN only if the item [cap] positions before the tail has not been
    returned by a poll yet; a poll answers 0 only if nothing waits at the head,
    or the offer that claimed the head position has not published its item. *)
Theorem mpsc_refusals cap size q s t ok
    (Ha : allocated cap size q) (Hc : 2 <= cap) (Hr : qreach (qstart q) s)
    (Hw : Z.of_nat (length (sent s)) + cap < 2 ^ 63) :
  (forall item pos, threads s t = OfferLoad item pos ->
     threads (qrun s t ok) t = Ready (Some (OfferFailed EAGAIN)) ->
     pos = tail (queue s) /\ cap <= tail (queue s) /\
     tail (queue s) - cap ∉ (delivered s).*1) /\
  (forall pos, threads s t = PollLoad pos ->
     threads (qrun s t ok) t = Ready (Some PollEmpty) ->
     pos = head (queue s) /\
     (head (queue s) = tail (queue s) \/ exists t', writing (threads s t') pos)).
Proof.
  destruct (reach_start cap size q s Ha Hc Hr Hw) as [Hi Hcap].
  pose proof (qi_queue s Hi) as Hq. pose proof (qi_threads s Hi t) as Ht.
  assert (Hclose : forall p pos, p mod capacity (queue s) = pos mod capacity (queue s) ->
            p < pos -> p + cap <= pos).
  { intros p pos Hm Hlt. destruct (decide (p + cap <= pos)); [done|exfalso].
    assert (p = pos); [|lia]. apply (mod_eq_close _ _ (capacity (queue s))); [lia|done|lia]. }
  split.
  - intros item pos Hpc Hres. rewrite Hpc in Ht. unfold qrun in Hres. rewrite Hpc in Hres.
    destruct (offer_load_eq s ok item pos Hi Ht) as (n & Hn & _ & Heq). rewrite Heq in Hres.
    simpl in Hres. rewrite fn_lookup_insert in Hres.
    destruct (Z.eqb_spec n pos); [done|]. destruct (Z.ltb_spec n pos); [|done]. simpl in Ht.
    assert (Hdel : forall p, p ∈ (delivered s).*1 -> p < head (queue s) /\
              forall t', ~ reading (threads s t') p).
    { intros p Hp. apply list_elem_of_fmap in Hp as ([p' x] & -> & Hin).
      apply (qi_delivered s Hi) in Hin as (? & _ & ?). split; [simpl; lia|done]. }
    destruct (qi_slots s Hi pos) as (p & H0 & Hm & [(A & B & C)|(A & B & C & D)]); [lia| |];
      pose proof (seq_at_unique _ Hq _ _ _ _ eq_refl Hn A) as E.
    + destruct C as [C|[t' C]]; [lia|]. pose proof (qi_threads s Hi t') as Ht'.
      apply (writing_inv _ _ _ _ C) in Ht' as [? _].
      pose proof (Hclose p pos Hm ltac:(lia)). destruct Hq. split; [lia|]. split; [lia|].
      intros [? _]%Hdel. lia.
    + assert (p <> pos) by lia. pose proof (Hclose p pos Hm ltac:(lia)). destruct Hq.
      split; [lia|]. split; [lia|]. intros [? Hnr]%Hdel. destruct D as [[? _]|[t' D]]; [lia|].
      apply (Hnr t'). by replace (tail (queue s) - cap) with p by lia.
  - intros pos Hpc Hres. rewrite Hpc in Ht. unfold qrun in Hres. rewrite Hpc in Hres.
    destruct (poll_load_eq s ok pos Hi Ht) as (n & Hn & _ & Heq). rewrite Heq in Hres.
    simpl in Hres. rewrite fn_lookup_insert in Hres.
    destruct (Z.eqb_spec n (pos + 1)); [done|]. destruct (Z.ltb_spec n (pos + 1)); [|done].
    simpl in Ht.
    destruct (qi_slots s Hi pos) as (p & H0 & Hm & [(A & B & C)|(A & B & C & D)]); [lia| |];
      pose proof (seq_at_unique _ Hq _ _ _ _ eq_refl Hn A) as E.
    + destruct C as [C|[t' C]]; [destruct Hq; split; [lia|left; lia]|].
      pose proof (qi_threads s Hi t') as Ht'. apply (writing_inv _ _ _ _ C) in Ht' as [? _].
      assert (p = pos) as -> by lia. split; [lia|]. right. by exists t'.
    + pose proof (Hclose p pos Hm ltac:(lia)). destruct Hq. split; [lia|]. left. lia.
Qed.

(** ** Progress *)

(** The number of its own steps a thread still needs when it runs alone. *)
Definition rank (q : tp_mpsc_queue_t) (p : pc) : nat :=
  match p with
  | Ready _ | Undefined => 0
  | OfferCheck _ => 7
  | OfferAlloc _ | OfferSize _ => 6
  | OfferTail _ => 5
  | OfferLoad _ pos => if pos =? tail q then 4 else 6
  | OfferCas _ pos => if pos =? tail q then 3 else 5
  | OfferCopy _ _ => 2
  | OfferPublish _ _ => 1
  | PollCheck _ => 6
  | PollHead => 5
  | PollLoad pos => if pos =? head q then 4 else 6
  | PollCas pos => if pos =? head q then 3 else 5
  | PollCopy _ => 2
  | PollRelease _ _ => 1
  end.

(** A current position never finds a slot from the future. *)
Lemma tail_seq_le s n : qinv s -> seq_at (queue s) (tail (queue s)) n -> n <= tail (queue s).
Proof.
  intros Hi Hn. pose proof (qi_queue s Hi) as Hq.
  destruct (qi_slots s Hi (tail (queue s))) as (p & H0 & Hm & [(A & B & _)|(A & B & _)]);
    [destruct Hq; lia| |]; pose proof (seq_at_unique _ Hq _ _ _ _ eq_refl Hn A); [|lia].
  destruct (decide (p <= tail (queue s))); [lia|exfalso].
  assert (p = tail (queue s)); [|lia].
  apply (mod_eq_close _ _ (capacity (queue s))); [destruct Hq; lia|done|destruct Hq; lia].
Qed.

Lemma head_seq_le s n : qinv s -> seq_at (queue s) (head (queue s)) n -> n <= head (queue s) + 1.
Proof.
  intros Hi Hn. pose proof (qi_queue s Hi) as Hq.
  destruct (qi_slots s Hi (head (queue s))) as (p & H0 & Hm & [(A & B & _)|(A & B & C & _)]);
    [destruct Hq; lia| |]; pose proof (seq_at_unique _ Hq _ _ _ _ eq_refl Hn A).
  - destruct (decide (p <= head (queue s))); [lia|exfalso].
    assert (p = head (queue s)); [|lia].
    apply (mod_eq_close _ _ (capacity (queue s))); [destruct Hq; lia|done|destruct Hq; lia].
  - destruct (decide (p <= head (queue s))); [lia|exfalso].
    assert (p = head (queue s)); [|lia].
    apply (mod_eq_close _ _ (capacity (queue s))); [destruct Hq; lia|done|destruct Hq; lia].
Qed.

Lemma rank_store q pos slot o : rank (store_slot q pos slot) (Ready o) = 0%nat.
Proof. done. Qed.

Lemma rank_decreases s t :
  qinv s ->
  (rank (queue (qrun s t true)) (threads (qrun s t true) t) <= rank (queue s) (threads s t) - 1)%nat.
Proof.
  intros Hi. pose proof (qi_queue s Hi) as Hq. pose proof (qi_threads s Hi t) as Ht.
  destruct (qo_slots _ Hq) as (l & Hl & _). unfold qrun.
  destruct (threads s t) eqn:Hpc; try (exfalso; exact Ht).
  - cbn. rewrite fn_lookup_insert. done.
  - cbn. rewrite Hl, fn_lookup_insert. simpl. lia.
  - cbn. rewrite fn_lookup_insert. destruct (_ =? _); simpl; lia.
  - cbn. rewrite fn_lookup_insert. simpl. rewrite Z.eqb_refl. lia.
  - destruct (offer_load_eq s true item pos Hi Ht) as (n & Hn & _ & ->).
    cbn [queue threads]. rewrite fn_lookup_insert. simpl.
    destruct (Z.eqb_spec n pos) as [En|En]; [simpl; destruct (pos =? tail (queue s)); lia|].
    destruct (Z.ltb_spec n pos); simpl; [lia|].
    destruct (Z.eqb_spec pos (tail (queue s))) as [->|]; [|lia].
    pose proof (tail_seq_le s n Hi Hn). lia.
  - cbn [tstep andb]. rewrite (Z.eqb_sym (tail (queue s))).
    destruct (Z.eqb_spec pos (tail (queue s))) as [E|E]; cbn [queue threads];
      rewrite fn_lookup_insert; simpl; rewrite ?Z.eqb_refl.
    + rewrite E, Z.eqb_refl. lia.
    + rewrite (proj2 (Z.eqb_neq _ _) E). lia.
  - cbn [tstep]. destruct (slot_at_total _ Hq pos) as [slot ->]. cbn [queue threads].
    rewrite fn_lookup_insert. simpl. lia.
  - cbn [tstep]. destruct (slot_at_total _ Hq pos) as [slot ->]. cbn [queue threads].
    rewrite fn_lookup_insert. simpl. lia.
  - cbn. rewrite Hl, fn_lookup_insert. destruct (_ =? _); simpl; lia.
  - cbn. rewrite fn_lookup_insert. simpl. rewrite Z.eqb_refl. lia.
  - destruct (poll_load_eq s true pos Hi Ht) as (n & Hn & _ & ->).
    cbn [queue threads]. rewrite fn_lookup_insert. simpl.
    destruct (Z.eqb_spec n (pos + 1)) as [En|En]; [simpl; destruct (pos =? head (queue s)); lia|].
    destruct (Z.ltb_spec n (pos + 1)); simpl; [lia|].
    destruct (Z.eqb_spec pos (head (queue s))) as [->|]; [|lia].
    pose proof (head_seq_le s n Hi Hn). lia.
  - cbn [tstep andb]. rewrite (Z.eqb_sym (head (queue s))).
    destruct (Z.eqb_spec pos (head (queue s))) as [E|E]; cbn [queue threads];
      rewrite fn_lookup_insert; simpl; rewrite ?Z.eqb_refl.
    + rewrite E, Z.eqb_refl. lia.
    + rewrite (proj2 (Z.eqb_neq _ _) E). lia.
  - cbn [tstep]. destruct (slot_at_total _ Hq pos) as [slot ->]. cbn [queue threads].
    rewrite fn_lookup_insert. simpl. lia.
  - cbn [tstep]. destruct (slot_at_total _ Hq pos) as [slot ->]. cbn [queue threads].
    rewrite fn_lookup_insert. simpl. lia.
Qed.

(** Run one thread alone for [n] steps. *)
Fixpoint solo (n : nat) (s : qsys) (t : nat) : qsys :=
  match n with
  | O => s
  | S n' => solo n' (qrun s t true) t
  end.

Lemma rank_bound q p : (rank q p <= 7)%nat.
Proof. destruct p; simpl; try destruct (_ =? _); lia. Qed.

Lemma qrun_sent_one s t ok : (length (sent (qrun s t ok)) <= S (length (sent s)))%nat.
Proof.
  unfold qrun. destruct (tstep _ _ _) as [q' p']. simpl. rewrite length_app.
  destruct (threads s t), p'; simpl; lia.
Qed.

Lemma solo_ready n : forall s t,
  qinv s -> (rank (queue s) (threads s t) <= n)%nat ->
  Z.of_nat (length (sent s)) + Z.of_nat n + capacity (queue s) < 2 ^ 63 ->
  exists last, threads (solo n s t) t = Ready last.
Proof.
  induction n as [|n IH]; intros s t Hi Hr Hw; simpl.
  - pose proof (qi_threads s Hi t) as Ht.
    destruct (threads s t) eqn:Hpc; simpl in Hr; try (exfalso; lia); try done;
      try (destruct (_ =? _); lia). by exists last0.
  - pose proof (qrun_sent_one s t true). pose proof (rank_decreases s t Hi).
    apply IH.
    + apply qrun_inv; [done|lia].
    + lia.
    + rewrite qrun_capacity. lia.
Qed.

(** every call returns: whatever the other threads have done so far, and
    wherever the thread is in its call, seven of its own steps without
    interference bring it to the end of the call. *)
Theorem mpsc_solo_terminates cap size q s t
    (Ha : allocated cap size q) (Hc : 2 <= cap) (Hr : qreach (qstart q) s)
    (Hw : Z.of_nat (length (sent s)) + 7 + cap < 2 ^ 63) :
  exists last, threads (solo 7 s t) t = Ready last.
Proof.
  destruct (reach_start cap size q s Ha Hc Hr ltac:(lia)) as [Hi Hcap].
  apply solo_ready; [done|apply rank_bound|lia].
Qed.

(** ** Witnesses *)

Definition ex_queue (cap : Z) : tp_mpsc_queue_t :=
  match tp_mpsc_queue_init (Some tt) cap with
  | Ok q => match tp_mpsc_queue_alloc_slots q 2 true with Ok q' => q' | Err _ => q end
  | Err _ => tp_mpsc_queue_close (Build_tp_mpsc_queue_t NULL 0 0 0 0 0)
  end.

(** Run a schedule of threads, each compare-and-swap succeeding where it can. *)
Definition schedule (s : qsys) (ts : list nat) : qsys := foldl (fun s t => qrun s t true) s ts.

Lemma qreach_trans a b c : qreach a b -> qreach b c -> qreach a c.
Proof. apply transitivity. Qed.

Lemma schedule_reach ts : forall s, qreach s (schedule s ts).
Proof.
  induction ts as [|t ts IH]; intros s; simpl; [apply rtc_refl|].
  eapply rtc_l; [apply (QRun s t true)|apply IH].
Qed.

Lemma call_reach s t p last :
  threads s t = Ready last -> starts p = true -> qreach s (qcall s t p).
Proof. intros H1 H2. apply rtc_once. by eapply QCall. Qed.

(** Threads 1 and 2 offer at the same time; thread 0 polls once. *)
Definition ex_calls : qsys :=
  qcall (qcall (qcall (qstart (ex_queue 2)) 1 (OfferCheck [7; 8])) 2 (OfferCheck [5; 6])) 0
    (PollCheck 2).
Definition ex_run : qsys :=
  schedule ex_calls [1;1;1;1;2;2;2;2;1;2;2;2;2;2;2;2;2;1;1;0;0;0;0;0;0]%nat.

Lemma ex_calls_reach : qreach (qstart (ex_queue 2)) ex_calls.
Proof.
  unfold ex_calls. eapply qreach_trans; [|by eapply call_reach].
  eapply qreach_trans; by eapply call_reach.
Qed.

Lemma ex_run_reach : qreach (qstart (ex_queue 2)) ex_run.
Proof. eapply qreach_trans; [apply ex_calls_reach|apply schedule_reach]. Qed.

Lemma ex_allocated : allocated 2 2 (ex_queue 2).
Proof. eexists. by split. Qed.

Lemma mpsc_fifo_witness :
  delivered ex_run = [(0, [7; 8])] /\ sent ex_run = [[7; 8]; [5; 6]] /\
  NoDup (delivered ex_run).*1 /\
  (forall p x, (p, x) ∈ delivered ex_run ->
     0 <= p < head (queue ex_run) /\ sent ex_run !! Z.to_nat p = Some x).
Proof.
  split; [vm_compute; reflexivity|]. split; [vm_compute; reflexivity|].
  destruct (mpsc_fifo 2 2 (ex_queue 2) ex_run ex_allocated ltac:(lia) ex_run_reach
    ltac:(vm_compute; reflexivity)) as (H1 & H2 & _). done.
Defined.

(** Both offers have claimed their positions and copied, none has published. *)
Definition ex_both : qsys :=
  schedule ex_calls [1;1;1;1;2;2;2;2;1;2;2;2;2]%nat.

Lemma mpsc_exclusive_witness :
  slot_index (queue ex_both) 0 <> slot_index (queue ex_both) 1.
Proof.
  apply (mpsc_exclusive 2 2 (ex_queue 2) ex_both 1%nat 2%nat 0 1 ex_allocated ltac:(lia)).
  - eapply qreach_trans; [apply ex_calls_reach|apply schedule_reach].
  - vm_compute. reflexivity.
  - discriminate.
  - left. vm_compute. reflexivity.
  - left. vm_compute. reflexivity.
Defined.

(** Thread 3 offers to the full queue. *)
Definition ex_full : qsys :=
  schedule (qcall (schedule ex_calls [1;1;1;1;2;2;2;2;1;2;2;2;2;2;2;2;2;1;1]%nat)
              3 (OfferCheck [1; 1])) [3;3;3]%nat.

Lemma ex_full_reach : qreach (qstart (ex_queue 2)) ex_full.
Proof.
  eapply qreach_trans; [apply ex_calls_reach|]. eapply qreach_trans; [apply schedule_reach|].
  eapply qreach_trans; [|apply schedule_reach]. eapply call_reach; [|done].
  vm_compute. reflexivity.
Qed.

Lemma mpsc_refusals_witness :
  threads (qrun ex_full 3 true) 3%nat = Ready (Some (OfferFailed EAGAIN)) /\
  2 = tail (queue ex_full) /\ tail (queue ex_full) - 2 ∉ (delivered ex_full).*1.
Proof.
  destruct (mpsc_refusals 2 2 (ex_queue 2) ex_full 3%nat true ex_allocated ltac:(lia) ex_full_reach
    ltac:(vm_compute; reflexivity)) as [H _].
  split; [vm_compute; reflexivity|].
  destruct (H [1; 1] 2) as (H1 & _ & H3); [vm_compute; reflexivity..|].
  split; [exact H1|exact H3].
Defined.

Lemma mpsc_solo_terminates_witness :
  exists last, threads (solo 7 ex_both 1) 1%nat = Ready last.
Proof.
  apply (mpsc_solo_terminates 2 2 (ex_queue 2) ex_both 1%nat ex_allocated ltac:(lia)).
  - eapply qreach_trans; [apply ex_calls_reach|apply schedule_reach].
  - vm_compute. reflexivity.
Defined.

(** ** What the hypotheses exclude *)

(** [tp_mpsc_queue_init] accepts a queue of one slot.  There "full for [pos]"
    and "free for [pos + 1]" are the same sequence number: the second offer
    succeeds and overwrites the first item, and the poll that follows reloads
    the head for ever. *)
Definition one_slot_run : qsys :=
  schedule (qcall (schedule (qcall (schedule (qcall (qstart (ex_queue 1)) 1 (OfferCheck [7; 8]))
    (replicate 7 1%nat)) 1 (OfferCheck [5; 6])) (replicate 7 1%nat)) 0 (PollCheck 2)) [0]%nat.

Lemma one_slot_loop n :
  threads (solo n one_slot_run 0) 0%nat = PollHead \/ threads (solo n one_slot_run 0) 0%nat = PollLoad 0.
Proof.
  assert (Hloop : forall s, queue s = queue one_slot_run ->
    threads s 0%nat = PollHead \/ threads s 0%nat = PollLoad 0 ->
    threads (solo n s 0) 0%nat = PollHead \/ threads (solo n s 0) 0%nat = PollLoad 0).
  { induction n as [|m IH]; intros s Hq Hpc; simpl; [done|].
    apply IH; unfold qrun; destruct Hpc as [-> | ->]; rewrite Hq; vm_compute; auto. }
  apply Hloop; [done|]. left. vm_compute. reflexivity.
Qed.

Theorem mpsc_one_slot :
  length (sent one_slot_run) = 2%nat /\ threads one_slot_run 1%nat = Ready (Some Offered) /\
  forall n last, threads (solo n one_slot_run 0) 0%nat <> Ready last.
Proof.
  split; [vm_compute; reflexivity|]. split; [vm_compute; reflexivity|].
  intros n last. destruct (one_slot_loop n) as [-> | ->]; discriminate.
Qed.

(** The first offer allocates the slots without synchronisation.  When two
    threads make their first offer together, the second allocation replaces the
    slots the first thread has published its item in: the offer returned 0, the
    tail has moved, and every poll finds the queue empty. *)
Definition alloc_race : qsys :=
  let q := match tp_mpsc_queue_init (Some tt) 2 with Ok q => q | Err _ => ex_queue 2 end in
  let s := qcall (qcall (qstart q) 1 (OfferCheck [7; 8])) 2 (OfferCheck [5; 6]) in
  schedule (qcall (schedule s [1;2;1;1;1;1;1;1;1;2]%nat) 0 (PollCheck 2)) [0;0;0]%nat.

Example mpsc_alloc_race :
  threads alloc_race 1%nat = Ready (Some Offered) /\
  threads alloc_race 0%nat = Ready (Some PollEmpty) /\
  tail (queue alloc_race) = 1 /\ head (queue alloc_race) = 0.
Proof. vm_compute. done. Qed.
