(* ===== verification/Uri.v ===== *)
(** * Uri: shared-memory region URIs (tp_uri.c, and their construction in tp_driver.c)

    The driver names the file of each region by a path under its base directory
    and hands the path to clients in a URI, [shm:file?path=...|require_hugepages=...];
    a client parses the URI before it maps the file.  C strings are lists of
    characters without their terminator. *)

From Stdlib Require Import ZArith Lia Bool Ascii String.
From stdpp Require Import strings.
From S2P Require Import Prelude.

#[local] Open Scope Z_scope.
#[local] Open Scope list_scope.

Abbreviation chars := (list ascii) (only parsing).

Definition lit (s : string) : chars := list_ascii_of_string s.

(** ** The C string functions the parser uses *)

(** [strncmp(a, b, n) == 0]: up to [n] characters, stopping after a terminator. *)
Fixpoint strncmp_eq (n : nat) (a b : chars) : bool :=
  match n with
  | O => true
  | S n' =>
    match a, b with
    | [], [] => true
    | x :: a', y :: b' => Ascii.eqb x y && strncmp_eq n' a' b'
    | _, _ => false
    end
  end.

Definition strcmp_eq (a b : chars) : bool := bool_decide (a = b).

(** [strchr] and [memchr]: the index of the first occurrence. *)
Definition strchr (c : ascii) (s : chars) : option nat := find_index (Ascii.eqb c) s.

(** ** The parser *)

Record tp_shm_uri_t := {
  uri_path : chars;
  uri_require_hugepages : bool;
}.

Definition tp_uri_parse_bool (value : chars) : option bool :=
  if strcmp_eq value (lit "true") then Some true
  else if strcmp_eq value (lit "false") then Some false
  else None.

(** The locals of the loop. *)
Record uri_state := {
  us_out : tp_shm_uri_t;
  us_have_path : bool;
}.

Section Parser.
#[local] Open Scope tp_scope.

(** One parameter: the first [len] characters of [cursor]. *)
Definition uri_param (cursor : chars) (len : nat) (st : uri_state) : res uri_state :=
  match strchr "=" (take len cursor) with
  | None => Err EINVAL
  | Some key_len =>
    let value_len := (len - key_len - 1)%nat in
    let value := take value_len (drop (key_len + 1) cursor) in
    guard! negb ((key_len =? 0)%nat || (value_len =? 0)%nat) else EINVAL in
    if strncmp_eq key_len cursor (lit "path") then
      guard! negb (us_have_path st) else EINVAL in
      guard! (Z.of_nat value_len <? 4096) else EINVAL in
      Ok {| us_out := {| uri_path := value;
                         uri_require_hugepages := uri_require_hugepages (us_out st) |};
            us_have_path := true |}
    else if strncmp_eq key_len cursor (lit "require_hugepages") then
      guard! (value_len <? 16)%nat else EINVAL in
      match tp_uri_parse_bool value with
      | None => Err EINVAL
      | Some b => Ok {| us_out := {| uri_path := uri_path (us_out st); uri_require_hugepages := b |};
                        us_have_path := us_have_path st |}
      end
    else Err EINVAL
  end.

(** The loop.  Every turn consumes characters: [length cursor] is fuel enough. *)
Fixpoint uri_params (fuel : nat) (cursor : chars) (st : uri_state) : res uri_state :=
  match fuel, cursor with
  | O, _ | _, [] => Ok st
  | S fuel', _ =>
    let sep := strchr "|" cursor in
    let len := default (length cursor) sep in
    let! st := uri_param cursor len st in
    match sep with
    | None => Ok st
    | Some i => uri_params fuel' (drop (S i) cursor) st
    end
  end.

Definition tp_shm_uri_parse (uri : ptr chars) : res tp_shm_uri_t :=
  match uri with
  | NULL => Err EINVAL
  | Some uri =>
    guard! strncmp_eq (length (lit "shm:file?")) uri (lit "shm:file?") else EINVAL in
    let cursor := drop (length (lit "shm:file?")) uri in
    let! st := uri_params (length cursor) cursor
      {| us_out := {| uri_path := []; uri_require_hugepages := false |}; us_have_path := false |} in
    guard! us_have_path st else EINVAL in
    guard! bool_decide (head (uri_path (us_out st)) = Some "/"%char) else EINVAL in
    Ok (us_out st)
  end.
End Parser.

(** [uri_len] bytes at [uri]. *)
Definition tp_payload_fallback_uri_supported (uri : ptr chars) (uri_len : nat) : bool :=
  match uri with
  | NULL => true
  | Some uri =>
    (uri_len =? 0)%nat ||
    ((6 <=? uri_len)%nat && strncmp_eq 6 uri (lit "aeron:")) ||
    ((9 <=? uri_len)%nat && strncmp_eq 9 uri (lit "bridge://"))
  end.

(** ** The driver's paths and URIs *)

Definition isalnum (c : ascii) : bool :=
  let n := nat_of_ascii c in
  ((48 <=? n) && (n <=? 57) || (65 <=? n) && (n <=? 90) || (97 <=? n) && (n <=? 122))%nat.

Definition component_char (c : ascii) : bool :=
  isalnum c || Ascii.eqb c "-" || Ascii.eqb c "_".

(** At most [output_len - 1] characters are kept. *)
Definition tp_driver_sanitize_component (input : ptr chars) (output_len : nat) : chars :=
  match input with
  | NULL => []
  | Some s => (fun c => if component_char c then c else "_"%char) <$> take (output_len - 1) s
  end.

Definition tp_driver_validate_namespace (ns : chars) : bool :=
  negb (bool_decide (ns = [])) && forallb component_char ns.

(** [%u] and [PRIu64]. *)
Definition digit (d : Z) : ascii := ascii_of_nat (48 + Z.to_nat d).

Fixpoint decimal_digits (fuel : nat) (n : Z) : chars :=
  match fuel with
  | O => []
  | S fuel' =>
    if n <? 10 then [digit n] else decimal_digits fuel' (n / 10) ++ [digit (n mod 10)]
  end.

(** A 64-bit number has at most 20 digits. *)
Definition decimal (n : Z) : chars := decimal_digits 20 n.

Definition tensor_pool_regionType_HEADER_RING : Z := 1.
Definition tensor_pool_regionType_PAYLOAD_POOL : Z := 2.

(** The name of the user the driver runs as: [pw] is what [getpwuid] returns. *)
Definition region_user (pw : ptr chars) : chars :=
  let user := tp_driver_sanitize_component (Some (default (lit "unknown") pw)) 128 in
  if bool_decide (user = []) then lit "unknown" else user.

Definition region_file (pool_id region_type : Z) : chars :=
  if region_type =? tensor_pool_regionType_HEADER_RING then lit "header.ring"
  else decimal pool_id ++ lit ".pool".

(** What [snprintf] formats. *)
Definition region_path (base_dir user namespace : chars) (stream_id epoch pool_id region_type : Z)
    : chars :=
  base_dir ++ lit "/tensorpool-" ++ user ++ lit "/" ++ namespace ++ lit "/" ++
  decimal stream_id ++ lit "/" ++ decimal epoch ++ lit "/" ++ region_file pool_id region_type.

Section Driver.
Context (shm_base_dir shm_namespace : chars) (pw : ptr chars).
#[local] Open Scope tp_scope.

Definition tp_driver_build_region_path (stream_id epoch pool_id region_type : Z) (path_len : nat)
    : res chars :=
  guard! bool_decide (head shm_base_dir = Some "/"%char) else EINVAL in
  guard! tp_driver_validate_namespace shm_namespace else EINVAL in
  let path := region_path shm_base_dir (region_user pw) shm_namespace stream_id epoch
                pool_id region_type in
  guard! (length path <? path_len)%nat else EINVAL in
  Ok path.

Definition tp_driver_build_region_uri (stream_id epoch pool_id region_type : Z)
    (require_hugepages : bool) (uri_len : nat) : res chars :=
  let! path := tp_driver_build_region_path stream_id epoch pool_id region_type 4096 in
  let uri := lit "shm:file?path=" ++ path ++ lit "|require_hugepages=" ++
             lit (if require_hugepages then "true" else "false") in
  guard! (length uri <? uri_len)%nat else EINVAL in
  Ok uri.
End Driver.

(** ** Grammar

    What the parser accepts, stated without its cursors: a list of parameters
    [key=value] separated by bars, with an optional bar at the end. *)

Definition param : Type := chars * chars.

Definition render (p : param) : chars := fst p ++ "="%char :: snd p.

Record param_wf (p : param) : Prop := {
  pw_key : fst p <> [];
  pw_value : snd p <> [];
  pw_key_eq : "="%char ∉ fst p;
  pw_key_bar : "|"%char ∉ fst p;
  pw_value_bar : "|"%char ∉ snd p;
}.

Inductive uri_text : list param -> chars -> Prop :=
  | TextNil : uri_text [] []
  | TextOne p : param_wf p -> uri_text [p] (render p)
  | TextMore p ps r : param_wf p -> uri_text ps r -> uri_text (p :: ps) (render p ++ "|"%char :: r).

(** The source compares as many characters as the given key has: any prefix of
    a parameter's name stands for it. *)
Definition is_path (p : param) : Prop := fst p `prefix_of` lit "path".
Definition is_hugepages (p : param) : Prop := fst p `prefix_of` lit "require_hugepages".

#[export] Instance is_path_dec p : Decision (is_path p).
Proof. unfold is_path. apply _. Defined.
#[export] Instance is_hugepages_dec p : Decision (is_hugepages p).
Proof. unfold is_hugepages. apply _. Defined.

Definition param_ok (p : param) : Prop :=
  (is_path p /\ Z.of_nat (length (snd p)) < 4096) \/
  (~ is_path p /\ is_hugepages p /\ exists b, tp_uri_parse_bool (snd p) = Some b).

Definition paths (ps : list param) : list chars := snd <$> filter is_path ps.
Definition hugepages (ps : list param) : list bool :=
  omap (fun p => tp_uri_parse_bool (snd p)) (filter (fun p => ~ is_path p) ps).

(** The effect of one parameter. *)
Definition assign (p : param) (st : uri_state) : res uri_state :=
  if decide (is_path p) then
    if us_have_path st || (4096 <=? Z.of_nat (length (snd p))) then Err EINVAL
    else Ok {| us_out := {| uri_path := snd p;
                            uri_require_hugepages := uri_require_hugepages (us_out st) |};
               us_have_path := true |}
  else if decide (is_hugepages p) then
    match tp_uri_parse_bool (snd p) with
    | None => Err EINVAL
    | Some b => Ok {| us_out := {| uri_path := uri_path (us_out st); uri_require_hugepages := b |};
                      us_have_path := us_have_path st |}
    end
  else Err EINVAL.

Fixpoint assign_all (ps : list param) (st : uri_state) : res uri_state :=
  match ps with
  | [] => Ok st
  | p :: ps' => match assign p st with Ok st' => assign_all ps' st' | Err e => Err e end
  end.

(** ** Lemmas on C strings *)

Lemma strncmp_eq_prefix n a b :
  (n <= length a)%nat -> strncmp_eq n a b = true <-> (take n a `prefix_of` b).
Proof.
  revert a b. induction n as [|n IH]; intros a b Hn; simpl.
  - split; [intros _; apply prefix_nil|done].
  - destruct a as [|x a]; simpl in Hn; [lia|]. simpl. destruct b as [|y b].
    + split; [done|]. intros H. by apply prefix_nil_not in H.
    + rewrite andb_true_iff, Ascii.eqb_eq, (IH a b) by lia. split.
      * intros [-> H]. by apply prefix_cons.
      * intros H. split; [by apply prefix_cons_inv_1 in H|by apply prefix_cons_inv_2 in H].
Qed.

Lemma eqb_not_elem c s : c ∉ s -> Forall (fun x => Ascii.eqb c x = false) s.
Proof.
  intros H. apply Forall_forall. intros x Hx. apply Ascii.eqb_neq. intros <-. done.
Qed.

Lemma strchr_None c s : strchr c s = None <-> c ∉ s.
Proof.
  unfold strchr. rewrite find_index_None. split; [|apply eqb_not_elem].
  intros H Hin. rewrite Forall_forall in H. specialize (H c Hin). by rewrite Ascii.eqb_refl in H.
Qed.

Lemma strchr_app c p r : c ∉ p -> strchr c (p ++ c :: r) = Some (length p).
Proof.
  intros Hp. apply find_index_Some. exists c. rewrite list_lookup_middle by done.
  split; [done|]. split; [apply Ascii.eqb_refl|]. intros j y Hj Hy.
  rewrite lookup_app_l in Hy by done. apply eqb_not_elem in Hp. rewrite Forall_forall in Hp.
  apply Hp. by eapply list_elem_of_lookup_2.
Qed.

Lemma strchr_Some c s i :
  strchr c s = Some i -> s = (take i s ++ c :: drop (S i) s) /\ (c ∉ take i s) /\ (i < length s)%nat.
Proof.
  intros H. apply find_index_Some in H as (x & Hx & Hc%Ascii.eqb_eq & Hmin). subst x.
  split; [|split].
  - by rewrite <- (drop_S _ _ _ Hx), take_drop.
  - intros [j Hj]%list_elem_of_lookup. apply lookup_take_Some in Hj as [Hj Hlt].
    specialize (Hmin j c Hlt Hj). by rewrite Ascii.eqb_refl in Hmin.
  - by eapply lookup_lt_Some.
Qed.

Lemma render_bar p : param_wf p -> "|"%char ∉ render p.
Proof. intros [_ _ _ ? ?]. unfold render. set_solver. Qed.

Lemma length_render p : length (render p) = S (length (fst p) + length (snd p)).
Proof. unfold render. rewrite length_app. simpl. lia. Qed.

(** ** The parser follows the grammar *)

Lemma tp_uri_parse_bool_length v b : tp_uri_parse_bool v = Some b -> (length v < 16)%nat.
Proof.
  unfold tp_uri_parse_bool, strcmp_eq. repeat case_bool_decide; subst; intros; simpl; (done || lia).
Qed.

(** The parameter in front of a bar or of the end. *)
Lemma uri_param_render p rest st :
  param_wf p -> uri_param (render p ++ rest) (length (render p)) st = assign p st.
Proof.
  intros Hp. destruct p as [k v]. pose proof (length_render (k, v)) as Hlen.
  destruct Hp as [Hk Hv Heq _ _]. simpl in Hk, Hv, Heq, Hlen. unfold uri_param, assign.
  assert (Hs : strchr "=" (render (k, v)) = Some (length k)) by by apply strchr_app.
  rewrite take_app_length, Hs, Hlen. replace (S (length k + length v) - length k - 1)%nat with (length v) by lia.
  assert (Hval : take (length v) (drop (length k + 1) (render (k, v) ++ rest)) = v).
  { unfold render. simpl. rewrite <- app_assoc. simpl.
    rewrite drop_app_ge by lia. replace (length k + 1 - length k)%nat with 1%nat by lia.
    simpl. by rewrite drop_0, take_app_length. }
  rewrite Hval.
  replace (negb _) with true by (by destruct k, v). cbv iota.
  assert (Hcmp : forall name, strncmp_eq (length k) (render (k, v) ++ rest) name = true <->
                              (k `prefix_of` name)).
  { intros name. rewrite strncmp_eq_prefix by (rewrite length_app, length_render; simpl; lia).
    unfold render. simpl fst. by rewrite <- app_assoc, take_app_length. }
  unfold is_path, is_hugepages. simpl fst. simpl snd.
  destruct (strncmp_eq _ _ (lit "path")) eqn:E1; [apply Hcmp in E1|].
  - rewrite decide_True by done. destruct (us_have_path st); simpl; [done|].
    by rewrite Z.ltb_antisym, if_negb.
  - rewrite decide_False by (intros H; apply Hcmp in H; congruence).
    destruct (strncmp_eq _ _ (lit "require_hugepages")) eqn:E2; [apply Hcmp in E2|].
    + rewrite decide_True by done. destruct (tp_uri_parse_bool v) eqn:Eb.
      * apply tp_uri_parse_bool_length in Eb. by rewrite (proj2 (Nat.ltb_lt _ _) Eb).
      * by destruct (_ <? _)%nat.
    + rewrite decide_False by (intros H; apply Hcmp in H; congruence). done.
Qed.

(** An accepted parameter has the form of one. *)
Lemma uri_param_wf cursor len st st' :
  uri_param cursor len st = Ok st' -> (len <= length cursor)%nat -> "|"%char ∉ take len cursor ->
  exists p, param_wf p /\ take len cursor = render p.
Proof.
  unfold uri_param. intros H Hlen Hbar. destruct (strchr "=" (take len cursor)) as [i|] eqn:E; [|done].
  apply strchr_Some in E as (Ecut & Hno & Hi). rewrite length_take in Hi.
  destruct (_ || _) eqn:Ez; [done|]. apply orb_false_iff in Ez as [E1 E2].
  apply Nat.eqb_neq in E1, E2.
  exists (take i (take len cursor), drop (S i) (take len cursor)). split; [|exact Ecut].
  constructor; simpl.
  - intros Hn. apply (f_equal length) in Hn. rewrite !length_take in Hn. simpl in Hn. lia.
  - intros Hn. apply (f_equal length) in Hn. rewrite length_drop, length_take in Hn. simpl in Hn. lia.
  - done.
  - intros Hin. apply Hbar. rewrite Ecut. apply elem_of_app. by left.
  - intros Hin. apply Hbar. rewrite Ecut. apply elem_of_app. right. by right.
Qed.

Lemma uri_params_nil fuel st : uri_params fuel [] st = Ok st.
Proof. by destruct fuel. Qed.

Lemma uri_params_last fuel p st :
  param_wf p -> (length (render p) <= fuel)%nat -> uri_params fuel (render p) st = assign p st.
Proof.
  intros Hp Hf. destruct fuel as [|fuel]; [rewrite length_render in Hf; lia|].
  simpl. rewrite (proj2 (strchr_None _ _) (render_bar p Hp)). simpl.
  pose proof (uri_param_render p [] st Hp) as H. rewrite app_nil_r in H.
  destruct (render p) eqn:E; [by apply (f_equal length) in E; rewrite length_render in E|].
  rewrite H. unfold res_bind. by destruct (assign p st).
Qed.

Lemma uri_params_more fuel p r st :
  param_wf p ->
  uri_params (S fuel) (render p ++ "|"%char :: r) st =
  match assign p st with Ok st' => uri_params fuel r st' | Err e => Err e end.
Proof.
  intros Hp. simpl. rewrite (strchr_app _ _ _ (render_bar p Hp)). simpl.
  destruct (render p ++ _) eqn:E; [by destruct (render p)|]. rewrite <- E.
  rewrite uri_param_render by done. unfold res_bind. destruct (assign p st); [|done].
  by rewrite drop_app_ge, Nat.sub_succ_l, Nat.sub_diag by lia.
Qed.

Lemma uri_params_text ps cursor :
  uri_text ps cursor -> forall fuel st, (length cursor <= fuel)%nat ->
  uri_params fuel cursor st = assign_all ps st.
Proof.
  induction 1 as [|p Hp|p ps r Hp _ IH]; intros fuel st Hf.
  - apply uri_params_nil.
  - rewrite uri_params_last by done. simpl. by destruct (assign p st).
  - rewrite length_app, length_render in Hf. simpl in Hf. destruct fuel as [|fuel]; [lia|].
    rewrite uri_params_more by done. simpl. destruct (assign p st); [|done]. apply IH. lia.
Qed.

Lemma uri_params_sound fuel : forall cursor st st', (length cursor <= fuel)%nat ->
  uri_params fuel cursor st = Ok st' -> exists ps, uri_text ps cursor.
Proof.
  induction fuel as [|fuel IH]; intros cursor st st' Hf H.
  { destruct cursor; [|simpl in Hf; lia]. exists []. constructor. }
  destruct cursor as [|c cursor]; [exists []; constructor|].
  set (s := c :: cursor) in *. cbn [uri_params] in H. subst s. set (s := c :: cursor) in *.
  destruct (strchr "|" s) as [i|] eqn:E.
  - apply strchr_Some in E as (Ecut & Hno & Hi). unfold res_bind in H.
    destruct (uri_param s (default (length s) (Some i)) st) as [st1|] eqn:E1; [|done]. simpl in E1.
    destruct (uri_param_wf _ _ _ _ E1 ltac:(lia) Hno) as (p & Hp & Ep).
    destruct (IH (drop (S i) s) st1 st') as [ps Hps]; [rewrite length_drop; lia|exact H|].
    exists (p :: ps). rewrite Ecut, Ep. by constructor.
  - unfold res_bind in H.
    destruct (uri_param s (default (length s) None) st) as [st1|] eqn:E1; [|done]. simpl in E1.
    apply strchr_None in E.
    destruct (uri_param_wf s (S (length cursor)) st st1) as (p & Hp & Ep); [done|done| |].
    { by rewrite take_ge by done. }
    rewrite take_ge in Ep by done. exists [p]. rewrite Ep. by constructor.
Qed.

(** ** What the assignments amount to *)

Lemma paths_path p ps : is_path p -> paths (p :: ps) = snd p :: paths ps.
Proof. intros H. unfold paths. by rewrite filter_cons_True. Qed.
Lemma paths_other p ps : ~ is_path p -> paths (p :: ps) = paths ps.
Proof. intros H. unfold paths. by rewrite filter_cons_False. Qed.
Lemma hugepages_path p ps : is_path p -> hugepages (p :: ps) = hugepages ps.
Proof. intros H. unfold hugepages. rewrite filter_cons_False by tauto. done. Qed.
Lemma hugepages_other p ps b :
  ~ is_path p -> tp_uri_parse_bool (snd p) = Some b -> hugepages (p :: ps) = b :: hugepages ps.
Proof. intros H E. unfold hugepages. rewrite filter_cons_True by done. simpl. by rewrite E. Qed.

Lemma assign_all_ok ps : forall st st',
  assign_all ps st = Ok st' <->
  Forall param_ok ps /\ (length (paths ps) + (if us_have_path st then 1 else 0) <= 1)%nat /\
  st' = {| us_out := {| uri_path := default (uri_path (us_out st)) (last (paths ps));
                        uri_require_hugepages :=
                          default (uri_require_hugepages (us_out st)) (last (hugepages ps)) |};
           us_have_path := us_have_path st || negb (bool_decide (paths ps = [])) |}.
Proof.
  assert (Hlast : forall A (x d : A) l, default d (last (x :: l)) = default x (last l)).
  { intros A x d l. rewrite last_cons. by destruct (last l). }
  induction ps as [|p ps IH]; intros st st'.
  { simpl. split.
    - intros [= <-]. split; [constructor|]. split; [change (length (paths [])) with 0%nat; destruct (us_have_path st); lia|].
      destruct st as [[? ?] ?]. simpl. by rewrite orb_false_r.
    - intros (_ & _ & ->). destruct st as [[? ?] ?]. simpl. by rewrite orb_false_r. }
  simpl. rewrite Forall_cons. unfold assign, param_ok.
  destruct (decide (is_path p)) as [Hp|Hp].
  - rewrite paths_path, hugepages_path by done. simpl length. destruct (us_have_path st); simpl.
    + split; [done|]. intros (_ & H & _). lia.
    + rewrite Hlast. destruct (Z.leb_spec 4096 (Z.of_nat (length (snd p)))).
      * split; [done|]. intros ([[[_ ?]|[? _]] _] & _); [lia|done].
      * rewrite IH. simpl. split.
        -- intros (Hok & Hl & ->). split; [split; [by left|done]|]. split; [lia|done].
        -- intros ([_ Hok] & Hl & ->). split; [done|]. split; [lia|done].
  - rewrite paths_other by done. destruct (decide (is_hugepages p)) as [Hh|Hh].
    2:{ split; [done|]. intros ([[[? _]|[_ [? _]]] _] & _); done. }
    destruct (tp_uri_parse_bool (snd p)) as [b|] eqn:Eb.
    + rewrite (hugepages_other _ _ b), Hlast, IH by done. simpl. split.
      * intros (Hok & Hl & ->). split; [split; [right; eauto|done]|done].
      * intros ([_ Hok] & Hl & ->). done.
    + split; [done|]. intros ([[[? _]|(_ & _ & b & ?)] _] & _); done.
Qed.

Lemma strncmp_eq_all a b : strncmp_eq (length b) a b = true <-> (b `prefix_of` a).
Proof.
  revert a. induction b as [|y b IH]; intros a; simpl.
  - split; [intros _; apply prefix_nil|done].
  - destruct a as [|x a].
    + split; [done|]. intros H. by apply prefix_nil_not in H.
    + rewrite andb_true_iff, Ascii.eqb_eq, IH. split.
      * intros [-> H]. by apply prefix_cons.
      * intros H. split; [by apply prefix_cons_inv_1 in H|by apply prefix_cons_inv_2 in H].
Qed.

(** ** Text of the driver *)

Definition clean (s : chars) : Prop := Forall (fun c => component_char c = true) s.

Lemma clean_no_sep s : clean s -> ("|"%char ∉ s) /\ ("/"%char ∉ s).
Proof.
  unfold clean. rewrite Forall_forall. intros H. split; intros Hin; by specialize (H _ Hin).
Qed.

Lemma clean_user pw : clean (region_user pw).
Proof.
  unfold region_user. case_bool_decide; [by repeat constructor|].
  unfold tp_driver_sanitize_component. apply Forall_fmap, Forall_forall. intros c _. simpl.
  destruct (component_char c) eqn:E; [exact E|done].
Qed.

Lemma clean_namespace ns : tp_driver_validate_namespace ns = true -> clean ns.
Proof.
  unfold tp_driver_validate_namespace. intros [_ H]%andb_true_iff. unfold clean.
  apply Forall_forall. intros c Hc. rewrite forallb_forall in H. by apply H, list_elem_of_In.
Qed.

Lemma digit_cases (P : Z -> Prop) :
  P 0 -> P 1 -> P 2 -> P 3 -> P 4 -> P 5 -> P 6 -> P 7 -> P 8 -> P 9 -> forall d, 0 <= d < 10 -> P d.
Proof.
  intros. assert (Hd : d = 0 \/ d = 1 \/ d = 2 \/ d = 3 \/ d = 4 \/ d = 5 \/ d = 6 \/ d = 7 \/ d = 8 \/ d = 9)
    by lia. by repeat destruct Hd as [->|Hd]; subst.
Qed.

Lemma clean_digits fuel : forall n, 0 <= n -> clean (decimal_digits fuel n).
Proof.
  assert (Hd : forall d, 0 <= d < 10 -> component_char (digit d) = true)
    by (apply digit_cases; reflexivity).
  induction fuel as [|fuel IH]; intros n Hn; simpl; [constructor|].
  destruct (Z.ltb_spec n 10).
  - constructor; [apply Hd; lia|constructor].
  - apply Forall_app. split; [apply IH, Z.div_pos; lia|].
    constructor; [|constructor]. apply Hd, Z.mod_pos_bound. lia.
Qed.

(** Reading a number back. *)
Definition undecimal (s : chars) : Z :=
  foldl (fun acc c => acc * 10 + (Z.of_nat (nat_of_ascii c) - 48)) 0 s.

Lemma undecimal_digits fuel : forall n, 0 <= n < 10 ^ Z.of_nat fuel ->
  undecimal (decimal_digits fuel n) = n.
Proof.
  assert (Hd : forall d, 0 <= d < 10 -> Z.of_nat (nat_of_ascii (digit d)) - 48 = d)
    by (apply digit_cases; reflexivity).
  induction fuel as [|fuel IH]; intros n Hn; [change (10 ^ Z.of_nat 0) with 1 in Hn; cbn; lia|].
  cbn [decimal_digits]. destruct (Z.ltb_spec n 10).
  - unfold undecimal. simpl. rewrite Hd by lia. lia.
  - unfold undecimal. rewrite foldl_app. simpl. fold (undecimal (decimal_digits fuel (n / 10))).
    rewrite Hd by (apply Z.mod_pos_bound; lia).
    rewrite IH; [pose proof (Z.div_mod n 10); lia|]. split; [apply Z.div_pos; lia|].
    apply Z.div_lt_upper_bound; [lia|]. rewrite <- Z.pow_succ_r, <- Nat2Z.inj_succ by lia. lia.
Qed.

Lemma decimal_inj n m : 0 <= n < 2 ^ 64 -> 0 <= m < 2 ^ 64 -> decimal n = decimal m -> n = m.
Proof.
  intros Hn Hm E. apply (f_equal undecimal) in E. unfold decimal in E.
  rewrite !undecimal_digits in E by (simpl; lia). done.
Qed.

Lemma split_inj (c : ascii) a a' b b' :
  c ∉ a -> c ∉ a' -> a ++ c :: b = a' ++ c :: b' -> a = a' /\ b = b'.
Proof.
  intros Ha Ha' E. pose proof (strchr_app c a b Ha) as H. rewrite E, (strchr_app c a' b' Ha') in H.
  injection H as H. apply app_inj_1 in E as [-> E]; [|done]. by injection E as ->.
Qed.

Lemma region_file_inj pool type pool' type' :
  0 <= pool < 2 ^ 16 -> 0 <= pool' < 2 ^ 16 -> region_file pool type = region_file pool' type' ->
  (type = tensor_pool_regionType_HEADER_RING <-> type' = tensor_pool_regionType_HEADER_RING) /\
  (type <> tensor_pool_regionType_HEADER_RING -> pool = pool').
Proof.
  intros Hp Hp' E. unfold region_file in E.
  destruct (Z.eqb_spec type tensor_pool_regionType_HEADER_RING),
    (Z.eqb_spec type' tensor_pool_regionType_HEADER_RING).
  - split; [tauto|done].
  - exfalso. apply (f_equal last) in E. by rewrite last_app in E.
  - exfalso. apply (f_equal last) in E. by rewrite last_app in E.
  - apply app_inj_2 in E as [E _]; [|done]. apply decimal_inj in E; [|lia..]. tauto.
Qed.

(** The parser, without its cursors. *)
Lemma uri_parse_spec uri u :
  tp_shm_uri_parse (Some uri) = Ok u <->
  exists ps r, uri = lit "shm:file?" ++ r /\ uri_text ps r /\ Forall param_ok ps /\
    paths ps = [uri_path u] /\ head (uri_path u) = Some "/"%char /\
    uri_require_hugepages u = default false (last (hugepages ps)).
Proof.
  unfold tp_shm_uri_parse. split.
  - destruct (strncmp_eq _ _ _) eqn:E; [|done].
    apply strncmp_eq_all in E as [r ->]. rewrite drop_app_length.
    intros H. unfold res_bind in H. destruct (uri_params _ _ _) as [st|] eqn:Ep; [|done].
    destruct (uri_params_sound _ _ _ _ (Nat.le_refl _) Ep) as [ps Hps].
    rewrite (uri_params_text _ _ Hps) in Ep by lia. apply assign_all_ok in Ep as (Hok & Hl & ->).
    simpl in H, Hl. case_bool_decide as Hn; [done|]. simpl in H.
    case_bool_decide as Hh; [|done]. injection H as <-. exists ps, r. simpl.
    destruct (paths ps) as [|v [|]]; simpl in Hl; [done| |lia]. by split_and!.
  - intros (ps & r & -> & Hps & Hok & Hp & Hh & Hhuge).
    rewrite (proj2 (strncmp_eq_all _ _)) by by apply prefix_app_r.
    rewrite drop_app_length, (uri_params_text _ _ Hps) by lia.
    erewrite (proj2 (assign_all_ok _ _ _)); [|split; [done|split; [by rewrite Hp|reflexivity]]].
    unfold res_bind. simpl. rewrite Hp. simpl. rewrite bool_decide_true by done.
    destruct u as [path huge]. simpl in *. by rewrite Hhuge.
Qed.

(** Two parameters with their full names. *)
Lemma uri_parse_two path (flag : option bool) :
  path <> [] -> ("|"%char ∉ path) -> head path = Some "/"%char -> Z.of_nat (length path) < 4096 ->
  tp_shm_uri_parse (Some (lit "shm:file?path=" ++ path ++
    match flag with
    | Some b => lit "|require_hugepages=" ++ lit (if b then "true" else "false")
    | None => []
    end)) = Ok {| uri_path := path; uri_require_hugepages := default false flag |}.
Proof.
  intros Hne Hbar Hhead Hlen. apply uri_parse_spec.
  assert (Hpath : param_wf (lit "path", path)) by (constructor; (done || by apply strchr_None)).
  assert (Hok : param_ok (lit "path", path)) by (left; split; [by exists []|done]).
  destruct flag as [b|].
  - set (v := lit (if b then "true" else "false")).
    exists [(lit "path", path); (lit "require_hugepages", v)],
      (lit "path=" ++ path ++ lit "|require_hugepages=" ++ v).
    assert (Hflag : param_wf (lit "require_hugepages", v)).
    { constructor; unfold v; destruct b; (done || by apply strchr_None). }
    split_and!; [done|exact (TextMore (lit "path", path) _ _ Hpath (TextOne _ Hflag))| |done|done|by destruct b].
    constructor; [done|]. constructor; [|constructor].
    right. split; [|split; [by exists []|unfold v; destruct b; by eexists]].
    intros [s Hs']. discriminate Hs'.
  - exists [(lit "path", path)], (lit "path=" ++ path).
    rewrite app_nil_r. split_and!; [done|exact (TextOne _ Hpath)|by constructor|done..].
Qed.

(** The ABNF of section 15.22 of the wire specification, with what a URI says. *)
Definition vchar (c : ascii) : Prop := (33 <= nat_of_ascii c <= 126)%nat.

Definition abs_path (p : chars) : Prop :=
  p <> [] /\ Forall (fun c => vchar c /\ c <> "?"%char /\ c <> "|"%char) p.

Inductive shm_uri : chars -> tp_shm_uri_t -> Prop :=
  | UriPath p : abs_path p ->
    shm_uri (lit "shm:file?path=" ++ p) {| uri_path := p; uri_require_hugepages := false |}
  | UriHugepages p b : abs_path p ->
    shm_uri (lit "shm:file?path=" ++ p ++ lit "|require_hugepages=" ++ lit (if b : bool then "true" else "false"))
      {| uri_path := p; uri_require_hugepages := b |}.

(** ** Properties *)

(** C38: The language the parser accepts, exactly, and what it reads in it: [shm:file?]
    followed by parameters [key=value] between bars, one of them the path, absolute and
    shorter than 4096 characters, the others hugepage flags, of which the last
    counts; a key may be any nonempty prefix of [path] or [require_hugepages], and a
    bar may end the text.  Every URI of the ABNF of section 15.22 of the wire
    specification whose path is absolute and shorter than 4096 characters is in it
    and read with its path and flag; the language is larger than the ABNF (see
    [key_prefix_accepted], which also ends with a bar). *)
Theorem uri_parse_iff uri u :
  (tp_shm_uri_parse (Some uri) = Ok u <->
   exists ps r, uri = lit "shm:file?" ++ r /\ uri_text ps r /\ Forall param_ok ps /\
     paths ps = [uri_path u] /\ head (uri_path u) = Some "/"%char /\
     uri_require_hugepages u = default false (last (hugepages ps))) /\
  (shm_uri uri u -> head (uri_path u) = Some "/"%char -> Z.of_nat (length (uri_path u)) < 4096 ->
   tp_shm_uri_parse (Some uri) = Ok u).
Proof.
  split; [apply uri_parse_spec|].
  assert (Hbar : forall p, abs_path p -> "|"%char ∉ p).
  { intros p [_ Hp] Hin. rewrite Forall_forall in Hp. by destruct (Hp _ Hin) as (_ & _ & ?). }
  intros [p Hp|p b Hp] Hh Hl; cbn [uri_path] in *; pose proof (Hbar p Hp); destruct Hp as [Hne _].
  - rewrite <- (app_nil_r p) at 1. by apply (uri_parse_two p None).
  - by apply (uri_parse_two p (Some b)).
Qed.

Lemma uri_parse_iff_witness :
  tp_shm_uri_parse (Some (lit "shm:file?path=/dev/shm/a|require_hugepages=true")) =
    Ok {| uri_path := lit "/dev/shm/a"; uri_require_hugepages := true |}.
Proof.
  apply uri_parse_iff; [|reflexivity|reflexivity].
  apply (UriHugepages (lit "/dev/shm/a") true). split; [done|].
  repeat (apply Forall_cons_2; [split; [unfold vchar; vm_compute; split; lia|by split]|]). apply Forall_nil_2.
Defined.

(** Every region URI the driver builds is accepted by the clients' parser,
    which finds the driver's path and hugepage flag in it, for a base directory
    without bars. *)
Theorem region_uri_roundtrip base ns pw stream epoch pool type huge uri_len uri :
  "|"%char ∉ base -> 0 <= stream -> 0 <= epoch -> 0 <= pool ->
  tp_driver_build_region_uri base ns pw stream epoch pool type huge uri_len = Ok uri ->
  exists path, tp_driver_build_region_path base ns pw stream epoch pool type 4096 = Ok path /\
    tp_shm_uri_parse (Some uri) = Ok {| uri_path := path; uri_require_hugepages := huge |}.
Proof.
  intros Hbar Hs He Hpl. unfold tp_driver_build_region_uri.
  destruct (tp_driver_build_region_path _ _ _ _ _ _ _ _) as [path|] eqn:Ep; [|done].
  simpl res_bind. destruct (_ <? _)%nat; [|done]. intros [= <-]. exists path. split; [done|].
  unfold tp_driver_build_region_path in Ep. case_bool_decide as Hbase; [|done].
  destruct (tp_driver_validate_namespace ns) eqn:Hns; [|done].
  destruct (Nat.ltb_spec (length (region_path base (region_user pw) ns stream epoch pool type)) 4096);
    [|done].
  injection Ep as Ep.
  apply (uri_parse_two path (Some huge)); rewrite <- Ep; [by destruct base| |by destruct base|lia].
  unfold region_path.
  pose proof (clean_no_sep _ (clean_user pw)) as [H1 _].
  pose proof (clean_no_sep _ (clean_namespace _ Hns)) as [H2 _].
  pose proof (clean_no_sep _ (clean_digits 20 _ Hs)) as [H3 _].
  pose proof (clean_no_sep _ (clean_digits 20 _ He)) as [H4 _].
  pose proof (clean_no_sep _ (clean_digits 20 _ Hpl)) as [H5 _].
  unfold region_file, decimal. destruct (_ =? _); rewrite !not_elem_of_app; split_and!;
    first [done | by apply strchr_None].
Qed.

Lemma region_uri_roundtrip_witness :
  exists path, tp_driver_build_region_path (lit "/dev/shm") (lit "lab") NULL 10 77 3 2 4096 = Ok path /\
    tp_shm_uri_parse (Some (lit
      "shm:file?path=/dev/shm/tensorpool-unknown/lab/10/77/3.pool|require_hugepages=true")) =
    Ok {| uri_path := path; uri_require_hugepages := true |}.
Proof.
  apply (region_uri_roundtrip (lit "/dev/shm") (lit "lab") NULL 10 77 3 2 true 4096);
    [by apply strchr_None|lia|lia|lia|by vm_compute].
Defined.

(** Two regions never share a file: under one base directory, user and
    namespace the path determines the stream, the epoch, whether the region is
    the header ring, and if not the pool. *)
Theorem region_path_injective base ns pw stream epoch pool type stream' epoch' pool' type' path len :
  0 <= stream < 2 ^ 32 -> 0 <= stream' < 2 ^ 32 -> 0 <= epoch < 2 ^ 64 -> 0 <= epoch' < 2 ^ 64 ->
  0 <= pool < 2 ^ 16 -> 0 <= pool' < 2 ^ 16 ->
  tp_driver_build_region_path base ns pw stream epoch pool type len = Ok path ->
  tp_driver_build_region_path base ns pw stream' epoch' pool' type' len = Ok path ->
  stream = stream' /\ epoch = epoch' /\
  (type = tensor_pool_regionType_HEADER_RING <-> type' = tensor_pool_regionType_HEADER_RING) /\
  (type <> tensor_pool_regionType_HEADER_RING -> pool = pool').
Proof.
  intros Hs Hs' He He' Hp Hp'. unfold tp_driver_build_region_path.
  case_bool_decide; [|done]. destruct (tp_driver_validate_namespace ns); [|done].
  destruct (_ <? _)%nat; [|done]. intros [= <-]. destruct (_ <? _)%nat; [|done].
  intros [= E]. unfold region_path in E. do 6 apply app_inv_head in E. symmetry in E.
  change (decimal stream ++ "/"%char :: decimal epoch ++ "/"%char :: region_file pool type =
    decimal stream' ++ "/"%char :: decimal epoch' ++ "/"%char :: region_file pool' type') in E.
  assert (Hno : forall n, 0 <= n -> "/"%char ∉ decimal n)
    by (intros n Hn; apply (clean_no_sep _ (clean_digits 20 _ Hn))).
  apply split_inj in E as [E1 E]; [|by apply Hno; lia..].
  apply split_inj in E as [E2 E]; [|by apply Hno; lia..].
  apply decimal_inj in E1; [|lia..]. apply decimal_inj in E2; [|lia..].
  apply region_file_inj in E; [|lia..]. split; [done|]. split; [done|].
  done.
Qed.

Lemma region_path_injective_witness :
  let path := region_path (lit "/dev/shm") (lit "me") (lit "lab") 10 77 3 2 in
  tp_driver_build_region_path (lit "/dev/shm") (lit "lab") (Some (lit "me")) 10 77 3 2 4096 = Ok path /\
  (2 <> tensor_pool_regionType_HEADER_RING -> 3 = 3).
Proof.
  intros path. split; [by vm_compute|].
  apply (region_path_injective (lit "/dev/shm") (lit "lab") (Some (lit "me")) 10 77 3 2 10 77 3 2 path
    4096); try lia; by vm_compute.
Defined.

(** ** What the parser lets through and keeps out *)

(** Prefixes of the names and a bar at the end. *)
Example key_prefix_accepted :
  tp_shm_uri_parse (Some (lit "shm:file?p=/dev/shm/a|requ=true|")) =
    Ok {| uri_path := lit "/dev/shm/a"; uri_require_hugepages := true |}.
Proof. vm_compute. reflexivity. Qed.

(** A base directory with a bar makes URIs that the parser refuses. *)
Example bar_in_base :
  match tp_driver_build_region_uri (lit "/a|p") (lit "lab") NULL 10 77 3 2 true 4096 with
  | Ok uri => tp_shm_uri_parse (Some uri) = Err EINVAL
  | Err _ => False
  end.
Proof. vm_compute. reflexivity. Qed.
