(* ===== verification/Message.v ===== *)
(** * Message: messages with variable-length parts

    The control messages of the clients and the driver have a fixed block, then
    groups whose entries carry text of their own, then more text.  The generated
    encoders and decoders keep one position that each part advances.  Here a
    message is a list of parts laid out one after another ([items_writes]);
    [holds b pos items] says what a decoder that follows the same layout reads,
    and [encode_holds] that a buffer written by an encoder satisfies it.  The
    decoders of the source follow an [outcome]: they return 0, 1 for a message
    of another kind, or -1. *)

From Stdlib Require Import ZArith Lia Bool Ascii String.
From stdpp Require Import strings.
From S2P Require Import Prelude Sbe Uri.

#[local] Open Scope Z_scope.
#[local] Open Scope list_scope.

(** ** Characters and bytes *)

Definition byte_of (c : ascii) : Z := Z.of_N (N_of_ascii c).
Definition char_of (z : Z) : ascii := ascii_of_N (Z.to_N z).

(** The C string in a buffer: up to the first terminator. *)
Fixpoint cstring (s : chars) : chars :=
  match s with
  | [] => []
  | c :: s' => if Ascii.eqb c "000" then [] else c :: cstring s'
  end.

Lemma char_of_byte c : char_of (byte_of c) = c.
Proof. unfold char_of, byte_of. rewrite N2Z.id. apply ascii_N_embedding. Qed.

Lemma byte_of_range c : is_u8 (byte_of c).
Proof. unfold is_u8, byte_of. pose proof (N_ascii_bounded c). lia. Qed.

Lemma chars_of_bytes (s : chars) : char_of <$> (byte_of <$> s) = s.
Proof. induction s as [|c s IH]; [done|]. cbn. by rewrite char_of_byte, IH. Qed.

Lemma bytes_u8 (s : chars) : Forall is_u8 (byte_of <$> s).
Proof. apply Forall_fmap, Forall_forall. intros c _. apply byte_of_range. Qed.

Lemma cstring_id (s : chars) : "000"%char ∉ s -> cstring s = s.
Proof.
  induction s as [|c s IH]; [done|]. rewrite not_elem_of_cons. intros [Hc Hs]. cbn [cstring].
  destruct (Ascii.eqb_spec c "000"); [by subst|]. by rewrite IH.
Qed.

Lemma cstring_no_nul s : "000"%char ∉ cstring s.
Proof.
  induction s as [|c s IH]; cbn [cstring]; [apply not_elem_of_nil|].
  destruct (Ascii.eqb_spec c "000"); [apply not_elem_of_nil|]. rewrite not_elem_of_cons. auto.
Qed.

(** ** Outcomes of a decoder *)

(** [OutOfBounds]: the decoder reads past the end of the fragment. *)
Inductive outcome (A : Type) :=
  | Decoded (a : A)
  | NotThisMessage
  | Malformed
  | OutOfBounds.

Arguments Decoded {A} a.
Arguments NotThisMessage {A}.
Arguments Malformed {A}.
Arguments OutOfBounds {A}.

Definition outcome_bind {A B} (m : outcome A) (k : A -> outcome B) : outcome B :=
  match m with
  | Decoded a => k a
  | NotThisMessage => NotThisMessage
  | Malformed => Malformed
  | OutOfBounds => OutOfBounds
  end.

Definition require {A} (o : option A) : outcome A :=
  match o with Some a => Decoded a | None => Malformed end.

Notation "'field!' x ':=' m 'in' k" := (outcome_bind m (fun x => k))
  (at level 10, x name, m at level 100, k at level 200) : tp_scope.
Notation "'check!' c 'in' k" := (if c then k else Malformed)
  (at level 10, c at level 100, k at level 200) : tp_scope.

(** ** Parts of a message *)

Inductive item :=
  | Block (size : Z) (ws : list write)  (* fields at fixed offsets *)
  | VarData (data : bytes).             (* a 32-bit length and as many bytes *)

Definition Text (s : chars) : item := VarData (byte_of <$> s).

Definition item_size (it : item) : Z :=
  match it with
  | Block n _ => n
  | VarData d => 4 + Z.of_nat (length d)
  end.

Fixpoint items_size (l : list item) : Z :=
  match l with
  | [] => 0
  | it :: l' => item_size it + items_size l'
  end.

Definition item_writes (pos : Z) (it : item) : list write :=
  match it with
  | Block _ ws => map (shift_write pos) ws
  | VarData d => Write pos 4 (Z.of_nat (length d)) :: array_writes 1 (pos + 4) d
  end.

Fixpoint items_writes (pos : Z) (l : list item) : list write :=
  match l with
  | [] => []
  | it :: l' => item_writes pos it ++ items_writes (pos + item_size it) l'
  end.

(** The message header, as [messageHeader_wrap] and its setters leave it. *)
Definition header_item (block template schema version : Z) : item :=
  Block 8 (messageHeader_writes block template schema version).

(** A group header: the length of an entry's block and the number of entries. *)
Definition group_item (block count : Z) : item := Block 4 (group_header_writes 0 block count).

Section Messages.
Context `{Sbe}.

(** The bytes an encoder offers from its buffer [b], or [None] when the parts do
    not fit: the setters of variable-length data refuse to write past the end. *)
Definition encode (items : list item) (b : bytes) : option bytes :=
  if blen b <? items_size items then None
  else Some (take (Z.to_nat (items_size items)) (sbe_puts (items_writes 0 items) b)).

(** ** Reading *)

Definition sbe_bytes (b : bytes) (pos : Z) (n : nat) : bytes :=
  (fun i => sbe_get 1 b (pos + Z.of_nat i)) <$> seq 0 n.

Definition sbe_chars (b : bytes) (pos : Z) (n : nat) : chars := char_of <$> sbe_bytes b pos n.

(** What a reader finds at [pos]. *)
Fixpoint holds (b : bytes) (pos : Z) (l : list item) : Prop :=
  match l with
  | [] => pos <= blen b
  | Block n ws :: l' =>
    (forall off w v, 0 <= w -> 0 <= off -> off + w <= n ->
       last_write ws off w (inr true) = inl v -> sbe_get w b (pos + off) = v) /\
    holds b (pos + n) l'
  | VarData d :: l' =>
    sbe_get 4 b pos = Z.of_nat (length d) /\ sbe_bytes b (pos + 4) (length d) = d /\
    holds b (pos + 4 + Z.of_nat (length d)) l'
  end.

Definition item_ok (it : item) : Prop :=
  match it with
  | Block n ws => 0 <= n /\ writes_in n ws = true /\ Forall write_fits ws
  | VarData d => Z.of_nat (length d) < 2 ^ 32 /\ Forall is_u8 d
  end.

Lemma item_size_nonneg it : item_ok it -> 0 <= item_size it.
Proof. destruct it as [n ws|d]; simpl; [tauto|lia]. Qed.

Lemma items_size_app l l' : items_size (l ++ l') = items_size l + items_size l'.
Proof. induction l as [|it l IH]; cbn [app items_size]; lia. Qed.

Lemma items_size_nonneg l : Forall item_ok l -> 0 <= items_size l.
Proof.
  induction 1 as [|it l Hit _ IH]; cbn [items_size]; [done|].
  apply item_size_nonneg in Hit. lia.
Qed.

(** A part stays within its bytes. *)
Lemma item_writes_range pos it : 0 <= pos -> item_ok it ->
  Forall (fun w => pos <= w_off w /\ 0 <= w_width w /\ w_off w + w_width w <= pos + item_size it)
    (item_writes pos it).
Proof.
  intros Hp Hok. apply List.Forall_forall. destruct it as [n ws|d]; cbn [item_writes item_size].
  - destruct Hok as (_ & Hin & _). intros w (w' & <- & Hw)%in_map_iff.
    pose proof (proj1 (forallb_forall _ _) Hin w' Hw) as E. simpl in *. bool_simp. lia.
  - intros w [<-|Hw]; [simpl; lia|]. apply list_elem_of_In, elem_of_lookup_imap in Hw.
    destruct Hw as (i & v & -> & Hv%lookup_lt_Some). simpl. lia.
Qed.

Lemma items_writes_above l : forall pos, 0 <= pos -> Forall item_ok l ->
  Forall (fun w => pos <= w_off w /\ 0 <= w_width w) (items_writes pos l).
Proof.
  induction l as [|it l IH]; intros pos Hp Hok; cbn [items_writes]; [constructor|].
  inversion_clear Hok as [|? ? Hit Hl]. apply Forall_app_2.
  - eapply Forall_impl; [by apply item_writes_range|]. simpl. intros w ?. lia.
  - pose proof (item_size_nonneg _ Hit). eapply Forall_impl; [apply IH; [lia|done]|].
    simpl. intros w ?. lia.
Qed.

(** Later parts leave what was read before them. *)
Lemma items_writes_before l pos b off w :
  0 <= pos -> Forall item_ok l -> 0 <= w -> 0 <= off -> off + w <= pos ->
  sbe_get w (sbe_puts (items_writes pos l) b) off = sbe_get w b off.
Proof.
  intros Hp Hok Hw Ho Hle. apply sbe_get_puts_outside; [done..|].
  eapply Forall_impl; [by apply items_writes_above|]. simpl. intros x ?. lia.
Qed.

Lemma sbe_bytes_ext b b' pos n :
  (forall i, (i < n)%nat -> sbe_get 1 b (pos + Z.of_nat i) = sbe_get 1 b' (pos + Z.of_nat i)) ->
  sbe_bytes b pos n = sbe_bytes b' pos n.
Proof.
  intros Hext. apply list_fmap_ext. intros i x [-> Hx]%lookup_seq. by apply Hext.
Qed.

Lemma var_data_bytes pos d b :
  0 <= pos -> Forall is_u8 d -> pos + Z.of_nat (length d) <= blen b ->
  sbe_bytes (sbe_puts (array_writes 1 pos d) b) pos (length d) = d.
Proof.
  intros Hp Hd Hlen. apply list_eq. intros i. unfold sbe_bytes. rewrite list_lookup_fmap.
  destruct (decide (i < length d)%nat) as [Hi|Hi].
  - rewrite lookup_seq_lt by done. destruct (lookup_lt_is_Some_2 d i Hi) as [v Hv].
    rewrite Hv. cbn. f_equal. replace (pos + Z.of_nat i) with (pos + 1 * Z.of_nat i) by lia.
    eapply array_writes_get; [lia|done|lia| |done]. exact Hd.
  - rewrite (lookup_ge_None_2 d) by lia. by rewrite lookup_ge_None_2 by (rewrite length_seq; lia).
Qed.

Lemma block_get pos n ws b off w v :
  0 <= pos -> pos + n <= blen b -> writes_in n ws = true -> Forall write_fits ws ->
  0 <= w -> 0 <= off -> last_write ws off w (inr true) = inl v ->
  sbe_get w (sbe_puts (map (shift_write pos) ws) b) (pos + off) = v.
Proof.
  intros Hp Hlen Hin Hfit Hw Ho Hl.
  eapply sbe_get_puts_val with (n := pos + n); try done; [by apply shift_writes_in| |lia|].
  - apply Forall_fmap. by eapply Forall_impl; [exact Hfit|].
  - by rewrite last_write_shift.
Qed.

Lemma holds_ext b b' l : forall pos, 0 <= pos -> pos + items_size l <= blen b' ->
  (forall w off, 0 <= w -> pos <= off -> off + w <= pos + items_size l ->
     sbe_get w b' off = sbe_get w b off) ->
  Forall item_ok l -> holds b pos l -> holds b' pos l.
Proof.
  induction l as [|it l IH]; intros pos Hp Hlen Hext Hok Hh; [cbn in *; lia|].
  inversion_clear Hok as [|? ? Hit Hl]. cbn [items_size] in Hext, Hlen.
  pose proof (item_size_nonneg _ Hit). pose proof (items_size_nonneg _ Hl).
  destruct it as [n ws|d]; cbn [holds item_size] in *.
  - destruct Hh as [Hb Hr]. split.
    + intros off w v Hw Ho Hn Hv. rewrite Hext by lia. by apply Hb.
    + apply IH; [lia|lia| |done|done]. intros. apply Hext; lia.
  - destruct Hh as (Hn & Hd & Hr). split_and!.
    + rewrite Hext by lia. done.
    + rewrite <- Hd at 2. apply sbe_bytes_ext. intros i Hi. apply Hext; lia.
    + apply IH; [lia|lia| |done|done]. intros. apply Hext; lia.
Qed.

(** What an encoder writes is what a decoder of the same layout reads. *)
Lemma puts_holds l : forall pos b, 0 <= pos -> Forall item_ok l ->
  pos + items_size l <= blen b -> holds (sbe_puts (items_writes pos l) b) pos l.
Proof.
  induction l as [|it l IH]; intros pos b Hp Hok Hlen; [cbn in *; lia|].
  inversion_clear Hok as [|? ? Hit Hl]. cbn [items_writes items_size] in *. rewrite sbe_puts_app.
  pose proof (item_size_nonneg _ Hit). pose proof (items_size_nonneg _ Hl).
  set (b1 := sbe_puts (item_writes pos it) b).
  assert (Hb1 : blen b1 = blen b) by apply sbe_puts_len.
  assert (Hrest : holds (sbe_puts (items_writes (pos + item_size it) l) b1) (pos + item_size it) l)
    by (apply IH; [lia|done|lia]).
  assert (Hbefore : forall off w, 0 <= w -> 0 <= off -> off + w <= pos + item_size it ->
    sbe_get w (sbe_puts (items_writes (pos + item_size it) l) b1) off = sbe_get w b1 off)
    by (intros; apply items_writes_before; (done || lia)).
  destruct it as [n ws|d]; cbn [holds item_size item_writes] in *.
  - split; [|done]. intros off w v Hw Ho Hn Hv. rewrite Hbefore by lia.
    destruct Hit as (? & ? & ?). apply (block_get pos n ws); (done || lia).
  - destruct Hit as [Hd32 Hd]. split_and!; [| |by rewrite <- Z.add_assoc].
    + rewrite Hbefore by lia. unfold b1. cbn [sbe_puts fold_left w_width w_off w_val].
      change (fold_left _ ?x ?y) with (sbe_puts x y).
      rewrite array_writes_outside by lia. apply sbe_get_put_eq; lia.
    + rewrite <- (var_data_bytes (pos + 4) d (sbe_put 4 b pos (Z.of_nat (length d)))) at 3;
        [|lia|done|rewrite sbe_put_len; lia].
      apply sbe_bytes_ext. intros i Hi. apply Hbefore; lia.
Qed.

Lemma sbe_get_take w b n off :
  0 <= w -> 0 <= off -> off + w <= Z.of_nat n -> sbe_get w (take n b) off = sbe_get w b off.
Proof. intros. apply sbe_get_ext; [done..|]. intros i Hi. apply lookup_take_lt. lia. Qed.

Lemma encode_length items b msg : Forall item_ok items ->
  encode items b = Some msg -> blen msg = items_size items.
Proof.
  intros Hok. unfold encode. destruct (Z.ltb_spec (blen b) (items_size items)); [done|].
  intros [= <-]. pose proof (items_size_nonneg _ Hok). unfold blen in *.
  rewrite length_take. pose proof (sbe_puts_len (items_writes 0 items) b) as Hl.
  unfold blen in Hl. lia.
Qed.

Theorem encode_holds items b msg :
  Forall item_ok items -> encode items b = Some msg -> holds msg 0 items.
Proof.
  intros Hok He. pose proof (encode_length _ _ _ Hok He) as Hlen. revert He. unfold encode.
  destruct (Z.ltb_spec (blen b) (items_size items)); [done|]. intros [= <-].
  set (n := items_size items) in *. set (b' := sbe_puts (items_writes 0 items) b) in *.
  assert (Hh : holds b' 0 items) by (apply puts_holds; (done || lia)).
  pose proof (items_size_nonneg _ Hok).
  eapply holds_ext; [lia|rewrite Hlen; lia| |done|exact Hh].
  intros w off Hw Ho Hn. apply sbe_get_take; lia.
Qed.

Lemma holds_end b l : forall pos, holds b pos l -> pos + items_size l <= blen b.
Proof.
  induction l as [|it l IH]; intros pos Hh; [cbn in *; lia|].
  destruct it as [n ws|d]; cbn [holds items_size item_size] in *.
  - destruct Hh as [_ Hr%IH]. lia.
  - destruct Hh as (_ & _ & Hr%IH). lia.
Qed.

Lemma holds_app b l1 l2 : forall pos, holds b pos (l1 ++ l2) -> holds b (pos + items_size l1) l2.
Proof.
  induction l1 as [|it l1 IH]; intros pos Hh; [by rewrite Z.add_0_r|].
  cbn [items_size]. rewrite Z.add_assoc. apply IH. destruct it as [n ws|d]; cbn [app holds] in Hh.
  - apply Hh.
  - cbn [item_size]. rewrite Z.add_assoc. apply Hh.
Qed.

Lemma holds_block b pos n ws l : holds b pos (Block n ws :: l) -> holds b (pos + n) l.
Proof. by intros [_ ?]. Qed.
End Messages.

Lemma text_ok (s : chars) : Z.of_nat (length s) < 2 ^ 32 -> item_ok (Text s).
Proof. intros Hs. split; [by rewrite length_fmap|apply bytes_u8]. Qed.

Lemma header_item_ok block template schema version :
  is_u16 block -> is_u16 template -> is_u16 schema -> is_u16 version ->
  item_ok (header_item block template schema version).
Proof.
  intros. split; [lia|]. split; [reflexivity|]. unfold messageHeader_writes. write_fits_tac.
Qed.

Lemma text_bytes `{Sbe} b pos (s : chars) l : holds b pos (Text s :: l) ->
  sbe_get 4 b pos = Z.of_nat (length s) /\ sbe_chars b (pos + 4) (length s) = s /\
  holds b (pos + 4 + Z.of_nat (length s)) l.
Proof.
  unfold Text, sbe_chars. cbn [holds]. rewrite length_fmap.
  intros (Hn & Hd & Hr). split_and!; [done| |done]. by rewrite Hd, chars_of_bytes.
Qed.

(** Well-formedness of a concrete list of parts. *)
Ltac item_ok_tac :=
  match goal with
  | |- item_ok (Text _) => apply text_ok
  | |- item_ok (header_item _ _ _ _) => apply header_item_ok; split; (discriminate || reflexivity)
  | |- item_ok (Block _ _) => split; [done|split; [reflexivity|write_fits_tac]]
  end.
Ltac items_ok_tac :=
  repeat first [apply Forall_nil_2 | apply Forall_cons_2; [try item_ok_tac|]].

(** [block_field Hb off w v]: the field of width [w] at [off] of the block [Hb] is
    about holds [v]. *)
Ltac block_field Hb off w v :=
  rewrite (Hb off w v ltac:(discriminate) ltac:(discriminate) ltac:(discriminate) eq_refl).
