(* ===== verification/Shm.v ===== *)
(** * Shm: mapping a shared-memory region and its superblock (tp_shm.c)

    A client maps the file a URI names after it has checked where the file lies,
    what it is and whose it is, and then compares the superblock at its start
    with what it expects.  [Superblock] models the 64 bytes, as the driver writes
    them and the client validates them; [Mapping] models the system calls of
    [tp_shm_map] and [tp_shm_unmap] in a monad that keeps the open descriptors,
    the mappings and a log of calls.  The answers of the operating system come
    from an arbitrary [kernel]. *)

From Stdlib Require Import ZArith Lia Bool Ascii String.
From stdpp Require Import strings.
From S2P Require Import Prelude Sbe Seqlock Uri.

#[local] Open Scope Z_scope.
#[local] Open Scope list_scope.

(** ** The superblock *)

Definition TP_MAGIC_U64 : Z := 0x544F504C53484D31.
Definition regionType_values : list Z := [1; 2].
Definition regionType_null : Z := - 2 ^ 15.

Record tp_shm_expected_t := {
  ex_stream_id : Z;
  ex_layout_version : Z;
  ex_epoch : Z;
  ex_region_type : Z;
  ex_pool_id : Z;
  ex_nslots : Z;
  ex_slot_bytes : Z;
  ex_stride_bytes : Z;
}.

Module Superblock.

Section Codec.
Context `{Sbe}.

(** The stores of [tp_driver_create_region_file] into its zeroed buffer. *)
Definition superblock_writes (epoch stream_id region_type pool_id nslots slot_bytes stride_bytes
    pid now_ns : Z) : list write :=
  [Write 0 8 TP_MAGIC_U64; Write 8 4 TP_LAYOUT_VERSION; Write 12 8 epoch; Write 20 4 stream_id;
   Write 24 2 (u16 region_type); Write 26 2 pool_id; Write 28 4 nslots; Write 32 4 slot_bytes;
   Write 36 4 stride_bytes; Write 40 8 pid; Write 48 8 now_ns; Write 56 8 now_ns].

(** What the driver writes at the start of a region file. *)
Definition region_superblock (stream_id epoch pool_id region_type nslots stride_bytes pid now_ns : Z)
    : bytes :=
  let slot_bytes := if region_type =? tensor_pool_regionType_HEADER_RING
                    then TP_HEADER_SLOT_BYTES else TP_NULL_U32 in
  sbe_puts (superblock_writes epoch stream_id region_type pool_id nslots slot_bytes stride_bytes
              pid now_ns) (replicate 64 0).

(** The size of the file it writes. *)
Definition region_file_size (region_type nslots stride_bytes : Z) : Z :=
  if region_type =? tensor_pool_regionType_HEADER_RING
  then u64 (TP_SUPERBLOCK_SIZE_BYTES + nslots * TP_HEADER_SLOT_BYTES)
  else u64 (TP_SUPERBLOCK_SIZE_BYTES + nslots * stride_bytes).

#[local] Open Scope tp_scope.

Definition tp_shm_validate_slot_bytes (slot_bytes : Z) : res unit :=
  guard! slot_bytes =? TP_HEADER_SLOT_BYTES else EINVAL in Ok tt.

(** [region]: the mapped bytes, NULL when nothing is mapped. *)
Definition tp_shm_validate_superblock (region : ptr bytes) (expected : ptr tp_shm_expected_t)
    : res unit :=
  match region with
  | NULL => Err EINVAL
  | Some b =>
    let layout_version := sbe_get 4 b 8 in
    let epoch := sbe_get 8 b 12 in
    let stream_id := sbe_get 4 b 20 in
    match sbe_enum regionType_values regionType_null (i16 (sbe_get 2 b 24)) with
    | None => Err EINVAL
    | Some region_type =>
      let pool_id := sbe_get 2 b 26 in
      let nslots := sbe_get 4 b 28 in
      let slot_bytes := sbe_get 4 b 32 in
      let stride_bytes := sbe_get 4 b 36 in
      guard! sbe_get 8 b 0 =? TP_MAGIC_U64 else EINVAL in
      let! _ :=
        match expected with
        | NULL => Ok tt
        | Some e =>
          guard! (ex_layout_version e =? TP_NULL_U32) || (layout_version =? ex_layout_version e)
            else EINVAL in
          guard! (ex_epoch e =? TP_NULL_U64) || (epoch =? ex_epoch e) else EINVAL in
          guard! (ex_stream_id e =? TP_NULL_U32) || (stream_id =? ex_stream_id e) else EINVAL in
          guard! (ex_region_type e =? 0) || (region_type =? ex_region_type e) else EINVAL in
          guard! (ex_pool_id e =? 0) || (pool_id =? ex_pool_id e) else EINVAL in
          guard! (ex_nslots e =? TP_NULL_U32) || (nslots =? ex_nslots e) else EINVAL in
          guard! (ex_slot_bytes e =? TP_NULL_U32) || (slot_bytes =? ex_slot_bytes e) else EINVAL in
          guard! (ex_stride_bytes e =? TP_NULL_U32) || (stride_bytes =? ex_stride_bytes e)
            else EINVAL in
          Ok tt
        end in
      guard! negb ((region_type =? tensor_pool_regionType_PAYLOAD_POOL) && (stride_bytes =? 0))
        else EINVAL in
      if region_type =? tensor_pool_regionType_HEADER_RING
      then tp_shm_validate_slot_bytes slot_bytes else Ok tt
    end
  end.

Definition tp_shm_update_activity_timestamp (region : ptr bytes) (now_ns : Z) : res bytes :=
  match region with
  | NULL => Err EINVAL
  | Some b => Ok (sbe_put 8 b 56 now_ns)
  end.

Definition tp_shm_read_activity_timestamp (region : ptr bytes) : res Z :=
  match region with
  | NULL => Err EINVAL
  | Some b => Ok (sbe_get 8 b 56)
  end.

Definition tp_shm_read_pid (region : ptr bytes) : res Z :=
  match region with
  | NULL => Err EINVAL
  | Some b => Ok (sbe_get 8 b 40)
  end.

(** The expectations as the client means them: a wildcard or the value. *)
Definition expectation_met (e : tp_shm_expected_t) (stream_id epoch pool_id region_type nslots
    slot_bytes stride_bytes : Z) : Prop :=
  (ex_layout_version e = TP_NULL_U32 \/ ex_layout_version e = TP_LAYOUT_VERSION) /\
  (ex_epoch e = TP_NULL_U64 \/ ex_epoch e = epoch) /\
  (ex_stream_id e = TP_NULL_U32 \/ ex_stream_id e = stream_id) /\
  (ex_region_type e = 0 \/ ex_region_type e = region_type) /\
  (ex_pool_id e = 0 \/ ex_pool_id e = pool_id) /\
  (ex_nslots e = TP_NULL_U32 \/ ex_nslots e = nslots) /\
  (ex_slot_bytes e = TP_NULL_U32 \/ ex_slot_bytes e = slot_bytes) /\
  (ex_stride_bytes e = TP_NULL_U32 \/ ex_stride_bytes e = stride_bytes).

Lemma guard_ok (c : bool) (e : errno) (k : res unit) :
  (guard! c else e in k) = Ok tt <-> c = true /\ k = Ok tt.
Proof. destruct c; [tauto|]. split; [done|]. by intros [? _]. Qed.

Lemma bind_unit_ok (m k : res unit) : (let! _ := m in k) = Ok tt <-> m = Ok tt /\ k = Ok tt.
Proof. destruct m as [[]|]; simpl; [tauto|]. split; [done|]. by intros [? _]. Qed.

Lemma wild_or a wild b : (a =? wild) || (b =? a) = true <-> a = wild \/ a = b.
Proof. rewrite orb_true_iff, !Z.eqb_eq. split; intros [?|?]; auto. Qed.

(** A client accepts the superblock the driver wrote exactly when each of its
    expectations is a wildcard or the value the driver wrote, and a payload
    pool's stride is not 0. *)
Theorem superblock_accepted stream epoch pool type nslots stride pid now e :
  is_u32 stream -> is_u64 epoch -> is_u16 pool -> type ∈ regionType_values -> is_u32 nslots ->
  is_u32 stride -> is_u64 pid -> is_u64 now ->
  tp_shm_validate_superblock (Some (region_superblock stream epoch pool type nslots stride pid now))
    (Some e) = Ok tt <->
  expectation_met e stream epoch pool type nslots
    (if type =? tensor_pool_regionType_HEADER_RING then TP_HEADER_SLOT_BYTES else TP_NULL_U32) stride /\
  (type = tensor_pool_regionType_PAYLOAD_POOL -> stride <> 0).
Proof.
  intros Hs He Hp Ht Hn Hst Hpid Hnow.
  assert (Htype : is_i16 type)
    by (clear - Ht; unfold regionType_values in Ht; in_cases; unfold is_i16; lia).
  unfold region_superblock.
  set (slot := if type =? tensor_pool_regionType_HEADER_RING then _ else _).
  assert (Hslot : is_u32 slot) by (unfold slot, TP_HEADER_SLOT_BYTES; destruct (_ =? _); ulia).
  set (ws := superblock_writes _ _ _ _ _ _ _ _ _). set (b := replicate 64 0).
  assert (Hlen : 64 <= blen b) by (vm_compute; done).
  assert (Hfit : Forall write_fits ws).
  { unfold ws, superblock_writes. write_fits_tac. }
  unfold tp_shm_validate_superblock. unfold ws, superblock_writes in *.
  repeat sbe_field 64. cbn [w_val]. rewrite i16_u16, sbe_enum_valid by done.
  rewrite Z.eqb_refl, bind_unit_ok, !guard_ok, !wild_or.
  assert (Hrest : (if type =? tensor_pool_regionType_HEADER_RING
                   then tp_shm_validate_slot_bytes slot else Ok tt) = Ok tt).
  { unfold tp_shm_validate_slot_bytes, slot. destruct (type =? _); [|done]. by rewrite Z.eqb_refl. }
  rewrite Hrest, negb_true_iff, andb_false_iff, !Z.eqb_neq. unfold expectation_met.
  clear. split.
  - intros [H [Hst _]]. split; [tauto|]. intros Ht. by destruct Hst.
  - intros [H Hst]. split; [tauto|]. split; [|done].
    destruct (Z.eq_dec type tensor_pool_regionType_PAYLOAD_POOL) as [E|E]; [right; by apply Hst|by left].
Qed.

(** Updating the activity timestamp stores it where readers find it and
    changes neither the owner's pid nor the outcome of any validation. *)
Theorem activity_timestamp_frame b now :
  TP_SUPERBLOCK_SIZE_BYTES <= blen b -> is_u64 now ->
  exists b', tp_shm_update_activity_timestamp (Some b) now = Ok b' /\ blen b' = blen b /\
    tp_shm_read_activity_timestamp (Some b') = Ok now /\
    tp_shm_read_pid (Some b') = tp_shm_read_pid (Some b) /\
    (forall e, tp_shm_validate_superblock (Some b') e = tp_shm_validate_superblock (Some b) e).
Proof.
  unfold TP_SUPERBLOCK_SIZE_BYTES. intros Hb Hnow. exists (sbe_put 8 b 56 now). split; [done|].
  assert (Hold : forall w off, 0 <= w -> 0 <= off -> off + w <= 56 ->
    sbe_get w (sbe_put 8 b 56 now) off = sbe_get w b off)
    by (intros; apply sbe_get_put_ne; lia).
  split; [apply sbe_put_len|]. split.
  { unfold tp_shm_read_activity_timestamp. rewrite sbe_get_put_eq; [done|lia..|exact Hnow]. }
  split; [unfold tp_shm_read_pid; by rewrite Hold by lia|]. intros e.
  unfold tp_shm_validate_superblock. by rewrite !Hold by lia.
Qed.

End Codec.
End Superblock.

(** ** Where a file may lie *)

Module Mapping.

Record tp_allowed_paths_t := {
  ap_length : nat;                        (* configured paths *)
  ap_canonical_paths : list (ptr chars);  (* their canonical forms *)
  ap_enforce_permissions : bool;
  ap_expected_uid : Z;
  ap_expected_gid : Z;
  ap_forbidden_mode : Z;
}.

(** [base] matches a prefix of the path that ends at a separator or at its end. *)
Definition base_matches (resolved_path : chars) (base : ptr chars) : bool :=
  match base with
  | NULL => false
  | Some base =>
    negb (bool_decide (base = [])) &&
    strncmp_eq (length base) resolved_path base &&
    match resolved_path !! length base with
    | None => true
    | Some c => Ascii.eqb c "/"
    end
  end.

(** What [fstat] and [stat] return. *)
Record stat := {
  st_mode : Z;
  st_isreg : bool;   (* S_ISREG(st_mode) *)
  st_dev : Z;
  st_ino : Z;
  st_uid : Z;
  st_gid : Z;
  st_size : Z;
}.

Definition HUGETLBFS_MAGIC : Z := 0x958458f6.
Definition TMPFS_MAGIC : Z := 0x01021994.
Definition NAME_MAX : nat := 255.

(** ** System calls *)

(** A call and its answer.  Every [openat] of the source passes [O_NOFOLLOW]. *)
Inductive event :=
  | ERealpath (path : chars) (r : res chars)
  | EStat (path : chars) (r : res stat)
  | EOpenRoot (r : res Z)
  | EOpenat (dirfd : Z) (component : chars) (directory : bool) (r : res Z)
  | EFstat (fd : Z) (r : res stat)
  | EFstatfs (fd : Z) (r : res Z)
  | EStatfs (path : chars) (r : res Z)
  | EMmap (fd len : Z) (writable : bool) (r : res Z)
  | EMunmap (addr len : Z) (r : res unit)
  | EClose (fd : Z).

(** The answer of the kernel to its n-th call, whatever the call is. *)
Record kernel := {
  k_realpath : nat -> chars -> res chars;
  k_stat : nat -> chars -> res stat;
  k_open_root : nat -> res Z;
  k_openat : nat -> Z -> chars -> res Z;
  k_fstat : nat -> Z -> res stat;
  k_fstatfs : nat -> Z -> res Z;
  k_statfs : nat -> chars -> res Z;
  k_mmap : nat -> Z -> Z -> res Z;
  k_munmap : nat -> res unit;
}.

(** Open descriptors and mappings of the process, newest first. *)
Record process := {
  os_tick : nat;
  os_fds : list Z;
  os_maps : list (Z * Z);
  os_log : list event;
}.

(** The first occurrence is removed. *)
Fixpoint remove_first {A} `{EqDecision A} (x : A) (l : list A) : list A :=
  match l with
  | [] => []
  | y :: l' => if decide (x = y) then l' else y :: remove_first x l'
  end.

Definition M (A : Type) : Type := process -> A * process.
Definition ret {A} (a : A) : M A := fun s => (a, s).
Definition bind {A B} (m : M A) (k : A -> M B) : M B := fun s => let '(a, s') := m s in k a s'.

(** Continue with the result, or return the error. *)
Definition try_bind {A B} (m : M (res A)) (k : A -> M (res B)) : M (res B) :=
  bind m (fun r => match r with Ok a => k a | Err e => ret (Err e) end).

Declare Scope shm_scope.
Notation "'let*' x ':=' m 'in' k" := (bind m (fun x => k))
  (at level 10, x name, m at level 100, k at level 200) : shm_scope.
Notation "'try*' x ':=' m 'in' k" := (try_bind m (fun x => k))
  (at level 10, x name, m at level 100, k at level 200) : shm_scope.
Notation "'do*' m 'in' k" := (bind m (fun _ : unit => k))
  (at level 10, m at level 100, k at level 200) : shm_scope.
(** [check! c else e in k]: a failed test returns the error. *)
Notation "'check!' c 'else' e 'in' k" := (if c then k else ret (Err e))
  (at level 10, c at level 100, e at level 100, k at level 200) : shm_scope.
#[local] Open Scope shm_scope.

Definition called (f : list Z -> list Z) (g : list (Z * Z) -> list (Z * Z)) (e : event)
    (s : process) : process :=
  {| os_tick := S (os_tick s); os_fds := f (os_fds s); os_maps := g (os_maps s);
     os_log := os_log s ++ [e] |}.

Section Kernel.
Context (K : kernel).

Definition realpath (path : chars) : M (res chars) :=
  fun s => let r := k_realpath K (os_tick s) path in (r, called id id (ERealpath path r) s).
Definition os_stat (path : chars) : M (res stat) :=
  fun s => let r := k_stat K (os_tick s) path in (r, called id id (EStat path r) s).
Definition opened (r : res Z) : list Z -> list Z :=
  match r with Ok fd => cons fd | Err _ => id end.
Definition open_root : M (res Z) :=
  fun s => let r := k_open_root K (os_tick s) in (r, called (opened r) id (EOpenRoot r) s).
Definition openat (dirfd : Z) (component : chars) (directory : bool) : M (res Z) :=
  fun s => let r := k_openat K (os_tick s) dirfd component in
           (r, called (opened r) id (EOpenat dirfd component directory r) s).
Definition fstat (fd : Z) : M (res stat) :=
  fun s => let r := k_fstat K (os_tick s) fd in (r, called id id (EFstat fd r) s).
Definition fstatfs (fd : Z) : M (res Z) :=
  fun s => let r := k_fstatfs K (os_tick s) fd in (r, called id id (EFstatfs fd r) s).
Definition statfs (path : chars) : M (res Z) :=
  fun s => let r := k_statfs K (os_tick s) path in (r, called id id (EStatfs path r) s).
Definition mmap (fd len : Z) (writable : bool) : M (res Z) :=
  fun s => let r := k_mmap K (os_tick s) fd len in
           (r, called id (match r with Ok addr => cons (addr, len) | Err _ => id end)
                 (EMmap fd len writable r) s).
Definition munmap (addr len : Z) : M (res unit) :=
  fun s => let r := k_munmap K (os_tick s) in
           (r, called id (match r with Ok _ => remove_first (addr, len) | Err _ => id end)
                 (EMunmap addr len r) s).
Definition close (fd : Z) : M unit :=
  fun s => (tt, called (remove_first fd) id (EClose fd) s).

(** ** The checks of a path *)

Definition tp_shm_validate_path (resolved_path : chars) (allowed : ptr tp_allowed_paths_t)
    : M (res unit) :=
  let listed :=
    match allowed with
    | NULL => true
    | Some a =>
      if bool_decide (ap_canonical_paths a = []) then (ap_length a =? 0)%nat
      else existsb (base_matches resolved_path) (ap_canonical_paths a)
    end in
  check! listed else EINVAL in
  try* st_path := os_stat resolved_path in
  check! st_isreg st_path else EINVAL in
  ret (Ok tt).

Fixpoint skip_slashes (s : chars) : chars :=
  match s with
  | c :: s' => if Ascii.eqb c "/" then skip_slashes s' else s
  | [] => []
  end.

(** The loop over the components: [None] when no file was opened at the end.
    Every turn consumes characters: one more than [length cursor] is enough. *)
Fixpoint open_walk (fuel : nat) (cursor : chars) (dirfd : Z) : M (res (option Z)) :=
  match fuel, skip_slashes cursor with
  | O, _ | _, [] => do* close dirfd in ret (Ok None)
  | S fuel', cursor =>
    let next := strchr "/" cursor in
    let len := default (length cursor) next in
    if (NAME_MAX <? len)%nat then do* close dirfd in ret (Err EINVAL)
    else
      let component := take len cursor in
      match next with
      | None =>
        let* fd := openat dirfd component false in
        do* close dirfd in
        ret (Ok (match fd with Ok fd => Some fd | Err _ => None end))
      | Some i =>
        let* next_fd := openat dirfd component true in
        do* close dirfd in
        match next_fd with
        | Err e => ret (Err e)
        | Ok next_fd => open_walk fuel' (drop i cursor) next_fd
        end
      end
  end.

Definition tp_shm_open_no_symlink (path : chars) : M (res Z) :=
  check! bool_decide (head path = Some "/"%char) else EINVAL in
  try* dirfd := open_root in
  try* fd := open_walk (S (length path)) path dirfd in
  match fd with
  | None => ret (Err EINVAL)
  | Some fd => ret (Ok fd)
  end.

(** Return the error after closing the descriptor. *)
Definition close_and_fail {A} (fd : Z) (e : errno) : M (res A) := do* close fd in ret (Err e).

Definition tp_shm_open_canonical (path : chars) (allowed : ptr tp_allowed_paths_t) : M (res Z) :=
  try* resolved_path := realpath path in
  try* _ := tp_shm_validate_path resolved_path allowed in
  try* fd := tp_shm_open_no_symlink path in
  let* st_fd := fstat fd in
  match st_fd with
  | Err e => close_and_fail fd e
  | Ok st_fd =>
    if negb (st_isreg st_fd) then close_and_fail fd EINVAL
    else
      let* st_path := os_stat resolved_path in
      match st_path with
      | Err e => close_and_fail fd e
      | Ok st_path =>
        if negb (st_dev st_fd =? st_dev st_path) || negb (st_ino st_fd =? st_ino st_path)
        then close_and_fail fd EINVAL
        else ret (Ok fd)
      end
  end.

Definition tp_shm_validate_permissions (st : stat) (allowed : tp_allowed_paths_t) : res unit :=
  if negb (ap_enforce_permissions allowed) then Ok tt
  else if negb (ap_forbidden_mode allowed =? 0) &&
          negb (Z.land (u32 (st_mode st)) (ap_forbidden_mode allowed) =? 0) then Err EACCES
  else if negb (ap_expected_uid allowed =? TP_NULL_U32) &&
          negb (u32 (st_uid st) =? ap_expected_uid allowed) then Err EACCES
  else if negb (ap_expected_gid allowed =? TP_NULL_U32) &&
          negb (u32 (st_gid st) =? ap_expected_gid allowed) then Err EACCES
  else Ok tt.

Definition tp_shm_check_hugepages (fd : Z) : M (res unit) :=
  try* f_type := fstatfs fd in
  check! u64 f_type =? HUGETLBFS_MAGIC else EINVAL in
  ret (Ok tt).

Record tp_shm_region_t := {
  rg_fd : Z;
  rg_length : Z;
  rg_addr : Z;
  rg_uri : tp_shm_uri_t;
}.

(** The second [fstatfs] on Linux only decides whether a warning is logged. *)
Definition tp_shm_map (uri : ptr chars) (writable : bool) (allowed : ptr tp_allowed_paths_t)
    : M (res tp_shm_region_t) :=
  match allowed with
  | NULL => ret (Err EINVAL)
  | Some a =>
    check! negb (bool_decide (ap_canonical_paths a = [])) else EINVAL in
    match tp_shm_uri_parse uri with
    | Err e => ret (Err e)
    | Ok u =>
      try* fd := tp_shm_open_canonical (uri_path u) (Some a) in
      let* _ := fstatfs fd in
      let* huge := (if uri_require_hugepages u then tp_shm_check_hugepages fd else ret (Ok tt)) in
      match huge with
      | Err e => close_and_fail fd e
      | Ok _ =>
        let* st := fstat fd in
        match st with
        | Err e => close_and_fail fd e
        | Ok st =>
          match tp_shm_validate_permissions st a with
          | Err e => close_and_fail fd e
          | Ok _ =>
            if st_size st <? TP_SUPERBLOCK_SIZE_BYTES then close_and_fail fd EINVAL
            else
              let* addr := mmap fd (st_size st) writable in
              match addr with
              | Err e => close_and_fail fd e
              | Ok addr => ret (Ok {| rg_fd := fd; rg_length := st_size st; rg_addr := addr;
                                      rg_uri := u |})
              end
          end
        end
      end
    end
  end.

(** Of a mapped region ([addr] not NULL, length not 0). *)
Definition tp_shm_unmap (region : tp_shm_region_t) : M (res unit) :=
  try* _ := munmap (rg_addr region) (rg_length region) in
  do* (if 0 <=? rg_fd region then close (rg_fd region) else ret tt) in
  ret (Ok tt).

Definition tp_shm_validate_stride_alignment (uri : ptr chars) (stride_bytes : Z) : M (res unit) :=
  match uri with
  | NULL => ret (Err EINVAL)
  | Some uri =>
    check! negb ((stride_bytes <? 64) || negb (stride_bytes mod 64 =? 0)) else EINVAL in
    match tp_shm_uri_parse (Some uri) with
    | Err e => ret (Err e)
    | Ok parsed =>
      try* f_type := statfs (uri_path parsed) in
      check! negb (uri_require_hugepages parsed && negb (u64 f_type =? HUGETLBFS_MAGIC))
        else EINVAL in
      ret (Ok tt)
    end
  end.

(** ** Descriptors and mappings *)

Lemma remove_first_eq {A} `{EqDecision A} (x : A) l : remove_first x (x :: l) = l.
Proof. simpl. by rewrite decide_True. Qed.

Lemma remove_second {A} `{EqDecision A} (x y : A) l : remove_first x (y :: x :: l) = y :: l.
Proof. simpl. destruct (decide (x = y)) as [->|]; [done|]. by rewrite decide_True. Qed.

(** The calls that neither open nor map. *)
Definition keeps {A} (m : M A) : Prop :=
  forall s, os_fds (snd (m s)) = os_fds s /\ os_maps (snd (m s)) = os_maps s.

Lemma fds_keeps_ret {A} (a : A) : keeps (ret a).
Proof. done. Qed.
Lemma fds_keeps_bind {A B} (m : M A) (k : A -> M B) :
  keeps m -> (forall a, keeps (k a)) -> keeps (bind m k).
Proof.
  intros Hm Hk s. unfold bind. specialize (Hm s). destruct (m s) as [a s1]. simpl in Hm.
  destruct (Hk a s1) as [-> ->]. exact Hm.
Qed.
Lemma keeps_try {A B} (m : M (res A)) (k : A -> M (res B)) :
  keeps m -> (forall a, keeps (k a)) -> keeps (try_bind m k).
Proof. intros Hm Hk. apply fds_keeps_bind; [done|]. intros [a|e]; [apply Hk|apply fds_keeps_ret]. Qed.
Lemma keeps_realpath path : keeps (realpath path). Proof. done. Qed.
Lemma keeps_stat path : keeps (os_stat path). Proof. done. Qed.
Lemma keeps_fstat fd : keeps (fstat fd). Proof. done. Qed.
Lemma keeps_fstatfs fd : keeps (fstatfs fd). Proof. done. Qed.

Lemma keeps_validate_path resolved allowed : keeps (tp_shm_validate_path resolved allowed).
Proof.
  unfold tp_shm_validate_path. destruct (match allowed with _ => _ end); [|apply fds_keeps_ret].
  apply keeps_try; [apply keeps_stat|]. intros st. destruct (st_isreg st); apply fds_keeps_ret.
Qed.

Lemma keeps_hugepages fd : keeps (tp_shm_check_hugepages fd).
Proof.
  apply keeps_try; [apply keeps_fstatfs|]. intros t. destruct (_ =? _); apply fds_keeps_ret.
Qed.

(** A call that may open one descriptor, or one on top of [fds]. *)
Definition opens_on (fds : list Z) (maps : list (Z * Z)) (r : option Z) (s : process) : Prop :=
  os_fds s = (match r with Some fd => fd :: fds | None => fds end) /\ os_maps s = maps.

Definition ok_of {A} (r : res A) : option A := match r with Ok a => Some a | Err _ => None end.

Lemma open_walk_fds fuel : forall cursor dirfd s fds,
  os_fds s = dirfd :: fds ->
  let '(r, s') := open_walk fuel cursor dirfd s in
  opens_on fds (os_maps s) (ok_of r ≫= id) s'.
Proof.
  assert (Hclose : forall dirfd s fds, os_fds s = dirfd :: fds ->
    opens_on fds (os_maps s) None (snd (close dirfd s))).
  { intros dirfd s fds E. unfold opens_on, close, called. simpl os_fds. by rewrite E, remove_first_eq. }
  induction fuel as [|fuel IH]; intros cursor dirfd s fds E; cbn [open_walk].
  { exact (Hclose dirfd s fds E). }
  destruct (skip_slashes cursor) as [|c cursor'] eqn:Ec; [exact (Hclose dirfd s fds E)|].
  destruct (_ <? _)%nat; [exact (Hclose dirfd s fds E)|].
  unfold bind, openat, close, called, opened, ret, opens_on in *.
  destruct (strchr "/" _) as [i|]; destruct (k_openat K (os_tick s) dirfd _) as [fd|e]; cbn -[remove_first open_walk];
    rewrite E, ?remove_second, ?remove_first_eq; try done.
  set (s1 := Build_process _ _ _ _). specialize (IH (drop i (c :: cursor')) fd s1 fds eq_refl).
  destruct (open_walk fuel (drop i (c :: cursor')) fd s1). exact IH.
Qed.

Lemma open_no_symlink_fds path s :
  let '(r, s') := tp_shm_open_no_symlink path s in opens_on (os_fds s) (os_maps s) (ok_of r) s'.
Proof.
  unfold tp_shm_open_no_symlink. case_bool_decide; [|done].
  unfold try_bind, bind, open_root, called, opened. destruct (k_open_root K (os_tick s)) as [dirfd|e]; [|done].
  set (s1 := Build_process _ _ _ _).
  pose proof (open_walk_fds (S (length path)) path dirfd s1 (os_fds s) eq_refl) as Hw.
  destruct (open_walk (S (length path)) path dirfd s1) as [[[fd|]|e] s2]; exact Hw.
Qed.

(** Closing on the way out undoes the open. *)
Lemma close_and_fail_fds {A} fd e s fds maps :
  opens_on fds maps (Some fd) s ->
  opens_on fds maps None (snd (@close_and_fail A fd e s)).
Proof.
  intros [E Em]. unfold close_and_fail, bind, close, called, ret, opens_on. simpl os_fds.
  by rewrite E, remove_first_eq.
Qed.

Ltac failed H :=
  match goal with
  | |- context [@close_and_fail ?A ?fd ?e ?s] => exact (@close_and_fail_fds A fd e s _ _ H)
  end.

Lemma keeps_opens {A} (m : M A) s fds maps r :
  keeps m -> opens_on fds maps r s -> opens_on fds maps r (snd (m s)).
Proof. intros Hm [E1 E2]. destruct (Hm s) as [H1 H2]. split; congruence. Qed.

Lemma open_canonical_fds path allowed s :
  let '(r, s') := tp_shm_open_canonical path allowed s in
  opens_on (os_fds s) (os_maps s) (ok_of r) s'.
Proof.
  unfold tp_shm_open_canonical, try_bind, bind at 1.
  pose proof (keeps_opens (realpath path) s (os_fds s) (os_maps s) None (keeps_realpath path)
    (conj eq_refl eq_refl)) as H1.
  destruct (realpath path s) as [[resolved|e] s1]; [|exact H1]. simpl in H1.
  unfold bind at 1. pose proof (keeps_opens _ _ _ _ _ (keeps_validate_path resolved allowed) H1) as H2.
  destruct (tp_shm_validate_path resolved allowed s1) as [[[]|e] s2]; [|exact H2]. simpl in H2.
  unfold bind at 1. pose proof (open_no_symlink_fds path s2) as H3.
  destruct H2 as [E1 E2]. rewrite E1, E2 in H3.
  destruct (tp_shm_open_no_symlink path s2) as [[fd|e] s3]; [|exact H3]. simpl in H3.
  unfold bind at 1. pose proof (keeps_opens _ _ _ _ _ (keeps_fstat fd) H3) as H4.
  destruct (fstat fd s3) as [[st|e] s4]; simpl in H4; [|failed H4].
  destruct (negb _); [failed H4|].
  unfold bind at 1. pose proof (keeps_opens _ _ _ _ _ (keeps_stat resolved) H4) as H5.
  destruct (os_stat resolved s4) as [[st'|e] s5]; simpl in H5; [|failed H5].
  destruct (_ || _); [failed H5|exact H5].
Qed.

(** ** Success is preceded by every check *)

(** The log of a descent from directory [d] along [path]: every directory is
    opened from the one before, which is then closed, and the last component is
    opened as a file.  Slashes may be repeated between the components. *)
Inductive walk : Z -> chars -> Z -> list event -> Prop :=
  | walk_file d slashes name fd :
      Forall (fun c => c = "/"%char) slashes -> name <> [] -> ("/"%char ∉ name) ->
      (length name <= NAME_MAX)%nat ->
      walk d (slashes ++ name) fd [EOpenat d name false (Ok fd); EClose d]
  | walk_directory d slashes name rest d' fd events :
      Forall (fun c => c = "/"%char) slashes -> name <> [] -> ("/"%char ∉ name) ->
      (length name <= NAME_MAX)%nat ->
      walk d' ("/"%char :: rest) fd events ->
      walk d (slashes ++ name ++ "/"%char :: rest) fd
        (EOpenat d name true (Ok d') :: EClose d :: events).

(** The path is the base or lies below it. *)
Definition within (base path : chars) : Prop :=
  base <> [] /\ (path = base \/ exists rest, path = base ++ "/"%char :: rest).

Lemma base_matches_within path base :
  base_matches path base = true -> exists b, base = Some b /\ within b path.
Proof.
  destruct base as [b|]; [|done]. unfold base_matches. rewrite !andb_true_iff, negb_true_iff, bool_decide_eq_false. intros [[H H1] H0]. exists b. split; [done|].
  split; [done|].
  apply strncmp_eq_all in H1 as [rest ->]. rewrite lookup_app_r, Nat.sub_diag in H0 by done.
  destruct rest as [|c rest]; [left; by rewrite app_nil_r|right; exists rest].
  apply Ascii.eqb_eq in H0 as ->. done.
Qed.

Lemma skip_slashes_split cursor :
  exists slashes, Forall (fun c => c = "/"%char) slashes /\ cursor = slashes ++ skip_slashes cursor /\
    head (skip_slashes cursor) <> Some "/"%char.
Proof.
  induction cursor as [|c cursor IH]; simpl; [by exists []|].
  destruct (Ascii.eqb c "/") eqn:E; [|exists []; split; [done|]; split; [done|]].
  - apply Ascii.eqb_eq in E as ->. destruct IH as (sl & Hsl & Hc & Hh).
    exists ("/"%char :: sl). split; [by constructor|]. split; [simpl; congruence|done].
  - simpl. intros [= ->]. by rewrite Ascii.eqb_refl in E.
Qed.

Lemma open_walk_log fuel : forall cursor dirfd s fd s',
  open_walk fuel cursor dirfd s = (Ok (Some fd), s') ->
  exists events, walk dirfd cursor fd events /\ os_log s' = os_log s ++ events.
Proof.
  induction fuel as [|fuel IH]; intros cursor dirfd s fd s' H; cbn [open_walk] in H; [done|].
  destruct (skip_slashes_split cursor) as (sl & Hsl & Hcur & Hhd).
  destruct (skip_slashes cursor) as [|c cur] eqn:Ec; [done|].
  destruct (_ <? _)%nat eqn:Elen; [done|]. apply Nat.ltb_ge in Elen.
  destruct (strchr "/" (c :: cur)) as [i|] eqn:Es; simpl default in *.
  - apply strchr_Some in Es as (Ecut & Hno & Hi).
    assert (Hne : take i (c :: cur) <> []).
    { intros E. rewrite E in Ecut. destruct i; [|done]. simpl in Ecut. by injection Ecut as ->. }
    assert (Hdrop : drop i (c :: cur) = "/"%char :: drop (S i) (c :: cur)).
    { apply (app_inv_head (take i (c :: cur))). by rewrite take_drop. }
    unfold bind, openat, close, called, opened, ret in H. simpl os_tick in H. 
    destruct (k_openat K (os_tick s) dirfd _) as [d'|e]; [|done].
    apply IH in H as (ev & Hw & Hlog). simpl os_log in Hlog.
    exists (EOpenat dirfd (take i (c :: cur)) true (Ok d') :: EClose dirfd :: ev).
    split; [|by rewrite Hlog, <- !(assoc_L (++))].
    rewrite Hcur, Ecut at 1. rewrite Hdrop in Hw. apply walk_directory; try done.
    rewrite length_take. lia.
  - apply strchr_None in Es. unfold bind, openat, close, called, opened, ret in H.
    destruct (k_openat K (os_tick s) dirfd _) as [fd'|e]; [|done]. injection H as -> <-.
    rewrite firstn_all. exists [EOpenat dirfd (c :: cur) false (Ok fd); EClose dirfd].
    split; [|simpl; by rewrite <- (assoc_L (++))]. rewrite Hcur at 1. by apply walk_file.
Qed.

Lemma try_ok {A B} (m : M (res A)) (k : A -> M (res B)) s b s' :
  try_bind m k s = (Ok b, s') -> exists a s1, m s = (Ok a, s1) /\ k a s1 = (Ok b, s').
Proof.
  unfold try_bind, bind. destruct (m s) as [[a|e] s1]; [|done]. intros H. by exists a, s1.
Qed.

Lemma close_and_fail_err {A} fd e s (a : A) s' : close_and_fail fd e s <> (Ok a, s').
Proof. done. Qed.

Lemma validate_path_log resolved a s s' :
  ap_canonical_paths a <> [] ->
  tp_shm_validate_path resolved (Some a) s = (Ok tt, s') ->
  (exists base, Some base ∈ ap_canonical_paths a /\ within base resolved) /\
  exists st, st_isreg st = true /\ os_log s' = os_log s ++ [EStat resolved (Ok st)].
Proof.
  intros Hne. unfold tp_shm_validate_path. rewrite bool_decide_false by done.
  destruct (existsb _ _) eqn:Ex; [|done]. intros H. split.
  - apply existsb_exists in Ex as (base & Hin & Hb). apply base_matches_within in Hb as (b & -> & Hb).
    exists b. split; [by apply list_elem_of_In|done].
  - apply try_ok in H as (st & s1 & H1 & H2). destruct (st_isreg st) eqn:Hr; [|done].
    injection H2 as <-. unfold os_stat in H1. injection H1 as E <-.
    exists st. split; [done|]. by rewrite E.
Qed.

Lemma open_canonical_log path a s fd s' :
  ap_canonical_paths a <> [] ->
  tp_shm_open_canonical path (Some a) s = (Ok fd, s') ->
  exists resolved st root events stf st',
    (exists base, Some base ∈ ap_canonical_paths a /\ within base resolved) /\
    st_isreg st = true /\ st_isreg stf = true /\ walk root path fd events /\
    st_dev stf = st_dev st' /\ st_ino stf = st_ino st' /\
    os_log s' = os_log s ++ [ERealpath path (Ok resolved); EStat resolved (Ok st);
      EOpenRoot (Ok root)] ++ events ++ [EFstat fd (Ok stf); EStat resolved (Ok st')].
Proof.
  intros Hne H. apply try_ok in H as (resolved & s1 & H1 & H). apply try_ok in H as ([] & s2 & H2 & H).
  apply try_ok in H as (fd' & s3 & H3 & H). injection H1 as E1 <-.
  apply (validate_path_log _ _ _ _ Hne) in H2 as (Hbase & st & Hst & L2).
  unfold tp_shm_open_no_symlink in H3. destruct (bool_decide _); [|done].
  apply try_ok in H3 as (root & s21 & H3 & H3'). injection H3 as E3 <-.
  apply try_ok in H3' as ([fd1|] & s22 & H3 & H3'); [|done]. injection H3' as -> <-.
  apply open_walk_log in H3 as (events & Hw & L3).
  unfold bind in H. destruct (fstat fd' s22) as [[stf|e] s4] eqn:H4; [|done].
  destruct (st_isreg stf) eqn:Hf; [|done]. change (negb true) with false in H. cbv iota beta in H.
  destruct (os_stat resolved s4) as [[st'|e] s5] eqn:H5; [|done].
  destruct (_ || _) eqn:Hid; [done|]. injection H as <- <-.
  injection H4 as E4 <-. injection H5 as E5 <-.
  apply orb_false_iff in Hid as [Hd Hi]. apply negb_false_iff, Z.eqb_eq in Hd, Hi.
  exists resolved, st, root, events, stf, st'. repeat (split; [done|]).
  simpl os_log in *. rewrite E5, E4, L3, E3, L2, E1, <- !(assoc_L (++)). done.
Qed.

(** What [tp_shm_map] does to the descriptors and mappings. *)
Lemma map_descriptors uri writable allowed s :
  let '(r, s') := tp_shm_map uri writable allowed s in
  match r with
  | Err _ => os_fds s' = os_fds s /\ os_maps s' = os_maps s
  | Ok rg => os_fds s' = rg_fd rg :: os_fds s /\ os_maps s' = (rg_addr rg, rg_length rg) :: os_maps s
  end.
Proof.
  unfold tp_shm_map. destruct allowed as [a|]; [|done]. destruct (negb _); [|done].
  destruct (tp_shm_uri_parse uri) as [u|e]; [|done].
  pose proof (open_canonical_fds (uri_path u) (Some a) s) as H1.
  unfold try_bind, bind at 1. destruct (tp_shm_open_canonical _ _ s) as [[fd|e] s1]; [|exact H1].
  simpl in H1. unfold bind at 1.
  pose proof (keeps_opens _ _ _ _ _ (keeps_fstatfs fd) H1) as H2. set (s2 := snd (fstatfs fd s1)) in H2.
  change (fstatfs fd s1) with (fst (fstatfs fd s1), s2). cbv iota beta. unfold bind at 1.
  set (huge := if uri_require_hugepages u then tp_shm_check_hugepages fd else ret (Ok tt)).
  assert (Hh : keeps huge)
    by (unfold huge; destruct (uri_require_hugepages u); [apply keeps_hugepages|apply fds_keeps_ret]).
  pose proof (keeps_opens _ _ _ _ _ Hh H2) as H3. clear Hh.
  destruct (huge s2) as [[[]|e] s3]; simpl in H3; [|failed H3].
  unfold bind at 1. pose proof (keeps_opens _ _ _ _ _ (keeps_fstat fd) H3) as H4.
  destruct (fstat fd s3) as [[st|e] s4]; simpl in H4; [|failed H4].
  destruct (tp_shm_validate_permissions st a) as [[]|e]; [|failed H4].
  destruct (_ <? _); [failed H4|]. unfold bind at 1. destruct H4 as [F4 M4].
  unfold mmap. destruct (k_mmap K (os_tick s4) fd (st_size st)) as [addr|e].
  - split; [done|]. simpl. by rewrite M4.
  - unfold close_and_fail, bind, close, called, ret. simpl os_fds. by rewrite F4, remove_first_eq.
Qed.

(** What [tp_shm_unmap] does to them. *)
Lemma unmap_descriptors rg s :
  let '(r, s') := tp_shm_unmap rg s in
  match r with
  | Err _ => os_fds s' = os_fds s /\ os_maps s' = os_maps s
  | Ok _ => os_fds s' = (if 0 <=? rg_fd rg then remove_first (rg_fd rg) (os_fds s) else os_fds s) /\
            os_maps s' = remove_first (rg_addr rg, rg_length rg) (os_maps s)
  end.
Proof.
  unfold tp_shm_unmap, try_bind, bind, munmap, close, ret. simpl os_tick.
  destruct (k_munmap K _) as [[]|e]; [|done]. by destruct (0 <=? rg_fd rg).
Qed.

(** Mapping adds one descriptor and one mapping when it succeeds and leaks
    neither on any of its error paths; unmapping then gives both back, or
    changes nothing when [munmap] fails. *)
Theorem shm_map_descriptors uri writable allowed s :
  let '(r, s') := tp_shm_map uri writable allowed s in
  match r with
  | Err _ => os_fds s' = os_fds s /\ os_maps s' = os_maps s
  | Ok rg =>
    os_fds s' = rg_fd rg :: os_fds s /\ os_maps s' = (rg_addr rg, rg_length rg) :: os_maps s /\
    let '(ru, s'') := tp_shm_unmap rg s' in
    match ru with
    | Err _ => os_fds s'' = os_fds s' /\ os_maps s'' = os_maps s'
    | Ok _ => os_fds s'' = (if 0 <=? rg_fd rg then os_fds s else os_fds s') /\
              os_maps s'' = os_maps s
    end
  end.
Proof.
  pose proof (map_descriptors uri writable allowed s) as Hm.
  destruct (tp_shm_map uri writable allowed s) as [[rg|e] s']; [|exact Hm].
  destruct Hm as [Hf Hp]. split; [done|]. split; [done|].
  pose proof (unmap_descriptors rg s') as Hu.
  destruct (tp_shm_unmap rg s') as [[[]|e] s'']; [|exact Hu].
  rewrite Hf, Hp, !remove_first_eq in Hu. by rewrite Hf.
Qed.

(** Where a region's descriptor and address come from. *)
Definition region_answered (rg : tp_shm_region_t) : Prop :=
  (exists t dirfd name, k_openat K t dirfd name = Ok (rg_fd rg)) /\ (exists t len, k_mmap K t (rg_fd rg) len = Ok (rg_addr rg)) /\
  TP_SUPERBLOCK_SIZE_BYTES <= rg_length rg.

Lemma open_walk_answered fuel : forall cursor dirfd s fd s',
  open_walk fuel cursor dirfd s = (Ok (Some fd), s') -> exists t d name, k_openat K t d name = Ok fd.
Proof.
  induction fuel as [|fuel IH]; intros cursor dirfd s fd s' H; cbn [open_walk] in H; [done|].
  destruct (skip_slashes cursor) as [|c cur]; [done|]. destruct (_ <? _)%nat; [done|].
  unfold bind, openat, close, called, ret in H.
  destruct (strchr "/" _) as [i|]; simpl os_tick in H;
    destruct (k_openat K (os_tick s) dirfd _) as [d|e] eqn:E; try done.
  - exact (IH _ _ _ _ _ H).
  - injection H as <- _. by eexists _, _, _.
Qed.

Lemma map_answered uri writable allowed s rg s' :
  tp_shm_map uri writable allowed s = (Ok rg, s') -> region_answered rg.
Proof.
  unfold tp_shm_map. destruct allowed as [a|]; [|done]. destruct (negb _); [|done].
  destruct (tp_shm_uri_parse uri) as [u|e]; [|done]. intros H.
  apply try_ok in H as (fd & s1 & H1 & H).
  assert (Hfd : exists t d name, k_openat K t d name = Ok fd).
  { apply try_ok in H1 as (resolved & s11 & _ & H1). apply try_ok in H1 as ([] & s12 & _ & H1).
    apply try_ok in H1 as (fd' & s13 & Hopen & H1). unfold tp_shm_open_no_symlink in Hopen.
    destruct (bool_decide _); [|done]. apply try_ok in Hopen as (d & s14 & _ & Hopen).
    apply try_ok in Hopen as ([fd2|] & s15 & Hwalk & Hopen); [|done]. injection Hopen as <- _.
    apply open_walk_answered in Hwalk. unfold bind in H1.
    destruct (fstat fd2 s13) as [[st|e] s16]; [|done]. destruct (negb _); [done|].
    destruct (os_stat resolved s16) as [[st'|e] s17]; [|done]. destruct (_ || _); [done|].
    by injection H1 as <- _. }
  unfold bind in H. destruct (fstatfs fd s1) as [t s2].
  destruct ((if uri_require_hugepages u then tp_shm_check_hugepages fd else ret (Ok tt)) s2)
    as [[[]|e] s3]; [|done].
  destruct (fstat fd s3) as [[st|e] s4]; [|done].
  destruct (tp_shm_validate_permissions st a) as [[]|e]; [|done].
  destruct (Z.ltb_spec (st_size st) TP_SUPERBLOCK_SIZE_BYTES); [done|].
  unfold mmap in H. destruct (k_mmap K (os_tick s4) fd (st_size st)) as [addr|e] eqn:Em; [|done].
  injection H as <- _. split; [done|]. split; [by exists (os_tick s4), (st_size st)|done].
Qed.

(** C19: A region is mapped only after every check: its URI parses, the resolved
    path lies within an allowed base and is a regular file, the descriptor was
    reached from the root one component at a time without following links and
    is that same file, it is on hugetlbfs when the URI asks for that, its owner
    and mode are allowed, and it holds at least a superblock; the mapping then
    spans exactly the file.  These are all the calls made, in this order. *)
Theorem shm_map_checked uri writable a s rg s' :
  tp_shm_map uri writable (Some a) s = (Ok rg, s') ->
  tp_shm_uri_parse uri = Ok (rg_uri rg) /\
  exists resolved st root events stf st' (t : res Z) huge stp,
    (exists base, Some base ∈ ap_canonical_paths a /\ within base resolved) /\
    st_isreg st = true /\ st_isreg stf = true /\
    walk root (uri_path (rg_uri rg)) (rg_fd rg) events /\
    st_dev stf = st_dev st' /\ st_ino stf = st_ino st' /\
    (if uri_require_hugepages (rg_uri rg)
     then exists f_type, u64 f_type = HUGETLBFS_MAGIC /\ huge = [EFstatfs (rg_fd rg) (Ok f_type)]
     else huge = []) /\
    tp_shm_validate_permissions stp a = Ok tt /\
    rg_length rg = st_size stp /\ TP_SUPERBLOCK_SIZE_BYTES <= rg_length rg /\
    os_log s' = os_log s ++
      [ERealpath (uri_path (rg_uri rg)) (Ok resolved); EStat resolved (Ok st); EOpenRoot (Ok root)] ++
      events ++ [EFstat (rg_fd rg) (Ok stf); EStat resolved (Ok st'); EFstatfs (rg_fd rg) t] ++
      huge ++ [EFstat (rg_fd rg) (Ok stp); EMmap (rg_fd rg) (rg_length rg) writable (Ok (rg_addr rg))].
Proof.
  unfold tp_shm_map. destruct (bool_decide _) eqn:Hne; [done|]. apply bool_decide_eq_false in Hne.
  change (negb false) with true. cbv iota. destruct (tp_shm_uri_parse uri) as [u|e]; [|done].
  intros H. apply try_ok in H as (fd & s1 & H1 & H).
  apply (open_canonical_log _ _ _ _ _ Hne) in H1
    as (resolved & st & root & events & stf & st' & Hbase & Hst & Hstf & Hw & Hd & Hi & L1).
  unfold bind in H. destruct (fstatfs fd s1) as [t s2] eqn:H2. injection H2 as _ <-.
  set (s2 := called id id (EFstatfs fd _) s1) in H.
  set (check := if uri_require_hugepages u then tp_shm_check_hugepages fd else ret (Ok tt)) in H.
  destruct (check s2) as [[[]|e] s3] eqn:Hhuge; [|done]. unfold check in Hhuge. clear check.
  assert (exists huge, (if uri_require_hugepages u
     then exists f_type, u64 f_type = HUGETLBFS_MAGIC /\ huge = [EFstatfs fd (Ok f_type)]
     else huge = []) /\ os_log s3 = os_log s2 ++ huge) as (huge & Hhg & L3).
  { destruct (uri_require_hugepages u).
    - apply try_ok in Hhuge as (f & s21 & H21 & H22). injection H21 as E21 <-.
      destruct (u64 f =? _) eqn:Ef; [|done]. injection H22 as <-. apply Z.eqb_eq in Ef.
      exists [EFstatfs fd (Ok f)]. split; [by exists f|]. simpl os_log. by rewrite E21.
    - injection Hhuge as <-. exists []. by rewrite app_nil_r. }
  destruct (fstat fd s3) as [[stp|e] s4] eqn:H4; [|done]. injection H4 as E4 <-.
  destruct (tp_shm_validate_permissions stp a) as [[]|e] eqn:Hperm; [|done].
  destruct (st_size stp <? _) eqn:Hsize; [done|]. apply Z.ltb_ge in Hsize.
  unfold mmap in H. destruct (k_mmap K _ fd (st_size stp)) as [addr|e]; [|done].
  injection H as <- <-. split; [done|]. simpl.
  exists resolved, st, root, events, stf, st', (k_fstatfs K (os_tick s1) fd), huge, stp.
  repeat (split; [done|]). unfold s2 in L3. simpl os_log in L3.
  rewrite E4, L3, L1, <- !(assoc_L (++)). done.
Qed.
End Kernel.

(** An operating system with one file, [/dev/shm/a/b], of 4096 bytes. *)
Definition one_file : stat :=
  {| st_mode := 0x8180; st_isreg := true; st_dev := 5; st_ino := 9; st_uid := 1000;
     st_gid := 1000; st_size := 4096 |}.
Definition one_file_kernel : kernel :=
  {| k_realpath := fun _ path => Ok path; k_stat := fun _ _ => Ok one_file;
     k_open_root := fun n => Ok (Z.of_nat n); k_openat := fun n _ _ => Ok (Z.of_nat n); k_fstat := fun _ _ => Ok one_file;
     k_fstatfs := fun _ _ => Ok TMPFS_MAGIC; k_statfs := fun _ _ => Ok TMPFS_MAGIC;
     k_mmap := fun _ _ _ => Ok 65536; k_munmap := fun _ => Ok tt |}.
Definition dev_shm (base : string) : tp_allowed_paths_t :=
  {| ap_length := 1; ap_canonical_paths := [Some (lit base)]; ap_enforce_permissions := true;
     ap_expected_uid := 1000; ap_expected_gid := TP_NULL_U32; ap_forbidden_mode := 18 |}.
Definition fresh : process := {| os_tick := 2; os_fds := []; os_maps := []; os_log := [] |}.

Definition map_shm (base : string) : res tp_shm_region_t * process :=
  tp_shm_map one_file_kernel (Some (lit "shm:file?path=/dev/shm/a/b")) true (Some (dev_shm base)) fresh.

Definition mapped_region : tp_shm_region_t :=
  {| rg_fd := 11; rg_length := 4096; rg_addr := 65536;
     rg_uri := {| uri_path := lit "/dev/shm/a/b"; uri_require_hugepages := false |} |}.

Lemma shm_map_checked_witness :
  fst (map_shm "/dev/shm") = Ok mapped_region /\
  exists resolved base, Some base ∈ ap_canonical_paths (dev_shm "/dev/shm") /\
    within base resolved /\
    os_log (snd (map_shm "/dev/shm")) !! 0%nat = Some (ERealpath (lit "/dev/shm/a/b") (Ok resolved)).
Proof.
  split; [by vm_compute|].
  destruct (shm_map_checked one_file_kernel (Some (lit "shm:file?path=/dev/shm/a/b")) true
    (dev_shm "/dev/shm") fresh mapped_region (snd (map_shm "/dev/shm")))
    as (_ & resolved & st & root & ev & stf & st' & t & huge & stp & [base [Hb Hw]] & H).
  { vm_compute. reflexivity. }
  exists resolved, base. split; [exact Hb|]. split; [exact Hw|].
  do 9 destruct H as [_ H]. rewrite H. reflexivity.
Defined.

(** A base that ends in a slash admits nothing below it: the character after
    the matched prefix is compared with a slash again. *)
Example trailing_slash_base : fst (map_shm "/dev/shm/") = Err EINVAL /\ fst (map_shm "/") = Err EINVAL.
Proof. split; by vm_compute. Qed.

(** The same map with the base [/dev/shm] leaves nothing open after unmapping. *)
Example map_unmap :
  let s := snd (tp_shm_unmap one_file_kernel mapped_region (snd (map_shm "/dev/shm"))) in
  os_fds s = [] /\ os_maps s = [].
Proof. by vm_compute. Qed.
End Mapping.

(** ** The superblock theorems at a concrete superblock *)

Definition pool_expected (nslots : Z) : tp_shm_expected_t :=
  {| ex_stream_id := 10; ex_layout_version := 1; ex_epoch := 77;
     ex_region_type := tensor_pool_regionType_PAYLOAD_POOL; ex_pool_id := 3; ex_nslots := nslots;
     ex_slot_bytes := TP_NULL_U32; ex_stride_bytes := 4096 |}.
Definition pool_block : bytes := Superblock.region_superblock 10 77 3 2 8 4096 1234 99.

Lemma superblock_accepted_witness :
  Superblock.tp_shm_validate_superblock (Some pool_block) (Some (pool_expected 8)) = Ok tt.
Proof.
  apply (Superblock.superblock_accepted 10 77 3 2 8 4096 1234 99 (pool_expected 8));
    [ulia..|in_compute|ulia|ulia|ulia|ulia|].
  split; [|done]. repeat split; right; by vm_compute.
Defined.

Lemma activity_timestamp_frame_witness :
  exists b, Superblock.tp_shm_update_activity_timestamp (Some pool_block) 500 = Ok b /\
    Superblock.tp_shm_read_activity_timestamp (Some b) = Ok 500 /\
    Superblock.tp_shm_read_pid (Some b) = Ok 1234.
Proof.
  destruct (Superblock.activity_timestamp_frame pool_block 500) as (b & Hb & _ & Ht & Hp & _);
    [by vm_compute|ulia|].
  exists b. split; [exact Hb|]. split; [exact Ht|]. rewrite Hp. by vm_compute.
Defined.

(** The validation never reads the region's length: a file with room for no
    slot at all is accepted as a pool of eight. *)
Example length_unchecked :
  blen pool_block = 64 /\ Superblock.region_file_size 2 8 4096 = 32832 /\
  Superblock.tp_shm_validate_superblock (Some pool_block) (Some (pool_expected 8)) = Ok tt.
Proof. by vm_compute. Qed.
