(* ===== verification/ConsumerManager.v ===== *)
(** * ConsumerManager: the consumers a producer serves (tp_consumer_registry.c,
    tp_consumer_manager.c, and the fan-out of tp_producer.c)

    A producer keeps an array of the consumers that said hello, with the
    publications it opened for each, drops those it has not heard of for some
    time, and merges their wishes into one progress policy.  Publications are
    opened through an arbitrary [aeron], whose answers may fail; the open ones
    and all messages are recorded in [media]. *)

From Stdlib Require Import ZArith Lia Bool Ascii String.
From stdpp Require Import strings gmap list.
From S2P Require Import Prelude Uri.

#[local] Open Scope Z_scope.
#[local] Open Scope list_scope.

Definition TP_URI_MAX_LENGTH : nat := Z.to_nat 4096.
Definition TP_PROGRESS_INTERVAL_DEFAULT_US : Z := 250.
Definition TP_PROGRESS_BYTES_DELTA_DEFAULT : Z := 65536.
Definition TP_MODE_STREAM : Z := 1.
Definition TP_MODE_RATE_LIMITED : Z := 2.
Definition AERON_PUBLICATION_NOT_CONNECTED : Z := -1.

(** [sv_length] bytes at [sv_data]. *)
Record tp_string_view_t := {
  sv_data : ptr chars;
  sv_length : nat;
}.

Record tp_consumer_hello_view_t := {
  hv_stream_id : Z;
  hv_consumer_id : Z;
  hv_supports_shm : Z;
  hv_supports_progress : Z;
  hv_mode : Z;
  hv_max_rate_hz : Z;
  hv_expected_layout_version : Z;
  hv_progress_interval_us : Z;
  hv_progress_bytes_delta : Z;
  hv_progress_major_delta_units : Z;
  hv_descriptor_stream_id : Z;
  hv_control_stream_id : Z;
  hv_descriptor_channel : tp_string_view_t;
  hv_control_channel : tp_string_view_t;
}.

Record tp_progress_policy_t := {
  pp_interval_us : Z;
  pp_bytes_delta : Z;
  pp_major_delta_units : Z;
}.

(** A channel buffer is kept as the C string every reader of it sees; a
    publication by the number it was opened under. *)
Record tp_consumer_entry_t := {
  ce_in_use : bool;
  ce_consumer_id : Z;
  ce_last_seen_ns : Z;
  ce_mode : Z;
  ce_max_rate_hz : Z;
  ce_supports_progress : Z;
  ce_progress_interval_us : Z;
  ce_progress_bytes_delta : Z;
  ce_progress_major_delta_units : Z;
  ce_descriptor_stream_id : Z;
  ce_descriptor_channel : chars;
  ce_control_stream_id : Z;
  ce_control_channel : chars;
  ce_last_descriptor_ns : Z;
  ce_descriptor_publication : ptr Z;
  ce_control_publication : ptr Z;
}.

Definition zero_entry : tp_consumer_entry_t :=
  {| ce_in_use := false; ce_consumer_id := 0; ce_last_seen_ns := 0; ce_mode := 0;
     ce_max_rate_hz := 0; ce_supports_progress := 0; ce_progress_interval_us := 0;
     ce_progress_bytes_delta := 0; ce_progress_major_delta_units := 0;
     ce_descriptor_stream_id := 0; ce_descriptor_channel := []; ce_control_stream_id := 0;
     ce_control_channel := []; ce_last_descriptor_ns := 0; ce_descriptor_publication := NULL;
     ce_control_publication := NULL |}.

Definition new_entry (consumer_id : Z) : tp_consumer_entry_t :=
  {| ce_in_use := true; ce_consumer_id := consumer_id; ce_last_seen_ns := 0; ce_mode := 0;
     ce_max_rate_hz := 0; ce_supports_progress := 0; ce_progress_interval_us := 0;
     ce_progress_bytes_delta := 0; ce_progress_major_delta_units := 0;
     ce_descriptor_stream_id := 0; ce_descriptor_channel := []; ce_control_stream_id := 0;
     ce_control_channel := []; ce_last_descriptor_ns := 0; ce_descriptor_publication := NULL;
     ce_control_publication := NULL |}.

(** The array of the registry, with [capacity] entries; empty once closed. *)
Abbreviation tp_consumer_registry_t := (list tp_consumer_entry_t).

Record tp_consumer_request_t := {
  rq_descriptor_requested : bool;
  rq_control_requested : bool;
}.

(** ** The registry *)

Module Registry.

Definition cstring (s : chars) : chars :=
  match strchr Ascii.zero s with Some i => take i s | None => s end.

(** The buffer after the call, or -1 with the buffer unchanged. *)
Definition tp_copy_string_view (dst_len : nat) (view : tp_string_view_t) : option chars :=
  if (dst_len =? 0)%nat then None
  else
    match sv_data view with
    | NULL => Some []
    | Some data =>
      if (sv_length view =? 0)%nat then Some []
      else if (dst_len <=? sv_length view)%nat then None
      else Some (cstring (take (sv_length view) data))
    end.

Definition view_present (view : tp_string_view_t) : bool :=
  (0 <? sv_length view)%nat && match sv_data view with NULL => false | Some _ => true end.

Definition tp_consumer_request_validate (hello : tp_consumer_hello_view_t)
    : res tp_consumer_request_t :=
  let descriptor_channel := view_present (hv_descriptor_channel hello) in
  let descriptor_stream := negb (hv_descriptor_stream_id hello =? 0) in
  let control_channel := view_present (hv_control_channel hello) in
  let control_stream := negb (hv_control_stream_id hello =? 0) in
  guard! Bool.eqb descriptor_channel descriptor_stream else EINVAL in
  guard! Bool.eqb control_channel control_stream else EINVAL in
  Ok {| rq_descriptor_requested := descriptor_channel && descriptor_stream;
        rq_control_requested := control_channel && control_stream |}.

(** [alloc]: the allocation succeeds; the memory it returns is zeroed. *)
Definition tp_consumer_registry_init (alloc : bool) (capacity : nat) : res tp_consumer_registry_t :=
  guard! negb (capacity =? 0)%nat else EINVAL in
  guard! alloc else ENOMEM in
  Ok (replicate capacity zero_entry).

Definition is_consumer (consumer_id : Z) (e : tp_consumer_entry_t) : bool :=
  ce_in_use e && (ce_consumer_id e =? consumer_id).

Definition tp_consumer_registry_find (r : tp_consumer_registry_t) (consumer_id : Z) : option nat :=
  find_index (is_consumer consumer_id) r.

(** The index of the entry, and the registry with the entry cleared. *)
Definition tp_consumer_registry_alloc (r : tp_consumer_registry_t) (consumer_id : Z)
    : option (nat * tp_consumer_registry_t) :=
  match find_index (fun e => negb (ce_in_use e)) r with
  | None => None
  | Some i =>
    Some (i, <[i := new_entry consumer_id]> r)
  end.

(** A channel and its stream, or neither when the copy fails. *)
Definition requested (wanted : bool) (view : tp_string_view_t) (stream_id : Z) : chars * Z :=
  if wanted then
    match tp_copy_string_view TP_URI_MAX_LENGTH view with
    | Some channel => (channel, stream_id)
    | None => ([], 0)
    end
  else ([], 0).

(** The assignments to the entry in [tp_consumer_registry_update]. *)
Definition refresh_entry (hello : tp_consumer_hello_view_t) (request : tp_consumer_request_t)
    (now_ns : Z) (e : tp_consumer_entry_t) : tp_consumer_entry_t :=
  let descriptor := requested (rq_descriptor_requested request) (hv_descriptor_channel hello)
                      (hv_descriptor_stream_id hello) in
  let control := requested (rq_control_requested request) (hv_control_channel hello)
                   (hv_control_stream_id hello) in
  {| ce_in_use := ce_in_use e; ce_consumer_id := ce_consumer_id e; ce_last_seen_ns := now_ns;
     ce_mode := hv_mode hello; ce_max_rate_hz := hv_max_rate_hz hello;
     ce_supports_progress := hv_supports_progress hello;
     ce_progress_interval_us := hv_progress_interval_us hello;
     ce_progress_bytes_delta := hv_progress_bytes_delta hello;
     ce_progress_major_delta_units := hv_progress_major_delta_units hello;
     ce_descriptor_stream_id := snd descriptor; ce_descriptor_channel := fst descriptor;
     ce_control_stream_id := snd control; ce_control_channel := fst control;
     ce_last_descriptor_ns := ce_last_descriptor_ns e;
     ce_descriptor_publication := ce_descriptor_publication e;
     ce_control_publication := ce_control_publication e |}.

(** The registry after the call, with the index of the entry or the error. *)
Definition tp_consumer_registry_update (r : tp_consumer_registry_t)
    (hello : tp_consumer_hello_view_t) (now_ns : Z) : res nat * tp_consumer_registry_t :=
  match tp_consumer_request_validate hello with
  | Err e => (Err e, r)
  | Ok request =>
    let entry :=
      match tp_consumer_registry_find r (hv_consumer_id hello) with
      | Some i => Some (i, r)
      | None => tp_consumer_registry_alloc r (hv_consumer_id hello)
      end in
    match entry with
    | None => (Err ENOMEM, r)
    | Some (i, r') => (Ok i, alter (refresh_entry hello request now_ns) i r')
    end
  end.

(** The smaller of a wish and what has been found so far. *)
Definition merge_wish (wish : Z) (found : option Z) : option Z :=
  if wish =? TP_NULL_U32 then found
  else match found with
       | Some v => Some (if wish <? v then wish else v)
       | None => Some wish
       end.

(** The loop: each component is [None] until a consumer has a wish. *)
Definition aggregate_step (found : option Z * option Z * option Z) (e : tp_consumer_entry_t)
    : option Z * option Z * option Z :=
  if negb (ce_in_use e) || (ce_supports_progress e =? 0) then found
  else
    let '(interval, bytes_delta, major_delta) := found in
    (merge_wish (ce_progress_interval_us e) interval,
     merge_wish (ce_progress_bytes_delta e) bytes_delta,
     merge_wish (ce_progress_major_delta_units e) major_delta).

Definition tp_consumer_registry_aggregate_progress (r : tp_consumer_registry_t)
    : tp_progress_policy_t :=
  let '(interval, bytes_delta, major_delta) := foldl aggregate_step (None, None, None) r in
  {| pp_interval_us := default TP_PROGRESS_INTERVAL_DEFAULT_US interval;
     pp_bytes_delta := default TP_PROGRESS_BYTES_DELTA_DEFAULT bytes_delta;
     pp_major_delta_units := default 0 major_delta |}.
End Registry.

(** ** Publications and messages *)

Record tp_consumer_config_msg_t := {
  cf_stream_id : Z;
  cf_consumer_id : Z;
  cf_use_shm : Z;
  cf_mode : Z;
  cf_descriptor_stream_id : Z;
  cf_control_stream_id : Z;
  cf_payload_fallback_uri : chars;
  cf_descriptor_channel : chars;
  cf_control_channel : chars;
}.

Record descriptor := {
  fd_seq : Z;
  fd_timestamp_ns : Z;
  fd_meta_version : Z;
  fd_trace_id : Z;
}.

Record progress := {
  fp_seq : Z;
  fp_payload_bytes_filled : Z;
  fp_state : Z;
}.

Inductive message :=
  | MConfig (config : tp_consumer_config_msg_t)
  | MDescriptor (d : descriptor)
  | MProgress (p : progress).

(** The answers of the library to its n-th call: whether an asynchronous add is
    accepted, how the wait for it ends, whether a message can be encoded (the
    generated codecs refuse what does not fit in the buffer), and the result of
    offering it to a publication. *)
Record aeron := {
  ar_async_add : nat -> chars -> Z -> res unit;
  ar_added : nat -> res unit;
  ar_encode : message -> res unit;
  ar_offer : nat -> Z -> message -> Z;
}.

Record media := {
  md_tick : nat;
  md_next : Z;                       (* the number of the next publication *)
  md_open : gmap Z (chars * Z);      (* open publications: channel and stream *)
  md_sent : list (Z * message * Z);  (* publication, message, result of the offer *)
}.

Definition ticked (w : media) : media :=
  {| md_tick := S (md_tick w); md_next := md_next w; md_open := md_open w; md_sent := md_sent w |}.

(** What the producer lends the manager. *)
Record tp_producer_t := {
  pr_descriptor_publication : ptr Z;
  pr_control_publication : ptr Z;
  pr_drop_unconnected_descriptors : bool;
}.

Record tp_consumer_manager_t := {
  cm_producer : ptr tp_producer_t;
  cm_registry : tp_consumer_registry_t;
  cm_progress_policy : tp_progress_policy_t;
  cm_payload_fallback_uri : chars;
  cm_force_no_shm : bool;
}.

Definition with_registry (m : tp_consumer_manager_t) (r : tp_consumer_registry_t)
    : tp_consumer_manager_t :=
  {| cm_producer := cm_producer m; cm_registry := r; cm_progress_policy := cm_progress_policy m;
     cm_payload_fallback_uri := cm_payload_fallback_uri m; cm_force_no_shm := cm_force_no_shm m |}.

Definition with_policy (m : tp_consumer_manager_t) (p : tp_progress_policy_t)
    : tp_consumer_manager_t :=
  {| cm_producer := cm_producer m; cm_registry := cm_registry m; cm_progress_policy := p;
     cm_payload_fallback_uri := cm_payload_fallback_uri m; cm_force_no_shm := cm_force_no_shm m |}.

(** The entry with the fields the manager changes outside an update. *)
Definition entry_with (e : tp_consumer_entry_t) (in_use : bool) (last_seen last_descriptor : Z)
    (descriptor control : ptr Z) : tp_consumer_entry_t :=
  {| ce_in_use := in_use; ce_consumer_id := ce_consumer_id e;
     ce_last_seen_ns := last_seen; ce_mode := ce_mode e;
     ce_max_rate_hz := ce_max_rate_hz e; ce_supports_progress := ce_supports_progress e;
     ce_progress_interval_us := ce_progress_interval_us e;
     ce_progress_bytes_delta := ce_progress_bytes_delta e;
     ce_progress_major_delta_units := ce_progress_major_delta_units e;
     ce_descriptor_stream_id := ce_descriptor_stream_id e;
     ce_descriptor_channel := ce_descriptor_channel e;
     ce_control_stream_id := ce_control_stream_id e;
     ce_control_channel := ce_control_channel e;
     ce_last_descriptor_ns := last_descriptor;
     ce_descriptor_publication := descriptor; ce_control_publication := control |}.

Definition with_publications (e : tp_consumer_entry_t) (descriptor control : ptr Z)
    : tp_consumer_entry_t :=
  entry_with e (ce_in_use e) (ce_last_seen_ns e) (ce_last_descriptor_ns e) descriptor control.
Definition with_last_seen (now_ns : Z) (e : tp_consumer_entry_t) : tp_consumer_entry_t :=
  entry_with e (ce_in_use e) now_ns (ce_last_descriptor_ns e) (ce_descriptor_publication e)
    (ce_control_publication e).
Definition with_last_descriptor (now_ns : Z) (e : tp_consumer_entry_t) : tp_consumer_entry_t :=
  entry_with e (ce_in_use e) (ce_last_seen_ns e) now_ns (ce_descriptor_publication e)
    (ce_control_publication e).
(** In [tp_consumer_registry_sweep], once its publications are closed. *)
Definition vacated (e : tp_consumer_entry_t) : tp_consumer_entry_t :=
  entry_with e false (ce_last_seen_ns e) (ce_last_descriptor_ns e) NULL NULL.

Definition tp_publication_close (pub : ptr Z) (w : media) : media :=
  match pub with
  | NULL => w
  | Some p => {| md_tick := md_tick w; md_next := md_next w; md_open := delete p (md_open w);
                 md_sent := md_sent w |}
  end.

(** Of the whole registry. *)
Definition tp_consumer_registry_close (r : tp_consumer_registry_t) (w : media) : media :=
  foldl (fun w e => tp_publication_close (ce_control_publication e)
                      (tp_publication_close (ce_descriptor_publication e) w)) w r.

Fixpoint tp_consumer_registry_sweep (r : tp_consumer_registry_t) (now_ns stale_ns : Z) (w : media)
    : Z * tp_consumer_registry_t * media :=
  match r with
  | [] => (0, [], w)
  | e :: r' =>
    if negb (ce_in_use e) then
      let '(cleaned, r', w) := tp_consumer_registry_sweep r' now_ns stale_ns w in
      (cleaned, e :: r', w)
    else if stale_ns <? u64 (now_ns - ce_last_seen_ns e) then
      let w := tp_publication_close (ce_descriptor_publication e) w in
      let w := tp_publication_close (ce_control_publication e) w in
      let '(cleaned, r', w) := tp_consumer_registry_sweep r' now_ns stale_ns w in
      (cleaned + 1, vacated e :: r', w)
    else
      let '(cleaned, r', w) := tp_consumer_registry_sweep r' now_ns stale_ns w in
      (cleaned, e :: r', w)
  end.

Module Manager.
Import Registry.

Section Aeron.
Context (A : aeron).

(** [Ok] with the publication.  The wait polls until the library answers. *)
Definition tp_consumer_manager_add_publication (channel : chars) (stream_id : Z) (w : media)
    : res Z * media :=
  if stream_id <? 0 then (Err EINVAL, w)
  else
    match ar_async_add A (md_tick w) channel stream_id with
    | Err e => (Err e, ticked w)
    | Ok _ =>
      let w := ticked w in
      match ar_added A (md_tick w) with
      | Err e => (Err e, ticked w)
      | Ok _ => (Ok (md_next w),
                 {| md_tick := S (md_tick w); md_next := md_next w + 1;
                    md_open := <[md_next w := (channel, stream_id)]> (md_open w);
                    md_sent := md_sent w |})
      end
    end.

(** The result of offering a message, which is recorded. *)
Definition offer (pub : Z) (msg : message) (w : media) : Z * media :=
  let r := ar_offer A (md_tick w) pub msg in
  (r, {| md_tick := S (md_tick w); md_next := md_next w; md_open := md_open w;
         md_sent := md_sent w ++ [(pub, msg, r)] |}).

(** [tp_offer_message] on the control publication; the returned [int]. *)
Definition tp_producer_send_consumer_config (p : tp_producer_t) (config : tp_consumer_config_msg_t)
    (w : media) : res Z * media :=
  match pr_control_publication p with
  | NULL => (Err EINVAL, w)
  | Some pub =>
    match ar_encode A (MConfig config) with
    | Err e => (Err e, w)
    | Ok _ => let '(r, w) := offer pub (MConfig config) w in (Ok (if r <? 0 then i32 r else 0), w)
    end
  end.

Definition tp_consumer_manager_find_entry (m : tp_consumer_manager_t) (consumer_id : Z)
    : option nat :=
  find_index (is_consumer consumer_id) (cm_registry m).

Definition tp_consumer_manager_init (producer : tp_producer_t) (alloc : bool) (capacity : nat)
    : res tp_consumer_manager_t :=
  guard! negb (capacity =? 0)%nat else EINVAL in
  let! r := tp_consumer_registry_init alloc capacity in
  Ok {| cm_producer := Some producer; cm_registry := r;
        cm_progress_policy := {| pp_interval_us := TP_PROGRESS_INTERVAL_DEFAULT_US;
                                 pp_bytes_delta := TP_PROGRESS_BYTES_DELTA_DEFAULT;
                                 pp_major_delta_units := 0 |};
        cm_payload_fallback_uri := []; cm_force_no_shm := false |}.

Definition tp_consumer_manager_close (m : tp_consumer_manager_t) (w : media)
    : tp_consumer_manager_t * media :=
  ({| cm_producer := NULL; cm_registry := []; cm_progress_policy := cm_progress_policy m;
      cm_payload_fallback_uri := cm_payload_fallback_uri m; cm_force_no_shm := cm_force_no_shm m |},
   tp_consumer_registry_close (cm_registry m) w).

Definition tp_consumer_manager_set_payload_fallback_uri (m : tp_consumer_manager_t) (uri : ptr chars)
    : tp_consumer_manager_t :=
  {| cm_producer := cm_producer m; cm_registry := cm_registry m;
     cm_progress_policy := cm_progress_policy m;
     cm_payload_fallback_uri :=
       match uri with NULL => [] | Some uri => take (TP_URI_MAX_LENGTH - 1) uri end;
     cm_force_no_shm := cm_force_no_shm m |}.

Definition tp_consumer_manager_set_force_no_shm (m : tp_consumer_manager_t) (enabled : bool)
    : tp_consumer_manager_t :=
  {| cm_producer := cm_producer m; cm_registry := cm_registry m;
     cm_progress_policy := cm_progress_policy m;
     cm_payload_fallback_uri := cm_payload_fallback_uri m; cm_force_no_shm := enabled |}.

Definition tp_consumer_manager_refresh_progress_policy (m : tp_consumer_manager_t)
    : tp_consumer_manager_t :=
  with_policy m (tp_consumer_registry_aggregate_progress (cm_registry m)).

(** One of the two blocks of [tp_consumer_manager_handle_hello]: the publication
    the entry holds afterwards, and the channel and stream of the answer. *)
Definition serve (requested : bool) (channel : chars) (stream_id : Z) (pub : ptr Z) (w : media)
    : ptr Z * (chars * Z) * media :=
  if requested then
    let '(pub, w) :=
      match pub with
      | NULL =>
        let '(r, w) := tp_consumer_manager_add_publication channel (i32 stream_id) w in
        (match r with Ok p => Some p | Err _ => NULL end, w)
      | Some p => (Some p, w)
      end in
    (pub, match pub with NULL => ([], 0) | Some _ => (channel, stream_id) end, w)
  else (NULL, ([], 0), tp_publication_close pub w).

Definition tp_consumer_manager_handle_hello (m : tp_consumer_manager_t)
    (hello : tp_consumer_hello_view_t) (now_ns : Z) (w : media)
    : res Z * tp_consumer_manager_t * media :=
  match cm_producer m with
  | NULL => (Err EINVAL, m, w)
  | Some producer =>
    match tp_consumer_request_validate hello with
    | Err e => (Err e, m, w)
    | Ok request =>
      let '(found, r) := tp_consumer_registry_update (cm_registry m) hello now_ns in
      let m := with_registry m r in
      match found with
      | Err e => (Err e, m, w)
      | Ok i =>
        let entry := default zero_entry (r !! i) in
        let '(descriptor_publication, descriptor, w) :=
          serve (rq_descriptor_requested request && negb (ce_descriptor_stream_id entry =? 0) &&
                 negb (bool_decide (ce_descriptor_channel entry = [])))
            (ce_descriptor_channel entry) (ce_descriptor_stream_id entry)
            (ce_descriptor_publication entry) w in
        let '(control_publication, control, w) :=
          serve (rq_control_requested request && negb (ce_control_stream_id entry =? 0) &&
                 negb (bool_decide (ce_control_channel entry = [])))
            (ce_control_channel entry) (ce_control_stream_id entry)
            (ce_control_publication entry) w in
        let m := with_registry m
          (<[i := with_publications entry descriptor_publication control_publication]> r) in
        let config :=
          {| cf_stream_id := hv_stream_id hello; cf_consumer_id := hv_consumer_id hello;
             cf_use_shm := if cm_force_no_shm m then 0 else hv_supports_shm hello;
             cf_mode := hv_mode hello;
             cf_descriptor_stream_id := snd descriptor; cf_control_stream_id := snd control;
             cf_payload_fallback_uri := cm_payload_fallback_uri m;
             cf_descriptor_channel := fst descriptor; cf_control_channel := fst control |} in
        let m := tp_consumer_manager_refresh_progress_policy m in
        let '(sent, w) := tp_producer_send_consumer_config producer config w in
        (sent, m, w)
      end
    end
  end.

Definition tp_consumer_manager_touch (m : tp_consumer_manager_t) (consumer_id now_ns : Z)
    : res unit * tp_consumer_manager_t :=
  match tp_consumer_manager_find_entry m consumer_id with
  | None => (Err EINVAL, m)
  | Some i => (Ok tt, with_registry m (alter (with_last_seen now_ns) i (cm_registry m)))
  end.

(** Of a manager whose registry is not closed. *)
Definition tp_consumer_manager_sweep (m : tp_consumer_manager_t) (now_ns stale_ns : Z) (w : media)
    : Z * tp_consumer_manager_t * media :=
  let '(cleaned, r, w) := tp_consumer_registry_sweep (cm_registry m) now_ns stale_ns w in
  (cleaned, tp_consumer_manager_refresh_progress_policy (with_registry m r), w).

Record tp_progress_tracker_t := {
  pt_last_timestamp_ns : Z;
  pt_last_bytes : Z;
}.

Definition tp_consumer_manager_should_publish_progress (m : tp_consumer_manager_t)
    (state : tp_progress_tracker_t) (now_ns payload_bytes_filled : Z)
    : bool * tp_progress_tracker_t :=
  let policy := cm_progress_policy m in
  let interval_ns := u64 (pp_interval_us policy * 1000) in
  let should_publish :=
    (pt_last_timestamp_ns state =? 0) ||
    (0 <? interval_ns) && (interval_ns <=? u64 (now_ns - pt_last_timestamp_ns state)) ||
    (0 <? pp_bytes_delta policy) &&
      (u64 (pt_last_bytes state + pp_bytes_delta policy) <=? payload_bytes_filled) ||
    (0 <? pp_major_delta_units policy) &&
      (u64 (pt_last_bytes state + pp_major_delta_units policy) <=? payload_bytes_filled) in
  (should_publish,
   if should_publish then {| pt_last_timestamp_ns := now_ns; pt_last_bytes := payload_bytes_filled |}
   else state).

(** ** Sending to the consumers *)

(** The [int] result of the offer. *)
Definition publish_to (pub : ptr Z) (msg : message) (w : media) : res Z * media :=
  match pub with
  | NULL => (Err EINVAL, w)
  | Some pub => let '(r, w) := offer pub msg w in (Ok (if r <? 0 then i32 r else 0), w)
  end.
Definition tp_producer_publish_descriptor_to (pub : ptr Z) (d : descriptor) : media -> res Z * media :=
  publish_to pub (MDescriptor d).
Definition tp_producer_publish_progress_to (pub : ptr Z) (p : progress) : media -> res Z * media :=
  publish_to pub (MProgress p).

(** The publication of the consumer, or else the shared one. *)
Definition publication_for (m : tp_consumer_manager_t) (consumer_id : Z)
    (own : tp_consumer_entry_t -> ptr Z) (shared : ptr Z) : ptr Z :=
  match (tp_consumer_manager_find_entry m consumer_id ≫= (fun i => cm_registry m !! i)) ≫= own with
  | Some p => Some p
  | None => shared
  end.

Definition tp_consumer_manager_publish_descriptor (m : tp_consumer_manager_t) (consumer_id : Z)
    (d : descriptor) (w : media) : res Z * media :=
  match cm_producer m with
  | NULL => (Err EINVAL, w)
  | Some producer =>
    tp_producer_publish_descriptor_to
      (publication_for m consumer_id ce_descriptor_publication (pr_descriptor_publication producer)) d w
  end.

Definition tp_consumer_manager_publish_progress (m : tp_consumer_manager_t) (consumer_id : Z)
    (p : progress) (w : media) : res Z * media :=
  match cm_producer m with
  | NULL => (Err EINVAL, w)
  | Some producer =>
    tp_producer_publish_progress_to
      (publication_for m consumer_id ce_control_publication (pr_control_publication producer)) p w
  end.

(** Locals of the fan-out. *)
Record fanout := {
  fo_failed : bool;         (* result = -1 *)
  fo_published : bool;
  fo_published_ok : bool;
}.

Definition offered (drop_unconnected : bool) (r : res Z) (o : fanout) : fanout :=
  match r with
  | Ok r =>
    if (r =? AERON_PUBLICATION_NOT_CONNECTED) && drop_unconnected
    then {| fo_failed := fo_failed o; fo_published := true; fo_published_ok := fo_published_ok o |}
    else if r <? 0
    then {| fo_failed := true; fo_published := true; fo_published_ok := fo_published_ok o |}
    else {| fo_failed := fo_failed o; fo_published := true; fo_published_ok := true |}
  | Err _ => {| fo_failed := true; fo_published := true; fo_published_ok := fo_published_ok o |}
  end.

Definition rate_limited (e : tp_consumer_entry_t) : bool :=
  (ce_mode e =? TP_MODE_RATE_LIMITED) && (0 <? ce_max_rate_hz e).
Definition rate_interval_ns (e : tp_consumer_entry_t) : Z := 1000000000 / ce_max_rate_hz e.
Definition too_soon (e : tp_consumer_entry_t) (now_ns : Z) : bool :=
  (0 <? rate_interval_ns e) && negb (ce_last_descriptor_ns e =? 0) &&
  (u64 (now_ns - ce_last_descriptor_ns e) <? rate_interval_ns e).

(** The loop of [tp_producer_publish_descriptor] over the registry. *)
Fixpoint descriptor_loop (drop_unconnected : bool) (now_ns : Z) (d : descriptor)
    (r : tp_consumer_registry_t) (o : fanout) (w : media) : tp_consumer_registry_t * fanout * media :=
  match r with
  | [] => ([], o, w)
  | e :: r' =>
    if negb (ce_in_use e) || bool_decide (ce_descriptor_publication e = NULL) then
      let '(r', o, w) := descriptor_loop drop_unconnected now_ns d r' o w in (e :: r', o, w)
    else if rate_limited e && too_soon e now_ns then
      let '(r', o, w) := descriptor_loop drop_unconnected now_ns d r' o w in (e :: r', o, w)
    else
      let e := if rate_limited e then with_last_descriptor now_ns e else e in
      let '(result, w) := tp_producer_publish_descriptor_to (ce_descriptor_publication e) d w in
      let '(r', o, w) := descriptor_loop drop_unconnected now_ns d r' (offered drop_unconnected result o) w in
      (e :: r', o, w)
  end.

(** With the consumer manager [m] of the producer, when there is one.  The last
    component says whether [tp_producer_record_tracelink_descriptor] is called. *)
Definition tp_producer_publish_descriptor (producer : tp_producer_t) (m : ptr tp_consumer_manager_t)
    (now_ns : Z) (d : descriptor) (w : media)
    : res Z * ptr tp_consumer_manager_t * media * bool :=
  let drop := pr_drop_unconnected_descriptors producer in
  let o := {| fo_failed := false; fo_published := false; fo_published_ok := false |} in
  let '(m, o, w) :=
    match m with
    | NULL => (NULL, o, w)
    | Some m => let '(r, o, w) := descriptor_loop drop now_ns d (cm_registry m) o w in
                (Some (with_registry m r), o, w)
    end in
  let '(o, w) :=
    match pr_descriptor_publication producer with
    | NULL => (o, w)
    | Some pub => let '(result, w) := tp_producer_publish_descriptor_to (Some pub) d w in
                  (offered drop result o, w)
    end in
  if negb (fo_published o) then (Err EINVAL, m, w, false)
  else (Ok (if fo_failed o then -1 else 0), m, w, fo_published_ok o).

Fixpoint progress_loop (p : progress) (r : tp_consumer_registry_t) (o : fanout) (w : media)
    : fanout * media :=
  match r with
  | [] => (o, w)
  | e :: r' =>
    if negb (ce_in_use e) || bool_decide (ce_control_publication e = NULL)
    then progress_loop p r' o w
    else
      let '(result, w) := tp_producer_publish_progress_to (ce_control_publication e) p w in
      progress_loop p r' (offered false result o) w
  end.

Definition tp_producer_publish_progress (producer : tp_producer_t) (m : ptr tp_consumer_manager_t)
    (p : progress) (w : media) : res Z * media :=
  let o := {| fo_failed := false; fo_published := false; fo_published_ok := false |} in
  let '(o, w) :=
    match m with NULL => (o, w) | Some m => progress_loop p (cm_registry m) o w end in
  let '(o, w) :=
    match pr_control_publication producer with
    | NULL => (o, w)
    | Some pub => let '(result, w) := tp_producer_publish_progress_to (Some pub) p w in
                  (offered false result o, w)
    end in
  if negb (fo_published o) then (Err EINVAL, w) else (Ok (if fo_failed o then -1 else 0), w).
End Aeron.

Definition tp_producer_has_consumers (m : ptr tp_consumer_manager_t) : bool :=
  match m with NULL => false | Some m => existsb ce_in_use (cm_registry m) end.
End Manager.

(** ** The merged progress policy *)

Module Policy.
Import Registry.

Definition active (e : tp_consumer_entry_t) : Prop :=
  ce_in_use e = true /\ ce_supports_progress e <> 0.
#[global] Instance active_dec e : Decision (active e) := _.

(** The wishes of the consumers that report progress and have one. *)
Definition wishes (field : tp_consumer_entry_t -> Z) (r : tp_consumer_registry_t) : list Z :=
  filter (fun v => v <> TP_NULL_U32) (field <$> filter active r).

(** The least of the values, or the default when there is none. *)
Definition least (l : list Z) (dflt v : Z) : Prop :=
  (l = [] /\ v = dflt) \/ (v ∈ l /\ forall x, x ∈ l -> v <= x).

Definition wish_step (field : tp_consumer_entry_t -> Z) (found : option Z) (e : tp_consumer_entry_t)
    : option Z :=
  if negb (ce_in_use e) || (ce_supports_progress e =? 0) then found
  else merge_wish (field e) found.

Lemma aggregate_split r : forall a b c,
  foldl aggregate_step (a, b, c) r =
  (foldl (wish_step ce_progress_interval_us) a r, foldl (wish_step ce_progress_bytes_delta) b r,
   foldl (wish_step ce_progress_major_delta_units) c r).
Proof.
  induction r as [|e r IH]; intros a b c; [done|]. cbn [foldl].
  unfold aggregate_step at 2, wish_step at 2 4 6. destruct (_ || _); apply IH.
Qed.

Lemma wishes_cons field e r :
  wishes field (e :: r) =
  if negb (ce_in_use e) || (ce_supports_progress e =? 0) then wishes field r
  else if field e =? TP_NULL_U32 then wishes field r else field e :: wishes field r.
Proof.
  unfold wishes. rewrite (filter_cons active). destruct (decide (active e)) as [[H1 H2]|Hn].
  - rewrite H1, (proj2 (Z.eqb_neq _ _) H2). simpl. rewrite filter_cons.
    destruct (Z.eqb_spec (field e) TP_NULL_U32) as [E|E];
      [by rewrite decide_False by auto|by rewrite decide_True].
  - destruct (ce_in_use e) eqn:H1, (Z.eqb_spec (ce_supports_progress e) 0) as [H2|H2]; try done.
    by destruct Hn.
Qed.

(** What the fold has found: the least of the wishes and of what it started with. *)
Lemma wish_fold field r : forall found,
  match foldl (wish_step field) found r with
  | None => found = None /\ wishes field r = []
  | Some v => (found = Some v \/ v ∈ wishes field r) /\
              (forall x, found = Some x \/ x ∈ wishes field r -> v <= x)
  end.
Proof.
  induction r as [|e r IH]; intros found; cbn [foldl].
  { destruct found as [v|]; [|done]. split; [by left|].
    intros x [[= ->]|Hx]; [lia|by apply not_elem_of_nil in Hx]. }
  specialize (IH (wish_step field found e)). rewrite wishes_cons.
  remember (wish_step field found e) as found1 eqn:E1. unfold wish_step, merge_wish in E1.
  destruct (negb (ce_in_use e) || _); [by subst found1|].
  destruct (field e =? TP_NULL_U32); [by subst found1|].
  destruct (foldl _ _ r) as [v|]; [|subst found1; destruct found; by destruct IH].
  subst found1.
  destruct IH as [Hin Hle]. destruct found as [f|].
  - split.
    + destruct Hin as [[= <-]|Hin]; [|by right; right].
      destruct (field e <? f); [right; left|by left].
    + intros x Hx. pose proof (Hle _ (or_introl eq_refl)) as Hm.
      destruct (Z.ltb_spec (field e) f), Hx as [[= <-]|Hx]; try lia;
        apply elem_of_cons in Hx as [->|Hx]; try lia; apply Hle; by right.
  - split.
    + destruct Hin as [[= <-]|Hin]; right; [by left|by right].
    + intros x [?|Hx]; [done|]. apply elem_of_cons in Hx as [->|Hx]; apply Hle; auto.
Qed.

Lemma wish_least field r dflt :
  least (wishes field r) dflt (default dflt (foldl (wish_step field) None r)).
Proof.
  pose proof (wish_fold field r None) as H. destruct (foldl _ _ _) as [v|].
  - destruct H as [[?|Hin] Hle]; [done|]. right. split; [done|]. intros x Hx. apply Hle. by right.
  - left. by destruct H.
Qed.

(** The policy is, component by component, the least wish of the consumers in
    use that report progress, and the default when none of them has a wish. *)
Theorem aggregate_least r :
  let policy := tp_consumer_registry_aggregate_progress r in
  least (wishes ce_progress_interval_us r) TP_PROGRESS_INTERVAL_DEFAULT_US (pp_interval_us policy) /\
  least (wishes ce_progress_bytes_delta r) TP_PROGRESS_BYTES_DELTA_DEFAULT (pp_bytes_delta policy) /\
  least (wishes ce_progress_major_delta_units r) 0 (pp_major_delta_units policy).
Proof.
  unfold tp_consumer_registry_aggregate_progress. rewrite aggregate_split. cbn.
  split; [|split]; apply wish_least.
Qed.
End Policy.

(** ** The registry as a finite map *)

Module Consumers.
Import Registry Manager.

(** What the registry knows of a consumer, apart from publications. *)
Definition profile (e : tp_consumer_entry_t) : tp_consumer_entry_t :=
  entry_with e (ce_in_use e) (ce_last_seen_ns e) 0 NULL NULL.

Abbreviation in_use := (fun e => ce_in_use e = true).
Definition pairs (r : tp_consumer_registry_t) : list (Z * tp_consumer_entry_t) :=
  (fun e => (ce_consumer_id e, profile e)) <$> filter in_use r.
Definition consumers (r : tp_consumer_registry_t) : gmap Z tp_consumer_entry_t :=
  list_to_map (pairs r).

(** No two entries in use are of one consumer. *)
Definition distinct (r : tp_consumer_registry_t) : Prop := NoDup (pairs r).*1.

Lemma pairs_app r1 r2 : pairs (r1 ++ r2) = pairs r1 ++ pairs r2.
Proof. unfold pairs. by rewrite filter_app, fmap_app. Qed.

Lemma pairs_cons e r :
  pairs (e :: r) = if ce_in_use e then (ce_consumer_id e, profile e) :: pairs r else pairs r.
Proof.
  unfold pairs. rewrite filter_cons. destruct (decide (ce_in_use e = true)) as [H|H].
  - by rewrite H.
  - by rewrite (not_true_is_false _ H).
Qed.

Lemma pairs_middle e r1 r2 :
  ce_in_use e = true -> pairs (r1 ++ e :: r2) ≡ₚ (ce_consumer_id e, profile e) :: pairs (r1 ++ r2).
Proof.
  intros H. rewrite !pairs_app, pairs_cons, H. symmetry. apply Permutation_middle.
Qed.

Lemma pairs_unused e r1 r2 : ce_in_use e = false -> pairs (r1 ++ e :: r2) = pairs (r1 ++ r2).
Proof. intros H. by rewrite !pairs_app, pairs_cons, H. Qed.

Lemma distinct_middle e r1 r2 :
  ce_in_use e = true ->
  distinct (r1 ++ e :: r2) <-> (ce_consumer_id e ∉ (pairs (r1 ++ r2)).*1) /\ distinct (r1 ++ r2).
Proof.
  intros H. unfold distinct. rewrite (pairs_middle e r1 r2 H), fmap_cons. apply NoDup_cons.
Qed.

Lemma consumers_middle e r1 r2 :
  ce_in_use e = true -> distinct (r1 ++ e :: r2) ->
  consumers (r1 ++ e :: r2) = <[ce_consumer_id e := profile e]> (consumers (r1 ++ r2)).
Proof.
  intros H Hd. unfold consumers. rewrite <- list_to_map_cons.
  by apply list_to_map_proper; [|apply pairs_middle].
Qed.

Lemma split_at (r : tp_consumer_registry_t) i e :
  r !! i = Some e -> exists r1 r2, r = r1 ++ e :: r2 /\ forall e', <[i := e']> r = r1 ++ e' :: r2.
Proof.
  intros H. exists (take i r), (drop (S i) r). split; [by rewrite take_drop_middle|].
  intros e'. apply insert_take_drop. by eapply lookup_lt_Some.
Qed.

Lemma alter_insert {B} (f : B -> B) (l : list B) i x : l !! i = Some x -> alter f i l = <[i := f x]> l.
Proof.
  revert i. induction l as [|y l IH]; intros [|i] H; simplify_eq/=; [done|]. f_equal. by apply IH.
Qed.

(** An entry in use replaced by one of the same consumer. *)
Lemma consumers_replace r i e e' :
  r !! i = Some e -> ce_in_use e = true -> ce_in_use e' = true ->
  ce_consumer_id e' = ce_consumer_id e -> distinct r ->
  distinct (<[i := e']> r) /\
  consumers (<[i := e']> r) = <[ce_consumer_id e := profile e']> (consumers r).
Proof.
  intros Hi Hu Hu' Hid Hd. destruct (split_at r i e Hi) as (r1 & r2 & -> & ->).
  assert (Hd' : distinct (r1 ++ e' :: r2)).
  { apply distinct_middle in Hd; [|done]. apply distinct_middle; [done|]. by rewrite Hid. }
  split; [done|]. rewrite !consumers_middle by done. by rewrite Hid, insert_insert_eq.
Qed.

(** A free entry taken by a new consumer. *)
Lemma consumers_new r i e e' :
  r !! i = Some e -> ce_in_use e = false -> ce_in_use e' = true ->
  consumers r !! ce_consumer_id e' = None -> distinct r ->
  distinct (<[i := e']> r) /\
  consumers (<[i := e']> r) = <[ce_consumer_id e' := profile e']> (consumers r).
Proof.
  intros Hi Hu Hu' Hnew Hd. destruct (split_at r i e Hi) as (r1 & r2 & -> & ->).
  unfold distinct in Hd. unfold consumers in Hnew |- *. rewrite (pairs_unused e) in Hd, Hnew by done.
  assert (Hd' : distinct (r1 ++ e' :: r2)).
  { apply distinct_middle; [done|]. split; [by apply not_elem_of_list_to_map|done]. }
  split; [done|]. change (list_to_map (pairs (r1 ++ e' :: r2))) with (consumers (r1 ++ e' :: r2)).
  rewrite consumers_middle by done. unfold consumers. by rewrite (pairs_unused e).
Qed.

Lemma consumers_lookup r id p :
  distinct r -> consumers r !! id = Some p <->
  exists e, e ∈ r /\ ce_in_use e = true /\ ce_consumer_id e = id /\ profile e = p.
Proof.
  intros Hd. unfold consumers. rewrite <- elem_of_list_to_map by exact Hd.
  unfold pairs. rewrite list_elem_of_fmap. split.
  - intros (e & [= -> ->] & [Hu He]%list_elem_of_filter). by exists e.
  - intros (e & He & Hu & <- & <-). exists e. split; [done|]. by apply list_elem_of_filter.
Qed.

Lemma find_consumer r id i :
  tp_consumer_registry_find r id = Some i ->
  exists e, r !! i = Some e /\ ce_in_use e = true /\ ce_consumer_id e = id.
Proof.
  intros (e & Hi & He)%find_index_lookup. exists e. unfold is_consumer in He. bool_simp.
  split; [done|]. split; [done|]. lia.
Qed.

Lemma find_consumer_Some r id i :
  distinct r -> tp_consumer_registry_find r id = Some i ->
  exists e, r !! i = Some e /\ ce_in_use e = true /\ ce_consumer_id e = id /\
    consumers r !! id = Some (profile e).
Proof.
  intros Hd (e & Hi & Hu & Hid)%find_consumer. exists e. repeat (split; [done|]).
  apply consumers_lookup; [done|]. exists e. split; [by eapply list_elem_of_lookup_2|done].
Qed.

Lemma find_consumer_None r id :
  distinct r -> tp_consumer_registry_find r id = None -> consumers r !! id = None.
Proof.
  intros Hd Hf. apply find_index_None in Hf. rewrite Forall_forall in Hf.
  destruct (consumers r !! id) as [p|] eqn:E; [|done].
  apply consumers_lookup in E as (e & He & Hu & Hid & _); [|done].
  specialize (Hf e He). unfold is_consumer in Hf. by rewrite Hu, Hid, Z.eqb_refl in Hf.
Qed.

Lemma size_consumers r : distinct r -> size (consumers r) = length (pairs r).
Proof. intros Hd. by apply map_size_list_to_map. Qed.

Lemma free_entry r :
  distinct r ->
  match find_index (fun e => negb (ce_in_use e)) r with
  | Some i => exists e, r !! i = Some e /\ ce_in_use e = false /\ (size (consumers r) < length r)%nat
  | None => size (consumers r) = length r
  end.
Proof.
  intros Hd. rewrite (size_consumers r Hd). destruct (find_index _ r) as [i|] eqn:E.
  - apply find_index_lookup in E as (e & Hi & He). apply negb_true_iff in He.
    exists e. split; [done|]. split; [done|].
    destruct (split_at r i e Hi) as (r1 & r2 & -> & _). rewrite pairs_unused by done.
    unfold pairs. rewrite length_fmap. rewrite length_app. simpl.
    pose proof (length_filter in_use (r1 ++ r2)) as Hl. rewrite length_app in Hl. lia.
  - apply find_index_None in E. unfold pairs. rewrite length_fmap. f_equal.
    induction E as [|e r' He _ IH]; [done|]. apply negb_false_iff in He.
    rewrite filter_cons_True by done. f_equal. apply IH. clear IH.
    unfold distinct in Hd. rewrite pairs_cons, He, fmap_cons in Hd. by apply NoDup_cons in Hd as [_ Hd].
Qed.

(** The specification: a map of at most [capacity] consumers. *)
Definition heard (hello : tp_consumer_hello_view_t) (request : tp_consumer_request_t) (now_ns : Z)
    (p : tp_consumer_entry_t) : tp_consumer_entry_t := profile (refresh_entry hello request now_ns p).

Definition spec_hello (capacity : nat) (hello : tp_consumer_hello_view_t) (now_ns : Z)
    (c : gmap Z tp_consumer_entry_t) : res unit * gmap Z tp_consumer_entry_t :=
  match tp_consumer_request_validate hello with
  | Err e => (Err e, c)
  | Ok request =>
    match c !! hv_consumer_id hello with
    | Some p => (Ok tt, <[hv_consumer_id hello := heard hello request now_ns p]> c)
    | None =>
      if (size c <? capacity)%nat
      then (Ok tt, <[hv_consumer_id hello :=
                       heard hello request now_ns (new_entry (hv_consumer_id hello))]> c)
      else (Err ENOMEM, c)
    end
  end.

Definition spec_touch (consumer_id now_ns : Z) (c : gmap Z tp_consumer_entry_t)
    : res unit * gmap Z tp_consumer_entry_t :=
  match c !! consumer_id with
  | None => (Err EINVAL, c)
  | Some p => (Ok tt, <[consumer_id := with_last_seen now_ns p]> c)
  end.

Definition stale (now_ns stale_ns : Z) (p : tp_consumer_entry_t) : Prop :=
  stale_ns < u64 (now_ns - ce_last_seen_ns p).
#[global] Instance stale_dec now_ns stale_ns p : Decision (stale now_ns stale_ns p) :=
  Z_lt_dec _ _.
Definition spec_sweep (now_ns stale_ns : Z) (c : gmap Z tp_consumer_entry_t)
    : Z * gmap Z tp_consumer_entry_t :=
  let kept := filter (fun kv => ~ stale now_ns stale_ns (snd kv)) c in
  (Z.of_nat (size c - size kept), kept).

Lemma profile_profile e : profile (profile e) = profile e.
Proof. done. Qed.

Lemma update_refines r hello now :
  distinct r ->
  let '(found, r') := tp_consumer_registry_update r hello now in
  let '(spec, c') := spec_hello (length r) hello now (consumers r) in
  distinct r' /\ consumers r' = c' /\ length r' = length r /\
  match found, spec with
  | Ok i, Ok _ => exists e, r' !! i = Some e /\ ce_in_use e = true
  | Err e, Err e' => e = e'
  | _, _ => False
  end.
Proof.
  intros Hd. unfold tp_consumer_registry_update, spec_hello.
  destruct (tp_consumer_request_validate hello) as [request|e]; [|done].
  destruct (tp_consumer_registry_find r _) as [i|] eqn:Hf.
  - destruct (find_consumer_Some r _ i Hd Hf) as (e & Hi & Hu & Hid & Hc).
    rewrite Hc, (alter_insert _ _ _ _ Hi), length_insert.
    destruct (consumers_replace r i e (refresh_entry hello request now e)) as [Hd' Hc']; try done.
    split; [done|]. split; [by rewrite Hc', Hid|]. split; [done|].
    exists (refresh_entry hello request now e). split; [|done].
    apply list_lookup_insert_eq. by eapply lookup_lt_Some.
  - rewrite (find_consumer_None r _ Hd Hf). unfold tp_consumer_registry_alloc.
    pose proof (free_entry r Hd) as Hfree. destruct (find_index _ r) as [i|].
    + destruct Hfree as (e & Hi & Hu & Hlt). rewrite (proj2 (Nat.ltb_lt _ _) Hlt).
      assert (Hlen : (i < length r)%nat) by by eapply lookup_lt_Some.
      rewrite (alter_insert _ _ _ _ (list_lookup_insert_eq r i _ Hlen)).
      rewrite list_insert_insert_eq, length_insert.
      destruct (consumers_new r i e (refresh_entry hello request now (new_entry (hv_consumer_id hello))))
        as [Hd' Hc']; try done; [by apply find_consumer_None|].
      split; [done|]. split; [exact Hc'|]. split; [done|].
      eexists. split; [by apply list_lookup_insert_eq|done].
    + by rewrite Hfree, Nat.ltb_irrefl.
Qed.

Lemma touch_refines m id now :
  distinct (cm_registry m) ->
  let '(res, m') := tp_consumer_manager_touch m id now in
  let '(spec, c') := spec_touch id now (consumers (cm_registry m)) in
  res = spec /\ distinct (cm_registry m') /\ consumers (cm_registry m') = c' /\
  length (cm_registry m') = length (cm_registry m).
Proof.
  intros Hd. unfold tp_consumer_manager_touch, spec_touch, tp_consumer_manager_find_entry.
  destruct (find_index _ _) as [i|] eqn:Hf.
  - destruct (find_consumer_Some _ _ i Hd Hf) as (e & Hi & Hu & Hid & Hc). rewrite Hc. simpl.
    rewrite (alter_insert _ _ _ _ Hi), length_insert.
    destruct (consumers_replace (cm_registry m) i e (with_last_seen now e)) as [Hd' Hc']; try done.
    split; [done|]. split; [done|]. split; [|done]. by rewrite Hc', Hid.
  - by rewrite (find_consumer_None _ _ Hd Hf).
Qed.

Lemma sweep_ids r now st w :
  (pairs (snd (fst (tp_consumer_registry_sweep r now st w)))).*1 ⊆+ (pairs r).*1.
Proof.
  revert w. induction r as [|e r IH]; intros w; [done|]. simpl.
  destruct (ce_in_use e) eqn:Hu; simpl.
  - destruct (_ <? _).
    + set (w' := tp_publication_close _ _). specialize (IH w').
      destruct (tp_consumer_registry_sweep r now st w') as [[n r'] w'']. simpl in *.
      rewrite !pairs_cons, Hu. simpl. by apply submseteq_cons.
    + specialize (IH w). destruct (tp_consumer_registry_sweep r now st w) as [[n r'] w']. simpl in *.
      rewrite !pairs_cons, Hu. simpl. by apply submseteq_skip.
  - specialize (IH w). destruct (tp_consumer_registry_sweep r now st w) as [[n r'] w']. simpl in *.
    by rewrite !pairs_cons, Hu.
Qed.

Lemma sweep_refines r now st w :
  distinct r ->
  let '(cleaned, r', _) := tp_consumer_registry_sweep r now st w in
  distinct r' /\ (cleaned, consumers r') = spec_sweep now st (consumers r) /\ length r' = length r.
Proof.
  revert w. induction r as [|e r IH]; intros w Hd; [done|]. simpl.
  unfold distinct in Hd. rewrite pairs_cons in Hd.
  destruct (ce_in_use e) eqn:Hu; simpl.
  2:{ specialize (IH w Hd). destruct (tp_consumer_registry_sweep r now st w) as [[n r'] w'].
      destruct IH as (Hd' & Hc & Hl). unfold distinct, consumers in *. rewrite !pairs_cons, Hu.
      split; [done|]. split; [done|]. simpl. by rewrite Hl. }
  apply NoDup_cons in Hd as [Hnew Hd]. change (ce_consumer_id e ∉ (pairs r).*1) in Hnew.
  assert (Hnone : consumers r !! ce_consumer_id e = None) by by apply not_elem_of_list_to_map.
  assert (Hcons : consumers (e :: r) = <[ce_consumer_id e := profile e]> (consumers r))
    by (unfold consumers; by rewrite pairs_cons, Hu).
  assert (Hsub : forall w, ce_consumer_id e ∉ (pairs (snd (fst (tp_consumer_registry_sweep r now st w)))).*1).
  { intros w0 Hin. apply Hnew. eapply elem_of_submseteq; [exact Hin|apply sweep_ids]. }
  unfold spec_sweep in *. rewrite Hcons, map_filter_insert, map_size_insert, Hnone.
  set (P := fun kv : Z * tp_consumer_entry_t => ~ stale now st (snd kv)) in *.
  pose proof (map_size_filter P (consumers r)) as Hsize.
  destruct (Z.ltb_spec st (u64 (now - ce_last_seen_ns e))) as [Hst|Hst].
  - rewrite decide_False by (unfold P, stale; simpl; tauto). rewrite delete_id by done.
    set (w' := tp_publication_close _ _). specialize (IH w' Hd).
    destruct (tp_consumer_registry_sweep r now st w') as [[n r'] w''].
    destruct IH as (Hd' & [= Hn Hc] & Hl). unfold distinct, consumers in *. rewrite !pairs_cons. simpl.
    split; [done|]. split; [|by rewrite Hl]. rewrite Hc. f_equal.
    lia.
  - rewrite decide_True by (unfold P, stale; simpl; lia).
    specialize (IH w Hd). specialize (Hsub w).
    destruct (tp_consumer_registry_sweep r now st w) as [[n r'] w'].
    destruct IH as (Hd' & [= Hn Hc] & Hl). unfold distinct, consumers in *. rewrite !pairs_cons, Hu. simpl.
    split; [by apply NoDup_cons|]. split; [|by rewrite Hl]. rewrite Hc. f_equal.
    rewrite map_size_insert_None; [lia|]. apply map_lookup_filter_None_2. by left.
Qed.

(** Replacing an entry by one with the same profile changes no consumer. *)
Lemma consumers_same r i e e' :
  r !! i = Some e -> ce_in_use e' = ce_in_use e -> ce_consumer_id e' = ce_consumer_id e ->
  profile e' = profile e -> pairs (<[i := e']> r) = pairs r.
Proof.
  intros Hi Hu Hid Hp. destruct (split_at r i e Hi) as (r1 & r2 & -> & ->).
  by rewrite !pairs_app, !pairs_cons, Hu, Hid, Hp.
Qed.

(** Entry by entry the same but for publications and the time of the last
    descriptor. *)
Lemma pairs_forall2 r r' :
  Forall2 (fun e e' => ce_in_use e' = ce_in_use e /\ ce_consumer_id e' = ce_consumer_id e /\
                       profile e' = profile e) r r' -> pairs r' = pairs r.
Proof.
  induction 1 as [|e e' r r' (Hu & Hid & Hp) _ IH]; [done|].
  by rewrite !pairs_cons, Hu, Hid, Hp, IH.
Qed.

Section Runs.
Context (A : aeron) (producer : tp_producer_t).

Lemma descriptor_loop_same drop now d r o w :
  Forall2 (fun e e' => ce_in_use e' = ce_in_use e /\ ce_consumer_id e' = ce_consumer_id e /\
                       profile e' = profile e) r (fst (fst (descriptor_loop A drop now d r o w))).
Proof.
  revert o w. induction r as [|e r IH]; intros o w; [by constructor|]. cbn [descriptor_loop].
  destruct (_ || _); [|destruct (_ && _)].
  - specialize (IH o w). destruct (descriptor_loop _ _ _ _ r o w) as [[r' o'] w']. by constructor.
  - specialize (IH o w). destruct (descriptor_loop _ _ _ _ r o w) as [[r' o'] w']. by constructor.
  - destruct (tp_producer_publish_descriptor_to _ _ _ w) as [result w1].
    specialize (IH (offered drop result o) w1).
    destruct (descriptor_loop _ _ _ _ r _ w1) as [[r' o'] w']. constructor; [|exact IH].
    by destruct (rate_limited e).
Qed.

Inductive operation :=
  | OHello (hello : tp_consumer_hello_view_t) (now_ns : Z)
  | OTouch (consumer_id now_ns : Z)
  | OSweep (now_ns stale_ns : Z)
  | OPublishDescriptor (now_ns : Z) (d : descriptor)
  | OPublishProgress (p : progress)
  | OFallbackUri (uri : ptr chars)
  | OForceNoShm (enabled : bool).

Definition manager_step (op : operation) (m : tp_consumer_manager_t) (w : media)
    : res Z * tp_consumer_manager_t * media :=
  match op with
  | OHello hello now => tp_consumer_manager_handle_hello A m hello now w
  | OTouch id now => let '(r, m) := tp_consumer_manager_touch m id now in
                     (match r with Ok _ => Ok 0 | Err e => Err e end, m, w)
  | OSweep now stale => let '(n, m, w) := tp_consumer_manager_sweep m now stale w in (Ok n, m, w)
  | OPublishDescriptor now d =>
    let '(r, m', w, _) := tp_producer_publish_descriptor A producer (Some m) now d w in
    (r, default m m', w)
  | OPublishProgress p =>
    let '(r, w) := tp_producer_publish_progress A producer (Some m) p w in (r, m, w)
  | OFallbackUri uri => (Ok 0, tp_consumer_manager_set_payload_fallback_uri m uri, w)
  | OForceNoShm enabled => (Ok 0, tp_consumer_manager_set_force_no_shm m enabled, w)
  end.

(** The result, where the specification determines it, and the consumers. *)
Definition spec_step (capacity : nat) (op : operation) (c : gmap Z tp_consumer_entry_t)
    : option (res Z) * gmap Z tp_consumer_entry_t :=
  match op with
  | OHello hello now => let '(r, c) := spec_hello capacity hello now c in
                        (match r with Ok _ => None | Err e => Some (Err e) end, c)
  | OTouch id now => let '(r, c) := spec_touch id now c in
                     (Some (match r with Ok _ => Ok 0 | Err e => Err e end), c)
  | OSweep now stale => let '(n, c) := spec_sweep now stale c in (Some (Ok n), c)
  | _ => (None, c)
  end.

Definition agrees (spec : option (res Z)) (result : res Z) : Prop :=
  match spec with Some r => result = r | None => True end.

Fixpoint manager_run (ops : list operation) (m : tp_consumer_manager_t) (w : media)
    : list (res Z) * tp_consumer_manager_t * media :=
  match ops with
  | [] => ([], m, w)
  | op :: ops' =>
    let '(r, m, w) := manager_step op m w in
    let '(rs, m, w) := manager_run ops' m w in (r :: rs, m, w)
  end.

Fixpoint spec_run (capacity : nat) (ops : list operation) (c : gmap Z tp_consumer_entry_t)
    : list (option (res Z)) * gmap Z tp_consumer_entry_t :=
  match ops with
  | [] => ([], c)
  | op :: ops' =>
    let '(r, c) := spec_step capacity op c in
    let '(rs, c) := spec_run capacity ops' c in (r :: rs, c)
  end.

(** After an update only publications change. *)
Lemma hello_registry m hello now w p :
  cm_producer m = Some p ->
  let '(result, m', _) := tp_consumer_manager_handle_hello A m hello now w in
  let '(found, r') := tp_consumer_registry_update (cm_registry m) hello now in
  cm_producer m' = Some p /\
  match found with
  | Err e => result = Err e /\ cm_registry m' = r'
  | Ok i => forall e, r' !! i = Some e ->
      exists dp cp, cm_registry m' = <[i := with_publications e dp cp]> r'
  end.
Proof.
  intros Hp. unfold tp_consumer_manager_handle_hello, tp_consumer_registry_update. rewrite Hp.
  destruct (tp_consumer_request_validate hello) as [request|e]; [|done].
  set (entry := match tp_consumer_registry_find _ _ with Some i => _ | None => _ end).
  destruct entry as [[i r']|]; [|done].
  destruct (serve _ _ _ _ _ w) as [[dp descriptor] w1].
  destruct (serve _ _ _ _ _ w1) as [[cp control] w2].
  destruct (tp_producer_send_consumer_config _ _ _ w2) as [sent w3].
  split; [exact Hp|]. intros e He. exists dp, cp. simpl. by rewrite He.
Qed.

Lemma step_refines op m w p :
  cm_producer m = Some p -> distinct (cm_registry m) ->
  let '(result, m', _) := manager_step op m w in
  let '(spec, c') := spec_step (length (cm_registry m)) op (consumers (cm_registry m)) in
  cm_producer m' = Some p /\ distinct (cm_registry m') /\ consumers (cm_registry m') = c' /\
  length (cm_registry m') = length (cm_registry m) /\ agrees spec result.
Proof.
  intros Hp Hd. destruct op as [hello now|id now|now st|now d|pr|uri|en]; cbn [manager_step spec_step];
    try done.
  - pose proof (hello_registry m hello now w p Hp) as H.
    pose proof (update_refines (cm_registry m) hello now Hd) as Hu.
    destruct (tp_consumer_manager_handle_hello A m hello now w) as [[result m'] w'].
    destruct (tp_consumer_registry_update (cm_registry m) hello now) as [found r'].
    destruct (spec_hello _ _ _ _) as [spec c']. destruct H as [Hp' H], Hu as (Hd' & Hc & Hl & Hres).
    split; [done|]. destruct found as [i|e], spec as [[]|e']; try done.
    + destruct Hres as (e & He & Hin). destruct (H e He) as (dp & cp & ->).
      unfold distinct, consumers in *. rewrite (consumers_same r' i e), length_insert by done. done.
    + subst e'. by destruct H as [-> ->].
  - pose proof (touch_refines m id now Hd) as H.
    assert (Hp' : cm_producer (snd (tp_consumer_manager_touch m id now)) = Some p)
      by (unfold tp_consumer_manager_touch; by destruct (tp_consumer_manager_find_entry _ _)).
    destruct (tp_consumer_manager_touch m id now) as [r m']. destruct (spec_touch _ _ _) as [spec c'].
    destruct H as (-> & Hd' & Hc & Hl). done.
  - pose proof (sweep_refines (cm_registry m) now st w Hd) as H. unfold tp_consumer_manager_sweep.
    destruct (tp_consumer_registry_sweep _ _ _ w) as [[n r'] w'].
    destruct H as (Hd' & Hs & Hl). rewrite <- Hs. done.
  - unfold tp_producer_publish_descriptor.
    pose proof (descriptor_loop_same (pr_drop_unconnected_descriptors producer) now d (cm_registry m)
      {| fo_failed := false; fo_published := false; fo_published_ok := false |} w) as H.
    destruct (descriptor_loop _ _ _ _ _ _ w) as [[r' o] w']. simpl in H.
    destruct (pr_descriptor_publication producer) as [pub|];
      [destruct (tp_producer_publish_descriptor_to _ _ _ w') as [result w'']|];
      destruct (negb _); simpl; unfold distinct, consumers in *;
      by rewrite (pairs_forall2 _ _ H), <- (Forall2_length _ _ _ H).
  - unfold tp_producer_publish_progress. destruct (progress_loop _ _ _ _ w) as [o w'].
    destruct (pr_control_publication producer) as [pub|];
      [destruct (tp_producer_publish_progress_to _ _ _ w') as [result w'']|]; by destruct (negb _).
Qed.

Lemma run_refines ops : forall m w p,
  cm_producer m = Some p -> distinct (cm_registry m) ->
  let '(rs, m', _) := manager_run ops m w in
  let '(specs, c) := spec_run (length (cm_registry m)) ops (consumers (cm_registry m)) in
  Forall2 agrees specs rs /\ distinct (cm_registry m') /\ consumers (cm_registry m') = c /\
  length (cm_registry m') = length (cm_registry m).
Proof.
  induction ops as [|op ops IH]; intros m w p Hp Hd; [done|]. cbn [manager_run spec_run].
  pose proof (step_refines op m w p Hp Hd) as H.
  destruct (manager_step op m w) as [[r m1] w1]. destruct (spec_step _ op _) as [spec c1].
  destruct H as (Hp1 & Hd1 & Hc1 & Hl1 & Hr). specialize (IH m1 w1 p Hp1 Hd1).
  rewrite Hc1, Hl1 in IH. destruct (manager_run ops m1 w1) as [[rs m'] w'].
  destruct (spec_run _ ops c1) as [specs c]. destruct IH as (Hrs & Hd' & Hc & Hl).
  split; [by constructor|done].
Qed.

(** C24: The manager behaves as a map of at most [capacity] consumers: after any
    operations from the start its registry holds exactly the consumers of the
    map, each once, as they last described themselves, and every result the map
    determines is the one returned. *)
Theorem manager_refines_consumers ops alloc capacity m w :
  tp_consumer_manager_init producer alloc capacity = Ok m ->
  let '(rs, m', _) := manager_run ops m w in
  let '(specs, c) := spec_run capacity ops empty in
  Forall2 agrees specs rs /\ distinct (cm_registry m') /\ consumers (cm_registry m') = c /\
  (size c <= capacity)%nat.
Proof.
  unfold tp_consumer_manager_init, tp_consumer_registry_init.
  destruct (negb (capacity =? 0)%nat); [|done]. destruct alloc; [|done]. intros [= <-].
  set (m := Build_tp_consumer_manager_t _ _ _ _ _).
  assert (Hp : pairs (cm_registry m) = []) by (simpl; induction capacity; done).
  assert (Hd : distinct (cm_registry m)) by (unfold distinct; rewrite Hp; constructor).
  pose proof (run_refines ops m w producer eq_refl Hd) as H.
  unfold consumers in H at 1. rewrite Hp in H. simpl in H. rewrite length_replicate in H.
  destruct (manager_run ops m w) as [[rs m'] w']. destruct (spec_run capacity ops _) as [specs c].
  destruct H as (Hrs & Hd' & Hc & Hl). repeat (split; [done|]).
  rewrite <- Hc, size_consumers by done. unfold pairs. rewrite length_fmap, <- Hl. apply length_filter.
Qed.
End Runs.
End Consumers.

(** ** Who owns the open publications *)

Module Ownership.
Import Registry Manager Consumers.

Definition handles (e : tp_consumer_entry_t) : list Z :=
  option_list (ce_descriptor_publication e) ++ option_list (ce_control_publication e).
Definition held (r : tp_consumer_registry_t) : list Z := r ≫= handles.

(** The open publications are those of [others] and the handles [hs], all
    different, and the numbers still to come are fresh. *)
Record owned (others : gmap Z (chars * Z)) (hs : list Z) (w : media) : Prop := {
  own_nodup : NoDup hs;
  own_apart : forall p, p ∈ hs -> others !! p = None;
  own_open : forall p, is_Some (md_open w !! p) <-> (p ∈ hs) \/ is_Some (others !! p);
  own_others : forall p x, others !! p = Some x -> md_open w !! p = Some x;
  own_fresh : forall p, is_Some (md_open w !! p) -> p < md_next w;
}.

(** An entry not in use holds nothing. *)
Definition clean (e : tp_consumer_entry_t) : Prop := ce_in_use e = false -> handles e = [].

Section Owned.
Context (A : aeron) (others : gmap Z (chars * Z)).

Lemma owned_perm hs hs' w : hs ≡ₚ hs' -> owned others hs w -> owned others hs' w.
Proof.
  intros Hp [H1 H2 H3 H4 H5]. constructor; [by rewrite <- Hp| | |done|done].
  - intros p. rewrite <- Hp. apply H2.
  - intros p. rewrite <- Hp. apply H3.
Qed.

(** Ownership only depends on the open publications and the next number. *)
Lemma owned_media hs w w' :
  md_open w' = md_open w -> md_next w' = md_next w -> owned others hs w -> owned others hs w'.
Proof. intros E1 E2 [H1 H2 H3 H4 H5]. constructor; rewrite ?E1, ?E2; done. Qed.

Lemma owned_close pub hs w :
  owned others (option_list pub ++ hs) w -> owned others hs (tp_publication_close pub w).
Proof.
  destruct pub as [p|]; [|done]. simpl. intros [H1 H2 H3 H4 H5]. apply NoDup_cons in H1 as [Hp H1].
  constructor; simpl.
  - done.
  - intros q Hq. apply H2. by right.
  - intros q. destruct (decide (q = p)) as [->|Hne].
    + rewrite lookup_delete_eq, (H2 p) by by left. split; [by intros [? ?]|]. by intros [?|[? ?]].
    + rewrite lookup_delete_ne by done. rewrite H3, elem_of_cons. tauto.
  - intros q x Hq. rewrite lookup_delete_ne; [by apply H4|]. intros <-. by rewrite H2 in Hq by by left.
  - intros q Hq. apply H5. destruct (decide (q = p)) as [->|Hne].
    + by rewrite lookup_delete_eq in Hq; destruct Hq.
    + by rewrite lookup_delete_ne in Hq.
Qed.

Lemma owned_add channel stream hs w :
  owned others hs w ->
  let '(r, w') := tp_consumer_manager_add_publication A channel stream w in
  owned others (option_list (match r with Ok p => Some p | Err _ => None end) ++ hs) w'.
Proof.
  intros H. unfold tp_consumer_manager_add_publication. destruct (_ <? _); [done|].
  destruct (ar_async_add A _ _ _) as [_|e]; [|by apply (owned_media _ w)].
  destruct (ar_added A _) as [_|e]; [|by apply (owned_media _ w)].
  destruct H as [H1 H2 H3 H4 H5]. simpl.
  assert (Hfresh : md_open w !! md_next w = None).
  { destruct (md_open w !! md_next w) eqn:E; [|done]. specialize (H5 (md_next w)). rewrite E in H5.
    specialize (H5 ltac:(eauto)). lia. }
  assert (Ho : others !! md_next w = None).
  { destruct (others !! md_next w) eqn:E; [|done]. apply H4 in E. congruence. }
  constructor; simpl.
  - apply NoDup_cons. split; [|done]. intros Hin. specialize (proj2 (H3 _) (or_introl Hin)) as [x Hx].
    congruence.
  - intros p [->|Hp]%elem_of_cons; [done|by apply H2].
  - intros p. rewrite lookup_insert_is_Some', H3, elem_of_cons. intuition congruence.
  - intros p x Hp. rewrite lookup_insert_ne; [by apply H4|]. intros <-. congruence.
  - intros p. rewrite lookup_insert_is_Some'. intros [<-|Hp]; [lia|]. specialize (H5 p Hp). lia.
Qed.

Lemma owned_offer pub msg hs w : owned others hs w -> owned others hs (snd (offer A pub msg w)).
Proof. by apply owned_media. Qed.

Lemma owned_serve requested channel stream pub hs w :
  owned others (option_list pub ++ hs) w ->
  let '(pub', _, w') := serve A requested channel stream pub w in
  owned others (option_list pub' ++ hs) w'.
Proof.
  intros H. unfold serve. destruct requested; [|by apply owned_close].
  destruct pub as [p|]; [done|]. pose proof (owned_add channel (i32 stream) hs w H) as Ha.
  by destruct (tp_consumer_manager_add_publication A channel (i32 stream) w) as [[p|e] w'].
Qed.

Lemma owned_config producer config hs w :
  owned others hs w -> owned others hs (snd (tp_producer_send_consumer_config A producer config w)).
Proof.
  intros H. unfold tp_producer_send_consumer_config.
  destruct (pr_control_publication producer) as [p|]; [|done]. destruct (ar_encode A _); [|done].
  exact (owned_offer p _ hs w H).
Qed.

Lemma held_app r1 r2 : held (r1 ++ r2) = held r1 ++ held r2.
Proof. apply bind_app. Qed.

Lemma held_insert r i e e' :
  r !! i = Some e -> exists rest, held r ≡ₚ handles e ++ rest /\ held (<[i := e']> r) ≡ₚ handles e' ++ rest.
Proof.
  intros Hi. destruct (split_at r i e Hi) as (r1 & r2 & -> & ->). exists (held r1 ++ held r2).
  rewrite !held_app. unfold held. rewrite !bind_cons. fold (held r1) (held r2).
  split; rewrite !(assoc_L (++)); f_equiv; apply Permutation_app_comm.
Qed.

Lemma owned_registry_close r hs w :
  owned others (held r ++ hs) w -> owned others hs (tp_consumer_registry_close r w).
Proof.
  revert w. induction r as [|e r IH]; intros w H; [exact H|]. apply IH.
  apply owned_close, owned_close. unfold held in *. rewrite bind_cons in H. unfold handles in H at 1.
  by rewrite <- !(assoc_L (++)) in H.
Qed.

Lemma owned_sweep r now st : forall hs w,
  owned others (held r ++ hs) w -> Forall clean r ->
  let '(_, r', w') := tp_consumer_registry_sweep r now st w in
  owned others (held r' ++ hs) w' /\ Forall clean r'.
Proof.
  induction r as [|e r IH]; intros hs w H Hc; [done|]. apply Forall_cons in Hc as [He Hc]. simpl.
  assert (Hkeep : let '(_, r', w') := tp_consumer_registry_sweep r now st w in
                  owned others (held (e :: r') ++ hs) w' /\ Forall clean (e :: r')).
  { specialize (IH (handles e ++ hs) w). destruct (tp_consumer_registry_sweep r now st w) as [[n r'] w'].
    destruct IH as [IH Hc']; [|done|].
    - eapply owned_perm; [|exact H]. unfold held. rewrite bind_cons. fold (held r).
      rewrite !(assoc_L (++)). f_equiv. apply Permutation_app_comm.
    - split; [|by constructor]. eapply owned_perm; [|exact IH]. unfold held. rewrite bind_cons.
      fold (held r'). rewrite !(assoc_L (++)). f_equiv. apply Permutation_app_comm. }
  destruct (ce_in_use e); simpl.
  2:{ by destruct (tp_consumer_registry_sweep r now st w) as [[n r'] w']. }
  destruct (_ <? _).
  2:{ by destruct (tp_consumer_registry_sweep r now st w) as [[n r'] w']. }
  set (w1 := tp_publication_close (ce_control_publication e) _).
  assert (H1 : owned others (held r ++ hs) w1).
  { apply owned_close, owned_close. unfold held in *. rewrite bind_cons in H. unfold handles in H at 1.
    by rewrite <- !(assoc_L (++)) in H. }
  specialize (IH hs w1 H1 Hc). destruct (tp_consumer_registry_sweep r now st w1) as [[n r'] w'].
  destruct IH as [IH Hc']. split; [exact IH|by constructor].
Qed.

Lemma held_forall2 r r' :
  Forall2 (fun e e' => handles e' = handles e) r r' -> held r' = held r.
Proof.
  induction 1 as [|e e' r r' He _ IH]; [done|]. unfold held in *. by rewrite !bind_cons, He, IH.
Qed.

Lemma held_replace r i e e' :
  r !! i = Some e -> handles e' = handles e -> held (<[i := e']> r) = held r.
Proof.
  intros Hi He. destruct (split_at r i e Hi) as (r1 & r2 & -> & ->).
  unfold held. by rewrite !bind_app, !bind_cons, He.
Qed.

Lemma held_update r hello now :
  Forall clean r ->
  let '(_, r') := tp_consumer_registry_update r hello now in held r' = held r /\ Forall clean r'.
Proof.
  intros Hc. unfold tp_consumer_registry_update.
  destruct (tp_consumer_request_validate hello) as [request|e]; [|done].
  assert (Hrefresh : forall r0 i, Forall clean r0 ->
    held (alter (refresh_entry hello request now) i r0) = held r0 /\
    Forall clean (alter (refresh_entry hello request now) i r0)).
  { intros r0 i H0. destruct (r0 !! i) as [e|] eqn:Hi.
    - rewrite (alter_insert _ _ _ _ Hi). split; [by apply (held_replace r0 i e)|].
      apply Forall_insert; [done|]. exact (Forall_lookup_1 _ _ _ _ H0 Hi).
    - assert (E : alter (refresh_entry hello request now) i r0 = r0); [|by rewrite E].
      apply list_eq. intros j. rewrite list_lookup_alter. by case_decide; subst; rewrite ?Hi. }
  destruct (tp_consumer_registry_find r _) as [i|]; [by apply Hrefresh|].
  unfold tp_consumer_registry_alloc. destruct (find_index _ r) as [i|] eqn:Hf; [|done].
  apply find_index_lookup in Hf as (e & Hi & He). apply negb_true_iff in He.
  pose proof (Forall_lookup_1 _ _ _ _ Hc Hi He) as Hnone.
  destruct (Hrefresh (<[i := new_entry (hv_consumer_id hello)]> r) i) as [-> Hc'].
  { apply Forall_insert; [done|]. by intros ?. }
  split; [|done]. by apply (held_replace r i e).
Qed.

Lemma update_lookup r hello now i r' :
  tp_consumer_registry_update r hello now = (Ok i, r') ->
  exists e, r' !! i = Some e /\ ce_in_use e = true.
Proof.
  unfold tp_consumer_registry_update.
  destruct (tp_consumer_request_validate hello) as [request|e]; [|done].
  assert (Halter : forall (r0 : tp_consumer_registry_t) i e, r0 !! i = Some e -> ce_in_use e = true ->
    exists e', alter (refresh_entry hello request now) i r0 !! i = Some e' /\ ce_in_use e' = true).
  { intros r0 j e Hi Hu. rewrite (alter_insert _ _ _ _ Hi). exists (refresh_entry hello request now e).
    split; [|done]. apply list_lookup_insert_eq. by eapply lookup_lt_Some. }
  destruct (tp_consumer_registry_find r _) as [j|] eqn:Hf.
  - intros [= -> <-]. apply find_consumer in Hf as (e & Hi & Hu & _). by apply (Halter r i e).
  - unfold tp_consumer_registry_alloc. destruct (find_index _ r) as [j|] eqn:Ha; [|done].
    intros [= -> <-]. apply find_index_lookup in Ha as (e & Hi & _).
    apply (Halter _ i (new_entry (hv_consumer_id hello))); [|done].
    apply list_lookup_insert_eq. by eapply lookup_lt_Some.
Qed.

Lemma publish_to_media pub msg w :
  let '(_, w') := publish_to A pub msg w in md_open w' = md_open w /\ md_next w' = md_next w.
Proof. by destruct pub. Qed.

Lemma descriptor_loop_owned drop now d r : forall o w,
  let '(r', _, w') := descriptor_loop A drop now d r o w in
  held r' = held r /\ (Forall clean r -> Forall clean r') /\
  md_open w' = md_open w /\ md_next w' = md_next w.
Proof.
  induction r as [|e r IH]; intros o w; [done|]. cbn [descriptor_loop].
  assert (Hkeep : forall e' o w, handles e' = handles e -> (clean e -> clean e') ->
    let '(r', o, w') := descriptor_loop A drop now d r o w in
    held (e' :: r') = held (e :: r) /\ (Forall clean (e :: r) -> Forall clean (e' :: r')) /\
    md_open w' = md_open w /\ md_next w' = md_next w).
  { intros e' o0 w0 He Hcl. specialize (IH o0 w0). destruct (descriptor_loop _ _ _ _ r o0 w0) as [[r' o'] w'].
    destruct IH as (Hh & Hc & Ho). unfold held in *. rewrite !bind_cons, He, Hh. split; [done|].
    split; [|done]. intros [H1 H2]%Forall_cons. constructor; auto. }
  destruct (_ || _); [|destruct (_ && _)].
  - specialize (Hkeep e o w eq_refl id). by destruct (descriptor_loop _ _ _ _ r o w) as [[r' o'] w'].
  - specialize (Hkeep e o w eq_refl id). by destruct (descriptor_loop _ _ _ _ r o w) as [[r' o'] w'].
  - set (e' := if rate_limited e then _ else e).
    pose proof (publish_to_media (ce_descriptor_publication e') (MDescriptor d) w) as Hm.
    unfold tp_producer_publish_descriptor_to. destruct (publish_to A _ _ w) as [result w1].
    specialize (Hkeep e' (offered drop result o) w1).
    destruct (descriptor_loop _ _ _ _ r _ w1) as [[r' o'] w'].
    destruct Hkeep as (H1 & H2 & H3 & H4); try by (unfold e'; destruct (rate_limited e)).
    destruct Hm as [H5 H6]. repeat (split; [done|]). split; congruence.
Qed.

Lemma progress_loop_media pr r : forall o w,
  let '(_, w') := progress_loop A pr r o w in md_open w' = md_open w /\ md_next w' = md_next w.
Proof.
  induction r as [|e r IH]; intros o w; [done|]. cbn [progress_loop]. destruct (_ || _); [apply IH|].
  pose proof (publish_to_media (ce_control_publication e) (MProgress pr) w) as Hm.
  unfold tp_producer_publish_progress_to. destruct (publish_to A _ _ w) as [result w1].
  specialize (IH (offered false result o) w1). destruct (progress_loop A pr r _ w1) as [o' w'].
  destruct IH, Hm. split; congruence.
Qed.

(** The next [serve] of the goal, with what is owned after it. *)
Tactic Notation "serve_owned" hyp(H) "as" simple_intropattern(pat) :=
  match goal with
  | |- context [serve A ?b ?c ?s ?p ?w] =>
    let Hs := fresh "Hs" in
    pose proof (owned_serve b c s p _ w H) as Hs; destruct (serve A b c s p w) as pat;
    clear H; rename Hs into H
  end.

Lemma hello_owned m hello now w p :
  cm_producer m = Some p -> Forall clean (cm_registry m) -> owned others (held (cm_registry m)) w ->
  let '(_, m', w') := tp_consumer_manager_handle_hello A m hello now w in
  cm_producer m' = Some p /\ Forall clean (cm_registry m') /\ owned others (held (cm_registry m')) w'.
Proof.
  intros Hp Hc Ho. unfold tp_consumer_manager_handle_hello. rewrite Hp.
  destruct (tp_consumer_request_validate hello) as [request|e]; [|done].
  pose proof (held_update (cm_registry m) hello now Hc) as Hu.
  pose proof (update_lookup (cm_registry m) hello now) as Hl.
  destruct (tp_consumer_registry_update (cm_registry m) hello now) as [[i|e] r].
  2:{ destruct Hu as [Hh Hc']. simpl. by rewrite Hh. }
  destruct Hu as [Hh Hc']. destruct (Hl i r eq_refl) as (entry & He & Hin). rewrite He. simpl default.
  destruct (held_insert r i entry entry He) as (rest & Hr & _). rewrite <- Hh in Ho.
  apply (owned_perm _ _ _ Hr) in Ho. unfold handles in Ho. rewrite <- (assoc_L (++)) in Ho.
  serve_owned Ho as [[dp descriptor] w1].
  apply (owned_perm _ (option_list (ce_control_publication entry) ++ option_list dp ++ rest)) in Ho;
    [|rewrite !(assoc_L (++)); f_equiv; apply Permutation_app_comm].
  serve_owned Ho as [[cp control] w2].
  cbv zeta.
  match goal with |- context [tp_producer_send_consumer_config A p ?c w2] => set (config := c) end.
  pose proof (owned_config p config _ w2 Ho) as Hf.
  destruct (tp_producer_send_consumer_config A p config w2) as [sent w3]. simpl in *.
  split; [exact Hp|]. split.
  - apply Forall_insert; [done|]. intros Hu. simpl in Hu. congruence.
  - destruct (held_insert r i entry (with_publications entry dp cp) He) as (rest' & Hr1 & Hr2).
    eapply owned_perm; [|exact Hf]. rewrite Hr2. unfold handles. simpl.
    rewrite Hr in Hr1. apply Permutation_app_inv_l in Hr1. rewrite <- Hr1.
    rewrite !(assoc_L (++)). f_equiv. apply Permutation_app_comm.
Qed.

Lemma step_owned producer op m w p :
  cm_producer m = Some p -> Forall clean (cm_registry m) -> owned others (held (cm_registry m)) w ->
  let '(_, m', w') := manager_step A producer op m w in
  cm_producer m' = Some p /\ Forall clean (cm_registry m') /\ owned others (held (cm_registry m')) w'.
Proof.
  intros Hp Hc Ho. destruct op as [hello now|id now|now st|now d|pr|uri|en]; cbn [manager_step]; try done.
  - pose proof (hello_owned m hello now w p Hp Hc Ho) as H.
    by destruct (tp_consumer_manager_handle_hello A m hello now w) as [[r m'] w'].
  - unfold tp_consumer_manager_touch, tp_consumer_manager_find_entry.
    destruct (find_index _ _) as [i|] eqn:Hf; [|done].
    apply find_consumer in Hf as (e & Hi & Hu & _). simpl. rewrite (alter_insert _ _ _ _ Hi).
    rewrite (held_replace _ i e) by done. split; [done|]. split; [|done].
    apply Forall_insert; [done|]. exact (Forall_lookup_1 _ _ _ _ Hc Hi).
  - unfold tp_consumer_manager_sweep. pose proof (owned_sweep (cm_registry m) now st [] w) as H.
    rewrite app_nil_r in H. specialize (H Ho Hc).
    destruct (tp_consumer_registry_sweep _ _ _ w) as [[n r'] w']. rewrite app_nil_r in H.
    by destruct H.
  - unfold tp_producer_publish_descriptor.
    pose proof (descriptor_loop_owned (pr_drop_unconnected_descriptors producer) now d (cm_registry m)
      {| fo_failed := false; fo_published := false; fo_published_ok := false |} w) as H.
    destruct (descriptor_loop _ _ _ _ _ _ w) as [[r' o] w']. destruct H as (Hh & Hc' & H1 & H2).
    assert (Ho' : owned others (held r') w') by (rewrite Hh; by apply (owned_media _ w)).
    destruct (pr_descriptor_publication producer) as [pub|].
    + unfold tp_producer_publish_descriptor_to.
      pose proof (publish_to_media (Some pub) (MDescriptor d) w') as Hm.
      destruct (publish_to A _ _ w') as [result w'']. destruct Hm as [H3 H4].
      apply (owned_media _ w' w'' H3 H4) in Ho'. destruct (negb _); simpl; auto.
    + destruct (negb _); simpl; auto.
  - unfold tp_producer_publish_progress.
    pose proof (progress_loop_media pr (cm_registry m)
      {| fo_failed := false; fo_published := false; fo_published_ok := false |} w) as H.
    destruct (progress_loop _ _ _ _ w) as [o w']. destruct H as [H1 H2].
    apply (owned_media _ w w' H1 H2) in Ho.
    destruct (pr_control_publication producer) as [pub|].
    + unfold tp_producer_publish_progress_to.
      pose proof (publish_to_media (Some pub) (MProgress pr) w') as Hm.
      destruct (publish_to A _ _ w') as [result w'']. destruct Hm as [H3 H4].
      apply (owned_media _ w' w'' H3 H4) in Ho. by destruct (negb _).
    + by destruct (negb _).
Qed.

Lemma run_owned producer ops : forall m w p,
  cm_producer m = Some p -> Forall clean (cm_registry m) -> owned others (held (cm_registry m)) w ->
  let '(_, m', w') := manager_run A producer ops m w in
  Forall clean (cm_registry m') /\ owned others (held (cm_registry m')) w'.
Proof.
  induction ops as [|op ops IH]; intros m w p Hp Hc Ho; [done|]. cbn [manager_run].
  pose proof (step_owned producer op m w p Hp Hc Ho) as H.
  destruct (manager_step A producer op m w) as [[r m1] w1]. destruct H as (Hp1 & Hc1 & Ho1).
  specialize (IH m1 w1 p Hp1 Hc1 Ho1). by destruct (manager_run A producer ops m1 w1) as [[rs m'] w'].
Qed.

(** A closed registry leaves exactly the publications of others. *)
Lemma owned_nil w : owned others [] w -> md_open w = others.
Proof.
  intros [_ _ H3 H4 _]. apply map_eq. intros p. destruct (others !! p) as [x|] eqn:E; [by apply H4|].
  destruct (md_open w !! p) as [x|] eqn:E'; [|done]. specialize (proj1 (H3 p)). rewrite E', E.
  intros H. destruct (H ltac:(eauto)) as [Hin|[? ?]]; [|done]. by apply not_elem_of_nil in Hin.
Qed.
End Owned.

(** Whatever the library answers, the publications that are open after any
    operations of a manager are those that were open before it and those its
    entries in use hold, each held once; closing the manager closes exactly the
    latter, so none is leaked and none is closed twice. *)
Theorem manager_owns_publications A producer ops alloc capacity m w :
  tp_consumer_manager_init producer alloc capacity = Ok m ->
  (forall p, is_Some (md_open w !! p) -> p < md_next w) ->
  let '(_, m', w') := manager_run A producer ops m w in
  owned (md_open w) (held (cm_registry m')) w' /\
  Forall clean (cm_registry m') /\
  md_open (snd (tp_consumer_manager_close m' w')) = md_open w.
Proof.
  unfold tp_consumer_manager_init, tp_consumer_registry_init.
  destruct (negb (capacity =? 0)%nat); [|done]. destruct alloc; [|done]. intros [= <-] Hfresh.
  set (m := Build_tp_consumer_manager_t _ _ _ _ _).
  assert (Hh : held (cm_registry m) = []) by (simpl; induction capacity; done).
  pose proof (run_owned A (md_open w) producer ops m w producer eq_refl) as H.
  destruct (manager_run A producer ops m w) as [[rs m'] w']. destruct H as [Hc Ho].
  - apply Forall_replicate. by intros _.
  - rewrite Hh. constructor; [constructor|..|done|done].
    + intros p Hp. by apply not_elem_of_nil in Hp.
    + intros p. rewrite elem_of_nil. tauto.
  - split; [done|]. split; [done|]. apply owned_nil, owned_registry_close. by rewrite app_nil_r.
Qed.
End Ownership.

(** ** Fan-out of descriptors *)

Module Fanout.
Import Registry Manager.

Definition due (now_ns : Z) (e : tp_consumer_entry_t) : bool :=
  ce_in_use e && negb (bool_decide (ce_descriptor_publication e = NULL)) &&
  negb (rate_limited e && too_soon e now_ns).

(** The entry after a descriptor has been offered to it, if it is due. *)
Definition stamp (now_ns : Z) (e : tp_consumer_entry_t) : tp_consumer_entry_t :=
  if due now_ns e && rate_limited e then with_last_descriptor now_ns e else e.

(** The publications of the consumers that are due, in the order of the array. *)
Definition due_publications (now_ns : Z) (r : tp_consumer_registry_t) : list Z :=
  omap (fun e => if due now_ns e then ce_descriptor_publication e else NULL) r.

(** What was sent, without the results. *)
Definition sent (w : media) : list (Z * message) := fst <$> md_sent w.

Section Aeron.
Context (A : aeron).

Lemma publish_to_sent p msg w :
  sent (snd (publish_to A (Some p) msg w)) = sent w ++ [(p, msg)].
Proof. unfold sent. simpl. by rewrite fmap_app. Qed.

Lemma publish_to_cases p msg w : exists z w', publish_to A (Some p) msg w = (Ok z, w') /\
  sent w' = sent w ++ [(p, msg)].
Proof.
  pose proof (publish_to_sent p msg w) as H. unfold publish_to in *. simpl in *. eexists _, _. split; [done|exact H].
Qed.

Lemma offered_published drop r o : fo_published (offered drop r o) = true.
Proof.
  destruct r as [z|e]; [|done]. simpl. destruct (_ && drop); [done|]. by destruct (z <? 0).
Qed.

Lemma descriptor_loop_sent drop now d r : forall o w,
  let '(r', o', w') := descriptor_loop A drop now d r o w in
  r' = stamp now <$> r /\
  sent w' = sent w ++ ((., MDescriptor d) <$> due_publications now r) /\
  (fo_published o' = fo_published o || negb (bool_decide (due_publications now r = []))).
Proof.
  induction r as [|e r IH]; intros o w; cbn [descriptor_loop].
  { simpl. rewrite app_nil_r, orb_false_r. done. }
  assert (Hskip : due now e = false ->
    let '(r', o', w') := (let '(r', o, w) := descriptor_loop A drop now d r o w in (e :: r', o, w)) in
    r' = stamp now <$> (e :: r) /\
    sent w' = sent w ++ ((., MDescriptor d) <$> due_publications now (e :: r)) /\
    (fo_published o' = fo_published o || negb (bool_decide (due_publications now (e :: r) = [])))).
  { intros Hd. specialize (IH o w). destruct (descriptor_loop A drop now d r o w) as [[r' o'] w'].
    destruct IH as (-> & Hs & Hp). unfold due_publications, stamp. simpl. rewrite Hd. done. }
  destruct (negb (ce_in_use e) || _) eqn:E1; [|destruct (rate_limited e && too_soon e now) eqn:E2].
  - apply Hskip. unfold due. apply orb_true_iff in E1 as [E1|E1]; [apply negb_true_iff in E1|];
      rewrite E1; simpl; by rewrite ?andb_false_r.
  - apply Hskip. unfold due. by rewrite E2, andb_false_r.
  - apply orb_false_iff in E1 as [Hu Hpub]. apply negb_false_iff in Hu.
    assert (Hd : due now e = true) by (unfold due; by rewrite Hu, Hpub, E2).
    apply bool_decide_eq_false in Hpub. destruct (ce_descriptor_publication e) as [p|] eqn:Ep; [|done].
    replace (ce_descriptor_publication (if rate_limited e then with_last_descriptor now e else e))
      with (Some p) by (by destruct (rate_limited e)).
    unfold tp_producer_publish_descriptor_to.
    destruct (publish_to_cases p (MDescriptor d) w) as (z & w1 & -> & Hs1).
    specialize (IH (offered drop (Ok z) o) w1).
    destruct (descriptor_loop A drop now d r _ w1) as [[r' o'] w']. destruct IH as (-> & Hs & Hp).
    unfold due_publications, stamp in *. cbn [fmap list_fmap omap list_omap]. rewrite Hd, Ep. simpl.
    split; [done|]. split; [rewrite Hs, Hs1, <- (assoc_L (++)); done|].
    rewrite Hp, offered_published. simpl. by rewrite orb_true_r.
Qed.

(** Publishing a descriptor offers it, in the order of the registry, once to
    every consumer in use that has a publication of its own and is not rate
    limited at that time, then to the shared publication; it fails exactly when
    there is nobody to offer it to, and it changes only the time stamps of the
    rate-limited consumers served. *)
Theorem descriptor_fanout producer m now d w :
  let '(result, m', w', _) := tp_producer_publish_descriptor A producer (Some m) now d w in
  let receivers := due_publications now (cm_registry m) ++
                   option_list (pr_descriptor_publication producer) in
  m' = Some (with_registry m (stamp now <$> cm_registry m)) /\
  sent w' = sent w ++ ((., MDescriptor d) <$> receivers) /\
  (result = Err EINVAL <-> receivers = []).
Proof.
  unfold tp_producer_publish_descriptor.
  set (o0 := Build_fanout _ _ _). set (drop := pr_drop_unconnected_descriptors producer).
  pose proof (descriptor_loop_sent drop now d (cm_registry m) o0 w) as H.
  destruct (descriptor_loop A drop now d (cm_registry m) o0 w) as [[r' o] w']. destruct H as (-> & Hs & Hp).
  destruct (pr_descriptor_publication producer) as [p|].
  - unfold tp_producer_publish_descriptor_to.
    destruct (publish_to_cases p (MDescriptor d) w') as (z & w1 & E & Hs1).
    rewrite E, offered_published. simpl. split; [done|]. split.
    + by rewrite Hs1, Hs, fmap_app, <- (assoc_L (++)).
    + split; [done|]. intros Hnil. by apply app_nil in Hnil as [_ ?].
  - cbn [option_list]. rewrite app_nil_r, Hp. simpl. destruct (bool_decide _) eqn:Eb; simpl.
    + apply bool_decide_eq_true in Eb. done.
    + apply bool_decide_eq_false in Eb. split; [done|]. split; [done|]. by split.
Qed.

(** ** The rate limit *)

(** A producer that publishes at the given times. *)
Fixpoint publish_all (producer : tp_producer_t) (ds : list (Z * descriptor)) (m : tp_consumer_manager_t)
    (w : media) : tp_consumer_manager_t * media :=
  match ds with
  | [] => (m, w)
  | (now, d) :: ds' =>
    let '(_, m', w', _) := tp_producer_publish_descriptor A producer (Some m) now d w in
    publish_all producer ds' (default m m') w'
  end.

(** The times at which the i-th consumer is among those a descriptor is offered to. *)
Fixpoint service_times (producer : tp_producer_t) (i : nat) (ds : list (Z * descriptor))
    (m : tp_consumer_manager_t) (w : media) : list Z :=
  match ds with
  | [] => []
  | (now, d) :: ds' =>
    let '(_, m', w', _) := tp_producer_publish_descriptor A producer (Some m) now d w in
    let later := service_times producer i ds' (default m m') w' in
    if default false (due now <$> cm_registry m !! i) then now :: later else later
  end.

(** Each time is at least [interval] after the one before; [last] is the one
    before the first, or 0. *)
Fixpoint spaced (interval last : Z) (times : list Z) : Prop :=
  match times with
  | [] => True
  | t :: times' => (last = 0 \/ last + interval <= t) /\ spaced interval t times'
  end.

(** Clock readings: positive and in order from [t]. *)
Fixpoint in_order (t : Z) (ds : list (Z * descriptor)) : Prop :=
  match ds with
  | [] => True
  | (now, _) :: ds' => t <= now /\ 0 < now < 2 ^ 64 /\ in_order now ds'
  end.

Lemma rate_limited_spaced producer i ds : forall m w e t,
  cm_registry m !! i = Some e -> rate_limited e = true ->
  0 <= ce_last_descriptor_ns e <= t -> in_order t ds ->
  spaced (rate_interval_ns e) (ce_last_descriptor_ns e) (service_times producer i ds m w).
Proof.
  induction ds as [|[now d] ds IH]; intros m w e t Hi Hr Hlast Ho; [done|].
  destruct Ho as (Hle & Hnow & Ho). cbn [service_times].
  pose proof (descriptor_fanout producer m now d w) as H.
  destruct (tp_producer_publish_descriptor A producer (Some m) now d w) as [[[result m'] w'] rec].
  destruct H as (-> & _ & _). simpl default. rewrite Hi. cbn [fmap option_fmap option_map].
  assert (Hi' : cm_registry (with_registry m (stamp now <$> cm_registry m)) !! i = Some (stamp now e))
    by (simpl; by rewrite list_lookup_fmap, Hi).
  simpl default. destruct (due now e) eqn:Hd.
  - assert (Hst : stamp now e = with_last_descriptor now e) by (unfold stamp; by rewrite Hd, Hr).
    rewrite Hst in Hi'.
    specialize (IH _ w' (with_last_descriptor now e) now Hi' Hr). cbn [ce_last_descriptor_ns with_last_descriptor entry_with] in IH.
    split; [|apply IH; [lia|done]].
    unfold due in Hd. apply andb_true_iff in Hd as [_ Hs]. rewrite Hr in Hs. simpl in Hs.
    apply negb_true_iff in Hs. unfold too_soon in Hs.
    destruct (Z.eqb_spec (ce_last_descriptor_ns e) 0) as [|Hz]; [by left|]. right. simpl in Hs.
    unfold u64 in Hs. rewrite Z.mod_small in Hs by lia.
    destruct (Z.ltb_spec 0 (rate_interval_ns e)); simpl in Hs; [|lia].
    apply Z.ltb_ge in Hs. lia.
  - assert (Hst : stamp now e = e) by (unfold stamp; by rewrite Hd). rewrite Hst in Hi'.
    apply (IH _ w' e now Hi' Hr); [lia|done].
Qed.

(** A consumer that asked for at most [max_rate_hz] descriptors per second is
    offered descriptors at least [10^9 / max_rate_hz] nanoseconds apart, however
    often the producer publishes. *)
Theorem descriptor_rate_limited producer i ds m w e t :
  cm_registry m !! i = Some e -> ce_mode e = TP_MODE_RATE_LIMITED -> 0 < ce_max_rate_hz e ->
  0 <= ce_last_descriptor_ns e <= t -> in_order t ds ->
  spaced (1000000000 / ce_max_rate_hz e) (ce_last_descriptor_ns e) (service_times producer i ds m w).
Proof.
  intros Hi Hm Hr. apply rate_limited_spaced; [done|]. unfold rate_limited.
  rewrite Hm. simpl. by apply Z.ltb_lt.
Qed.
End Aeron.
End Fanout.

(** ** Concrete runs *)

Module Examples.
Import Registry Manager Consumers Ownership Fanout.

(** A library that always agrees. *)
Definition agreeable : aeron :=
  {| ar_async_add := fun _ _ _ => Ok tt; ar_added := fun _ => Ok tt; ar_encode := fun _ => Ok tt;
     ar_offer := fun _ _ _ => 0 |}.

Definition view (s : string) : tp_string_view_t :=
  {| sv_data := Some (lit s); sv_length := length (lit s) |}.
Definition hello (id : Z) (channel : string) (stream rate : Z) : tp_consumer_hello_view_t :=
  {| hv_stream_id := 10; hv_consumer_id := id; hv_supports_shm := 1; hv_supports_progress := 1;
     hv_mode := TP_MODE_RATE_LIMITED; hv_max_rate_hz := rate;
     hv_expected_layout_version := 0; hv_progress_interval_us := 100 * id;
     hv_progress_bytes_delta := TP_NULL_U32; hv_progress_major_delta_units := TP_NULL_U32;
     hv_descriptor_stream_id := stream; hv_control_stream_id := 0;
     hv_descriptor_channel := view channel; hv_control_channel := view "" |}.

(** The producer's own publications have the numbers 1 and 2. *)
Definition shared : tp_producer_t :=
  {| pr_descriptor_publication := Some 1; pr_control_publication := Some 2;
     pr_drop_unconnected_descriptors := false |}.
Definition start_media : media :=
  {| md_tick := 0; md_next := 3; md_open := {[ 1 := (lit "aeron:ipc", 1100); 2 := (lit "aeron:ipc", 1000) ]};
     md_sent := [] |}.
Definition start : tp_consumer_manager_t :=
  match tp_consumer_manager_init shared true 2 with
  | Ok m => m
  | Err _ => {| cm_producer := NULL; cm_registry := []; cm_force_no_shm := false;
                cm_progress_policy := {| pp_interval_us := 0; pp_bytes_delta := 0;
                                         pp_major_delta_units := 0 |}; cm_payload_fallback_uri := [] |}
  end.

Definition two_hellos : list operation :=
  [OHello (hello 7 "aeron:ipc" 1200 1000) 50; OHello (hello 8 "" 0 0) 60; OTouch 8 90; OTouch 9 90;
   OHello (hello 9 "" 0 0) 95; OSweep 100 20].

(** A third consumer does not fit, an unknown one cannot be touched, and the
    sweep drops the one not heard of for more than 20 ns. *)
Lemma manager_refines_consumers_witness :
  let '(rs, m', _) := manager_run agreeable shared two_hellos start start_media in
  rs = [Ok 0; Ok 0; Ok 0; Err EINVAL; Err ENOMEM; Ok 1] /\
  (forall p, consumers (cm_registry m') !! 7 = Some p -> False) /\
  (size (consumers (cm_registry m')) <= 2)%nat.
Proof.
  pose proof (manager_refines_consumers agreeable shared two_hellos true 2 start start_media eq_refl) as H.
  destruct (manager_run agreeable shared two_hellos start start_media) as [[rs m'] w'] eqn:E.
  destruct (spec_run 2 two_hellos empty) as [specs c] eqn:Es. destruct H as (_ & _ & Hc & Hs).
  assert (Ers : rs = fst (fst (manager_run agreeable shared two_hellos start start_media)))
    by (rewrite E; reflexivity).
  assert (Ec : c = snd (spec_run 2 two_hellos empty)) by (rewrite Es; reflexivity).
  split; [rewrite Ers; vm_compute; reflexivity|]. rewrite Hc. split; [|exact Hs].
  intros p Hp. rewrite Ec in Hp. vm_compute in Hp. discriminate Hp.
Defined.

Lemma manager_owns_publications_witness :
  let '(_, m', w') := manager_run agreeable shared two_hellos start start_media in
  held (cm_registry m') = [] /\ md_next w' = 4 /\
  md_open (snd (tp_consumer_manager_close m' w')) = md_open start_media.
Proof.
  pose proof (manager_owns_publications agreeable shared two_hellos true 2 start start_media eq_refl) as H.
  assert (Hf : forall p, is_Some (md_open start_media !! p) -> p < md_next start_media).
  { intros p. simpl. rewrite lookup_insert_is_Some'. intros [<-|Hp]; [lia|].
    apply lookup_singleton_is_Some in Hp. lia. }
  specialize (H Hf).
  assert (Eh : held (cm_registry (snd (fst (manager_run agreeable shared two_hellos start start_media)))) = []
               /\ md_next (snd (manager_run agreeable shared two_hellos start start_media)) = 4)
    by (split; vm_compute; reflexivity).
  destruct (manager_run agreeable shared two_hellos start start_media) as [[rs m'] w'].
  destruct H as (_ & _ & Hclose). destruct Eh as [Eh En]. split; [exact Eh|]. split; [exact En|exact Hclose].
Defined.

(** One consumer at 1000 descriptors per second; the producer publishes every
    400000 ns. *)
Definition one_consumer : tp_consumer_manager_t * media :=
  let '(_, m, w) := manager_run agreeable shared [OHello (hello 7 "aeron:ipc" 1200 1000) 50] start start_media in
  (m, w).
Definition some_descriptor : descriptor :=
  {| fd_seq := 0; fd_timestamp_ns := 0; fd_meta_version := 0; fd_trace_id := 0 |}.
Definition publications : list (Z * descriptor) :=
  (., some_descriptor) <$> [1000; 401000; 801000; 1201000; 1601000; 2001000; 2401000].

Definition consumer_at (i : nat) : tp_consumer_entry_t :=
  default zero_entry (cm_registry (fst one_consumer) !! i).

Lemma descriptor_rate_limited_witness :
  service_times agreeable shared 0 publications (fst one_consumer) (snd one_consumer) =
    [1000; 1201000; 2401000] /\
  spaced 1000000 0 (service_times agreeable shared 0 publications (fst one_consumer) (snd one_consumer)).
Proof.
  split; [vm_compute; reflexivity|].
  apply (descriptor_rate_limited agreeable shared 0 publications (fst one_consumer) (snd one_consumer)
           (consumer_at 0) 0);
    [vm_compute; reflexivity|vm_compute; reflexivity|vm_compute; reflexivity
    |vm_compute; split; discriminate|].
  cbn -[Z.pow]. lia.
Defined.

(** A second hello with another channel is answered with that channel, but the
    publication opened for the first stays in use. *)
Example second_channel_not_opened :
  let '(rs, m, w) := manager_run agreeable shared
    [OHello (hello 7 "aeron:ipc" 1200 0) 50; OHello (hello 7 "aeron:udp" 1300 0) 60] start start_media in
  md_open w !! 3 = Some (lit "aeron:ipc", 1200) /\ md_open w !! 4 = None /\
  match last (md_sent w) with
  | Some (_, MConfig config, _) =>
      cf_descriptor_channel config = lit "aeron:udp" /\ cf_descriptor_stream_id config = 1300
  | _ => False
  end.
Proof. vm_compute. done. Qed.

(** A sweep with a clock reading from before the last hello drops the consumer. *)
Example sweep_clock_underflow :
  let '(rs, m, w) := manager_run agreeable shared
    [OHello (hello 7 "aeron:ipc" 1200 0) 50; OSweep 49 5000000000] start start_media in
  rs = [Ok 0; Ok 1].
Proof. vm_compute. done. Qed.
End Examples.
