(* ===== verification/ProgressPoller.v ===== *)
(** * ProgressPoller: partial-frame progress on the client (tp_progress_poller.c,
    tp_consumer_validate_progress of tp_consumer.c)

    The poller decodes FrameProgress messages, drops those that exceed a bound,
    go backwards or are refused by a validator, and hands the others to the
    application.  It remembers the last byte count of a frame in a tracker: one
    entry per header slot when the size of the header ring is known, a ring of
    the most recently started frames otherwise. *)

From Stdlib Require Import ZArith Lia Bool.
From stdpp Require Import list.
From S2P Require Import Prelude Sbe Tensor Seqlock Ring.

#[local] Open Scope Z_scope.
#[local] Open Scope list_scope.

Definition TP_PROGRESS_TRACKER_CAPACITY : nat := 64.
Definition TP_PROGRESS_UNKNOWN : Z := 0.
Definition progress_state_values : list Z := [0; 1; 2; 3].
Definition progress_state_null : Z := 255.
Definition wire_schema_id : Z := 900.
Definition frameProgress_template_id : Z := 11.

Record tp_frame_progress_t := {
  fp_stream_id : Z;
  fp_epoch : Z;
  fp_seq : Z;
  fp_payload_bytes_filled : Z;
  fp_state : Z;
}.

Record tp_progress_tracker_entry_t := {
  te_stream_id : Z;
  te_epoch : Z;
  te_seq : Z;
  te_last_bytes : Z;
  te_in_use : bool;
}.

Definition zero_tracker_entry : tp_progress_tracker_entry_t :=
  {| te_stream_id := 0; te_epoch := 0; te_seq := 0; te_last_bytes := 0; te_in_use := false |}.

(** [tracker_capacity] is the length of the tracker, 0 when it is NULL; of the
    callbacks only their presence is kept. *)
Record tp_progress_poller_t := {
  pl_on_progress : bool;
  pl_tracker : ptr (list tp_progress_tracker_entry_t);
  pl_tracker_cursor : nat;
  pl_header_nslots : Z;
  pl_max_payload_bytes : Z;
  pl_validator : bool;
}.

Definition tracker_capacity (p : tp_progress_poller_t) : nat :=
  match pl_tracker p with NULL => 0%nat | Some t => length t end.

Definition with_tracker (p : tp_progress_poller_t) (t : ptr (list tp_progress_tracker_entry_t))
    (cursor : nat) : tp_progress_poller_t :=
  {| pl_on_progress := pl_on_progress p; pl_tracker := t; pl_tracker_cursor := cursor;
     pl_header_nslots := pl_header_nslots p; pl_max_payload_bytes := pl_max_payload_bytes p;
     pl_validator := pl_validator p |}.

Definition with_nslots (p : tp_progress_poller_t) (nslots : Z) : tp_progress_poller_t :=
  {| pl_on_progress := pl_on_progress p; pl_tracker := pl_tracker p;
     pl_tracker_cursor := pl_tracker_cursor p; pl_header_nslots := nslots;
     pl_max_payload_bytes := pl_max_payload_bytes p; pl_validator := pl_validator p |}.

(** [alloc]: [calloc] succeeds. *)
Definition tp_progress_poller_resize (alloc : bool) (capacity : nat) (p : tp_progress_poller_t)
    : res unit * tp_progress_poller_t :=
  if (capacity =? 0)%nat then (Err EINVAL, p)
  else if (capacity <=? tracker_capacity p)%nat then (Ok tt, p)
  else if negb alloc then (Err ENOMEM, p)
  else
    let old := default [] (pl_tracker p) in
    (Ok tt, with_tracker p (Some (old ++ replicate (capacity - length old) zero_tracker_entry))
              (if (capacity <=? pl_tracker_cursor p)%nat then 0%nat else pl_tracker_cursor p)).

Definition same_frame (v : tp_frame_progress_t) (e : tp_progress_tracker_entry_t) : bool :=
  te_in_use e && (te_seq e =? fp_seq v) && (te_stream_id e =? fp_stream_id v) &&
  (te_epoch e =? fp_epoch v).

Definition tracker_entry_of (v : tp_frame_progress_t) : tp_progress_tracker_entry_t :=
  {| te_stream_id := fp_stream_id v; te_epoch := fp_epoch v; te_seq := fp_seq v;
     te_last_bytes := fp_payload_bytes_filled v; te_in_use := true |}.

Definition set_last_bytes (bytes : Z) (e : tp_progress_tracker_entry_t) : tp_progress_tracker_entry_t :=
  {| te_stream_id := te_stream_id e; te_epoch := te_epoch e; te_seq := te_seq e;
     te_last_bytes := bytes; te_in_use := te_in_use e |}.

Section Poller.
(** What the validator, when there is one, answers about this message. *)
Context (answer : tp_frame_progress_t -> Z).

Definition validated (p : tp_progress_poller_t) (v : tp_frame_progress_t) : bool :=
  negb (pl_validator p) || (answer v =? 0).

(** Whether the message is accepted, and the poller afterwards. *)
Definition tp_progress_poller_validate (alloc : bool) (p : tp_progress_poller_t)
    (v : tp_frame_progress_t) : bool * tp_progress_poller_t :=
  if (0 <? pl_max_payload_bytes p) && (pl_max_payload_bytes p <? fp_payload_bytes_filled v)
  then (false, p)
  else
    let nslots := Z.to_nat (pl_header_nslots p) in
    let '(resized, p) :=
      if (0 <? pl_header_nslots p) && (tracker_capacity p <? nslots)%nat
      then tp_progress_poller_resize alloc nslots p else (Ok tt, p) in
    match resized, pl_tracker p with
    | Err _, _ | _, NULL => (false, p)
    | Ok _, Some t =>
      if (length t =? 0)%nat then (false, p)
      else if 0 <? pl_header_nslots p then
        if (length t <? nslots)%nat then (false, p)
        else
          let index := Z.to_nat (Z.land (fp_seq v) (pl_header_nslots p - 1)) in
          match t !! index with
          | None => (false, p)   (* not within the tracker *)
          | Some entry =>
            if same_frame v entry then
              if fp_payload_bytes_filled v <? te_last_bytes entry then (false, p)
              else if negb (validated p v) then (false, p)
              else (true, with_tracker p
                     (Some (<[index := set_last_bytes (fp_payload_bytes_filled v) entry]> t))
                     (pl_tracker_cursor p))
            else if negb (validated p v) then (false, p)
            else (true, with_tracker p (Some (<[index := tracker_entry_of v]> t)) (pl_tracker_cursor p))
          end
      else
        match find_index (same_frame v) t with
        | Some i =>
          if fp_payload_bytes_filled v <? default 0 (te_last_bytes <$> t !! i) then (false, p)
          else if negb (validated p v) then (false, p)
          else (true, with_tracker p
                 (Some (alter (set_last_bytes (fp_payload_bytes_filled v)) i t))
                 (pl_tracker_cursor p))
        | None =>
          if negb (validated p v) then (false, p)
          else (true, with_tracker p (Some (<[pl_tracker_cursor p := tracker_entry_of v]> t))
                        ((pl_tracker_cursor p + 1) mod length t)%nat)
        end
    end.
End Poller.

Section Messages.
Context `{Sbe}.

(** FrameProgress from byte 8: streamId 0, epoch 4, seq 12, payloadBytesFilled
    20, state 28. *)
Definition decode_progress (b : bytes) : tp_frame_progress_t :=
  let hdr := messageHeader_encoded_length in
  {| fp_stream_id := sbe_get 4 b (hdr + 0); fp_epoch := sbe_get 8 b (hdr + 4);
     fp_seq := sbe_get 8 b (hdr + 12); fp_payload_bytes_filled := sbe_get 8 b (hdr + 20);
     fp_state := match sbe_enum progress_state_values progress_state_null (sbe_get 1 b (hdr + 28)) with
                 | Some state => state
                 | None => TP_PROGRESS_UNKNOWN
                 end |}.

(** The message handed to the application, if any. *)
Definition tp_progress_poller_handler (answer : tp_frame_progress_t -> Z) (alloc : bool)
    (p : tp_progress_poller_t) (buffer : ptr bytes) (length : Z)
    : option tp_frame_progress_t * tp_progress_poller_t :=
  match buffer with
  | NULL => (None, p)
  | Some b =>
    if length <? messageHeader_encoded_length then (None, p)
    else if negb (messageHeader_schemaId b =? wire_schema_id) ||
            negb (messageHeader_templateId b =? frameProgress_template_id) then (None, p)
    else
      let view := decode_progress b in
      let '(accepted, p) := tp_progress_poller_validate answer alloc p view in
      (if accepted && pl_on_progress p then Some view else None, p)
  end.

(** [tp_consumer_validate_progress] from the load of the commit word on. *)
Definition progress_program (pools : list tp_payload_pool_t) (v : tp_frame_progress_t) : rprog (option Z) :=
  RLoad (fun seq_commit_begin =>
    if negb (tp_seq_is_committed seq_commit_begin) then RRet (Some 1)
    else if negb (tp_seq_value seq_commit_begin =? fp_seq v) then RRet (Some (-1))
    else
      read! decoded_slot := slot_reads TP_HEADER_SLOT_BYTES in
      match decoded_slot with
      | Err _ => RRet (Some (-1))
      | Ok sv =>
        RLoad (fun seq_commit_end =>
          if negb (seq_commit_end =? seq_commit_begin) || negb (tp_seq_is_committed seq_commit_end)
          then RRet (Some 1)
          else if negb (sv_seq_commit sv =? seq_commit_end) then RRet (Some 1)
          else if negb (tp_seq_is_committed (sv_seq_commit sv)) then RRet (Some 1)
          else if negb (tp_seq_value (sv_seq_commit sv) =? fp_seq v) then RRet (Some (-1))
          else if negb (tp_seq_value seq_commit_end =? fp_seq v) then RRet (Some (-1))
          else
            match tp_find_pool pools (sv_pool_id sv) with
            | None => RRet (Some (-1))
            | Some pool =>
              if pool_stride_bytes pool <? sv_values_len_bytes sv then RRet (Some (-1))
              else if sv_values_len_bytes sv <? fp_payload_bytes_filled v then RRet (Some (-1))
              else if negb (sv_header_bytes_length sv =? tensor_header_len) then RRet (Some (-1))
              else
                read! decoded := rshift slot_header_bytes tensor_header_reads in
                match decoded with
                | Err _ => RRet (Some (-1))
                | Ok tensor =>
                  match tp_tensor_header_validate (Some tensor) with
                  | None => RRet None
                  | Some (_, Ok _) => RRet (Some 0)
                  | Some (_, Err _) => RRet (Some (-1))
                  end
                end
            end)
      end).

(** Its guards; [None] of the program is undefined behaviour in the tensor check. *)
Definition tp_consumer_validate_progress (stream_id epoch : Z) (c : consumer_t)
    (v : tp_frame_progress_t) : Z + (Z * rprog (option Z)) :=
  if negb (co_shm_mapped c) then inl 1
  else if co_header_nslots c =? 0 then inl (-1)
  else if negb (fp_stream_id v =? stream_id) then inl 1
  else if negb (fp_epoch v =? epoch) then inl 1
  else
    let header_index := u32 (Z.land (fp_seq v) (co_header_nslots c - 1)) in
    if co_header_nslots c <=? header_index then inl (-1)
    else inr (tp_slot_at header_index, progress_program (co_pools c) v).
End Messages.

(** [tp_progress_poller_init] and [tp_progress_poller_init_with_subscription]
    when the subscription is there; [calloc] and [assembler] succeed or not. *)
Definition tp_progress_poller_init (calloc assembler on_progress : bool) : res tp_progress_poller_t :=
  guard! calloc else ENOMEM in
  guard! assembler else EINVAL in
  Ok {| pl_on_progress := on_progress;
        pl_tracker := Some (replicate TP_PROGRESS_TRACKER_CAPACITY zero_tracker_entry);
        pl_tracker_cursor := 0; pl_header_nslots := 0; pl_max_payload_bytes := 0;
        pl_validator := false |}.

Definition tp_progress_poller_set_max_payload_bytes (max : Z) (p : tp_progress_poller_t)
    : tp_progress_poller_t :=
  {| pl_on_progress := pl_on_progress p; pl_tracker := pl_tracker p;
     pl_tracker_cursor := pl_tracker_cursor p; pl_header_nslots := pl_header_nslots p;
     pl_max_payload_bytes := max; pl_validator := pl_validator p |}.

Definition tp_progress_poller_set_validator (validator : bool) (p : tp_progress_poller_t)
    : tp_progress_poller_t :=
  {| pl_on_progress := pl_on_progress p; pl_tracker := pl_tracker p;
     pl_tracker_cursor := pl_tracker_cursor p; pl_header_nslots := pl_header_nslots p;
     pl_max_payload_bytes := pl_max_payload_bytes p; pl_validator := validator |}.

(** With the number of header slots of the consumer, NULL without a consumer. *)
Definition tp_progress_poller_set_consumer (alloc : bool) (consumer_nslots : ptr Z)
    (p : tp_progress_poller_t) : tp_progress_poller_t :=
  let p := tp_progress_poller_set_validator true p in
  match consumer_nslots with
  | Some nslots =>
    if 0 <? nslots then
      let '(r, p) := tp_progress_poller_resize alloc (Z.to_nat nslots) (with_nslots p nslots) in
      match r with
      | Ok _ => p
      | Err _ => with_nslots (with_tracker p NULL 0) 0
      end
    else with_nslots p 0
  | NULL => with_nslots p 0
  end.

(** ** One entry per header slot *)

Module BySlot.

(** The messages of a run, with the validator's answer to each. *)
Fixpoint run (msgs : list (tp_frame_progress_t * Z)) (p : tp_progress_poller_t)
    : list bool * tp_progress_poller_t :=
  match msgs with
  | [] => ([], p)
  | (v, answer) :: msgs' =>
    let '(accepted, p) := tp_progress_poller_validate (fun _ => answer) true p v in
    let '(rest, p) := run msgs' p in (accepted :: rest, p)
  end.

Section Spec.
Context (nslots max : Z) (validator : bool).

Definition slot_of (v : tp_frame_progress_t) : Z := Z.land (fp_seq v) (nslots - 1).
Definition same_key (u v : tp_frame_progress_t) : bool :=
  (fp_seq u =? fp_seq v) && (fp_stream_id u =? fp_stream_id v) && (fp_epoch u =? fp_epoch v).

(** The last accepted message of the slot; the history has the newest first. *)
Definition last_in_slot (i : Z) (history : list tp_frame_progress_t) : option tp_frame_progress_t :=
  head (filter (fun u => slot_of u = i) history).

Definition acceptable (history : list tp_frame_progress_t) (v : tp_frame_progress_t) (answer : Z) : bool :=
  ((max <=? 0) || (fp_payload_bytes_filled v <=? max)) &&
  match last_in_slot (slot_of v) history with
  | Some u => negb (same_key u v) || (fp_payload_bytes_filled u <=? fp_payload_bytes_filled v)
  | None => true
  end &&
  (negb validator || (answer =? 0)).

Fixpoint accepted_of (msgs : list (tp_frame_progress_t * Z)) (history : list tp_frame_progress_t) : list bool :=
  match msgs with
  | [] => []
  | (v, answer) :: msgs' =>
    let ok := acceptable history v answer in
    ok :: accepted_of msgs' (if ok then v :: history else history)
  end.

(** The tracker remembers the last accepted message of every slot. *)
Definition remembers (history : list tp_frame_progress_t) (t : list tp_progress_tracker_entry_t) : Prop :=
  nslots <= Z.of_nat (length t) /\
  forall i, 0 <= i < nslots -> exists e, t !! Z.to_nat i = Some e /\
    match last_in_slot i history with Some u => e = tracker_entry_of u | None => te_in_use e = false end.

Lemma slot_of_range v : 0 < nslots -> 0 <= fp_seq v -> 0 <= slot_of v < nslots.
Proof.
  intros Hn Hv. by apply land_mask_lt.
Qed.

Lemma remembers_insert history t v :
  0 < nslots -> 0 <= fp_seq v -> remembers history t ->
  remembers (v :: history) (<[Z.to_nat (slot_of v) := tracker_entry_of v]> t).
Proof.
  intros Hn Hv [Hlen H]. pose proof (slot_of_range v Hn Hv) as Hr.
  split; [by rewrite length_insert|]. intros i Hi.
  unfold last_in_slot. rewrite filter_cons. destruct (decide (slot_of v = i)) as [<-|Hne].
  - exists (tracker_entry_of v). split; [|done]. apply list_lookup_insert_eq. lia.
  - destruct (H i Hi) as (e & He & Hm). exists e. split; [|exact Hm].
    rewrite list_lookup_insert_ne; [done|]. lia.
Qed.

Lemma same_frame_entry u v : same_frame v (tracker_entry_of u) = same_key u v.
Proof. done. Qed.

Lemma set_last_bytes_entry u v :
  same_key u v = true -> set_last_bytes (fp_payload_bytes_filled v) (tracker_entry_of u) = tracker_entry_of v.
Proof.
  unfold same_key. intros H. bool_simp. unfold set_last_bytes, tracker_entry_of. simpl. f_equal; lia.
Qed.

Lemma slot_validate_step history t cursor on v answer :
  0 < nslots -> 0 <= fp_seq v -> remembers history t ->
  let p := {| pl_on_progress := on; pl_tracker := Some t; pl_tracker_cursor := cursor;
              pl_header_nslots := nslots; pl_max_payload_bytes := max; pl_validator := validator |} in
  let ok := acceptable history v answer in
  exists t', remembers (if ok then v :: history else history) t' /\
    tp_progress_poller_validate (fun _ => answer) true p v = (ok, with_tracker p (Some t') cursor).
Proof.
  intros Hn Hv Hrem p ok. pose proof (slot_of_range v Hn Hv) as Hr.
  destruct (Hrem) as [Hlen Hslots]. destruct (Hslots _ Hr) as (e & He & Hm).
  unfold tp_progress_poller_validate. subst p. cbn [pl_max_payload_bytes pl_header_nslots pl_tracker pl_tracker_cursor].
  unfold ok, acceptable.
  destruct (Z.ltb_spec 0 max) as [Hmax|Hmax], (Z.ltb_spec max (fp_payload_bytes_filled v)) as [Hb|Hb];
    simpl andb; cbv iota.
  { exists t. rewrite (proj2 (Z.leb_gt max 0)), (proj2 (Z.leb_gt _ max)) by lia. done. }
  all: replace ((max <=? 0) || (fp_payload_bytes_filled v <=? max)) with true
    by (symmetry; apply orb_true_iff; rewrite !Z.leb_le; lia).
  all: rewrite (proj2 (Z.ltb_lt 0 nslots) Hn); cbn [tracker_capacity pl_tracker];
    rewrite (proj2 (Nat.ltb_ge (length t) (Z.to_nat nslots))) by lia; cbn [andb];
    cbn [pl_tracker pl_header_nslots pl_tracker_cursor pl_validator validated];
    rewrite (proj2 (Nat.eqb_neq (length t) 0)) by lia; rewrite (proj2 (Z.ltb_lt 0 nslots) Hn);
    rewrite (proj2 (Nat.ltb_ge (length t) (Z.to_nat nslots))) by lia;
    fold (slot_of v); rewrite He; unfold validated; cbn [pl_validator];
    destruct (negb validator || (answer =? 0)); rewrite ?andb_false_r, ?andb_true_r.
  all: destruct (last_in_slot (slot_of v) history) as [u|];
    [subst e; rewrite same_frame_entry; destruct (same_key u v) eqn:Ek; cbn [negb orb];
     [rewrite ?Z.leb_antisym; cbn [te_last_bytes tracker_entry_of];
      destruct (fp_payload_bytes_filled v <? fp_payload_bytes_filled u) eqn:Eb; cbn [negb]|]
    |replace (same_frame v e) with false by (unfold same_frame; by rewrite Hm)];
    cbn [negb]; try (exists t; done);
    rewrite ?set_last_bytes_entry by done; eexists; (split; [by apply remembers_insert|done]).
Qed.

(** With the size of the header ring known, the poller accepts a message
    exactly when it is within the bound, the validator agrees, and the last
    message accepted for the same header slot is not one of the same frame with
    more bytes; so the bytes of a frame never go backwards while it keeps its
    slot. *)
Theorem progress_accept_iff msgs on cursor t history :
  0 < nslots -> Forall (fun m => 0 <= fp_seq (fst m)) msgs -> remembers history t ->
  fst (run msgs {| pl_on_progress := on; pl_tracker := Some t; pl_tracker_cursor := cursor;
                   pl_header_nslots := nslots; pl_max_payload_bytes := max;
                   pl_validator := validator |}) = accepted_of msgs history.
Proof.
  intros Hn Hm. revert t history. induction Hm as [|[v answer] msgs Hv _ IH]; intros t history Hrem; [done|].
  cbn [run accepted_of].
  destruct (slot_validate_step history t cursor on v answer Hn Hv Hrem) as (t' & Hrem' & ->).
  specialize (IH t' _ Hrem'). unfold with_tracker. cbn [pl_on_progress pl_header_nslots pl_max_payload_bytes pl_validator].
  destruct (run msgs _) as [rest p']. simpl in *. by rewrite IH.
Qed.
End Spec.

(** A fresh tracker remembers nothing. *)
Lemma remembers_fresh nslots n :
  nslots <= Z.of_nat n -> remembers nslots [] (replicate n zero_tracker_entry).
Proof.
  intros H. split; [by rewrite length_replicate|]. intros i Hi. exists zero_tracker_entry.
  split; [|done]. apply lookup_replicate_2. lia.
Qed.
End BySlot.

(** ** A ring of recent frames *)

Module Recent.

Abbreviation used := (fun e => te_in_use e = true).
Abbreviation unused := (fun e => te_in_use e = false).
Definition key (e : tp_progress_tracker_entry_t) : Z * Z * Z := (te_stream_id e, te_epoch e, te_seq e).

Definition regresses (v : tp_frame_progress_t) (e : tp_progress_tracker_entry_t) : bool :=
  same_frame v e && (fp_payload_bytes_filled v <? te_last_bytes e).
Definition refresh (v : tp_frame_progress_t) (e : tp_progress_tracker_entry_t)
    : tp_progress_tracker_entry_t :=
  if same_frame v e then set_last_bytes (fp_payload_bytes_filled v) e else e.

(** The specification: the last [cap] frames that were started, oldest first. *)
Definition spec_step (cap : nat) (max : Z) (validator : bool) (v : tp_frame_progress_t) (answer : Z)
    (recent : list tp_progress_tracker_entry_t) : bool * list tp_progress_tracker_entry_t :=
  if (0 <? max) && (max <? fp_payload_bytes_filled v) then (false, recent)
  else if existsb (regresses v) recent then (false, recent)
  else if validator && negb (answer =? 0) then (false, recent)
  else if existsb (same_frame v) recent then (true, refresh v <$> recent)
  else (true, (if (length recent =? cap)%nat then tail recent else recent) ++ [tracker_entry_of v]).

(** The tracker, read from the cursor on: unused entries, then the frames. *)
Record holds (t : list tp_progress_tracker_entry_t) (cursor : nat)
    (recent : list tp_progress_tracker_entry_t) : Prop := {
  hd_cursor : (cursor < length t)%nat;
  hd_order : exists free, drop cursor t ++ take cursor t = free ++ recent /\ Forall unused free;
  hd_used : Forall used recent;
  hd_keys : NoDup (key <$> recent);
}.

Lemma same_frame_key v e : same_frame v e = true ->
  te_in_use e = true /\ key e = (fp_stream_id v, fp_epoch v, fp_seq v).
Proof. unfold same_frame, key. intros H. bool_simp. split; [done|]. repeat f_equal; lia. Qed.

Lemma unused_other v e : te_in_use e = false -> same_frame v e = false.
Proof. intros H. unfold same_frame. by rewrite H. Qed.

Lemma existsb_perm {B} (f : B -> bool) l l' : l ≡ₚ l' -> existsb f l = existsb f l'.
Proof.
  induction 1 as [|x l l' _ IH|x y l|l l' l'' _ IH1 _ IH2]; simpl; [done|by rewrite IH| |congruence].
  by destruct (f x), (f y).
Qed.

Lemma existsb_free f (free recent : list tp_progress_tracker_entry_t) :
  (forall e, te_in_use e = false -> f e = false) -> Forall unused free ->
  existsb f (free ++ recent) = existsb f recent.
Proof. intros Hf. induction 1 as [|e free He _ IH]; [done|]. simpl. by rewrite Hf. Qed.

(** A question about entries in use has the same answer for the tracker. *)
Lemma existsb_tracker f t cursor recent :
  (forall e, te_in_use e = false -> f e = false) -> holds t cursor recent ->
  existsb f t = existsb f recent.
Proof.
  intros Hf [_ (free & Ho & Hfree) _ _]. rewrite <- (existsb_free f free recent Hf Hfree), <- Ho.
  apply existsb_perm. rewrite <- (take_drop cursor t) at 1. apply Permutation_app_comm.
Qed.

Lemma filter_free l : Forall unused l -> filter used l = [].
Proof. induction 1 as [|e l He _ IH]; [done|]. rewrite filter_cons_False; [done|]. congruence. Qed.

Lemma filter_used l : Forall used l -> filter used l = l.
Proof. induction 1 as [|e l He _ IH]; [done|]. rewrite filter_cons_True by done. by rewrite IH. Qed.

(** The entry found is the only one of its frame. *)
Lemma found_unique t cursor recent v i e :
  holds t cursor recent -> find_index (same_frame v) t = Some i -> t !! i = Some e ->
  existsb (regresses v) t = (fp_payload_bytes_filled v <? te_last_bytes e) /\
  alter (set_last_bytes (fp_payload_bytes_filled v)) i t = refresh v <$> t.
Proof.
  intros [_ (free & Ho & Hfree) Hu Hk] Hf He.
  assert (Hsame : same_frame v e = true)
    by (apply find_index_lookup in Hf as (e' & He' & ?); congruence).
  assert (Hp : t ≡ₚ free ++ recent).
  { rewrite <- Ho. rewrite <- (take_drop cursor t) at 1. apply Permutation_app_comm. }
  assert (Hothers : forall r1 r2, t = r1 ++ e :: r2 -> Forall (fun e' => same_frame v e' = false) (r1 ++ r2)).
  { intros r1 r2 ->. rewrite Forall_forall. intros e' He''. apply not_true_is_false. intros Hs.
    apply same_frame_key in Hs as [Hu' Hk']. apply same_frame_key in Hsame as [Hu0 Hk0].
    assert (Hp' : filter used (r1 ++ e :: r2) ≡ₚ recent).
    { by rewrite Hp, filter_app, (filter_free free Hfree), (filter_used recent Hu). }
    rewrite <- Hp' in Hk. rewrite <- Permutation_middle, filter_cons_True in Hk by done.
    rewrite fmap_cons, Hk0, <- Hk' in Hk. apply NoDup_cons in Hk as [Hnot _]. apply Hnot.
    apply list_elem_of_fmap. exists e'. split; [done|]. by apply list_elem_of_filter. }
  pose proof (take_drop_middle t i e He) as Ht. symmetry in Ht.
  specialize (Hothers _ _ Ht). apply Forall_app in Hothers as [H1 H2].
  assert (Hno : forall l, Forall (fun e' => same_frame v e' = false) l ->
    existsb (regresses v) l = false /\ refresh v <$> l = l).
  { induction 1 as [|x l Hx _ [IH1 IH2]]; [done|]. split.
    - simpl. unfold regresses at 1. by rewrite Hx.
    - rewrite fmap_cons, IH2. unfold refresh. by rewrite Hx. }
  destruct (Hno _ H1) as [E1 F1], (Hno _ H2) as [E2 F2]. split.
  - rewrite Ht, existsb_app, E1. simpl. rewrite E2, orb_false_r. unfold regresses. by rewrite Hsame.
  - rewrite Ht at 2. rewrite fmap_app, F1. cbn [fmap list_fmap]. rewrite F2.
    unfold refresh at 1. rewrite Hsame. 
    rewrite Ht at 1. assert (Hl : length (take i t) = i)
      by (rewrite length_take_le; [done|]; apply Nat.lt_le_incl; by eapply lookup_lt_Some).
    rewrite <- Hl at 1. rewrite <- (Nat.add_0_r (length (take i t))), alter_app_r. done.
Qed.

Lemma refresh_free v l : Forall unused l -> refresh v <$> l = l.
Proof.
  induction 1 as [|e l He _ IH]; [done|]. rewrite fmap_cons, IH. unfold refresh.
  by rewrite unused_other.
Qed.

Lemma holds_refresh v t cursor recent :
  holds t cursor recent -> holds (refresh v <$> t) cursor (refresh v <$> recent).
Proof.
  intros [Hc (free & Ho & Hfree) Hu Hk]. constructor.
  - by rewrite length_fmap.
  - exists free. rewrite <- fmap_drop, <- fmap_take, <- fmap_app, Ho, fmap_app.
    by rewrite (refresh_free v free).
  - apply Forall_fmap. eapply Forall_impl; [exact Hu|]. intros e He. unfold refresh. simpl.
    by destruct (same_frame v e).
  - rewrite <- list_fmap_compose. rewrite (list_fmap_ext _ key); [done|].
    intros i e _. unfold refresh, compose. by destruct (same_frame v e).
Qed.

Lemma rotate_push t cursor (e : tp_progress_tracker_entry_t) :
  (cursor < length t)%nat ->
  let t' := <[cursor := e]> t in
  let cursor' := ((cursor + 1) mod length t)%nat in
  drop cursor' t' ++ take cursor' t' = (drop (S cursor) t ++ take cursor t) ++ [e].
Proof.
  intros Hc t' cursor'.
  assert (Ht : t' = (take cursor t ++ [e]) ++ drop (S cursor) t)
    by (unfold t'; rewrite insert_take_drop by done; by rewrite <- (assoc_L (++))).
  assert (Hlen : length (take cursor t ++ [e]) = S cursor)
    by (rewrite length_app, length_take_le by lia; simpl; lia).
  unfold cursor'. destruct (decide (S cursor = length t)) as [Heq|Hne].
  - replace ((cursor + 1) mod length t)%nat with 0%nat
      by (rewrite Nat.add_1_r, Heq; symmetry; apply Nat.Div0.mod_same).
    rewrite Ht, Heq, (drop_ge t (length t)), app_nil_r by done. by rewrite drop_0, app_nil_r.
  - rewrite Nat.mod_small by lia. rewrite Nat.add_1_r, Ht, <- Hlen, drop_app_length, take_app_length.
    rewrite Hlen. by rewrite (assoc_L (++)).
Qed.

Lemma holds_push v t cursor recent :
  holds t cursor recent -> existsb (same_frame v) recent = false ->
  holds (<[cursor := tracker_entry_of v]> t) ((cursor + 1) mod length t)
    ((if (length recent =? length t)%nat then tail recent else recent) ++ [tracker_entry_of v]).
Proof.
  intros [Hc (free & Ho & Hfree) Hu Hk] Hno.
  assert (Hlen : (length t = length free + length recent)%nat).
  { rewrite <- length_app, <- Ho, length_app, length_drop, length_take. lia. }
  assert (Hhead : exists e0, drop cursor t = e0 :: drop (S cursor) t).
  { destruct (lookup_lt_is_Some_2 t cursor Hc) as [e0 He0]. exists e0. by apply drop_S. }
  destruct Hhead as [e0 Hd]. rewrite Hd in Ho.
  assert (Hrot := rotate_push t cursor (tracker_entry_of v) Hc). simpl in Hrot.
  assert (Hkeys : forall l, Forall used l -> NoDup (key <$> l) -> existsb (same_frame v) l = false ->
    Forall used (l ++ [tracker_entry_of v]) /\ NoDup (key <$> l ++ [tracker_entry_of v])).
  { intros l H1 H2 H3. split; [apply Forall_app; split; [done|by repeat constructor]|].
    rewrite fmap_app. apply NoDup_app. split; [done|]. split; [|apply NoDup_singleton].
    intros k (e & -> & He)%list_elem_of_fmap Hin. apply list_elem_of_singleton in Hin.
    rewrite Forall_forall in H1. specialize (H1 e He).
    assert (Hs : same_frame v e = true).
    { unfold key in Hin. injection Hin as E1 E2 E3. simpl in *. unfold same_frame.
      by rewrite H1, E1, E2, E3, !Z.eqb_refl. }
    assert (existsb (same_frame v) l = true) by (apply existsb_exists; exists e; split; [by apply list_elem_of_In|done]).
    congruence. }
  destruct free as [|f free].
  - destruct recent as [|e1 rest]; [simpl in Hlen; lia|]. simpl in Ho. injection Ho as -> Hrest.
    simpl in Hlen. rewrite Hlen. simpl length. rewrite Nat.eqb_refl. cbn [tail]. rewrite <- Hlen.
    apply Forall_cons in Hu as [_ Hu]. rewrite fmap_cons in Hk. apply NoDup_cons in Hk as [_ Hk].
    simpl in Hno. apply orb_false_iff in Hno as [_ Hno].
    destruct (Hkeys rest Hu Hk Hno) as [H1 H2]. constructor; [|exists []|done|done].
    + rewrite length_insert. apply Nat.mod_upper_bound. lia.
    + split; [|done]. by rewrite Hrot, Hrest.
  - apply Forall_cons in Hfree as [_ Hfree]. simpl in Ho. injection Ho as -> Hrest.
    rewrite (proj2 (Nat.eqb_neq _ _)) by (simpl in Hlen; lia).
    destruct (Hkeys recent Hu Hk Hno) as [H1 H2]. constructor; [|exists free|done|done].
    + rewrite length_insert. apply Nat.mod_upper_bound. simpl in Hlen. lia.
    + split; [|done]. by rewrite Hrot, Hrest, <- (assoc_L (++)).
Qed.

Lemma recent_validate_step on t cursor max validator v answer recent :
  holds t cursor recent ->
  let p := {| pl_on_progress := on; pl_tracker := Some t; pl_tracker_cursor := cursor;
              pl_header_nslots := 0; pl_max_payload_bytes := max; pl_validator := validator |} in
  let '(accepted, recent') := spec_step (length t) max validator v answer recent in
  exists t' cursor', length t' = length t /\ holds t' cursor' recent' /\
    tp_progress_poller_validate (fun _ => answer) true p v = (accepted, with_tracker p (Some t') cursor').
Proof.
  intros Hh p. unfold spec_step, tp_progress_poller_validate. subst p.
  cbn [pl_max_payload_bytes pl_header_nslots pl_tracker pl_tracker_cursor].
  destruct ((0 <? max) && _); [by exists t, cursor|]. change (0 <? 0) with false.
  cbn [andb pl_tracker pl_header_nslots pl_tracker_cursor]. change (0 <? 0) with false.
  rewrite (proj2 (Nat.eqb_neq (length t) 0)) by (destruct Hh; lia). cbv iota.
  rewrite <- (existsb_tracker (regresses v) t cursor recent) by
    (done || (intros e He; unfold regresses; by rewrite unused_other)).
  rewrite <- (existsb_tracker (same_frame v) t cursor recent) by (done || apply unused_other).
  unfold validated. cbn [pl_validator].
  destruct (find_index (same_frame v) t) as [i|] eqn:Hf.
  - destruct (find_index_lookup _ _ _ Hf) as (e & He & Hs). rewrite He.
    change (default 0 (te_last_bytes <$> Some e)) with (te_last_bytes e).
    destruct (found_unique t cursor recent v i e Hh Hf He) as [-> ->].
    destruct (_ <? te_last_bytes e); [by exists t, cursor|].
    assert (Hex : existsb (same_frame v) t = true).
    { apply existsb_exists. exists e. split; [|done]. apply list_elem_of_In. by eapply list_elem_of_lookup_2. }
    rewrite Hex. destruct validator, (answer =? 0); simpl; try (by exists t, cursor);
      exists (refresh v <$> t), cursor; (split; [by rewrite length_fmap|]); (split; [by apply holds_refresh|done]).
  - assert (Hno : existsb (same_frame v) t = false).
    { apply not_true_is_false. intros (e & Hin & Hs)%existsb_exists. apply find_index_None in Hf.
      rewrite Forall_forall in Hf. rewrite (Hf e) in Hs; [done|]. by apply list_elem_of_In. }
    assert (Hreg : existsb (regresses v) t = false).
    { apply not_true_is_false. intros (e & Hin & Hs)%existsb_exists. unfold regresses in Hs.
      apply andb_true_iff in Hs as [Hs _].
      assert (existsb (same_frame v) t = true) by (apply existsb_exists; by exists e). congruence. }
    rewrite Hreg, Hno. destruct validator, (answer =? 0); simpl; try (by exists t, cursor);
      exists (<[cursor := tracker_entry_of v]> t), ((cursor + 1) mod length t)%nat;
      (split; [by rewrite length_insert|]); (split; [|done]); apply holds_push; try done;
      by rewrite <- (existsb_tracker (same_frame v) t cursor recent) by (done || apply unused_other).
Qed.

Fixpoint spec_run (cap : nat) (max : Z) (validator : bool) (msgs : list (tp_frame_progress_t * Z))
    (recent : list tp_progress_tracker_entry_t) : list bool :=
  match msgs with
  | [] => []
  | (v, answer) :: msgs' =>
    let '(accepted, recent) := spec_step cap max validator v answer recent in
    accepted :: spec_run cap max validator msgs' recent
  end.

Lemma recent_run_refines on max validator msgs : forall t cursor recent,
  holds t cursor recent ->
  fst (BySlot.run msgs {| pl_on_progress := on; pl_tracker := Some t; pl_tracker_cursor := cursor;
         pl_header_nslots := 0; pl_max_payload_bytes := max; pl_validator := validator |}) =
  spec_run (length t) max validator msgs recent.
Proof.
  induction msgs as [|[v answer] msgs IH]; intros t cursor recent Hh; [done|].
  cbn [BySlot.run spec_run]. pose proof (recent_validate_step on t cursor max validator v answer recent Hh) as H.
  destruct (spec_step _ _ _ _ _ recent) as [accepted recent'].
  destruct H as (t' & cursor' & Hlen & Hh' & ->). specialize (IH t' cursor' recent' Hh').
  rewrite Hlen in IH. unfold with_tracker.
  cbn [pl_on_progress pl_header_nslots pl_max_payload_bytes pl_validator].
  destruct (BySlot.run msgs _) as [rest p']. simpl in *. by rewrite IH.
Qed.

(** Without a header ring the tracker of a fresh poller behaves as a queue of
    the last 64 frames that were started: a message of one of these is accepted
    unless it has fewer bytes than the last one accepted, a message of another
    frame is always new and displaces the oldest. *)
Theorem progress_recent_frames on max validator msgs p :
  tp_progress_poller_init true true on = Ok p ->
  fst (BySlot.run msgs (tp_progress_poller_set_max_payload_bytes max
         (tp_progress_poller_set_validator validator p))) =
  spec_run TP_PROGRESS_TRACKER_CAPACITY max validator msgs [].
Proof.
  intros [= <-].
  rewrite <- (length_replicate TP_PROGRESS_TRACKER_CAPACITY zero_tracker_entry).
  apply recent_run_refines. constructor; [by apply Nat.ltb_lt| |done|constructor].
  exists (replicate TP_PROGRESS_TRACKER_CAPACITY zero_tracker_entry).
  split; [by rewrite drop_0, app_nil_r|]. by apply Forall_replicate.
Qed.
End Recent.

(** ** Concrete runs *)

Module Examples.

Definition progress_of (seq bytes state : Z) : tp_frame_progress_t :=
  {| fp_stream_id := 10; fp_epoch := 1; fp_seq := seq; fp_payload_bytes_filled := bytes; fp_state := state |}.

(** Sixteen slots: frame 3 goes backwards, frame 19 takes its slot, and an old
    message of frame 3 is then new again. *)
Definition slot_msgs : list (tp_frame_progress_t * Z) :=
  [(progress_of 3 100 1, 0); (progress_of 3 90 2, 0); (progress_of 3 120 2, 1); (progress_of 3 110 2, 0);
   (progress_of 19 10 1, 0); (progress_of 3 50 2, 0); (progress_of 4 5000 2, 0)].

Lemma progress_accept_iff_witness :
  fst (BySlot.run slot_msgs
    {| pl_on_progress := true; pl_tracker := Some (replicate 64 zero_tracker_entry);
       pl_tracker_cursor := 0; pl_header_nslots := 16; pl_max_payload_bytes := 4096;
       pl_validator := true |}) = [true; false; false; true; true; true; false].
Proof.
  rewrite (BySlot.progress_accept_iff 16 4096 true slot_msgs true 0 (replicate 64 zero_tracker_entry) []);
    [vm_compute; reflexivity|lia|repeat constructor; simpl; lia|].
  apply BySlot.remembers_fresh. simpl. lia.
Defined.

Lemma progress_recent_frames_witness :
  exists p, tp_progress_poller_init true true true = Ok p /\
    fst (BySlot.run [(progress_of 3 100 1, 0); (progress_of 3 90 2, 0); (progress_of 4 10 1, 0)]
           (tp_progress_poller_set_max_payload_bytes 4096 (tp_progress_poller_set_validator true p))) =
      [true; false; true].
Proof.
  eexists. split; [reflexivity|].
  rewrite (Recent.progress_recent_frames true 4096 true _ _ eq_refl). vm_compute. reflexivity.
Defined.

(** The state is not checked: after COMPLETE a STARTED of the same frame with the
    same bytes is accepted. *)
Example state_regression_accepted :
  fst (BySlot.run [(progress_of 3 100 3, 0); (progress_of 3 100 1, 0)]
    {| pl_on_progress := true; pl_tracker := Some (replicate 64 zero_tracker_entry);
       pl_tracker_cursor := 0; pl_header_nslots := 16; pl_max_payload_bytes := 4096;
       pl_validator := true |}) = [true; true].
Proof. reflexivity. Qed.

(** The consumer's validator refuses the progress of every frame that is still
    being written, whatever the slot holds. *)
Example uncommitted_refused `{Sbe} pools v rest :
  tp_seq_is_committed (sbe_get 8 rest 0) = false ->
  rrun (progress_program pools v) rest = Some 1.
Proof. intros Hc. unfold progress_program. cbn [rrun]. by rewrite Hc. Qed.

(** A fragment that ends after the message header is decoded all the same: only
    the header's length is compared with the fragment's. *)
Definition header_only : bytes :=
  sbe_puts (messageHeader_writes 29 frameProgress_template_id wire_schema_id 1) (replicate 8 0).
Example short_progress_delivered :
  fst (tp_progress_poller_handler (fun _ => 0) true
    {| pl_on_progress := true; pl_tracker := Some (replicate 64 zero_tracker_entry);
       pl_tracker_cursor := 0; pl_header_nslots := 0; pl_max_payload_bytes := 0; pl_validator := false |}
    (Some header_only) (blen header_only)) <> None.
Proof. vm_compute. discriminate. Qed.
End Examples.
