(* ===== verification/Driver.v ===== *)
(** * Driver: leases, epochs and node identifiers of the media driver (tp_driver.c)

    The driver owns the shared-memory regions of every stream.  Clients attach
    to a stream under a lease, keep the lease alive, and detach; expired leases
    are revoked; a producer that comes or goes starts a new epoch of its stream.
    This file models the driver's state and its handlers; [DriverLease] proves
    their properties.

    Handlers run in a state monad over [driver].  What they take from their
    surroundings comes from a [world]: the clock, the random source, the success
    of creating region files, of allocating, of encoding a message into its
    fixed buffer, and the file system type of the base directory.  Every use
    reads the world at the next [tick].  Messages go to the log [dv_out], newest
    last; what Aeron does with them is not modelled. *)

From Stdlib Require Import ZArith Lia Bool.
From stdpp Require Import strings.
From S2P Require Import Prelude Sbe.

(** ** Data *)

Definition tensor_pool_role_PRODUCER : Z := 1.
Definition tensor_pool_role_CONSUMER : Z := 2.
Definition tensor_pool_publishMode_REQUIRE_EXISTING : Z := 1.
Definition tensor_pool_publishMode_EXISTING_OR_CREATE : Z := 2.
Definition tensor_pool_hugepagesPolicy_UNSPECIFIED : Z := 0.
Definition tensor_pool_hugepagesPolicy_STANDARD : Z := 1.
Definition tensor_pool_hugepagesPolicy_HUGEPAGES : Z := 2.
Definition tensor_pool_responseCode_OK : Z := 0.
Definition tensor_pool_responseCode_INVALID_PARAMS : Z := 2.
Definition tensor_pool_responseCode_REJECTED : Z := 3.
Definition tensor_pool_responseCode_INTERNAL_ERROR : Z := 4.
Definition tensor_pool_leaseRevokeReason_DETACHED : Z := 1.
Definition tensor_pool_leaseRevokeReason_EXPIRED : Z := 2.
Definition tensor_pool_shutdownReason_NORMAL : Z := 0.
Definition nodeId_null_value : Z := TP_NULL_U32.

Record tp_driver_lease_t := {
  dl_lease_id : Z;
  dl_expiry_ns : Z;
  dl_issued_ns : Z;
  dl_stream_id : Z;
  dl_client_id : Z;
  dl_node_id : Z;
  dl_role : Z;
}.

Record tp_driver_node_id_cooldown_t := {
  cd_node_id : Z;
  cd_expires_ns : Z;
}.

(** [pf_pools]: identifier and stride of each pool. *)
Record tp_driver_profile_t := {
  pf_name : string;
  pf_header_nslots : Z;
  pf_pools : list (Z * Z);
}.

Record tp_driver_stream_state_t := {
  ds_stream_id : Z;
  ds_profile : ptr tp_driver_profile_t;
  ds_epoch : Z;
  ds_epoch_created_ns : Z;
  ds_last_announce_ns : Z;
  ds_producer_lease_id : Z;
  ds_producer_client_id : Z;
  ds_require_hugepages : bool;
}.

#[export] Instance stream_inhabited : Inhabited tp_driver_stream_state_t :=
  populate (Build_tp_driver_stream_state_t 0 NULL 0 0 0 0 0 false).

Record tp_driver_id_range_t := {
  rg_start : Z;
  rg_end : Z;
  rg_next : Z;
}.

(** The fields of the configuration that the handlers read. *)
Record tp_driver_config_t := {
  cf_require_hugepages : bool;
  cf_allow_dynamic_streams : bool;
  cf_default_profile : string;
  cf_announce_period_ms : Z;
  cf_lease_keepalive_interval_ms : Z;
  cf_lease_expiry_grace_intervals : Z;
  cf_node_id_reuse_cooldown_ms : Z;
  cf_epoch_gc_enabled : bool;
  cf_stream_id_ranges : list tp_driver_id_range_t;
  cf_profiles : list tp_driver_profile_t;
  cf_streams : list (Z * ptr tp_driver_profile_t);
}.

(** What the driver sends.  A granted attach response carries the lease and the
    state of the stream; an announce the stream it announces. *)
Inductive msg :=
  | ShmAttachResponse (correlation_id code : Z)
      (granted : option (tp_driver_lease_t * tp_driver_stream_state_t)) (hugepages : bool)
      (error_message : ptr string)
  | ShmDetachResponse (correlation_id code : Z) (error_message : ptr string)
  | ShmLeaseRevoked (timestamp_ns : Z) (lease : tp_driver_lease_t) (reason : Z)
      (error_message : ptr string)
  | ShmPoolAnnounce (timestamp_ns : Z) (stream : tp_driver_stream_state_t) (hugepages : bool)
  | ShmDriverShutdown (timestamp_ns reason : Z) (error_message : ptr string).

Record driver := {
  dv_ranges : list tp_driver_id_range_t;
  dv_streams : list tp_driver_stream_state_t;
  dv_leases : list tp_driver_lease_t;
  dv_lease_capacity : nat;
  dv_lease_counter : Z;
  dv_next_announce_ns : Z;
  dv_cooldowns : list tp_driver_node_id_cooldown_t;
  dv_cooldown_capacity : nat;
  dv_tick : nat;
  dv_out : list msg;
}.

(** The n-th use of each facility. *)
Record world := {
  w_clock : nat -> Z;      (* tp_clock_now_ns *)
  w_random : nat -> Z;     (* the 64 bits tp_driver_seed_u64 starts from *)
  w_region : nat -> bool;  (* tp_driver_create_region_file succeeds *)
  w_alloc : nat -> bool;   (* realloc succeeds *)
  w_encode : nat -> bool;  (* the URIs fit in the message buffer *)
  w_hugepages : nat -> Z;  (* tp_driver_is_hugepages_dir: 1, 0 or -1 *)
}.

(** ** The monad *)

Definition M (A : Type) : Type := driver -> A * driver.

Definition ret {A} (a : A) : M A := fun d => (a, d).
Definition bind {A B} (m : M A) (k : A -> M B) : M B := fun d => let '(a, d') := m d in k a d'.
Definition gets {A} (f : driver -> A) : M A := fun d => (f d, d).
Definition modify (f : driver -> driver) : M unit := fun d => (tt, f d).

Declare Scope driver_scope.
Notation "'let*' x ':=' m 'in' k" := (bind m (fun x => k))
  (at level 10, x name, m at level 100, k at level 200) : driver_scope.
Notation "'do*' m 'in' k" := (bind m (fun _ : unit => k))
  (at level 10, m at level 100, k at level 200) : driver_scope.
#[local] Open Scope driver_scope.

Definition set_ranges (v : list tp_driver_id_range_t) (d : driver) : driver :=
  {| dv_ranges := v; dv_streams := dv_streams d; dv_leases := dv_leases d;
     dv_lease_capacity := dv_lease_capacity d; dv_lease_counter := dv_lease_counter d;
     dv_next_announce_ns := dv_next_announce_ns d; dv_cooldowns := dv_cooldowns d;
     dv_cooldown_capacity := dv_cooldown_capacity d; dv_tick := dv_tick d; dv_out := dv_out d |}.
Definition set_streams (v : list tp_driver_stream_state_t) (d : driver) : driver :=
  {| dv_ranges := dv_ranges d; dv_streams := v; dv_leases := dv_leases d;
     dv_lease_capacity := dv_lease_capacity d; dv_lease_counter := dv_lease_counter d;
     dv_next_announce_ns := dv_next_announce_ns d; dv_cooldowns := dv_cooldowns d;
     dv_cooldown_capacity := dv_cooldown_capacity d; dv_tick := dv_tick d; dv_out := dv_out d |}.
Definition set_leases (v : list tp_driver_lease_t) (capacity : nat) (d : driver) : driver :=
  {| dv_ranges := dv_ranges d; dv_streams := dv_streams d; dv_leases := v;
     dv_lease_capacity := capacity; dv_lease_counter := dv_lease_counter d;
     dv_next_announce_ns := dv_next_announce_ns d; dv_cooldowns := dv_cooldowns d;
     dv_cooldown_capacity := dv_cooldown_capacity d; dv_tick := dv_tick d; dv_out := dv_out d |}.
Definition set_lease_counter (v : Z) (d : driver) : driver :=
  {| dv_ranges := dv_ranges d; dv_streams := dv_streams d; dv_leases := dv_leases d;
     dv_lease_capacity := dv_lease_capacity d; dv_lease_counter := v;
     dv_next_announce_ns := dv_next_announce_ns d; dv_cooldowns := dv_cooldowns d;
     dv_cooldown_capacity := dv_cooldown_capacity d; dv_tick := dv_tick d; dv_out := dv_out d |}.
Definition set_next_announce (v : Z) (d : driver) : driver :=
  {| dv_ranges := dv_ranges d; dv_streams := dv_streams d; dv_leases := dv_leases d;
     dv_lease_capacity := dv_lease_capacity d; dv_lease_counter := dv_lease_counter d;
     dv_next_announce_ns := v; dv_cooldowns := dv_cooldowns d;
     dv_cooldown_capacity := dv_cooldown_capacity d; dv_tick := dv_tick d; dv_out := dv_out d |}.
Definition set_cooldowns (v : list tp_driver_node_id_cooldown_t) (capacity : nat) (d : driver)
    : driver :=
  {| dv_ranges := dv_ranges d; dv_streams := dv_streams d; dv_leases := dv_leases d;
     dv_lease_capacity := dv_lease_capacity d; dv_lease_counter := dv_lease_counter d;
     dv_next_announce_ns := dv_next_announce_ns d; dv_cooldowns := v;
     dv_cooldown_capacity := capacity; dv_tick := dv_tick d; dv_out := dv_out d |}.
Definition next_tick (d : driver) : driver :=
  {| dv_ranges := dv_ranges d; dv_streams := dv_streams d; dv_leases := dv_leases d;
     dv_lease_capacity := dv_lease_capacity d; dv_lease_counter := dv_lease_counter d;
     dv_next_announce_ns := dv_next_announce_ns d; dv_cooldowns := dv_cooldowns d;
     dv_cooldown_capacity := dv_cooldown_capacity d; dv_tick := S (dv_tick d);
     dv_out := dv_out d |}.
Definition add_out (m : msg) (d : driver) : driver :=
  {| dv_ranges := dv_ranges d; dv_streams := dv_streams d; dv_leases := dv_leases d;
     dv_lease_capacity := dv_lease_capacity d; dv_lease_counter := dv_lease_counter d;
     dv_next_announce_ns := dv_next_announce_ns d; dv_cooldowns := dv_cooldowns d;
     dv_cooldown_capacity := dv_cooldown_capacity d; dv_tick := dv_tick d;
     dv_out := dv_out d ++ [m] |}.

(** One use of the world. *)
Definition use {A} (f : nat -> A) : M A := fun d => (f (dv_tick d), next_tick d).
Definition send (m : msg) : M unit := modify (add_out m).

Section Driver.
Context (w : world) (config : tp_driver_config_t).

Definition now_ns : M Z := use (w_clock w).

(** ** Identifiers *)

(** From /dev/urandom, or mixed from the clock: 63 bits, never 0. *)
Definition tp_driver_seed_u64 : M Z :=
  let* raw := use (w_random w) in
  let seed := Z.land raw (2 ^ 63 - 1) in
  ret (if seed =? 0 then 1 else seed).

Definition seed_counter : M unit :=
  let* counter := gets dv_lease_counter in
  if counter =? 0 then let* seed := tp_driver_seed_u64 in modify (set_lease_counter seed)
  else ret tt.

Definition tp_driver_next_lease_id : M Z :=
  do* seed_counter in
  let* counter := gets dv_lease_counter in
  let next := u64 (counter + 1) in
  let next := if next =? 0 then u64 (next + 1) else next in
  do* modify (set_lease_counter next) in
  ret next.

(** The index stands for the pointer to the array element. *)
Definition tp_driver_find_stream (stream_id : Z) (d : driver) : option nat :=
  if stream_id =? 0 then None
  else find_index (fun s => ds_stream_id s =? stream_id) (dv_streams d).

Definition tp_driver_find_lease (lease_id : Z) (d : driver) : option nat :=
  if lease_id =? 0 then None
  else find_index (fun l => dl_lease_id l =? lease_id) (dv_leases d).

Definition tp_driver_client_id_in_use (client_id : Z) (d : driver) : bool :=
  (client_id =? 0) || existsb (fun l => dl_client_id l =? client_id) (dv_leases d).

Definition tp_driver_node_id_in_use (node_id : Z) (d : driver) : bool :=
  if node_id =? TP_NULL_U32 then false
  else existsb (fun l => dl_node_id l =? node_id) (dv_leases d).

(** The loop removes the expired entries in place. *)
Definition live_cooldowns (now : Z) (l : list tp_driver_node_id_cooldown_t)
    : list tp_driver_node_id_cooldown_t :=
  filter (fun c => negb (cd_expires_ns c <=? now) = true) l.

Definition tp_driver_prune_node_id_cooldowns (now : Z) : M unit :=
  modify (fun d => set_cooldowns (live_cooldowns now (dv_cooldowns d)) (dv_cooldown_capacity d) d).

Definition tp_driver_node_id_in_cooldown (node_id now : Z) : M bool :=
  let* cooldowns := gets dv_cooldowns in
  if (node_id =? 0) || Nat.eqb (length cooldowns) 0 then ret false
  else
    do* tp_driver_prune_node_id_cooldowns now in
    gets (fun d => existsb (fun c => cd_node_id c =? node_id) (dv_cooldowns d)).

(** Room for one more element of an array that starts at 8 and doubles. *)
Definition grow (count capacity : nat) : M (option nat) :=
  if (capacity <? count + 1)%nat then
    let* ok := use (w_alloc w) in
    ret (if (ok : bool) then Some (if Nat.eqb capacity 0 then 8%nat else (capacity * 2)%nat)
         else None)
  else ret (Some capacity).

Definition cooldown_until (now : Z) : Z :=
  u64 (now + u64 (cf_node_id_reuse_cooldown_ms config * 1000000)).

Definition tp_driver_record_node_id_cooldown (node_id now : Z) : M unit :=
  if (node_id =? 0) || (node_id =? nodeId_null_value) ||
     (cf_node_id_reuse_cooldown_ms config =? 0) then ret tt
  else
    do* tp_driver_prune_node_id_cooldowns now in
    let expires := cooldown_until now in
    let entry := {| cd_node_id := node_id; cd_expires_ns := expires |} in
    let* cooldowns := gets dv_cooldowns in
    match find_index (fun c => cd_node_id c =? node_id) cooldowns with
    | Some i => modify (fun d => set_cooldowns (<[i := entry]> cooldowns) (dv_cooldown_capacity d) d)
    | None =>
      let* capacity := gets dv_cooldown_capacity in
      let* room := grow (length cooldowns) capacity in
      match room with
      | None => ret tt                     (* -1, which the callers ignore *)
      | Some capacity' => modify (set_cooldowns (cooldowns ++ [entry]) capacity')
      end
    end.

(** The attempts that are left, out of 1024. *)
Fixpoint node_id_attempts (n : nat) (attempt counter now : Z) : M Z :=
  match n with
  | O => ret nodeId_null_value
  | S n' =>
    let* random := tp_driver_seed_u64 in
    let seed := Z.lxor (Z.lxor random counter) attempt in
    let candidate := u32 (Z.lxor seed (Z.shiftr seed 32)) in
    let* used := gets (tp_driver_node_id_in_use candidate) in
    if (candidate =? 0) || (candidate =? nodeId_null_value) || used
    then node_id_attempts n' (attempt + 1) counter now
    else
      let* cooling := tp_driver_node_id_in_cooldown candidate now in
      if (cooling : bool) then node_id_attempts n' (attempt + 1) counter now else ret candidate
  end.

Definition tp_driver_next_node_id : M Z :=
  let* now := now_ns in
  do* seed_counter in
  do* tp_driver_prune_node_id_cooldowns now in
  let* counter := gets dv_lease_counter in
  node_id_attempts 1024 0 counter now.

(** The identifiers of one range, from its cursor on: [n] of them are left. *)
Fixpoint range_search (n : nat) (range : tp_driver_id_range_t) (cursor : Z) (d : driver)
    : option (Z * Z) :=
  match n with
  | O => None
  | S n' =>
    let following := if cursor =? rg_end range then rg_start range else u32 (cursor + 1) in
    match tp_driver_find_stream cursor d with
    | None => Some (cursor, following)
    | Some _ => range_search n' range following d
    end
  end.

Fixpoint ranges_search (done rest : list tp_driver_id_range_t) (d : driver)
    : option (Z * list tp_driver_id_range_t) :=
  match rest with
  | [] => None
  | range :: rest' =>
    match range_search (S (Z.to_nat (u32 (rg_end range - rg_start range)))) range (rg_next range) d with
    | Some (id, next) =>
      Some (id, done ++ {| rg_start := rg_start range; rg_end := rg_end range; rg_next := next |}
                        :: rest')
    | None => ranges_search (done ++ [range]) rest' d
    end
  end.

Definition tp_driver_allocate_stream_id : M (option Z) :=
  let* found := gets (fun d => ranges_search [] (dv_ranges d) d) in
  match found with
  | None => ret None
  | Some (id, ranges) => do* modify (set_ranges ranges) in ret (Some id)
  end.

Definition tp_driver_add_stream (stream_id : Z) (profile : tp_driver_profile_t) : M bool :=
  let* ok := use (w_alloc w) in
  if (ok : bool) then
    do* modify (fun d => set_streams (dv_streams d ++
      [{| ds_stream_id := stream_id; ds_profile := Some profile; ds_epoch := 0;
          ds_epoch_created_ns := 0; ds_last_announce_ns := 0; ds_producer_lease_id := 0;
          ds_producer_client_id := 0; ds_require_hugepages := cf_require_hugepages config |}]) d) in
    ret true
  else ret false.

Definition tp_driver_add_lease (lease : tp_driver_lease_t) : M bool :=
  let* count := gets (fun d => length (dv_leases d)) in
  let* capacity := gets dv_lease_capacity in
  let* room := grow count capacity in
  match room with
  | None => ret false
  | Some capacity' =>
    do* modify (fun d => set_leases (dv_leases d ++ [lease]) capacity' d) in
    ret true
  end.

Definition tp_driver_remove_lease (index : nat) : M unit :=
  modify (fun d => set_leases (delete index (dv_leases d)) (dv_lease_capacity d) d).

(** ** Streams and epochs *)

Definition update_stream (f : tp_driver_stream_state_t -> tp_driver_stream_state_t) (i : nat)
    : M unit :=
  modify (fun d => set_streams (alter f i (dv_streams d)) d).

Definition with_epoch (e : Z) (s : tp_driver_stream_state_t) : tp_driver_stream_state_t :=
  Build_tp_driver_stream_state_t (ds_stream_id s) (ds_profile s) e (ds_epoch_created_ns s)
    (ds_last_announce_ns s) (ds_producer_lease_id s) (ds_producer_client_id s)
    (ds_require_hugepages s).
Definition with_created (t : Z) (s : tp_driver_stream_state_t) : tp_driver_stream_state_t :=
  Build_tp_driver_stream_state_t (ds_stream_id s) (ds_profile s) (ds_epoch s) t
    (ds_last_announce_ns s) (ds_producer_lease_id s) (ds_producer_client_id s)
    (ds_require_hugepages s).
Definition with_announced (t : Z) (s : tp_driver_stream_state_t) : tp_driver_stream_state_t :=
  Build_tp_driver_stream_state_t (ds_stream_id s) (ds_profile s) (ds_epoch s)
    (ds_epoch_created_ns s) t (ds_producer_lease_id s) (ds_producer_client_id s)
    (ds_require_hugepages s).
Definition with_producer (lease client : Z) (s : tp_driver_stream_state_t)
    : tp_driver_stream_state_t :=
  Build_tp_driver_stream_state_t (ds_stream_id s) (ds_profile s) (ds_epoch s)
    (ds_epoch_created_ns s) (ds_last_announce_ns s) lease client (ds_require_hugepages s).
Definition with_hugepages (h : bool) (s : tp_driver_stream_state_t) : tp_driver_stream_state_t :=
  Build_tp_driver_stream_state_t (ds_stream_id s) (ds_profile s) (ds_epoch s)
    (ds_epoch_created_ns s) (ds_last_announce_ns s) (ds_producer_lease_id s)
    (ds_producer_client_id s) h.

Definition tp_driver_bump_epoch (i : nat) : M unit :=
  let* now := now_ns in
  update_stream (fun s => if now <=? ds_epoch s then with_epoch (u64 (ds_epoch s + 1)) s
                          else with_epoch now s) i.

(** [tp_driver_create_region_file] for the header ring, then for each pool: stop
    at the first failure. *)
Fixpoint create_regions (n : nat) : M bool :=
  match n with
  | O => ret true
  | S n' =>
    let* ok := use (w_region w) in
    if (ok : bool) then create_regions n' else ret false
  end.

(** The garbage collection of old epochs changes no driver state. *)
Definition tp_driver_create_shm_epoch (i : nat) : M bool :=
  let* profile := gets (fun d => ds_profile (dv_streams d !!! i)) in
  match profile with
  | NULL => ret false
  | Some p =>
    let* ok := create_regions (1 + length (pf_pools p)) in
    if (ok : bool) then
      let* now := now_ns in
      do* update_stream (with_created now) i in
      ret true
    else ret false
  end.

Definition tp_driver_release_producer (stream : option nat) (lease : tp_driver_lease_t) : M unit :=
  match stream with
  | None => ret tt
  | Some i =>
    update_stream (fun s => if ds_producer_lease_id s =? dl_lease_id lease
                            then with_producer 0 0 s else s) i
  end.

(** ** Messages *)

Definition tp_driver_send_attach_response (correlation_id code : Z)
    (granted : option (tp_driver_lease_t * tp_driver_stream_state_t)) (hugepages : bool)
    (error_message : ptr string) : M unit :=
  match granted with
  | None => send (ShmAttachResponse correlation_id code None hugepages error_message)
  | Some _ =>
    let* ok := use (w_encode w) in
    if (ok : bool) then send (ShmAttachResponse correlation_id code granted hugepages error_message)
    else ret tt
  end.

Definition tp_driver_send_detach_response (correlation_id code : Z) (error_message : ptr string)
    : M unit :=
  send (ShmDetachResponse correlation_id code error_message).

Definition tp_driver_send_lease_revoked (lease : tp_driver_lease_t) (reason : Z)
    (error_message : ptr string) : M unit :=
  let* now := now_ns in
  send (ShmLeaseRevoked now lease reason error_message).

Definition tp_driver_send_driver_shutdown (reason : Z) (error_message : ptr string) : M unit :=
  let* now := now_ns in
  send (ShmDriverShutdown now reason error_message).

Definition tp_driver_send_announce (i : nat) (hugepages : bool) : M unit :=
  let* now := now_ns in
  let* ok := use (w_encode w) in
  if (ok : bool) then
    let* stream := gets (fun d => dv_streams d !!! i) in
    do* update_stream (with_announced now) i in
    send (ShmPoolAnnounce now stream hugepages)
  else ret tt.

(** ** Expiry, detach, keepalive *)

(** The end of a producer: a new epoch, announced when its regions exist. *)
Definition renew_epoch (i : nat) : M unit :=
  do* tp_driver_bump_epoch i in
  let* created := tp_driver_create_shm_epoch i in
  if (created : bool) then
    let* hugepages := gets (fun d => ds_require_hugepages (dv_streams d !!! i)) in
    tp_driver_send_announce i hugepages
  else ret tt.

(** The end of the lease at [index], for any reason. *)
Definition end_lease (index : nat) (lease : tp_driver_lease_t) (stream : option nat) (now : Z)
    (bump_epoch : bool) : M unit :=
  do* tp_driver_record_node_id_cooldown (dl_node_id lease) now in
  do* tp_driver_release_producer stream lease in
  do* tp_driver_remove_lease index in
  match stream with
  | Some i => if bump_epoch then renew_epoch i else ret tt
  | None => ret tt
  end.

(** Each turn removes a lease or passes one: the number of leases is fuel enough. *)
Fixpoint expire_loop (fuel : nat) (now : Z) (i : nat) : M unit :=
  match fuel with
  | O => ret tt
  | S fuel' =>
    let* leases := gets dv_leases in
    match leases !! i with
    | None => ret tt
    | Some lease =>
      let* stream := gets (tp_driver_find_stream (dl_stream_id lease)) in
      let is_producer := dl_role lease =? tensor_pool_role_PRODUCER in
      if negb (dl_expiry_ns lease =? 0) && (dl_expiry_ns lease <? now) then
        do* tp_driver_send_lease_revoked lease tensor_pool_leaseRevokeReason_EXPIRED
              (Some "lease expired"%string) in
        do* end_lease i lease stream now is_producer in
        expire_loop fuel' now i
      else expire_loop fuel' now (S i)
    end
  end.

Definition tp_driver_handle_expired_leases : M unit :=
  let* now := now_ns in
  let* count := gets (fun d => length (dv_leases d)) in
  expire_loop count now 0.

(** A request: its fields, the roles and policies as the enum decoder returns them. *)
Record tensor_pool_shmDetachRequest := {
  dr_correlation_id : Z;
  dr_lease_id : Z;
  dr_stream_id : Z;
  dr_client_id : Z;
  dr_role : option Z;
}.

Record tensor_pool_shmLeaseKeepalive := {
  ka_lease_id : Z;
  ka_stream_id : Z;
  ka_client_id : Z;
  ka_role : option Z;
}.

Record tensor_pool_shmAttachRequest := {
  ar_correlation_id : Z;
  ar_stream_id : Z;
  ar_client_id : Z;
  ar_role : option Z;
  ar_expected_layout_version : Z;
  ar_publish_mode : option Z;
  ar_require_hugepages : option Z;
  ar_desired_node_id : Z;
}.

Definition lease_matches (stream_id client_id role : Z) (lease : tp_driver_lease_t) : bool :=
  negb (negb (dl_stream_id lease =? stream_id) || negb (dl_client_id lease =? client_id) ||
        negb (dl_role lease =? role)).

(** [is_producer] is computed from [role] before [role] is read from the request:
    it is always false. *)
Definition tp_driver_handle_detach (request : tensor_pool_shmDetachRequest) : M unit :=
  let initial_role := 0 in
  let is_producer := initial_role =? tensor_pool_role_PRODUCER in
  let* lease := gets (tp_driver_find_lease (dr_lease_id request)) in
  let* stream := gets (tp_driver_find_stream (dr_stream_id request)) in
  let* leases := gets dv_leases in
  match dr_role request with
  | None => tp_driver_send_detach_response (dr_correlation_id request)
              tensor_pool_responseCode_INVALID_PARAMS (Some "invalid role"%string)
  | Some role =>
    match lease ≫= (fun i => pair i <$> leases !! i) with
    | None => tp_driver_send_detach_response (dr_correlation_id request)
                tensor_pool_responseCode_REJECTED (Some "lease not found"%string)
    | Some (index, l) =>
      if negb (lease_matches (dr_stream_id request) (dr_client_id request) role l) then
        tp_driver_send_detach_response (dr_correlation_id request) tensor_pool_responseCode_REJECTED
          (Some "lease not found"%string)
      else
        do* tp_driver_send_lease_revoked l tensor_pool_leaseRevokeReason_DETACHED
              (Some "lease detached"%string) in
        let* now := now_ns in
        do* end_lease index l stream now is_producer in
        tp_driver_send_detach_response (dr_correlation_id request) tensor_pool_responseCode_OK NULL
    end
  end.

(** The end of a lease granted or renewed at [now]. *)
Definition lease_expiry (now : Z) : Z :=
  u64 (now + u64 (u64 (cf_lease_keepalive_interval_ms config * 1000000) *
                  cf_lease_expiry_grace_intervals config)).

Definition with_expiry (t : Z) (l : tp_driver_lease_t) : tp_driver_lease_t :=
  Build_tp_driver_lease_t (dl_lease_id l) t (dl_issued_ns l) (dl_stream_id l) (dl_client_id l)
    (dl_node_id l) (dl_role l).

Definition tp_driver_handle_keepalive (request : tensor_pool_shmLeaseKeepalive) : M unit :=
  let* lease := gets (tp_driver_find_lease (ka_lease_id request)) in
  let* leases := gets dv_leases in
  match ka_role request with
  | None => ret tt
  | Some role =>
    match lease ≫= (fun i => pair i <$> leases !! i) with
    | None => ret tt
    | Some (index, l) =>
      if negb (lease_matches (ka_stream_id request) (ka_client_id request) role l) then ret tt
      else
        let* now := now_ns in
        modify (fun d => set_leases (<[index := with_expiry (lease_expiry now) l]> (dv_leases d))
                           (dv_lease_capacity d) d)
    end
  end.

(** ** Attach *)

Definition tp_driver_should_require_hugepages (policy : Z) : bool :=
  if policy =? tensor_pool_hugepagesPolicy_HUGEPAGES then true
  else if policy =? tensor_pool_hugepagesPolicy_STANDARD then false
  else cf_require_hugepages config.

Definition default_profile : option tp_driver_profile_t :=
  if (cf_default_profile config =? "")%string then None
  else find (fun p => (pf_name p =? cf_default_profile config)%string) (cf_profiles config).

(** The stream a request names or creates: a refusal, or the pointer. *)
Definition resolve_stream (stream_id : Z) (create_allowed : bool)
    : M (Z * string + option nat) :=
  let* found := gets (tp_driver_find_stream stream_id) in
  match found with
  | Some i => ret (inr (Some i))
  | None =>
    if negb create_allowed || negb (cf_allow_dynamic_streams config)
    then ret (inl (tensor_pool_responseCode_REJECTED, "stream not provisioned"%string))
    else
      let* id := (if stream_id =? 0 then tp_driver_allocate_stream_id
                  else ret (Some stream_id)) in
      match id with
      | None => ret (inl (tensor_pool_responseCode_INVALID_PARAMS, "no stream ids available"%string))
      | Some id =>
        match default_profile with
        | None => ret (inl (tensor_pool_responseCode_INVALID_PARAMS, "default profile missing"%string))
        | Some profile =>
          let* added := tp_driver_add_stream id profile in
          if (added : bool) then
            let* i := gets (tp_driver_find_stream id) in
            ret (inr i)
          else ret (inl (tensor_pool_responseCode_INTERNAL_ERROR, "stream allocation failed"%string))
        end
      end
  end.

(** The hugepage policy against the file system of the base directory. *)
Definition hugepages_refused (policy : Z) (require_hugepages : bool) : M bool :=
  if require_hugepages then
    let* huge_ok := use (w_hugepages w) in ret (negb (huge_ok =? 1))
  else if policy =? tensor_pool_hugepagesPolicy_STANDARD then
    let* huge_ok := use (w_hugepages w) in ret (huge_ok =? 1)
  else ret false.

Definition desired_node_id_refused (node_id : Z) : M bool :=
  if node_id =? nodeId_null_value then ret false
  else
    let* now := now_ns in
    let* used := gets (tp_driver_node_id_in_use node_id) in
    if (used : bool) then ret true else tp_driver_node_id_in_cooldown node_id now.

(** A producer, or the first client of a stream, starts an epoch. *)
Definition attach_epoch (i : nat) (role : Z) (require_hugepages : bool) : M bool :=
  let* stream := gets (fun d => dv_streams d !!! i) in
  if (role =? tensor_pool_role_PRODUCER) || (ds_epoch stream =? 0) then
    do* tp_driver_bump_epoch i in
    do* update_stream (with_hugepages require_hugepages) i in
    tp_driver_create_shm_epoch i
  else ret true.

(** The request has passed the checks: epoch, lease, announcement, response. *)
Definition attach_grant (request : tensor_pool_shmAttachRequest) (role : Z) (i : nat)
    (require_hugepages : bool) : M unit :=
  let reject code hugepages text :=
    tp_driver_send_attach_response (ar_correlation_id request) code None hugepages
      (Some text) in
  let* now := now_ns in
  let* stream := gets (fun d => dv_streams d !!! i) in
  let require_hugepages :=
    if ds_epoch stream =? 0 then require_hugepages else ds_require_hugepages stream in
  let* created := attach_epoch i role require_hugepages in
  if negb created
  then reject tensor_pool_responseCode_INTERNAL_ERROR require_hugepages "shm creation failed"%string
  else
    let* lease_id := tp_driver_next_lease_id in
    let* node_id := (if ar_desired_node_id request =? nodeId_null_value
                     then tp_driver_next_node_id else ret (ar_desired_node_id request)) in
    if node_id =? nodeId_null_value
    then reject tensor_pool_responseCode_INTERNAL_ERROR require_hugepages
           "node_id allocation failed"%string
    else
      let lease := {| dl_lease_id := lease_id; dl_expiry_ns := lease_expiry now;
                      dl_issued_ns := now; dl_stream_id := ds_stream_id stream;
                      dl_client_id := ar_client_id request; dl_node_id := node_id;
                      dl_role := role |} in
      let* added := tp_driver_add_lease lease in
      if negb added
      then reject tensor_pool_responseCode_INTERNAL_ERROR require_hugepages
             "lease allocation failed"%string
      else
        do* (if role =? tensor_pool_role_PRODUCER
             then update_stream (with_producer lease_id (ar_client_id request)) i else ret tt) in
        do* tp_driver_send_announce i require_hugepages in
        let* stream := gets (fun d => dv_streams d !!! i) in
        tp_driver_send_attach_response (ar_correlation_id request) tensor_pool_responseCode_OK
          (Some (lease, stream)) require_hugepages NULL.

(** The checks on the stream and the policies. *)
Definition attach_checks (request : tensor_pool_shmAttachRequest) (role : Z) (target : option nat)
    : M unit :=
  let reject code hugepages text :=
    tp_driver_send_attach_response (ar_correlation_id request) code None hugepages
      (Some text) in
  let* streams := gets dv_streams in
  match target with
  | None => reject tensor_pool_responseCode_INVALID_PARAMS (cf_require_hugepages config)
              "invalid profile"%string
  | Some i =>
    let stream := streams !!! i in
    if (match ds_profile stream with None => true | Some p => Nat.eqb (length (pf_pools p)) 0 end)
    then reject tensor_pool_responseCode_INVALID_PARAMS (cf_require_hugepages config)
           "invalid profile"%string
    else if (role =? tensor_pool_role_PRODUCER) && negb (ds_producer_lease_id stream =? 0)
    then reject tensor_pool_responseCode_REJECTED (cf_require_hugepages config)
           "producer already attached"%string
    else
      let policy := match ar_require_hugepages request with
                    | Some p => p | None => tensor_pool_hugepagesPolicy_UNSPECIFIED end in
      if negb (policy =? tensor_pool_hugepagesPolicy_UNSPECIFIED) &&
         negb (policy =? tensor_pool_hugepagesPolicy_STANDARD) &&
         negb (policy =? tensor_pool_hugepagesPolicy_HUGEPAGES)
      then reject tensor_pool_responseCode_INVALID_PARAMS (cf_require_hugepages config)
             "invalid hugepages policy"%string
      else
        let require_hugepages := tp_driver_should_require_hugepages policy in
        let* huge_refused := hugepages_refused policy require_hugepages in
        if (huge_refused : bool)
        then reject tensor_pool_responseCode_REJECTED require_hugepages
               (if require_hugepages then "hugepages not available"
                else "standard pages requested")%string
        else
          let* node_refused := desired_node_id_refused (ar_desired_node_id request) in
          if (node_refused : bool)
          then reject tensor_pool_responseCode_REJECTED require_hugepages
                 "desired node_id unavailable"%string
          else attach_grant request role i require_hugepages
  end.

Definition publish_mode_of (request : tensor_pool_shmAttachRequest) : Z :=
  match ar_publish_mode request with
  | Some mode => if mode =? 0 then tensor_pool_publishMode_EXISTING_OR_CREATE else mode
  | None => tensor_pool_publishMode_EXISTING_OR_CREATE
  end.

Definition tp_driver_handle_attach (request : tensor_pool_shmAttachRequest) : M unit :=
  let reject code text :=
    tp_driver_send_attach_response (ar_correlation_id request) code None
      (cf_require_hugepages config) (Some text) in
  match ar_role request with
  | None => reject tensor_pool_responseCode_INVALID_PARAMS "invalid role"%string
  | Some role =>
    if ar_client_id request =? 0
    then reject tensor_pool_responseCode_INVALID_PARAMS "client_id must be non-zero"%string
    else
      let* used := gets (tp_driver_client_id_in_use (ar_client_id request)) in
      if (used : bool)
      then reject tensor_pool_responseCode_REJECTED "client_id already attached"%string
      else if negb (ar_expected_layout_version request =? 0) &&
              negb (ar_expected_layout_version request =? TP_LAYOUT_VERSION)
      then reject tensor_pool_responseCode_REJECTED "layout version mismatch"%string
      else
        let create_allowed :=
          publish_mode_of request =? tensor_pool_publishMode_EXISTING_OR_CREATE in
        let* target := resolve_stream (ar_stream_id request) create_allowed in
        match target with
        | inl (code, text) => reject code text
        | inr i => attach_checks request role i
        end
  end.

(** ** Dispatch *)

Definition driver_schema_id : Z := 901.
Definition driver_schema_version : Z := 1.
Definition shmAttachRequest_template : Z := 1.
Definition shmDetachRequest_template : Z := 3.
Definition shmLeaseKeepalive_template : Z := 5.
Definition shmAttachRequest_block : Z := 27.
Definition shmDetachRequest_block : Z := 25.
Definition shmLeaseKeepalive_block : Z := 25.
Definition role_values : list Z := [1; 2].
Definition publishMode_values : list Z := [1; 2].
Definition hugepagesPolicy_values : list Z := [0; 1; 2].
Definition driver_enum_null : Z := 255.

Definition attach_request_at `{Sbe} (b : bytes) : tensor_pool_shmAttachRequest :=
  {| ar_correlation_id := i64 (sbe_get 8 b (8 + 0));
     ar_stream_id := sbe_get 4 b (8 + 8);
     ar_client_id := sbe_get 4 b (8 + 12);
     ar_role := sbe_enum role_values driver_enum_null (sbe_get 1 b (8 + 16));
     ar_expected_layout_version := sbe_get 4 b (8 + 17);
     ar_publish_mode := sbe_enum publishMode_values driver_enum_null (sbe_get 1 b (8 + 21));
     ar_require_hugepages :=
       sbe_enum hugepagesPolicy_values driver_enum_null (sbe_get 1 b (8 + 22));
     ar_desired_node_id := sbe_get 4 b (8 + 23) |}.

Definition detach_request_at `{Sbe} (b : bytes) : tensor_pool_shmDetachRequest :=
  {| dr_correlation_id := i64 (sbe_get 8 b (8 + 0));
     dr_lease_id := sbe_get 8 b (8 + 8);
     dr_stream_id := sbe_get 4 b (8 + 16);
     dr_client_id := sbe_get 4 b (8 + 20);
     dr_role := sbe_enum role_values driver_enum_null (sbe_get 1 b (8 + 24)) |}.

Definition keepalive_at `{Sbe} (b : bytes) : tensor_pool_shmLeaseKeepalive :=
  {| ka_lease_id := sbe_get 8 b (8 + 0);
     ka_stream_id := sbe_get 4 b (8 + 8);
     ka_client_id := sbe_get 4 b (8 + 12);
     ka_role := sbe_enum role_values driver_enum_null (sbe_get 1 b (8 + 16)) |}.

(** [None]: the handler reads fields past the end of the fragment.  Only the
    block length of the header is checked, never the length of the fragment. *)
Definition tp_driver_on_control_fragment `{Sbe} (b : bytes) : option (M unit) :=
  if blen b <? messageHeader_encoded_length then Some (ret tt)
  else if negb (messageHeader_schemaId b =? driver_schema_id) ||
          (driver_schema_version <? messageHeader_version b) then Some (ret tt)
  else
    let body template block (handler : M unit) (next : option (M unit)) :=
      if messageHeader_templateId b =? template then
        if negb (messageHeader_blockLength b =? block) then Some (ret tt)
        else if blen b <? messageHeader_encoded_length + block then None
        else Some handler
      else next in
    body shmAttachRequest_template shmAttachRequest_block
      (tp_driver_handle_attach (attach_request_at b))
      (body shmDetachRequest_template shmDetachRequest_block
        (tp_driver_handle_detach (detach_request_at b))
        (body shmLeaseKeepalive_template shmLeaseKeepalive_block
          (tp_driver_handle_keepalive (keepalive_at b)) (Some (ret tt)))).

(** ** The duty cycle *)

(** The announce loop of [tp_driver_do_work], over the streams from [i] on. *)
Fixpoint announce_all (n i : nat) : M unit :=
  match n with
  | O => ret tt
  | S n' =>
    let* stream := gets (fun d => dv_streams d !!! i) in
    do* (if ds_epoch stream =? 0 then ret tt
         else tp_driver_send_announce i (ds_require_hugepages stream)) in
    announce_all n' (S i)
  end.

Definition announce_period_ms : Z :=
  if cf_announce_period_ms config =? 0 then 1000 else cf_announce_period_ms config.

(** [tp_driver_do_work] after it has polled the control subscription. *)
Definition tp_driver_do_work : M unit :=
  do* tp_driver_handle_expired_leases in
  let* now := now_ns in
  let* next := gets dv_next_announce_ns in
  let period := u64 (announce_period_ms * 1000000) in
  if (0 <? period) && (next <=? now) then
    let* count := gets (fun d => length (dv_streams d)) in
    do* announce_all count 0 in
    modify (set_next_announce (u64 (now + period)))
  else ret tt.

Definition tp_driver_init : driver :=
  {| dv_ranges := cf_stream_id_ranges config;
     dv_streams := (fun '(id, profile) =>
       {| ds_stream_id := id; ds_profile := profile; ds_epoch := 0; ds_epoch_created_ns := 0;
          ds_last_announce_ns := 0; ds_producer_lease_id := 0; ds_producer_client_id := 0;
          ds_require_hugepages := cf_require_hugepages config |}) <$> cf_streams config;
     dv_leases := []; dv_lease_capacity := 0; dv_lease_counter := 0; dv_next_announce_ns := 0;
     dv_cooldowns := []; dv_cooldown_capacity := 0; dv_tick := 0; dv_out := [] |}.

Definition tp_driver_start : M unit :=
  let* now := now_ns in
  modify (set_next_announce now).

(** Everything is freed and cleared after the shutdown notice. *)
Definition tp_driver_close : M unit :=
  do* tp_driver_send_driver_shutdown tensor_pool_shutdownReason_NORMAL NULL in
  modify (fun d => {| dv_ranges := []; dv_streams := []; dv_leases := []; dv_lease_capacity := 0;
    dv_lease_counter := 0; dv_next_announce_ns := 0; dv_cooldowns := [];
    dv_cooldown_capacity := 0; dv_tick := dv_tick d; dv_out := dv_out d |}).

End Driver.
