(* ===== verification/DriverLease.v ===== *)
(** * DriverLease: properties of the driver's lease table

    Every handler of [Driver] is shown to refine an abstract lease machine
    ([core_step]): the leases, the lease counter and, per stream, its identifier
    and producer.  The safety properties are invariants of that machine.  The
    same relation [evolves] carries what holds of every handler: epochs only
    grow, messages are only appended, and a lease that ends is revoked by a
    message. *)

From Stdlib Require Import ZArith Lia Bool.
From stdpp Require Import strings relations.
From S2P Require Import Prelude Sbe Driver.

#[local] Open Scope driver_scope.

(** ** The abstract lease machine *)

(** Of a stream: its identifier, its producer's lease and client, 0 for none. *)
Record core_t := {
  c_leases : list tp_driver_lease_t;
  c_counter : Z;
  c_streams : list (Z * Z * Z);
}.

Definition stream_key (s : tp_driver_stream_state_t) : Z * Z * Z :=
  (ds_stream_id s, ds_producer_lease_id s, ds_producer_client_id s).

Definition core (d : driver) : core_t :=
  {| c_leases := dv_leases d; c_counter := dv_lease_counter d;
     c_streams := stream_key <$> dv_streams d |}.

Definition find_key (id : Z) (ss : list (Z * Z * Z)) : option nat :=
  if id =? 0 then None else find_index (fun x => fst (fst x) =? id) ss.

Definition occupy (lease client : Z) (x : Z * Z * Z) : Z * Z * Z := (fst (fst x), lease, client).
Definition vacate (lease : Z) (x : Z * Z * Z) : Z * Z * Z :=
  if snd (fst x) =? lease then occupy 0 0 x else x.

(** The five moves of the lease table. *)
Inductive core_step : core_t -> core_t -> Prop :=
  | CCount ls n n' ss : n <= n' ->
      core_step (Build_core_t ls n ss) (Build_core_t ls n' ss)
  | CStream ls n ss id : find_key id ss = None ->
      core_step (Build_core_t ls n ss) (Build_core_t ls n (ss ++ [(id, 0, 0)]))
  | CGrant ls n ss l i x :
      n < dl_lease_id l -> 0 < dl_lease_id l ->
      dl_client_id l <> 0 -> dl_client_id l ∉ dl_client_id <$> ls ->
      dl_node_id l <> TP_NULL_U32 -> dl_node_id l ∉ dl_node_id <$> ls ->
      find_key (dl_stream_id l) ss = Some i -> ss !! i = Some x ->
      (dl_role l = tensor_pool_role_PRODUCER -> snd (fst x) = 0) ->
      core_step (Build_core_t ls n ss)
        (Build_core_t (ls ++ [l]) (dl_lease_id l)
           (if dl_role l =? tensor_pool_role_PRODUCER
            then alter (occupy (dl_lease_id l) (dl_client_id l)) i ss else ss))
  | CRenew ls n ss k l t : ls !! k = Some l ->
      core_step (Build_core_t ls n ss) (Build_core_t (<[k := with_expiry t l]> ls) n ss)
  | CEnd ls n ss k l : ls !! k = Some l ->
      core_step (Build_core_t ls n ss)
        (Build_core_t (delete k ls) n
           (match find_key (dl_stream_id l) ss with
            | Some i => alter (vacate (dl_lease_id l)) i ss
            | None => ss
            end)).

(** ** Invariant of the machine *)

Record core_inv (c : core_t) : Prop := {
  ci_ids : Forall (fun l => 0 < dl_lease_id l <= c_counter c) (c_leases c);
  ci_nodup_ids : NoDup (dl_lease_id <$> c_leases c);
  ci_nodup_clients : NoDup (dl_client_id <$> c_leases c);
  ci_clients : Forall (fun l => dl_client_id l <> 0) (c_leases c);
  ci_nodup_nodes : NoDup (dl_node_id <$> c_leases c);
  ci_nodes : Forall (fun l => dl_node_id l <> TP_NULL_U32) (c_leases c);
  ci_producer : forall id i x,
    find_key id (c_streams c) = Some i -> c_streams c !! i = Some x -> snd (fst x) <> 0 ->
    exists l, l ∈ c_leases c /\ dl_lease_id l = snd (fst x) /\ dl_client_id l = snd x /\
      dl_role l = tensor_pool_role_PRODUCER /\ dl_stream_id l = id;
  ci_holder : forall l, l ∈ c_leases c -> dl_role l = tensor_pool_role_PRODUCER ->
    exists i x, find_key (dl_stream_id l) (c_streams c) = Some i /\ c_streams c !! i = Some x /\
      snd (fst x) = dl_lease_id l;
  ci_stream : forall l, l ∈ c_leases c ->
    exists i, find_key (dl_stream_id l) (c_streams c) = Some i;
}.

Lemma find_key_Some id ss i :
  find_key id ss = Some i -> exists x, ss !! i = Some x /\ fst (fst x) = id /\ id <> 0.
Proof.
  unfold find_key. destruct (Z.eqb_spec id 0); [done|].
  intros (x & Hx & E%Z.eqb_eq)%find_index_lookup. eauto.
Qed.

Lemma find_index_ext {A} (f : A -> bool) l l' :
  (f <$> l) = (f <$> l') -> find_index f l = find_index f l'.
Proof.
  revert l'. induction l as [|x l IH]; intros [|y l'] H; simpl in *; try done.
  injection H as Hf Hl. rewrite Hf, (IH l' Hl). done.
Qed.

Lemma find_index_map {A B} (g : A -> B) (f : B -> bool) l :
  find_index f (g <$> l) = find_index (fun x => f (g x)) l.
Proof.
  induction l as [|x l IH]; [done|]. cbn. destruct (f (g x)); [done|]. f_equal. apply IH.
Qed.

(** Changes that keep the identifiers keep the searches. *)
Lemma find_key_alter id ss i g :
  (forall x, fst (fst (g x)) = fst (fst x)) -> find_key id (alter g i ss) = find_key id ss.
Proof.
  intros Hg. unfold find_key. destruct (id =? 0); [done|]. apply find_index_ext.
  apply list_eq. intros j. rewrite !list_lookup_fmap. destruct (decide (j = i)) as [->|Hne].
  - rewrite list_lookup_alter_eq. destruct (ss !! i); simpl; [|done]. by rewrite Hg.
  - by rewrite list_lookup_alter_ne by done.
Qed.

Lemma find_key_app id ss x i : find_key id ss = Some i -> find_key id (ss ++ [x]) = Some i.
Proof.
  unfold find_key. destruct (id =? 0); [done|]. revert i.
  induction ss as [|y ss IH]; intros i; simpl; [done|]. destruct (_ =? _); [done|].
  destruct (find_index _ ss) eqn:E; [|done]. intros [= <-]. simpl. by rewrite (IH _ eq_refl).
Qed.

Lemma find_key_app_inv id ss x i :
  find_key id (ss ++ [x]) = Some i ->
  find_key id ss = Some i \/ (find_key id ss = None /\ i = length ss /\ fst (fst x) = id).
Proof.
  unfold find_key. destruct (id =? 0); [done|]. revert i.
  induction ss as [|y ss IH]; intros i; simpl.
  - destruct (Z.eqb_spec (fst (fst x)) id); [|done]. intros [= <-]. auto.
  - destruct (_ =? _); [auto|]. destruct (find_index _ (ss ++ [x])) eqn:E; [|done].
    intros [= <-]. destruct (IH _ eq_refl) as [H|(H & -> & ?)]; rewrite H; simpl; auto.
Qed.

Lemma occupy_id lease client x : fst (fst (occupy lease client x)) = fst (fst x).
Proof. done. Qed.
Lemma vacate_id lease x : fst (fst (vacate lease x)) = fst (fst x).
Proof. unfold vacate. by destruct (_ =? _). Qed.

Lemma find_key_inj id id' ss i : find_key id ss = Some i -> find_key id' ss = Some i -> id = id'.
Proof.
  intros (x & Hx & Ex & _)%find_key_Some (y & Hy & Ey & _)%find_key_Some. congruence.
Qed.

Lemma NoDup_fmap_eq {A B} (f : A -> B) l x y :
  NoDup (f <$> l) -> x ∈ l -> y ∈ l -> f x = f y -> x = y.
Proof.
  intros Hnd [i Hi]%list_elem_of_lookup [j Hj]%list_elem_of_lookup Hf.
  assert (i = j) as ->; [|congruence].
  eapply (NoDup_lookup _ _ _ (f x) Hnd); rewrite list_lookup_fmap; [by rewrite Hi|].
  rewrite Hj. simpl. by rewrite Hf.
Qed.

Lemma NoDup_fmap_snoc {A B} (f : A -> B) l x :
  NoDup (f <$> l) -> f x ∉ f <$> l -> NoDup (f <$> (l ++ [x])).
Proof.
  intros Hnd Hx. rewrite fmap_app. apply NoDup_app. split; [done|]. split.
  - intros y Hy ->%list_elem_of_singleton. done.
  - apply NoDup_singleton.
Qed.

Lemma NoDup_fmap_delete {A B} (f : A -> B) l k : NoDup (f <$> l) -> NoDup (f <$> delete k l).
Proof. intros H. apply (sublist_NoDup _ _ H), fmap_sublist, sublist_delete. Qed.

Lemma fmap_insert_same {A B} (f : A -> B) (l : list A) k x y :
  l !! k = Some x -> f y = f x -> f <$> <[k := y]> l = f <$> l.
Proof.
  intros Hk Hf. rewrite list_fmap_insert, Hf. apply list_insert_id. by rewrite list_lookup_fmap, Hk.
Qed.

Lemma delete_subset {A} (l : list A) k x : x ∈ delete k l -> x ∈ l.
Proof. intros H. apply (elem_of_sublist _ _ _ H), sublist_delete. Qed.

(** The lease that is removed is the only one of its identifier. *)
Lemma delete_other ls k l l' :
  NoDup (dl_lease_id <$> ls) -> ls !! k = Some l -> l' ∈ delete k ls ->
  dl_lease_id l' <> dl_lease_id l.
Proof.
  intros Hnd Hk Hin E. rewrite (delete_Permutation ls k l Hk) in Hnd. simpl in Hnd.
  apply NoDup_cons in Hnd as [Hn _]. apply Hn. rewrite <- E. by apply list_elem_of_fmap_2.
Qed.

Lemma delete_elem_other {A} (l : list A) k x y :
  l !! k = Some x -> y ∈ l -> y <> x -> y ∈ delete k l.
Proof.
  intros Hk Hin Hne. rewrite (delete_Permutation l k x Hk) in Hin.
  by apply elem_of_cons in Hin as [->|Hin].
Qed.

Lemma lookup_alter_Some {A} (f : A -> A) (l : list A) i j y :
  alter f i l !! j = Some y ->
  exists x, l !! j = Some x /\ ((i = j /\ y = f x) \/ (i <> j /\ y = x)).
Proof.
  rewrite list_lookup_alter. destruct (decide (i = j)) as [->|Hne]; [|eauto 6].
  destruct (l !! j) as [x|]; simpl; [|done]. intros [= <-]. exists x. auto.
Qed.

(** The moves preserve the invariant, one lemma per kind. *)

Lemma core_inv_stream ls n ss id :
  find_key id ss = None -> core_inv (Build_core_t ls n ss) ->
  core_inv (Build_core_t ls n (ss ++ [(id, 0, 0)])).
Proof.
  intros Hnone [? ? ? ? ? ? Hp Hh Hs]. simpl in *. constructor; simpl; try done.
  - intros id' i x Hf Hx Hne. apply find_key_app_inv in Hf as [Hf|(Hf & -> & Hid)].
    + apply (Hp id' i x); [done| |done]. destruct (find_key_Some _ _ _ Hf) as (y & Hy & _).
      by rewrite lookup_app_l in Hx by (by eapply lookup_lt_Some).
    + rewrite list_lookup_middle in Hx by done. injection Hx as <-. done.
  - intros l Hl Hr. destruct (Hh l Hl Hr) as (i & x & Hf & Hx & Hid). exists i, x.
    split; [by apply find_key_app|]. split; [by apply lookup_app_l_Some|done].
  - intros l Hl. destruct (Hs l Hl) as [i Hi]. exists i. by apply find_key_app.
Qed.

Lemma core_inv_renew ls n ss k l t :
  ls !! k = Some l -> core_inv (Build_core_t ls n ss) ->
  core_inv (Build_core_t (<[k := with_expiry t l]> ls) n ss).
Proof.
  intros Hk [Hi ? ? Hc ? Hn Hp Hh Hs]. simpl in *.
  assert (Hin : forall l', l' ∈ <[k := with_expiry t l]> ls -> exists l0, l0 ∈ ls /\
    dl_lease_id l' = dl_lease_id l0 /\ dl_client_id l' = dl_client_id l0 /\
    dl_node_id l' = dl_node_id l0 /\ dl_role l' = dl_role l0 /\ dl_stream_id l' = dl_stream_id l0).
  { intros l' [j Hj]%list_elem_of_lookup. destruct (decide (j = k)) as [->|Hne].
    - rewrite list_lookup_insert_eq in Hj by (by eapply lookup_lt_Some). injection Hj as <-.
      exists l. split; [by eapply list_elem_of_lookup_2|done].
    - rewrite list_lookup_insert_ne in Hj by done. exists l'.
      split; [by eapply list_elem_of_lookup_2|done]. }
  rewrite Forall_forall in Hi, Hc, Hn.
  constructor; simpl; try (rewrite (fmap_insert_same _ _ _ l); done).
  - apply Forall_forall. intros l' (l0 & H0 & -> & _)%Hin. auto.
  - apply Forall_forall. intros l' (l0 & H0 & _ & -> & _)%Hin. auto.
  - apply Forall_forall. intros l' (l0 & H0 & _ & _ & -> & _)%Hin. auto.
  - intros id i x Hf Hx Hne. destruct (Hp id i x Hf Hx Hne) as (l0 & [j Hj]%list_elem_of_lookup & ?).
    destruct (decide (j = k)) as [->|Hjk].
    + exists (with_expiry t l). split; [|by replace l0 with l in * by congruence].
      apply (list_elem_of_lookup_2 _ k). apply list_lookup_insert_eq. by eapply lookup_lt_Some.
    + exists l0. split; [|done]. apply (list_elem_of_lookup_2 _ j).
      by rewrite list_lookup_insert_ne.
  - intros l' (l0 & H0 & E1 & _ & _ & E2 & E3)%Hin Hr. rewrite E1, E3. apply Hh; congruence.
  - intros l' (l0 & H0 & _ & _ & _ & _ & E3)%Hin. rewrite E3. auto.
Qed.

Lemma core_inv_end ls n ss k l :
  ls !! k = Some l -> core_inv (Build_core_t ls n ss) ->
  core_inv (Build_core_t (delete k ls) n
    (match find_key (dl_stream_id l) ss with
     | Some i => alter (vacate (dl_lease_id l)) i ss | None => ss end)).
Proof.
  intros Hk [Hi Hnd ? Hc ? Hn Hp Hh Hs]. simpl in *.
  pose proof (list_elem_of_lookup_2 _ _ _ Hk) as Hl. destruct (Hs l Hl) as [j Hj]. rewrite Hj.
  assert (Hfind : forall id, find_key id (alter (vacate (dl_lease_id l)) j ss) = find_key id ss)
    by (intros; apply find_key_alter, vacate_id).
  assert (Hsub : forall P, Forall P ls -> Forall P (delete k ls)).
  { intros P HP. rewrite Forall_forall in HP |- *. intros x Hx%delete_subset. auto. }
  constructor; simpl; auto using NoDup_fmap_delete.
  - intros id i x Hf Hx Hne. rewrite Hfind in Hf.
    apply lookup_alter_Some in Hx as (y & Hy & [[-> ->]|[Hij ->]]).
    + unfold vacate in Hne |- *. destruct (Z.eqb_spec (snd (fst y)) (dl_lease_id l)); [done|].
      destruct (Hp id i y Hf Hy Hne) as (l' & Hl' & Hid & ?). exists l'. split; [|done].
      apply (delete_elem_other ls k l); [done..|]. congruence.
    + destruct (Hp id i y Hf Hy Hne) as (l' & Hl' & Hid & Hcl & Hrole & Hst). exists l'.
      split; [|done]. apply (delete_elem_other ls k l); [done..|]. intros ->.
      apply Hij. rewrite Hst in Hj. congruence.
  - intros l' Hl' Hr. pose proof (delete_other _ _ _ _ Hnd Hk Hl') as Hne.
    apply delete_subset in Hl'. destruct (Hh l' Hl' Hr) as (i & x & Hf & Hx & Hid).
    exists i, (if decide (j = i) then vacate (dl_lease_id l) x else x).
    rewrite Hfind. split; [done|]. rewrite list_lookup_alter. destruct (decide (j = i)) as [->|].
    + rewrite Hx. split; [done|]. unfold vacate. rewrite Hid.
      by rewrite (proj2 (Z.eqb_neq _ _) Hne).
    + done.
  - intros l' Hl'%delete_subset. rewrite Hfind. auto.
Qed.

Lemma core_inv_grant ls n ss l i x :
  n < dl_lease_id l -> 0 < dl_lease_id l ->
  dl_client_id l <> 0 -> dl_client_id l ∉ dl_client_id <$> ls ->
  dl_node_id l <> TP_NULL_U32 -> dl_node_id l ∉ dl_node_id <$> ls ->
  find_key (dl_stream_id l) ss = Some i -> ss !! i = Some x ->
  (dl_role l = tensor_pool_role_PRODUCER -> snd (fst x) = 0) ->
  core_inv (Build_core_t ls n ss) ->
  core_inv (Build_core_t (ls ++ [l]) (dl_lease_id l)
    (if dl_role l =? tensor_pool_role_PRODUCER
     then alter (occupy (dl_lease_id l) (dl_client_id l)) i ss else ss)).
Proof.
  intros Hn Hpos Hc0 Hc Hn0 Hnn Hfi Hxi Hfree [Hi Hnd ? Hcl ? Hno Hp Hh Hs]. simpl in *.
  set (ss' := if dl_role l =? tensor_pool_role_PRODUCER then _ else _).
  assert (Hfind : forall id, find_key id ss' = find_key id ss).
  { intros id. unfold ss'. destruct (_ =? _); [by apply find_key_alter|done]. }
  rewrite Forall_forall in Hi.
  assert (Hnew : dl_lease_id l ∉ dl_lease_id <$> ls).
  { intros (l' & E & Hl')%list_elem_of_fmap. specialize (Hi l' Hl'). lia. }
  constructor; simpl; auto using NoDup_fmap_snoc.
  - apply Forall_app. split; [|by constructor; [lia|]]. apply Forall_forall.
    intros l' Hl'. specialize (Hi l' Hl'). lia.
  - apply Forall_app. split; [done|]. by constructor.
  - apply Forall_app. split; [done|]. by constructor.
  - intros id j y Hf Hy Hne. rewrite Hfind in Hf.
    assert (Hold : ss !! j = Some y ->
      exists l', l' ∈ ls ++ [l] /\ dl_lease_id l' = snd (fst y) /\ dl_client_id l' = snd y /\
        dl_role l' = tensor_pool_role_PRODUCER /\ dl_stream_id l' = id).
    { intros Hy0. destruct (Hp id j y Hf Hy0 Hne) as (l' & ? & ?). exists l'.
      split; [|done]. apply elem_of_app. by left. }
    unfold ss' in Hy. destruct (Z.eqb_spec (dl_role l) tensor_pool_role_PRODUCER); [|auto].
    apply lookup_alter_Some in Hy as (y0 & Hy0 & [[<- ->]|[Hij ->]]); [|auto].
    exists l. split; [apply elem_of_app; right; by apply list_elem_of_singleton|].
    split_and!; try done. by apply (find_key_inj _ _ ss i).
  - intros l' Hl' Hr. apply elem_of_app in Hl' as [Hl'|Hl'%list_elem_of_singleton].
    + destruct (Hh l' Hl' Hr) as (j & y & Hf & Hy & Hid). exists j, y. rewrite Hfind.
      split; [done|]. split; [|done]. unfold ss'.
      destruct (Z.eqb_spec (dl_role l) tensor_pool_role_PRODUCER) as [E|]; [|done].
      rewrite list_lookup_alter_ne; [done|]. intros <-. specialize (Hfree E).
      assert (y = x) by congruence. subst y. specialize (Hi l' Hl'). lia.
    + subst l'. exists i, (occupy (dl_lease_id l) (dl_client_id l) x). rewrite Hfind.
      split; [done|]. split; [|done]. unfold ss'. rewrite Hr, Z.eqb_refl.
      by rewrite list_lookup_alter_eq, Hxi.
  - intros l' [Hl'|Hl'%list_elem_of_singleton]%elem_of_app; rewrite Hfind; [auto|]. subst l'. eauto.
Qed.

Lemma core_step_inv c c' : core_step c c' -> core_inv c -> core_inv c'.
Proof.
  intros [ls n n' ss Hle|ls n ss id Hf|ls n ss l i x|ls n ss k l t Hk|ls n ss k l Hk] Hc.
  - destruct Hc as [Hi ? ? ? ? ? ? ? ?]. simpl in *. constructor; simpl; try done.
    apply (Forall_impl _ _ _ Hi). simpl. intros. lia.
  - by apply core_inv_stream.
  - by apply (core_inv_grant ls n ss l i x).
  - by apply core_inv_renew.
  - by apply core_inv_end.
Qed.

Lemma core_steps_inv c c' : rtc core_step c c' -> core_inv c -> core_inv c'.
Proof. induction 1; [done|]. intros. by eauto using core_step_inv. Qed.

(** ** What every piece of a handler does *)

Section Handlers.
Context (w : world) (config : tp_driver_config_t).

(** The clock counts nanoseconds from some origin and fits in 63 bits. *)
Definition clock_ok : Prop := forall n, 0 <= w_clock w n < 2 ^ 63.
Context (Hclock : clock_ok).

(** Counters stay far from 2^64 for the first 2^62 uses of the world. *)
Record bounded (d : driver) : Prop := {
  bd_counter : 0 <= dv_lease_counter d <= 2 ^ 63 + Z.of_nat (dv_tick d);
  bd_epochs : Forall (fun s => 0 <= ds_epoch s <= 2 ^ 63 + Z.of_nat (dv_tick d)) (dv_streams d);
}.

(** Streams keep their place and identifier, and epochs do not decrease. *)
Definition epochs_le (d d' : driver) : Prop :=
  forall i s, dv_streams d !! i = Some s ->
  exists s', dv_streams d' !! i = Some s' /\ ds_stream_id s' = ds_stream_id s /\
    ds_epoch s <= ds_epoch s'.

(** A lease that is gone has been revoked by a message. *)
Definition revokes (d d' : driver) : Prop :=
  forall l, l ∈ dv_leases d ->
  (exists l', l' ∈ dv_leases d' /\ dl_lease_id l' = dl_lease_id l) \/
  (exists t l' reason text, ShmLeaseRevoked t l' reason text ∈ dv_out d' /\ dl_lease_id l' = dl_lease_id l).

Record evolves (d d' : driver) : Prop := {
  ev_tick : (dv_tick d <= dv_tick d')%nat;
  ev_out : dv_out d `prefix_of` dv_out d';
  ev_revokes : revokes d d';
  ev_rest : Z.of_nat (dv_tick d') < 2 ^ 62 -> bounded d ->
    bounded d' /\ epochs_le d d' /\ rtc core_step (core d) (core d');
}.

(** The pieces that leave the lease table alone. *)
Record quiet (d d' : driver) : Prop := {
  qt_tick : (dv_tick d <= dv_tick d')%nat;
  qt_out : dv_out d `prefix_of` dv_out d';
  qt_core : core d = core d';
  qt_rest : Z.of_nat (dv_tick d') < 2 ^ 62 -> bounded d -> bounded d' /\ epochs_le d d';
}.

Definition keeps (R : driver -> driver -> Prop) {A} (m : M A) : Prop :=
  forall d, R d (snd (m d)).

Lemma keeps_ret R {A} (a : A) : Reflexive R -> keeps R (ret a).
Proof. intros HR d. apply HR. Qed.
Lemma keeps_gets R {A} (f : driver -> A) : Reflexive R -> keeps R (gets f).
Proof. intros HR d. apply HR. Qed.

Lemma keeps_bind R {A B} (m : M A) (k : A -> M B) :
  Transitive R -> keeps R m -> (forall a, keeps R (k a)) -> keeps R (bind m k).
Proof.
  intros HR Hm Hk d. unfold bind. specialize (Hm d). destruct (m d) as [a d']. simpl in *.
  by apply (HR _ d'), Hk.
Qed.

#[local] Instance epochs_le_refl : Reflexive epochs_le.
Proof. intros d i s Hs. exists s. split; [done|]. split; [done|lia]. Qed.
#[local] Instance epochs_le_trans : Transitive epochs_le.
Proof.
  intros d1 d2 d3 H12 H23 i s Hs. destruct (H12 i s Hs) as (s2 & H2 & E2 & L2).
  destruct (H23 i s2 H2) as (s3 & H3 & E3 & L3). exists s3. split; [done|]. split; [congruence|lia].
Qed.

#[local] Instance evolves_refl : Reflexive evolves.
Proof.
  intros d. constructor; [lia|done| |].
  - intros l Hl. left. by exists l.
  - intros _ Hb. split; [done|]. split; [reflexivity|]. apply rtc_refl.
Qed.

#[local] Instance evolves_trans : Transitive evolves.
Proof.
  intros d1 d2 d3 H12 H23. destruct H12, H23. constructor; [lia|by etrans| |].
  - intros l Hl. destruct (ev_revokes0 l Hl) as [(l2 & Hl2 & E2)|(t & l2 & r & text & Hin & E2)].
    + destruct (ev_revokes1 l2 Hl2) as [(l3 & Hl3 & E3)|(t & l3 & r & text & Hin & E3)].
      * left. exists l3. split; [done|congruence].
      * right. exists t, l3, r, text. split; [done|congruence].
    + right. exists t, l2, r, text. split; [|done]. destruct ev_out1 as [out ->].
      apply elem_of_app. by left.
  - intros Ht Hb. destruct ev_rest0 as (Hb2 & He2 & Hc2); [lia|done|].
    destruct ev_rest1 as (Hb3 & He3 & Hc3); [done|done|]. split; [done|].
    split; [by etrans|by etrans].
Qed.

#[local] Instance quiet_refl : Reflexive quiet.
Proof. intros d. constructor; [lia|done|done|]. intros _ Hb. split; [done|reflexivity]. Qed.
#[local] Instance quiet_trans : Transitive quiet.
Proof.
  intros d1 d2 d3 H12 H23. destruct H12, H23. constructor; [lia|by etrans|congruence|].
  intros Ht Hb. destruct qt_rest0 as (Hb2 & He2); [lia|done|].
  destruct qt_rest1 as (Hb3 & He3); [done|done|]. split; [done|by etrans].
Qed.

Lemma quiet_evolves d d' : quiet d d' -> evolves d d'.
Proof.
  intros [Ht Ho Hc Hr]. constructor; [done|done| |].
  - intros l Hl. left. exists l. split; [|done]. replace (dv_leases d') with (c_leases (core d'))
      by done. by rewrite <- Hc.
  - intros H62 Hb. destruct (Hr H62 Hb). split; [done|]. split; [done|]. rewrite Hc. apply rtc_refl.
Qed.

Lemma keeps_quiet {A} (m : M A) : keeps quiet m -> keeps evolves m.
Proof. intros H d. apply quiet_evolves, H. Qed.

(** *** The quiet pieces *)

Lemma bounded_mono (d d' : driver) :
  bounded d -> (dv_tick d <= dv_tick d')%nat -> dv_lease_counter d' = dv_lease_counter d ->
  dv_streams d' = dv_streams d -> bounded d'.
Proof.
  intros [Hc He] Ht Ec Es. constructor.
  - rewrite Ec. lia.
  - rewrite Es. apply (Forall_impl _ _ _ He). simpl. intros. lia.
Qed.

(** A change of none of the streams, leases and counters. *)
Lemma quiet_same d d' :
  (dv_tick d <= dv_tick d')%nat -> dv_out d `prefix_of` dv_out d' ->
  dv_lease_counter d' = dv_lease_counter d -> dv_streams d' = dv_streams d ->
  dv_leases d' = dv_leases d -> quiet d d'.
Proof.
  intros Ht Ho Ec Es El. constructor; [done|done| |].
  - unfold core. by rewrite Ec, Es, El.
  - intros _ Hb. split; [by apply (bounded_mono d)|]. intros i s Hs. exists s. rewrite Es.
    split; [done|]. split; [done|lia].
Qed.

Lemma keeps_use {A} (f : nat -> A) : keeps quiet (use f).
Proof. intros d. apply quiet_same; simpl; (done || lia). Qed.

Lemma keeps_send m : keeps quiet (send m).
Proof. intros d. apply quiet_same; simpl; try done. by exists [m]. Qed.

Lemma keeps_cooldowns f g : keeps quiet (modify (fun d => set_cooldowns (f d) (g d) d)).
Proof. intros d. by apply quiet_same. Qed.

Lemma keeps_set_cooldowns l n : keeps quiet (modify (set_cooldowns l n)).
Proof. intros d. by apply quiet_same. Qed.

(** A change of one stream that keeps what the lease table knows of it. *)
Lemma keeps_update_stream f i :
  (forall s, stream_key (f s) = stream_key s) -> (forall s, ds_epoch (f s) = ds_epoch s) ->
  keeps quiet (update_stream f i).
Proof.
  intros Hk He d. constructor; simpl; [done|done| |].
  - unfold core. f_equal. simpl. apply list_eq. intros j.
    rewrite !list_lookup_fmap, list_lookup_alter. destruct (decide (i = j)) as [->|]; [|done].
    destruct (dv_streams d !! j); simpl; [by rewrite Hk|done].
  - intros _ [Hc Hb]. split.
    + constructor; [done|]. simpl. rewrite Forall_forall in Hb |- *.
      intros s [j Hj]%list_elem_of_lookup. apply lookup_alter_Some in Hj as (x & Hx & [[_ ->]|[_ ->]]).
      * rewrite He. apply Hb. by eapply list_elem_of_lookup_2.
      * apply Hb. by eapply list_elem_of_lookup_2.
    + intros j s Hs. simpl. rewrite list_lookup_alter. destruct (decide (i = j)) as [->|].
      * rewrite Hs. exists (f s). split; [done|]. rewrite He. split; [|lia].
        pose proof (Hk s) as E. by injection E.
      * exists s. split; [done|]. split; [done|lia].
Qed.

(** The clock tick of a bump pays for the increment. *)
Lemma keeps_bump_epoch i : keeps quiet (tp_driver_bump_epoch w i).
Proof.
  intros d. unfold tp_driver_bump_epoch, now_ns, use, bind, update_stream, modify. simpl.
  pose proof (Hclock (dv_tick d)) as Hnow. set (now := w_clock w (dv_tick d)) in *.
  set (f := fun s => if now <=? ds_epoch s then with_epoch (u64 (ds_epoch s + 1)) s
                     else with_epoch now s).
  assert (Hk : forall s, stream_key (f s) = stream_key s)
    by (intros s; unfold f; by destruct (_ <=? _)).
  assert (Hid : forall s, ds_stream_id (f s) = ds_stream_id s)
    by (intros s; unfold f; by destruct (_ <=? _)).
  assert (Hf : forall s, 0 <= ds_epoch s <= 2 ^ 63 + Z.of_nat (dv_tick d) ->
            Z.of_nat (S (dv_tick d)) < 2 ^ 62 ->
            ds_epoch s < ds_epoch (f s) <= 2 ^ 63 + Z.of_nat (S (dv_tick d))).
  { intros s Hs Ht. unfold f. destruct (Z.leb_spec now (ds_epoch s)); simpl; [|lia].
    rewrite u64_small by ulia. lia. }
  constructor; simpl; [lia|done| |].
  - unfold core. f_equal. simpl. apply list_eq. intros j.
    rewrite !list_lookup_fmap, list_lookup_alter. destruct (decide (i = j)) as [->|]; [|done].
    destruct (dv_streams d !! j); simpl; [by rewrite Hk|done].
  - intros Ht [Hc Hb]. rewrite Forall_forall in Hb. split.
    + constructor; [simpl in *; lia|]. simpl. apply Forall_forall.
      intros s [j Hj]%list_elem_of_lookup.
      apply lookup_alter_Some in Hj as (x & Hx & [[_ ->]|[_ ->]]);
        apply list_elem_of_lookup_2 in Hx; specialize (Hb x Hx);
        [pose proof (Hf x Hb Ht); lia|lia].
    + intros j s Hs. simpl. rewrite list_lookup_alter. destruct (decide (i = j)) as [->|].
      * rewrite Hs. exists (f s). split; [done|]. split; [apply Hid|].
        apply list_elem_of_lookup_2 in Hs. pose proof (Hf s (Hb s Hs) Ht). lia.
      * exists s. split; [done|]. split; [done|lia].
Qed.

Create HintDb keeps.
#[local] Hint Resolve keeps_use keeps_send keeps_cooldowns keeps_set_cooldowns keeps_bump_epoch
  keeps_ret keeps_gets quiet_refl quiet_trans : keeps.
#[local] Hint Extern 2 (keeps _ (update_stream _ _)) => apply keeps_update_stream; done : keeps.

(** Follow the structure of a handler: binds, tests, then the known pieces. *)
Ltac keeps_tac :=
  repeat match goal with
  | |- keeps _ (bind _ _) => apply keeps_bind; [apply _| |intros ?]
  | |- keeps _ (if ?c then _ else _) => destruct c
  | |- keeps _ (match ?m with _ => _ end) => destruct m
  end; eauto with keeps.

Lemma keeps_now : keeps quiet (now_ns w).
Proof. apply keeps_use. Qed.
#[local] Hint Resolve keeps_now : keeps.

Lemma keeps_seed : keeps quiet (tp_driver_seed_u64 w).
Proof. unfold tp_driver_seed_u64. keeps_tac. Qed.
#[local] Hint Resolve keeps_seed : keeps.

Lemma keeps_prune now : keeps quiet (tp_driver_prune_node_id_cooldowns now).
Proof. apply keeps_cooldowns. Qed.
#[local] Hint Resolve keeps_prune : keeps.

Lemma keeps_in_cooldown id now : keeps quiet (tp_driver_node_id_in_cooldown id now).
Proof. unfold tp_driver_node_id_in_cooldown. keeps_tac. Qed.
#[local] Hint Resolve keeps_in_cooldown : keeps.

Lemma keeps_grow count capacity : keeps quiet (grow w count capacity).
Proof. unfold grow. keeps_tac. Qed.
#[local] Hint Resolve keeps_grow : keeps.

Lemma keeps_record_cooldown id now : keeps quiet (tp_driver_record_node_id_cooldown w config id now).
Proof.
  unfold tp_driver_record_node_id_cooldown. keeps_tac.
Qed.
#[local] Hint Resolve keeps_record_cooldown : keeps.

Lemma keeps_node_id_attempts n : forall attempt counter now,
  keeps quiet (node_id_attempts w n attempt counter now).
Proof. induction n as [|n IH]; intros; cbn [node_id_attempts]; keeps_tac. Qed.
#[local] Hint Resolve keeps_node_id_attempts : keeps.

Lemma keeps_allocate_stream_id : keeps quiet tp_driver_allocate_stream_id.
Proof. unfold tp_driver_allocate_stream_id. keeps_tac. intros d. by apply quiet_same. Qed.

Lemma keeps_create_regions n : keeps quiet (create_regions w n).
Proof. induction n as [|n IH]; cbn [create_regions]; keeps_tac. Qed.
#[local] Hint Resolve keeps_create_regions : keeps.

Lemma keeps_create_shm_epoch i : keeps quiet (tp_driver_create_shm_epoch w i).
Proof. unfold tp_driver_create_shm_epoch. keeps_tac. Qed.
#[local] Hint Resolve keeps_create_shm_epoch : keeps.

Lemma keeps_attach_response c code g h text :
  keeps quiet (tp_driver_send_attach_response w c code g h text).
Proof. unfold tp_driver_send_attach_response. keeps_tac. Qed.
#[local] Hint Resolve keeps_attach_response : keeps.

Lemma keeps_detach_response c code text : keeps quiet (tp_driver_send_detach_response c code text).
Proof. apply keeps_send. Qed.
#[local] Hint Resolve keeps_detach_response : keeps.

Lemma keeps_announce i h : keeps quiet (tp_driver_send_announce w i h).
Proof. unfold tp_driver_send_announce. keeps_tac. Qed.
#[local] Hint Resolve keeps_announce : keeps.

Lemma keeps_renew_epoch i : keeps quiet (renew_epoch w i).
Proof. unfold renew_epoch. keeps_tac. Qed.
#[local] Hint Resolve keeps_renew_epoch : keeps.

Lemma keeps_hugepages_refused policy h : keeps quiet (hugepages_refused w policy h).
Proof. unfold hugepages_refused. keeps_tac. Qed.
#[local] Hint Resolve keeps_hugepages_refused : keeps.

Lemma keeps_desired_node_id_refused id : keeps quiet (desired_node_id_refused w id).
Proof. unfold desired_node_id_refused. keeps_tac. Qed.
#[local] Hint Resolve keeps_desired_node_id_refused : keeps.

Lemma keeps_attach_epoch i role h : keeps quiet (attach_epoch w i role h).
Proof. unfold attach_epoch. keeps_tac. Qed.
#[local] Hint Resolve keeps_attach_epoch : keeps.

Lemma keeps_announce_all n : forall i, keeps quiet (announce_all w n i).
Proof. induction n as [|n IH]; intros i; cbn [announce_all]; keeps_tac. Qed.

(** *** The pieces that move the lease table *)

Lemma find_stream_core id d : tp_driver_find_stream id d = find_key id (c_streams (core d)).
Proof.
  unfold tp_driver_find_stream, find_key. destruct (id =? 0); [done|]. simpl.
  by rewrite find_index_map.
Qed.

Lemma seed_range d : 0 < fst (tp_driver_seed_u64 w d) < 2 ^ 63.
Proof.
  unfold tp_driver_seed_u64, bind, use, ret. simpl.
  rewrite land_pow2_mask by lia. pose proof (Z.mod_pos_bound (w_random w (dv_tick d)) (2 ^ 63)).
  destruct (Z.eqb_spec (w_random w (dv_tick d) mod 2 ^ 63) 0); lia.
Qed.

(** The identifier a grant takes: never 0, and above every earlier one. *)
Lemma next_lease_id_frame d :
  let '(id, d') := tp_driver_next_lease_id w d in
  id <> 0 /\ dv_lease_counter d' = id /\
  dv_leases d' = dv_leases d /\ dv_streams d' = dv_streams d /\ dv_out d' = dv_out d /\
  (dv_tick d <= dv_tick d')%nat.
Proof.
  assert (Hu : forall c, (if u64 (c + 1) =? 0 then u64 (u64 (c + 1) + 1) else u64 (c + 1)) <> 0).
  { intros c. destruct (Z.eqb_spec (u64 (c + 1)) 0) as [->|]; done. }
  unfold tp_driver_next_lease_id, seed_counter, tp_driver_seed_u64, bind, use, ret, gets, modify.
  cbn -[Z.land Z.pow u64]. destruct (Z.eqb_spec (dv_lease_counter d) 0) as [E|E];
    cbn -[Z.land Z.pow u64]; split_and!; (done || lia || apply Hu).
Qed.

Lemma next_lease_id_range d :
  bounded d -> Z.of_nat (dv_tick d) < 2 ^ 62 ->
  dv_lease_counter d < fst (tp_driver_next_lease_id w d) <=
    Z.max (2 ^ 63) (dv_lease_counter d + 1).
Proof.
  intros [Hc _] Ht. unfold tp_driver_next_lease_id, seed_counter.
  pose proof (seed_range d) as Hs. unfold tp_driver_seed_u64, bind, use, ret, gets, modify in *.
  cbn -[Z.land Z.pow u64] in *. destruct (Z.eqb_spec (dv_lease_counter d) 0) as [E|E].
  - cbn -[Z.land Z.pow u64] in *. set (seed := if _ =? 0 then 1 else _) in *.
    rewrite (u64_small (seed + 1)) by ulia.
    replace (seed + 1 =? 0) with false by (symmetry; apply Z.eqb_neq; lia). simpl. lia.
  - cbn -[Z.land Z.pow u64]. rewrite (u64_small (dv_lease_counter d + 1)) by ulia.
    replace (dv_lease_counter d + 1 =? 0) with false by (symmetry; apply Z.eqb_neq; lia). simpl.
    lia.
Qed.

Lemma snd_bind {A B} (m : M A) (k : A -> M B) d : snd (bind m k d) = snd (k (fst (m d)) (snd (m d))).
Proof. unfold bind. by destruct (m d). Qed.

Lemma bind_run {A B} (m : M A) (k : A -> M B) d a d' : m d = (a, d') -> bind m k d = k a d'.
Proof. unfold bind. by intros ->. Qed.

Lemma bind_gets {A B} (f : driver -> A) (k : A -> M B) d : bind (gets f) k d = k (f d) d.
Proof. done. Qed.

Lemma keeps_run R {A} (m : M A) d a d' : keeps R m -> m d = (a, d') -> R d d'.
Proof. intros H E. specialize (H d). by rewrite E in H. Qed.

Lemma quiet_leases d d' : quiet d d' -> dv_leases d' = dv_leases d.
Proof. intros [_ _ Hc _]. by injection Hc. Qed.
Lemma quiet_counter d d' : quiet d d' -> dv_lease_counter d' = dv_lease_counter d.
Proof. intros [_ _ Hc _]. by injection Hc. Qed.
Lemma quiet_find d d' id : quiet d d' -> tp_driver_find_stream id d' = tp_driver_find_stream id d.
Proof. intros [_ _ Hc _]. by rewrite !find_stream_core, Hc. Qed.
Lemma quiet_stream d d' i s :
  quiet d d' -> dv_streams d !! i = Some s ->
  exists s', dv_streams d' !! i = Some s' /\ stream_key s' = stream_key s.
Proof.
  intros [_ _ Hc _] Hs. assert (H : c_streams (core d') !! i = c_streams (core d) !! i) by (by rewrite Hc).
  simpl in H. rewrite !list_lookup_fmap, Hs in H. destruct (dv_streams d' !! i) as [s'|]; [|done].
  exists s'. split; [done|]. simpl in H. congruence.
Qed.

Lemma find_stream_lookup id d i :
  tp_driver_find_stream id d = Some i -> exists s, dv_streams d !! i = Some s /\ ds_stream_id s = id.
Proof.
  unfold tp_driver_find_stream. destruct (_ =? _); [done|].
  intros (s & Hs & E%Z.eqb_eq)%find_index_lookup. eauto.
Qed.

Lemma fmap_alter {A B} (g : A -> B) (f : A -> A) (f' : B -> B) i (l : list A) :
  (forall x, g (f x) = f' (g x)) -> g <$> alter f i l = alter f' i (g <$> l).
Proof.
  intros H. apply list_eq. intros j. rewrite list_lookup_fmap, !list_lookup_alter, !list_lookup_fmap.
  destruct (decide (i = j)); [|done]. destruct (l !! i); simpl; [by rewrite H|done].
Qed.

(** The lease is taken off the table and its stream vacated. *)
Lemma release_remove_evolves d index l stream :
  dv_leases d !! index = Some l -> stream = tp_driver_find_stream (dl_stream_id l) d ->
  (exists t l' r text, ShmLeaseRevoked t l' r text ∈ dv_out d /\ dl_lease_id l' = dl_lease_id l) ->
  evolves d (snd (tp_driver_remove_lease index (snd (tp_driver_release_producer stream l d)))).
Proof.
  intros Hl -> Hrev. set (f := fun s => if ds_producer_lease_id s =? dl_lease_id l
                                        then with_producer 0 0 s else s).
  assert (Hf : forall s, stream_key (f s) = vacate (dl_lease_id l) (stream_key s)).
  { intros s. unfold f, vacate, stream_key. simpl. by destruct (_ =? _). }
  assert (He : forall s, ds_epoch (f s) = ds_epoch s /\ ds_stream_id (f s) = ds_stream_id s).
  { intros s. unfold f. by destruct (_ =? _). }
  set (ss' := match tp_driver_find_stream (dl_stream_id l) d with
              | Some i => alter f i (dv_streams d) | None => dv_streams d end).
  assert (Heq : snd (tp_driver_remove_lease index
                  (snd (tp_driver_release_producer (tp_driver_find_stream (dl_stream_id l) d) l d))) =
                set_leases (delete index (dv_leases d)) (dv_lease_capacity d) (set_streams ss' d)).
  { unfold ss', tp_driver_remove_lease, tp_driver_release_producer, update_stream, modify.
    destruct (tp_driver_find_stream _ d); simpl; [done|]. by destruct d. }
  rewrite Heq. clear Heq.
  assert (Hlook : forall j s', ss' !! j = Some s' -> exists s, dv_streams d !! j = Some s /\
            ds_epoch s' = ds_epoch s).
  { intros j s'. unfold ss'. destruct (tp_driver_find_stream _ d) as [i|]; [|eauto].
    intros (s & Hs & [[_ ->]|[_ ->]])%lookup_alter_Some; exists s; [|done].
    split; [done|apply He]. }
  constructor; simpl; [lia|done| |].
  - intros l' Hl'. simpl. destruct (decide (dl_lease_id l' = dl_lease_id l)) as [E|Hne].
    + right. destruct Hrev as (t & l0 & r & text & Hin & E0). exists t, l0, r, text. split; [done|congruence].
    + left. exists l'. split; [|done]. apply (delete_elem_other _ _ l); [done..|congruence].
  - intros _ [Hc Hb]. split; [constructor; [done|]|split].
    + simpl. rewrite Forall_forall in Hb |- *. intros s' [j Hj]%list_elem_of_lookup.
      destruct (Hlook j s' Hj) as (s & Hs & ->). apply Hb. by eapply list_elem_of_lookup_2.
    + intros j s Hs. simpl. unfold ss'. destruct (tp_driver_find_stream _ d) as [i|].
      * rewrite list_lookup_alter. destruct (decide (i = j)) as [->|].
        -- rewrite Hs. exists (f s). destruct (He s) as [-> ->]. split; [done|]. split; [done|lia].
        -- exists s. split; [done|]. split; [done|lia].
      * exists s. split; [done|]. split; [done|lia].
    + apply rtc_once. unfold core at 2. simpl.
      replace (stream_key <$> ss') with
        (match find_key (dl_stream_id l) (c_streams (core d)) with
         | Some i => alter (vacate (dl_lease_id l)) i (stream_key <$> dv_streams d)
         | None => stream_key <$> dv_streams d end).
      * by apply CEnd.
      * unfold ss'. rewrite find_stream_core. destruct (find_key _ _); [|done].
        symmetry. by apply fmap_alter.
Qed.

Lemma end_lease_evolves d index l stream now bump :
  dv_leases d !! index = Some l -> stream = tp_driver_find_stream (dl_stream_id l) d ->
  (exists t l' r text, ShmLeaseRevoked t l' r text ∈ dv_out d /\ dl_lease_id l' = dl_lease_id l) ->
  evolves d (snd (end_lease w config index l stream now bump d)).
Proof.
  intros Hl Hs (t & l' & r & text & Hin & E). unfold end_lease. rewrite !snd_bind.
  pose proof (keeps_record_cooldown (dl_node_id l) now d) as Hq.
  set (d1 := snd (tp_driver_record_node_id_cooldown w config (dl_node_id l) now d)) in *.
  etrans; [apply quiet_evolves, Hq|]. etrans.
  - apply release_remove_evolves.
    + by rewrite (quiet_leases _ _ Hq).
    + by rewrite (quiet_find _ _ _ Hq).
    + exists t, l', r, text. split; [|done]. destruct (qt_out _ _ Hq) as [out ->].
      apply elem_of_app. by left.
  - destruct stream as [i|]; [|reflexivity]. destruct bump; [|reflexivity].
    apply quiet_evolves, keeps_renew_epoch.
Qed.

(** A revocation is sent before the lease ends. *)
Lemma revoke_and_end_evolves d index l stream reason text (now : M Z) bump :
  keeps quiet now ->
  dv_leases d !! index = Some l -> stream = tp_driver_find_stream (dl_stream_id l) d ->
  evolves d (snd ((do* tp_driver_send_lease_revoked w l reason text in
                   let* t := now in end_lease w config index l stream t bump) d)).
Proof.
  intros Hnow Hl Hs. rewrite !snd_bind.
  set (d1 := snd (tp_driver_send_lease_revoked w l reason text d)).
  assert (Hq1 : quiet d d1).
  { apply (keeps_bind quiet); [apply _|apply keeps_now|intros; apply keeps_send]. }
  assert (Hin : ShmLeaseRevoked (w_clock w (dv_tick d)) l reason text ∈ dv_out d1).
  { unfold d1. simpl. apply elem_of_app. right. by apply list_elem_of_singleton. }
  specialize (Hnow d1). set (d2 := snd (now d1)) in *.
  assert (Hq2 : quiet d d2) by (by etrans).
  etrans; [apply quiet_evolves, Hq2|]. apply end_lease_evolves.
  - by rewrite (quiet_leases _ _ Hq2).
  - by rewrite (quiet_find _ _ _ Hq2).
  - eexists _, l, reason, text. split; [|done]. destruct (qt_out _ _ Hnow) as [out ->].
    apply elem_of_app. left. exact Hin.
Qed.

Lemma expire_loop_evolves fuel : forall now i, keeps evolves (expire_loop w config fuel now i).
Proof.
  induction fuel as [|fuel IH]; intros now i; [apply keeps_ret, _|].
  intros d. cbn [expire_loop]. rewrite !snd_bind. cbn [fst snd gets].
  destruct (dv_leases d !! i) as [l|] eqn:Hl; [|reflexivity].
  rewrite snd_bind. cbn [fst snd gets]. destruct (_ && _); [|apply IH].
  rewrite !snd_bind. etrans; [|apply IH].
  pose proof (revoke_and_end_evolves d i l _ tensor_pool_leaseRevokeReason_EXPIRED
    (Some "lease expired"%string) (ret now)
    (dl_role l =? tensor_pool_role_PRODUCER) (keeps_ret quiet now _) Hl eq_refl) as H.
  by rewrite !snd_bind in H.
Qed.

Lemma expired_evolves : keeps evolves (tp_driver_handle_expired_leases w config).
Proof.
  unfold tp_driver_handle_expired_leases. apply keeps_bind; [apply _|apply keeps_quiet, keeps_now|].
  intros now. apply keeps_bind; [apply _|apply keeps_gets, _|]. intros n. apply expire_loop_evolves.
Qed.

(** The lookups of the detach and keepalive handlers. *)
Lemma found_lease (lease : option nat) d index l :
  (lease ≫= (fun i => pair i <$> dv_leases d !! i)) = Some (index, l) -> dv_leases d !! index = Some l.
Proof.
  destruct lease as [i|]; [|done]. simpl. destruct (dv_leases d !! i) eqn:E; [|done].
  simpl. by intros [= <- <-].
Qed.

Lemma lease_matches_spec stream client role l :
  lease_matches stream client role l = true ->
  dl_stream_id l = stream /\ dl_client_id l = client /\ dl_role l = role.
Proof. unfold lease_matches. intros H. bool_simp. done. Qed.

Lemma detach_evolves request : keeps evolves (tp_driver_handle_detach w config request).
Proof.
  intros d. unfold tp_driver_handle_detach. rewrite !snd_bind. cbn [fst snd gets].
  destruct (dr_role request) as [role|]; [|apply quiet_evolves, keeps_detach_response].
  destruct (_ ≫= _) as [[index l]|] eqn:Hl; [|apply quiet_evolves, keeps_detach_response].
  destruct (lease_matches _ _ _ _) eqn:Hm; cbn [negb]; [|apply quiet_evolves, keeps_detach_response].
  apply found_lease in Hl. apply lease_matches_spec in Hm as (Hs & _ & _).
  rewrite !snd_bind.
  pose proof (revoke_and_end_evolves d index l (tp_driver_find_stream (dr_stream_id request) d)
    tensor_pool_leaseRevokeReason_DETACHED (Some "lease detached"%string) (now_ns w)
    (0 =? tensor_pool_role_PRODUCER) keeps_now Hl) as H. rewrite Hs in H. specialize (H eq_refl).
  rewrite !snd_bind in H. etrans; [exact H|]. apply quiet_evolves, keeps_detach_response.
Qed.

Lemma keepalive_evolves request : keeps evolves (tp_driver_handle_keepalive w config request).
Proof.
  intros d. unfold tp_driver_handle_keepalive. rewrite !snd_bind. cbn [fst snd gets].
  destruct (ka_role request) as [role|]; [|reflexivity].
  destruct (_ ≫= _) as [[index l]|] eqn:Hl; [|reflexivity].
  destruct (lease_matches _ _ _ _); cbn [negb]; [|reflexivity]. apply found_lease in Hl.
  rewrite snd_bind. etrans; [apply quiet_evolves, keeps_now|].
  change (dv_leases d) with (dv_leases (snd (now_ns w d))) in Hl.
  set (d1 := snd (now_ns w d)) in *. set (t := lease_expiry _ _). simpl.
  constructor; simpl; [lia|done| |].
  - intros l' [j Hj]%list_elem_of_lookup. left. destruct (decide (j = index)) as [->|Hne].
    + exists (with_expiry t l). split; [|simpl; congruence]. simpl.
      apply (list_elem_of_lookup_2 _ index), list_lookup_insert_eq. by eapply lookup_lt_Some.
    + exists l'. split; [|done]. simpl. apply (list_elem_of_lookup_2 _ j).
      by rewrite list_lookup_insert_ne.
  - intros _ [Hc Hb]. split; [by constructor|].
    split; [intros j s Hs; exists s; split; [done|]; split; [done|lia]|]. apply rtc_once.
    exact (CRenew (dv_leases d1) _ _ index l t Hl).
Qed.

(** *** Attach *)

(** A stream is added only when its identifier is not in use. *)
Lemma add_stream_evolves id profile d :
  tp_driver_find_stream id d = None ->
  evolves d (snd (tp_driver_add_stream w config id profile d)) /\
  dv_leases (snd (tp_driver_add_stream w config id profile d)) = dv_leases d.
Proof.
  intros Hf. unfold tp_driver_add_stream. rewrite snd_bind. cbn [use fst snd].
  destruct (w_alloc w (dv_tick d)); [|split; [apply quiet_evolves, keeps_use with (f := w_alloc w)|done]].
  rewrite snd_bind. simpl. split; [|done]. constructor; simpl; [lia|done| |].
  - intros l Hl. left. by exists l.
  - intros _ [Hc Hb]. split; [constructor; simpl; [lia|]|split].
    + apply Forall_app. split; [|constructor; [simpl; lia|constructor]].
      apply (Forall_impl _ _ _ Hb). simpl. intros. lia.
    + intros i s Hs. exists s. simpl. split; [by apply lookup_app_l_Some|]. split; [done|lia].
    + apply rtc_once. unfold core. simpl. rewrite fmap_app. simpl. apply CStream.
      by rewrite find_stream_core in Hf.
Qed.

Lemma range_search_free n : forall range cursor d id next,
  range_search n range cursor d = Some (id, next) -> tp_driver_find_stream id d = None.
Proof.
  induction n as [|n IH]; intros range cursor d id next; simpl; [done|].
  destruct (tp_driver_find_stream cursor d) eqn:E; [apply IH|]. by intros [= <- _].
Qed.

Lemma ranges_search_free rest : forall done d id ranges,
  ranges_search done rest d = Some (id, ranges) -> tp_driver_find_stream id d = None.
Proof.
  induction rest as [|range rest IH]; intros done d id ranges; cbn [ranges_search]; [discriminate|].
  destruct (range_search _ _ _ _) as [[i next]|] eqn:E.
  - intros [= <- _]. by eapply range_search_free.
  - apply IH.
Qed.

(** The codes a refused attach is answered with. *)
Definition refusal_code (code : Z) : bool :=
  (code =? tensor_pool_responseCode_INVALID_PARAMS) ||
  (code =? tensor_pool_responseCode_REJECTED) || (code =? tensor_pool_responseCode_INTERNAL_ERROR).

(** What the stream of a request is, once resolved. *)
Lemma resolve_stream_spec id create d :
  let '(target, d') := resolve_stream w config id create d in
  evolves d d' /\ dv_leases d' = dv_leases d /\
  (forall i, target = inr (Some i) -> exists id', tp_driver_find_stream id' d' = Some i) /\
  (forall code text, target = inl (code, text) -> refusal_code code = true).
Proof.
  unfold resolve_stream. rewrite bind_gets.
  destruct (tp_driver_find_stream id d) as [i|] eqn:Hf.
  { split_and!; [reflexivity|done| |done]. intros i' [= <-]. by exists id. }
  destruct (_ || _); [by split_and!; [reflexivity|done|done|intros ?? [= <- _]]|].
  assert (Hid : exists oid d1, (if id =? 0 then tp_driver_allocate_stream_id else ret (Some id)) d =
            (oid, d1) /\ quiet d d1 /\ forall x, oid = Some x -> tp_driver_find_stream x d = None).
  { destruct (id =? 0).
    - destruct (tp_driver_allocate_stream_id d) as [oid d1] eqn:E. exists oid, d1. split; [done|].
      split; [by apply (keeps_run _ _ _ _ _ keeps_allocate_stream_id E)|]. intros x ->.
      unfold tp_driver_allocate_stream_id, bind, gets in E.
      destruct (ranges_search [] (dv_ranges d) d) as [[y r]|] eqn:Er; [|done].
      injection E as <- _. by eapply ranges_search_free.
    - exists (Some id), d. split; [done|]. split; [reflexivity|]. by intros x [= <-]. }
  destruct Hid as (oid & d1 & E & Hq & Hfree). rewrite (bind_run _ _ _ _ _ E).
  pose proof (quiet_evolves _ _ Hq) as He. pose proof (quiet_leases _ _ Hq) as Hls.
  destruct oid as [x|]; [|by split_and!; [| | |intros ?? [= <- _]]].
  destruct (default_profile config) as [profile|]; [|by split_and!; [| | |intros ?? [= <- _]]].
  specialize (Hfree x eq_refl). rewrite <- (quiet_find _ _ _ Hq) in Hfree.
  destruct (add_stream_evolves x profile d1 Hfree) as [Ha Hla].
  destruct (tp_driver_add_stream w config x profile d1) as [added d2] eqn:Eadd. simpl in Ha, Hla.
  rewrite (bind_run _ _ _ _ _ Eadd). destruct added.
  - split_and!; [by etrans|by rewrite Hla| |done]. simpl. intros i [= Hi]. by exists x.
  - split_and!; [by etrans|by rewrite Hla|done|by intros ?? [= <- _]].
Qed.

Lemma node_id_attempts_spec n : forall attempt counter now d,
  let '(id, d') := node_id_attempts w n attempt counter now d in
  id = nodeId_null_value \/
  (is_u32 id /\ id <> nodeId_null_value /\ id <> 0 /\ id ∉ dl_node_id <$> dv_leases d).
Proof.
  induction n as [|n IH]; intros attempt counter now d; cbn [node_id_attempts]; [by left|].
  destruct (tp_driver_seed_u64 w d) as [r d1] eqn:E1. rewrite (bind_run _ _ _ _ _ E1).
  pose proof (quiet_leases _ _ (keeps_run _ _ _ _ _ keeps_seed E1)) as Hl1.
  cbv zeta. set (candidate := u32 _). rewrite bind_gets.
  destruct (_ || _) eqn:Ec.
  { specialize (IH (attempt + 1) counter now d1). by rewrite Hl1 in IH. }
  destruct (tp_driver_node_id_in_cooldown candidate now d1) as [c d2] eqn:E2.
  rewrite (bind_run _ _ _ _ _ E2).
  pose proof (quiet_leases _ _ (keeps_run _ _ _ _ _ (keeps_in_cooldown _ _) E2)) as Hl2.
  destruct c.
  { specialize (IH (attempt + 1) counter now d2). by rewrite Hl2, Hl1 in IH. }
  right. apply orb_false_iff in Ec as [Ec Eu]. apply orb_false_iff in Ec as [E0 En].
  apply Z.eqb_neq in E0, En. split; [apply u32_range|].
  split; [done|]. split; [done|].
  unfold tp_driver_node_id_in_use in Eu. rewrite (proj2 (Z.eqb_neq candidate TP_NULL_U32) En), Hl1 in Eu.
  intros (l & El & Hl)%list_elem_of_fmap. apply not_true_iff_false in Eu. apply Eu.
  apply existsb_exists. exists l. split; [by apply list_elem_of_In|]. by apply Z.eqb_eq.
Qed.

(** With a counter in use the generator of node identifiers changes nothing else. *)
Lemma next_node_id_spec d :
  dv_lease_counter d <> 0 ->
  let '(id, d') := tp_driver_next_node_id w d in
  quiet d d' /\ (id = nodeId_null_value \/ is_u32 id /\ id ∉ dl_node_id <$> dv_leases d).
Proof.
  intros Hc. unfold tp_driver_next_node_id. unfold now_ns at 1.
  destruct (use (w_clock w) d) as [now d1] eqn:E1. rewrite (bind_run _ _ _ _ _ E1).
  pose proof (keeps_run _ _ _ _ _ (keeps_use (w_clock w)) E1) as Q1.
  assert (Hseed : seed_counter w d1 = (tt, d1)).
  { unfold seed_counter. rewrite bind_gets, (quiet_counter _ _ Q1).
    by rewrite (proj2 (Z.eqb_neq _ _) Hc). }
  rewrite (bind_run _ _ _ _ _ Hseed).
  destruct (tp_driver_prune_node_id_cooldowns now d1) as [[] d2] eqn:E2.
  rewrite (bind_run _ _ _ _ _ E2), bind_gets.
  pose proof (keeps_run _ _ _ _ _ (keeps_prune _) E2) as Q2.
  pose proof (node_id_attempts_spec 1024 0 (dv_lease_counter d2) now d2) as H.
  destruct (node_id_attempts w 1024 0 (dv_lease_counter d2) now d2) as [id d3] eqn:E3.
  pose proof (keeps_run _ _ _ _ _ (keeps_node_id_attempts _ _ _ _) E3) as Q3.
  clear E3. split; [etrans; [exact Q1|etrans; [exact Q2|exact Q3]]|].
  rewrite (quiet_leases _ _ Q2), (quiet_leases _ _ Q1) in H.
  destruct H as [H|(Hu & _ & _ & H)]; [by left|by right].
Qed.

(** The core with another counter. *)
Definition recount (n : Z) (c : core_t) : core_t := Build_core_t (c_leases c) n (c_streams c).

(** What the handler has done when the lease identifier is drawn: [d4] is the
    state before the lease is stored. *)
Lemma counter_moved d d1 d2 d4 :
  quiet d d1 -> (S (dv_tick d) <= dv_tick d1)%nat ->
  tp_driver_next_lease_id w d1 = (dv_lease_counter d2, d2) -> quiet d2 d4 ->
  (dv_tick d <= dv_tick d4)%nat /\ dv_out d `prefix_of` dv_out d4 /\ dv_leases d4 = dv_leases d /\
  core d4 = recount (dv_lease_counter d2) (core d) /\ dv_lease_counter d2 <> 0 /\
  (Z.of_nat (dv_tick d4) < 2 ^ 62 -> bounded d ->
   bounded d4 /\ epochs_le d d4 /\ dv_lease_counter d < dv_lease_counter d2 /\ epochs_le d1 d4).
Proof.
  intros Q1 Ht Hid Q4. pose proof (next_lease_id_frame d1) as Hf. rewrite Hid in Hf.
  destruct Hf as (Hnz & _ & Hls & Hss & Hout & Ht2).
  split; [destruct Q1, Q4; lia|].
  split. { etrans; [apply Q1|]. rewrite <- Hout. apply Q4. }
  split. { by rewrite (quiet_leases _ _ Q4), Hls, (quiet_leases _ _ Q1). }
  split. { rewrite <- (qt_core _ _ Q4), (qt_core _ _ Q1). unfold core, recount. simpl. by rewrite Hls, Hss. }
  split; [done|]. intros H62 Hb. destruct Q4 as [Ht4 _ _ Hr4].
  destruct (qt_rest _ _ Q1 ltac:(lia) Hb) as [Hb1 He1].
  pose proof (next_lease_id_range d1 Hb1 ltac:(lia)) as Hr. rewrite Hid in Hr. simpl in Hr.
  rewrite (quiet_counter _ _ Q1) in Hr.
  assert (Hb2 : bounded d2).
  { destruct Hb as [Hc _], Hb1 as [_ He]. constructor; [lia|]. rewrite Hss.
    apply (Forall_impl _ _ _ He). simpl. intros. lia. }
  destruct (Hr4 H62 Hb2) as [Hb4 He4].
  assert (He14 : epochs_le d1 d4) by (intros i s Hs; rewrite <- Hss in Hs; by apply He4).
  split; [done|]. split; [by etrans|]. split; [lia|done].
Qed.

(** A grant that fails after the identifier is drawn. *)
Lemma counter_moved_evolves d d1 d2 d4 :
  quiet d d1 -> (S (dv_tick d) <= dv_tick d1)%nat ->
  tp_driver_next_lease_id w d1 = (dv_lease_counter d2, d2) -> quiet d2 d4 -> evolves d d4.
Proof.
  intros Q1 Ht Hid Q4. destruct (counter_moved d d1 d2 d4 Q1 Ht Hid Q4) as (H1 & H2 & H3 & H4 & _ & H6).
  constructor; [done|done| |].
  - intros l Hl. left. exists l. by rewrite H3.
  - intros H62 Hb. destruct (H6 H62 Hb) as (Hb4 & He & Hlt & _). split; [done|]. split; [done|].
    rewrite H4. apply rtc_once. apply CCount. simpl. lia.
Qed.

(** The state after the lease is stored and a producer recorded. *)
Definition install (l : tp_driver_lease_t) (i : nat) (capacity : nat) (d : driver) : driver :=
  let d' := set_leases (dv_leases d ++ [l]) capacity d in
  if dl_role l =? tensor_pool_role_PRODUCER
  then set_streams (alter (with_producer (dl_lease_id l) (dl_client_id l)) i (dv_streams d)) d'
  else d'.

Lemma install_fields l i capacity d :
  let d' := install l i capacity d in
  dv_tick d' = dv_tick d /\ dv_out d' = dv_out d /\ dv_leases d' = dv_leases d ++ [l] /\
  dv_lease_counter d' = dv_lease_counter d.
Proof. unfold install. by destruct (_ =? _). Qed.

Lemma install_lookup l i capacity d j s :
  dv_streams (install l i capacity d) !! j = Some s -> exists s0,
  dv_streams d !! j = Some s0 /\ ds_epoch s = ds_epoch s0 /\ ds_stream_id s = ds_stream_id s0.
Proof.
  unfold install. destruct (_ =? _); [|by eauto]. simpl.
  intros (x & Hx & [[_ ->]|[_ ->]])%lookup_alter_Some; by exists x.
Qed.

Lemma install_bounded l i capacity d : bounded d -> bounded (install l i capacity d).
Proof.
  intros [Hc Hb]. destruct (install_fields l i capacity d) as (F1 & _ & _ & F4).
  constructor; [by rewrite F1, F4|]. rewrite F1. apply Forall_forall.
  intros s [j Hj]%list_elem_of_lookup. destruct (install_lookup _ _ _ _ _ _ Hj) as (s0 & Hs0 & -> & _).
  rewrite Forall_forall in Hb. apply Hb. by eapply list_elem_of_lookup_2.
Qed.

(** The stream of the lease after a grant. *)
Lemma install_stream l i capacity d s :
  dv_streams d !! i = Some s -> exists s', dv_streams (install l i capacity d) !! i = Some s' /\
  ds_stream_id s' = ds_stream_id s /\ ds_epoch s' = ds_epoch s /\
  (dl_role l = tensor_pool_role_PRODUCER ->
   ds_producer_lease_id s' = dl_lease_id l /\ ds_producer_client_id s' = dl_client_id l).
Proof.
  intros Hs. unfold install. destruct (Z.eqb_spec (dl_role l) tensor_pool_role_PRODUCER); simpl.
  - rewrite list_lookup_alter_eq, Hs. eexists. by split.
  - exists s. by split.
Qed.

Lemma install_evolves d d1 d2 d4 l i capacity :
  quiet d d1 -> (S (dv_tick d) <= dv_tick d1)%nat ->
  tp_driver_next_lease_id w d1 = (dv_lease_counter d2, d2) -> quiet d2 d4 ->
  dl_lease_id l = dv_lease_counter d2 ->
  dl_client_id l <> 0 -> dl_client_id l ∉ dl_client_id <$> dv_leases d ->
  dl_node_id l <> TP_NULL_U32 -> dl_node_id l ∉ dl_node_id <$> dv_leases d ->
  tp_driver_find_stream (dl_stream_id l) d = Some i ->
  (dl_role l = tensor_pool_role_PRODUCER ->
   forall s, dv_streams d !! i = Some s -> ds_producer_lease_id s = 0) ->
  evolves d (install l i capacity d4).
Proof.
  intros Q1 Ht Hid Q4 El Hc0 Hc Hn0 Hn Hi Hfree.
  destruct (counter_moved d d1 d2 d4 Q1 Ht Hid Q4) as (H1 & H2 & H3 & H4 & Hnz & H6).
  destruct (install_fields l i capacity d4) as (F1 & F2 & F3 & F4). rewrite H3 in F3.
  constructor.
  - by rewrite F1.
  - by rewrite F2.
  - intros l' Hl'. left. exists l'. split; [|done]. rewrite F3. apply elem_of_app. by left.
  - rewrite F1. intros H62 Hb. destruct (H6 H62 Hb) as (Hb4 & He & Hlt & _).
    split; [by apply install_bounded|split].
    + intros j s Hs. destruct (He j s Hs) as (s4 & Hs4 & E & Le). unfold install.
      destruct (_ =? _); simpl; [|by exists s4]. rewrite list_lookup_alter.
      destruct (decide (i = j)) as [->|]; [|by exists s4]. rewrite Hs4. eexists. by split.
    + apply rtc_once. rewrite find_stream_core in Hi.
      destruct (find_key_Some _ _ _ Hi) as ([[x1 x2] x3] & Hx & _).
      replace (core (install l i capacity d4)) with
        (Build_core_t (dv_leases d ++ [l]) (dl_lease_id l)
          (if dl_role l =? tensor_pool_role_PRODUCER
           then alter (occupy (dl_lease_id l) (dl_client_id l)) i (c_streams (core d))
           else c_streams (core d))).
      * pose proof (bd_counter _ Hb). apply (CGrant _ _ _ l i (x1, x2, x3)); rewrite ?El; try done; try lia.
        intros Hr. simpl. simpl in Hx. rewrite list_lookup_fmap in Hx.
        destruct (dv_streams d !! i) as [s|] eqn:Es; [|done].
        specialize (Hfree Hr s eq_refl). unfold stream_key in Hx. simpl in Hx. congruence.
      * assert (Hkeys : stream_key <$> dv_streams d4 = c_streams (core d)).
        { change (c_streams (core d4) = c_streams (core d)). by rewrite H4. }
        unfold core at 3. rewrite F3, F4, (quiet_counter _ _ Q4), <- El. f_equal.
        unfold install. destruct (_ =? _); simpl; [|by rewrite Hkeys].
        rewrite (fmap_alter stream_key _ (occupy (dl_lease_id l) (dl_client_id l))) by done.
        by rewrite Hkeys.
Qed.

(** *** What a handler keeps besides the lease table *)

Definition no_answer (m : msg) : Prop :=
  match m with ShmAttachResponse _ _ _ _ _ => False | _ => True end.

(** The profiles the configuration gives to streams. *)
Definition configured (p : tp_driver_profile_t) : Prop :=
  p ∈ cf_profiles config \/ exists id, (id, Some p) ∈ cf_streams config.

Definition range_ok (r : tp_driver_id_range_t) : Prop :=
  0 <= rg_start r /\ rg_start r <= rg_next r <= rg_end r /\ rg_end r < TP_NULL_U32.

(** Identifiers are drawn below the null value and profiles are the configured ones. *)
Record provisioned (d : driver) : Prop := {
  pv_ranges : Forall range_ok (dv_ranges d);
  pv_profiles : forall i s p, dv_streams d !! i = Some s -> ds_profile s = Some p -> configured p;
}.

(** Messages of a kind are appended, and streams keep identifier and profile. *)
Record calm (ok : msg -> Prop) (d d' : driver) : Prop := {
  cm_out : exists out, dv_out d' = dv_out d ++ out /\ Forall ok out;
  cm_streams : forall i s, dv_streams d !! i = Some s ->
    exists s', dv_streams d' !! i = Some s' /\ ds_stream_id s' = ds_stream_id s /\
      ds_profile s' = ds_profile s;
  cm_provisioned : provisioned d -> provisioned d';
}.

#[local] Instance calm_refl ok : Reflexive (calm ok).
Proof. intros d. constructor; [by exists []; rewrite app_nil_r|by eauto|done]. Qed.

#[local] Instance calm_trans ok : Transitive (calm ok).
Proof.
  intros d1 d2 d3 [(o1 & E1 & F1) S1 P1] [(o2 & E2 & F2) S2 P2]. constructor; [| |auto].
  - exists (o1 ++ o2). rewrite E2, E1, <- app_assoc. split; [done|by apply Forall_app_2].
  - intros i s Hs. destruct (S1 i s Hs) as (s2 & Hs2 & I2 & Q2).
    destruct (S2 i s2 Hs2) as (s3 & Hs3 & I3 & Q3). exists s3. split; [done|]. split; congruence.
Qed.

Lemma calm_same ok d d' :
  dv_out d' = dv_out d -> dv_streams d' = dv_streams d -> dv_ranges d' = dv_ranges d -> calm ok d d'.
Proof.
  intros Eo Es Er. constructor.
  - exists []. by rewrite app_nil_r.
  - intros i s Hs. rewrite Es. eauto.
  - intros [Hr Hp]. constructor; [by rewrite Er|by rewrite Es].
Qed.

Section Calm.
Context (ok : msg -> Prop) (Hok : forall m, no_answer m -> ok m).

Lemma calm_use {A} (f : nat -> A) : keeps (calm ok) (use f).
Proof. intros d. by apply calm_same. Qed.

Lemma calm_now : keeps (calm ok) (now_ns w).
Proof. apply calm_use. Qed.

Lemma calm_send_ok m : ok m -> keeps (calm ok) (send m).
Proof.
  intros Hm d. constructor; simpl; [|by eauto|by intros []].
  exists [m]. split; [done|by constructor].
Qed.

Lemma calm_send m : no_answer m -> keeps (calm ok) (send m).
Proof. intros Hm. by apply calm_send_ok, Hok. Qed.

Lemma calm_update_stream f i :
  (forall s, ds_stream_id (f s) = ds_stream_id s) -> (forall s, ds_profile (f s) = ds_profile s) ->
  keeps (calm ok) (update_stream f i).
Proof.
  intros Hi Hp d. constructor; simpl.
  - exists []. by rewrite app_nil_r.
  - intros j s Hs. rewrite list_lookup_alter. destruct (decide (i = j)) as [->|]; [|by eauto].
    rewrite Hs. exists (f s). by rewrite Hi, Hp.
  - intros [Hr Hs]. constructor; [done|]. simpl. intros j s p.
    intros (x & Hx & [[_ ->]|[_ ->]])%lookup_alter_Some; rewrite ?Hp; by eauto.
Qed.

Lemma calm_cooldowns f g : keeps (calm ok) (modify (fun d => set_cooldowns (f d) (g d) d)).
Proof. intros d. by apply calm_same. Qed.
Lemma calm_set_cooldowns l n : keeps (calm ok) (modify (set_cooldowns l n)).
Proof. intros d. by apply calm_same. Qed.
Lemma calm_set_counter n : keeps (calm ok) (modify (set_lease_counter n)).
Proof. intros d. by apply calm_same. Qed.
Lemma calm_set_leases f g : keeps (calm ok) (modify (fun d => set_leases (f d) (g d) d)).
Proof. intros d. by apply calm_same. Qed.
#[local] Hint Resolve calm_use calm_now calm_send calm_cooldowns calm_set_cooldowns
  calm_set_counter calm_set_leases calm_refl : keeps.
#[local] Hint Extern 2 (no_answer _) => exact I : keeps.
#[local] Hint Extern 2 (keeps (calm _) (update_stream _ _)) =>
  apply calm_update_stream; intros ?; repeat case_match; done : keeps.

Lemma calm_prune now : keeps (calm ok) (tp_driver_prune_node_id_cooldowns now).
Proof. apply calm_cooldowns. Qed.
#[local] Hint Resolve calm_prune : keeps.

Lemma calm_seed_counter : keeps (calm ok) (seed_counter w).
Proof. unfold seed_counter, tp_driver_seed_u64. keeps_tac. Qed.
#[local] Hint Resolve calm_seed_counter : keeps.

Lemma calm_next_lease_id : keeps (calm ok) (tp_driver_next_lease_id w).
Proof. unfold tp_driver_next_lease_id. keeps_tac. Qed.

Lemma calm_in_cooldown id now : keeps (calm ok) (tp_driver_node_id_in_cooldown id now).
Proof. unfold tp_driver_node_id_in_cooldown. keeps_tac. Qed.
#[local] Hint Resolve calm_in_cooldown : keeps.

Lemma calm_node_id_attempts n : forall attempt counter now,
  keeps (calm ok) (node_id_attempts w n attempt counter now).
Proof.
  induction n as [|n IH]; intros; cbn [node_id_attempts]; unfold tp_driver_seed_u64; keeps_tac.
Qed.
#[local] Hint Resolve calm_node_id_attempts : keeps.

Lemma calm_next_node_id : keeps (calm ok) (tp_driver_next_node_id w).
Proof. unfold tp_driver_next_node_id. keeps_tac. Qed.

Lemma calm_record_cooldown id now :
  keeps (calm ok) (tp_driver_record_node_id_cooldown w config id now).
Proof. unfold tp_driver_record_node_id_cooldown, grow. keeps_tac. Qed.
#[local] Hint Resolve calm_record_cooldown : keeps.

Lemma calm_create_shm_epoch i : keeps (calm ok) (tp_driver_create_shm_epoch w i).
Proof.
  assert (Hr : forall n, keeps (calm ok) (create_regions w n)).
  { intros n. induction n as [|n IH]; cbn [create_regions]; keeps_tac. }
  unfold tp_driver_create_shm_epoch. keeps_tac.
Qed.
#[local] Hint Resolve calm_create_shm_epoch : keeps.

Lemma calm_bump_epoch i : keeps (calm ok) (tp_driver_bump_epoch w i).
Proof. unfold tp_driver_bump_epoch. keeps_tac. Qed.
#[local] Hint Resolve calm_bump_epoch : keeps.

Lemma calm_attach_epoch i role h : keeps (calm ok) (attach_epoch w i role h).
Proof. unfold attach_epoch. keeps_tac. Qed.

Lemma calm_announce i h : keeps (calm ok) (tp_driver_send_announce w i h).
Proof. unfold tp_driver_send_announce. keeps_tac. Qed.
#[local] Hint Resolve calm_announce : keeps.

Lemma calm_hugepages_refused policy h : keeps (calm ok) (hugepages_refused w policy h).
Proof. unfold hugepages_refused. keeps_tac. Qed.

Lemma calm_desired_node_id_refused id : keeps (calm ok) (desired_node_id_refused w id).
Proof. unfold desired_node_id_refused. keeps_tac. Qed.

Lemma calm_grow count capacity : keeps (calm ok) (grow w count capacity).
Proof. unfold grow. keeps_tac. Qed.
#[local] Hint Resolve calm_grow : keeps.

Lemma calm_add_lease l : keeps (calm ok) (tp_driver_add_lease w l).
Proof. unfold tp_driver_add_lease. keeps_tac. Qed.

Lemma calm_install l i capacity d : calm ok d (install l i capacity d).
Proof.
  unfold install. etrans; [apply (calm_set_leases (fun d => dv_leases d ++ [l]) (fun _ => capacity))|].
  destruct (_ =? _); [|reflexivity].
  exact (calm_update_stream (with_producer (dl_lease_id l) (dl_client_id l)) i
    (fun _ => eq_refl) (fun _ => eq_refl) _).
Qed.

(** *** The other handlers *)

Lemma calm_end_lease index l stream now bump :
  keeps (calm ok) (end_lease w config index l stream now bump).
Proof.
  unfold end_lease, tp_driver_release_producer, tp_driver_remove_lease, renew_epoch. keeps_tac.
Qed.
#[local] Hint Resolve calm_end_lease : keeps.

Lemma calm_detach request : keeps (calm ok) (tp_driver_handle_detach w config request).
Proof.
  unfold tp_driver_handle_detach, tp_driver_send_detach_response, tp_driver_send_lease_revoked.
  keeps_tac.
Qed.

Lemma calm_keepalive request : keeps (calm ok) (tp_driver_handle_keepalive w config request).
Proof. unfold tp_driver_handle_keepalive. keeps_tac. Qed.

Lemma calm_do_work : keeps (calm ok) (tp_driver_do_work w config).
Proof.
  assert (He : forall fuel now i, keeps (calm ok) (expire_loop w config fuel now i)).
  { intros fuel now. induction fuel as [|fuel IH]; intros i; cbn [expire_loop];
      unfold tp_driver_send_lease_revoked; keeps_tac. }
  assert (Ha : forall n i, keeps (calm ok) (announce_all w n i)).
  { intros n. induction n as [|n IH]; intros i; cbn [announce_all]; keeps_tac. }
  unfold tp_driver_do_work, tp_driver_handle_expired_leases. keeps_tac.
  intros d. by apply calm_same.
Qed.

End Calm.

(** An identifier drawn from the ranges is in one of them. *)
Lemma range_search_within n range d : forall cursor id next,
  range_ok range -> rg_start range <= cursor <= rg_end range ->
  range_search n range cursor d = Some (id, next) ->
  rg_start range <= id <= rg_end range /\ rg_start range <= next <= rg_end range.
Proof.
  intros cursor id next (H0 & H1 & H2). revert cursor id next.
  induction n as [|n IH]; intros cursor id next Hc; cbn [range_search]; [done|].
  assert (Hf : rg_start range <=
    (if cursor =? rg_end range then rg_start range else u32 (cursor + 1)) <= rg_end range).
  { unfold TP_NULL_U32 in H2. destruct (Z.eqb_spec cursor (rg_end range)); [lia|].
    rewrite u32_small by ulia. lia. }
  destruct (tp_driver_find_stream cursor d); [by apply IH|]. by intros [= <- <-].
Qed.

Lemma ranges_search_within d rest : forall done id ranges,
  Forall range_ok done -> Forall range_ok rest ->
  ranges_search done rest d = Some (id, ranges) -> 0 <= id < TP_NULL_U32 /\ Forall range_ok ranges.
Proof.
  induction rest as [|range rest IH]; intros done id ranges Hd Hr; cbn [ranges_search]; [discriminate|].
  apply Forall_cons in Hr as [Hr Hrest].
  destruct (range_search _ _ _ _) as [[i next]|] eqn:E.
  - intros [= <- <-]. destruct (range_search_within _ _ _ _ _ _ Hr (proj1 (proj2 Hr)) E) as [Hi Hn].
    destruct Hr as (H0 & H1 & H2). split; [lia|]. apply Forall_app_2; [done|]. constructor; [|done].
    unfold range_ok. cbn. lia.
  - apply IH; [|done]. apply Forall_app_2; [done|]. by constructor.
Qed.

Lemma calm_allocate_stream_id ok : keeps (calm ok) tp_driver_allocate_stream_id.
Proof.
  intros d. unfold tp_driver_allocate_stream_id, bind, gets.
  destruct (ranges_search [] (dv_ranges d) d) as [[id ranges]|] eqn:E; [|reflexivity].
  constructor; simpl; [by exists []; rewrite app_nil_r|by eauto|].
  intros [Hr Hp]. constructor; [|done]. by eapply (ranges_search_within d _ [] id).
Qed.

Lemma default_profile_configured p : default_profile config = Some p -> configured p.
Proof.
  unfold default_profile. destruct (_ =? _)%string; [done|]. intros [Hp _]%find_some.
  left. by apply list_elem_of_In.
Qed.

Lemma calm_add_stream ok id p : configured p -> keeps (calm ok) (tp_driver_add_stream w config id p).
Proof.
  intros Hp. unfold tp_driver_add_stream. apply keeps_bind; [apply _|apply calm_use|]. intros [];
    [|apply keeps_ret, _]. apply keeps_bind; [apply _| |intros _; apply keeps_ret, _].
  intros d. constructor; simpl; [by exists []; rewrite app_nil_r| |].
  - intros i s Hs. exists s. by rewrite (lookup_app_l_Some _ _ _ _ Hs).
  - intros [Hr Hs]. constructor; [done|]. simpl. intros i s q.
    intros [Hi|[_ Hi]]%lookup_app_Some; [by eauto|].
    apply list_lookup_singleton_Some in Hi as [_ <-]. cbn. congruence.
Qed.

Lemma calm_resolve_stream ok id create : keeps (calm ok) (resolve_stream w config id create).
Proof.
  unfold resolve_stream. apply keeps_bind; [apply _|apply keeps_gets, _|]. intros [i|];
    [apply keeps_ret, _|]. destruct (_ || _); [apply keeps_ret, _|].
  apply keeps_bind; [apply _| |].
  { destruct (id =? 0); [apply calm_allocate_stream_id|apply keeps_ret, _]. }
  intros [x|]; [|apply keeps_ret, _].
  destruct (default_profile config) as [p|] eqn:E; [|apply keeps_ret, _].
  apply keeps_bind; [apply _|by apply calm_add_stream, default_profile_configured|].
  intros []; [|apply keeps_ret, _]. apply keeps_bind; [apply _|apply keeps_gets, _|].
  intros i. apply keeps_ret, _.
Qed.

(** The stream a request is resolved to is the one it names, or has an identifier
    from the ranges. *)
Lemma resolve_stream_asked id create d d' i :
  resolve_stream w config id create d = (inr (Some i), d') ->
  exists s, dv_streams d' !! i = Some s /\ (id <> 0 -> ds_stream_id s = id) /\
    (id = 0 -> provisioned d -> 0 <= ds_stream_id s < TP_NULL_U32).
Proof.
  unfold resolve_stream. rewrite bind_gets. intros E.
  destruct (tp_driver_find_stream id d) as [j|] eqn:Hf.
  { injection E as -> <-. destruct (find_stream_lookup _ _ _ Hf) as (s & Hs & Eid). exists s.
    split; [done|]. split; [done|]. intros ->. done. }
  destruct (_ || _); [done|].
  match type of E with bind ?m _ _ = _ => destruct (m d) as [[x|] d1] eqn:Ea end;
    rewrite (bind_run _ _ _ _ _ Ea) in E; [|done].
  destruct (default_profile config) as [p|]; [|done].
  destruct (tp_driver_add_stream w config x p d1) as [[] d2] eqn:Es; rewrite (bind_run _ _ _ _ _ Es) in E;
    [|done].
  rewrite bind_gets in E. injection E as Hi ->.
  destruct (find_stream_lookup _ _ _ Hi) as (s & Hs & Eid). exists s. split; [done|].
  rewrite Eid. destruct (Z.eqb_spec id 0) as [->|]; [|by injection Ea as <- _].
  split; [done|]. intros _ [Hr _].
  unfold tp_driver_allocate_stream_id, bind, gets in Ea.
  destruct (ranges_search [] (dv_ranges d) d) as [[y r]|] eqn:Er; [|done]. injection Ea as <- _.
  by eapply (ranges_search_within d _ [] y r).
Qed.

(** *** The outcomes of an attach request *)

(** One answer ends the messages of the request. *)
Definition answers (d d' : driver) (last : list msg) : Prop :=
  exists out, Forall no_answer out /\ dv_out d' = dv_out d ++ out ++ last.

Definition refusal (request : tensor_pool_shmAttachRequest) (d d' : driver) : Prop :=
  dv_leases d' = dv_leases d /\
  exists code h text, refusal_code code = true /\
    answers d d' [ShmAttachResponse (ar_correlation_id request) code None h (Some text)].

(** The stream a request names, or, in a provisioned driver, one it may choose. *)
Definition asked (provisioned : Prop) (request : tensor_pool_shmAttachRequest)
    (s : tp_driver_stream_state_t) : Prop :=
  (ar_stream_id request <> 0 -> ds_stream_id s = ar_stream_id request) /\
  (ar_stream_id request = 0 -> provisioned -> 0 <= ds_stream_id s < TP_NULL_U32).

Definition has_pools (s : tp_driver_stream_state_t) : Prop :=
  exists p, ds_profile s = Some p /\ pf_pools p <> [].

(** The new lease and its stream after the request.  The response carries both,
    and is sent exactly when it fits in the message buffer: the world decides at
    the last use that the request makes of it. *)
Record grant (request : tensor_pool_shmAttachRequest) (role : Z) (d d' : driver)
    (l : tp_driver_lease_t) (i : nat) (s : tp_driver_stream_state_t) : Prop := {
  gr_leases : dv_leases d' = dv_leases d ++ [l];
  gr_client : dl_client_id l = ar_client_id request;
  gr_role : dl_role l = role;
  gr_node : ar_desired_node_id request <> nodeId_null_value ->
    dl_node_id l = ar_desired_node_id request;
  gr_width : is_u32 (ar_desired_node_id request) -> is_u32 (dl_node_id l);
  gr_expiry : dl_expiry_ns l = lease_expiry config (dl_issued_ns l);
  gr_stream : dv_streams d' !! i = Some s /\ ds_stream_id s = dl_stream_id l;
  gr_asked : (ar_stream_id request <> 0 -> ds_stream_id s = ar_stream_id request) /\ has_pools s;
  gr_producer : role = tensor_pool_role_PRODUCER ->
    ds_producer_lease_id s = dl_lease_id l /\ ds_producer_client_id s = dl_client_id l;
  gr_epoch : Z.of_nat (dv_tick d') < 2 ^ 62 -> bounded d ->
    0 < ds_epoch s /\
    (role = tensor_pool_role_PRODUCER ->
     forall s0, dv_streams d !! i = Some s0 -> ds_epoch s0 < ds_epoch s);
  gr_response : exists h, answers d d'
    (if w_encode w (pred (dv_tick d'))
     then [ShmAttachResponse (ar_correlation_id request) tensor_pool_responseCode_OK (Some (l, s)) h NULL]
     else []);
}.

Lemma send_last m d : last (dv_out (snd (send m d))) = Some m.
Proof. apply last_snoc. Qed.

Lemma answers_last d d' m : answers d d' [m] -> last (dv_out d') = Some m.
Proof. intros (out & _ & E). rewrite E, app_assoc. apply last_snoc. Qed.

(** Quiet work before an answer. *)
Lemma answers_after d d0 d' ms : calm no_answer d d0 -> answers d0 d' ms -> answers d d' ms.
Proof.
  intros [(o & E & Ho) _ _] (out & Hout & E'). exists (o ++ out). split; [by apply Forall_app_2|].
  by rewrite E', E, <- !(assoc_L (++)).
Qed.

Lemma answers_now d d' ms : dv_out d' = dv_out d ++ ms -> answers d d' ms.
Proof. intros E. exists []. by split. Qed.

(** A stream that gets an epoch here gets a positive one, above its last. *)
Lemma bump_epoch_gt d i s s' :
  Z.of_nat (dv_tick (snd (tp_driver_bump_epoch w i d))) < 2 ^ 62 -> bounded d ->
  dv_streams d !! i = Some s -> dv_streams (snd (tp_driver_bump_epoch w i d)) !! i = Some s' ->
  ds_epoch s < ds_epoch s'.
Proof.
  intros Ht [_ Hb] Hs Hs'. unfold tp_driver_bump_epoch, now_ns, use, bind, update_stream, modify in *.
  simpl in *. rewrite list_lookup_alter_eq, Hs in Hs'. simpl in Hs'. injection Hs' as <-.
  rewrite Forall_forall in Hb. apply list_elem_of_lookup_2 in Hs. specialize (Hb s Hs).
  destruct (Z.leb_spec (w_clock w (dv_tick d)) (ds_epoch s)); simpl; [|lia].
  rewrite u64_small by ulia. lia.
Qed.

Lemma attach_epoch_spec i role h d s :
  dv_streams d !! i = Some s ->
  let d' := snd (attach_epoch w i role h d) in
  Z.of_nat (dv_tick d') < 2 ^ 62 -> bounded d ->
  forall s', dv_streams d' !! i = Some s' ->
  0 < ds_epoch s' /\ (role = tensor_pool_role_PRODUCER -> ds_epoch s < ds_epoch s').
Proof.
  intros Hs d' Ht Hb s' Hs'. unfold d', attach_epoch in *. rewrite bind_gets in *.
  rewrite (list_lookup_total_correct _ _ _ Hs) in *.
  assert (H0 : 0 <= ds_epoch s).
  { destruct Hb as [_ Hb]. rewrite Forall_forall in Hb. apply list_elem_of_lookup_2 in Hs.
    apply (Hb s Hs). }
  destruct (_ || _) eqn:E.
  - rewrite !snd_bind in *. set (d1 := snd (tp_driver_bump_epoch w i d)) in *.
    set (d2 := snd (update_stream _ _ d1)) in *.
    pose proof (keeps_bump_epoch i d) as Q1. fold d1 in Q1.
    assert (Q2 : quiet d1 d2) by (by apply keeps_update_stream).
    pose proof (keeps_create_shm_epoch i d2) as Q3.
    set (d3 := snd (tp_driver_create_shm_epoch w i d2)) in *.
    assert (Q : quiet d1 d3) by (by etrans).
    destruct (quiet_stream _ _ _ _ Q1 Hs) as (s1 & Hs1 & _).
    pose proof (qt_tick _ _ Q) as Ht13.
    destruct (qt_rest _ _ Q1 ltac:(lia) Hb) as [Hb1 _].
    destruct (qt_rest _ _ Q Ht Hb1) as [_ He]. destruct (He i s1 Hs1) as (s3 & Hs3 & _ & Hle).
    rewrite Hs' in Hs3. injection Hs3 as <-.
    pose proof (bump_epoch_gt d i s s1 ltac:(fold d1; lia) Hb Hs Hs1). split; [lia|]. intros _. lia.
  - apply orb_false_iff in E as [Er Ee]. apply Z.eqb_neq in Er, Ee.
    simpl in Hs'. rewrite Hs in Hs'. injection Hs' as <-. split; [lia|done].
Qed.

(** Storing the lease, announcing the stream, answering. *)
Lemma attach_finish P request role i h d d1 d2 d4 l capacity s :
  quiet d d1 -> (S (dv_tick d) <= dv_tick d1)%nat ->
  tp_driver_next_lease_id w d1 = (dv_lease_counter d2, d2) -> quiet d2 d4 ->
  calm no_answer d d4 ->
  dl_lease_id l = dv_lease_counter d2 -> dl_client_id l = ar_client_id request ->
  dl_role l = role -> dl_expiry_ns l = lease_expiry config (dl_issued_ns l) ->
  (ar_desired_node_id request <> nodeId_null_value -> dl_node_id l = ar_desired_node_id request) ->
  (is_u32 (ar_desired_node_id request) -> is_u32 (dl_node_id l)) ->
  dv_streams d !! i = Some s -> ds_stream_id s = dl_stream_id l -> asked P request s -> has_pools s ->
  (Z.of_nat (dv_tick d1) < 2 ^ 62 -> bounded d -> forall s', dv_streams d1 !! i = Some s' ->
   0 < ds_epoch s' /\ (role = tensor_pool_role_PRODUCER -> ds_epoch s < ds_epoch s')) ->
  let finish := do* tp_driver_send_announce w i h in
    let* stream := gets (fun d => dv_streams d !!! i) in
    tp_driver_send_attach_response w (ar_correlation_id request) tensor_pool_responseCode_OK
      (Some (l, stream)) h NULL in
  let d' := snd (finish (install l i capacity d4)) in
  quiet (install l i capacity d4) d' /\ exists s', grant request role d d' l i s' /\ asked P request s'.
Proof.
  intros Q1 Ht Hid Q4 Hcalm El Ec Er Ee Hn Hw Hs Hsid Hask Hpools Hep finish d'.
  set (d6 := install l i capacity d4) in *.
  assert (Hq : quiet d6 d').
  { apply (keeps_bind quiet); [apply _|apply keeps_announce|]. intros _. keeps_tac. }
  split; [exact Hq|].
  destruct (counter_moved d d1 d2 d4 Q1 Ht Hid Q4) as (H1 & H2 & H3 & H4 & Hnz & H6).
  destruct (install_fields l i capacity d4) as (F1 & _ & F3 & _). fold d6 in F1, F3. rewrite H3 in F3.
  assert (Hss2 : dv_streams d2 = dv_streams d1).
  { pose proof (next_lease_id_frame d1) as Hf. rewrite Hid in Hf. tauto. }
  destruct (quiet_stream _ _ _ _ Q1 Hs) as (s1 & Hs1 & K1).
  pose proof Hs1 as Hs2. rewrite <- Hss2 in Hs2.
  destruct (quiet_stream _ _ _ _ Q4 Hs2) as (s4 & Hs4 & K4).
  destruct (install_stream l i capacity d4 s4 Hs4) as (s6 & Hs6 & Eid & Eep & Hprod).
  rewrite Er in Hprod.
  destruct (quiet_stream _ _ _ _ Hq Hs6) as (s' & Hs' & K'). exists s'.
  assert (Hc6 : calm no_answer d (snd (tp_driver_send_announce w i h d6))).
  { etrans; [exact Hcalm|]. etrans; [apply (calm_install _ l i capacity)|].
    by apply calm_announce. }
  destruct (cm_streams _ _ _ Hc6 i s Hs) as (s7 & Hs7 & I7 & P7).
  assert (E7 : dv_streams d' = dv_streams (snd (tp_driver_send_announce w i h d6))).
  { unfold d', finish, tp_driver_send_attach_response. rewrite snd_bind, bind_gets, snd_bind. cbn [use fst snd].
    by destruct (w_encode w _). }
  rewrite <- E7, Hs' in Hs7. injection Hs7 as <-.
  assert (Hask' : asked P request s') by (unfold asked; by rewrite I7).
  split; [|exact Hask']. unfold stream_key in K1, K4, K'. constructor; try done.
  - by rewrite (quiet_leases _ _ Hq).
  - split; [done|]. congruence.
  - split; [apply Hask'|unfold has_pools; by rewrite P7].
  - intros Hr. destruct (Hprod Hr). split; congruence.
  - intros H62 Hb. pose proof (qt_tick _ _ Hq) as Htq. pose proof (qt_tick _ _ Q4) as Ht24.
    pose proof (next_lease_id_frame d1) as Hf. rewrite Hid in Hf. simpl in Hf.
    destruct (H6 ltac:(lia) Hb) as (Hb4 & _ & _ & He14).
    destruct (qt_rest _ _ Hq H62 (install_bounded _ _ _ _ Hb4)) as [_ Hle].
    destruct (Hle i s6 Hs6) as (s'' & Hs'' & _ & Hge). rewrite Hs' in Hs''. injection Hs'' as <-.
    destruct (He14 i s1 Hs1) as (x & Hx & _ & Hge4). rewrite Hs4 in Hx. injection Hx as <-.
    destruct (Hep ltac:(lia) Hb s1 Hs1) as [Hpos Hgt].
    split; [lia|]. intros Hr s0 Hs0. rewrite Hs in Hs0. injection Hs0 as <-. specialize (Hgt Hr). lia.
  - exists h. apply (answers_after _ _ _ _ Hc6). rewrite E7 in Hs'.
    apply answers_now. unfold d', finish, tp_driver_send_attach_response.
    rewrite snd_bind, bind_gets, snd_bind, (list_lookup_total_correct _ _ _ Hs'). cbn [use fst snd].
    set (d7 := snd (tp_driver_send_announce w i h d6)).
    destruct (w_encode w (dv_tick d7)) eqn:Eenc; simpl; rewrite Eenc; [done|]. by rewrite app_nil_r.
Qed.

Lemma add_lease_spec l d :
  exists d4, quiet d d4 /\ calm no_answer d d4 /\
  (tp_driver_add_lease w l d = (false, d4) \/
   exists capacity, tp_driver_add_lease w l d = (true, set_leases (dv_leases d4 ++ [l]) capacity d4)).
Proof.
  unfold tp_driver_add_lease. rewrite !bind_gets.
  destruct (grow w (length (dv_leases d)) (dv_lease_capacity d) d) as [room d4] eqn:E.
  rewrite (bind_run _ _ _ _ _ E). exists d4.
  split; [exact (keeps_run _ _ _ _ _ (keeps_grow _ _) E)|].
  split; [exact (keeps_run _ _ _ _ _ (calm_grow no_answer _ _) E)|]. destruct room as [capacity|]; [right|by left].
  by exists capacity.
Qed.

(** The node identifier of a grant: the one asked for, or a fresh one. *)
Lemma grant_node_id desired d :
  dv_lease_counter d <> 0 ->
  (desired <> nodeId_null_value -> desired ∉ dl_node_id <$> dv_leases d) ->
  exists node d', (if desired =? nodeId_null_value then tp_driver_next_node_id w else ret desired) d =
    (node, d') /\ quiet d d' /\ calm no_answer d d' /\
  (desired <> nodeId_null_value -> node = desired) /\
  (node = nodeId_null_value \/
   (is_u32 desired -> is_u32 node) /\ node ∉ dl_node_id <$> dv_leases d).
Proof.
  intros Hc Hd. destruct (Z.eqb_spec desired nodeId_null_value) as [E|E].
  - pose proof (next_node_id_spec d Hc) as H.
    pose proof (calm_next_node_id no_answer d) as Hcalm.
    destruct (tp_driver_next_node_id w d) as [node d'].
    exists node, d'. destruct H as [Hq Hn]. split_and!; try done. destruct Hn as [|[]]; auto.
  - exists desired, d. split_and!; [done|reflexivity|reflexivity|done|right; auto].
Qed.

(** A refusal after [d4], which has the leases of [d]. *)
Lemma refuse_after request code h text d d4 :
  evolves d d4 -> calm no_answer d d4 -> dv_leases d4 = dv_leases d -> refusal_code code = true ->
  let d' := snd (tp_driver_send_attach_response w (ar_correlation_id request) code None h (Some text) d4) in
  evolves d d' /\ refusal request d d'.
Proof.
  intros He Hcalm Hl Hc. split.
  2:{ split; [exact Hl|]. exists code, h, text. split; [done|].
      apply (answers_after _ _ _ _ Hcalm). by apply answers_now. }
  etrans; [exact He|]. apply quiet_evolves, keeps_attach_response.
Qed.

Definition attach_outcome (P : Prop) (request : tensor_pool_shmAttachRequest) (role : Z)
    (d d' : driver) : Prop :=
  evolves d d' /\ (refusal request d d' \/
    exists l i s, grant request role d d' l i s /\ asked P request s).

Lemma attach_grant_spec P request role i h d s :
  dv_streams d !! i = Some s -> tp_driver_find_stream (ds_stream_id s) d = Some i ->
  asked P request s -> has_pools s -> ar_client_id request <> 0 -> ar_client_id request ∉ dl_client_id <$> dv_leases d ->
  (ar_desired_node_id request <> nodeId_null_value ->
   ar_desired_node_id request ∉ dl_node_id <$> dv_leases d) ->
  (role = tensor_pool_role_PRODUCER -> ds_producer_lease_id s = 0) ->
  attach_outcome P request role d (snd (attach_grant w config request role i h d)).
Proof.
  intros Hs Hi Hask Hpools Hc0 Hc Hn Hfree. unfold attach_grant.
  set (d0 := next_tick d). rewrite (bind_run (now_ns w) _ _ (w_clock w (dv_tick d)) d0) by done.
  rewrite bind_gets. change (dv_streams d0) with (dv_streams d).
  rewrite (list_lookup_total_correct _ _ _ Hs). cbv zeta.
  set (h' := if ds_epoch s =? 0 then h else _). set (now := w_clock w (dv_tick d)).
  assert (Q0 : quiet d d0) by (exact (keeps_now d)).
  pose proof (attach_epoch_spec i role h' d0 s Hs) as Hep.
  destruct (attach_epoch w i role h' d0) as [created d1] eqn:E1. simpl in Hep.
  pose proof (keeps_run _ _ _ _ _ (keeps_attach_epoch _ _ _) E1) as Q01.
  assert (C1 : calm no_answer d d1).
  { etrans; [exact (calm_now no_answer d)|].
    exact (keeps_run _ _ _ _ _ (calm_attach_epoch _ _ _ _) E1). }
  assert (Q1 : quiet d d1) by (by etrans).
  assert (Ht : (S (dv_tick d) <= dv_tick d1)%nat) by (exact (qt_tick _ _ Q01)).
  rewrite (bind_run _ _ _ _ _ E1). destruct created; cbn [negb]; [|].
  2:{ destruct (refuse_after request tensor_pool_responseCode_INTERNAL_ERROR h'
          "shm creation failed" d d1) as [He Hr];
        [by apply quiet_evolves|done|by rewrite (quiet_leases _ _ Q1)|done|].
      split; [exact He|by left]. }
  destruct (tp_driver_next_lease_id w d1) as [id d2] eqn:E2. rewrite (bind_run _ _ _ _ _ E2).
  pose proof (next_lease_id_frame d1) as F. rewrite E2 in F.
  assert (C2 : calm no_answer d d2).
  { etrans; [exact C1|]. exact (keeps_run _ _ _ _ _ (calm_next_lease_id _) E2). }
  destruct F as (Hnz & Eid & Hl2 & _ & _ & _). rewrite <- Eid in E2, Hnz |- *.
  rewrite (quiet_leases _ _ Q1) in Hl2.
  destruct (grant_node_id (ar_desired_node_id request) d2) as (node & d3 & E3 & Q3 & C3 & Hsame & Hfresh);
    [done|by rewrite Hl2|].
  assert (C23 : calm no_answer d d3) by (by etrans).
  rewrite (bind_run _ _ _ _ _ E3).
  pose proof (counter_moved_evolves d d1 d2 d3 Q1 Ht E2 Q3) as He3.
  destruct (Z.eqb_spec node nodeId_null_value) as [En|En].
  { destruct (refuse_after request tensor_pool_responseCode_INTERNAL_ERROR h'
      "node_id allocation failed" d d3 He3 C23) as [He Hr];
      [by rewrite (quiet_leases _ _ Q3)|done|]. split; [exact He|by left]. }
  set (l := Build_tp_driver_lease_t _ _ _ _ _ _ _).
  destruct (add_lease_spec l d3) as (d4 & Q34 & C34 & H4). assert (Q4 : quiet d2 d4) by (by etrans).
  assert (C4 : calm no_answer d d4) by (by etrans).
  destruct H4 as [E4|[capacity E4]]; rewrite (bind_run _ _ _ _ _ E4); cbn [negb].
  { destruct (refuse_after request tensor_pool_responseCode_INTERNAL_ERROR h'
      "lease allocation failed" d d4) as [He Hr];
      [by apply (counter_moved_evolves d d1 d2 d4)|done|by rewrite (quiet_leases _ _ Q4)|done|].
    split; [exact He|by left]. }
  rewrite (bind_run _ _ _ tt (install l i capacity d4))
    by (unfold install; simpl; by destruct (role =? _)).
  rewrite Hl2 in Hfresh. destruct Hfresh as [|[Hwidth Hfresh]]; [done|].
  assert (He : evolves d (install l i capacity d4)).
  { apply (install_evolves d d1 d2 d4); try done.
    intros Hr s0. rewrite Hs. intros [= <-]. auto. }
  destruct (attach_finish P request role i h' d d1 d2 d4 l capacity s) as [Hq (s' & Hg & Ha)]; try done.
  - intros H62 Hb. destruct (qt_rest _ _ Q0 ltac:(simpl; lia) Hb) as [Hb0 _].
    intros s' Hs'. by apply Hep.
  - split; [etrans; [exact He|by apply quiet_evolves]|]. right. by exists l, i, s'.
Qed.

Lemma attach_outcome_after P request role d d0 d' :
  evolves d d0 -> calm no_answer d d0 -> dv_leases d0 = dv_leases d ->
  attach_outcome P request role d0 d' -> attach_outcome P request role d d'.
Proof.
  intros He Hcalm Hl [He' H]. split; [by etrans|].
  destruct H as [[Hls (code & h & text & Hc & Ha)]|(l & i & s & [Hls ? ? ? ? ? ? ? ? Hep [h Ha]] & Hask)].
  - left. split; [congruence|]. exists code, h, text. split; [done|]. by apply (answers_after _ d0).
  - right. exists l, i, s. split; [|exact Hask]. constructor; try done; [congruence| |].
    2:{ exists h. by apply (answers_after _ d0). }
    intros H62 Hb.
    pose proof (ev_tick _ _ He').
    destruct (ev_rest _ _ He ltac:(lia) Hb) as (Hb0 & Hle & _).
    destruct (Hep H62 Hb0) as [Hpos Hgt]. split; [done|]. intros Hr s0 Hs0.
    destruct (Hle i s0 Hs0) as (s1 & Hs1 & _ & ?). specialize (Hgt Hr s1 Hs1). lia.
Qed.

Lemma outcome_refused P request role code h text d :
  refusal_code code = true ->
  attach_outcome P request role d
    (snd (tp_driver_send_attach_response w (ar_correlation_id request) code None h (Some text) d)).
Proof.
  intros Hc. destruct (refuse_after request code h text d d) as [He Hr]; [reflexivity|reflexivity|done..|].
  split; [exact He|by left].
Qed.

Lemma existsb_elem {A} (f : A -> Z) (x : Z) (l : list A) :
  existsb (fun y => f y =? x) l = false -> x ∉ f <$> l.
Proof.
  intros H (y & -> & Hy)%list_elem_of_fmap. apply not_true_iff_false in H. apply H.
  apply existsb_exists. exists y. split; [by apply list_elem_of_In|apply Z.eqb_refl].
Qed.

Lemma desired_node_id_spec id d d' :
  desired_node_id_refused w id d = (false, d') ->
  id <> nodeId_null_value -> id ∉ dl_node_id <$> dv_leases d.
Proof.
  unfold desired_node_id_refused. intros E Hn. rewrite (proj2 (Z.eqb_neq _ _) Hn) in E.
  unfold now_ns, use, bind, gets in E. cbn -[tp_driver_node_id_in_cooldown] in E.
  destruct (tp_driver_node_id_in_use id (next_tick d)) eqn:Eu; [done|].
  unfold tp_driver_node_id_in_use in Eu. simpl in Eu.
  rewrite (proj2 (Z.eqb_neq id TP_NULL_U32) Hn) in Eu. by apply existsb_elem.
Qed.

Lemma attach_checks_spec P request role target d :
  ar_client_id request <> 0 -> ar_client_id request ∉ dl_client_id <$> dv_leases d ->
  (forall i, target = Some i -> exists id, tp_driver_find_stream id d = Some i) ->
  (forall i s, target = Some i -> dv_streams d !! i = Some s -> asked P request s) ->
  attach_outcome P request role d (snd (attach_checks w config request role target d)).
Proof.
  intros Hc0 Hc Ht Hask. unfold attach_checks. rewrite bind_gets. cbv zeta.
  destruct target as [i|]; [|by apply outcome_refused].
  destruct (Ht i eq_refl) as [id Hi].
  destruct (find_stream_lookup _ _ _ Hi) as (s & Hs & Eid). subst id.
  rewrite (list_lookup_total_correct _ _ _ Hs).
  set (policy := match ar_require_hugepages request with Some p => p | None => _ end).
  set (h := tp_driver_should_require_hugepages config _).
  set (no_pools := match ds_profile s with Some p => _ | None => _ end).
  destruct no_pools eqn:Epools; [by apply outcome_refused|].
  assert (Hpools : has_pools s).
  { unfold no_pools in Epools. destruct (ds_profile s) as [p|] eqn:Es; [|done]. exists p.
    split; [done|]. by destruct (pf_pools p). }
  destruct (_ && _) eqn:Ep; [by apply outcome_refused|].
  destruct (_ && negb (policy =? tensor_pool_hugepagesPolicy_HUGEPAGES)); [by apply outcome_refused|].
  destruct (hugepages_refused w policy h d) as [r1 d1] eqn:E1. rewrite (bind_run _ _ _ _ _ E1).
  pose proof (keeps_run _ _ _ _ _ (keeps_hugepages_refused _ _) E1) as Q1.
  apply (attach_outcome_after _ _ _ _ d1);
    [by apply quiet_evolves|exact (keeps_run _ _ _ _ _ (calm_hugepages_refused _ _ _) E1)
    |by apply quiet_leases|].
  destruct r1; [by apply outcome_refused|].
  destruct (desired_node_id_refused w (ar_desired_node_id request) d1) as [r2 d2] eqn:E2.
  rewrite (bind_run _ _ _ _ _ E2).
  pose proof (keeps_run _ _ _ _ _ (keeps_desired_node_id_refused _) E2) as Q2.
  apply (attach_outcome_after _ _ _ _ d2);
    [by apply quiet_evolves|exact (keeps_run _ _ _ _ _ (calm_desired_node_id_refused _ _) E2)
    |by apply quiet_leases|].
  destruct r2; [by apply outcome_refused|].
  assert (Q : quiet d d2) by (by etrans).
  destruct (quiet_stream _ _ _ _ Q Hs) as (s2 & Hs2 & K). unfold stream_key in K. injection K as K1 K2 K3.
  apply (attach_grant_spec P request role i h d2 s2); rewrite ?(quiet_leases _ _ Q); try done.
  - by rewrite (quiet_find _ _ _ Q), K1.
  - unfold asked. rewrite K1. by apply (Hask i).
  - assert (C : calm no_answer d d2).
    { etrans; [exact (keeps_run _ _ _ _ _ (calm_hugepages_refused _ _ _) E1)|].
      exact (keeps_run _ _ _ _ _ (calm_desired_node_id_refused _ _) E2). }
    destruct (cm_streams _ _ _ C i s Hs) as (x & Hx & _ & Ep'). rewrite Hs2 in Hx.
    injection Hx as <-. unfold has_pools. by rewrite Ep'.
  - rewrite <- (quiet_leases _ _ Q1). by apply (desired_node_id_spec _ _ d2).
  - intros ->. rewrite K2. simpl in Ep. apply negb_false_iff in Ep. by apply Z.eqb_eq.
Qed.

(** Every attach request with a role is answered by a refusal or by a grant. *)
Lemma attach_spec request role d :
  ar_role request = Some role ->
  attach_outcome (provisioned d) request role d (snd (tp_driver_handle_attach w config request d)).
Proof.
  intros Hr. unfold tp_driver_handle_attach. rewrite Hr. cbv zeta.
  destruct (Z.eqb_spec (ar_client_id request) 0) as [|Hc0]; [by apply outcome_refused|].
  rewrite bind_gets. destruct (tp_driver_client_id_in_use _ d) eqn:Eu; [by apply outcome_refused|].
  apply orb_false_iff in Eu as [_ Eu]. apply existsb_elem in Eu.
  destruct (_ && _); [by apply outcome_refused|].
  pose proof (resolve_stream_spec (ar_stream_id request)
    (publish_mode_of request =? tensor_pool_publishMode_EXISTING_OR_CREATE) d) as H.
  destruct (resolve_stream w config (ar_stream_id request) _ d) as [target d1] eqn:E.
  rewrite (bind_run _ _ _ _ _ E). destruct H as (He & Hl & Ht & Hcode).
  apply (attach_outcome_after _ _ _ _ d1);
    [done|exact (keeps_run _ _ _ _ _ (calm_resolve_stream _ _ _) E)|done|].
  destruct target as [[code text]|i].
  - apply outcome_refused, (Hcode _ text). done.
  - apply attach_checks_spec; [done|by rewrite Hl|intros j ->; by apply Ht|].
    intros j s -> Hs. destruct (resolve_stream_asked _ _ _ _ _ E) as (s' & Hs' & H1 & H2).
    rewrite Hs in Hs'. by injection Hs' as <-.
Qed.

Lemma calm_attach request : keeps (calm (fun _ => True)) (tp_driver_handle_attach w config request).
Proof.
  set (ok := fun _ : msg => True). assert (Hok : forall m, no_answer m -> ok m) by done.
  assert (Hs : forall m, keeps (calm ok) (send m)) by (intros m; by apply calm_send_ok).
  unfold tp_driver_handle_attach, attach_checks, attach_grant, tp_driver_send_attach_response.
  keeps_tac; eauto using calm_resolve_stream, calm_use, calm_now, calm_attach_epoch,
    calm_next_lease_id, calm_next_node_id, calm_add_lease, calm_announce, calm_hugepages_refused,
    calm_desired_node_id_refused, calm_refl, calm_update_stream with keeps.
Qed.

Lemma attach_evolves request : keeps evolves (tp_driver_handle_attach w config request).
Proof.
  intros d. destruct (ar_role request) as [role|] eqn:Hr; [by apply (attach_spec request role d Hr)|].
  unfold tp_driver_handle_attach. rewrite Hr. apply quiet_evolves, keeps_attach_response.
Qed.

Lemma do_work_evolves : keeps evolves (tp_driver_do_work w config).
Proof.
  unfold tp_driver_do_work. apply keeps_bind; [apply _|apply expired_evolves|]. intros _.
  apply keeps_quiet. keeps_tac; [apply keeps_announce_all|]. intros d. by apply quiet_same.
Qed.

Lemma producer_unique c l l' :
  core_inv c -> l ∈ c_leases c -> l' ∈ c_leases c ->
  dl_role l = tensor_pool_role_PRODUCER -> dl_role l' = tensor_pool_role_PRODUCER ->
  dl_stream_id l = dl_stream_id l' -> l = l'.
Proof.
  intros Hc Hl Hl' Hr1 Hr2 E. destruct (ci_holder _ Hc l Hl Hr1) as (i & x & Hf & Hx & E1).
  destruct (ci_holder _ Hc l' Hl' Hr2) as (j & y & Hf' & Hy & E2). rewrite E in Hf.
  apply (NoDup_fmap_eq dl_lease_id (c_leases c)); [apply Hc|done..|congruence].
Qed.

(** ** The driver as a state machine *)

Section Steps.
Context `{Sbe}.

(** A control fragment, or a turn of the duty cycle. *)
Inductive dstep : driver -> driver -> Prop :=
  | DFragment d b m : tp_driver_on_control_fragment w config b = Some m -> dstep d (snd (m d))
  | DWork d : dstep d (snd (tp_driver_do_work w config d)).

Definition reachable (d : driver) : Prop :=
  rtc dstep (snd (tp_driver_start w (tp_driver_init config))) d.

Lemma fragment_evolves b m : tp_driver_on_control_fragment w config b = Some m -> keeps evolves m.
Proof.
  assert (Hnop : keeps evolves (ret tt)) by (apply keeps_ret, _).
  unfold tp_driver_on_control_fragment. intros Hb.
  repeat match type of Hb with
  | (if ?c then _ else _) = Some m => destruct c
  end; try done; injection Hb as <-;
    auto using attach_evolves, detach_evolves, keepalive_evolves.
Qed.

Lemma fragment_calm b m :
  tp_driver_on_control_fragment w config b = Some m -> keeps (calm (fun _ => True)) m.
Proof.
  assert (Hnop : keeps (calm (fun _ => True)) (ret tt)) by (apply keeps_ret, _).
  unfold tp_driver_on_control_fragment. intros Hb.
  repeat match type of Hb with
  | (if ?c then _ else _) = Some m => destruct c
  end; try done; injection Hb as <-;
    auto using calm_attach, calm_detach, calm_keepalive.
Qed.

Lemma dsteps_calm d d' : rtc dstep d d' -> calm (fun _ => True) d d'.
Proof.
  induction 1 as [d|d1 d2 d3 Hs _ IH]; [reflexivity|]. etrans; [|exact IH].
  destruct Hs as [d b m Hm|d]; [by apply (fragment_calm b)|by apply calm_do_work].
Qed.

(** Reachable drivers are provisioned as the configuration is. *)
Lemma reachable_provisioned d :
  Forall range_ok (cf_stream_id_ranges config) -> reachable d -> provisioned d.
Proof.
  intros Hr Hd. assert (Hc : calm (fun _ => True) (tp_driver_init config) d).
  { etrans; [|by apply dsteps_calm]. by apply calm_same. }
  apply (cm_provisioned _ _ _ Hc). constructor; [done|]. simpl. intros i s p.
  intros ([id q] & -> & Hin)%list_lookup_fmap_Some. simpl. intros ->. right. exists id.
  by eapply list_elem_of_lookup_2.
Qed.

Lemma dsteps_evolves d d' : rtc dstep d d' -> evolves d d'.
Proof.
  induction 1 as [d|d1 d2 d3 Hs _ IH]; [reflexivity|]. etrans; [|exact IH].
  destruct Hs as [d b m Hm|d]; [by apply (fragment_evolves b)|by apply do_work_evolves].
Qed.

Lemma start_quiet d : quiet d (snd (tp_driver_start w d)).
Proof. unfold tp_driver_start. apply keeps_bind; [apply _|apply keeps_now|]. intros now d'. by apply quiet_same. Qed.

Lemma init_bounded : bounded (tp_driver_init config).
Proof.
  constructor; simpl; [lia|]. apply Forall_forall. intros s ([id p] & -> & _)%list_elem_of_fmap. simpl. lia.
Qed.

Lemma init_inv : core_inv (core (tp_driver_init config)).
Proof.
  constructor; simpl; try constructor; try (by intros l Hl%elem_of_nil).
  intros id i x _ Hx Hne. exfalso. apply Hne. rewrite !list_lookup_fmap in Hx.
  destruct (cf_streams config !! i) as [[id' p]|]; simpl in Hx; [|done]. by injection Hx as <-.
Qed.

(** Everything the machine gives about a reachable state. *)
Lemma reachable_facts d :
  reachable d -> Z.of_nat (dv_tick d) < 2 ^ 62 ->
  bounded d /\ rtc core_step (core (tp_driver_init config)) (core d) /\ core_inv (core d).
Proof.
  intros Hr Ht. assert (He : evolves (tp_driver_init config) d).
  { etrans; [apply quiet_evolves, start_quiet|by apply dsteps_evolves]. }
  destruct (ev_rest _ _ He Ht init_bounded) as (Hb & _ & Hc). split; [done|]. split; [done|].
  apply (core_steps_inv _ _ Hc), init_inv.
Qed.

(** C2: The driver refines the lease machine: whatever control fragments arrive
    and however its clock, random source, allocations and region files behave,
    every reachable state is one the lease machine [core_step] can reach from the
    configured streams: leases are granted only with a fresh lease identifier, to
    clients and nodes that hold none, as a producer only of a stream that has
    none; a renewal changes only the expiry; and the end of a lease vacates its
    stream. *)
Theorem driver_refines_leases d :
  reachable d -> Z.of_nat (dv_tick d) < 2 ^ 62 ->
  rtc core_step (core (tp_driver_init config)) (core d).
Proof. intros Hr Ht. apply (reachable_facts d Hr Ht). Qed.

(** C12: At any time lease identifiers, client identifiers and node identifiers
    are pairwise distinct across the leases and are not the null values; a stream
    has at most one producer lease, and the lease and client a stream records as
    its producer are those of that lease, and only then. *)
Theorem leases_exclusive d :
  reachable d -> Z.of_nat (dv_tick d) < 2 ^ 62 ->
  NoDup (dl_lease_id <$> dv_leases d) /\ NoDup (dl_client_id <$> dv_leases d) /\
  NoDup (dl_node_id <$> dv_leases d) /\
  (forall l, l ∈ dv_leases d ->
   dl_lease_id l <> 0 /\ dl_client_id l <> 0 /\ dl_node_id l <> nodeId_null_value) /\
  (forall l l', l ∈ dv_leases d -> l' ∈ dv_leases d ->
   dl_role l = tensor_pool_role_PRODUCER -> dl_role l' = tensor_pool_role_PRODUCER ->
   dl_stream_id l = dl_stream_id l' -> l = l') /\
  (forall id i s, tp_driver_find_stream id d = Some i -> dv_streams d !! i = Some s ->
   (ds_producer_lease_id s <> 0 <->
    exists l, l ∈ dv_leases d /\ dl_stream_id l = id /\ dl_role l = tensor_pool_role_PRODUCER /\
      ds_producer_lease_id s = dl_lease_id l /\ ds_producer_client_id s = dl_client_id l)).
Proof.
  intros Hr Ht. destruct (reachable_facts d Hr Ht) as (_ & _ & Hci).
  pose proof Hci as [Hi Hnd Hcl Hc Hno Hn Hp _ _].
  simpl in *. rewrite Forall_forall in Hi, Hc, Hn. split; [done|]. split; [done|]. split; [done|].
  split. { intros l Hl. specialize (Hi l Hl). split; [lia|]. split; [by apply Hc|by apply Hn]. }
  split.
  - intros l l'. by apply (producer_unique (core d)).
  - intros id i s Hf Hst. rewrite find_stream_core in Hf.
    assert (Hk : (stream_key <$> dv_streams d) !! i = Some (stream_key s)).
    { by rewrite list_lookup_fmap, Hst. }
    split.
    + intros Hne. destruct (Hp id i (stream_key s) Hf Hk Hne) as (l & ? & ? & ? & ? & ?).
      exists l. by split_and!.
    + intros (l & Hl & _ & _ & -> & _). specialize (Hi l Hl). lia.
Qed.

(** C14: Every attach request with a decodable role has exactly one of two outcomes.
    A refusal leaves the leases as they were, and its one response, the last
    message, carries an error code.  A grant adds one lease for the requesting
    client, with the node identifier it asked for, an expiry counted from its
    issue, on a stream that has pools, the one asked for if one was named, with an
    epoch that is positive, strictly above the stream's last for a producer.  The
    one response, the last message, carries the lease and the stream, unless it does
    not fit in the message buffer: then the lease is held and the client is sent
    no answer. *)
Theorem attach_grants_or_refuses request role d :
  reachable d -> ar_role request = Some role ->
  let d' := snd (tp_driver_handle_attach w config request d) in
  Z.of_nat (dv_tick d') < 2 ^ 62 ->
  refusal request d d' \/
  exists l i s, grant request role d d' l i s /\ 0 < ds_epoch s /\
    (role = tensor_pool_role_PRODUCER ->
     forall s0, dv_streams d !! i = Some s0 -> ds_epoch s0 < ds_epoch s).
Proof.
  intros Hr Hrole d' Ht. destruct (attach_spec request role d Hrole) as [He [Ho|(l & i & s & Hg & _)]];
    [by left|right].
  pose proof (ev_tick _ _ He). fold d' in H0.
  destruct (reachable_facts d Hr ltac:(lia)) as (Hb & _).
  exists l, i, s. split; [exact Hg|]. by apply (gr_epoch _ _ _ _ _ _ _ Hg).
Qed.

(** The epoch of a stream never decreases and streams are never renumbered,
    along any sequence of control fragments and duty cycles. *)
Theorem epochs_monotone d d' :
  reachable d -> rtc dstep d d' -> Z.of_nat (dv_tick d') < 2 ^ 62 ->
  forall i s, dv_streams d !! i = Some s ->
  exists s', dv_streams d' !! i = Some s' /\ ds_stream_id s' = ds_stream_id s /\
    ds_epoch s <= ds_epoch s'.
Proof.
  intros Hr Hs Ht. apply dsteps_evolves in Hs as He. pose proof (ev_tick _ _ He).
  destruct (reachable_facts d Hr ltac:(lia)) as (Hb & _).
  apply (ev_rest _ _ He Ht Hb).
Qed.

(** A lease ends only with notice: if it was held at some time and is not
    held later, a lease-revoked message with its identifier has been sent. *)
Theorem lease_end_is_announced d d' l :
  rtc dstep d d' -> l ∈ dv_leases d ->
  (exists l', l' ∈ dv_leases d' /\ dl_lease_id l' = dl_lease_id l) \/
  (exists t l' reason text, ShmLeaseRevoked t l' reason text ∈ dv_out d' /\ dl_lease_id l' = dl_lease_id l).
Proof. intros Hs Hl. apply dsteps_evolves in Hs as He. by apply (ev_revokes _ _ He). Qed.

End Steps.

(** ** Expiry and detach *)

(** Pieces that change neither messages, nor streams, nor leases. *)
Record silent (d d' : driver) : Prop := {
  sl_out : dv_out d' = dv_out d;
  sl_streams : dv_streams d' = dv_streams d;
  sl_leases : dv_leases d' = dv_leases d;
}.

#[local] Instance silent_refl : Reflexive silent.
Proof. by constructor. Qed.
#[local] Instance silent_trans : Transitive silent.
Proof. intros d1 d2 d3 [] []. constructor; congruence. Qed.

Lemma silent_use {A} (f : nat -> A) : keeps silent (use f).
Proof. by constructor. Qed.
Lemma silent_cooldowns f g : keeps silent (modify (fun d => set_cooldowns (f d) (g d) d)).
Proof. by constructor. Qed.
Lemma silent_set_cooldowns l n : keeps silent (modify (set_cooldowns l n)).
Proof. by constructor. Qed.
#[local] Hint Resolve silent_use silent_cooldowns silent_set_cooldowns silent_refl : keeps.

Lemma silent_record_cooldown id now :
  keeps silent (tp_driver_record_node_id_cooldown w config id now).
Proof.
  unfold tp_driver_record_node_id_cooldown, tp_driver_prune_node_id_cooldowns, grow. keeps_tac.
Qed.

Lemma keeps_leases {A} (m : M A) d : keeps quiet m -> dv_leases (snd (m d)) = dv_leases d.
Proof. intros Hm. apply quiet_leases, Hm. Qed.

Lemma release_producer_frame stream l d :
  let d' := snd (tp_driver_release_producer stream l d) in
  dv_leases d' = dv_leases d /\ dv_out d' = dv_out d /\
  (forall i s', dv_streams d' !! i = Some s' -> exists s, dv_streams d !! i = Some s /\
   ds_epoch s' = ds_epoch s).
Proof.
  destruct stream as [j|]; simpl; [|by eauto]. split; [done|]. split; [done|]. intros i s'.
  intros (x & Hx & [[_ ->]|[_ ->]])%lookup_alter_Some; exists x; [|done].
  split; [done|]. by destruct (_ =? _).
Qed.

Lemma end_lease_leases index l stream now bump d :
  dv_leases (snd (end_lease w config index l stream now bump d)) = delete index (dv_leases d).
Proof.
  unfold end_lease. rewrite !snd_bind.
  set (d1 := snd (tp_driver_record_node_id_cooldown _ _ _ _ _)).
  assert (H1 : dv_leases d1 = dv_leases d) by (apply keeps_leases, keeps_record_cooldown).
  pose proof (release_producer_frame stream l d1) as (H2 & _).
  set (d2 := snd (tp_driver_release_producer _ _ _)) in *. rewrite H1 in H2.
  set (d3 := snd (tp_driver_remove_lease index d2)).
  assert (H3 : dv_leases d3 = delete index (dv_leases d)) by (simpl; by rewrite H2).
  destruct stream as [j|]; [|done]. destruct bump; [|done].
  by rewrite (keeps_leases _ _ (keeps_renew_epoch j)).
Qed.

(** The driver's test of a lease against the clock. *)
Definition expired (now : Z) (l : tp_driver_lease_t) : bool :=
  negb (dl_expiry_ns l =? 0) && (dl_expiry_ns l <? now).

(** What one turn of the expiry loop does to an expired lease. *)
Definition expire_one (now : Z) (i : nat) (l : tp_driver_lease_t) (d : driver) : driver :=
  snd (end_lease w config i l (tp_driver_find_stream (dl_stream_id l) d) now
    (dl_role l =? tensor_pool_role_PRODUCER)
    (snd (tp_driver_send_lease_revoked w l tensor_pool_leaseRevokeReason_EXPIRED
       (Some "lease expired"%string) d))).

Lemma expire_loop_step fuel now i d :
  snd (expire_loop w config (S fuel) now i d) =
  match dv_leases d !! i with
  | None => d
  | Some l => if expired now l then snd (expire_loop w config fuel now i (expire_one now i l d))
              else snd (expire_loop w config fuel now (S i) d)
  end.
Proof.
  cbn [expire_loop]. rewrite snd_bind. cbn [fst snd gets].
  destruct (dv_leases d !! i) as [l|]; [|done]. rewrite snd_bind. cbn [fst snd gets].
  unfold expired. destruct (_ && _); [|done]. by rewrite !snd_bind.
Qed.

Lemma expire_one_leases now i l d : dv_leases (expire_one now i l d) = delete i (dv_leases d).
Proof. unfold expire_one. by rewrite end_lease_leases. Qed.

Lemma expire_loop_leases now fuel : forall i d,
  (length (dv_leases d) - i <= fuel)%nat ->
  dv_leases (snd (expire_loop w config fuel now i d)) =
  take i (dv_leases d) ++ filter (fun l => expired now l = false) (drop i (dv_leases d)).
Proof.
  induction fuel as [|fuel IH]; intros i d Hf.
  - simpl. rewrite drop_ge, take_ge by lia. by rewrite app_nil_r.
  - rewrite expire_loop_step. destruct (dv_leases d !! i) as [l|] eqn:Hl.
    + rewrite (drop_S _ _ _ Hl), filter_cons. pose proof (lookup_lt_Some _ _ _ Hl).
      destruct (expired now l); simpl.
      * rewrite IH; rewrite expire_one_leases, delete_take_drop.
        -- rewrite take_app_le, drop_app_ge by (rewrite length_take; lia).
           rewrite take_take, length_take, !Nat.min_l by lia. by rewrite Nat.sub_diag.
        -- rewrite length_app, length_take, length_drop. lia.
      * rewrite IH by lia. rewrite (take_S_r _ _ _ Hl), <- app_assoc. done.
    + apply lookup_ge_None in Hl. rewrite drop_ge, take_ge by lia. by rewrite app_nil_r.
Qed.

Lemma expire_one_evolves now i l d :
  dv_leases d !! i = Some l -> evolves d (expire_one now i l d).
Proof.
  intros Hl. pose proof (revoke_and_end_evolves d i l _ tensor_pool_leaseRevokeReason_EXPIRED
    (Some "lease expired"%string) (ret now)
    (dl_role l =? tensor_pool_role_PRODUCER) (keeps_ret quiet now _) Hl eq_refl) as H.
  by rewrite !snd_bind in H.
Qed.

Lemma renew_epoch_gt j d s :
  dv_streams d !! j = Some s -> bounded d ->
  Z.of_nat (dv_tick (snd (renew_epoch w j d))) < 2 ^ 62 ->
  exists s', dv_streams (snd (renew_epoch w j d)) !! j = Some s' /\ ds_epoch s < ds_epoch s'.
Proof.
  intros Hs Hb. unfold renew_epoch. rewrite snd_bind. set (d1 := snd (tp_driver_bump_epoch w j d)).
  set (rest := let* created := _ in _). intros Ht.
  assert (Hrest : keeps quiet rest) by (unfold rest; keeps_tac). pose proof (Hrest d1) as Q.
  pose proof (keeps_bump_epoch j d) as Q1. fold d1 in Q1. pose proof (qt_tick _ _ Q).
  destruct (quiet_stream _ _ _ _ Q1 Hs) as (s1 & Hs1 & _).
  pose proof (bump_epoch_gt d j s s1 ltac:(fold d1; lia) Hb Hs Hs1).
  destruct (qt_rest _ _ Q1 ltac:(lia) Hb) as [Hb1 _].
  destruct (qt_rest _ _ Q Ht Hb1) as [_ He]. destruct (He j s1 Hs1) as (s' & Hs' & _ & ?).
  exists s'. split; [exact Hs'|]. lia.
Qed.

(** The stream of an expired producer gets a higher epoch. *)
Lemma expire_one_gt now i l d j s :
  dv_leases d !! i = Some l -> dl_role l = tensor_pool_role_PRODUCER ->
  tp_driver_find_stream (dl_stream_id l) d = Some j -> dv_streams d !! j = Some s ->
  bounded d -> Z.of_nat (dv_tick (expire_one now i l d)) < 2 ^ 62 ->
  exists s', dv_streams (expire_one now i l d) !! j = Some s' /\ ds_epoch s < ds_epoch s'.
Proof.
  intros Hl Hr Hj Hs Hb. unfold expire_one. rewrite Hj, Hr, Z.eqb_refl.
  pose proof (revoke_and_end_evolves d i l _ tensor_pool_leaseRevokeReason_EXPIRED
    (Some "lease expired"%string) (ret now)
    false (keeps_ret quiet now _) Hl eq_refl) as He.
  rewrite !snd_bind, Hj in He. cbn [fst snd ret] in He.
  set (d0 := snd (tp_driver_send_lease_revoked w l _ _ d)) in *.
  set (d1 := snd (end_lease w config i l (Some j) now false d0)) in *.
  replace (snd (end_lease w config i l (Some j) now true d0)) with (snd (renew_epoch w j d1))
    by (unfold d1, end_lease; by rewrite !snd_bind).
  intros Ht. pose proof (qt_tick _ _ (keeps_renew_epoch j d1)).
  destruct (ev_rest _ _ He ltac:(lia) Hb) as (Hb1 & Hle & _).
  destruct (Hle j s Hs) as (s1 & Hs1 & _ & ?).
  destruct (renew_epoch_gt j d1 s1 Hs1 Hb1 Ht) as (s' & ? & ?). exists s'. split; [done|lia].
Qed.

Lemma find_stream_epochs_le id d d' i :
  epochs_le d d' -> tp_driver_find_stream id d = Some i -> tp_driver_find_stream id d' = Some i.
Proof.
  unfold tp_driver_find_stream. intros Hle. destruct (id =? 0); [done|].
  rewrite !find_index_Some. intros (s & Hs & E & Hbefore).
  destruct (Hle i s Hs) as (s' & Hs' & Eid & _). exists s'. rewrite Eid. split_and!; [done..|].
  intros j y Hj Hy. pose proof (lookup_lt_Some _ _ _ Hs).
  destruct (lookup_lt_is_Some_2 (dv_streams d) j ltac:(lia)) as [x Hx].
  destruct (Hle j x Hx) as (x' & Hx' & Ex & _). replace y with x' by congruence. rewrite Ex. eauto.
Qed.

Lemma expire_loop_gt now l j fuel : forall i d k s,
  (length (dv_leases d) - i <= fuel)%nat -> (i <= k)%nat -> dv_leases d !! k = Some l ->
  expired now l = true -> dl_role l = tensor_pool_role_PRODUCER ->
  tp_driver_find_stream (dl_stream_id l) d = Some j -> dv_streams d !! j = Some s -> bounded d ->
  Z.of_nat (dv_tick (snd (expire_loop w config fuel now i d))) < 2 ^ 62 ->
  exists s', dv_streams (snd (expire_loop w config fuel now i d)) !! j = Some s' /\
    ds_epoch s < ds_epoch s'.
Proof.
  induction fuel as [|fuel IH]; intros i d k s Hf Hik Hk He Hr Hj Hs Hb.
  { apply lookup_lt_Some in Hk. lia. }
  rewrite expire_loop_step. pose proof (lookup_lt_Some _ _ _ Hk).
  destruct (dv_leases d !! i) as [li|] eqn:Hi; [|apply lookup_ge_None in Hi; lia].
  destruct (decide (i = k)) as [->|Hne].
  - replace li with l in * by congruence. rewrite He. intros Ht.
    pose proof (expire_loop_evolves fuel now k (expire_one now k l d)) as Hrest.
    pose proof (expire_one_evolves now k l d Hi) as He1.
    pose proof (ev_tick _ _ Hrest).
    destruct (expire_one_gt now k l d j s Hi Hr Hj Hs Hb ltac:(lia)) as (s1 & Hs1 & ?).
    destruct (ev_rest _ _ He1 ltac:(lia) Hb) as (Hb1 & _ & _).
    destruct (ev_rest _ _ Hrest Ht Hb1) as (_ & Hle & _).
    destruct (Hle j s1 Hs1) as (s' & Hs' & _ & ?). exists s'. split; [done|lia].
  - destruct (expired now li).
    + pose proof (expire_one_evolves now i li d Hi) as He1. intros Ht.
      pose proof (expire_loop_evolves fuel now i (expire_one now i li d)) as Hrest.
      pose proof (ev_tick _ _ Hrest).
      destruct (ev_rest _ _ He1 ltac:(lia) Hb) as (Hb1 & Hle & _).
      destruct (Hle j s Hs) as (s1 & Hs1 & _ & ?).
      destruct (IH i (expire_one now i li d) (k - 1)%nat s1) as (s' & ? & ?); try done.
      * rewrite expire_one_leases, length_delete by (by eapply lookup_lt_is_Some_2; lia). lia.
      * lia.
      * rewrite expire_one_leases, list_lookup_delete_ge by lia.
        by replace (S (k - 1)) with k by lia.
      * by apply (find_stream_epochs_le _ d).
      * exists s'. split; [done|lia].
    + apply (IH (S i) d k s); try done; lia.
Qed.

(** The stream of a producer lease, its epoch and its holder after the expiry. *)
Lemma expiry_vacates d l :
  bounded d -> core_inv (core d) ->
  let now := w_clock w (dv_tick d) in
  let d' := snd (tp_driver_handle_expired_leases w config d) in
  Z.of_nat (dv_tick d') < 2 ^ 62 ->
  dv_leases d' = filter (fun l => expired now l = false) (dv_leases d) ->
  l ∈ dv_leases d -> expired now l = true -> dl_role l = tensor_pool_role_PRODUCER ->
  exists i s s', tp_driver_find_stream (dl_stream_id l) d = Some i /\
    dv_streams d !! i = Some s /\ dv_streams d' !! i = Some s' /\
    ds_epoch s < ds_epoch s' /\ ds_producer_lease_id s' = 0.
Proof.
  intros Hb Hc now d' Ht Hls Hl He Hr.
  destruct (ev_rest _ _ (expired_evolves d) Ht Hb) as (Hb' & Hle & Hsteps).
  pose proof (core_steps_inv _ _ Hsteps Hc) as Hc'.
  destruct (ci_stream _ Hc l Hl) as [i Hi]. rewrite <- find_stream_core in Hi.
  destruct (find_stream_lookup _ _ _ Hi) as (s & Hs & _).
  pose proof Hl as [k Hk]%list_elem_of_lookup.
  assert (Hb0 : bounded (next_tick d)) by (apply (bounded_mono d); simpl; (done || lia)).
  assert (H : exists s', dv_streams d' !! i = Some s' /\ ds_epoch s < ds_epoch s').
  { apply (expire_loop_gt now l i _ 0 (next_tick d) k s); try done; simpl; lia. }
  destruct H as (s' & Hs' & Hgt). exists i, s, s'. split_and!; [done..|].
  destruct (decide (ds_producer_lease_id s' = 0)) as [|Hne]; [done|exfalso].
  pose proof (find_stream_epochs_le _ _ _ _ Hle Hi) as Hi'. fold d' in Hi'.
  rewrite find_stream_core in Hi'.
  assert (Hk' : c_streams (core d') !! i = Some (stream_key s')).
  { simpl. by rewrite list_lookup_fmap, Hs'. }
  destruct (ci_producer _ Hc' _ _ _ Hi' Hk' Hne) as (l' & Hl' & _ & _ & Hr' & Est).
  simpl in Hl'. fold d' in Hl'. rewrite Hls in Hl'. apply list_elem_of_filter in Hl' as [Hf Hl'].
  replace l' with l in Hf; [congruence|]. by apply (producer_unique (core d)).
Qed.

Section Properties.
Context `{Sbe}.

(** C27: Expiry removes exactly the leases whose time has passed, keeping the
    others in order; the stream of a producer lease that expires is free for the
    next producer and has a strictly higher epoch. *)
Theorem expired_leases_go d :
  reachable d ->
  let now := w_clock w (dv_tick d) in
  let d' := snd (tp_driver_handle_expired_leases w config d) in
  Z.of_nat (dv_tick d') < 2 ^ 62 ->
  dv_leases d' = filter (fun l => expired now l = false) (dv_leases d) /\
  (forall l, l ∈ dv_leases d -> expired now l = true -> dl_role l = tensor_pool_role_PRODUCER ->
   exists i s s', tp_driver_find_stream (dl_stream_id l) d = Some i /\
     dv_streams d !! i = Some s /\ dv_streams d' !! i = Some s' /\
     ds_epoch s < ds_epoch s' /\ ds_producer_lease_id s' = 0).
Proof.
  intros Hr now d' Ht. pose proof (ev_tick _ _ (expired_evolves d)) as Hm. fold d' in Hm.
  destruct (reachable_facts d Hr ltac:(lia)) as (Hb & _ & Hc).
  assert (Hls : dv_leases d' = filter (fun l => expired now l = false) (dv_leases d)).
  { apply (expire_loop_leases now _ 0 (next_tick d)). simpl. lia. }
  split; [done|]. intros l. by apply expiry_vacates.
Qed.

End Properties.

(** A detach request that names a lease by its identifier, stream, client and
    role removes that lease, sends its revocation and then the positive answer;
    any other is answered with an error code and changes nothing else. *)
Theorem detach_spec request d :
  let d' := snd (tp_driver_handle_detach w config request d) in
  (exists role index l,
     dr_role request = Some role /\ tp_driver_find_lease (dr_lease_id request) d = Some index /\
     dv_leases d !! index = Some l /\
     lease_matches (dr_stream_id request) (dr_client_id request) role l = true /\
     dv_leases d' = delete index (dv_leases d) /\
     dv_out d' = dv_out d ++
       [ShmLeaseRevoked (w_clock w (dv_tick d)) l tensor_pool_leaseRevokeReason_DETACHED
          (Some "lease detached"%string);
        ShmDetachResponse (dr_correlation_id request) tensor_pool_responseCode_OK NULL]) \/
  (exists code text, code <> tensor_pool_responseCode_OK /\
     d' = add_out (ShmDetachResponse (dr_correlation_id request) code (Some text)) d /\
     forall role index l, dr_role request = Some role ->
       tp_driver_find_lease (dr_lease_id request) d = Some index -> dv_leases d !! index = Some l ->
       lease_matches (dr_stream_id request) (dr_client_id request) role l = false).
Proof.
  unfold tp_driver_handle_detach. rewrite !bind_gets.
  destruct (dr_role request) as [role|].
  2:{ right. eexists _, _. split; [|split; [reflexivity|]]; [discriminate|by intros]. }
  destruct (tp_driver_find_lease _ d) as [index|] eqn:Hi; simpl.
  2:{ right. eexists _, _. split; [|split; [reflexivity|]]; [discriminate|by intros]. }
  destruct (dv_leases d !! index) as [l|] eqn:Hl; simpl.
  2:{ right. eexists _, _. split; [|split; [reflexivity|]]; [discriminate|]. intros r i' l' _ [= <-] Hl'. congruence. }
  destruct (lease_matches _ _ _ l) eqn:Hm; cbn [negb].
  2:{ right. eexists _, _. split; [|split; [reflexivity|]]; [discriminate|]. intros r i' l' [= <-] [= <-] Hl'. congruence. }
  left. exists role, index, l. split_and!; [done..| |].
  - rewrite !snd_bind. simpl. by rewrite end_lease_leases.
  - rewrite !snd_bind. simpl. unfold end_lease. rewrite !snd_bind.
    set (d1 := snd (tp_driver_record_node_id_cooldown _ _ _ _ _)).
    assert (Ho : dv_out d1 = dv_out d ++ [ShmLeaseRevoked (w_clock w (dv_tick d)) l
      tensor_pool_leaseRevokeReason_DETACHED (Some "lease detached"%string)]).
    { exact (sl_out _ _ (silent_record_cooldown _ _ _)). }
    set (stream := tp_driver_find_stream _ _).
    pose proof (release_producer_frame stream l d1) as (_ & H2 & _). rewrite Ho in H2.
    destruct stream as [j|]; simpl in *; rewrite H2, <- app_assoc; done.
Qed.

(** A detach never changes an epoch, not even the detach of a producer. *)
Lemma detach_keeps_epoch request d i s' :
  dv_streams (snd (tp_driver_handle_detach w config request d)) !! i = Some s' ->
  exists s, dv_streams d !! i = Some s /\ ds_epoch s' = ds_epoch s.
Proof.
  unfold tp_driver_handle_detach. rewrite !bind_gets.
  destruct (dr_role request) as [role|]; [|by eauto].
  destruct (_ ≫= _) as [[index l]|]; [|by eauto].
  destruct (lease_matches _ _ _ l); cbn [negb]; [|by eauto].
  rewrite !snd_bind. simpl. unfold end_lease. rewrite !snd_bind.
  set (d0 := next_tick _). set (d1 := snd (tp_driver_record_node_id_cooldown _ _ _ _ _)).
  pose proof (sl_streams _ _ (silent_record_cooldown (dl_node_id l) (w_clock w (S (dv_tick d))) d0)) as Hs.
  fold d1 in Hs. change (dv_streams d0) with (dv_streams d) in Hs.
  set (stream := tp_driver_find_stream _ _).
  pose proof (release_producer_frame stream l d1) as (_ & _ & H3). rewrite Hs in H3.
  destruct stream as [j|]; simpl in *; apply H3.
Qed.

End Handlers.

(** ** Examples *)

(** A clock of one millisecond a tick, and facilities that always succeed. *)
Definition demo_world : world :=
  {| w_clock n := 1000 + (1000000 * Z.of_nat n) mod 2 ^ 40; w_random n := 7;
     w_region _ := true; w_alloc _ := true; w_encode _ := true; w_hugepages _ := 0 |}.

(** Leases of 3 ms, two milliseconds of node identifier cooldown. *)
Definition demo_config : tp_driver_config_t :=
  let profile := {| pf_name := "camera"; pf_header_nslots := 8; pf_pools := [(1, 4096)] |} in
  {| cf_require_hugepages := false; cf_allow_dynamic_streams := true;
     cf_default_profile := "camera"; cf_announce_period_ms := 1000;
     cf_lease_keepalive_interval_ms := 1; cf_lease_expiry_grace_intervals := 3;
     cf_node_id_reuse_cooldown_ms := 2; cf_epoch_gc_enabled := false;
     cf_stream_id_ranges := [{| rg_start := 0; rg_end := 3; rg_next := 0 |}];
     cf_profiles := [profile]; cf_streams := [(10, Some profile)] |}.

Lemma demo_clock_ok : clock_ok demo_world.
Proof. intros n. simpl. pose proof (Z.mod_pos_bound (1000000 * Z.of_nat n) (2 ^ 40)). lia. Qed.

(** An attach request of client 5 for stream 10, in the role given. *)
Definition demo_attach (role : Z) : tensor_pool_shmAttachRequest :=
  {| ar_correlation_id := 1; ar_stream_id := 10; ar_client_id := 5; ar_role := Some role;
     ar_expected_layout_version := 1; ar_publish_mode := Some 1; ar_require_hugepages := Some 0;
     ar_desired_node_id := 77 |}.

(** The same as a fragment. *)
Definition demo_fragment (role : Z) : bytes :=
  [27; 0; 1; 0; 133; 3; 1; 0;  1; 0; 0; 0; 0; 0; 0; 0;  10; 0; 0; 0;  5; 0; 0; 0;
   role;  1; 0; 0; 0;  1;  0;  77; 0; 0; 0].

Definition demo_start : driver := snd (tp_driver_start demo_world (tp_driver_init demo_config)).
Definition demo_attached : driver :=
  snd (tp_driver_handle_attach demo_world demo_config (demo_attach 1) demo_start).

Lemma demo_reachable : reachable demo_world demo_config demo_attached.
Proof. apply rtc_once. exact (DFragment _ _ demo_start (demo_fragment 1) _ eq_refl). Qed.

(** Client 5 holds the producer lease 8 of stream 10. *)
Example demo_attached_state :
  (fun l => (dl_lease_id l, dl_client_id l, dl_node_id l, dl_role l, dl_expiry_ns l))
    <$> dv_leases demo_attached = [(8, 5, 77, 1, 5001000)] /\
  (fun s => (ds_stream_id s, ds_epoch s, ds_producer_lease_id s)) <$> dv_streams demo_attached =
    [(10, 3001000, 8)] /\ dv_tick demo_attached = 12%nat.
Proof. by vm_compute. Qed.

Lemma demo_tick : Z.of_nat (dv_tick demo_attached) < 2 ^ 62.
Proof. by vm_compute. Qed.

Lemma driver_refines_leases_witness :
  rtc core_step (core (tp_driver_init demo_config)) (core demo_attached).
Proof.
  exact (driver_refines_leases demo_world demo_config demo_clock_ok demo_attached
    demo_reachable demo_tick).
Defined.

Lemma leases_exclusive_witness :
  dv_leases demo_attached <> [] /\ NoDup (dl_node_id <$> dv_leases demo_attached).
Proof.
  split; [by vm_compute|].
  apply (leases_exclusive demo_world demo_config demo_clock_ok demo_attached
    demo_reachable demo_tick).
Defined.

Lemma attach_grants_or_refuses_witness :
  let d' := snd (tp_driver_handle_attach demo_world demo_config (demo_attach 2) demo_attached) in
  refusal (demo_attach 2) demo_attached d' \/
  exists l i s, grant demo_world demo_config (demo_attach 2) 2 demo_attached d' l i s /\
    0 < ds_epoch s /\
    (2 = tensor_pool_role_PRODUCER ->
     forall s0, dv_streams demo_attached !! i = Some s0 -> ds_epoch s0 < ds_epoch s).
Proof.
  apply (attach_grants_or_refuses demo_world demo_config demo_clock_ok
    (demo_attach 2) 2 demo_attached demo_reachable); by vm_compute.
Defined.

Lemma epochs_monotone_witness :
  exists s', dv_streams demo_attached !! 0%nat = Some s' /\ ds_stream_id s' = 10 /\ 0 <= ds_epoch s'.
Proof.
  apply (epochs_monotone demo_world demo_config demo_clock_ok demo_start demo_attached
    (rtc_refl _ _) demo_reachable demo_tick 0 _ eq_refl).
Defined.

Lemma lease_end_is_announced_witness :
  let l := {| dl_lease_id := 8; dl_expiry_ns := 5001000; dl_issued_ns := 2001000;
              dl_stream_id := 10; dl_client_id := 5; dl_node_id := 77; dl_role := 1 |} in
  let d' := snd (tp_driver_do_work demo_world demo_config demo_attached) in
  dv_leases d' = [] /\
  ((exists l', l' ∈ dv_leases d' /\ dl_lease_id l' = dl_lease_id l) \/
   (exists t l' reason text, ShmLeaseRevoked t l' reason text ∈ dv_out d' /\ dl_lease_id l' = dl_lease_id l)).
Proof.
  intros l d'. split; [by vm_compute|].
  apply (lease_end_is_announced demo_world demo_config demo_clock_ok demo_attached d' l).
  - apply rtc_once, DWork.
  - apply (list_elem_of_lookup_2 _ 0). by vm_compute.
Defined.

(** The lease of the example has passed its time when the next turn starts. *)
Lemma expired_leases_go_witness :
  let d' := snd (tp_driver_handle_expired_leases demo_world demo_config demo_attached) in
  dv_leases demo_attached <> [] /\ dv_leases d' = [] /\
  dv_leases d' = filter (fun l => expired (demo_world.(w_clock) 12) l = false)
    (dv_leases demo_attached).
Proof.
  intros d'. split; [by vm_compute|]. split; [by vm_compute|].
  apply (expired_leases_go demo_world demo_config demo_clock_ok demo_attached
    demo_reachable). by vm_compute.
Defined.

(** Client 5 detaches: its lease is gone and the answer is positive. *)
Lemma detach_spec_witness :
  let request := {| dr_correlation_id := 2; dr_lease_id := 8; dr_stream_id := 10;
                    dr_client_id := 5; dr_role := Some 1 |} in
  let d' := snd (tp_driver_handle_detach demo_world demo_config request demo_attached) in
  dv_leases d' = [] /\
  exists t l, last (dv_out d') = Some (ShmDetachResponse 2 tensor_pool_responseCode_OK NULL) /\
    ShmLeaseRevoked t l tensor_pool_leaseRevokeReason_DETACHED (Some "lease detached"%string)
      ∈ dv_out d'.
Proof.
  intros request d'. split; [by vm_compute|].
  destruct (detach_spec demo_world demo_config demo_clock_ok request demo_attached)
    as [(role & index & l & _ & _ & _ & _ & _ & Ho)|(code & text & _ & E & _)].
  - fold d' in Ho. rewrite Ho. exists (w_clock demo_world (dv_tick demo_attached)), l. split.
    + rewrite last_app. done.
    + apply elem_of_app. right. by left.
  - exfalso. assert (H : dv_leases d' = dv_leases demo_attached) by (unfold d'; by rewrite E).
    vm_compute in H. discriminate H.
Defined.

(** ** What the handlers admit *)

(** The decoder returns the null value of the role, 255, and the handler grants a
    lease in it. *)
Example null_role_granted :
  match tp_driver_on_control_fragment demo_world demo_config (demo_fragment 255) with
  | Some m => dl_role <$> dv_leases (snd (m demo_start)) = [255]
  | None => False
  end.
Proof. by vm_compute. Qed.

(** A fragment cut after its header is read past its end. *)
Example short_fragment_overread :
  tp_driver_on_control_fragment demo_world demo_config (take 8 (demo_fragment 1)) = None.
Proof. by vm_compute. Qed.

(** A range that starts at 0 allocates stream 0, which no search finds: the
    request is refused and the stream stays behind. *)
Example stream_zero_allocated :
  let request := {| ar_correlation_id := 1; ar_stream_id := 0; ar_client_id := 5;
    ar_role := Some 1; ar_expected_layout_version := 1; ar_publish_mode := Some 2;
    ar_require_hugepages := Some 0; ar_desired_node_id := 77 |} in
  let attach := tp_driver_handle_attach demo_world demo_config request in
  let d1 := snd (attach demo_start) in
  ds_stream_id <$> dv_streams d1 = [10; 0] /\ dv_leases d1 = [].
Proof. by vm_compute. Qed.

(** The response does not fit in its buffer: the lease is held, nobody knows. *)
Example silent_grant :
  let w := {| w_clock := w_clock demo_world; w_random := w_random demo_world;
    w_region _ := true; w_alloc _ := true; w_encode _ := false; w_hugepages _ := 0 |} in
  let d := snd (tp_driver_handle_attach w demo_config (demo_attach 1) demo_start) in
  length (dv_leases d) = 1%nat /\ dv_out d = [].
Proof. by vm_compute. Qed.
