(* ===== verification/DriverMessages.v ===== *)
(** * DriverMessages: the driver protocol on the wire

    The messages between the driver and its clients: what the driver's senders
    write (tp_driver.c), what the clients' decoders make of any bytes
    (tp_driver_client.c), and the requests the clients write.  The layouts are
    those of [schemas/driver-schema.xml].  Together with [Driver], whose handlers
    take decoded requests and produce [msg] values, this file carries both
    directions of the protocol over bytes. *)

From Stdlib Require Import ZArith Lia Bool Ascii String.
From stdpp Require Import strings.
From S2P Require Import Prelude Sbe Uri Seqlock Message Driver.

#[local] Open Scope Z_scope.
#[local] Open Scope list_scope.

(** ** The schema *)

Definition shmAttachResponse_template : Z := 2.
Definition shmDetachResponse_template : Z := 4.
Definition shmDriverShutdown_template : Z := 6.
Definition shmLeaseRevoked_template : Z := 7.
Definition shmAttachResponse_block : Z := 54.
Definition payloadPools_block : Z := 10.
Definition shmDetachResponse_block : Z := 12.
Definition shmDriverShutdown_block : Z := 9.
Definition shmLeaseRevoked_block : Z := 26.
Definition responseCode_values : list Z := [0; 1; 2; 3; 4].
Definition responseCode_null : Z := - 2 ^ 31.
Definition leaseRevokeReason_values : list Z := [1; 2; 3].
Definition shutdownReason_values : list Z := [0; 1; 2].
Definition uint16_null : Z := 65535.

Definition driver_header (block template : Z) : item :=
  header_item block template driver_schema_id driver_schema_version.

(** [put_errorMessage] with the text, or with an empty one for NULL. *)
Definition error_item (error_message : ptr string) : item :=
  Text (match error_message with Some s => lit s | NULL => [] end).

(** ** The driver's senders *)

Section DriverSenders.
Context (shm_base_dir shm_namespace : chars) (pw : ptr chars).

Definition region_uri (stream : tp_driver_stream_state_t) (pool_id region_type : Z)
    (require_hugepages : bool) : res chars :=
  tp_driver_build_region_uri shm_base_dir shm_namespace pw (ds_stream_id stream) (ds_epoch stream)
    pool_id region_type require_hugepages 4096.

(** The entries of [payloadPools]. *)
Fixpoint pool_items (stream : tp_driver_stream_state_t) (nslots : Z) (require_hugepages : bool)
    (pools : list (Z * Z)) : res (list item) :=
  match pools with
  | [] => Ok []
  | (pool_id, stride) :: pools' =>
    let! uri := region_uri stream pool_id tensor_pool_regionType_PAYLOAD_POOL require_hugepages in
    let! rest := pool_items stream nslots require_hugepages pools' in
    Ok (Block payloadPools_block [Write 0 2 pool_id; Write 2 4 nslots; Write 6 4 stride] ::
        Text uri :: rest)
  end.

(** The group counts its entries in 16 bits and has no room for more. *)
Definition pools_group (stream : tp_driver_stream_state_t) (require_hugepages : bool)
    (profile : tp_driver_profile_t) : res (list item) :=
  let count := Z.of_nat (length (pf_pools profile)) in
  guard! count <=? 65535 else EINVAL in
  let! entries := pool_items stream (pf_header_nslots profile) require_hugepages (pf_pools profile) in
  Ok (group_item payloadPools_block count :: entries).

Definition attach_response_fields (lease_id expiry stream_id epoch layout nslots slot_bytes node : Z)
    : list write :=
  [Write 12 8 lease_id; Write 20 8 expiry; Write 28 4 stream_id; Write 32 8 epoch;
   Write 40 4 layout; Write 44 4 nslots; Write 48 2 slot_bytes; Write 50 4 node].

(** The stream of a granted response has a profile: [attach_checks] saw to it. *)
Definition attach_response_items (correlation_id code : Z)
    (granted : option (tp_driver_lease_t * tp_driver_stream_state_t)) (require_hugepages : bool)
    (error_message : ptr string) : res (list item) :=
  let head := driver_header shmAttachResponse_block shmAttachResponse_template in
  let body fields := Block shmAttachResponse_block
    ([Write 0 8 (u64 correlation_id); Write 8 4 (u32 code)] ++ fields) in
  match (if code =? tensor_pool_responseCode_OK then granted else None) with
  | Some (lease, stream) =>
    match ds_profile stream with
    | NULL => Err EINVAL
    | Some profile =>
      let! pools := pools_group stream require_hugepages profile in
      let! header_uri := region_uri stream 0 tensor_pool_regionType_HEADER_RING require_hugepages in
      Ok (head :: body (attach_response_fields (dl_lease_id lease) (dl_expiry_ns lease)
                          (ds_stream_id stream) (ds_epoch stream) TP_LAYOUT_VERSION
                          (pf_header_nslots profile) TP_HEADER_SLOT_BYTES (dl_node_id lease)) ::
          pools ++ [Text header_uri; error_item error_message])
    end
  | None =>
    Ok [head; body (attach_response_fields TP_NULL_U64 TP_NULL_U64 TP_NULL_U32 TP_NULL_U64
                      TP_NULL_U32 TP_NULL_U32 uint16_null TP_NULL_U32);
        group_item payloadPools_block 0; Text []; error_item error_message]
  end.

Definition detach_response_items (correlation_id code : Z) (error_message : ptr string) : list item :=
  [driver_header shmDetachResponse_block shmDetachResponse_template;
   Block shmDetachResponse_block [Write 0 8 (u64 correlation_id); Write 8 4 (u32 code)];
   error_item error_message].

Definition lease_revoked_items (timestamp_ns : Z) (lease : tp_driver_lease_t) (reason : Z)
    (error_message : ptr string) : list item :=
  [driver_header shmLeaseRevoked_block shmLeaseRevoked_template;
   Block shmLeaseRevoked_block
     [Write 0 8 timestamp_ns; Write 8 8 (dl_lease_id lease); Write 16 4 (dl_stream_id lease);
      Write 20 4 (dl_client_id lease); Write 24 1 (dl_role lease); Write 25 1 reason];
   error_item error_message].

Definition driver_shutdown_items (timestamp_ns reason : Z) (error_message : ptr string) : list item :=
  [driver_header shmDriverShutdown_block shmDriverShutdown_template;
   Block shmDriverShutdown_block [Write 0 8 timestamp_ns; Write 8 1 reason];
   error_item error_message].

(** The parts of a message on the control stream; announcements go elsewhere. *)
Definition msg_items (m : msg) : res (list item) :=
  match m with
  | ShmAttachResponse correlation_id code granted hugepages text =>
    attach_response_items correlation_id code granted hugepages text
  | ShmDetachResponse correlation_id code text => Ok (detach_response_items correlation_id code text)
  | ShmLeaseRevoked t lease reason text => Ok (lease_revoked_items t lease reason text)
  | ShmDriverShutdown t reason text => Ok (driver_shutdown_items t reason text)
  | ShmPoolAnnounce _ _ _ => Err EINVAL
  end.

(** The bytes offered from the sender's buffer [b] (2048 bytes for an attach
    response, 512 for the others); [None] when nothing is sent. *)
Definition send_bytes `{Sbe} (m : msg) (b : bytes) : option bytes :=
  match msg_items m with
  | Ok items => encode items b
  | Err _ => None
  end.
End DriverSenders.

(** ** The clients' decoders *)

(** A buffer of [dst_len] characters after the copy: the string in it. *)
Definition tp_copy_ascii (dst_len : nat) (src : ptr chars) (dst : chars) : chars :=
  if (dst_len =? 0)%nat then dst
  else match src with
       | NULL => []
       | Some s => cstring (take (dst_len - 1) s)
       end.

Record tp_driver_pool_info_t := {
  pi_pool_id : Z;
  pi_nslots : Z;
  pi_stride_bytes : Z;
  pi_region_uri : chars;
}.

Record tp_driver_attach_info_t := {
  ai_code : Z;
  ai_error_message : chars;
  ai_lease_id : Z;
  ai_lease_expiry_timestamp_ns : Z;
  ai_stream_id : Z;
  ai_epoch : Z;
  ai_layout_version : Z;
  ai_header_nslots : Z;
  ai_header_slot_bytes : Z;
  ai_node_id : Z;
  ai_header_region_uri : chars;
  ai_pools : list tp_driver_pool_info_t;   (* the array behind the pointer *)
  ai_pool_count : Z;
}.

Record tp_driver_detach_info_t := {
  di_correlation_id : Z;
  di_code : Z;
  di_error_message : chars;
}.

Record tp_driver_lease_revoked_t := {
  lr_timestamp_ns : Z;
  lr_lease_id : Z;
  lr_stream_id : Z;
  lr_client_id : Z;
  lr_role : Z;
  lr_reason : Z;
  lr_error_message : chars;
}.

Record tp_driver_shutdown_t := {
  sd_timestamp_ns : Z;
  sd_reason : Z;
  sd_error_message : chars;
}.

Section Decoders.
Context `{Sbe}.

(** The guards every decoder starts with, and the fixed block it goes on to read. *)
Definition driver_header_check (b : bytes) (template block : Z) : outcome unit :=
  check! negb (blen b <? messageHeader_encoded_length) in
  if negb (messageHeader_schemaId b =? driver_schema_id) ||
     negb (messageHeader_templateId b =? template) then NotThisMessage
  else
    check! negb (driver_schema_version <? messageHeader_version b) in
    check! messageHeader_blockLength b =? block in
    if blen b <? messageHeader_encoded_length + block then OutOfBounds else Decoded tt.

(** The generated [X_d_length] and [X_d]: the text, NULL when it does not fit,
    and the position afterwards.  The length is read without a check. *)
Definition get_text (b : bytes) (pos : Z) : outcome (ptr chars * Z) :=
  if blen b <? pos + 4 then OutOfBounds
  else
    let len := sbe_get 4 b pos in
    match sbe_var_data pos len (blen b) with
    | None => Decoded (NULL, sbe_var_failed pos)
    | Some off => Decoded (Some (sbe_chars b off (Z.to_nat len)), off + len)
    end.

Definition get_error_message (b : bytes) (pos : Z) (dst : chars) : outcome chars :=
  field! text := get_text b pos in
  Decoded (tp_copy_ascii 1024 (fst text) dst).

Definition with_code (code : Z) (error_message : chars) (out : tp_driver_attach_info_t)
    : tp_driver_attach_info_t :=
  {| ai_code := code; ai_error_message := error_message; ai_lease_id := ai_lease_id out;
     ai_lease_expiry_timestamp_ns := ai_lease_expiry_timestamp_ns out;
     ai_stream_id := ai_stream_id out; ai_epoch := ai_epoch out;
     ai_layout_version := ai_layout_version out; ai_header_nslots := ai_header_nslots out;
     ai_header_slot_bytes := ai_header_slot_bytes out; ai_node_id := ai_node_id out;
     ai_header_region_uri := ai_header_region_uri out; ai_pools := ai_pools out;
     ai_pool_count := ai_pool_count out |}.

Definition with_pools (pools : list tp_driver_pool_info_t) (count : Z)
    (out : tp_driver_attach_info_t) : tp_driver_attach_info_t :=
  {| ai_code := ai_code out; ai_error_message := ai_error_message out;
     ai_lease_id := ai_lease_id out;
     ai_lease_expiry_timestamp_ns := ai_lease_expiry_timestamp_ns out;
     ai_stream_id := ai_stream_id out; ai_epoch := ai_epoch out;
     ai_layout_version := ai_layout_version out; ai_header_nslots := ai_header_nslots out;
     ai_header_slot_bytes := ai_header_slot_bytes out; ai_node_id := ai_node_id out;
     ai_header_region_uri := ai_header_region_uri out; ai_pools := pools; ai_pool_count := count |}.

Definition with_header_uri (uri : chars) (out : tp_driver_attach_info_t) : tp_driver_attach_info_t :=
  {| ai_code := ai_code out; ai_error_message := ai_error_message out;
     ai_lease_id := ai_lease_id out;
     ai_lease_expiry_timestamp_ns := ai_lease_expiry_timestamp_ns out;
     ai_stream_id := ai_stream_id out; ai_epoch := ai_epoch out;
     ai_layout_version := ai_layout_version out; ai_header_nslots := ai_header_nslots out;
     ai_header_slot_bytes := ai_header_slot_bytes out; ai_node_id := ai_node_id out;
     ai_header_region_uri := uri; ai_pools := ai_pools out; ai_pool_count := ai_pool_count out |}.

(** An accepted message that the decoder turns into a refusal. *)
Definition refused (code : Z) (text : string) (out : tp_driver_attach_info_t)
    : tp_driver_attach_info_t := with_code code (lit text) out.

(** Where the loop over the pools ends: a position, or the text of a refusal. *)
Inductive pools_end :=
  | PoolsRead (pos : Z)
  | PoolRefused (text : string).

(** The loop over the allocated entries.  A group entry that does not fit in the
    fragment ends the loop; the entries after it stay as they were allocated. *)
Fixpoint decode_pools (b : bytes) (pos block nslots : Z) (pools : list tp_driver_pool_info_t)
    : outcome (list tp_driver_pool_info_t * pools_end) :=
  match pools with
  | [] => Decoded ([], PoolsRead pos)
  | pool :: rest =>
    match sbe_group_next pos block (blen b) with
    | None => Decoded (pools, PoolsRead pos)
    | Some off =>
      if blen b <? off + payloadPools_block then OutOfBounds
      else
        let set uri := {| pi_pool_id := sbe_get 2 b off; pi_nslots := sbe_get 4 b (off + 2);
                          pi_stride_bytes := sbe_get 4 b (off + 6); pi_region_uri := uri |} in
        let refuse uri text := Decoded (set uri :: rest, PoolRefused text) in
        let kept := pi_region_uri pool in
        if (sbe_get 4 b (off + 2) =? TP_NULL_U32) || (sbe_get 4 b (off + 6) =? TP_NULL_U32)
        then refuse kept "attach response pool missing required fields"%string
        else if negb (sbe_get 4 b (off + 2) =? nslots)
        then refuse kept "attach response pool nslots mismatch"%string
        else
          field! text := get_text b (off + block) in
          match fst text with
          | NULL => refuse kept "attach response invalid payload uri"%string
          | Some s =>
            let uri := tp_copy_ascii 4096 (Some s) kept in
            if bool_decide (uri = [])
            then refuse uri "attach response missing payload uri"%string
            else
              field! r := decode_pools b (snd text) block nslots rest in
              Decoded (set uri :: fst r, snd r)
          end
    end
  end.

(** The entries of a refused response are passed over by their blocks alone. *)
Fixpoint skip_pools (n : nat) (pos block len : Z) : Z :=
  match n with
  | O => pos
  | S n' =>
    match sbe_group_next pos block len with
    | None => pos
    | Some off => skip_pools n' (off + block) block len
    end
  end.

(** The fixed fields of a response whose code is OK. *)
Definition granted_fields (b : bytes) (out : tp_driver_attach_info_t) : tp_driver_attach_info_t :=
  let expiry := sbe_get 8 b (8 + 20) in
  let node := sbe_get 4 b (8 + 50) in
  {| ai_code := ai_code out; ai_error_message := ai_error_message out;
     ai_lease_id := sbe_get 8 b (8 + 12);
     ai_lease_expiry_timestamp_ns := if expiry =? TP_NULL_U64 then TP_NULL_U64 else expiry;
     ai_stream_id := sbe_get 4 b (8 + 28); ai_epoch := sbe_get 8 b (8 + 32);
     ai_layout_version := sbe_get 4 b (8 + 40); ai_header_nslots := sbe_get 4 b (8 + 44);
     ai_header_slot_bytes := sbe_get 2 b (8 + 48);
     ai_node_id := if node =? TP_NULL_U32 then TP_NULL_U32 else node;
     ai_header_region_uri := ai_header_region_uri out; ai_pools := ai_pools out;
     ai_pool_count := ai_pool_count out |}.

Definition missing_fields (out : tp_driver_attach_info_t) : bool :=
  (ai_lease_id out =? TP_NULL_U64) || (ai_stream_id out =? TP_NULL_U32) ||
  (ai_epoch out =? TP_NULL_U64) || (ai_layout_version out =? TP_NULL_U32) ||
  (ai_header_nslots out =? TP_NULL_U32) || (ai_header_slot_bytes out =? uint16_null).

(** The header URI, read after the pools. *)
Definition decode_header_uri (b : bytes) (pos : Z) (out : tp_driver_attach_info_t)
    : outcome tp_driver_attach_info_t :=
  field! text := get_text b pos in
  match fst text with
  | NULL => Decoded (refused tensor_pool_responseCode_INVALID_PARAMS
                       "attach response invalid header uri" out)
  | Some s =>
    let uri := tp_copy_ascii 4096 (Some s) (ai_header_region_uri out) in
    let out := with_header_uri uri out in
    if bool_decide (uri = [])
    then Decoded (refused tensor_pool_responseCode_INVALID_PARAMS
                    "attach response missing header region uri" out)
    else Decoded out
  end.

(** A response whose code is OK; [fresh] is an entry of the array [aeron_alloc]
    returns, [alloc_ok] its success. *)
Definition decode_granted (b : bytes) (fresh : tp_driver_pool_info_t) (alloc_ok : bool)
    (out : tp_driver_attach_info_t) : outcome tp_driver_attach_info_t :=
  let out := granted_fields b out in
  let refuse code text out := Decoded (refused code text out) in
  if missing_fields out
  then refuse tensor_pool_responseCode_INTERNAL_ERROR "attach response missing required fields"%string out
  else if negb (ai_header_slot_bytes out =? TP_HEADER_SLOT_BYTES)
  then refuse tensor_pool_responseCode_INVALID_PARAMS
         "attach response header_slot_bytes mismatch"%string out
  else if ai_header_nslots out =? 0
  then refuse tensor_pool_responseCode_INVALID_PARAMS "attach response header_nslots invalid"%string out
  else
    let pos := messageHeader_encoded_length + shmAttachResponse_block in
    match sbe_group_wrap b pos (blen b) with
    | None => OutOfBounds
    | Some (block, count) =>
      let out := with_pools (ai_pools out) count out in
      if count =? 0
      then refuse tensor_pool_responseCode_INVALID_PARAMS
             "attach response missing payload pools"%string out
      else if negb alloc_ok
      then refuse tensor_pool_responseCode_INTERNAL_ERROR
             "attach response pool allocation failed"%string (with_pools (ai_pools out) 0 out)
      else
        field! r := decode_pools b (pos + 4) block (ai_header_nslots out)
                      (replicate (Z.to_nat count) fresh) in
        let out := with_pools (fst r) count out in
        match snd r with
        | PoolRefused text => refuse tensor_pool_responseCode_INVALID_PARAMS text out
        | PoolsRead pos => decode_header_uri b pos out
        end
    end.

(** A refusal: the pools and the header URI are passed over. *)
Definition decode_refusal (b : bytes) (out : tp_driver_attach_info_t)
    : outcome tp_driver_attach_info_t :=
  let pos := messageHeader_encoded_length + shmAttachResponse_block in
  match sbe_group_wrap b pos (blen b) with
  | None => OutOfBounds
  | Some (block, count) =>
    field! header_uri := get_text b (skip_pools (Z.to_nat count) (pos + 4) block (blen b)) in
    field! text := get_error_message b (snd header_uri) (ai_error_message out) in
    Decoded (with_code (ai_code out) text out)
  end.

Definition tp_driver_decode_attach_response (b : bytes) (correlation_id : Z)
    (fresh : tp_driver_pool_info_t) (alloc_ok : bool) (out : tp_driver_attach_info_t)
    : outcome tp_driver_attach_info_t :=
  field! _ := driver_header_check b shmAttachResponse_template shmAttachResponse_block in
  if negb (i64 (sbe_get 8 b (8 + 0)) =? correlation_id) then NotThisMessage
  else
    field! code := require (sbe_enum responseCode_values responseCode_null
                              (i32 (sbe_get 4 b (8 + 8)))) in
    let out := with_code code (ai_error_message out) out in
    if code =? tensor_pool_responseCode_OK then decode_granted b fresh alloc_ok out
    else decode_refusal b out.

(** The fields are stored as they are read: a response with an invalid code has
    already replaced the correlation identifier. *)
Definition tp_driver_decode_detach_response (b : bytes) (out : tp_driver_detach_info_t)
    : outcome unit * tp_driver_detach_info_t :=
  match driver_header_check b shmDetachResponse_template shmDetachResponse_block with
  | Decoded _ =>
    let set code text := {| di_correlation_id := i64 (sbe_get 8 b (8 + 0)); di_code := code;
                            di_error_message := text |} in
    match sbe_enum responseCode_values responseCode_null (i32 (sbe_get 4 b (8 + 8))) with
    | None => (Malformed, set (di_code out) (di_error_message out))
    | Some code =>
      match get_error_message b (messageHeader_encoded_length + shmDetachResponse_block)
              (di_error_message out) with
      | Decoded text => (Decoded tt, set code text)
      | _ => (OutOfBounds, set code (di_error_message out))
      end
    end
  | e => (e, out)
  end.

(** The events are decoded into locals that are not read after a failure. *)
Definition tp_driver_decode_lease_revoked (b : bytes) : outcome tp_driver_lease_revoked_t :=
  field! _ := driver_header_check b shmLeaseRevoked_template shmLeaseRevoked_block in
  field! role := require (sbe_enum role_values driver_enum_null (sbe_get 1 b (8 + 24))) in
  field! reason := require (sbe_enum leaseRevokeReason_values driver_enum_null
                              (sbe_get 1 b (8 + 25))) in
  field! text := get_error_message b (messageHeader_encoded_length + shmLeaseRevoked_block) [] in
  Decoded {| lr_timestamp_ns := sbe_get 8 b (8 + 0); lr_lease_id := sbe_get 8 b (8 + 8);
             lr_stream_id := sbe_get 4 b (8 + 16); lr_client_id := sbe_get 4 b (8 + 20);
             lr_role := u8 role; lr_reason := u8 reason; lr_error_message := text |}.

Definition tp_driver_decode_shutdown (b : bytes) : outcome tp_driver_shutdown_t :=
  field! _ := driver_header_check b shmDriverShutdown_template shmDriverShutdown_block in
  field! reason := require (sbe_enum shutdownReason_values driver_enum_null
                              (sbe_get 1 b (8 + 8))) in
  field! text := get_error_message b (messageHeader_encoded_length + shmDriverShutdown_block) [] in
  Decoded {| sd_timestamp_ns := sbe_get 8 b (8 + 0); sd_reason := u8 reason;
             sd_error_message := text |}.
End Decoders.

(** ** The clients' requests *)

Record tp_driver_attach_request_t := {
  at_correlation_id : Z;
  at_stream_id : Z;
  at_client_id : Z;
  at_role : Z;
  at_expected_layout_version : Z;
  at_publish_mode : Z;
  at_require_hugepages : Z;
  at_desired_node_id : Z;
}.

(** The message of [tp_driver_send_attach]. *)
Definition attach_request_items (r : tp_driver_attach_request_t) : list item :=
  [driver_header shmAttachRequest_block shmAttachRequest_template;
   Block shmAttachRequest_block
     [Write 0 8 (u64 (at_correlation_id r)); Write 8 4 (at_stream_id r); Write 12 4 (at_client_id r);
      Write 16 1 (at_role r); Write 17 4 (at_expected_layout_version r);
      Write 21 1 (at_publish_mode r); Write 22 1 (at_require_hugepages r);
      Write 23 4 (if at_desired_node_id r =? TP_NULL_U32 then nodeId_null_value
                  else at_desired_node_id r)]].

(** The message of [tp_driver_detach]. *)
Definition detach_request_items (correlation_id lease_id stream_id client_id role : Z) : list item :=
  [driver_header shmDetachRequest_block shmDetachRequest_template;
   Block shmDetachRequest_block
     [Write 0 8 (u64 correlation_id); Write 8 8 lease_id; Write 16 4 stream_id;
      Write 20 4 client_id; Write 24 1 role]].

(** The message of [tp_driver_keepalive]. *)
Definition keepalive_items (lease_id stream_id client_id role timestamp_ns : Z) : list item :=
  [driver_header shmLeaseKeepalive_block shmLeaseKeepalive_template;
   Block shmLeaseKeepalive_block
     [Write 0 8 lease_id; Write 8 4 stream_id; Write 12 4 client_id; Write 16 1 role;
      Write 17 8 timestamp_ns]].

(** What the driver's flyweight reads of them. *)
Definition attach_request_of `{Sbe} (r : tp_driver_attach_request_t) : tensor_pool_shmAttachRequest :=
  {| ar_correlation_id := at_correlation_id r; ar_stream_id := at_stream_id r;
     ar_client_id := at_client_id r;
     ar_role := sbe_enum role_values driver_enum_null (at_role r);
     ar_expected_layout_version := at_expected_layout_version r;
     ar_publish_mode := sbe_enum publishMode_values driver_enum_null (at_publish_mode r);
     ar_require_hugepages :=
       sbe_enum hugepagesPolicy_values driver_enum_null (at_require_hugepages r);
     ar_desired_node_id := at_desired_node_id r |}.

Definition detach_request_of `{Sbe} (correlation_id lease_id stream_id client_id role : Z)
    : tensor_pool_shmDetachRequest :=
  {| dr_correlation_id := correlation_id; dr_lease_id := lease_id; dr_stream_id := stream_id;
     dr_client_id := client_id; dr_role := sbe_enum role_values driver_enum_null role |}.

Definition keepalive_of `{Sbe} (lease_id stream_id client_id role : Z)
    : tensor_pool_shmLeaseKeepalive :=
  {| ka_lease_id := lease_id; ka_stream_id := stream_id; ka_client_id := client_id;
     ka_role := sbe_enum role_values driver_enum_null role |}.

Record attach_request_ok (r : tp_driver_attach_request_t) : Prop := {
  ok_correlation : is_i64 (at_correlation_id r);
  ok_stream : is_u32 (at_stream_id r);
  ok_client : is_u32 (at_client_id r);
  ok_role : is_u8 (at_role r);
  ok_layout : is_u32 (at_expected_layout_version r);
  ok_mode : is_u8 (at_publish_mode r);
  ok_hugepages : is_u8 (at_require_hugepages r);
  ok_node : is_u32 (at_desired_node_id r);
}.

(** ** Requests reach the driver's handlers *)

Section Requests.
Context `{Sbe}.

Lemma header_fields b block template l :
  holds b 0 (driver_header block template :: l) ->
  messageHeader_blockLength b = block /\ messageHeader_templateId b = template /\
  messageHeader_schemaId b = driver_schema_id /\ messageHeader_version b = driver_schema_version.
Proof.
  intros [Hb _]. unfold messageHeader_blockLength, messageHeader_templateId,
    messageHeader_schemaId, messageHeader_version.
  split_and!; [apply (Hb 0 2)|apply (Hb 2 2)|apply (Hb 4 2)|apply (Hb 6 2)]; (reflexivity || lia).
Qed.

(** The dispatch of a request that is as long as its block says. *)
Lemma control_fragment_dispatch w config b template block l :
  holds b 0 (driver_header block template :: Block block l :: []) -> 0 <= block ->
  tp_driver_on_control_fragment w config b =
    if (template =? shmAttachRequest_template) && (block =? shmAttachRequest_block)
    then Some (tp_driver_handle_attach w config (attach_request_at b))
    else if (template =? shmDetachRequest_template) && (block =? shmDetachRequest_block)
    then Some (tp_driver_handle_detach w config (detach_request_at b))
    else if (template =? shmLeaseKeepalive_template) && (block =? shmLeaseKeepalive_block)
    then Some (tp_driver_handle_keepalive w config (keepalive_at b))
    else Some (ret tt).
Proof.
  intros Hh Hblock. pose proof (holds_end _ _ _ Hh) as Hlen. cbn [items_size item_size] in Hlen.
  destruct (header_fields _ _ _ _ Hh) as (E1 & E2 & E3 & E4).
  unfold tp_driver_on_control_fragment. rewrite E1, E2, E3, E4.
  change (item_size (driver_header block template)) with 8 in Hlen.
  destruct (Z.ltb_spec (blen b) messageHeader_encoded_length) as [Hs|_];
    [unfold messageHeader_encoded_length in Hs; lia|].
  assert (Hfit : forall n, block = n -> (blen b <? messageHeader_encoded_length + n) = false).
  { intros n <-. apply Z.ltb_ge. unfold messageHeader_encoded_length. lia. }
  simpl negb. cbn [orb].
  destruct (Z.eqb_spec template shmAttachRequest_template) as [->|].
  { destruct (Z.eqb_spec block shmAttachRequest_block) as [Eb|]; [by rewrite (Hfit _ Eb)|done]. }
  destruct (Z.eqb_spec template shmDetachRequest_template) as [->|].
  { destruct (Z.eqb_spec block shmDetachRequest_block) as [Eb|]; [by rewrite (Hfit _ Eb)|done]. }
  destruct (Z.eqb_spec template shmLeaseKeepalive_template) as [->|]; [|done].
  destruct (Z.eqb_spec block shmLeaseKeepalive_block) as [Eb|]; [by rewrite (Hfit _ Eb)|done].
Qed.

Lemma null_node z : (if z =? TP_NULL_U32 then nodeId_null_value else z) = z.
Proof. by destruct (Z.eqb_spec z TP_NULL_U32) as [->|]. Qed.

Lemma attach_items_ok r : attach_request_ok r -> Forall item_ok (attach_request_items r).
Proof.
  intros []. unfold attach_request_items, driver_header. rewrite null_node. items_ok_tac.
Qed.

Lemma attach_request_read b r :
  attach_request_ok r -> holds b 0 (attach_request_items r) ->
  attach_request_at b = attach_request_of r.
Proof.
  intros [] [_ [Hb _]]. change (0 + 8) with 8 in Hb. unfold attach_request_at, attach_request_of.
  block_field Hb 0 8 (u64 (at_correlation_id r)). block_field Hb 8 4 (at_stream_id r).
  block_field Hb 12 4 (at_client_id r). block_field Hb 16 1 (at_role r).
  block_field Hb 17 4 (at_expected_layout_version r). block_field Hb 21 1 (at_publish_mode r).
  block_field Hb 22 1 (at_require_hugepages r).
  block_field Hb 23 4 (if at_desired_node_id r =? TP_NULL_U32 then nodeId_null_value
                       else at_desired_node_id r).
  by rewrite null_node, i64_u64.
Qed.

Lemma detach_request_read b c l s cl r :
  is_i64 c -> holds b 0 (detach_request_items c l s cl r) ->
  detach_request_at b = detach_request_of c l s cl r.
Proof.
  intros Hc [_ [Hb _]]. change (0 + 8) with 8 in Hb. unfold detach_request_at, detach_request_of.
  block_field Hb 0 8 (u64 c). block_field Hb 8 8 l. block_field Hb 16 4 s. block_field Hb 20 4 cl.
  block_field Hb 24 1 r. by rewrite i64_u64.
Qed.

Lemma keepalive_read b l s cl r t :
  holds b 0 (keepalive_items l s cl r t) -> keepalive_at b = keepalive_of l s cl r.
Proof.
  intros [_ [Hb _]]. change (0 + 8) with 8 in Hb. unfold keepalive_at, keepalive_of.
  block_field Hb 0 8 l. block_field Hb 8 4 s. block_field Hb 12 4 cl. by block_field Hb 16 1 r.
Qed.
End Requests.

(** The bytes a client offers reach the driver's handlers with exactly the fields
    it wrote: an attach request whatever its fields are, a role, publish mode or
    hugepage policy outside its enumeration being seen as absent, and a detach or a
    keepalive under the identifiers its own client sent. *)
Theorem requests_reach_driver `{Sbe} w config request c l s cl r t b fragment :
  (attach_request_ok request -> encode (attach_request_items request) b = Some fragment ->
   tp_driver_on_control_fragment w config fragment =
     Some (tp_driver_handle_attach w config (attach_request_of request))) /\
  (is_i64 c -> is_u64 l -> is_u32 s -> is_u32 cl -> is_u8 r -> is_u64 t ->
   (encode (detach_request_items c l s cl r) b = Some fragment ->
    tp_driver_on_control_fragment w config fragment =
      Some (tp_driver_handle_detach w config (detach_request_of c l s cl r))) /\
   (encode (keepalive_items l s cl r t) b = Some fragment ->
    tp_driver_on_control_fragment w config fragment =
      Some (tp_driver_handle_keepalive w config (keepalive_of l s cl r)))).
Proof.
  split.
  - intros Hr He. pose proof (encode_holds _ _ _ (attach_items_ok _ Hr) He) as Hh.
    rewrite (control_fragment_dispatch w config fragment _ _ _ Hh) by done.
    by rewrite <- (attach_request_read _ _ Hr Hh).
  - intros Hc Hl Hs Hcl Hr Ht. split; intros He.
    + assert (Hh : holds fragment 0 (detach_request_items c l s cl r))
        by (eapply encode_holds; [unfold detach_request_items, driver_header; items_ok_tac|exact He]).
      rewrite (control_fragment_dispatch w config fragment _ _ _ Hh) by done.
      by rewrite <- (detach_request_read _ c l s cl r Hc Hh).
    + assert (Hh : holds fragment 0 (keepalive_items l s cl r t))
        by (eapply encode_holds; [unfold keepalive_items, driver_header; items_ok_tac|exact He]).
      rewrite (control_fragment_dispatch w config fragment _ _ _ Hh) by done.
      by rewrite <- (keepalive_read _ l s cl r t Hh).
Qed.

(** ** Responses reach the clients *)

(** The URIs the driver builds are C strings: they contain no terminator. *)
Lemma clean_no_nul s : clean s -> "000"%char ∉ s.
Proof. unfold clean. rewrite Forall_forall. intros H Hin. by specialize (H _ Hin). Qed.

Lemma region_uri_string base ns pw stream pool type huge uri :
  ("000"%char ∉ base) -> 0 <= ds_stream_id stream -> 0 <= ds_epoch stream -> 0 <= pool ->
  region_uri base ns pw stream pool type huge = Ok uri ->
  ("000"%char ∉ uri) /\ (0 < length uri < 4096)%nat.
Proof.
  intros Hb Hs He Hp. unfold region_uri, tp_driver_build_region_uri, tp_driver_build_region_path.
  case_bool_decide; [|done]. destruct (tp_driver_validate_namespace ns) eqn:Hns; [|done].
  destruct (_ <? _)%nat; [|done]. cbn [res_bind].
  match goal with |- context [(length ?u <? 4096)%nat] => set (text := u) end.
  destruct (Nat.ltb_spec (length text) 4096); [|done]. intros [= <-].
  split; [|by split; [unfold text; rewrite length_app; simpl; lia|]].
  assert (Hlit : forall t,
    ((fun c => negb (Ascii.eqb c "000")) <$> lit t) = ((fun _ => true) <$> lit t) ->
    "000"%char ∉ lit t).
  { intros t Ht [i Hi]%list_elem_of_lookup. apply (f_equal (fun l => l !! i)) in Ht.
    by rewrite !list_lookup_fmap, Hi in Ht. }
  unfold text, region_path, region_file. rewrite !not_elem_of_app. split_and!;
    first [ apply Hlit; reflexivity | exact Hb | apply clean_no_nul, clean_user
          | apply clean_no_nul, clean_namespace; exact Hns
          | apply clean_no_nul, clean_digits; lia | idtac ].
  - destruct (_ =? _); [apply Hlit; reflexivity|]. rewrite not_elem_of_app.
    split; [apply clean_no_nul, clean_digits; lia|apply Hlit; reflexivity].
  - destruct huge; apply Hlit; reflexivity.
Qed.

Lemma copy_string n s dst : "000"%char ∉ s -> (length s < n)%nat -> tp_copy_ascii n (Some s) dst = s.
Proof.
  intros Hs Hn. unfold tp_copy_ascii. destruct (Nat.eqb_spec n 0); [lia|].
  rewrite take_ge by lia. by apply cstring_id.
Qed.

(** The text a client finds in the 1024 characters of its [error_message]. *)
Definition received_text (error_message : ptr string) : chars :=
  tp_copy_ascii 1024 (Some (match error_message with Some s => lit s | NULL => [] end)) [].

Section Responses.
Context `{Sbe}.

Lemma holds_room b pos l : Forall item_ok l -> holds b pos l -> pos <= blen b.
Proof. intros Hok%items_size_nonneg Hh%holds_end. lia. Qed.

Lemma header_check_holds b block template ws l :
  Forall item_ok l -> holds b 0 (driver_header block template :: Block block ws :: l) ->
  0 <= block -> driver_header_check b template block = Decoded tt.
Proof.
  intros Hok Hh Hblock. destruct (header_fields _ _ _ _ Hh) as (E1 & E2 & E3 & E4).
  destruct Hh as [_ [_ Hr%holds_room]]; [|done]. change (0 + 8) with 8 in Hr.
  unfold driver_header_check. rewrite E1, E2, E3, E4, !Z.eqb_refl.
  unfold messageHeader_encoded_length.
  destruct (Z.ltb_spec (blen b) 8); [lia|]. simpl negb. cbn [orb].
  change (driver_schema_version <? driver_schema_version) with false. cbn [negb].
  destruct (Z.ltb_spec (blen b) (8 + block)); [lia|done].
Qed.

(** A message of one kind is not taken for another. *)
Lemma header_check_other b block template ws l template' block' :
  Forall item_ok l -> holds b 0 (driver_header block template :: Block block ws :: l) ->
  0 <= block -> template <> template' -> driver_header_check b template' block' = NotThisMessage.
Proof.
  intros Hok Hh Hblock Ht. destruct (header_fields _ _ _ _ Hh) as (_ & E2 & E3 & _).
  destruct Hh as [_ [_ Hr%holds_room]]; [|done]. change (0 + 8) with 8 in Hr.
  unfold driver_header_check. rewrite E2, E3. unfold messageHeader_encoded_length.
  destruct (Z.ltb_spec (blen b) 8); [lia|]. cbn [negb].
  destruct (Z.eqb_spec template template'); [done|]. by rewrite orb_true_r.
Qed.

Lemma get_text_holds b pos s l :
  Forall item_ok l -> holds b pos (Text s :: l) ->
  get_text b pos = Decoded (Some s, pos + 4 + Z.of_nat (length s)).
Proof.
  intros Hok (Hn & Hs & Hr)%text_bytes. apply holds_room in Hr; [|done]. unfold get_text.
  destruct (Z.ltb_spec (blen b) (pos + 4)); [lia|]. rewrite Hn, sbe_var_data_spec.
  destruct (Z.leb_spec (pos + 4 + Z.of_nat (length s)) (blen b)); [|lia].
  by rewrite Nat2Z.id, Hs.
Qed.

Lemma get_error_holds b pos text dst l :
  Forall item_ok l -> holds b pos (error_item text :: l) ->
  get_error_message b pos dst = Decoded (received_text text).
Proof. intros Hok Hh. unfold get_error_message. by rewrite (get_text_holds _ _ _ _ Hok Hh). Qed.

Lemma response_code b pos code :
  code ∈ responseCode_values -> sbe_get 4 b pos = u32 code ->
  sbe_enum responseCode_values responseCode_null (i32 (sbe_get 4 b pos)) = Some code.
Proof.
  intros Hc ->. rewrite i32_u32; [by apply sbe_enum_valid|].
  unfold responseCode_values in Hc. unfold is_i32. rewrite !elem_of_cons, elem_of_nil in Hc. lia.
Qed.

Definition text_fits (text : ptr string) : Prop :=
  match text with Some s => Z.of_nat (length (lit s)) < 2 ^ 32 | NULL => True end.

Lemma error_item_ok text : text_fits text -> item_ok (error_item text).
Proof. intros Ht. apply text_ok. by destruct text. Qed.

(** A refused attach, decoded under the request's correlation identifier. *)
Lemma refusal_read b fragment base ns pw correlation_id code huge text fresh alloc_ok out :
  is_i64 correlation_id -> code ∈ responseCode_values -> code <> tensor_pool_responseCode_OK ->
  text_fits text ->
  send_bytes base ns pw (ShmAttachResponse correlation_id code None huge text) b = Some fragment ->
  tp_driver_decode_attach_response fragment correlation_id fresh alloc_ok out =
    Decoded (with_code code (received_text text) out) /\
  forall other, other <> correlation_id ->
    tp_driver_decode_attach_response fragment other fresh alloc_ok out = NotThisMessage.
Proof.
  intros Hc Hcode Hnok Htext He. unfold send_bytes in He. cbn [msg_items] in He.
  unfold attach_response_items in He.
  assert (E : (if code =? tensor_pool_responseCode_OK then None else None) =
              @None (tp_driver_lease_t * tp_driver_stream_state_t)) by by destruct (_ =? _).
  rewrite E in He. clear E.
  set (blk := Block shmAttachResponse_block _) in He.
  assert (Hok : item_ok blk).
  { split; [done|]. split; [reflexivity|]. unfold attach_response_fields. cbn [app]. write_fits_tac. }
  assert (Hrest : Forall item_ok [group_item payloadPools_block 0; Text []; error_item text]).
  { items_ok_tac; [|done|by apply error_item_ok]. split; [done|]. split; [reflexivity|].
    unfold group_header_writes. write_fits_tac. }
  assert (Hh : holds fragment 0 (driver_header shmAttachResponse_block shmAttachResponse_template ::
    blk :: [group_item payloadPools_block 0; Text []; error_item text])).
  { eapply encode_holds; [|exact He]. unfold driver_header. constructor; [item_ok_tac|]. by constructor. }
  unfold blk in Hh. pose proof (header_check_holds _ _ _ _ _ Hrest Hh ltac:(done)) as Hhead.
  destruct Hh as [_ [Hb Hh]]. change (0 + 8) with 8 in Hb, Hh.
  unfold tp_driver_decode_attach_response. rewrite Hhead. cbn [outcome_bind].
  block_field Hb 0 8 (u64 correlation_id). rewrite i64_u64 by done. split.
  2:{ intros other Ho. destruct (Z.eqb_spec correlation_id other); [congruence|done]. }
  rewrite Z.eqb_refl. cbn [negb].
  rewrite (response_code _ _ code Hcode (Hb 8 4 (u32 code) ltac:(done) ltac:(done) ltac:(done) eq_refl)).
  cbn [require outcome_bind]. destruct (Z.eqb_spec code tensor_pool_responseCode_OK); [done|].
  unfold decode_refusal. rewrite sbe_group_wrap_spec.
  change (messageHeader_encoded_length + shmAttachResponse_block) with 62.
  change (8 + shmAttachResponse_block) with 62 in Hh. destruct Hh as [Hg Hh].
  inversion_clear Hrest as [|? ? _ Hr]. inversion_clear Hr as [|? ? _ Ht].
  pose proof (holds_room _ _ _ (Forall_cons_2 _ _ _ (text_ok [] ltac:(done)) Ht) Hh) as Hlen.
  destruct (Z.leb_spec (62 + 4) (blen fragment)); [|lia].
  rewrite (Hg 2 2 0) by done. change (Z.to_nat 0) with O. cbn [skip_pools].
  rewrite (get_text_holds _ _ _ _ Ht Hh). cbn [outcome_bind snd].
  apply text_bytes in Hh as (_ & _ & Hh).
  by rewrite (get_error_holds _ _ _ _ _ (Forall_nil_2 _) Hh).
Qed.

(** *** Granted responses *)

Section Granted.
Context (base ns : chars) (pw : ptr chars) (stream : tp_driver_stream_state_t) (huge : bool).
Context (Hbase : "000"%char ∉ base) (Hstream : is_u32 (ds_stream_id stream))
        (Hepoch : is_u64 (ds_epoch stream)).

(** A pool's entry as the client must see it. *)
Definition pool_seen (nslots : Z) (p : Z * Z) (i : tp_driver_pool_info_t) : Prop :=
  pi_pool_id i = fst p /\ pi_nslots i = nslots /\ pi_stride_bytes i = snd p /\
  region_uri base ns pw stream (fst p) tensor_pool_regionType_PAYLOAD_POOL huge =
    Ok (pi_region_uri i).

Definition pool_ok (p : Z * Z) : Prop := is_u16 (fst p) /\ 0 <= snd p < TP_NULL_U32.

Lemma region_uri_item pool type uri : 0 <= pool ->
  region_uri base ns pw stream pool type huge = Ok uri -> item_ok (Text uri).
Proof.
  intros Hp Hu. apply text_ok.
  destruct (region_uri_string _ _ _ _ _ _ _ _ Hbase (proj1 Hstream) (proj1 Hepoch) Hp Hu). lia.
Qed.

Lemma pool_items_ok nslots pools : forall items,
  is_u32 nslots -> Forall pool_ok pools ->
  pool_items base ns pw stream nslots huge pools = Ok items -> Forall item_ok items.
Proof.
  induction pools as [|[id stride] pools IH]; intros items Hn Hp; [by intros [= <-]|].
  inversion_clear Hp as [|? ? [Hid Hs] Hp']. simpl in Hid, Hs. cbn [pool_items].
  destruct (region_uri _ _ _ _ id _ _) as [uri|] eqn:Hu; [|done]. cbn [res_bind].
  destruct (pool_items _ _ _ _ _ _ pools) as [rest|] eqn:Hr; [|done]. intros [= <-].
  assert (Hs32 : is_u32 stride) by (unfold is_u32, TP_NULL_U32 in *; lia).
  constructor; [item_ok_tac|]. constructor; [|by apply (IH _ Hn Hp')].
  by apply (region_uri_item id tensor_pool_regionType_PAYLOAD_POOL); [apply Hid|].
Qed.

Lemma decode_pools_holds b nslots fresh pools : forall items pos rest,
  0 <= nslots < TP_NULL_U32 -> Forall pool_ok pools ->
  pool_items base ns pw stream nslots huge pools = Ok items -> Forall item_ok rest ->
  holds b pos (items ++ rest) ->
  exists infos, decode_pools b pos payloadPools_block nslots (replicate (length pools) fresh) =
      Decoded (infos, PoolsRead (pos + items_size items)) /\
    Forall2 (pool_seen nslots) pools infos.
Proof.
  induction pools as [|[id stride] pools IH]; intros items pos rest Hn Hp.
  { intros [= <-] _ _. exists []. cbn. by rewrite Z.add_0_r. }
  intros Hi Hrest Hh. inversion_clear Hp as [|? ? [Hid Hs] Hp']. simpl in Hid, Hs.
  cbn [pool_items] in Hi. destruct (region_uri _ _ _ _ id _ _) as [uri|] eqn:Hu; [|done].
  cbn [res_bind] in Hi. destruct (pool_items _ _ _ _ _ _ pools) as [items'|] eqn:Hr; [|done].
  injection Hi as <-. destruct Hh as [Hb Hh].
  assert (Hn32 : is_u32 nslots) by (unfold is_u32, TP_NULL_U32 in *; lia).
  assert (Hok : Forall item_ok (items' ++ rest))
    by (apply Forall_app_2; [by apply (pool_items_ok nslots pools)|done]).
  pose proof (get_text_holds _ _ _ _ Hok Hh) as Ht. apply text_bytes in Hh as (_ & _ & Hh).
  pose proof (holds_room _ _ _ Hok Hh) as Hlen.
  destruct (IH items' _ rest Hn Hp' eq_refl Hrest Hh) as (infos & Hd & Hseen).
  destruct (region_uri_string _ _ _ _ _ _ _ _ Hbase (proj1 Hstream) (proj1 Hepoch) (proj1 Hid) Hu)
    as [Hnul Hulen].
  cbn [length replicate decode_pools]. rewrite sbe_group_next_spec.
  destruct (Z.leb_spec (pos + payloadPools_block) (blen b)); [|lia].
  destruct (Z.ltb_spec (blen b) (pos + payloadPools_block)); [lia|]. cbv zeta.
  pose proof (Hb 0 2 id ltac:(done) ltac:(done) ltac:(done) eq_refl) as E0. rewrite Z.add_0_r in E0.
  block_field Hb 2 4 nslots. block_field Hb 6 4 stride. rewrite E0.
  destruct (Z.eqb_spec nslots TP_NULL_U32); [lia|]. destruct (Z.eqb_spec stride TP_NULL_U32); [lia|].
  rewrite Z.eqb_refl. cbn [orb negb]. rewrite Ht. cbn [outcome_bind fst snd].
  rewrite copy_string by (done || lia). rewrite bool_decide_false by (by destruct uri; cbn in *; [lia|]).
  rewrite Hd. cbn [outcome_bind fst snd].
  eexists. split.
  - f_equal. f_equal. f_equal. cbn [items_size item_size Text]. unfold Text. cbn [item_size].
    rewrite length_fmap. lia.
  - by constructor.
Qed.

Record lease_ok (l : tp_driver_lease_t) : Prop := {
  lk_lease : 0 <= dl_lease_id l < TP_NULL_U64;
  lk_expiry : is_u64 (dl_expiry_ns l);
  lk_node : is_u32 (dl_node_id l);
}.

Record profile_ok (p : tp_driver_profile_t) : Prop := {
  pk_nslots : 0 < pf_header_nslots p < TP_NULL_U32;
  pk_pools : pf_pools p <> [] /\ Forall pool_ok (pf_pools p);
}.

(** What the client makes of a granted response, besides its pools. *)
Definition granted_info (l : tp_driver_lease_t) (p : tp_driver_profile_t)
    (out : tp_driver_attach_info_t) (infos : list tp_driver_pool_info_t) (uri : chars)
    : tp_driver_attach_info_t :=
  {| ai_code := tensor_pool_responseCode_OK; ai_error_message := ai_error_message out;
     ai_lease_id := dl_lease_id l; ai_lease_expiry_timestamp_ns := dl_expiry_ns l;
     ai_stream_id := ds_stream_id stream; ai_epoch := ds_epoch stream;
     ai_layout_version := TP_LAYOUT_VERSION; ai_header_nslots := pf_header_nslots p;
     ai_header_slot_bytes := TP_HEADER_SLOT_BYTES; ai_node_id := dl_node_id l;
     ai_header_region_uri := uri; ai_pools := infos;
     ai_pool_count := Z.of_nat (length (pf_pools p)) |}.

Lemma same_or (z n : Z) : (if z =? n then n else z) = z.
Proof. by destruct (Z.eqb_spec z n). Qed.

(** The fixed fields of a granted response, as the client reads them. *)
Lemma granted_fields_read b l p c pos rest out :
  lease_ok l -> profile_ok p -> ds_stream_id stream <> TP_NULL_U32 ->
  ds_epoch stream <> TP_NULL_U64 ->
  pos = 8 ->
  holds b pos (Block shmAttachResponse_block
    ([Write 0 8 (u64 c); Write 8 4 (u32 0)] ++
     attach_response_fields (dl_lease_id l) (dl_expiry_ns l) (ds_stream_id stream) (ds_epoch stream)
       TP_LAYOUT_VERSION (pf_header_nslots p) TP_HEADER_SLOT_BYTES (dl_node_id l)) :: rest) ->
  granted_fields b (with_code tensor_pool_responseCode_OK (ai_error_message out) out) =
    with_pools (ai_pools out) (ai_pool_count out)
      (granted_info l p out [] (ai_header_region_uri out)).
Proof.
  intros [] [] Hs He -> [Hb _]. unfold granted_fields.
  block_field Hb 20 8 (dl_expiry_ns l). block_field Hb 50 4 (dl_node_id l).
  block_field Hb 12 8 (dl_lease_id l). block_field Hb 28 4 (ds_stream_id stream).
  block_field Hb 32 8 (ds_epoch stream). block_field Hb 40 4 TP_LAYOUT_VERSION.
  block_field Hb 44 4 (pf_header_nslots p). block_field Hb 48 2 TP_HEADER_SLOT_BYTES.
  by rewrite !same_or.
Qed.

Definition grant_head (l : tp_driver_lease_t) (p : tp_driver_profile_t) (c : Z) : list item :=
  [Block shmAttachResponse_block
     ([Write 0 8 (u64 c); Write 8 4 (u32 0)] ++
      attach_response_fields (dl_lease_id l) (dl_expiry_ns l) (ds_stream_id stream) (ds_epoch stream)
        TP_LAYOUT_VERSION (pf_header_nslots p) TP_HEADER_SLOT_BYTES (dl_node_id l));
   group_item payloadPools_block (Z.of_nat (length (pf_pools p)))].

(** The parts of a granted response that was sent. *)
Lemma grant_sent b fragment l p c text :
  lease_ok l -> profile_ok p -> ds_profile stream = Some p -> text_fits text ->
  send_bytes base ns pw
    (ShmAttachResponse c tensor_pool_responseCode_OK (Some (l, stream)) huge text) b = Some fragment ->
  exists items uri, let tail := [Text uri; error_item text] in
    pool_items base ns pw stream (pf_header_nslots p) huge (pf_pools p) = Ok items /\
    region_uri base ns pw stream 0 tensor_pool_regionType_HEADER_RING huge = Ok uri /\
    Forall item_ok (grant_head l p c ++ items ++ tail) /\
    holds fragment 0 (driver_header shmAttachResponse_block shmAttachResponse_template ::
                      grant_head l p c ++ items ++ tail).
Proof.
  intros Hl Hp Hprof Htext Hsend. unfold send_bytes in Hsend. cbn [msg_items] in Hsend.
  unfold attach_response_items in Hsend. rewrite Z.eqb_refl, Hprof in Hsend.
  unfold pools_group in Hsend.
  destruct (Z.leb_spec (Z.of_nat (length (pf_pools p))) 65535) as [Hcount|]; [|done].
  destruct (pool_items _ _ _ _ _ _ _) as [items|] eqn:Hi; [|done]. cbn [res_bind] in Hsend.
  destruct (region_uri _ _ _ _ 0 _ _) as [uri|] eqn:Hu; [|done]. cbn [res_bind app] in Hsend.
  destruct Hp as [Hn [Hne Hpools]]. destruct Hl as [Hl1 Hl2 Hl3].
  assert (is_u64 (dl_lease_id l)) by (unfold is_u64, TP_NULL_U64 in *; lia).
  assert (Hn32 : is_u32 (pf_header_nslots p)) by (unfold is_u32, TP_NULL_U32 in *; lia).
  assert (Hok : Forall item_ok (grant_head l p c ++ items ++ [Text uri; error_item text])).
  { unfold grant_head. apply Forall_app_2; [|apply Forall_app_2].
    - constructor; [|constructor; [|constructor]]; (split; [done|split; [reflexivity|]]);
        unfold attach_response_fields, group_header_writes; cbn [app]; write_fits_tac.
    - eapply pool_items_ok; [exact Hn32|exact Hpools|exact Hi].
    - constructor; [by apply (region_uri_item 0 tensor_pool_regionType_HEADER_RING)|].
      constructor; [by apply error_item_ok|constructor]. }
  exists items, uri. split_and!; [done..|].
  eapply encode_holds; [|exact Hsend]. unfold driver_header. constructor; [item_ok_tac|exact Hok].
Qed.

(** The decoder past the fixed fields. *)
Lemma decode_granted_holds b l p c items uri text fresh out :
  lease_ok l -> profile_ok p -> ds_stream_id stream <> TP_NULL_U32 ->
  ds_epoch stream <> TP_NULL_U64 ->
  pool_items base ns pw stream (pf_header_nslots p) huge (pf_pools p) = Ok items ->
  region_uri base ns pw stream 0 tensor_pool_regionType_HEADER_RING huge = Ok uri ->
  Forall item_ok (grant_head l p c ++ items ++ [Text uri; error_item text]) ->
  holds b 8 (grant_head l p c ++ items ++ [Text uri; error_item text]) ->
  exists infos,
    decode_granted b fresh true (with_code tensor_pool_responseCode_OK (ai_error_message out) out) =
      Decoded (granted_info l p out infos uri) /\
    Forall2 (pool_seen (pf_header_nslots p)) (pf_pools p) infos.
Proof.
  intros Hl Hp Hs He Hi Hu Hok Hh. pose proof Hp as [Hn [Hne Hpools]].
  pose proof (granted_fields_read _ l p c 8 _ out Hl Hp Hs He eq_refl Hh) as Hf.
  apply Forall_app in Hok as [_ Hrest]. pose proof Hrest as [_ Htail]%Forall_app.
  destruct Hh as [_ [Hg Hh]]. change (8 + shmAttachResponse_block) with 62 in Hg, Hh.
  change (62 + 4) with 66 in Hh. pose proof (holds_room _ _ _ Hrest Hh) as Hlen.
  unfold decode_granted. rewrite Hf.
  unfold missing_fields. cbn [with_pools granted_info ai_lease_id ai_stream_id ai_epoch
    ai_layout_version ai_header_nslots ai_header_slot_bytes].
  destruct (Z.eqb_spec (dl_lease_id l) TP_NULL_U64); [pose proof (lk_lease _ Hl); lia|].
  destruct (Z.eqb_spec (ds_stream_id stream) TP_NULL_U32); [done|].
  destruct (Z.eqb_spec (ds_epoch stream) TP_NULL_U64); [done|].
  destruct (Z.eqb_spec (pf_header_nslots p) TP_NULL_U32); [lia|].
  destruct (Z.eqb_spec (pf_header_nslots p) 0); [lia|].
  change (TP_LAYOUT_VERSION =? TP_NULL_U32) with false.
  change (TP_HEADER_SLOT_BYTES =? uint16_null) with false.
  rewrite Z.eqb_refl. cbn [orb negb]. rewrite sbe_group_wrap_spec.
  change (messageHeader_encoded_length + shmAttachResponse_block) with 62. change (62 + 4) with 66.
  destruct (Z.leb_spec 66 (blen b)); [|lia].
  rewrite (Hg 2 2 (Z.of_nat (length (pf_pools p)))) by done.
  pose proof (Hg 0 2 payloadPools_block ltac:(done) ltac:(done) ltac:(done) eq_refl) as Hg0.
  rewrite Z.add_0_r in Hg0. rewrite Hg0.
  destruct (Z.eqb_spec (Z.of_nat (length (pf_pools p))) 0); [by destruct (pf_pools p)|].
  rewrite Nat2Z.id.
  destruct (decode_pools_holds b (pf_header_nslots p) fresh (pf_pools p) items 66 _
    ltac:(lia) Hpools Hi Htail Hh) as (infos & Hd & Hseen).
  apply (holds_app _ items) in Hh. inversion_clear Htail as [|? ? _ Htext].
  destruct (region_uri_string _ _ _ _ _ _ _ _ Hbase (proj1 Hstream) (proj1 Hepoch)
    (Z.le_refl 0) Hu) as [Hnul Hulen].
  rewrite Hd. cbn [outcome_bind fst snd].
  unfold decode_header_uri. rewrite (get_text_holds _ _ _ _ Htext Hh). cbn [outcome_bind fst].
  rewrite copy_string by (done || lia).
  rewrite bool_decide_false by (by destruct uri; cbn in *; [lia|]).
  by exists infos.
Qed.
End Granted.
End Responses.

(** A granted response, decoded under the request's correlation identifier and under
    others. *)
Lemma attach_response_read `{Sbe} base ns pw stream huge b fragment l p c text fresh out :
  ("000"%char ∉ base) -> 0 <= ds_stream_id stream < TP_NULL_U32 ->
  0 <= ds_epoch stream < TP_NULL_U64 -> is_i64 c -> lease_ok l -> profile_ok p ->
  ds_profile stream = Some p -> text_fits text ->
  send_bytes base ns pw
    (ShmAttachResponse c tensor_pool_responseCode_OK (Some (l, stream)) huge text) b = Some fragment ->
  (exists infos uri,
    tp_driver_decode_attach_response fragment c fresh true out =
      Decoded (granted_info stream l p out infos uri) /\
    Forall2 (pool_seen base ns pw stream huge (pf_header_nslots p)) (pf_pools p) infos /\
    region_uri base ns pw stream 0 tensor_pool_regionType_HEADER_RING huge = Ok uri) /\
  forall other alloc_ok, other <> c ->
    tp_driver_decode_attach_response fragment other fresh alloc_ok out = NotThisMessage.
Proof.
  intros Hbase Hs He Hc Hl Hp Hprof Htext Hsend.
  assert (Hs32 : is_u32 (ds_stream_id stream)) by (unfold is_u32, TP_NULL_U32 in *; lia).
  assert (He64 : is_u64 (ds_epoch stream)) by (unfold is_u64, TP_NULL_U64 in *; lia).
  destruct (grant_sent base ns pw stream huge Hbase Hs32 He64 b fragment l p c text Hl Hp Hprof Htext
    Hsend) as (items & uri & Hi & Hu & Hok & Hh).
  inversion Hok as [|? ? _ Hok']; subst.
  pose proof (header_check_holds _ _ _ _ _ Hok' Hh ltac:(done)) as Hhead.
  destruct Hh as [_ Hh]. change (0 + 8) with 8 in Hh.
  destruct (decode_granted_holds base ns pw stream huge Hbase Hs32 He64 fragment l p c items uri text
    fresh out Hl Hp ltac:(lia) ltac:(lia) Hi Hu Hok Hh) as (infos & Hd & Hseen).
  destruct Hh as [Hb _]. unfold tp_driver_decode_attach_response. rewrite Hhead. cbn [outcome_bind].
  block_field Hb 0 8 (u64 c). rewrite i64_u64 by done. split.
  2:{ intros other alloc_ok Ho. destruct (Z.eqb_spec c other); [congruence|done]. }
  exists infos, uri. split; [|done]. rewrite Z.eqb_refl. cbn [negb].
  rewrite (response_code _ _ tensor_pool_responseCode_OK ltac:(by left)
    (Hb 8 4 (u32 0) ltac:(done) ltac:(done) ltac:(done) eq_refl)).
  cbn [require outcome_bind]. rewrite Z.eqb_refl. exact Hd.
Qed.

(** An attach response that fits its buffer tells the client that asked exactly
    what the driver answered, and no other client anything: when granted, the lease
    and its expiry, the stream and its epoch, the node, every pool with the driver's
    URI of its region, and the URI of the header ring; when refused, the code and the
    text. *)
Theorem attach_response_roundtrip `{Sbe} base ns pw huge b fragment c code granted text fresh out :
  ("000"%char ∉ base) -> is_i64 c -> text_fits text -> code ∈ responseCode_values ->
  send_bytes base ns pw (ShmAttachResponse c code granted huge text) b = Some fragment ->
  (forall l stream p,
     code = tensor_pool_responseCode_OK -> granted = Some (l, stream) ->
     0 <= ds_stream_id stream < TP_NULL_U32 -> 0 <= ds_epoch stream < TP_NULL_U64 ->
     lease_ok l -> ds_profile stream = Some p -> profile_ok p ->
     exists infos uri,
       tp_driver_decode_attach_response fragment c fresh true out =
         Decoded (granted_info stream l p out infos uri) /\
       Forall2 (pool_seen base ns pw stream huge (pf_header_nslots p)) (pf_pools p) infos /\
       region_uri base ns pw stream 0 tensor_pool_regionType_HEADER_RING huge = Ok uri /\
       forall other alloc_ok, other <> c ->
         tp_driver_decode_attach_response fragment other fresh alloc_ok out = NotThisMessage) /\
  (code <> tensor_pool_responseCode_OK -> granted = None -> forall alloc_ok,
     tp_driver_decode_attach_response fragment c fresh alloc_ok out =
       Decoded (with_code code (received_text text) out) /\
     forall other, other <> c ->
       tp_driver_decode_attach_response fragment other fresh alloc_ok out = NotThisMessage).
Proof.
  intros Hbase Hc Htext Hcode Hsend. split.
  - intros l stream p -> -> Hs He Hl Hprof Hp.
    destruct (attach_response_read base ns pw stream huge b fragment l p c text fresh out)
      as [(infos & uri & Hd & Hseen & Hu) Hother]; try done. by exists infos, uri.
  - intros Hn -> alloc_ok. by apply (refusal_read b fragment base ns pw c code huge).
Qed.

(** *** Detach responses and notices *)

Section Notices.
Context `{Sbe} (base ns : chars) (pw : ptr chars).

(** A notice: its header, its block and a text. *)
Definition notice (block template : Z) (ws : list write) (text : ptr string) : list item :=
  [driver_header block template; Block block ws; error_item text].

Lemma notice_sent block template ws text b fragment :
  is_u16 block -> is_u16 template -> writes_in block ws = true -> Forall write_fits ws ->
  text_fits text -> encode (notice block template ws text) b = Some fragment ->
  holds fragment 0 (notice block template ws text).
Proof.
  intros Hb Ht Hin Hfit Htext He. eapply encode_holds; [|exact He].
  constructor; [by apply header_item_ok|]. constructor; [split; [apply Hb|done]|].
  constructor; [by apply error_item_ok|constructor].
Qed.

(** Its header is recognised, its text read, and no decoder of another kind takes it. *)
Lemma notice_read block template ws text fragment dst :
  text_fits text -> holds fragment 0 (notice block template ws text) -> 0 <= block ->
  driver_header_check fragment template block = Decoded tt /\
  get_error_message fragment (messageHeader_encoded_length + block) dst =
    Decoded (received_text text) /\
  (forall off w v, 0 <= w -> 0 <= off -> off + w <= block ->
     last_write ws off w (inr true) = inl v -> sbe_get w fragment (8 + off) = v) /\
  forall template' block', template <> template' ->
    driver_header_check fragment template' block' = NotThisMessage.
Proof.
  intros Htext Hh Hblock.
  assert (Hok : Forall item_ok [error_item text]) by (constructor; [by apply error_item_ok|constructor]).
  pose proof (header_check_holds _ _ _ _ _ Hok Hh Hblock) as Hhead.
  assert (Hne : forall template' block', template <> template' ->
    driver_header_check fragment template' block' = NotThisMessage).
  { intros. by eapply header_check_other. }
  destruct Hh as [_ [Hb Hh]]. change (0 + 8) with 8 in Hb, Hh. split_and!; [done| |exact Hb|done].
  unfold messageHeader_encoded_length. by apply (get_error_holds _ _ _ _ _ (Forall_nil_2 _) Hh).
Qed.

Lemma detach_response_read b fragment c code text out :
  is_i64 c -> code ∈ responseCode_values -> text_fits text ->
  send_bytes base ns pw (ShmDetachResponse c code text) b = Some fragment ->
  tp_driver_decode_detach_response fragment out =
    (Decoded tt, {| di_correlation_id := c; di_code := code;
                    di_error_message := received_text text |}) /\
  tp_driver_decode_lease_revoked fragment = NotThisMessage /\
  tp_driver_decode_shutdown fragment = NotThisMessage.
Proof.
  intros Hc Hcode Ht Hsend.
  apply notice_sent in Hsend; [|done..|reflexivity|write_fits_tac|done].
  destruct (notice_read _ _ _ _ _ (di_error_message out) Ht Hsend ltac:(done))
    as (Hhead & Htext & Hb & Hother).
  split_and!.
  2:{ unfold tp_driver_decode_lease_revoked. by rewrite Hother. }
  2:{ unfold tp_driver_decode_shutdown. by rewrite Hother. }
  unfold tp_driver_decode_detach_response. rewrite Hhead, Htext. block_field Hb 0 8 (u64 c).
  rewrite (response_code _ _ code Hcode (Hb 8 4 (u32 code) ltac:(done) ltac:(done) ltac:(done) eq_refl)).
  by rewrite i64_u64.
Qed.

Lemma lease_revoked_read b fragment t l reason text :
  is_u64 t -> is_u64 (dl_lease_id l) -> is_u32 (dl_stream_id l) -> is_u32 (dl_client_id l) ->
  dl_role l ∈ role_values \/ dl_role l = driver_enum_null -> reason ∈ leaseRevokeReason_values ->
  text_fits text ->
  send_bytes base ns pw (ShmLeaseRevoked t l reason text) b = Some fragment ->
  tp_driver_decode_lease_revoked fragment =
    Decoded {| lr_timestamp_ns := t; lr_lease_id := dl_lease_id l; lr_stream_id := dl_stream_id l;
               lr_client_id := dl_client_id l; lr_role := dl_role l; lr_reason := reason;
               lr_error_message := received_text text |} /\
  (forall out, fst (tp_driver_decode_detach_response fragment out) = NotThisMessage) /\
  tp_driver_decode_shutdown fragment = NotThisMessage.
Proof.
  intros Ht Hl Hs Hc Hrole Hreason Htext Hsend.
  assert (Hr8 : is_u8 (dl_role l)).
  { unfold role_values, driver_enum_null in Hrole. rewrite !elem_of_cons, elem_of_nil in Hrole.
    unfold is_u8. lia. }
  assert (Hn8 : is_u8 reason).
  { unfold leaseRevokeReason_values in Hreason. rewrite !elem_of_cons, elem_of_nil in Hreason.
    unfold is_u8. lia. }
  apply notice_sent in Hsend; [|done..|reflexivity|write_fits_tac|done].
  destruct (notice_read _ _ _ _ _ [] Htext Hsend ltac:(done)) as (Hhead & Herr & Hb & Hother).
  split_and!.
  2:{ intros out. unfold tp_driver_decode_detach_response. by rewrite Hother. }
  2:{ unfold tp_driver_decode_shutdown. by rewrite Hother. }
  unfold tp_driver_decode_lease_revoked. rewrite Hhead. cbn [outcome_bind].
  block_field Hb 24 1 (dl_role l). block_field Hb 25 1 reason. block_field Hb 0 8 t.
  block_field Hb 8 8 (dl_lease_id l). block_field Hb 16 4 (dl_stream_id l).
  block_field Hb 20 4 (dl_client_id l).
  assert (Erole : sbe_enum role_values driver_enum_null (dl_role l) = Some (dl_role l)).
  { destruct Hrole as [Hr | ->]; [by apply sbe_enum_valid|apply sbe_enum_null]. }
  rewrite Erole, (sbe_enum_valid _ _ _ Hreason), Herr. cbn [require outcome_bind].
  unfold u8. by rewrite !Z.mod_small.
Qed.

Lemma shutdown_read b fragment t reason text :
  is_u64 t -> reason ∈ shutdownReason_values -> text_fits text ->
  send_bytes base ns pw (ShmDriverShutdown t reason text) b = Some fragment ->
  tp_driver_decode_shutdown fragment =
    Decoded {| sd_timestamp_ns := t; sd_reason := reason; sd_error_message := received_text text |} /\
  (forall out, fst (tp_driver_decode_detach_response fragment out) = NotThisMessage) /\
  tp_driver_decode_lease_revoked fragment = NotThisMessage.
Proof.
  intros Ht Hreason Htext Hsend.
  assert (Hn8 : is_u8 reason).
  { unfold shutdownReason_values in Hreason. rewrite !elem_of_cons, elem_of_nil in Hreason.
    unfold is_u8. lia. }
  apply notice_sent in Hsend; [|done..|reflexivity|write_fits_tac|done].
  destruct (notice_read _ _ _ _ _ [] Htext Hsend ltac:(done)) as (Hhead & Herr & Hb & Hother).
  split_and!.
  2:{ intros out. unfold tp_driver_decode_detach_response. by rewrite Hother. }
  2:{ unfold tp_driver_decode_lease_revoked. by rewrite Hother. }
  unfold tp_driver_decode_shutdown. rewrite Hhead. cbn [outcome_bind].
  block_field Hb 8 1 reason. block_field Hb 0 8 t.
  rewrite (sbe_enum_valid _ _ _ Hreason), Herr. cbn [require outcome_bind].
  unfold u8. by rewrite Z.mod_small.
Qed.
End Notices.

(** ** What a client accepts *)

Definition usable_pool (nslots : Z) (i : tp_driver_pool_info_t) : Prop :=
  pi_nslots i = nslots /\ pi_stride_bytes i <> TP_NULL_U32 /\ pi_region_uri i <> [].

Section Accepted.
Context `{Sbe}.

Lemma decode_pools_usable b block nslots fresh k : forall pos ps pos',
  decode_pools b pos block nslots (replicate k fresh) = Decoded (ps, PoolsRead pos') ->
  exists good m, ps = good ++ replicate m fresh /\ (length good + m = k)%nat /\
    Forall (usable_pool nslots) good.
Proof.
  induction k as [|k IH]; intros pos ps pos'; [intros [= <- <-]; by exists [], 0%nat|].
  cbn [replicate decode_pools]. destruct (sbe_group_next pos block (blen b)) as [off|].
  2:{ intros [= <- <-]. by exists [], (S k). }
  destruct (_ <? _); [done|]. cbv zeta.
  destruct (_ || _) eqn:Enull; [done|]. apply orb_false_iff in Enull as [_ Estride].
  destruct (Z.eqb_spec (sbe_get 4 b (off + 2)) nslots) as [En|]; [|done]. cbn [negb].
  destruct (get_text b (off + block)) as [[[s|] p]| | |]; [|done..]. cbn [outcome_bind fst snd].
  case_bool_decide as Eu; [done|].
  destruct (decode_pools b p block nslots (replicate k fresh)) as [[ps' e]| | |] eqn:Ed; [|done..].
  cbn [outcome_bind fst snd]. intros [= <- ->].
  destruct (IH _ _ _ Ed) as (good & m & -> & Hlen & Hgood).
  eexists (_ :: good), m. split; [reflexivity|]. split; [simpl; lia|].
  constructor; [|done]. split_and!; [done| |done]. simpl. by apply Z.eqb_neq in Estride.
Qed.

Definition complete_info (i : tp_driver_attach_info_t) : Prop :=
  ai_lease_id i <> TP_NULL_U64 /\ ai_stream_id i <> TP_NULL_U32 /\ ai_epoch i <> TP_NULL_U64 /\
  ai_layout_version i <> TP_NULL_U32 /\ ai_header_slot_bytes i = TP_HEADER_SLOT_BYTES /\
  0 < ai_header_nslots i < TP_NULL_U32.

Lemma granted_complete b out :
  let i := granted_fields b out in
  missing_fields i = false -> ai_header_slot_bytes i = TP_HEADER_SLOT_BYTES ->
  ai_header_nslots i <> 0 -> complete_info i.
Proof.
  intros i Hm Hs Hn. unfold missing_fields in Hm. rewrite !orb_false_iff, !Z.eqb_neq in Hm.
  unfold complete_info. pose proof (sbe_get_range 4 b (8 + 44) ltac:(done)) as Hr.
  change (sbe_get 4 b (8 + 44)) with (ai_header_nslots i) in Hr. unfold TP_NULL_U32 in *.
  change (2 ^ (8 * 4)) with (2 ^ 32) in Hr. intuition lia.
Qed.

Lemma decode_granted_sound b fresh alloc_ok out out' :
  decode_granted b fresh alloc_ok out = Decoded out' ->
  ai_code out' = tensor_pool_responseCode_OK ->
  complete_info out' /\ ai_header_region_uri out' <> [] /\
  exists good m, ai_pools out' = good ++ replicate m fresh /\
    ai_pool_count out' = Z.of_nat (length good + m) /\ (0 < length good + m)%nat /\
    Forall (usable_pool (ai_header_nslots out')) good.
Proof.
  unfold decode_granted. set (i := granted_fields b out).
  destruct (missing_fields i) eqn:Em; [by intros [= <-]|].
  destruct (Z.eqb_spec (ai_header_slot_bytes i) TP_HEADER_SLOT_BYTES) as [Es|]; cbn [negb];
    [|by intros [= <-]].
  destruct (Z.eqb_spec (ai_header_nslots i) 0) as [|En]; [by intros [= <-]|].
  pose proof (granted_complete b out Em Es En) as Hcomplete. fold i in Hcomplete.
  rewrite sbe_group_wrap_spec. destruct (_ <=? _); [|done].
  set (count := sbe_get 2 b _). destruct (Z.eqb_spec count 0) as [|Hc]; [by intros [= <-]|].
  destruct alloc_ok; cbn [negb]; [|by intros [= <-]].
  destruct (decode_pools _ _ _ _ _) as [[ps e]| | |] eqn:Ed; [|done..]. cbn [outcome_bind fst snd].
  destruct e as [pos|text]; [|by intros [= <-]].
  apply decode_pools_usable in Ed as (good & m & -> & Hlen & Hgood).
  unfold decode_header_uri. destruct (get_text b pos) as [[[s|] p]| | |]; [|by intros [= <-]|done..].
  cbn [outcome_bind fst]. case_bool_decide as Eu; [by intros [= <-]|]. intros [= <-] _.
  pose proof (sbe_get_range 2 b (messageHeader_encoded_length + shmAttachResponse_block + 2) ltac:(done))
    as Hr. fold count in Hr.
  split; [exact Hcomplete|]. split; [exact Eu|]. exists good, m. split_and!; [done| |lia|exact Hgood].
  simpl. lia.
Qed.
End Accepted.

(** Whatever bytes arrive, a client that takes an attach response for granted has
    a lease, a stream, an epoch and a layout version, header slots of the expected
    size and a positive number of them, a header URI, and at least one pool; every
    pool it read has as many slots as the header ring, a stride and a URI.  Pools
    that the fragment is too short for keep the contents of the allocation. *)
Theorem accepted_attach_response `{Sbe} b correlation_id fresh alloc_ok out out' :
  tp_driver_decode_attach_response b correlation_id fresh alloc_ok out = Decoded out' ->
  ai_code out' = tensor_pool_responseCode_OK ->
  complete_info out' /\ ai_header_region_uri out' <> [] /\
  exists good m, ai_pools out' = good ++ replicate m fresh /\
    ai_pool_count out' = Z.of_nat (length good + m) /\ (0 < length good + m)%nat /\
    Forall (usable_pool (ai_header_nslots out')) good.
Proof.
  unfold tp_driver_decode_attach_response.
  destruct (driver_header_check _ _ _); [|done..]. cbn [outcome_bind].
  destruct (_ =? correlation_id); [|done]. cbn [negb].
  destruct (sbe_enum _ _ _) as [code|]; [|done]. cbn [require outcome_bind].
  destruct (Z.eqb_spec code tensor_pool_responseCode_OK) as [|Hn].
  - apply decode_granted_sound.
  - unfold decode_refusal. destruct (sbe_group_wrap _ _ _) as [[block count]|]; [|done].
    destruct (get_text _ _) as [[u p]| | |]; [|done..]. cbn [outcome_bind snd].
    destruct (get_error_message _ _ _); [|done..]. by intros [= <-].
Qed.

(** ** Examples *)

Definition demo_fresh : tp_driver_pool_info_t :=
  {| pi_pool_id := 0; pi_nslots := 0; pi_stride_bytes := 0; pi_region_uri := [] |}.

Definition demo_info : tp_driver_attach_info_t :=
  {| ai_code := 4; ai_error_message := []; ai_lease_id := 0; ai_lease_expiry_timestamp_ns := 0;
     ai_stream_id := 0; ai_epoch := 0; ai_layout_version := 0; ai_header_nslots := 0;
     ai_header_slot_bytes := 0; ai_node_id := 0; ai_header_region_uri := []; ai_pools := [];
     ai_pool_count := 0 |}.

(** A response that announces three pools and ends before the first one is taken
    for granted; its pools are as they were allocated. *)
Definition truncated_response : list item :=
  [driver_header shmAttachResponse_block shmAttachResponse_template;
   Block shmAttachResponse_block
     ([Write 0 8 7; Write 8 4 0] ++ attach_response_fields 5 9 10 1 1 64 256 3);
   group_item payloadPools_block 3; Text (lit "shm:x")].

Example truncated_accepted :
  match encode truncated_response (repeat 0 2048) with
  | Some fragment =>
    match tp_driver_decode_attach_response fragment 7 demo_fresh true demo_info with
    | Decoded i => ai_code i = tensor_pool_responseCode_OK /\ ai_pools i = repeat demo_fresh 3
    | _ => False
    end
  | None => False
  end.
Proof. vm_compute. done. Qed.

Definition demo_stream : tp_driver_stream_state_t :=
  {| ds_stream_id := 10; ds_profile := Some {| pf_name := "p"; pf_header_nslots := 64;
       pf_pools := [(1, 4096); (2, 65536)] |};
     ds_epoch := 77; ds_epoch_created_ns := 0; ds_last_announce_ns := 0;
     ds_producer_lease_id := 8; ds_producer_client_id := 5; ds_require_hugepages := false |}.

Definition demo_lease : tp_driver_lease_t :=
  {| dl_lease_id := 8; dl_expiry_ns := 100; dl_issued_ns := 50; dl_stream_id := 10;
     dl_client_id := 5; dl_node_id := 3; dl_role := 1 |}.

Lemma attach_response_roundtrip_witness :
  exists fragment infos uri,
    tp_driver_decode_attach_response fragment (-4) demo_fresh true demo_info =
      Decoded (granted_info demo_stream demo_lease
        {| pf_name := "p"; pf_header_nslots := 64; pf_pools := [(1, 4096); (2, 65536)] |}
        demo_info infos uri) /\ length infos = 2%nat /\
    uri = lit "shm:file?path=/dev/shm/tensorpool-unknown/lab/10/77/header.ring|require_hugepages=false".
Proof.
  set (m := ShmAttachResponse (-4) 0 (Some (demo_lease, demo_stream)) false NULL).
  destruct (send_bytes (lit "/dev/shm") (lit "lab") NULL m (repeat 0 2048)) as [fragment|] eqn:E;
    [|vm_compute in E; discriminate E].
  exists fragment.
  destruct (attach_response_roundtrip (lit "/dev/shm") (lit "lab") NULL false
    (repeat 0 2048) fragment (-4) 0 (Some (demo_lease, demo_stream)) NULL demo_fresh demo_info)
    as [Hgrant _].
  - intros [i Hi]%list_elem_of_lookup. do 9 (destruct i as [|i]; [discriminate Hi|]). discriminate Hi.
  - split; [discriminate|reflexivity].
  - exact I.
  - left.
  - exact E.
  - destruct (Hgrant demo_lease demo_stream
      {| pf_name := "p"; pf_header_nslots := 64; pf_pools := [(1, 4096); (2, 65536)] |})
      as (infos & uri & Hd & Hseen & Hu & _);
      [reflexivity|reflexivity|split; [discriminate|reflexivity]|split; [discriminate|reflexivity]
      |constructor; split; (discriminate || reflexivity)|reflexivity
      |constructor; [split; reflexivity|split; [discriminate|repeat constructor; (discriminate || reflexivity)]]
      |].
    exists infos, uri. split; [exact Hd|]. split.
    + symmetry. exact (Forall2_length _ _ _ Hseen).
    + vm_compute in Hu. injection Hu as <-. reflexivity.
Defined.

Definition truncated_fragment : bytes := default [] (encode truncated_response (repeat 0 2048)).

Lemma accepted_attach_response_witness :
  exists out',
    tp_driver_decode_attach_response truncated_fragment 7 demo_fresh true demo_info = Decoded out' /\
    complete_info out' /\ ai_header_region_uri out' <> [].
Proof.
  destruct (tp_driver_decode_attach_response truncated_fragment 7 demo_fresh true demo_info) as [o| | |] eqn:E;
    try (vm_compute in E; discriminate E).
  exists o. assert (Hc : ai_code o = tensor_pool_responseCode_OK)
    by (vm_compute in E; injection E as <-; reflexivity).
  destruct (accepted_attach_response truncated_fragment 7 demo_fresh true demo_info o E Hc)
    as (H1 & H2 & _).
  split; [reflexivity|]. split; [exact H1|exact H2].
Defined.
