(* ===== verification/DriverClient.v ===== *)
(** * DriverClient: a client of the media driver (tp_driver_client.c)

    A client asks the driver for a lease, keeps it alive and gives it back.
    Requests and responses share the control stream with those of every other
    client, so a response is recognised by its correlation identifier.  This file
    models the asynchronous and the blocking attach, detach, keepalive, the event
    poller and the generation of identifiers.

    What a call takes from its surroundings is an argument: the clock readings,
    the result of offering a message, and the fragments a poll of the control
    subscription delivers, in order.  The codes Aeron's offer returns are a
    parameter [aeron].  While a client waits, the conductor's work runs; it is
    taken not to touch the request in progress. *)

From Stdlib Require Import ZArith Lia Bool Ascii String.
From stdpp Require Import strings.
From S2P Require Import Prelude Sbe Uri Message Driver DriverLease DriverMessages.

#[local] Open Scope Z_scope.
#[local] Open Scope list_scope.

(** ** Identifiers *)

(** [urandom] is what was read from the random device (0 for a failure), [mixed]
    the clock, process and address mixed together. *)
Definition tp_driver_seed_u64 (urandom mixed : Z) : Z :=
  let seed := Z.land (if urandom =? 0 then mixed else urandom) (2 ^ 63 - 1) in
  if seed =? 0 then 1 else seed.

(** One call on the process-wide counter: the identifier and the counter after it.
    [cas_ok] is the success of the weak compare-and-exchange on a counter of 0. *)
Definition tp_driver_next_correlation_id (seed : Z) (cas_ok : bool) (counter : Z) : Z * Z :=
  let counter := if (counter =? 0) && cas_ok then seed else counter in
  let current := counter in
  let counter := u64 (counter + 1) in
  if current =? 0 then (i64 counter, u64 (counter + 1)) else (i64 current, counter).

(** [fast_bits]: the width of [uint_fast32_t]; the identifier keeps 32 bits. *)
Definition tp_driver_next_client_id (fast_bits seed : Z) (cas_ok : bool) (counter : Z) : Z * Z :=
  let seed32 := u32 (Z.lxor seed (Z.shiftr seed 32)) in
  let seed32 := if seed32 =? 0 then 1 else seed32 in
  let counter := if (u32 counter =? 0) && (counter =? 0) && cas_ok then seed32 else counter in
  let current := u32 counter in
  let counter := (counter + 1) mod 2 ^ fast_bits in
  if current =? 0 then (u32 counter, (counter + 1) mod 2 ^ fast_bits) else (current, counter).

(** Successive calls; [answers] are the seed and the outcome of the exchange of each. *)
Fixpoint correlation_ids (answers : list (Z * bool)) (counter : Z) : list Z :=
  match answers with
  | [] => []
  | (seed, cas_ok) :: rest =>
    let '(id, counter) := tp_driver_next_correlation_id seed cas_ok counter in
    id :: correlation_ids rest counter
  end.

(** ** The client *)

Record tp_driver_client_t := {
  dc_publication : bool;             (* the pointers are not NULL *)
  dc_subscription : bool;
  dc_active_lease_id : Z;
  dc_lease_expiry_timestamp_ns : Z;
  dc_last_keepalive_ns : Z;
  dc_active_stream_id : Z;
  dc_client_id : Z;
  dc_role : Z;
}.

(** After [memset]; the subscription is the base client's control subscription. *)
Definition client_init : tp_driver_client_t :=
  {| dc_publication := true; dc_subscription := true; dc_active_lease_id := 0;
     dc_lease_expiry_timestamp_ns := 0; dc_last_keepalive_ns := 0; dc_active_stream_id := 0;
     dc_client_id := 0; dc_role := 0 |}.

Definition tp_driver_client_update_lease (info : tp_driver_attach_info_t) (client_id role : Z)
    (c : tp_driver_client_t) : tp_driver_client_t :=
  {| dc_publication := dc_publication c; dc_subscription := dc_subscription c;
     dc_active_lease_id := ai_lease_id info;
     dc_lease_expiry_timestamp_ns := ai_lease_expiry_timestamp_ns info;
     dc_last_keepalive_ns := dc_last_keepalive_ns c;
     dc_active_stream_id := ai_stream_id info; dc_client_id := client_id; dc_role := role |}.

(** [owner]: the keepalive interval and the grace intervals of the base client's
    context, NULL without a base client. *)
Definition tp_driver_client_record_keepalive (owner : ptr (Z * Z)) (now_ns : Z)
    (c : tp_driver_client_t) : tp_driver_client_t :=
  let expiry := dc_lease_expiry_timestamp_ns c in
  let interval_ns := match owner with Some (interval, _) => interval | NULL => 0 end in
  let grace_intervals := match owner with Some (_, grace) => grace | NULL => 0 end in
  let next_expiry := u64 (now_ns + u64 (interval_ns * grace_intervals)) in
  {| dc_publication := dc_publication c; dc_subscription := dc_subscription c;
     dc_active_lease_id := dc_active_lease_id c;
     dc_lease_expiry_timestamp_ns :=
       if negb (expiry =? TP_NULL_U64) && ((0 <? interval_ns) && (0 <? grace_intervals)) &&
          (expiry <? next_expiry)
       then next_expiry else expiry;
     dc_last_keepalive_ns := now_ns; dc_active_stream_id := dc_active_stream_id c;
     dc_client_id := dc_client_id c; dc_role := dc_role c |}.

Definition tp_driver_client_keepalive_due (c : tp_driver_client_t) (now_ns interval_ns : Z) : bool :=
  if (dc_active_lease_id c =? 0) || (interval_ns =? 0) then false
  else interval_ns <=? u64 (now_ns - dc_last_keepalive_ns c).

Definition tp_driver_client_lease_expired (c : tp_driver_client_t) (now_ns : Z) : bool :=
  if dc_active_lease_id c =? 0 then false
  else if dc_lease_expiry_timestamp_ns c =? TP_NULL_U64 then false
  else dc_lease_expiry_timestamp_ns c <=? now_ns.

(** ** Requests *)

Definition TP_PUBLISH_MODE_EXISTING_OR_CREATE : Z := 2.
Definition TP_HUGEPAGES_UNSPECIFIED : Z := 0.

Definition tp_driver_attach_request_init (stream_id role : Z) : tp_driver_attach_request_t :=
  {| at_correlation_id := 0; at_stream_id := stream_id; at_client_id := 0; at_role := role;
     at_expected_layout_version := TP_LAYOUT_VERSION;
     at_publish_mode := TP_PUBLISH_MODE_EXISTING_OR_CREATE;
     at_require_hugepages := TP_HUGEPAGES_UNSPECIFIED; at_desired_node_id := TP_NULL_U32 |}.

Definition with_ids (correlation_id client_id : Z) (r : tp_driver_attach_request_t)
    : tp_driver_attach_request_t :=
  {| at_correlation_id := correlation_id; at_stream_id := at_stream_id r;
     at_client_id := client_id; at_role := at_role r;
     at_expected_layout_version := at_expected_layout_version r;
     at_publish_mode := at_publish_mode r; at_require_hugepages := at_require_hugepages r;
     at_desired_node_id := at_desired_node_id r |}.

(** [correlation_id] and [client_id] are the next identifiers. *)
Definition tp_driver_normalize_attach_request (correlation_id client_id : Z)
    (r : tp_driver_attach_request_t) : tp_driver_attach_request_t :=
  with_ids (if at_correlation_id r =? 0 then correlation_id else at_correlation_id r)
           (if at_client_id r =? 0 then client_id else at_client_id r) r.

(** [strstr]: whether [needle] occurs in [s]. *)
Fixpoint strstr (s needle : chars) : bool :=
  strncmp_eq (length needle) s needle ||
  match s with [] => false | _ :: s' => strstr s' needle end.

(** The answers of Aeron's offer that an attach waits on. *)
Record aeron := {
  AERON_PUBLICATION_NOT_CONNECTED : Z;
  AERON_PUBLICATION_BACK_PRESSURED : Z;
  AERON_PUBLICATION_ADMIN_ACTION : Z;
}.

(** [(int)result] of a refused offer, 0 of an accepted one. *)
Definition offer_result (result : Z) : Z := if result <? 0 then i32 result else 0.

Definition retry_interval_ns : Z := 200 * 1000 * 1000.

(** The driver refused the client's identifier, which it had chosen itself. *)
Definition client_id_refused (auto_client_id : bool) (info : tp_driver_attach_info_t) : bool :=
  (ai_code info =? tensor_pool_responseCode_REJECTED) && auto_client_id &&
  strstr (ai_error_message info) (lit "client_id already attached").

(** ** The asynchronous attach *)

Record tp_async_attach_t := {
  aa_request : tp_driver_attach_request_t;
  aa_auto_client_id : bool;
  aa_sent : bool;
  aa_done : bool;
  aa_last_send_ns : Z;
  aa_assembler : bool;
  aa_response : tp_driver_attach_info_t;
}.

Definition no_info (code : Z) : tp_driver_attach_info_t :=
  {| ai_code := code; ai_error_message := []; ai_lease_id := 0; ai_lease_expiry_timestamp_ns := 0;
     ai_stream_id := 0; ai_epoch := 0; ai_layout_version := 0; ai_header_nslots := 0;
     ai_header_slot_bytes := 0; ai_node_id := 0; ai_header_region_uri := []; ai_pools := [];
     ai_pool_count := 0 |}.

Definition tp_driver_attach_async (correlation_id client_id : Z) (request : tp_driver_attach_request_t)
    : tp_async_attach_t :=
  {| aa_request := tp_driver_normalize_attach_request correlation_id client_id request;
     aa_auto_client_id := at_client_id request =? 0; aa_sent := false; aa_done := false;
     aa_last_send_ns := 0; aa_assembler := false;
     aa_response := no_info tensor_pool_responseCode_INTERNAL_ERROR |}.

Definition tp_driver_attach_async_simple (correlation_id client_id stream_id role : Z)
    : tp_async_attach_t :=
  tp_driver_attach_async correlation_id client_id (tp_driver_attach_request_init stream_id role).

Definition with_send (sent : bool) (last_send_ns : Z) (a : tp_async_attach_t) : tp_async_attach_t :=
  {| aa_request := aa_request a; aa_auto_client_id := aa_auto_client_id a; aa_sent := sent;
     aa_done := aa_done a; aa_last_send_ns := last_send_ns; aa_assembler := aa_assembler a;
     aa_response := aa_response a |}.

Definition with_assembler (assembler : bool) (a : tp_async_attach_t) : tp_async_attach_t :=
  {| aa_request := aa_request a; aa_auto_client_id := aa_auto_client_id a; aa_sent := aa_sent a;
     aa_done := aa_done a; aa_last_send_ns := aa_last_send_ns a; aa_assembler := assembler;
     aa_response := aa_response a |}.

Definition with_response (response : tp_driver_attach_info_t) (a : tp_async_attach_t)
    : tp_async_attach_t :=
  {| aa_request := aa_request a; aa_auto_client_id := aa_auto_client_id a; aa_sent := aa_sent a;
     aa_done := true; aa_last_send_ns := aa_last_send_ns a; aa_assembler := aa_assembler a;
     aa_response := response |}.

(** A delivered fragment and whether the allocation for its pools succeeds. *)
Abbreviation fragment := (bytes * bool)%type (only parsing).

(** What one call of the poll takes from outside: the clock readings before and at
    a send and after a refusal, the sender's stack buffer, the answer to an offer,
    whether an assembler can be created, the result of polling the subscription
    (a negative number or the fragments), and the next identifiers. *)
Record poll_env := {
  pe_check_ns : Z;
  pe_send_ns : Z;
  pe_retry_ns : Z;
  pe_buffer : bytes;
  pe_offer : bytes -> Z;
  pe_assembler : bool;
  pe_poll : Z + list fragment;
  pe_correlation_id : Z;
  pe_client_id : Z;
}.

(** What a call returns: 0, 1 with the response, or -1; [Undefined] when a decoder
    reads past the end of a fragment. *)
Inductive poll_result (A : Type) :=
  | Pending
  | Complete (info : A)
  | PollFailed
  | Undefined.

Arguments Pending {A}.
Arguments Complete {A} info.
Arguments PollFailed {A}.
Arguments Undefined {A}.

Section Attach.
Context `{Sbe} (codes : aeron) (fresh : tp_driver_pool_info_t).

Definition tp_driver_async_attach_handler (f : fragment) (a : tp_async_attach_t)
    : option tp_async_attach_t :=
  if aa_done a && (ai_code (aa_response a) =? tensor_pool_responseCode_OK) then Some a
  else
    match tp_driver_decode_attach_response (fst f) (at_correlation_id (aa_request a)) fresh (snd f)
            (aa_response a) with
    | Decoded info => Some (with_response info a)
    | OutOfBounds => None
    | NotThisMessage | Malformed => Some a
    end.

Fixpoint deliver (fs : list fragment) (a : tp_async_attach_t) : option tp_async_attach_t :=
  match fs with
  | [] => Some a
  | f :: fs' => tp_driver_async_attach_handler f a ≫= deliver fs'
  end.

(** [tp_driver_send_attach]: the fragment offered, if it fits the buffer of 256
    bytes, and the result. *)
Definition tp_driver_send_attach (e : poll_env) (r : tp_driver_attach_request_t)
    : option bytes * Z :=
  match encode (attach_request_items r) (pe_buffer e) with
  | Some b => (Some b, offer_result (pe_offer e b))
  | None => (None, -1)
  end.

Definition tp_driver_client_ready (c : tp_driver_client_t) (connected : bool) : Z :=
  if negb (dc_subscription c) || negb (dc_publication c) then -1
  else if connected then 1 else 0.

(** The part of the poll before the subscription: [inl] is an early return. *)
Definition attach_send (e : poll_env) (c : tp_driver_client_t) (a : tp_async_attach_t)
    : (poll_result tp_driver_attach_info_t * tp_async_attach_t + tp_async_attach_t) * option bytes :=
  if aa_sent a then (inr a, None)
  else if negb (aa_last_send_ns a =? 0) && (pe_check_ns e - aa_last_send_ns a <? retry_interval_ns)
  then (inl (Pending, a), None)
  else
    let '(offered, result) := tp_driver_send_attach e (aa_request a) in
    let a := with_send false (pe_send_ns e) a in
    if result <? 0 then
      (inl (if (result =? AERON_PUBLICATION_NOT_CONNECTED codes) ||
               (result =? AERON_PUBLICATION_BACK_PRESSURED codes) ||
               (result =? AERON_PUBLICATION_ADMIN_ACTION codes)
            then Pending else PollFailed, a), None)
    else if tp_driver_client_ready c true <? 0 then (inl (PollFailed, a), offered)
    else (inr (with_send true (pe_send_ns e) a), offered).

(** A fresh request after the refusal of an identifier the client chose itself. *)
Definition attach_again (e : poll_env) (a : tp_async_attach_t) : tp_async_attach_t :=
  {| aa_request := with_ids (pe_correlation_id e) (pe_client_id e) (aa_request a);
     aa_auto_client_id := aa_auto_client_id a; aa_sent := false; aa_done := false;
     aa_last_send_ns := pe_retry_ns e; aa_assembler := false;
     aa_response := with_code tensor_pool_responseCode_INTERNAL_ERROR
                      (ai_error_message (aa_response a)) (aa_response a) |}.

(** The part of the poll after the send. *)
Definition attach_receive (e : poll_env) (c : tp_driver_client_t) (a : tp_async_attach_t)
    : poll_result tp_driver_attach_info_t * tp_driver_client_t * tp_async_attach_t :=
  if negb (aa_assembler a) && negb (pe_assembler e) then (PollFailed, c, a)
  else
    let a := with_assembler true a in
    match pe_poll e with
    | inl _ => (PollFailed, c, a)
    | inr fragments =>
      match deliver fragments a with
      | None => (Undefined, c, a)
      | Some a =>
        if negb (aa_done a) then (Pending, c, a)
        else if client_id_refused (aa_auto_client_id a) (aa_response a)
        then (Pending, c, attach_again e a)
        else
          let out := aa_response a in
          let c := if ai_code out =? tensor_pool_responseCode_OK
                   then tp_driver_client_update_lease out (at_client_id (aa_request a))
                          (at_role (aa_request a)) c
                   else c in
          (Complete out, c, with_assembler false a)
      end
    end.

Definition tp_driver_attach_poll (e : poll_env) (c : tp_driver_client_t) (a : tp_async_attach_t)
    : poll_result tp_driver_attach_info_t * tp_driver_client_t * tp_async_attach_t * option bytes :=
  match attach_send e c a with
  | (inl (r, a), sent) => (r, c, a, sent)
  | (inr a, sent) => (attach_receive e c a, sent)
  end.
End Attach.

(** ** Keepalive and detach *)

Section Requests.
Context `{Sbe} (buffer : bytes) (offer : bytes -> Z).

Definition offer_items (items : list item) : option bytes * Z :=
  match encode items buffer with
  | Some b => (Some b, offer_result (offer b))
  | None => (None, -1)
  end.

(** The offered fragment is returned when the offer is accepted. *)
Definition tp_driver_keepalive (owner : ptr (Z * Z)) (timestamp_ns : Z) (c : tp_driver_client_t)
    : Z * tp_driver_client_t * option bytes :=
  let '(offered, result) := offer_items
    (keepalive_items (dc_active_lease_id c) (dc_active_stream_id c) (dc_client_id c) (dc_role c)
       timestamp_ns) in
  if result <? 0 then (result, c, None)
  else (0, tp_driver_client_record_keepalive owner timestamp_ns c, offered).

(** [next_id] is the next correlation identifier. *)
Definition tp_driver_detach (next_id correlation_id lease_id stream_id client_id role : Z)
    : Z * option bytes :=
  let correlation_id := if correlation_id =? 0 then next_id else correlation_id in
  let '(offered, result) := offer_items
    (detach_request_items correlation_id lease_id stream_id client_id role) in
  if result <? 0 then (result, None) else (0, offered).

Definition tp_driver_detach_active (id next_id : Z) (c : tp_driver_client_t) : Z * option bytes :=
  if (dc_active_lease_id c =? 0) || negb (dc_publication c) then (0, None)
  else tp_driver_detach next_id id (dc_active_lease_id c) (dc_active_stream_id c) (dc_client_id c)
         (dc_role c).
End Requests.

Record tp_async_detach_t := {
  ad_response : tp_driver_detach_info_t;
  ad_sent : bool;
  ad_done : bool;
  ad_assembler : bool;
}.

Definition tp_driver_detach_async (correlation_id : Z) : tp_async_detach_t :=
  {| ad_response := {| di_correlation_id := correlation_id; di_code := 0; di_error_message := [] |};
     ad_sent := false; ad_done := false; ad_assembler := false |}.

Section Detach.
Context `{Sbe}.

(** The handler does not look at the correlation identifier of the response. *)
Definition tp_driver_async_detach_handler (b : bytes) (a : tp_async_detach_t)
    : option tp_async_detach_t :=
  match tp_driver_decode_detach_response b (ad_response a) with
  | (OutOfBounds, _) => None
  | (Decoded _, info) =>
    Some {| ad_response := info; ad_sent := ad_sent a; ad_done := true; ad_assembler := ad_assembler a |}
  | (_, info) =>
    Some {| ad_response := info; ad_sent := ad_sent a; ad_done := ad_done a;
            ad_assembler := ad_assembler a |}
  end.

Fixpoint deliver_detach (fs : list bytes) (a : tp_async_detach_t) : option tp_async_detach_t :=
  match fs with
  | [] => Some a
  | b :: fs' => tp_driver_async_detach_handler b a ≫= deliver_detach fs'
  end.

Definition detach_with (sent assembler : bool) (a : tp_async_detach_t) : tp_async_detach_t :=
  {| ad_response := ad_response a; ad_sent := sent; ad_done := ad_done a; ad_assembler := assembler |}.

(** [poll]: a negative result or the fragments the subscription delivers. *)
Definition tp_driver_detach_poll (buffer : bytes) (offer : bytes -> Z) (next_id : Z)
    (assembler_ok : bool) (poll : Z + list bytes) (c : tp_driver_client_t) (a : tp_async_detach_t)
    : poll_result tp_driver_detach_info_t * tp_async_detach_t * option bytes :=
  let '(result, sent) :=
    if ad_sent a then (0, None)
    else tp_driver_detach buffer offer next_id (di_correlation_id (ad_response a))
           (dc_active_lease_id c) (dc_active_stream_id c) (dc_client_id c) (dc_role c) in
  if result <? 0 then (PollFailed, a, None)
  else if negb (ad_assembler a) && negb assembler_ok
  then (PollFailed, detach_with true (ad_assembler a) a, sent)
  else
    let a := detach_with true true a in
    match poll with
    | inl _ => (PollFailed, a, sent)
    | inr fragments =>
      match deliver_detach fragments a with
      | None => (Undefined, a, sent)
      | Some a =>
        if ad_done a then (Complete (ad_response a), detach_with (ad_sent a) false a, sent)
        else (Pending, a, sent)
      end
    end.
End Detach.

(** ** Leases in the client's duty cycle (tp_client.c) *)

Section DutyCycle.
Context `{Sbe} (keepalive_interval_ns lease_expiry_grace_intervals : Z).

Definition clear_lease (c : tp_driver_client_t) : tp_driver_client_t :=
  {| dc_publication := dc_publication c; dc_subscription := dc_subscription c;
     dc_active_lease_id := 0; dc_lease_expiry_timestamp_ns := dc_lease_expiry_timestamp_ns c;
     dc_last_keepalive_ns := dc_last_keepalive_ns c; dc_active_stream_id := dc_active_stream_id c;
     dc_client_id := dc_client_id c; dc_role := dc_role c |}.

(** The loop of [tp_client_do_work] over its driver clients, each with the answer
    to an offer on its publication: 0 or -1, the clients after it, and the
    keepalives sent.  The first expired lease or failed keepalive ends it. *)
Fixpoint service_leases (buffer : bytes) (now_ns : Z)
    (drivers : list (tp_driver_client_t * (bytes -> Z)))
    : Z * list tp_driver_client_t * list bytes :=
  match drivers with
  | [] => (0, [], [])
  | (c, offer) :: rest =>
    if tp_driver_client_lease_expired c now_ns then (-1, clear_lease c :: (fst <$> rest), [])
    else if tp_driver_client_keepalive_due c now_ns keepalive_interval_ns then
      let '(result, c, sent) := tp_driver_keepalive buffer offer
        (Some (keepalive_interval_ns, lease_expiry_grace_intervals)) now_ns c in
      if result <? 0 then (-1, c :: (fst <$> rest), [])
      else
        let '(work, cs, out) := service_leases buffer now_ns rest in
        (work, c :: cs, option_list sent ++ out)
    else
      let '(work, cs, out) := service_leases buffer now_ns rest in (work, c :: cs, out)
  end.
End DutyCycle.

(** ** The event poller *)

Inductive driver_event :=
  | OnDetachResponse (info : tp_driver_detach_info_t)
  | OnLeaseRevoked (event : tp_driver_lease_revoked_t)
  | OnShutdown (event : tp_driver_shutdown_t).

(** Which handlers are set. *)
Record tp_driver_event_handlers_t := {
  on_detach_response : bool;
  on_lease_revoked : bool;
  on_shutdown : bool;
}.

(** The handler called for a fragment, if any.
    The order of the attempts is that of the source. *)
Definition tp_driver_event_handler `{Sbe} (handlers : tp_driver_event_handlers_t) (b : bytes)
    : outcome (option driver_event) :=
  let shutdown :=
    if on_shutdown handlers then
      match tp_driver_decode_shutdown b with
      | Decoded e => Decoded (Some (OnShutdown e))
      | OutOfBounds => OutOfBounds
      | _ => Decoded None
      end
    else Decoded None in
  let revoked :=
    if on_lease_revoked handlers then
      match tp_driver_decode_lease_revoked b with
      | Decoded e => Decoded (Some (OnLeaseRevoked e))
      | OutOfBounds => OutOfBounds
      | _ => shutdown
      end
    else shutdown in
  if on_detach_response handlers then
    match tp_driver_decode_detach_response b
            {| di_correlation_id := 0; di_code := 0; di_error_message := [] |} with
    | (Decoded _, info) => Decoded (Some (OnDetachResponse info))
    | (OutOfBounds, _) => OutOfBounds
    | _ => revoked
    end
  else revoked.

(** ** The blocking attach *)

(** What one turn of the loop takes from outside. *)
Record attach_step := {
  sp_poll : Z + list fragment;
  sp_now_ns : Z;
  sp_restart_ns : Z;            (* the clock when a new request is sent *)
  sp_correlation_id : Z;        (* the next identifiers *)
  sp_client_id : Z;
}.

Record attach_state := {
  sy_request : tp_driver_attach_request_t;
  sy_out : tp_driver_attach_info_t;
  sy_done : bool;
  sy_last_send_ns : Z;
  sy_sent : list tp_driver_attach_request_t;   (* the requests offered so far *)
}.

Section Blocking.
Context `{Sbe} (fresh : tp_driver_pool_info_t).

Definition tp_driver_response_handler (f : fragment) (s : attach_state) : option attach_state :=
  let set out := {| sy_request := sy_request s; sy_out := out; sy_done := true;
                    sy_last_send_ns := sy_last_send_ns s; sy_sent := sy_sent s |} in
  if sy_done s && (ai_code (sy_out s) =? tensor_pool_responseCode_OK) then Some s
  else
    match tp_driver_decode_attach_response (fst f) (at_correlation_id (sy_request s)) fresh (snd f)
            (sy_out s) with
    | Decoded info => Some (set info)
    | Malformed => Some (set (sy_out s))
    | NotThisMessage => Some s
    | OutOfBounds => None
    end.

Fixpoint deliver_blocking (fs : list fragment) (s : attach_state) : option attach_state :=
  match fs with
  | [] => Some s
  | f :: fs' => tp_driver_response_handler f s ≫= deliver_blocking fs'
  end.

(** The start of the outer loop: the output is cleared and the request sent. *)
Definition attach_start (now_ns : Z) (r : tp_driver_attach_request_t)
    (sent : list tp_driver_attach_request_t) : attach_state :=
  {| sy_request := r; sy_out := no_info tensor_pool_responseCode_INTERNAL_ERROR; sy_done := false;
     sy_last_send_ns := now_ns; sy_sent := sent ++ [r] |}.

Definition resend (now_ns : Z) (s : attach_state) : attach_state :=
  if retry_interval_ns <=? now_ns - sy_last_send_ns s then
    {| sy_request := sy_request s; sy_out := sy_out s; sy_done := sy_done s;
       sy_last_send_ns := now_ns; sy_sent := sy_sent s ++ [sy_request s] |}
  else s.

(** Both loops: one step for each turn of the inner loop; [None] while they run. *)
Fixpoint attach_loop (auto_client_id : bool) (deadline : option Z) (steps : list attach_step)
    (s : attach_state) : option (poll_result tp_driver_attach_info_t * attach_state) :=
  match steps with
  | [] => None
  | p :: rest =>
    match sp_poll p with
    | inl _ => Some (PollFailed, s)
    | inr fragments =>
      match deliver_blocking fragments s with
      | None => Some (Undefined, s)
      | Some s =>
        if match deadline with Some t => t <? sp_now_ns p | None => false end
        then Some (PollFailed, s)
        else
          let s := resend (sp_now_ns p) s in
          if negb (sy_done s) then attach_loop auto_client_id deadline rest s
          else if client_id_refused auto_client_id (sy_out s)
          then attach_loop auto_client_id deadline rest
                 (attach_start (sp_restart_ns p)
                    (with_ids (sp_correlation_id p) (sp_client_id p) (sy_request s)) (sy_sent s))
          else Some (Complete (sy_out s), s)
      end
    end
  end.

(** [turns]: whether the publication is connected and the clock at each turn. *)
Fixpoint tp_driver_wait_connected (deadline : option Z) (turns : list (bool * Z))
    (c : tp_driver_client_t) : option bool :=
  match turns with
  | [] => None
  | (connected, now_ns) :: rest =>
    let ready := tp_driver_client_ready c connected in
    if ready <? 0 then Some false
    else if ready =? 0 then
      if match deadline with Some t => (0 <? t) && (t <? now_ns) | None => false end then Some false
      else tp_driver_wait_connected deadline rest c
    else Some true
  end.

(** [None] while the call has not returned after the given turns.  A deadline that
    overflows is undefined. *)
Definition tp_driver_attach (correlation_id client_id : Z) (request : tp_driver_attach_request_t)
    (timeout_ns now_ns start_ns : Z) (turns : list (bool * Z)) (steps : list attach_step)
    (c : tp_driver_client_t)
    : option (poll_result tp_driver_attach_info_t * tp_driver_client_t) :=
  let r := tp_driver_normalize_attach_request correlation_id client_id request in
  match (if 0 <? timeout_ns then Some <$> i64_checked (now_ns + timeout_ns) else Some None) with
  | None => Some (Undefined, c)
  | Some deadline =>
    match tp_driver_wait_connected deadline turns c with
    | None => None
    | Some false => Some (PollFailed, c)
    | Some true =>
      match attach_loop (at_client_id request =? 0) deadline steps (attach_start start_ns r []) with
      | None => None
      | Some (Complete info, s) =>
        Some (Complete info,
              if ai_code info =? tensor_pool_responseCode_OK
              then tp_driver_client_update_lease info (at_client_id (sy_request s))
                     (at_role (sy_request s)) c
              else c)
      | Some (r, _) => Some (r, c)
      end
    end
  end.
End Blocking.

(** ** Identifiers are fresh *)

Lemma correlation_ids_consecutive answers : forall counter,
  0 < counter -> counter + Z.of_nat (length answers) < 2 ^ 64 ->
  correlation_ids answers counter =
    (fun i => i64 (counter + Z.of_nat i)) <$> seq 0 (length answers).
Proof.
  induction answers as [|[seed ok] answers IH]; intros counter Hc Hn; [done|].
  cbn [correlation_ids length] in *. unfold tp_driver_next_correlation_id.
  destruct (Z.eqb_spec counter 0); [lia|]. cbn [andb]. destruct (Z.eqb_spec counter 0); [lia|].
  unfold u64. rewrite (Z.mod_small (counter + 1)) by lia. rewrite IH by lia.
  cbn [seq]. rewrite <- fmap_S_seq, fmap_cons, <- list_fmap_compose.
  f_equal; [f_equal; lia|]. apply list_fmap_ext. intros i x _. simpl. f_equal. lia.
Qed.

Lemma i64_inj x y : 0 <= x < 2 ^ 64 -> 0 <= y < 2 ^ 64 -> i64 x = i64 y -> x = y.
Proof. unfold i64. intros. Z.to_euclidean_division_equations. nia. Qed.

Lemma consecutive_distinct counter n :
  0 < counter -> counter + Z.of_nat n < 2 ^ 64 ->
  let ids := (fun i => i64 (counter + Z.of_nat i)) <$> seq 0 n in NoDup ids /\ 0 ∉ ids.
Proof.
  intros Hc Hn ids. split.
  - apply NoDup_fmap_2_strong; [|apply NoDup_seq].
    intros x y Hx%elem_of_seq Hy%elem_of_seq E%i64_inj; lia.
  - intros (i & E & Hi%elem_of_seq)%list_elem_of_fmap. change 0 with (i64 0) in E.
    apply i64_inj in E; lia.
Qed.

(** The identifiers a process hands out for its requests are never 0, which asks
    for a fresh one, and pairwise different for the first 2^63 calls, whatever the
    random source returns and whether or not the weak exchange that installs its
    seed fails spuriously. *)
Theorem correlation_ids_distinct answers :
  Forall (fun a => 0 < fst a < 2 ^ 63) answers -> Z.of_nat (length answers) < 2 ^ 63 ->
  NoDup (correlation_ids answers 0) /\ 0 ∉ correlation_ids answers 0.
Proof.
  intros Hs Hn. destruct answers as [|[seed ok] answers]; [split; [constructor|apply not_elem_of_nil]|].
  inversion_clear Hs as [|? ? Hseed _]. simpl in Hseed. cbn [length] in Hn.
  assert (E : exists base, 0 < base <= seed /\
    correlation_ids ((seed, ok) :: answers) 0 =
      (fun i => i64 (base + Z.of_nat i)) <$> seq 0 (S (length answers))).
  { cbn [correlation_ids]. unfold tp_driver_next_correlation_id. simpl (0 =? 0). cbn [andb].
    assert (Hmap : forall base, 0 < base -> base + Z.of_nat (S (length answers)) < 2 ^ 64 ->
      i64 base :: correlation_ids answers (u64 (base + 1)) =
      (fun i => i64 (base + Z.of_nat i)) <$> seq 0 (S (length answers))).
    { intros base Hb Hlt. unfold u64. rewrite Z.mod_small by lia.
      rewrite correlation_ids_consecutive by lia. cbn [seq].
      rewrite <- fmap_S_seq, fmap_cons, <- list_fmap_compose.
      f_equal; [f_equal; lia|]. apply list_fmap_ext. intros i x _. simpl. f_equal. lia. }
    destruct ok.
    - exists seed. split; [lia|]. destruct (Z.eqb_spec seed 0); [lia|]. apply Hmap; lia.
    - exists 1. split; [lia|]. simpl (0 =? 0). apply (Hmap 1); lia. }
  destruct E as (base & Hb & ->). apply consecutive_distinct; lia.
Qed.

Lemma correlation_ids_distinct_witness :
  NoDup (correlation_ids [(5, false); (9, true); (9, true)] 0) /\
  0 ∉ correlation_ids [(5, false); (9, true); (9, true)] 0.
Proof.
  apply (correlation_ids_distinct [(5, false); (9, true); (9, true)]);
    [repeat constructor; simpl; lia|simpl; lia].
Defined.

(** ** Keeping a lease *)

Lemma offer_accepted r : 0 <= r -> offer_result r = 0.
Proof. intros Hr. unfold offer_result. by destruct (Z.ltb_spec r 0); [lia|]. Qed.

Section Keepalive.
Context `{Sbe}.

Record client_ok (c : tp_driver_client_t) : Prop := {
  ck_lease : is_u64 (dc_active_lease_id c);
  ck_stream : is_u32 (dc_active_stream_id c);
  ck_client : is_u32 (dc_client_id c);
  ck_role : is_u8 (dc_role c);
}.

Lemma keepalive_sent buffer offer owner t c :
  33 <= blen buffer -> (forall b, 0 <= offer b) ->
  exists fragment,
    encode (keepalive_items (dc_active_lease_id c) (dc_active_stream_id c) (dc_client_id c)
              (dc_role c) t) buffer = Some fragment /\
    tp_driver_keepalive buffer offer owner t c =
      (0, tp_driver_client_record_keepalive owner t c, Some fragment).
Proof.
  intros Hlen Hoffer. unfold tp_driver_keepalive, offer_items, encode.
  change (items_size (keepalive_items _ _ _ _ _)) with 33.
  destruct (Z.ltb_spec (blen buffer) 33); [lia|]. eexists. split; [reflexivity|].
  by rewrite offer_accepted by apply Hoffer.
Qed.

(** Calls of the duty cycle at the given times, every offer accepted. *)
Fixpoint duty (interval grace : Z) (buffer : bytes) (offer : bytes -> Z) (times : list Z)
    (c : tp_driver_client_t) : list Z * tp_driver_client_t :=
  match times with
  | [] => ([], c)
  | t :: times' =>
    match service_leases interval grace buffer t [(c, offer)] with
    | (result, [c'], _) =>
      let '(results, c'') := duty interval grace buffer offer times' c' in (result :: results, c'')
    | (result, _, _) => ([result], c)
    end
  end.

(** Times in order, at most [gap] apart, the first of them at most [gap] after [t]. *)
Fixpoint paced (gap t : Z) (times : list Z) : Prop :=
  match times with
  | [] => True
  | t' :: times' => t <= t' <= t + gap /\ paced gap t' times'
  end.

(** The lease outlives the next call, whether or not it is renewed before.  A lease
    just granted for [interval * grace] is such, with no keepalive sent yet. *)
Record lively (interval grace t : Z) (c : tp_driver_client_t) : Prop := {
  lv_active : dc_active_lease_id c <> 0;
  lv_last : 0 <= dc_last_keepalive_ns c <= t;
  lv_next : t + (grace - 1) * interval < dc_lease_expiry_timestamp_ns c;
  lv_expiry : dc_last_keepalive_ns c + interval * grace <= dc_lease_expiry_timestamp_ns c;
}.

Lemma service_one interval grace buffer offer t t' c :
  33 <= blen buffer -> (forall b, 0 <= offer b) -> 0 < interval -> 0 < grace ->
  t' + interval * grace < TP_NULL_U64 ->
  lively interval grace t c -> t <= t' <= t + (grace - 1) * interval ->
  exists c' sent, service_leases interval grace buffer t' [(c, offer)] = (0, [c'], sent) /\
    lively interval grace t' c' /\ dc_active_lease_id c' = dc_active_lease_id c.
Proof.
  intros Hlen Hoffer Hi Hg Hmax [Ha Hl Hd He] Ht. unfold TP_NULL_U64 in Hmax.
  assert (Hext : 0 <= interval * grace) by nia.
  cbn [service_leases]. unfold tp_driver_client_lease_expired, tp_driver_client_keepalive_due.
  destruct (Z.eqb_spec (dc_active_lease_id c) 0); [done|]. cbn [orb].
  destruct (Z.eqb_spec interval 0); [lia|].
  assert (Hexp : (if dc_lease_expiry_timestamp_ns c =? TP_NULL_U64 then false
                  else dc_lease_expiry_timestamp_ns c <=? t') = false).
  { destruct (_ =? _); [done|]. apply Z.leb_gt. nia. }
  rewrite Hexp. unfold u64. rewrite Z.mod_small by lia.
  destruct (Z.leb_spec interval (t' - dc_last_keepalive_ns c)) as [Hdue|Hnot].
  2:{ eexists _, _. split; [reflexivity|]. split; [constructor; (done || nia)|done]. }
  destruct (keepalive_sent buffer offer (Some (interval, grace)) t' c Hlen Hoffer) as (f & _ & E).
  rewrite E. cbn [Z.ltb Z.compare]. eexists _, _. split; [reflexivity|].
  split; [|done]. constructor; cbn [tp_driver_client_record_keepalive dc_active_lease_id
    dc_last_keepalive_ns dc_lease_expiry_timestamp_ns]; [done|lia| |].
  all: destruct (Z.ltb_spec 0 interval); [|lia]; destruct (Z.ltb_spec 0 grace); [|lia];
    unfold u64; rewrite (Z.mod_small (interval * grace)), (Z.mod_small (t' + _)) by lia;
    destruct (Z.eqb_spec (dc_lease_expiry_timestamp_ns c) TP_NULL_U64) as [En|]; cbn [negb andb];
    [unfold TP_NULL_U64 in En; nia|].
  all: destruct (Z.ltb_spec (dc_lease_expiry_timestamp_ns c) (t' + interval * grace)); nia.
Qed.
End Keepalive.

(** C40: A client whose duty cycle runs at least every [grace - 1] keepalive intervals,
    and whose keepalives are accepted by the transport, never finds its lease expired
    and never gives it up. *)
Theorem lease_kept_alive `{Sbe} interval grace buffer offer times : forall t c,
  33 <= blen buffer -> (forall b, 0 <= offer b) -> 0 < interval -> 0 < grace ->
  lively interval grace t c -> paced ((grace - 1) * interval) t times ->
  Forall (fun t' => t' + interval * grace < TP_NULL_U64) times ->
  let '(results, c') := duty interval grace buffer offer times c in
  Forall (fun r => r = 0) results /\ length results = length times /\
  dc_active_lease_id c' = dc_active_lease_id c.
Proof.
  induction times as [|t' times IH]; intros t c Hlen Hoffer Hi Hg Hc Hp Hmax; [done|].
  destruct Hp as [Ht Hp]. inversion_clear Hmax as [|? ? Hm Hmax']. cbn [duty].
  destruct (service_one interval grace buffer offer t t' c Hlen Hoffer Hi Hg Hm Hc Ht)
    as (c1 & sent & -> & Hc1 & Ea).
  specialize (IH t' c1 Hlen Hoffer Hi Hg Hc1 Hp Hmax').
  destruct (duty _ _ _ _ times c1) as [results c2]. destruct IH as (Hr & Hn & Ea2).
  split_and!; [by constructor|simpl; lia|congruence].
Qed.

(** A client that attached at 100 with a lease of three intervals of 10. *)
Definition demo_client : tp_driver_client_t :=
  {| dc_publication := true; dc_subscription := true; dc_active_lease_id := 8;
     dc_lease_expiry_timestamp_ns := 130; dc_last_keepalive_ns := 0; dc_active_stream_id := 10;
     dc_client_id := 5; dc_role := 1 |}.

Lemma lease_kept_alive_witness :
  let '(results, c') := duty 10 3 (repeat 0 128) (fun _ => 0) [100; 120; 121; 140] demo_client in
  Forall (fun r => r = 0) results /\ length results = 4%nat /\ dc_active_lease_id c' = 8.
Proof.
  apply (lease_kept_alive 10 3 (repeat 0 128) (fun _ => 0) [100; 120; 121; 140] 100 demo_client);
    [done|done|lia|lia|constructor; simpl; lia|simpl; lia|repeat constructor].
Defined.

(** One interval more between two calls and the lease is gone. *)
Example lease_lost : fst (duty 10 3 (repeat 0 128) (fun _ => 0) [100; 130] demo_client) = [0; -1].
Proof. vm_compute. reflexivity. Qed.

(** C39: A keepalive renews the lease on both sides, when the client goes by the
    keepalive interval and grace intervals of the driver's configuration: the bytes a
    client sends at its time [t] reach the handler, which extends exactly this lease
    to the full term from its own clock; and if the client did not overestimate the
    lease before, and stamped the keepalive no later than the driver's clock, it does
    not overestimate it now, since it extends its own view only by the term from [t].
    The two configurations are separate: with a longer interval on the client's side
    it takes the lease to last longer ([overestimated_lease]). *)
Theorem keepalive_renews_lease `{Sbe} w config interval grace buffer offer t c d i l fragment c' :
  client_ok c -> is_u64 t -> dc_role c ∈ role_values ->
  tp_driver_find_lease (dc_active_lease_id c) d = Some i -> dv_leases d !! i = Some l ->
  lease_matches (dc_active_stream_id c) (dc_client_id c) (dc_role c) l = true ->
  tp_driver_keepalive buffer offer (Some (interval, grace)) t c = (0, c', Some fragment) ->
  u64 (cf_lease_keepalive_interval_ms config * 1000000) = interval ->
  cf_lease_expiry_grace_intervals config = grace ->
  0 <= interval * grace -> t <= w_clock w (dv_tick d) ->
  w_clock w (dv_tick d) + interval * grace < 2 ^ 64 ->
  dc_lease_expiry_timestamp_ns c <= dl_expiry_ns l ->
  dl_expiry_ns l <= w_clock w (dv_tick d) + interval * grace ->
  exists handler l',
    tp_driver_on_control_fragment w config fragment = Some handler /\
    dv_leases (snd (handler d)) = <[i := l']> (dv_leases d) /\
    dl_lease_id l' = dl_lease_id l /\
    dl_expiry_ns l' = w_clock w (dv_tick d) + interval * grace /\
    dc_lease_expiry_timestamp_ns c' <= dl_expiry_ns l'.
Proof.
  intros [Hl Hs Hcl Hr] Ht Hrole Hfind Hli Hm Hk Hi Hg Hext Htime Hmax Hcov Hold.
  unfold tp_driver_keepalive, offer_items in Hk.
  destruct (encode _ buffer) as [b|] eqn:Ee; [|by simpl in Hk].
  destruct (offer_result (offer b) <? 0); [done|].
  injection Hk as <- <-.
  assert (Hh : holds b 0 (keepalive_items (dc_active_lease_id c) (dc_active_stream_id c)
    (dc_client_id c) (dc_role c) t))
    by (eapply encode_holds; [unfold keepalive_items, driver_header; items_ok_tac|exact Ee]).
  rewrite (control_fragment_dispatch w config b _ _ _ Hh) by done.
  rewrite (keepalive_read _ _ _ _ _ _ Hh).
  exists (tp_driver_handle_keepalive w config (keepalive_of (dc_active_lease_id c)
    (dc_active_stream_id c) (dc_client_id c) (dc_role c))),
    (with_expiry (lease_expiry config (w_clock w (dv_tick d))) l).
  assert (Ex : lease_expiry config (w_clock w (dv_tick d)) = w_clock w (dv_tick d) + interval * grace).
  { unfold lease_expiry. rewrite Hi, Hg. unfold u64, is_u64 in *.
    rewrite (Z.mod_small (interval * grace)), Z.mod_small; lia. }
  split; [done|]. rewrite Ex. split_and!; [|done|done|].
  - unfold tp_driver_handle_keepalive, keepalive_of, bind, gets.
    cbn [ka_lease_id ka_role ka_stream_id ka_client_id]. rewrite (sbe_enum_valid _ _ _ Hrole), Hfind.
    simpl. rewrite Hli. simpl. rewrite Hm. simpl. by rewrite Ex.
  - cbn [tp_driver_client_record_keepalive dc_lease_expiry_timestamp_ns with_expiry dl_expiry_ns].
    unfold is_u64 in Ht. destruct (_ && _ && _); [|lia].
    unfold u64. rewrite (Z.mod_small (interval * grace)) by lia.
    pose proof (Z.mod_le (t + interval * grace) (2 ^ 64)). lia.
Qed.

(** ** Attaching *)

Section AttachProofs.
Context `{Sbe} (codes : aeron) (fresh : tp_driver_pool_info_t).

(** A transport that takes what is offered, and an assembler. *)
Record env_ok (e : poll_env) : Prop := {
  ev_buffer : 35 <= blen (pe_buffer e);
  ev_offer : forall b, 0 <= pe_offer e b;
  ev_assembler : pe_assembler e = true;
}.

(** A poll that may send: the request goes out. *)
Lemma attach_sends e c a :
  env_ok e -> dc_publication c = true -> dc_subscription c = true -> aa_sent a = false ->
  aa_last_send_ns a = 0 \/ retry_interval_ns <= pe_check_ns e - aa_last_send_ns a ->
  exists b, encode (attach_request_items (aa_request a)) (pe_buffer e) = Some b /\
    attach_send codes e c a = (inr (with_send true (pe_send_ns e) a), Some b).
Proof.
  intros [Hb Ho Ha] Hp Hs Hsent Hwait. unfold attach_send. rewrite Hsent.
  assert (Hw : negb (aa_last_send_ns a =? 0) &&
    (pe_check_ns e - aa_last_send_ns a <? retry_interval_ns) = false).
  { destruct Hwait as [-> | Hw]; [done|]. apply andb_false_iff. right. by apply Z.ltb_ge. }
  rewrite Hw. unfold tp_driver_send_attach, encode.
  change (items_size (attach_request_items _)) with 35.
  destruct (Z.ltb_spec (blen (pe_buffer e)) 35); [lia|].
  rewrite offer_accepted by apply Ho. cbn [Z.ltb Z.compare].
  unfold tp_driver_client_ready. rewrite Hp, Hs. cbn. eexists. split; reflexivity.
Qed.

(** A fragment with another correlation identifier changes nothing. *)
Lemma handler_ignores f a :
  tp_driver_decode_attach_response (fst f) (at_correlation_id (aa_request a)) fresh (snd f)
    (aa_response a) = NotThisMessage ->
  tp_driver_async_attach_handler fresh f a = Some a.
Proof. intros E. unfold tp_driver_async_attach_handler. rewrite E. by destruct (_ && _). Qed.

(** The first answer to a pending request. *)
Lemma handler_takes b ok a info :
  aa_done a = false ->
  tp_driver_decode_attach_response b (at_correlation_id (aa_request a)) fresh ok (aa_response a) =
    Decoded info ->
  tp_driver_async_attach_handler fresh (b, ok) a = Some (with_response info a).
Proof. intros Hd E. unfold tp_driver_async_attach_handler. cbn [fst snd]. by rewrite Hd, E. Qed.

(** A pending request that gets one answer. *)
Lemma receive_answer e c a b ok info :
  pe_assembler e = true -> aa_done a = false -> pe_poll e = inr [(b, ok)] ->
  tp_driver_decode_attach_response b (at_correlation_id (aa_request a)) fresh ok (aa_response a) =
    Decoded info ->
  attach_receive fresh e c a =
    if client_id_refused (aa_auto_client_id a) info
    then (Pending, c, attach_again e (with_response info (with_assembler true a)))
    else (Complete info,
          (if ai_code info =? tensor_pool_responseCode_OK
           then tp_driver_client_update_lease info (at_client_id (aa_request a))
                  (at_role (aa_request a)) c
           else c),
          with_assembler false (with_response info (with_assembler true a))).
Proof.
  intros Ha Hd Hp E. unfold attach_receive. rewrite Ha, Hp, andb_false_r. cbn [deliver mbind option_bind].
  rewrite (handler_takes b ok (with_assembler true a) info) by done. simpl.
  by destruct (client_id_refused _ _).
Qed.

(** A poll that delivers nothing. *)
Lemma receive_nothing e c a :
  pe_assembler e = true -> aa_done a = false -> pe_poll e = inr [] ->
  attach_receive fresh e c a = (Pending, c, with_assembler true a).
Proof.
  intros Ha Hd Hp. unfold attach_receive. rewrite Ha, Hp, andb_false_r. simpl. by rewrite Hd.
Qed.

End AttachProofs.

(** *** The driver's answers *)

Section Answers.
Context `{Sbe} (codes : aeron) (fresh : tp_driver_pool_info_t).
Context (base ns : chars) (pw : ptr chars).

Lemma refusal_code_values code :
  refusal_code code = true -> code ∈ responseCode_values /\ code <> tensor_pool_responseCode_OK.
Proof.
  unfold refusal_code. rewrite !orb_true_iff, !Z.eqb_eq. intros Hc.
  destruct Hc as [[-> | ->] | ->]; (split; [unfold responseCode_values; set_solver|done]).
Qed.

(** A text that was sent from a buffer below 4 GiB has a 32-bit length. *)
Lemma refusal_text_fits c code h text b answer :
  blen b < 2 ^ 32 -> refusal_code code = true ->
  send_bytes base ns pw (ShmAttachResponse c code None h text) b = Some answer -> text_fits text.
Proof.
  intros Hb Hc. unfold send_bytes. cbn [msg_items]. unfold attach_response_items.
  destruct (code =? tensor_pool_responseCode_OK); cbn [encode];
    unfold encode; (destruct (Z.ltb_spec (blen b) (items_size [driver_header
      shmAttachResponse_block shmAttachResponse_template; Block shmAttachResponse_block
      ([Write 0 8 (u64 c); Write 8 4 (u32 code)] ++ attach_response_fields TP_NULL_U64 TP_NULL_U64
        TP_NULL_U32 TP_NULL_U64 TP_NULL_U32 TP_NULL_U32 uint16_null TP_NULL_U32);
      group_item payloadPools_block 0; Text []; error_item text])) as [|Hle]; [done|]);
    intros _; destruct text as [s|]; [|done| |done];
    cbn in Hle; rewrite length_fmap in Hle; unfold text_fits; unfold shmAttachResponse_block in Hle; lia.
Qed.

(** A pending request whose driver refuses it. *)
Lemma poll_refused e c a code h text b answer ok :
  pe_assembler e = true -> aa_sent a = true -> aa_done a = false ->
  is_i64 (at_correlation_id (aa_request a)) -> refusal_code code = true -> blen b < 2 ^ 32 ->
  send_bytes base ns pw
    (ShmAttachResponse (at_correlation_id (aa_request a)) code None h text) b = Some answer ->
  pe_poll e = inr [(answer, ok)] ->
  let info := with_code code (received_text text) (aa_response a) in
  tp_driver_attach_poll codes fresh e c a =
    ((if client_id_refused (aa_auto_client_id a) info
      then (Pending, c, attach_again e (with_response info (with_assembler true a)))
      else (Complete info, c, with_assembler false (with_response info (with_assembler true a)))),
     None).
Proof.
  intros Ha Hsent Hd Hc Hcode Hb Hs Hp info.
  pose proof (refusal_text_fits _ _ _ _ _ _ Hb Hcode Hs) as Ht.
  pose proof (refusal_code_values _ Hcode) as [Hv Hn].
  destruct (refusal_read b answer base ns pw _ code h text fresh ok (aa_response a) Hc Hv Hn Ht Hs)
    as [E _].
  unfold tp_driver_attach_poll, attach_send. rewrite Hsent.
  rewrite (receive_answer fresh e c a answer ok info Ha Hd Hp E).
  change (ai_code info) with code.
  destruct (Z.eqb_spec code tensor_pool_responseCode_OK); [done|].
  by destruct (client_id_refused _ _).
Qed.


End Answers.




(** When the driver refuses an identifier because a client already holds it, a
    client that chose the identifier itself does not fail: it takes new identifiers,
    sends nothing for 200 ms, and then sends the same request under them. *)
Theorem refused_identifier_retried `{Sbe} w config codes fresh base ns pw e2 e3 c a d :
  attach_request_ok (aa_request a) -> at_role (aa_request a) ∈ role_values ->
  at_client_id (aa_request a) <> 0 ->
  tp_driver_client_id_in_use (at_client_id (aa_request a)) d = true ->
  aa_auto_client_id a = true -> aa_sent a = true -> aa_done a = false ->
  dc_publication c = true -> dc_subscription c = true ->
  let d' := snd (tp_driver_handle_attach w config (attach_request_of (aa_request a)) d) in
  exists answer, dv_leases d' = dv_leases d /\ last (dv_out d') = Some answer /\
    forall b bytes, blen b < 2 ^ 32 -> send_bytes base ns pw answer b = Some bytes ->
      pe_assembler e2 = true -> pe_poll e2 = inr [(bytes, true)] ->
      exists a2, tp_driver_attach_poll codes fresh e2 c a = (Pending, c, a2, None) /\
        aa_request a2 = with_ids (pe_correlation_id e2) (pe_client_id e2) (aa_request a) /\
        (pe_retry_ns e2 <> 0 -> pe_check_ns e3 - pe_retry_ns e2 < retry_interval_ns ->
         tp_driver_attach_poll codes fresh e3 c a2 = (Pending, c, a2, None)) /\
        (env_ok e3 -> pe_poll e3 = inr [] ->
         retry_interval_ns <= pe_check_ns e3 - pe_retry_ns e2 ->
         exists sent a3, encode (attach_request_items (aa_request a2)) (pe_buffer e3) = Some sent /\
           tp_driver_attach_poll codes fresh e3 c a2 = (Pending, c, a3, Some sent) /\
           aa_request a3 = aa_request a2 /\ aa_sent a3 = true).
Proof.
  intros Hr Hrole Hc0 Hused Hauto Hsent Hdone Hpub Hsub d'.
  unfold d', tp_driver_handle_attach, attach_request_of. cbn [ar_role ar_client_id].
  rewrite (sbe_enum_valid _ _ _ Hrole). destruct (Z.eqb_spec (at_client_id (aa_request a)) 0); [done|].
  rewrite bind_gets, Hused. cbn [ar_correlation_id].
  unfold tp_driver_send_attach_response. eexists. split; [done|]. split; [apply send_last|].
  intros b bytes Hb Hs Ha Hp.
  pose proof (poll_refused codes fresh base ns pw e2 c a tensor_pool_responseCode_REJECTED _ _ b bytes
    true Ha Hsent Hdone (ok_correlation _ Hr) eq_refl Hb Hs Hp) as E.
  assert (Eid : client_id_refused (aa_auto_client_id a) (with_code tensor_pool_responseCode_REJECTED
    (received_text (Some "client_id already attached"%string)) (aa_response a)) = true).
  { unfold client_id_refused. by rewrite Hauto. }
  cbv zeta in E. rewrite Eid in E. eexists. split; [exact E|]. split; [done|]. split.
  - intros Hnz Hsoon. unfold tp_driver_attach_poll, attach_send. cbn [attach_again aa_sent aa_last_send_ns].
    destruct (Z.eqb_spec (pe_retry_ns e2) 0); [done|]. cbn [negb andb].
    by destruct (Z.ltb_spec (pe_check_ns e3 - pe_retry_ns e2) retry_interval_ns); [|lia].
  - intros He3 Hp3 Hlate. set (a2 := attach_again _ _).
    destruct (attach_sends codes e3 c a2 He3 Hpub Hsub eq_refl (or_intror Hlate)) as (sent & Hb3 & E3).
    exists sent. eexists. split; [exact Hb3|]. unfold tp_driver_attach_poll. rewrite E3.
    rewrite (receive_nothing fresh e3 c (with_send true (pe_send_ns e3) a2) (ev_assembler _ He3)
      eq_refl Hp3). by split.
Qed.

(** *** Whose answer a client takes *)

Section Own.
Context `{Sbe} (codes : aeron) (fresh : tp_driver_pool_info_t).

(** The fragments a poll hands to the handler. *)
Definition consumed (e : poll_env) (c : tp_driver_client_t) (a : tp_async_attach_t) : list bytes :=
  match attach_send codes e c a, pe_poll e with
  | (inr _, _), inr fragments => fst <$> fragments
  | _, _ => []
  end.

(** A request from its creation on, with the fragments consumed and sent for it. *)
Inductive attach_run : tp_driver_client_t -> tp_async_attach_t -> list bytes -> list bytes -> Prop :=
  | run_start corr cl request c : attach_run c (tp_driver_attach_async corr cl request) [] []
  | run_poll e c a got sent r c' a' out :
    attach_run c a got sent -> tp_driver_attach_poll codes fresh e c a = (r, c', a', out) ->
    attach_run c' a' (got ++ consumed e c a) (sent ++ option_list out).

(** The bytes of an attach response to the request with a correlation identifier, and
    the fields of a granted one. *)
Record response_to (correlation_id : Z) (b : bytes) : Prop := {
  rs_schema : messageHeader_schemaId b = driver_schema_id;
  rs_template : messageHeader_templateId b = shmAttachResponse_template;
  rs_block : messageHeader_blockLength b = shmAttachResponse_block;
  rs_room : 8 + shmAttachResponse_block <= blen b;
  rs_correlation : i64 (sbe_get 8 b (8 + 0)) = correlation_id;
}.

Record grants (b : bytes) (lease expiry stream : Z) : Prop := {
  gs_code : i32 (sbe_get 4 b (8 + 8)) = tensor_pool_responseCode_OK;
  gs_lease : lease = sbe_get 8 b (8 + 12) /\ lease <> TP_NULL_U64;
  gs_expiry : expiry = sbe_get 8 b (8 + 20);
  gs_stream : stream = sbe_get 4 b (8 + 28) /\ stream <> TP_NULL_U32;
}.

Definition answered (a : tp_async_attach_t) (info : tp_driver_attach_info_t) (got : list bytes)
    : Prop :=
  exists b, b ∈ got /\ response_to (at_correlation_id (aa_request a)) b /\
    (ai_code info = tensor_pool_responseCode_OK ->
     grants b (ai_lease_id info) (ai_lease_expiry_timestamp_ns info) (ai_stream_id info)).

Lemma header_response b corr :
  driver_header_check b shmAttachResponse_template shmAttachResponse_block = Decoded tt ->
  i64 (sbe_get 8 b (8 + 0)) = corr -> response_to corr b.
Proof.
  unfold driver_header_check. intros Hh Hc. destruct (blen b <? _); [done|]. cbn [negb] in Hh.
  destruct (Z.eqb_spec (messageHeader_schemaId b) driver_schema_id); [|done].
  destruct (Z.eqb_spec (messageHeader_templateId b) shmAttachResponse_template); [|done].
  cbn [negb orb] in Hh. destruct (_ <? _); [done|]. cbn [negb] in Hh.
  destruct (Z.eqb_spec (messageHeader_blockLength b) shmAttachResponse_block); [|done].
  destruct (Z.ltb_spec (blen b) (messageHeader_encoded_length + shmAttachResponse_block)); [done|].
  by constructor.
Qed.

Lemma granted_code b ok out info :
  decode_granted b fresh ok out = Decoded info -> ai_code info = tensor_pool_responseCode_OK ->
  missing_fields (granted_fields b out) = false /\
  ai_lease_id info = sbe_get 8 b (8 + 12) /\
  ai_lease_expiry_timestamp_ns info = sbe_get 8 b (8 + 20) /\
  ai_stream_id info = sbe_get 4 b (8 + 28).
Proof.
  unfold decode_granted. destruct (missing_fields _); [by intros [= <-]|].
  destruct (negb (ai_header_slot_bytes _ =? _)); [by intros [= <-]|].
  destruct (ai_header_nslots _ =? 0); [by intros [= <-]|].
  destruct (sbe_group_wrap _ _ _) as [[block count]|]; [|done].
  destruct (count =? 0); [by intros [= <-]|]. destruct (negb ok); [by intros [= <-]|].
  destruct (decode_pools _ _ _ _ _) as [[ps e]| | |]; [|done..]. cbn [outcome_bind fst snd].
  destruct e as [pos|text]; [|by intros [= <-]]. unfold decode_header_uri.
  destruct (get_text b pos) as [[[s|] p]| | |]; [|by intros [= <-]|done..].
  cbn [outcome_bind fst]. case_bool_decide; [by intros [= <-]|]. intros [= <-] _.
  cbn. by rewrite same_or.
Qed.

Lemma decoded_answer b corr ok out info :
  tp_driver_decode_attach_response b corr fresh ok out = Decoded info ->
  response_to corr b /\
  (ai_code info = tensor_pool_responseCode_OK ->
   grants b (ai_lease_id info) (ai_lease_expiry_timestamp_ns info) (ai_stream_id info)).
Proof.
  unfold tp_driver_decode_attach_response.
  destruct (driver_header_check _ _ _) as [[]| | |] eqn:Eh; [|done..]. cbn [outcome_bind].
  destruct (Z.eqb_spec (i64 (sbe_get 8 b (8 + 0))) corr) as [Ec|]; cbn [negb]; [|done].
  destruct (sbe_enum _ _ _) as [code|] eqn:Ee; [|done]. cbn [require outcome_bind].
  intros Hd. split; [by apply header_response|]. intros Hok.
  destruct (Z.eqb_spec code tensor_pool_responseCode_OK) as [->|Hn].
  - destruct (granted_code _ _ _ _ Hd Hok) as (Hm & El & Ex & Es).
    unfold missing_fields in Hm. rewrite !orb_false_iff, !Z.eqb_neq in Hm. cbn in Hm.
    destruct Hm as [[[[[Hl Hs] _] _] _] _]. constructor; [|by rewrite El|done|by rewrite Es].
    by destruct (sbe_enum_sound _ _ _ _ Ee) as [<- _].
  - exfalso. apply Hn. rewrite <- Hok. revert Hd. unfold decode_refusal.
    destruct (sbe_group_wrap _ _ _) as [[block count]|]; [|done].
    destruct (get_text _ _) as [[u p]| | |]; [|done..]. cbn [outcome_bind snd].
    destruct (get_error_message _ _ _); [|done..]. by intros [= <-].
Qed.

Definition requested (a : tp_async_attach_t) (sent : list bytes) : Prop :=
  exists b buffer, b ∈ sent /\ encode (attach_request_items (aa_request a)) buffer = Some b.

Record own (a : tp_async_attach_t) (got sent : list bytes) : Prop := {
  own_answer : aa_done a = true -> answered a (aa_response a) got;
  own_sent : aa_sent a = true -> requested a sent;
  own_done : aa_done a = true -> aa_sent a = true;
}.

Lemma answered_app a info got got' : answered a info got -> answered a info (got ++ got').
Proof. intros (b & Hb & E). exists b. rewrite elem_of_app. auto. Qed.

Lemma requested_app a sent sent' : requested a sent -> requested a (sent ++ sent').
Proof. intros (b & buffer & Hb & E). exists b, buffer. rewrite elem_of_app. auto. Qed.

Lemma deliver_own fs : forall a a' got sent,
  own a got sent -> aa_sent a = true -> deliver fresh fs a = Some a' ->
  own a' (got ++ (fst <$> fs)) sent /\ aa_request a' = aa_request a /\ aa_sent a' = true /\
  aa_auto_client_id a' = aa_auto_client_id a.
Proof.
  induction fs as [|[b ok] fs IH]; intros a a' got sent Hown Hs Hd.
  { injection Hd as <-. rewrite app_nil_r. done. }
  cbn [deliver] in Hd. destruct (tp_driver_async_attach_handler fresh (b, ok) a) as [a1|] eqn:E;
    [|done]. cbn in Hd.
  assert (H1 : own a1 (got ++ [b]) sent /\ aa_request a1 = aa_request a /\ aa_sent a1 = true /\
               aa_auto_client_id a1 = aa_auto_client_id a).
  { unfold tp_driver_async_attach_handler in E. cbn [fst snd] in E.
    assert (Hsame : own a (got ++ [b]) sent).
    { destruct Hown as [H1 H2 H3]. constructor; [intros Hdone; by apply answered_app, H1|done|done]. }
    destruct (_ && _); [by injection E as <-|].
    destruct (tp_driver_decode_attach_response _ _ _ _ _) as [info| | |] eqn:Ed;
      [|by injection E as <-|by injection E as <-|done].
    injection E as <-. split; [|done]. constructor; [|intros _; by apply Hown|done].
    intros _. exists b. split; [|exact (decoded_answer _ _ _ _ _ Ed)].
    apply elem_of_app. right. by apply list_elem_of_singleton. }
  destruct H1 as (H1 & E1 & E2 & E3). destruct (IH _ _ _ _ H1 E2 Hd) as (H4 & E4 & E5 & E6).
  rewrite <- app_assoc in H4. split; [exact H4|]. split_and!; congruence.
Qed.

(** The send leaves a request that was sent, or returns. *)
Lemma attach_send_own e c a got sent :
  own a got sent ->
  match attach_send codes e c a with
  | (inl (r, a'), out) =>
    own a' got (sent ++ option_list out) /\ (forall info, r <> Complete info) /\
    aa_request a' = aa_request a
  | (inr a', out) =>
    own a' got (sent ++ option_list out) /\ aa_sent a' = true /\ aa_request a' = aa_request a
  end.
Proof.
  intros [H1 H2 H3]. unfold attach_send. destruct (aa_sent a) eqn:Es.
  { split; [|done]. constructor; [done|intros _; by apply requested_app, H2|done]. }
  assert (Hnd : aa_done a = false) by (destruct (aa_done a); [by specialize (H3 eq_refl)|done]).
  destruct (_ && _).
  { split; [|by split; [|done]; intros ?]. by constructor; cbn; rewrite ?Hnd, ?Es. }
  unfold tp_driver_send_attach. destruct (encode _ _) as [b|] eqn:Ee.
  2:{ cbn [Z.ltb Z.compare]. split; [|split; [by destruct (_ || _)|done]].
      by constructor; cbn; rewrite ?Hnd. }
  destruct (_ <? 0).
  { split; [|split; [by destruct (_ || _)|done]]. by constructor; cbn; rewrite ?Hnd. }
  assert (Hreq : requested a (sent ++ [b])).
  { exists b, (pe_buffer e). split; [|exact Ee]. apply elem_of_app. right. by apply list_elem_of_singleton. }
  destruct (_ <? 0).
  - split; [|by split]. by constructor; cbn; rewrite ?Hnd.
  - split; [|by split]. by constructor.
Qed.

Lemma poll_own e c a got sent r c' a' out :
  own a got sent -> tp_driver_attach_poll codes fresh e c a = (r, c', a', out) ->
  own a' (got ++ consumed e c a) (sent ++ option_list out) /\
  forall info, r = Complete info ->
    answered a' info (got ++ consumed e c a) /\ requested a' (sent ++ option_list out) /\
    c' = if ai_code info =? tensor_pool_responseCode_OK
         then tp_driver_client_update_lease info (at_client_id (aa_request a'))
                (at_role (aa_request a')) c
         else c.
Proof.
  intros Hown. unfold tp_driver_attach_poll, consumed.
  pose proof (attach_send_own e c a got sent Hown) as Hs.
  destruct (attach_send codes e c a) as [[[r0 a0]|a0] out0].
  { destruct Hs as (Ho & Hr & _). intros [= <- <- <- <-]. rewrite app_nil_r.
    split; [exact Ho|]. intros info E. by specialize (Hr info). }
  destruct Hs as (Ho & Es & _). unfold attach_receive.
  destruct (negb (aa_assembler a0) && negb (pe_assembler e)).
  { intros [= <- <- <- <-]. split; [|done]. destruct Ho as [H1 H2 H3].
    constructor; [intros Hd; by apply answered_app, H1|done|done]. }
  assert (Ho1 : own (with_assembler true a0) got (sent ++ option_list out0)) by by destruct Ho.
  destruct (pe_poll e) as [z|fragments].
  { intros [= <- <- <- <-]. rewrite app_nil_r. by split. }
  destruct (deliver fresh fragments _) as [a1|] eqn:Ed.
  2:{ intros [= <- <- <- <-]. split; [|done]. destruct Ho1 as [H1 H2 H3].
      constructor; [intros Hd; by apply answered_app, H1|done|done]. }
  destruct (deliver_own _ _ _ _ _ Ho1 Es Ed) as (Ho2 & Er & Es2 & _).
  destruct (aa_done a1) eqn:Hd; cbn [negb]; [|by intros [= <- <- <- <-]].
  destruct (client_id_refused _ _).
  { intros [= <- <- <- <-]. by split. }
  intros [= <- <- <- <-]. split.
  - by destruct Ho2.
  - intros info [= <-]. destruct Ho2 as [H1 H2 H3]. split; [by apply H1|]. split; [by apply H2|done].
Qed.

Lemma run_own c a got sent : attach_run c a got sent -> own a got sent.
Proof.
  induction 1 as [|e c a got sent r c' a' out _ IH E]; [by constructor|]. by eapply poll_own.
Qed.
End Own.

(** C15: Over any sequence of polls of the asynchronous attach, with any fragments on
    the shared control stream, a client completes an attach only when one of the
    fragments delivered to it is an attach response of the driver schema that carries
    the correlation identifier of a request the client had sent.  It takes a lease
    only if the code in that fragment is OK, and then the lease, expiry and stream in
    the fragment, none of the identifiers the null value; otherwise it is as it was. *)
Theorem attach_answer_is_own `{Sbe} codes fresh c a got sent e info c' a' out :
  attach_run codes fresh c a got sent ->
  tp_driver_attach_poll codes fresh e c a = (Complete info, c', a', out) ->
  requested a' (sent ++ option_list out) /\
  exists b, b ∈ got ++ consumed codes e c a /\ response_to (at_correlation_id (aa_request a')) b /\
    if ai_code info =? tensor_pool_responseCode_OK
    then grants b (dc_active_lease_id c') (dc_lease_expiry_timestamp_ns c') (dc_active_stream_id c') /\
      dc_client_id c' = at_client_id (aa_request a') /\ dc_role c' = at_role (aa_request a')
    else c' = c.
Proof.
  intros Hrun Hpoll. destruct (poll_own codes fresh e c a got sent _ _ _ _ (run_own _ _ _ _ _ _ Hrun) Hpoll)
    as [_ Hc]. destruct (Hc info eq_refl) as ((b & Hb & Hr & Hg) & Hreq & ->). split; [exact Hreq|].
  exists b. split; [exact Hb|]. split; [exact Hr|].
  destruct (Z.eqb_spec (ai_code info) tensor_pool_responseCode_OK) as [E|]; [|done].
  split; [exact (Hg E)|done].
Qed.

(** ** The blocking attach returns *)

Lemma attach_loop_returns `{Sbe} fresh auto t steps : forall s,
  Exists (fun p => t < sp_now_ns p) steps -> is_Some (attach_loop fresh auto (Some t) steps s).
Proof.
  induction steps as [|p steps IH]; intros s He; [by apply Exists_nil in He|].
  cbn [attach_loop]. destruct (sp_poll p) as [|fragments]; [done|].
  destruct (deliver_blocking fresh fragments s) as [s1|]; [|done].
  destruct (Z.ltb_spec t (sp_now_ns p)) as [|Hle]; [done|].
  apply Exists_cons in He as [He|He]; [lia|].
  destruct (negb _); [by apply IH|]. destruct (client_id_refused _ _); [by apply IH|done].
Qed.

Lemma wait_connected_returns t turns c :
  0 < t -> Exists (fun x => fst x = true \/ t < snd x) turns ->
  is_Some (tp_driver_wait_connected (Some t) turns c).
Proof.
  intros Ht. induction turns as [|[connected now] turns IH]; intros He; [by apply Exists_nil in He|].
  cbn [tp_driver_wait_connected]. unfold tp_driver_client_ready.
  destruct (_ || _); [done|]. destruct connected; [done|]. cbn [Z.ltb Z.eqb Z.compare].
  destruct (Z.ltb_spec 0 t); [|lia]. destruct (Z.ltb_spec t now); [done|]. cbn [andb].
  apply Exists_cons in He as [[He|He]|He]; simpl in *; [done|lia|by apply IH].
Qed.

(** With a timeout the blocking attach returns: whatever arrives and whatever the
    transport does with its requests, it has ended once the clock has passed the
    deadline in the loop it is in. *)
Theorem blocking_attach_returns `{Sbe} fresh corr cl request timeout_ns now_ns start_ns deadline
    turns steps c :
  0 < timeout_ns -> 0 <= now_ns -> i64_checked (now_ns + timeout_ns) = Some deadline ->
  Exists (fun x => fst x = true \/ deadline < snd x) turns ->
  Exists (fun p => deadline < sp_now_ns p) steps ->
  is_Some (tp_driver_attach fresh corr cl request timeout_ns now_ns start_ns turns steps c).
Proof.
  intros Ht Hn Hd Hturns Hsteps. unfold tp_driver_attach.
  destruct (Z.ltb_spec 0 timeout_ns); [|lia]. rewrite Hd. cbn [fmap option_fmap option_map].
  assert (deadline = now_ns + timeout_ns).
  { unfold i64_checked in Hd. case_match; by inversion Hd. }
  destruct (wait_connected_returns deadline turns c ltac:(lia) Hturns) as [[] ->]; [|done].
  destruct (attach_loop_returns fresh (at_client_id request =? 0) deadline steps
    (attach_start start_ns (tp_driver_normalize_attach_request corr cl request) []) Hsteps)
    as [[r s] ->]. by destruct r.
Qed.

(** ** Notices reach their handlers *)

Definition notice_ok (m : msg) : Prop :=
  match m with
  | ShmDetachResponse c code text => is_i64 c /\ code ∈ responseCode_values /\ text_fits text
  | ShmLeaseRevoked t l reason text =>
    is_u64 t /\ is_u64 (dl_lease_id l) /\ is_u32 (dl_stream_id l) /\ is_u32 (dl_client_id l) /\
    (dl_role l ∈ role_values \/ dl_role l = driver_enum_null) /\
    reason ∈ leaseRevokeReason_values /\ text_fits text
  | ShmDriverShutdown t reason text => is_u64 t /\ reason ∈ shutdownReason_values /\ text_fits text
  | _ => False
  end.

(** The handler a notice is for, with the notice's own fields. *)
Definition event_of (handlers : tp_driver_event_handlers_t) (m : msg) : option driver_event :=
  match m with
  | ShmDetachResponse c code text =>
    if on_detach_response handlers
    then Some (OnDetachResponse {| di_correlation_id := c; di_code := code;
                                   di_error_message := received_text text |})
    else None
  | ShmLeaseRevoked t l reason text =>
    if on_lease_revoked handlers
    then Some (OnLeaseRevoked {| lr_timestamp_ns := t; lr_lease_id := dl_lease_id l;
           lr_stream_id := dl_stream_id l; lr_client_id := dl_client_id l; lr_role := dl_role l;
           lr_reason := reason; lr_error_message := received_text text |})
    else None
  | ShmDriverShutdown t reason text =>
    if on_shutdown handlers
    then Some (OnShutdown {| sd_timestamp_ns := t; sd_reason := reason;
                             sd_error_message := received_text text |})
    else None
  | _ => None
  end.

(** A detach response, revocation or shutdown notice of the driver calls the
    handler that is set for it, with the fields the driver sent, and no other
    handler; without one it is passed over. *)
Theorem notices_dispatched `{Sbe} base ns pw handlers m b fragment :
  notice_ok m -> send_bytes base ns pw m b = Some fragment ->
  tp_driver_event_handler handlers fragment = Decoded (event_of handlers m).
Proof.
  intros Hm Hs. unfold tp_driver_event_handler.
  destruct handlers as [d r s], m as [|c code text|t l reason text| |t reason text]; try done;
    cbn [event_of on_detach_response on_lease_revoked on_shutdown].
  - destruct Hm as (Hc & Hcode & Ht).
    destruct (detach_response_read base ns pw b fragment c code text
      {| di_correlation_id := 0; di_code := 0; di_error_message := [] |} Hc Hcode Ht Hs) as (-> & -> & ->).
    by destruct d, r, s.
  - destruct Hm as (Ht & Hl & Hst & Hc & Hr & Hre & Htext).
    destruct (lease_revoked_read base ns pw b fragment t l reason text Ht Hl Hst Hc Hr Hre Htext Hs)
      as (-> & Hd & ->).
    specialize (Hd {| di_correlation_id := 0; di_code := 0; di_error_message := [] |}).
    destruct (tp_driver_decode_detach_response _ _) as [o i]. simpl in Hd. subst o.
    by destruct d, r, s.
  - destruct Hm as (Ht & Hre & Htext).
    destruct (shutdown_read base ns pw b fragment t reason text Ht Hre Htext Hs) as (-> & Hd & ->).
    specialize (Hd {| di_correlation_id := 0; di_code := 0; di_error_message := [] |}).
    destruct (tp_driver_decode_detach_response _ _) as [o i]. simpl in Hd. subst o.
    by destruct d, r, s.
Qed.

(** ** Examples *)

Definition demo_codes : aeron :=
  {| AERON_PUBLICATION_NOT_CONNECTED := -1; AERON_PUBLICATION_BACK_PRESSURED := -2;
     AERON_PUBLICATION_ADMIN_ACTION := -3 |}.

(** A transport that accepts everything; the next identifiers are 42 and 7. *)
Definition demo_env (check_ns : Z) (poll : Z + list fragment) : poll_env :=
  {| pe_check_ns := check_ns; pe_send_ns := check_ns; pe_retry_ns := check_ns;
     pe_buffer := repeat 0 256; pe_offer := fun _ => 0; pe_assembler := true; pe_poll := poll;
     pe_correlation_id := 42; pe_client_id := 7 |}.


(** A consumer's request for stream 10. *)
Definition demo_async : tp_async_attach_t := tp_driver_attach_async_simple 41 5 10 2.

Lemma demo_async_ok : attach_request_ok (aa_request demo_async).
Proof. by constructor. Qed.

Definition demo_poll := tp_driver_attach_poll demo_codes demo_fresh.

(** The bytes of the driver's last message to a client. *)
Definition demo_answer (d : driver) : bytes :=
  match last (dv_out d) with
  | Some m => default [] (send_bytes (lit "/dev/shm") (lit "lab") NULL m (repeat 0 2048))
  | None => []
  end.

(** Request, grant and lease, over bytes. *)
Example attach_by_bytes :
  let '(_, c, a, sent) := demo_poll (demo_env 100 (inr [])) client_init demo_async in
  match sent ≫= tp_driver_on_control_fragment demo_world demo_config with
  | Some handler =>
    let d := snd (handler demo_start) in
    match demo_poll (demo_env 101 (inr [(demo_answer d, true)])) c a with
    | (Complete info, c, _, _) =>
      ai_code info = 0 /\ dc_active_lease_id c = 8 /\ dc_client_id c = 5 /\
      dl_lease_id <$> dv_leases d = [8] /\
      (fun p => (pi_pool_id p, pi_nslots p, pi_stride_bytes p)) <$> ai_pools info = [(1, 8, 4096)]
    | _ => False
    end
  | None => False
  end.
Proof. vm_compute. done. Qed.






(** The same request when client 5 is attached already: pending, under identifier 7. *)
Definition demo_pending : tp_async_attach_t := with_assembler true (with_send true 100 demo_async).

Lemma refused_identifier_retried_witness :
  let d' := snd (tp_driver_handle_attach demo_world demo_config
                   (attach_request_of (aa_request demo_pending)) demo_attached) in
  exists a2, demo_poll (demo_env 150 (inr [(demo_answer d', true)])) client_init demo_pending =
      (Pending, client_init, a2, None) /\ at_client_id (aa_request a2) = 7.
Proof.
  intros d'.
  destruct (refused_identifier_retried demo_world demo_config demo_codes demo_fresh (lit "/dev/shm")
    (lit "lab") NULL (demo_env 150 (inr [(demo_answer d', true)])) (demo_env 151 (inr [])) client_init
    demo_pending demo_attached demo_async_ok ltac:(right; left) ltac:(discriminate)
    ltac:(vm_compute; reflexivity) eq_refl eq_refl eq_refl eq_refl eq_refl)
    as (answer & _ & Hlast & Hpoll).
  fold d' in Hlast.
  assert (Hbytes : send_bytes (lit "/dev/shm") (lit "lab") NULL answer (repeat 0 2048) =
                   Some (demo_answer d')).
  { unfold demo_answer. rewrite Hlast. unfold d' in Hlast. vm_compute in Hlast.
    injection Hlast as <-. vm_compute. reflexivity. }
  destruct (Hpoll (repeat 0 2048) (demo_answer d') ltac:(reflexivity) Hbytes eq_refl eq_refl)
    as (a2 & Ha2 & Hr & _).
  exists a2. split; [exact Ha2|]. by rewrite Hr.
Defined.

Lemma attach_answer_is_own_witness :
  exists bytes info c' a' out,
    demo_poll (demo_env 101 (inr [(bytes, true)])) client_init demo_pending =
      (Complete info, c', a', out) /\ response_to 41 bytes /\
    grants bytes (dc_active_lease_id c') (dc_lease_expiry_timestamp_ns c') (dc_active_stream_id c') /\
    dc_active_lease_id c' = 8.
Proof.
  set (d := snd (tp_driver_handle_attach demo_world demo_config
                   (attach_request_of (aa_request demo_async)) demo_start)).
  set (e := demo_env 101 (inr [(demo_answer d, true)])).
  assert (Hrun : attach_run demo_codes demo_fresh client_init demo_pending
    ([] ++ consumed demo_codes (demo_env 100 (inr [])) client_init demo_async)
    ([] ++ option_list (Some
      (default [] (encode (attach_request_items (aa_request demo_async)) (repeat 0 256)))))).
  { apply (run_poll demo_codes demo_fresh (demo_env 100 (inr [])) client_init demo_async [] []
      Pending client_init demo_pending _
      (run_start _ _ 41 5 (tp_driver_attach_request_init 10 2) client_init)).
    vm_compute. reflexivity. }
  destruct (demo_poll e client_init demo_pending) as [[[r c'] a'] out] eqn:E.
  destruct r as [|info| |]; try (vm_compute in E; discriminate E).
  destruct (attach_answer_is_own demo_codes demo_fresh client_init demo_pending _ _ e info c' a' out
    Hrun E) as (_ & b & Hb & Hr & Hc).
  exists (demo_answer d), info, c', a', out. split; [exact E|].
  assert (Eg : ([] ++ consumed demo_codes (demo_env 100 (inr [])) client_init demo_async) ++
    consumed demo_codes e client_init demo_pending = [demo_answer d]) by (vm_compute; reflexivity).
  rewrite Eg in Hb. apply list_elem_of_singleton in Hb as ->.
  assert (Ea : at_correlation_id (aa_request a') = 41 /\ ai_code info = 0 /\ dc_active_lease_id c' = 8)
    by (vm_compute in E; injection E as <- <- <- _; split_and!; reflexivity).
  destruct Ea as (Ea & Eok & E8). rewrite Ea in Hr. rewrite Eok in Hc. destruct Hc as [Hc _].
  split; [exact Hr|]. split; [exact Hc|exact E8].
Defined.

Lemma requests_reach_driver_witness :
  exists fragment, tp_driver_on_control_fragment demo_world demo_config fragment =
    Some (tp_driver_handle_keepalive demo_world demo_config (keepalive_of 8 10 5 1)).
Proof.
  destruct (encode (keepalive_items 8 10 5 1 99) (repeat 0 128)) as [f|] eqn:E;
    [|vm_compute in E; discriminate E].
  exists f.
  destruct (requests_reach_driver demo_world demo_config (tp_driver_attach_request_init 10 1) 1 8 10 5 1
    99 (repeat 0 128) f) as [_ H].
  apply H; [split; (discriminate || reflexivity)..|exact E].
Defined.

(** Client 5's view of the lease that [demo_attached] grants. *)
Definition demo_holder : tp_driver_client_t :=
  {| dc_publication := true; dc_subscription := true; dc_active_lease_id := 8;
     dc_lease_expiry_timestamp_ns := 5001000; dc_last_keepalive_ns := 0; dc_active_stream_id := 10;
     dc_client_id := 5; dc_role := 1 |}.

Lemma keepalive_renews_lease_witness :
  exists fragment handler,
    tp_driver_on_control_fragment demo_world demo_config fragment = Some handler /\
    dl_expiry_ns <$> dv_leases (snd (handler demo_attached)) = [15001000].
Proof.
  destruct (tp_driver_keepalive (repeat 0 128) (fun _ => 0) (Some (1000000, 3)) 12000000 demo_holder)
    as [[r c'] o] eqn:E.
  destruct o as [fragment|]; [|vm_compute in E; discriminate E].
  assert (Hr : r = 0) by (vm_compute in E; injection E as <- _ _; reflexivity). subst r.
  destruct (dv_leases demo_attached !! 0%nat) as [l|] eqn:El; [|vm_compute in El; discriminate El].
  destruct (keepalive_renews_lease demo_world demo_config 1000000 3 (repeat 0 128) (fun _ => 0) 12000000
    demo_holder demo_attached 0 l fragment c') as (handler & l' & Hc & Hl & _ & He & _).
  - constructor; split; (discriminate || reflexivity).
  - split; (discriminate || reflexivity).
  - left.
  - vm_compute. reflexivity.
  - exact El.
  - vm_compute in El. injection El as <-. reflexivity.
  - exact E.
  - reflexivity.
  - reflexivity.
  - discriminate.
  - vm_compute. discriminate.
  - vm_compute. reflexivity.
  - vm_compute in El. injection El as <-. discriminate.
  - vm_compute in El. injection El as <-. vm_compute. discriminate.
  - exists fragment, handler. split; [exact Hc|]. rewrite Hl.
    assert (Hd : dv_leases demo_attached = [l]).
    { vm_compute in El. injection El as <-. vm_compute. reflexivity. }
    rewrite Hd. cbn. rewrite He. vm_compute. reflexivity.
Defined.

(** A client that goes by an interval of 2 ms with a driver that goes by 1 ms. *)
Example overestimated_lease :
  let '(_, c', sent) :=
    tp_driver_keepalive (repeat 0 128) (fun _ => 0) (Some (2000000, 3)) 12000000 demo_holder in
  match sent ≫= tp_driver_on_control_fragment demo_world demo_config with
  | Some handler => dl_expiry_ns <$> dv_leases (snd (handler demo_attached)) = [15001000] /\
      dc_lease_expiry_timestamp_ns c' = 18000000
  | None => False
  end.
Proof. vm_compute. done. Qed.

(** Nothing ever arrives; the call ends at the third turn. *)
Definition demo_turn (now_ns : Z) : attach_step :=
  {| sp_poll := inr []; sp_now_ns := now_ns; sp_restart_ns := 0; sp_correlation_id := 42;
     sp_client_id := 7 |}.

Lemma blocking_attach_returns_witness :
  is_Some (tp_driver_attach demo_fresh 41 5 (tp_driver_attach_request_init 10 2) 300000000 0 10
    [(false, 5); (true, 10)] [demo_turn 100; demo_turn 250000000; demo_turn 300000001] client_init).
Proof.
  apply (blocking_attach_returns demo_fresh 41 5 (tp_driver_attach_request_init 10 2) 300000000 0 10
    300000000); [lia|lia|reflexivity| |].
  - right. left. left. reflexivity.
  - right. right. left. reflexivity.
Defined.

Lemma notices_dispatched_witness :
  exists fragment, tp_driver_event_handler
      {| on_detach_response := true; on_lease_revoked := true; on_shutdown := true |} fragment =
    Decoded (Some (OnShutdown {| sd_timestamp_ns := 9; sd_reason := 0; sd_error_message := [] |})).
Proof.
  destruct (send_bytes [] [] NULL (ShmDriverShutdown 9 0 NULL) (repeat 0 512)) as [f|] eqn:E;
    [|vm_compute in E; discriminate E].
  exists f. apply (notices_dispatched [] [] NULL
    {| on_detach_response := true; on_lease_revoked := true; on_shutdown := true |}
    (ShmDriverShutdown 9 0 NULL) (repeat 0 512) f); [|exact E].
  split; [split; (discriminate || reflexivity)|]. split; [left|exact I].
Defined.

(** The answer to another client's detach completes a detach. *)
Example foreign_detach_completes :
  match send_bytes [] [] NULL (ShmDetachResponse 999 0 NULL) (repeat 0 512) with
  | Some b =>
    match tp_driver_detach_poll (repeat 0 128) (fun _ => 0) 43 true (inr [b]) demo_holder
            (tp_driver_detach_async 41) with
    | (Complete info, _, _) => di_correlation_id info = 999 /\ di_code info = 0
    | _ => False
    end
  | None => False
  end.
Proof. vm_compute. done. Qed.

(** A fragment too short to be any message ends the blocking attach with an internal
    error, although the request is still on its way; the asynchronous attach
    passes it over. *)
Example short_fragment_ends_attach :
  let short : fragment := ([1; 2; 3], true) in
  match tp_driver_attach demo_fresh 41 5 (tp_driver_attach_request_init 10 2) 300000000 0 10
          [(true, 10)] [{| sp_poll := inr [short]; sp_now_ns := 20; sp_restart_ns := 0;
                           sp_correlation_id := 42; sp_client_id := 7 |}] client_init with
  | Some (Complete info, _) => ai_code info = tensor_pool_responseCode_INTERNAL_ERROR
  | _ => False
  end /\
  fst (fst (fst (demo_poll (demo_env 101 (inr [short])) client_init demo_pending))) = Pending.
Proof. vm_compute. done. Qed.

(** A grant that arrives after the deadline is thrown away: the driver keeps the lease. *)
Example late_grant_discarded :
  let d := snd (tp_driver_handle_attach demo_world demo_config
                  (attach_request_of (aa_request demo_async)) demo_start) in
  dl_lease_id <$> dv_leases d = [8] /\
  match tp_driver_attach demo_fresh 41 5 (tp_driver_attach_request_init 10 2) 300000000 0 10
          [(true, 10)] [{| sp_poll := inr [(demo_answer d, true)]; sp_now_ns := 300000001;
                           sp_restart_ns := 0; sp_correlation_id := 42; sp_client_id := 7 |}]
          client_init with
  | Some (PollFailed, c) => dc_active_lease_id c = 0
  | _ => False
  end.
Proof. vm_compute. done. Qed.
