(* ===== verification/Control.v ===== *)
(** * Control: the control-plane messages (tp_control.c, tp_control_adapter.c)

    Consumers say hello, producers answer with a configuration, the driver and
    producers announce the regions of a stream, and producers describe their
    data.  The senders write these messages with the generated encoders; the
    decoders check the header, read the fixed block and then walk over the text
    themselves ([tp_decode_var_data]), handing out views into the fragment.
    [tp_control_fragment_handler] dispatches a fragment to the callbacks that are
    set.  Layouts are those of [schemas/wire-schema.xml]. *)

From Stdlib Require Import ZArith Lia Bool Ascii String.
From stdpp Require Import strings.
From S2P Require Import Prelude Sbe Uri Message Seqlock.
From S2P Require Import ConsumerManager.
From S2P Require Import Driver DriverMessages.

#[local] Open Scope Z_scope.
#[local] Open Scope list_scope.

(** ** The schema *)

Definition wire_schema_id : Z := 900.
Definition wire_schema_version : Z := 1.
Definition shmPoolAnnounce_template : Z := 1.
Definition consumerHello_template : Z := 2.
Definition consumerConfig_template : Z := 3.
Definition dataSourceAnnounce_template : Z := 7.
Definition dataSourceMeta_template : Z := 8.
Definition controlResponse_template : Z := 9.
Definition metaBlobAnnounce_template : Z := 10.
Definition metaBlobChunk_template : Z := 12.
Definition metaBlobComplete_template : Z := 13.
Definition shmPoolAnnounce_block : Z := 35.
Definition announcedPools_block : Z := 10.
Definition consumerHello_block : Z := 39.
Definition consumerConfig_block : Z := 18.
Definition dataSourceAnnounce_block : Z := 20.
Definition dataSourceMeta_block : Z := 16.
Definition attributes_block : Z := 0.
Definition controlResponse_block : Z := 12.
Definition metaBlobAnnounce_block : Z := 28.
Definition metaBlobChunk_block : Z := 16.
Definition metaBlobComplete_block : Z := 16.
Definition bool_values : list Z := [0; 1].
Definition mode_values : list Z := [1; 2].
Definition clockDomain_values : list Z := [1; 2].
Definition uint8_null : Z := 255.
Definition TP_CLOCK_DOMAIN_MONOTONIC : Z := 1.
Definition TP_CLOCK_DOMAIN_REALTIME_SYNCED : Z := 2.

Definition control_header (block template : Z) : item :=
  header_item block template wire_schema_id wire_schema_version.

(** ** What is sent *)

Record tp_consumer_hello_t := {
  he_stream_id : Z;
  he_consumer_id : Z;
  he_supports_shm : Z;
  he_supports_progress : Z;
  he_mode : Z;
  he_max_rate_hz : Z;
  he_expected_layout_version : Z;
  he_progress_interval_us : Z;
  he_progress_bytes_delta : Z;
  he_progress_major_delta_units : Z;
  he_descriptor_stream_id : Z;
  he_control_stream_id : Z;
  he_descriptor_channel : ptr chars;
  he_control_channel : ptr chars;
}.

Record tp_data_source_announce_t := {
  da_stream_id : Z;
  da_producer_id : Z;
  da_epoch : Z;
  da_meta_version : Z;
  da_name : ptr chars;
  da_summary : ptr chars;
}.

Record tp_meta_attribute_t := {
  ma_key : chars;
  ma_format : chars;
  ma_value : chars;
}.

Record tp_data_source_meta_t := {
  dm_stream_id : Z;
  dm_meta_version : Z;
  dm_timestamp_ns : Z;
  dm_attributes : list tp_meta_attribute_t;
}.

Record tp_meta_blob_announce_t := {
  ba_stream_id : Z;
  ba_meta_version : Z;
  ba_blob_type : Z;
  ba_total_len : Z;
  ba_checksum : Z;
}.

Record tp_meta_blob_chunk_t := {
  bc_stream_id : Z;
  bc_meta_version : Z;
  bc_offset : Z;
  bc_bytes : ptr chars;
}.

Record tp_meta_blob_complete_t := {
  bk_stream_id : Z;
  bk_meta_version : Z;
  bk_checksum : Z;
}.

Record tp_shm_pool_announce_pool_t := {
  ap_pool_id : Z;
  ap_pool_nslots : Z;
  ap_stride_bytes : Z;
  ap_region_uri : ptr chars;
}.

Record tp_shm_pool_announce_t := {
  an_stream_id : Z;
  an_producer_id : Z;
  an_epoch : Z;
  an_announce_timestamp_ns : Z;
  an_announce_clock_domain : Z;
  an_layout_version : Z;
  an_header_nslots : Z;
  an_header_slot_bytes : Z;
  an_header_region_uri : ptr chars;
  an_pools : ptr (list tp_shm_pool_announce_pool_t);
}.

Record tp_control_response_t := {
  cr_correlation_id : Z;
  cr_code : Z;
  cr_error_message : ptr chars;
}.

(** The text of a [put_X] with [strlen], or the empty text for NULL. *)
Definition text_of (s : ptr chars) : chars := default [] s.

Definition tp_control_strlen (value : ptr chars) : Z := Z.of_nat (length (text_of value)).

(** A channel and a stream identifier are given together or not at all. *)
Definition half_given (channel : chars) (stream_id : Z) : bool :=
  (negb (bool_decide (channel = [])) && (stream_id =? 0)) ||
  (bool_decide (channel = []) && negb (stream_id =? 0)).

Definition optional_u32 (v : Z) : Z := if v =? TP_NULL_U32 then TP_NULL_U32 else v.

Definition tp_consumer_send_hello (h : tp_consumer_hello_t) : res (list item) :=
  guard! negb (half_given (text_of (he_descriptor_channel h)) (he_descriptor_stream_id h)) else EINVAL in
  guard! negb (half_given (text_of (he_control_channel h)) (he_control_stream_id h)) else EINVAL in
  Ok [control_header consumerHello_block consumerHello_template;
      Block consumerHello_block
        [Write 0 4 (he_stream_id h); Write 4 4 (he_consumer_id h); Write 8 1 (he_supports_shm h);
         Write 9 1 (he_supports_progress h); Write 10 1 (he_mode h); Write 11 4 (he_max_rate_hz h);
         Write 15 4 (he_expected_layout_version h);
         Write 19 4 (optional_u32 (he_progress_interval_us h));
         Write 23 4 (optional_u32 (he_progress_bytes_delta h));
         Write 27 4 (optional_u32 (he_progress_major_delta_units h));
         Write 31 4 (he_descriptor_stream_id h); Write 35 4 (he_control_stream_id h)];
      Text (text_of (he_descriptor_channel h)); Text (text_of (he_control_channel h))].

(** Manager and application pass text; NULL is written as the empty text. *)
Definition tp_producer_send_consumer_config (c : tp_consumer_config_msg_t) : res (list item) :=
  Ok [control_header consumerConfig_block consumerConfig_template;
      Block consumerConfig_block
        [Write 0 4 (cf_stream_id c); Write 4 4 (cf_consumer_id c); Write 8 1 (cf_use_shm c);
         Write 9 1 (cf_mode c); Write 10 4 (cf_descriptor_stream_id c);
         Write 14 4 (cf_control_stream_id c)];
      Text (cf_payload_fallback_uri c); Text (cf_descriptor_channel c);
      Text (cf_control_channel c)].

Definition tp_producer_send_data_source_announce (a : tp_data_source_announce_t) : res (list item) :=
  Ok [control_header dataSourceAnnounce_block dataSourceAnnounce_template;
      Block dataSourceAnnounce_block
        [Write 0 4 (da_stream_id a); Write 4 4 (da_producer_id a); Write 8 8 (da_epoch a);
         Write 16 4 (da_meta_version a)];
      Text (text_of (da_name a)); Text (text_of (da_summary a))].

(** The entries of [attributes] have no block of their own. *)
Definition attribute_items (a : tp_meta_attribute_t) : list item :=
  [Block attributes_block []; Text (ma_key a); Text (ma_format a); Text (ma_value a)].

(** A count of 65535 or more is not a group size of the schema. *)
Definition tp_producer_send_data_source_meta (m : tp_data_source_meta_t) : res (list item) :=
  let count := Z.of_nat (length (dm_attributes m)) in
  guard! count <? 65535 else EINVAL in
  Ok (control_header dataSourceMeta_block dataSourceMeta_template ::
      Block dataSourceMeta_block
        [Write 0 4 (dm_stream_id m); Write 4 4 (dm_meta_version m); Write 8 8 (dm_timestamp_ns m)] ::
      group_item attributes_block count :: mjoin (attribute_items <$> dm_attributes m)).

Definition tp_producer_send_meta_blob_announce (a : tp_meta_blob_announce_t) : res (list item) :=
  Ok [control_header metaBlobAnnounce_block metaBlobAnnounce_template;
      Block metaBlobAnnounce_block
        [Write 0 4 (ba_stream_id a); Write 4 4 (ba_meta_version a); Write 8 4 (ba_blob_type a);
         Write 12 8 (ba_total_len a); Write 20 8 (ba_checksum a)]].

Definition tp_producer_send_meta_blob_chunk (c : tp_meta_blob_chunk_t) : res (list item) :=
  match bc_bytes c with
  | NULL => Err EINVAL
  | Some data =>
    let bytes_length := Z.of_nat (length data) in
    guard! negb (bytes_length =? 0) else EINVAL in
    guard! negb (4096 - messageHeader_encoded_length - metaBlobChunk_block <? bytes_length)
      else EINVAL in
    Ok [control_header metaBlobChunk_block metaBlobChunk_template;
        Block metaBlobChunk_block
          [Write 0 4 (bc_stream_id c); Write 4 4 (bc_meta_version c); Write 8 8 (bc_offset c)];
        Text data]
  end.

Definition tp_producer_send_meta_blob_complete (c : tp_meta_blob_complete_t) : res (list item) :=
  Ok [control_header metaBlobComplete_block metaBlobComplete_template;
      Block metaBlobComplete_block
        [Write 0 4 (bk_stream_id c); Write 4 4 (bk_meta_version c); Write 8 8 (bk_checksum c)]].

Definition announced_pool_items (p : tp_shm_pool_announce_pool_t) : list item :=
  [Block announcedPools_block
     [Write 0 2 (ap_pool_id p); Write 2 4 (ap_pool_nslots p); Write 6 4 (ap_stride_bytes p)];
   Text (text_of (ap_region_uri p))].

Definition pool_announce_head (a : tp_shm_pool_announce_t) : list item :=
  [control_header shmPoolAnnounce_block shmPoolAnnounce_template;
   Block shmPoolAnnounce_block
     [Write 0 4 (an_stream_id a); Write 4 4 (an_producer_id a); Write 8 8 (an_epoch a);
      Write 16 8 (an_announce_timestamp_ns a); Write 25 4 (an_layout_version a);
      Write 29 4 (an_header_nslots a); Write 33 2 (an_header_slot_bytes a);
      Write 24 1 (an_announce_clock_domain a)]].

(** The length of the buffer the sender allocates: exactly what it writes. *)
Definition pool_announce_length (a : tp_shm_pool_announce_t) : Z :=
  messageHeader_encoded_length + shmPoolAnnounce_block + 4 + 4 +
    tp_control_strlen (an_header_region_uri a) +
    foldr (fun p n => announcedPools_block + 4 + tp_control_strlen (ap_region_uri p) + n) 0
      (default [] (an_pools a)).

Definition tp_producer_send_shm_pool_announce (a : tp_shm_pool_announce_t) : res (list item) :=
  match an_pools a with
  | NULL | Some [] => Err EINVAL
  | Some pools =>
    guard! negb (bool_decide (text_of (an_header_region_uri a) = [])) else EINVAL in
    let count := Z.of_nat (length pools) in
    guard! count <? 65535 else EINVAL in
    Ok (pool_announce_head a ++ group_item announcedPools_block count ::
        mjoin (announced_pool_items <$> pools) ++ [Text (text_of (an_header_region_uri a))])
  end.

Definition tp_producer_send_control_response (r : tp_control_response_t) : res (list item) :=
  Ok [control_header controlResponse_block controlResponse_template;
      Block controlResponse_block
        [Write 0 8 (u64 (cr_correlation_id r)); Write 8 4 (u32 (cr_code r))];
      Text (text_of (cr_error_message r))].

(** The announcement the driver sends for a stream with a profile. *)
Fixpoint region_pools (base ns : chars) (pw : ptr chars) (stream : tp_driver_stream_state_t)
    (nslots : Z) (hugepages : bool) (pools : list (Z * Z))
    : res (list tp_shm_pool_announce_pool_t) :=
  match pools with
  | [] => Ok []
  | (pool_id, stride) :: pools' =>
    let! uri := region_uri base ns pw stream pool_id tensor_pool_regionType_PAYLOAD_POOL hugepages in
    let! rest := region_pools base ns pw stream nslots hugepages pools' in
    Ok ({| ap_pool_id := pool_id; ap_pool_nslots := nslots; ap_stride_bytes := stride;
           ap_region_uri := Some uri |} :: rest)
  end.

Definition driver_announce (base ns : chars) (pw : ptr chars) (now_ns : Z)
    (stream : tp_driver_stream_state_t) (hugepages : bool) : res tp_shm_pool_announce_t :=
  match ds_profile stream with
  | NULL => Err EINVAL
  | Some profile =>
    guard! Z.of_nat (length (pf_pools profile)) <? 65535 else EINVAL in
    let! pools := region_pools base ns pw stream (pf_header_nslots profile) hugepages
                    (pf_pools profile) in
    let! header_uri := region_uri base ns pw stream 0 tensor_pool_regionType_HEADER_RING hugepages in
    Ok {| an_stream_id := ds_stream_id stream; an_producer_id := ds_producer_client_id stream;
          an_epoch := ds_epoch stream; an_announce_timestamp_ns := now_ns;
          an_announce_clock_domain := TP_CLOCK_DOMAIN_MONOTONIC;
          an_layout_version := TP_LAYOUT_VERSION;
          an_header_nslots := pf_header_nslots profile;
          an_header_slot_bytes := TP_HEADER_SLOT_BYTES;
          an_header_region_uri := Some header_uri; an_pools := Some pools |}
  end.

Definition driver_announce_items (a : tp_shm_pool_announce_t) : list item :=
  pool_announce_head a ++
  group_item announcedPools_block (Z.of_nat (length (default [] (an_pools a)))) ::
  mjoin (announced_pool_items <$> default [] (an_pools a)) ++
  [Text (text_of (an_header_region_uri a))].

(** ** What is received *)

Record tp_consumer_config_view_t := {
  cv_stream_id : Z;
  cv_consumer_id : Z;
  cv_use_shm : Z;
  cv_mode : Z;
  cv_descriptor_stream_id : Z;
  cv_control_stream_id : Z;
  cv_payload_fallback_uri : tp_string_view_t;
  cv_descriptor_channel : tp_string_view_t;
  cv_control_channel : tp_string_view_t;
}.

Record tp_data_source_announce_view_t := {
  dv_stream_id : Z;
  dv_producer_id : Z;
  dv_epoch : Z;
  dv_meta_version : Z;
  dv_name : tp_string_view_t;
  dv_summary : tp_string_view_t;
}.

Record tp_data_source_meta_view_t := {
  mv_stream_id : Z;
  mv_meta_version : Z;
  mv_timestamp_ns : Z;
  mv_attribute_count : Z;
}.

Record tp_data_source_meta_attr_view_t := {
  av_key : tp_string_view_t;
  av_format : tp_string_view_t;
  av_value : tp_string_view_t;
}.

Record tp_meta_blob_chunk_view_t := {
  kv_stream_id : Z;
  kv_meta_version : Z;
  kv_offset : Z;
  kv_bytes : tp_string_view_t;
}.

Record tp_control_response_view_t := {
  rv_correlation_id : Z;
  rv_code : Z;
  rv_error_message : tp_string_view_t;
}.

Record tp_shm_pool_desc_t := {
  pd_pool_id : Z;
  pd_nslots : Z;
  pd_stride_bytes : Z;
  pd_region_uri : tp_string_view_t;
}.

(** [pool_count] is the length of [pools]. *)
Record tp_shm_pool_announce_view_t := {
  pv_stream_id : Z;
  pv_producer_id : Z;
  pv_epoch : Z;
  pv_announce_timestamp_ns : Z;
  pv_announce_clock_domain : Z;
  pv_layout_version : Z;
  pv_header_nslots : Z;
  pv_header_slot_bytes : Z;
  pv_header_region_uri : tp_string_view_t;
  pv_pools : list tp_shm_pool_desc_t;
}.

Section Decoders.
Context `{Sbe}.

Definition view_at (b : bytes) (pos : Z) (n : nat) : tp_string_view_t :=
  {| sv_data := if (n =? 0)%nat then NULL else Some (sbe_chars b pos n); sv_length := n |}.

(** A length, and as many bytes: both within the fragment.  Positions are 64 bits
    wide and at most the length of a fragment plus [2^33], so no sum wraps. *)
Definition tp_decode_var_data (b : bytes) (position : Z) : outcome (tp_string_view_t * Z) :=
  check! position + 4 <=? blen b in
  let field_len := sbe_get 4 b position in
  check! position + 4 + field_len <=? blen b in
  Decoded (view_at b (position + 4) (Z.to_nat field_len), position + 4 + field_len).

(** The length and the identity of the message. *)
Definition recognised (b : bytes) (template : Z) : outcome unit :=
  check! negb (blen b <? messageHeader_encoded_length) in
  if negb (messageHeader_schemaId b =? wire_schema_id) ||
     negb (messageHeader_templateId b =? template) then NotThisMessage
  else Decoded tt.

(** The guards of the decoders that check version and block length.  None checks
    that the fragment holds the block it goes on to read. *)
Definition control_header_check (b : bytes) (template block : Z) : outcome unit :=
  field! _ := recognised b template in
  check! negb (wire_schema_version <? messageHeader_version b) in
  check! messageHeader_blockLength b =? block in
  if blen b <? messageHeader_encoded_length + block then OutOfBounds else Decoded tt.

(** The others take any version and skip the block length the message names; a
    length beyond the fragment leaves the position undefined. *)
Definition lax_header_check (b : bytes) (template block : Z) : outcome Z :=
  field! _ := recognised b template in
  let pos := messageHeader_encoded_length + messageHeader_blockLength b in
  if (blen b <? messageHeader_encoded_length + block) || (blen b <? pos) then OutOfBounds
  else Decoded pos.

Definition decode_bool (b : bytes) (off : Z) : outcome Z :=
  require (sbe_enum bool_values uint8_null (sbe_get 1 b off)).
Definition decode_mode (b : bytes) (off : Z) : outcome Z :=
  require (sbe_enum mode_values uint8_null (sbe_get 1 b off)).

Definition tp_control_decode_consumer_hello (b : bytes) : outcome tp_consumer_hello_view_t :=
  field! _ := control_header_check b consumerHello_template consumerHello_block in
  field! supports_shm := decode_bool b (8 + 8) in
  field! supports_progress := decode_bool b (8 + 9) in
  field! mode := decode_mode b (8 + 10) in
  field! descriptor := tp_decode_var_data b (messageHeader_encoded_length + consumerHello_block) in
  field! control := tp_decode_var_data b (snd descriptor) in
  Decoded
    {| hv_stream_id := sbe_get 4 b (8 + 0); hv_consumer_id := sbe_get 4 b (8 + 4);
       hv_supports_shm := supports_shm; hv_supports_progress := supports_progress;
       hv_mode := mode; hv_max_rate_hz := sbe_get 4 b (8 + 11);
       hv_expected_layout_version := sbe_get 4 b (8 + 15);
       hv_progress_interval_us := optional_u32 (sbe_get 4 b (8 + 19));
       hv_progress_bytes_delta := optional_u32 (sbe_get 4 b (8 + 23));
       hv_progress_major_delta_units := optional_u32 (sbe_get 4 b (8 + 27));
       hv_descriptor_stream_id := sbe_get 4 b (8 + 31);
       hv_control_stream_id := sbe_get 4 b (8 + 35);
       hv_descriptor_channel := fst descriptor; hv_control_channel := fst control |}.

Definition tp_control_decode_consumer_config (b : bytes) : outcome tp_consumer_config_view_t :=
  field! _ := control_header_check b consumerConfig_template consumerConfig_block in
  field! use_shm := decode_bool b (8 + 8) in
  field! mode := decode_mode b (8 + 9) in
  field! uri := tp_decode_var_data b (messageHeader_encoded_length + consumerConfig_block) in
  field! descriptor := tp_decode_var_data b (snd uri) in
  field! control := tp_decode_var_data b (snd descriptor) in
  Decoded
    {| cv_stream_id := sbe_get 4 b (8 + 0); cv_consumer_id := sbe_get 4 b (8 + 4);
       cv_use_shm := use_shm; cv_mode := mode;
       cv_descriptor_stream_id := sbe_get 4 b (8 + 10);
       cv_control_stream_id := sbe_get 4 b (8 + 14);
       cv_payload_fallback_uri := fst uri; cv_descriptor_channel := fst descriptor;
       cv_control_channel := fst control |}.

Definition tp_control_decode_data_source_announce (b : bytes)
    : outcome tp_data_source_announce_view_t :=
  field! pos := lax_header_check b dataSourceAnnounce_template dataSourceAnnounce_block in
  field! name := tp_decode_var_data b pos in
  field! summary := tp_decode_var_data b (snd name) in
  Decoded
    {| dv_stream_id := sbe_get 4 b (8 + 0); dv_producer_id := sbe_get 4 b (8 + 4);
       dv_epoch := sbe_get 8 b (8 + 8); dv_meta_version := sbe_get 4 b (8 + 16);
       dv_name := fst name; dv_summary := fst summary |}.

(** The entries of [payloadPools] and the position after them. *)
Fixpoint decode_announced_pools (b : bytes) (n : nat) (pos block : Z)
    : outcome (list tp_shm_pool_desc_t * Z) :=
  match n with
  | O => Decoded ([], pos)
  | S n' =>
    match sbe_group_next pos block (blen b) with
    | None => Malformed
    | Some off =>
      if blen b <? off + announcedPools_block then OutOfBounds
      else
        field! uri := tp_decode_var_data b (off + block) in
        field! rest := decode_announced_pools b n' (snd uri) block in
        Decoded ({| pd_pool_id := sbe_get 2 b off; pd_nslots := sbe_get 4 b (off + 2);
                    pd_stride_bytes := sbe_get 4 b (off + 6); pd_region_uri := fst uri |} :: fst rest,
                 snd rest)
    end
  end.

(** [alloc_ok]: [calloc] succeeds. *)
Definition tp_control_decode_shm_pool_announce (b : bytes) (alloc_ok : bool)
    : outcome tp_shm_pool_announce_view_t :=
  field! _ := control_header_check b shmPoolAnnounce_template shmPoolAnnounce_block in
  field! clock_domain := require (sbe_enum clockDomain_values uint8_null (sbe_get 1 b (8 + 24))) in
  let pos := messageHeader_encoded_length + shmPoolAnnounce_block in
  match sbe_group_wrap b pos (blen b) with
  | None => Malformed
  | Some (block, count) =>
    check! (count =? 0) || alloc_ok in
    field! pools := decode_announced_pools b (Z.to_nat count) (pos + 4) block in
    field! header_uri := tp_decode_var_data b (snd pools) in
    Decoded
      {| pv_stream_id := sbe_get 4 b (8 + 0); pv_producer_id := sbe_get 4 b (8 + 4);
         pv_epoch := sbe_get 8 b (8 + 8); pv_announce_timestamp_ns := sbe_get 8 b (8 + 16);
         pv_announce_clock_domain := u8 clock_domain;
         pv_layout_version := sbe_get 4 b (8 + 25); pv_header_nslots := sbe_get 4 b (8 + 29);
         pv_header_slot_bytes := sbe_get 2 b (8 + 33);
         pv_header_region_uri := fst header_uri; pv_pools := fst pools |}
  end.

Definition tp_control_decode_control_response (b : bytes) : outcome tp_control_response_view_t :=
  field! pos := lax_header_check b controlResponse_template controlResponse_block in
  field! code := require (sbe_enum responseCode_values responseCode_null
                            (i32 (sbe_get 4 b (8 + 8)))) in
  field! error := tp_decode_var_data b pos in
  Decoded {| rv_correlation_id := i64 (sbe_get 8 b (8 + 0)); rv_code := code;
             rv_error_message := fst error |}.

(** The decoders of blob announcements and completions read no text, so a block
    length beyond the fragment does no harm. *)
Definition tp_control_decode_meta_blob_announce (b : bytes) : outcome tp_meta_blob_announce_t :=
  field! _ := recognised b metaBlobAnnounce_template in
  if blen b <? messageHeader_encoded_length + metaBlobAnnounce_block then OutOfBounds
  else Decoded {| ba_stream_id := sbe_get 4 b (8 + 0); ba_meta_version := sbe_get 4 b (8 + 4);
                  ba_blob_type := sbe_get 4 b (8 + 8); ba_total_len := sbe_get 8 b (8 + 12);
                  ba_checksum := sbe_get 8 b (8 + 20) |}.

Definition tp_control_decode_meta_blob_chunk (b : bytes) : outcome tp_meta_blob_chunk_view_t :=
  field! _ := control_header_check b metaBlobChunk_template metaBlobChunk_block in
  field! data := tp_decode_var_data b (messageHeader_encoded_length + metaBlobChunk_block) in
  Decoded {| kv_stream_id := sbe_get 4 b (8 + 0); kv_meta_version := sbe_get 4 b (8 + 4);
             kv_offset := sbe_get 8 b (8 + 8); kv_bytes := fst data |}.

Definition tp_control_decode_meta_blob_complete (b : bytes) : outcome tp_meta_blob_complete_t :=
  field! _ := recognised b metaBlobComplete_template in
  if blen b <? messageHeader_encoded_length + metaBlobComplete_block then OutOfBounds
  else Decoded {| bk_stream_id := sbe_get 4 b (8 + 0); bk_meta_version := sbe_get 4 b (8 + 4);
                  bk_checksum := sbe_get 8 b (8 + 8) |}.

(** The loop over the attributes: the views passed to [on_attr] before it ends. *)
Fixpoint decode_attributes (b : bytes) (n : nat) (pos block : Z)
    : list tp_data_source_meta_attr_view_t * outcome unit :=
  match n with
  | O => ([], Decoded tt)
  | S n' =>
    match sbe_group_next pos block (blen b) with
    | None => ([], Malformed)
    | Some off =>
      match field! key := tp_decode_var_data b (off + block) in
            field! format := tp_decode_var_data b (snd key) in
            field! value := tp_decode_var_data b (snd format) in
            Decoded ({| av_key := fst key; av_format := fst format; av_value := fst value |},
                     snd value) with
      | Decoded (attr, pos') =>
        let '(attrs, r) := decode_attributes b n' pos' block in (attr :: attrs, r)
      | _ => ([], Malformed)
      end
    end
  end.

(** [on_attr]: whether the callback is given. *)
Definition tp_control_decode_data_source_meta (b : bytes) (on_attr : bool)
    : list tp_data_source_meta_attr_view_t * outcome tp_data_source_meta_view_t :=
  match control_header_check b dataSourceMeta_template dataSourceMeta_block with
  | Decoded _ =>
    let pos := messageHeader_encoded_length + dataSourceMeta_block in
    match sbe_group_wrap b pos (blen b) with
    | None => ([], Malformed)
    | Some (block, count) =>
      let view := {| mv_stream_id := sbe_get 4 b (8 + 0); mv_meta_version := sbe_get 4 b (8 + 4);
                     mv_timestamp_ns := sbe_get 8 b (8 + 8); mv_attribute_count := count |} in
      if on_attr then
        let '(attrs, r) := decode_attributes b (Z.to_nat count) (pos + 4) block in
        (attrs, field! _ := r in Decoded view)
      else ([], Decoded view)
    end
  | NotThisMessage => ([], NotThisMessage)
  | Malformed => ([], Malformed)
  | OutOfBounds => ([], OutOfBounds)
  end.

(** ** Dispatch *)

(** The callbacks that are set. *)
Record tp_control_adapter_t := {
  on_shm_pool_announce : bool;
  on_consumer_hello : bool;
  on_consumer_config : bool;
  on_data_source_announce : bool;
  on_data_source_meta_begin : bool;
  on_data_source_meta_attr : bool;
  on_data_source_meta_end : bool;
  on_control_response : bool;
}.

Inductive control_event :=
  | OnShmPoolAnnounce (v : tp_shm_pool_announce_view_t)
  | OnConsumerHello (v : tp_consumer_hello_view_t)
  | OnConsumerConfig (v : tp_consumer_config_view_t)
  | OnDataSourceAnnounce (v : tp_data_source_announce_view_t)
  | OnDataSourceMetaBegin (v : tp_data_source_meta_view_t)
  | OnDataSourceMetaAttr (v : tp_data_source_meta_attr_view_t)
  | OnDataSourceMetaEnd (v : tp_data_source_meta_view_t)
  | OnControlResponse (v : tp_control_response_view_t).

(** The callback made for a decoded message; [None] beyond the fragment. *)
Definition deliver {A} (r : outcome A) (event : A -> list control_event)
    : option (list control_event) :=
  match r with
  | Decoded a => Some (event a)
  | NotThisMessage | Malformed => Some []
  | OutOfBounds => None
  end.

Definition tp_control_fragment_handler (adapter : tp_control_adapter_t) (alloc_ok : bool) (b : bytes)
    : option (list control_event) :=
  if blen b <? messageHeader_encoded_length then Some []
  else if negb (messageHeader_schemaId b =? wire_schema_id) then Some []
  else
    let template_id := messageHeader_templateId b in
    if (template_id =? shmPoolAnnounce_template) && on_shm_pool_announce adapter
    then deliver (tp_control_decode_shm_pool_announce b alloc_ok) (fun v => [OnShmPoolAnnounce v])
    else if (template_id =? consumerHello_template) && on_consumer_hello adapter
    then deliver (tp_control_decode_consumer_hello b) (fun v => [OnConsumerHello v])
    else if (template_id =? consumerConfig_template) && on_consumer_config adapter
    then deliver (tp_control_decode_consumer_config b) (fun v => [OnConsumerConfig v])
    else if (template_id =? controlResponse_template) && on_control_response adapter
    then deliver (tp_control_decode_control_response b) (fun v => [OnControlResponse v])
    else if (template_id =? dataSourceAnnounce_template) && on_data_source_announce adapter
    then deliver (tp_control_decode_data_source_announce b) (fun v => [OnDataSourceAnnounce v])
    else if (template_id =? dataSourceMeta_template) && on_data_source_meta_begin adapter
    then deliver (snd (tp_control_decode_data_source_meta b false)) (fun v =>
      [OnDataSourceMetaBegin v] ++
      (if on_data_source_meta_attr adapter
       then OnDataSourceMetaAttr <$> fst (tp_control_decode_data_source_meta b true) else []) ++
      (if on_data_source_meta_end adapter then [OnDataSourceMetaEnd v] else []))
    else Some [].
End Decoders.

(** ** Every message reaches its callback *)

Section Roundtrip.
Context `{Sbe}.

(** The view of a text: NULL when it is empty. *)
Definition text_view (s : chars) : tp_string_view_t :=
  {| sv_data := if (length s =? 0)%nat then NULL else Some s; sv_length := length s |}.

Lemma var_data_holds b pos s l :
  Forall item_ok l -> holds b pos (Text s :: l) ->
  tp_decode_var_data b pos = Decoded (text_view s, pos + 4 + Z.of_nat (length s)).
Proof.
  intros Hok (Hn & Hs & Hr)%text_bytes. apply holds_room in Hr; [|done].
  unfold tp_decode_var_data. rewrite Hn. destruct (Z.leb_spec (pos + 4) (blen b)); [|lia].
  destruct (Z.leb_spec (pos + 4 + Z.of_nat (length s)) (blen b)); [|lia].
  unfold view_at, text_view. by rewrite Nat2Z.id, Hs.
Qed.

(** What a receiver finds of a message that was sent. *)
Record arrived (b : bytes) (block template : Z) (ws : list write) (l : list item) : Prop := {
  ar_template : messageHeader_templateId b = template;
  ar_schema : messageHeader_schemaId b = wire_schema_id;
  ar_version : messageHeader_version b = wire_schema_version;
  ar_block_length : messageHeader_blockLength b = block;
  ar_length : 8 + block <= blen b;
  ar_block : forall off w v, 0 <= w -> 0 <= off -> off + w <= block ->
    last_write ws off w (inr true) = inl v -> sbe_get w b (8 + off) = v;
  ar_rest_ok : Forall item_ok l;
  ar_rest : holds b (8 + block) l;
}.

Lemma message_arrived block template ws l b fragment :
  is_u16 block -> is_u16 template -> writes_in block ws = true -> Forall write_fits ws ->
  Forall item_ok l ->
  encode (control_header block template :: Block block ws :: l) b = Some fragment ->
  arrived fragment block template ws l.
Proof.
  intros Hb Ht Hin Hfit Hl He.
  assert (Hok : Forall item_ok (control_header block template :: Block block ws :: l)).
  { constructor; [by apply header_item_ok|]. constructor; [|done]. split; [apply Hb|done]. }
  apply encode_holds in He; [|done]. pose proof He as [Hh [Hblk Hr]].
  change (0 + 8) with 8 in Hblk, Hr. pose proof (holds_room _ _ _ Hl Hr).
  split; try done;
    unfold messageHeader_blockLength, messageHeader_templateId, messageHeader_schemaId,
      messageHeader_version;
    [apply (Hh 2 2)|apply (Hh 4 2)|apply (Hh 6 2)|apply (Hh 0 2)]; (reflexivity || lia).
Qed.

Section Arrived.
Context (b : bytes) (block template : Z) (ws : list write) (l : list item).
Context (Harr : arrived b block template ws l) (Hblock : 0 <= block).

Lemma recognised_arrived template' :
  recognised b template' = if template =? template' then Decoded tt else NotThisMessage.
Proof.
  destruct Harr as [E1 E2 _ _ Hl _ _ _]. unfold recognised. rewrite E1, E2.
  destruct (Z.ltb_spec (blen b) messageHeader_encoded_length) as [Hs|_];
    [unfold messageHeader_encoded_length in Hs; lia|].
  rewrite Z.eqb_refl. cbn [negb orb]. by destruct (template =? template').
Qed.

Lemma control_header_arrived template' :
  control_header_check b template' block =
    if template =? template' then Decoded tt else NotThisMessage.
Proof.
  unfold control_header_check. rewrite recognised_arrived.
  destruct (template =? template'); [|done]. destruct Harr as [_ _ E3 E4 Hl _ _ _].
  rewrite E3, E4, Z.eqb_refl. cbn [outcome_bind negb]. unfold messageHeader_encoded_length.
  change (wire_schema_version <? wire_schema_version) with false. cbn [negb].
  destruct (Z.ltb_spec (blen b) (8 + block)); [lia|done].
Qed.

Lemma lax_header_arrived template' :
  lax_header_check b template' block =
    if template =? template' then Decoded (8 + block) else NotThisMessage.
Proof.
  unfold lax_header_check. rewrite recognised_arrived.
  destruct (template =? template'); [|done]. destruct Harr as [_ _ _ E4 Hl _ _ _].
  rewrite E4. cbn [outcome_bind]. unfold messageHeader_encoded_length.
  by destruct (Z.ltb_spec (blen b) (8 + block)); [lia|].
Qed.
End Arrived.

(** Texts one after another. *)
Lemma var_data_arrived b pos s l :
  Forall item_ok (Text s :: l) -> holds b pos (Text s :: l) ->
  tp_decode_var_data b pos = Decoded (text_view s, pos + 4 + Z.of_nat (length s)) /\
  Forall item_ok l /\ holds b (pos + 4 + Z.of_nat (length s)) l.
Proof.
  intros Hok Hh. inversion_clear Hok as [|? ? _ Hl]. split_and!; [by eapply var_data_holds|done|].
  by apply text_bytes in Hh as (_ & _ & ?).
Qed.

End Roundtrip.

(** Reads the block and the texts of a message that arrived. *)
Ltac arrive Ha :=
  let Hb := fresh "Hb" in let Hok := fresh "Hok" in let Hh := fresh "Hh" in
  pose proof (ar_block _ _ _ _ _ Ha) as Hb;
  pose proof (ar_rest_ok _ _ _ _ _ Ha) as Hok; pose proof (ar_rest _ _ _ _ _ Ha) as Hh;
  rewrite ?(control_header_arrived _ _ _ _ _ Ha ltac:(done)),
    ?(lax_header_arrived _ _ _ _ _ Ha ltac:(done)), ?Z.eqb_refl;
  unfold messageHeader_encoded_length, decode_bool, decode_mode; cbn [outcome_bind];
  repeat match goal with
  | H : holds ?b ?pos (Text ?s :: ?l), H' : Forall item_ok (Text ?s :: ?l) |- _ =>
    let E := fresh "E" in
    destruct (var_data_arrived b pos s l H' H) as (E & ? & ?); clear H H'
  end.

(** *** The messages *)

Section Messages.
Context `{Sbe}.


Definition text_small (s : chars) : Prop := Z.of_nat (length s) < 2 ^ 32.

Record hello_ok (h : tp_consumer_hello_t) : Prop := {
  hk_words : Forall is_u32 [he_stream_id h; he_consumer_id h; he_max_rate_hz h;
    he_expected_layout_version h; he_progress_interval_us h; he_progress_bytes_delta h;
    he_progress_major_delta_units h; he_descriptor_stream_id h; he_control_stream_id h];
  hk_flags : he_supports_shm h ∈ bool_values /\ he_supports_progress h ∈ bool_values;
  hk_mode : he_mode h ∈ mode_values;
  hk_texts : Forall text_small [text_of (he_descriptor_channel h); text_of (he_control_channel h)];
}.

Definition hello_view (h : tp_consumer_hello_t) : tp_consumer_hello_view_t :=
  {| hv_stream_id := he_stream_id h; hv_consumer_id := he_consumer_id h;
     hv_supports_shm := he_supports_shm h; hv_supports_progress := he_supports_progress h;
     hv_mode := he_mode h; hv_max_rate_hz := he_max_rate_hz h;
     hv_expected_layout_version := he_expected_layout_version h;
     hv_progress_interval_us := he_progress_interval_us h;
     hv_progress_bytes_delta := he_progress_bytes_delta h;
     hv_progress_major_delta_units := he_progress_major_delta_units h;
     hv_descriptor_stream_id := he_descriptor_stream_id h;
     hv_control_stream_id := he_control_stream_id h;
     hv_descriptor_channel := text_view (text_of (he_descriptor_channel h));
     hv_control_channel := text_view (text_of (he_control_channel h)) |}.

Lemma flag_u8 v : v ∈ bool_values -> is_u8 v.
Proof. unfold bool_values, is_u8. rewrite !elem_of_cons, elem_of_nil. lia. Qed.
Lemma mode_u8 v : v ∈ mode_values -> is_u8 v.
Proof. unfold mode_values, is_u8. rewrite !elem_of_cons, elem_of_nil. lia. Qed.
Lemma optional_u32_id v : optional_u32 v = v.
Proof. unfold optional_u32. by destruct (Z.eqb_spec v TP_NULL_U32). Qed.

Lemma hello_read h items b fragment :
  hello_ok h -> tp_consumer_send_hello h = Ok items -> encode items b = Some fragment ->
  exists ws l, arrived fragment consumerHello_block consumerHello_template ws l /\
    tp_control_decode_consumer_hello fragment = Decoded (hello_view h).
Proof.
  intros [Hw [Hf1 Hf2] Hm Ht] Hs He.
  pose proof (flag_u8 _ Hf1). pose proof (flag_u8 _ Hf2). pose proof (mode_u8 _ Hm).
  unfold tp_consumer_send_hello in Hs. destruct (negb _); [|done]. destruct (negb _); [|done].
  injection Hs as <-. rewrite !optional_u32_id in He. decompose_Forall_hyps.
  apply message_arrived in He as Ha; [|done..|reflexivity|write_fits_tac|].
  2:{ constructor; [by apply text_ok|]. constructor; [by apply text_ok|constructor]. }
  eexists _, _. split; [exact Ha|]. unfold tp_control_decode_consumer_hello. arrive Ha.
  block_field Hb 8 1 (he_supports_shm h). block_field Hb 9 1 (he_supports_progress h).
  block_field Hb 10 1 (he_mode h). rewrite !sbe_enum_valid by done. cbn [require outcome_bind].
  rewrite E. cbn [outcome_bind snd fst]. rewrite E0. cbn [outcome_bind snd fst].
  block_field Hb 0 4 (he_stream_id h). block_field Hb 4 4 (he_consumer_id h).
  block_field Hb 11 4 (he_max_rate_hz h). block_field Hb 15 4 (he_expected_layout_version h).
  block_field Hb 19 4 (he_progress_interval_us h). block_field Hb 23 4 (he_progress_bytes_delta h).
  block_field Hb 27 4 (he_progress_major_delta_units h).
  block_field Hb 31 4 (he_descriptor_stream_id h). block_field Hb 35 4 (he_control_stream_id h).
  by rewrite !optional_u32_id.
Qed.

Record config_ok (c : tp_consumer_config_msg_t) : Prop := {
  ck_words : Forall is_u32 [cf_stream_id c; cf_consumer_id c; cf_descriptor_stream_id c;
    cf_control_stream_id c];
  ck_use_shm : cf_use_shm c ∈ bool_values;
  ck_mode : cf_mode c ∈ mode_values;
  ck_texts : Forall text_small [cf_payload_fallback_uri c; cf_descriptor_channel c;
    cf_control_channel c];
}.

Definition config_view (c : tp_consumer_config_msg_t) : tp_consumer_config_view_t :=
  {| cv_stream_id := cf_stream_id c; cv_consumer_id := cf_consumer_id c;
     cv_use_shm := cf_use_shm c; cv_mode := cf_mode c;
     cv_descriptor_stream_id := cf_descriptor_stream_id c;
     cv_control_stream_id := cf_control_stream_id c;
     cv_payload_fallback_uri := text_view (cf_payload_fallback_uri c);
     cv_descriptor_channel := text_view (cf_descriptor_channel c);
     cv_control_channel := text_view (cf_control_channel c) |}.

Lemma config_read c items b fragment :
  config_ok c -> tp_producer_send_consumer_config c = Ok items -> encode items b = Some fragment ->
  exists ws l, arrived fragment consumerConfig_block consumerConfig_template ws l /\
    tp_control_decode_consumer_config fragment = Decoded (config_view c).
Proof.
  intros [Hw Hf Hm Ht] [= <-] He.
  pose proof (flag_u8 _ Hf). pose proof (mode_u8 _ Hm). decompose_Forall_hyps.
  apply message_arrived in He as Ha; [|done..|reflexivity|write_fits_tac|].
  2:{ repeat (constructor; [by apply text_ok|]). constructor. }
  eexists _, _. split; [exact Ha|]. unfold tp_control_decode_consumer_config. arrive Ha.
  block_field Hb 8 1 (cf_use_shm c). block_field Hb 9 1 (cf_mode c).
  rewrite !sbe_enum_valid by done. cbn [require outcome_bind].
  rewrite E. cbn [outcome_bind snd fst]. rewrite E0. cbn [outcome_bind snd fst]. rewrite E1.
  cbn [outcome_bind snd fst].
  block_field Hb 0 4 (cf_stream_id c). block_field Hb 4 4 (cf_consumer_id c).
  block_field Hb 10 4 (cf_descriptor_stream_id c). by block_field Hb 14 4 (cf_control_stream_id c).
Qed.

Record announce_ok (a : tp_data_source_announce_t) : Prop := {
  dk_words : Forall is_u32 [da_stream_id a; da_producer_id a; da_meta_version a];
  dk_epoch : is_u64 (da_epoch a);
  dk_texts : Forall text_small [text_of (da_name a); text_of (da_summary a)];
}.

Definition announce_view (a : tp_data_source_announce_t) : tp_data_source_announce_view_t :=
  {| dv_stream_id := da_stream_id a; dv_producer_id := da_producer_id a; dv_epoch := da_epoch a;
     dv_meta_version := da_meta_version a; dv_name := text_view (text_of (da_name a));
     dv_summary := text_view (text_of (da_summary a)) |}.

Lemma announce_read a items b fragment :
  announce_ok a -> tp_producer_send_data_source_announce a = Ok items ->
  encode items b = Some fragment ->
  exists ws l, arrived fragment dataSourceAnnounce_block dataSourceAnnounce_template ws l /\
    tp_control_decode_data_source_announce fragment = Decoded (announce_view a).
Proof.
  intros [Hw He64 Ht] [= <-] He. decompose_Forall_hyps.
  apply message_arrived in He as Ha; [|done..|reflexivity|write_fits_tac|].
  2:{ repeat (constructor; [by apply text_ok|]). constructor. }
  eexists _, _. split; [exact Ha|]. unfold tp_control_decode_data_source_announce. arrive Ha.
  rewrite E. cbn [outcome_bind snd fst]. rewrite E0. cbn [outcome_bind snd fst].
  block_field Hb 0 4 (da_stream_id a). block_field Hb 4 4 (da_producer_id a).
  block_field Hb 8 8 (da_epoch a). by block_field Hb 16 4 (da_meta_version a).
Qed.

Record response_ok (r : tp_control_response_t) : Prop := {
  rk_correlation : is_i64 (cr_correlation_id r);
  rk_code : cr_code r ∈ responseCode_values;
  rk_text : text_small (text_of (cr_error_message r));
}.

Definition response_view (r : tp_control_response_t) : tp_control_response_view_t :=
  {| rv_correlation_id := cr_correlation_id r; rv_code := cr_code r;
     rv_error_message := text_view (text_of (cr_error_message r)) |}.

Lemma response_read r items b fragment :
  response_ok r -> tp_producer_send_control_response r = Ok items ->
  encode items b = Some fragment ->
  exists ws l, arrived fragment controlResponse_block controlResponse_template ws l /\
    tp_control_decode_control_response fragment = Decoded (response_view r).
Proof.
  intros [Hc Hcode Ht] [= <-] He.
  apply message_arrived in He as Ha; [|done..|reflexivity|write_fits_tac|].
  2:{ constructor; [by apply text_ok|constructor]. }
  eexists _, _. split; [exact Ha|]. unfold tp_control_decode_control_response. arrive Ha.
  rewrite (response_code _ _ (cr_code r) Hcode
    (Hb 8 4 (u32 (cr_code r)) ltac:(done) ltac:(done) ltac:(done) eq_refl)).
  cbn [require outcome_bind]. rewrite E. cbn [outcome_bind fst].
  block_field Hb 0 8 (u64 (cr_correlation_id r)). by rewrite i64_u64.
Qed.

(** The entries of a group of attributes. *)
Definition attribute_ok (a : tp_meta_attribute_t) : Prop :=
  Forall text_small [ma_key a; ma_format a; ma_value a].

Definition attribute_view (a : tp_meta_attribute_t) : tp_data_source_meta_attr_view_t :=
  {| av_key := text_view (ma_key a); av_format := text_view (ma_format a);
     av_value := text_view (ma_value a) |}.

Lemma attribute_items_ok attrs :
  Forall attribute_ok attrs -> Forall item_ok (mjoin (attribute_items <$> attrs)).
Proof.
  induction 1 as [|a attrs Ha _ IH]; [constructor|]. unfold attribute_ok in Ha.
  decompose_Forall_hyps. constructor; [split; [done|split; [reflexivity|constructor]]|].
  do 3 (constructor; [by apply text_ok|]). exact IH.
Qed.

Lemma attributes_read b attrs : forall pos,
  Forall item_ok (mjoin (attribute_items <$> attrs)) ->
  holds b pos (mjoin (attribute_items <$> attrs)) ->
  decode_attributes b (length attrs) pos attributes_block = (attribute_view <$> attrs, Decoded tt).
Proof.
  induction attrs as [|a attrs IH]; intros pos Hok Hh; [done|].
  cbn [length decode_attributes]. pose proof (holds_room _ _ _ Hok Hh) as Hroom.
  cbn [fmap list_fmap mjoin list_join] in Hok, Hh. unfold attribute_items at 1 in Hok.
  unfold attribute_items at 1 in Hh. cbn [app] in Hok, Hh.
  inversion_clear Hok as [|? ? _ Hok1]. destruct Hh as [_ Hh]. rewrite Z.add_0_r in Hh.
  rewrite sbe_group_next_spec. unfold attributes_block. rewrite Z.add_0_r.
  destruct (Z.leb_spec pos (blen b)); [|lia].
  destruct (var_data_arrived _ _ _ _ Hok1 Hh) as (E1 & Hok2 & Hh2).
  destruct (var_data_arrived _ _ _ _ Hok2 Hh2) as (E2 & Hok3 & Hh3).
  destruct (var_data_arrived _ _ _ _ Hok3 Hh3) as (E3 & Hok4 & Hh4).
  rewrite Z.add_0_r, E1. cbn [outcome_bind fst snd]. rewrite E2. cbn [outcome_bind fst snd].
  rewrite E3. cbn [outcome_bind fst snd].
  change 0 with attributes_block. by rewrite (IH _ Hok4 Hh4).
Qed.

Record meta_ok (m : tp_data_source_meta_t) : Prop := {
  mk_words : Forall is_u32 [dm_stream_id m; dm_meta_version m];
  mk_timestamp : is_u64 (dm_timestamp_ns m);
  mk_attributes : Forall attribute_ok (dm_attributes m);
}.

Definition meta_view (m : tp_data_source_meta_t) : tp_data_source_meta_view_t :=
  {| mv_stream_id := dm_stream_id m; mv_meta_version := dm_meta_version m;
     mv_timestamp_ns := dm_timestamp_ns m;
     mv_attribute_count := Z.of_nat (length (dm_attributes m)) |}.

(** The header of a group, as the generated decoder reads it. *)
Lemma group_arrived b pos block count l :
  Forall item_ok (group_item block count :: l) -> holds b pos (group_item block count :: l) ->
  sbe_group_wrap b pos (blen b) = Some (block, count) /\ Forall item_ok l /\ holds b (pos + 4) l.
Proof.
  intros Hok Hh. inversion_clear Hok as [|? ? _ Hl]. destruct Hh as [Hg Hh].
  pose proof (holds_room _ _ _ Hl Hh). rewrite sbe_group_wrap_spec.
  destruct (Z.leb_spec (pos + 4) (blen b)); [|lia]. split; [|done].
  rewrite (Hg 2 2 count) by (reflexivity || lia).
  pose proof (Hg 0 2 block ltac:(done) ltac:(done) ltac:(done) eq_refl) as E.
  rewrite Z.add_0_r in E. by rewrite E.
Qed.

Lemma group_item_ok block count : is_u16 block -> is_u16 count -> item_ok (group_item block count).
Proof.
  intros. split; [done|]. split; [reflexivity|]. unfold group_header_writes. write_fits_tac.
Qed.

Lemma meta_read m items b fragment :
  meta_ok m -> tp_producer_send_data_source_meta m = Ok items -> encode items b = Some fragment ->
  exists ws l, arrived fragment dataSourceMeta_block dataSourceMeta_template ws l /\
    forall on_attr, tp_control_decode_data_source_meta fragment on_attr =
      (if on_attr then attribute_view <$> dm_attributes m else [], Decoded (meta_view m)).
Proof.
  intros [Hw Ht Hattrs] Hs He. unfold tp_producer_send_data_source_meta in Hs.
  destruct (Z.ltb_spec (Z.of_nat (length (dm_attributes m))) 65535) as [Hn|]; [|done].
  injection Hs as <-. decompose_Forall_hyps.
  apply message_arrived in He as Ha; [|done..|reflexivity|write_fits_tac|].
  2:{ constructor; [apply group_item_ok; [by split|ulia]|by apply attribute_items_ok]. }
  eexists _, _. split; [exact Ha|]. intros on_attr. unfold tp_control_decode_data_source_meta.
  arrive Ha. destruct (group_arrived _ _ _ _ _ Hok Hh) as (Eg & Hok' & Hh').
  rewrite Eg, Nat2Z.id. rewrite (attributes_read _ _ _ Hok' Hh').
  block_field Hb 0 4 (dm_stream_id m). block_field Hb 4 4 (dm_meta_version m).
  block_field Hb 8 8 (dm_timestamp_ns m). by destruct on_attr.
Qed.

(** The pools of an announcement. *)
Definition announced_pool_ok (p : tp_shm_pool_announce_pool_t) : Prop :=
  is_u16 (ap_pool_id p) /\ is_u32 (ap_pool_nslots p) /\ is_u32 (ap_stride_bytes p) /\
  text_small (text_of (ap_region_uri p)).

Definition pool_view (p : tp_shm_pool_announce_pool_t) : tp_shm_pool_desc_t :=
  {| pd_pool_id := ap_pool_id p; pd_nslots := ap_pool_nslots p;
     pd_stride_bytes := ap_stride_bytes p; pd_region_uri := text_view (text_of (ap_region_uri p)) |}.

Lemma announced_items_ok pools :
  Forall announced_pool_ok pools -> Forall item_ok (mjoin (announced_pool_items <$> pools)).
Proof.
  induction 1 as [|p pools (? & ? & ? & ?) _ IH]; [constructor|].
  constructor; [split; [done|split; [reflexivity|write_fits_tac]]|].
  constructor; [by apply text_ok|exact IH].
Qed.

Lemma announced_pools_read b pools rest : forall pos,
  Forall item_ok (mjoin (announced_pool_items <$> pools) ++ rest) ->
  holds b pos (mjoin (announced_pool_items <$> pools) ++ rest) ->
  exists pos', decode_announced_pools b (length pools) pos announcedPools_block =
    Decoded (pool_view <$> pools, pos') /\ Forall item_ok rest /\ holds b pos' rest.
Proof.
  induction pools as [|p pools IH]; intros pos Hok Hh; [by exists pos|].
  cbn [fmap list_fmap mjoin list_join] in Hok, Hh. unfold announced_pool_items at 1 in Hok.
  unfold announced_pool_items at 1 in Hh. cbn [app] in Hok, Hh.
  inversion_clear Hok as [|? ? _ Hok1]. destruct Hh as [Hb Hh].
  pose proof (holds_room _ _ _ Hok1 Hh) as Hroom.
  destruct (var_data_arrived _ _ _ _ Hok1 Hh) as (E1 & Hok2 & Hh2).
  destruct (IH _ Hok2 Hh2) as (pos' & E & Hr). exists pos'. split; [|exact Hr].
  cbn [length decode_announced_pools]. rewrite sbe_group_next_spec.
  destruct (Z.leb_spec (pos + announcedPools_block) (blen b)); [|lia].
  destruct (Z.ltb_spec (blen b) (pos + announcedPools_block)); [lia|].
  rewrite E1. cbn [outcome_bind fst snd]. rewrite E. cbn [outcome_bind fst snd].
  pose proof (Hb 0 2 (ap_pool_id p) ltac:(done) ltac:(done) ltac:(done) eq_refl) as E0.
  rewrite Z.add_0_r in E0. rewrite E0.
  block_field Hb 2 4 (ap_pool_nslots p). by block_field Hb 6 4 (ap_stride_bytes p).
Qed.

Record pool_announce_ok (a : tp_shm_pool_announce_t) : Prop := {
  nk_words : Forall is_u32 [an_stream_id a; an_producer_id a; an_layout_version a; an_header_nslots a];
  nk_longs : Forall is_u64 [an_epoch a; an_announce_timestamp_ns a];
  nk_slot_bytes : is_u16 (an_header_slot_bytes a);
  nk_clock_domain : an_announce_clock_domain a ∈ clockDomain_values;
  nk_uri : text_small (text_of (an_header_region_uri a));
  nk_pools : Forall announced_pool_ok (default [] (an_pools a));
}.

Definition pool_announce_view (a : tp_shm_pool_announce_t) : tp_shm_pool_announce_view_t :=
  {| pv_stream_id := an_stream_id a; pv_producer_id := an_producer_id a; pv_epoch := an_epoch a;
     pv_announce_timestamp_ns := an_announce_timestamp_ns a;
     pv_announce_clock_domain := an_announce_clock_domain a;
     pv_layout_version := an_layout_version a; pv_header_nslots := an_header_nslots a;
     pv_header_slot_bytes := an_header_slot_bytes a;
     pv_header_region_uri := text_view (text_of (an_header_region_uri a));
     pv_pools := pool_view <$> default [] (an_pools a) |}.

(** Both senders write these parts, the driver also when it has no pools. *)
Lemma pool_announce_read a b fragment :
  pool_announce_ok a -> Z.of_nat (length (default [] (an_pools a))) < 65535 ->
  encode (driver_announce_items a) b = Some fragment ->
  exists ws l, arrived fragment shmPoolAnnounce_block shmPoolAnnounce_template ws l /\
    tp_control_decode_shm_pool_announce fragment true = Decoded (pool_announce_view a).
Proof.
  intros [Hw Hl Hs Hd Hu Hp] Hn He. decompose_Forall_hyps.
  assert (Hd8 : is_u8 (an_announce_clock_domain a))
    by (unfold clockDomain_values in Hd; rewrite !elem_of_cons, elem_of_nil in Hd; unfold is_u8; lia).
  unfold driver_announce_items, pool_announce_head in He. cbn [app] in He.
  set (pools := default [] (an_pools a)) in *.
  apply message_arrived in He as Ha; [|done..|reflexivity|write_fits_tac|].
  2:{ constructor; [apply group_item_ok; [by split|ulia]|]. apply Forall_app_2; [by apply announced_items_ok|].
      constructor; [by apply text_ok|constructor]. }
  eexists _, _. split; [exact Ha|]. unfold tp_control_decode_shm_pool_announce. arrive Ha.
  block_field Hb 24 1 (an_announce_clock_domain a). rewrite sbe_enum_valid by done.
  cbn [require outcome_bind]. destruct (group_arrived _ _ _ _ _ Hok Hh) as (Eg & Hok' & Hh').
  rewrite Eg, orb_true_r, Nat2Z.id.
  destruct (announced_pools_read _ _ _ _ Hok' Hh') as (pos' & Ep & Hok2 & Hh2).
  rewrite Ep. cbn [outcome_bind fst snd].
  destruct (var_data_arrived _ _ _ _ Hok2 Hh2) as (Eu & _). rewrite Eu. cbn [outcome_bind fst].
  block_field Hb 0 4 (an_stream_id a). block_field Hb 4 4 (an_producer_id a).
  block_field Hb 8 8 (an_epoch a). block_field Hb 16 8 (an_announce_timestamp_ns a).
  block_field Hb 25 4 (an_layout_version a). block_field Hb 29 4 (an_header_nslots a).
  block_field Hb 33 2 (an_header_slot_bytes a). by rewrite u8_small.
Qed.

Inductive control_message :=
  | SentHello (h : tp_consumer_hello_t)
  | SentConfig (c : tp_consumer_config_msg_t)
  | SentSource (a : tp_data_source_announce_t)
  | SentMeta (m : tp_data_source_meta_t)
  | SentPools (a : tp_shm_pool_announce_t)
  | SentResponse (r : tp_control_response_t).

Definition control_items (m : control_message) : res (list item) :=
  match m with
  | SentHello h => tp_consumer_send_hello h
  | SentConfig c => tp_producer_send_consumer_config c
  | SentSource a => tp_producer_send_data_source_announce a
  | SentMeta m => tp_producer_send_data_source_meta m
  | SentPools a => tp_producer_send_shm_pool_announce a
  | SentResponse r => tp_producer_send_control_response r
  end.

Definition control_message_ok (m : control_message) : Prop :=
  match m with
  | SentHello h => hello_ok h
  | SentConfig c => config_ok c
  | SentSource a => announce_ok a
  | SentMeta m => meta_ok m
  | SentPools a => pool_announce_ok a
  | SentResponse r => response_ok r
  end.

(** The callbacks a message must cause. *)
Definition control_events (adapter : tp_control_adapter_t) (m : control_message)
    : list control_event :=
  let call (set : bool) e := if set then [e] else [] in
  match m with
  | SentHello h => call (on_consumer_hello adapter) (OnConsumerHello (hello_view h))
  | SentConfig c => call (on_consumer_config adapter) (OnConsumerConfig (config_view c))
  | SentSource a => call (on_data_source_announce adapter) (OnDataSourceAnnounce (announce_view a))
  | SentMeta m =>
    if on_data_source_meta_begin adapter then
      [OnDataSourceMetaBegin (meta_view m)] ++
      (if on_data_source_meta_attr adapter
       then OnDataSourceMetaAttr <$> (attribute_view <$> dm_attributes m) else []) ++
      (if on_data_source_meta_end adapter then [OnDataSourceMetaEnd (meta_view m)] else [])
    else []
  | SentPools a => call (on_shm_pool_announce adapter) (OnShmPoolAnnounce (pool_announce_view a))
  | SentResponse r => call (on_control_response adapter) (OnControlResponse (response_view r))
  end.

(** A producer's announcement consists of the parts the driver's consists of. *)
Lemma pool_announce_items a items :
  tp_producer_send_shm_pool_announce a = Ok items ->
  items = driver_announce_items a /\ Z.of_nat (length (default [] (an_pools a))) < 65535 /\
  default [] (an_pools a) <> [].
Proof.
  unfold tp_producer_send_shm_pool_announce, driver_announce_items.
  destruct (an_pools a) as [[|p pools]|]; [done| |done]. destruct (negb _); [|done].
  destruct (Z.ltb_spec (Z.of_nat (length (p :: pools))) 65535); [|done]. by intros [= <-].
Qed.

Lemma handler_arrived b block template ws l :
  arrived b block template ws l -> 0 <= block ->
  (blen b <? messageHeader_encoded_length) = false /\
  (messageHeader_schemaId b =? wire_schema_id) = true /\ messageHeader_templateId b = template.
Proof.
  intros [E1 E2 _ _ Hl _ _ _] ?. rewrite E1, E2. unfold messageHeader_encoded_length.
  destruct (Z.ltb_spec (blen b) 8); [lia|done].
Qed.

(** C20: A control message that fits its buffer makes the receiver call the callback
    set for its kind with exactly the values and texts sent, the attributes of a
    data source between the begin and the end, and no other callback. *)
Theorem control_dispatch adapter m items b fragment :
  control_message_ok m -> control_items m = Ok items -> encode items b = Some fragment ->
  tp_control_fragment_handler adapter true fragment = Some (control_events adapter m).
Proof.
  intros Hm Hi He. unfold tp_control_fragment_handler.
  assert (exists block ws l template, arrived fragment block template ws l /\ 0 <= block /\
    match m with
    | SentHello h => template = consumerHello_template /\
        tp_control_decode_consumer_hello fragment = Decoded (hello_view h)
    | SentConfig c => template = consumerConfig_template /\
        tp_control_decode_consumer_config fragment = Decoded (config_view c)
    | SentSource a => template = dataSourceAnnounce_template /\
        tp_control_decode_data_source_announce fragment = Decoded (announce_view a)
    | SentMeta m => template = dataSourceMeta_template /\
        forall on_attr, tp_control_decode_data_source_meta fragment on_attr =
          (if on_attr then attribute_view <$> dm_attributes m else [], Decoded (meta_view m))
    | SentPools a => template = shmPoolAnnounce_template /\
        tp_control_decode_shm_pool_announce fragment true = Decoded (pool_announce_view a)
    | SentResponse r => template = controlResponse_template /\
        tp_control_decode_control_response fragment = Decoded (response_view r)
    end) as (block & ws & l & template & Ha & Hblock & Hd).
  { destruct m as [h|c|a|m|a|r]; cbn [control_items control_message_ok] in *.
    - destruct (hello_read _ _ _ _ Hm Hi He) as (ws & l & Ha & E). by eexists _, ws, l, _.
    - destruct (config_read _ _ _ _ Hm Hi He) as (ws & l & Ha & E). by eexists _, ws, l, _.
    - destruct (announce_read _ _ _ _ Hm Hi He) as (ws & l & Ha & E). by eexists _, ws, l, _.
    - destruct (meta_read _ _ _ _ Hm Hi He) as (ws & l & Ha & E). by eexists _, ws, l, _.
    - destruct (pool_announce_items _ _ Hi) as (-> & Hn & _).
      destruct (pool_announce_read _ _ _ Hm Hn He) as (ws & l & Ha & E). by eexists _, ws, l, _.
    - destruct (response_read _ _ _ _ Hm Hi He) as (ws & l & Ha & E). by eexists _, ws, l, _. }
  destruct (handler_arrived _ _ _ _ _ Ha Hblock) as (E1 & E2 & E3).
  rewrite E1, E2, E3. cbn [negb]. clear - Hd.
  destruct m as [h|c|a|m|a|r]; destruct Hd as [-> Hd]; cbn -[tp_control_decode_consumer_hello
    tp_control_decode_consumer_config tp_control_decode_data_source_announce
    tp_control_decode_data_source_meta tp_control_decode_shm_pool_announce
    tp_control_decode_control_response]; [..|by rewrite Hd; destruct (on_control_response adapter)].
  - rewrite Hd. by destruct (on_consumer_hello adapter).
  - rewrite Hd. by destruct (on_consumer_config adapter).
  - rewrite Hd. by destruct (on_data_source_announce adapter).
  - rewrite !Hd. by destruct (on_data_source_meta_begin adapter).
  - rewrite Hd. by destruct (on_shm_pool_announce adapter).
Qed.
End Messages.

(** ** Whatever bytes arrive *)

Section Sound.
Context `{Sbe}.

(** A view into the fragment, past its header. *)
Definition text_inside (b : bytes) (v : tp_string_view_t) : Prop :=
  exists pos, 8 <= pos /\ pos + Z.of_nat (sv_length v) <= blen b /\ v = view_at b pos (sv_length v).

Definition flag_typed (valid : list Z) (v : Z) : Prop := v ∈ valid \/ v = uint8_null.

Definition event_typed (b : bytes) (e : control_event) : Prop :=
  match e with
  | OnShmPoolAnnounce v =>
    Forall is_u32 [pv_stream_id v; pv_producer_id v; pv_layout_version v; pv_header_nslots v] /\
    Forall is_u64 [pv_epoch v; pv_announce_timestamp_ns v] /\ is_u16 (pv_header_slot_bytes v) /\
    flag_typed clockDomain_values (pv_announce_clock_domain v) /\
    text_inside b (pv_header_region_uri v) /\
    Forall (fun p => is_u16 (pd_pool_id p) /\ is_u32 (pd_nslots p) /\ is_u32 (pd_stride_bytes p) /\
                     text_inside b (pd_region_uri p)) (pv_pools v)
  | OnConsumerHello v =>
    Forall is_u32 [hv_stream_id v; hv_consumer_id v; hv_max_rate_hz v; hv_expected_layout_version v;
      hv_progress_interval_us v; hv_progress_bytes_delta v; hv_progress_major_delta_units v;
      hv_descriptor_stream_id v; hv_control_stream_id v] /\
    flag_typed bool_values (hv_supports_shm v) /\ flag_typed bool_values (hv_supports_progress v) /\
    flag_typed mode_values (hv_mode v) /\
    text_inside b (hv_descriptor_channel v) /\ text_inside b (hv_control_channel v)
  | OnConsumerConfig v =>
    Forall is_u32 [cv_stream_id v; cv_consumer_id v; cv_descriptor_stream_id v;
      cv_control_stream_id v] /\
    flag_typed bool_values (cv_use_shm v) /\ flag_typed mode_values (cv_mode v) /\
    text_inside b (cv_payload_fallback_uri v) /\ text_inside b (cv_descriptor_channel v) /\
    text_inside b (cv_control_channel v)
  | OnDataSourceAnnounce v =>
    Forall is_u32 [dv_stream_id v; dv_producer_id v; dv_meta_version v] /\ is_u64 (dv_epoch v) /\
    text_inside b (dv_name v) /\ text_inside b (dv_summary v)
  | OnDataSourceMetaBegin v | OnDataSourceMetaEnd v =>
    Forall is_u32 [mv_stream_id v; mv_meta_version v] /\ is_u64 (mv_timestamp_ns v) /\
    is_u16 (mv_attribute_count v)
  | OnDataSourceMetaAttr v =>
    text_inside b (av_key v) /\ text_inside b (av_format v) /\ text_inside b (av_value v)
  | OnControlResponse v =>
    is_i64 (rv_correlation_id v) /\ (rv_code v ∈ responseCode_values \/ rv_code v = responseCode_null) /\
    text_inside b (rv_error_message v)
  end.

(** The block the schema gives a message. *)
Definition schema_block (template : Z) : Z :=
  if template =? shmPoolAnnounce_template then shmPoolAnnounce_block
  else if template =? consumerHello_template then consumerHello_block
  else if template =? consumerConfig_template then consumerConfig_block
  else if template =? controlResponse_template then controlResponse_block
  else if template =? dataSourceAnnounce_template then dataSourceAnnounce_block
  else dataSourceMeta_block.

(** The fragments a decoder reads beyond: shorter than the block of the schema or
    than the block length in their header, or an announcement whose pools have a
    block shorter than the schema's. *)
Definition overread (b : bytes) : Prop :=
  let template := messageHeader_templateId b in
  blen b < 8 + schema_block template \/ blen b < 8 + messageHeader_blockLength b \/
  (template = shmPoolAnnounce_template /\ sbe_get 2 b (8 + shmPoolAnnounce_block) < announcedPools_block).

(** Results of a decoder. *)
Definition sound {A} (over : Prop) (P : A -> Prop) (r : outcome A) : Prop :=
  match r with
  | Decoded a => P a
  | NotThisMessage | Malformed => True
  | OutOfBounds => over
  end.

Lemma sound_bind {A B} over (Q : A -> Prop) (P : B -> Prop) (m : outcome A) (k : A -> outcome B) :
  sound over Q m -> (forall a, Q a -> sound over P (k a)) -> sound over P (outcome_bind m k).
Proof. destruct m; simpl; auto. Qed.

Lemma sound_check {A} over (P : A -> Prop) (c : bool) (r : outcome A) :
  (c = true -> sound over P r) -> sound over P (check! c in r).
Proof. destruct c; simpl; auto. Qed.

Lemma sound_enum over valid null raw :
  sound over (fun v => v = raw /\ (v ∈ valid \/ v = null)) (require (sbe_enum valid null raw)).
Proof.
  destruct (sbe_enum valid null raw) as [v|] eqn:E; [|done].
  apply sbe_enum_sound in E as [-> ?]. by split.
Qed.

Lemma sound_var_data over b pos : 8 <= pos ->
  sound over (fun r => text_inside b (fst r) /\ pos + 4 <= snd r <= blen b) (tp_decode_var_data b pos).
Proof.
  intros Hp. unfold tp_decode_var_data. apply sound_check. intros H1%Z.leb_le.
  apply sound_check. intros H2%Z.leb_le. pose proof (sbe_get_range 4 b pos ltac:(lia)).
  cbn [sound fst snd]. split; [|lia]. exists (pos + 4). cbn [sv_length view_at].
  split; [lia|]. split; [lia|done].
Qed.

Lemma get_u8 b off : is_u8 (sbe_get 1 b off). Proof. by apply (sbe_get_range 1). Qed.
Lemma get_u16 b off : is_u16 (sbe_get 2 b off). Proof. by apply (sbe_get_range 2). Qed.
Lemma get_u32 b off : is_u32 (sbe_get 4 b off). Proof. by apply (sbe_get_range 4). Qed.
Lemma get_u64 b off : is_u64 (sbe_get 8 b off). Proof. by apply (sbe_get_range 8). Qed.

Lemma recognised_sound over b template :
  sound over (fun _ => messageHeader_templateId b = template) (recognised b template).
Proof.
  unfold recognised. apply sound_check. intros _. destruct (_ || _) eqn:E; [done|].
  apply orb_false_iff in E as [_ E]. by apply negb_false_iff, Z.eqb_eq in E.
Qed.

Lemma control_header_sound b template block :
  block = schema_block template ->
  sound (overread b) (fun _ => messageHeader_templateId b = template)
    (control_header_check b template block).
Proof.
  intros ->. unfold control_header_check. eapply sound_bind; [apply recognised_sound|].
  intros [] Ht. apply sound_check. intros _. apply sound_check. intros _.
  unfold messageHeader_encoded_length. destruct (Z.ltb_spec (blen b) (8 + schema_block template));
    [|done]. left. by rewrite Ht.
Qed.

Lemma lax_header_sound b template block :
  block = schema_block template ->
  sound (overread b) (fun pos => 8 <= pos) (lax_header_check b template block).
Proof.
  intros ->. unfold lax_header_check. eapply sound_bind; [apply recognised_sound|].
  intros [] Ht. unfold messageHeader_encoded_length.
  destruct (Z.ltb_spec (blen b) (8 + schema_block template)); [left; by rewrite Ht|].
  destruct (Z.ltb_spec (blen b) (8 + messageHeader_blockLength b)); [by right; left|].
  pose proof (get_u16 b 0). cbn [orb sound]. unfold messageHeader_blockLength. ulia.
Qed.

Lemma pools_sound b n : forall pos block, 8 <= pos -> 0 <= block ->
  (block < announcedPools_block -> overread b) ->
  sound (overread b) (fun r => 8 <= snd r /\
    Forall (fun p => is_u16 (pd_pool_id p) /\ is_u32 (pd_nslots p) /\ is_u32 (pd_stride_bytes p) /\
                     text_inside b (pd_region_uri p)) (fst r))
    (decode_announced_pools b n pos block).
Proof.
  induction n as [|n IH]; intros pos block Hp Hb Hover; cbn [decode_announced_pools]; [by split|].
  rewrite sbe_group_next_spec. destruct (Z.leb_spec (pos + block) (blen b)); [|done].
  destruct (Z.ltb_spec (blen b) (pos + announcedPools_block)); [apply Hover; lia|].
  eapply sound_bind; [apply sound_var_data; lia|]. intros [uri next] [Hu Hn].
  eapply sound_bind; [apply IH; [cbn [snd] in *; lia|done|done]|].
  intros [rest pos'] [Hp' Hrest]. split; [done|]. constructor; [|done].
  split_and!; [apply get_u16|apply get_u32..|done].
Qed.

Lemma attributes_sound b n : forall pos block, 8 <= pos -> 0 <= block ->
  Forall (fun v => event_typed b (OnDataSourceMetaAttr v)) (fst (decode_attributes b n pos block)) /\
  snd (decode_attributes b n pos block) <> OutOfBounds.
Proof.
  induction n as [|n IH]; intros pos block Hp Hb; cbn [decode_attributes]; [done|].
  rewrite sbe_group_next_spec. destruct (Z.leb_spec (pos + block) (blen b)); [|done].
  set (m := outcome_bind _ _).
  assert (Hm : sound False (fun r => event_typed b (OnDataSourceMetaAttr (fst r)) /\ 8 <= snd r) m).
  { unfold m. eapply sound_bind; [apply sound_var_data; lia|]. intros [key p1] [Hk H1].
    eapply sound_bind; [apply sound_var_data; cbn [snd] in *; lia|]. intros [format p2] [Hf H2].
    eapply sound_bind; [apply sound_var_data; cbn [snd] in *; lia|]. intros [value p3] [Hv H3].
    cbn [sound fst snd] in *. split; [by split_and!|lia]. }
  destruct m as [[attr pos']| | |]; [|done..]. destruct Hm as [Ha Hp']. cbn [snd] in Hp'.
  destruct (IH pos' block Hp' Hb) as [H1 H2].
  destruct (decode_attributes b n pos' block) as [attrs r]. split; [by constructor|done].
Qed.

Lemma i64_range z : is_i64 (i64 z).
Proof. unfold is_i64, i64. pose proof (Z.mod_pos_bound (z + 2 ^ 63) (2 ^ 64)). lia. Qed.

(** Steps through a decoder: its texts, its enumerations, its header. *)
Ltac sound_text := eapply sound_bind; [apply sound_var_data; cbn [snd] in *; lia|];
  let v := fresh "v" in let n := fresh "n" in let Hv := fresh "Hv" in let Hn := fresh "Hn" in
  intros [v n] [Hv Hn]; cbn [fst snd] in Hv, Hn |- *.
Ltac sound_enum_step := unfold decode_bool, decode_mode; eapply sound_bind; [apply sound_enum|];
  let v := fresh "v" in let Hv := fresh "Hv" in intros v [-> Hv]; cbv beta.
Ltac get_ranges := repeat (apply Forall_nil_2 || apply Forall_cons_2);
  rewrite ?optional_u32_id; first [apply get_u32|apply get_u64|apply get_u16].

Lemma hello_sound b :
  sound (overread b) (fun v => event_typed b (OnConsumerHello v)) (tp_control_decode_consumer_hello b).
Proof.
  eapply sound_bind; [by apply control_header_sound|]. intros _ _; cbv beta.
  change (messageHeader_encoded_length + consumerHello_block) with 47.
  do 3 sound_enum_step. do 2 sound_text. cbn. split_and!; try done. get_ranges.
Qed.

Lemma config_sound b :
  sound (overread b) (fun v => event_typed b (OnConsumerConfig v)) (tp_control_decode_consumer_config b).
Proof.
  eapply sound_bind; [by apply control_header_sound|]. intros _ _; cbv beta.
  change (messageHeader_encoded_length + consumerConfig_block) with 26.
  do 2 sound_enum_step. do 3 sound_text. cbn. split_and!; try done. get_ranges.
Qed.

Lemma source_sound b :
  sound (overread b) (fun v => event_typed b (OnDataSourceAnnounce v))
    (tp_control_decode_data_source_announce b).
Proof.
  eapply sound_bind; [by apply lax_header_sound|]. intros pos Hpos.
  do 2 sound_text. cbn. split_and!; try done; get_ranges.
Qed.

Lemma response_sound b :
  sound (overread b) (fun v => event_typed b (OnControlResponse v))
    (tp_control_decode_control_response b).
Proof.
  eapply sound_bind; [by apply lax_header_sound|]. intros pos Hpos.
  sound_enum_step. sound_text. cbn. split_and!; try done. apply i64_range.
Qed.

Lemma pool_announce_sound b alloc_ok :
  sound (overread b) (fun v => event_typed b (OnShmPoolAnnounce v))
    (tp_control_decode_shm_pool_announce b alloc_ok).
Proof.
  unfold tp_control_decode_shm_pool_announce.
  eapply sound_bind; [by apply control_header_sound|]. intros [] Ht. sound_enum_step.
  rewrite sbe_group_wrap_spec. destruct (_ <=? blen b); [|done].
  apply sound_check. intros _. pose proof (get_u16 b (8 + shmPoolAnnounce_block)).
  eapply sound_bind.
  { apply pools_sound; [done|unfold messageHeader_encoded_length; ulia|]. intros Hs. by right; right. }
  intros [pools pos] [Hp Hpools]. cbn [fst snd] in *. sound_text. cbn.
  assert (E : u8 (sbe_get 1 b (8 + 24)) = sbe_get 1 b (8 + 24)) by apply u8_small, get_u8.
  rewrite E. split_and!; try done; get_ranges.
Qed.

Lemma meta_sound b on_attr :
  Forall (fun v => event_typed b (OnDataSourceMetaAttr v))
    (fst (tp_control_decode_data_source_meta b on_attr)) /\
  sound (overread b) (fun v => event_typed b (OnDataSourceMetaBegin v))
    (snd (tp_control_decode_data_source_meta b on_attr)).
Proof.
  unfold tp_control_decode_data_source_meta.
  pose proof (control_header_sound b dataSourceMeta_template dataSourceMeta_block eq_refl) as Hh.
  destruct (control_header_check _ _ _); [|done..]. clear Hh.
  rewrite sbe_group_wrap_spec. destruct (_ <=? blen b); [|done].
  pose proof (get_u16 b (messageHeader_encoded_length + dataSourceMeta_block)).
  pose proof (get_u16 b (messageHeader_encoded_length + dataSourceMeta_block + 2)).
  assert (Hv : forall count, is_u16 count ->
    event_typed b (OnDataSourceMetaBegin {| mv_stream_id := sbe_get 4 b (8 + 0);
      mv_meta_version := sbe_get 4 b (8 + 4); mv_timestamp_ns := sbe_get 8 b (8 + 8);
      mv_attribute_count := count |})) by (intros; cbn; split_and!; try done; get_ranges).
  destruct on_attr; [|by split; [|apply Hv]].
  match goal with |- context [decode_attributes b ?n ?pos ?block] =>
    destruct (attributes_sound b n pos block) as [Hattrs Hr]; [done|ulia|];
    destruct (decode_attributes b n pos block) as [attrs r] end.
  split; [done|]. destruct r as [[]| | |]; [by apply Hv|done..].
Qed.

Lemma deliver_sound {A} b (P : A -> Prop) (r : outcome A) (event : A -> list control_event) :
  sound (overread b) P r -> (forall a, P a -> Forall (event_typed b) (event a)) ->
  match deliver r event with
  | Some events => Forall (event_typed b) events
  | None => overread b
  end.
Proof. destruct r; simpl; [auto|by constructor..|auto]. Qed.

(** C37: A fragment that no decoder reads beyond gives every callback well-typed
    values: fields within their width, enumerators and flags that are values of the
    schema or its null value 255, which the code hands on, and texts that are NULL
    when empty and otherwise lie within the fragment past its header.  A decoder
    reads beyond a fragment only when it is shorter than the block of its message, or
    than the block length it names, or when the entries of its group of pools are
    shorter than the schema's; nothing is claimed of what callbacks get then. *)
Theorem control_fragment_sound adapter alloc_ok b :
  match tp_control_fragment_handler adapter alloc_ok b with
  | Some events => Forall (event_typed b) events
  | None => overread b
  end.
Proof.
  unfold tp_control_fragment_handler. destruct (_ <? _); [constructor|].
  destruct (negb _); [constructor|].
  destruct (_ && on_shm_pool_announce adapter).
  { eapply deliver_sound; [apply pool_announce_sound|]. by constructor. }
  destruct (_ && on_consumer_hello adapter).
  { eapply deliver_sound; [apply hello_sound|]. by constructor. }
  destruct (_ && on_consumer_config adapter).
  { eapply deliver_sound; [apply config_sound|]. by constructor. }
  destruct (_ && on_control_response adapter).
  { eapply deliver_sound; [apply response_sound|]. by constructor. }
  destruct (_ && on_data_source_announce adapter).
  { eapply deliver_sound; [apply source_sound|]. by constructor. }
  destruct (_ && on_data_source_meta_begin adapter); [|constructor].
  eapply deliver_sound; [apply (meta_sound b false)|]. intros v Hv.
  constructor; [exact Hv|]. apply Forall_app_2.
  - destruct (on_data_source_meta_attr adapter); [|constructor].
    apply Forall_fmap. exact (proj1 (meta_sound b true)).
  - destruct (on_data_source_meta_end adapter); [|constructor]. by constructor.
Qed.
End Sound.

(** *** Concrete messages *)

#[local] Existing Instance le_sbe.

Definition demo_adapter : tp_control_adapter_t :=
  {| on_shm_pool_announce := true; on_consumer_hello := true; on_consumer_config := true;
     on_data_source_announce := true; on_data_source_meta_begin := true;
     on_data_source_meta_attr := true; on_data_source_meta_end := true;
     on_control_response := true |}.

Definition demo_meta : tp_data_source_meta_t :=
  {| dm_stream_id := 7; dm_meta_version := 2; dm_timestamp_ns := 99;
     dm_attributes := [{| ma_key := lit "camera"; ma_format := lit "text"; ma_value := lit "left" |};
                       {| ma_key := lit "note"; ma_format := []; ma_value := [] |}] |}.

Lemma control_dispatch_witness :
  exists fragment : bytes, (18 < length fragment)%nat /\
    tp_control_fragment_handler demo_adapter true fragment =
      Some [OnDataSourceMetaBegin (meta_view demo_meta);
            OnDataSourceMetaAttr {| av_key := text_view (lit "camera");
              av_format := text_view (lit "text"); av_value := text_view (lit "left") |};
            OnDataSourceMetaAttr {| av_key := text_view (lit "note");
              av_format := text_view []; av_value := text_view [] |};
            OnDataSourceMetaEnd (meta_view demo_meta)].
Proof.
  destruct (tp_producer_send_data_source_meta demo_meta) as [items|] eqn:Ei;
    [|vm_compute in Ei; discriminate Ei].
  destruct (encode items (repeat 0 512)) as [fragment|] eqn:E;
    [|vm_compute in Ei; injection Ei as <-; vm_compute in E; discriminate E].
  exists fragment. split.
  - vm_compute in Ei. injection Ei as <-. vm_compute in E. injection E as <-. vm_compute. lia.
  - apply (control_dispatch demo_adapter (SentMeta demo_meta) items (repeat 0 512));
      [|exact Ei|exact E].
    split; [repeat constructor; (discriminate || reflexivity)|split; (discriminate || reflexivity)|..];
      repeat constructor; (discriminate || reflexivity).
Defined.

Lemma control_fragment_sound_witness :
  exists fragment events, tp_control_fragment_handler demo_adapter true fragment = Some events /\
    length events = 4%nat /\ Forall (event_typed fragment) events.
Proof.
  destruct (tp_producer_send_data_source_meta demo_meta) as [items|] eqn:Ei;
    [|vm_compute in Ei; discriminate Ei].
  destruct (encode items (repeat 0 512)) as [fragment|] eqn:E;
    [|vm_compute in Ei; injection Ei as <-; vm_compute in E; discriminate E].
  pose proof (control_fragment_sound demo_adapter true fragment) as Hs.
  destruct (tp_control_fragment_handler demo_adapter true fragment) as [events|] eqn:Ef.
  - exists fragment, events. split; [exact Ef|]. split; [|exact Hs].
    vm_compute in Ei. injection Ei as <-. vm_compute in E. injection E as <-.
    vm_compute in Ef. injection Ef as <-. reflexivity.
  - vm_compute in Ei. injection Ei as <-. vm_compute in E. injection E as <-.
    vm_compute in Ef. discriminate Ef.
Defined.

(** A hello of eight bytes, the header alone, is read beyond its end. *)
Example short_hello_overread :
  tp_control_fragment_handler demo_adapter true
    (default [] (encode [control_header consumerHello_block consumerHello_template] (repeat 0 8))) = None.
Proof. vm_compute. reflexivity. Qed.
