(* ===== verification/Metadata.v ===== *)
(** * Metadata: metadata and quality-of-service pollers (tp_metadata_poller.c, tp_qos.c)

    A producer describes its data with announcements and attributes, and sends
    larger descriptions as blobs: an announcement, chunks, a completion.
    [Blob] models the poller that checks the parts of a blob as they arrive: the
    application sees a completion only of a blob it has received whole.  [Qos]
    models the reports of producers and consumers.  Callbacks are events, in the
    order in which they are made. *)

From Stdlib Require Import ZArith Lia Bool Ascii String.
From stdpp Require Import strings.
From S2P Require Import Prelude Sbe Uri Message ConsumerManager DriverMessages Control.

#[local] Open Scope Z_scope.
#[local] Open Scope list_scope.

Module Blob.

(** The callbacks that are set. *)
Record tp_metadata_handlers_t := {
  mh_on_data_source_announce : bool;
  mh_on_data_source_meta_begin : bool;
  mh_on_data_source_meta_attr : bool;
  mh_on_data_source_meta_end : bool;
  mh_on_meta_blob_announce : bool;
  mh_on_meta_blob_chunk : bool;
  mh_on_meta_blob_complete : bool;
}.

Record tp_metadata_poller_t := {
  mp_handlers : tp_metadata_handlers_t;
  mp_blob_active : bool;
  mp_blob_stream_id : Z;
  mp_blob_meta_version : Z;
  mp_blob_type : Z;
  mp_blob_total_len : Z;
  mp_blob_checksum : Z;
  mp_blob_next_offset : Z;
}.

Inductive metadata_event :=
  | OnSource (v : tp_data_source_announce_view_t)
  | OnMetaBegin (v : tp_data_source_meta_view_t)
  | OnMetaAttr (v : tp_data_source_meta_attr_view_t)
  | OnMetaEnd (v : tp_data_source_meta_view_t)
  | OnBlobAnnounce (v : tp_meta_blob_announce_t)
  | OnBlobChunk (v : tp_meta_blob_chunk_view_t)
  | OnBlobComplete (v : tp_meta_blob_complete_t).

Definition tp_metadata_blob_reset (p : tp_metadata_poller_t) : tp_metadata_poller_t :=
  {| mp_handlers := mp_handlers p; mp_blob_active := false; mp_blob_stream_id := 0;
     mp_blob_meta_version := 0; mp_blob_type := 0; mp_blob_total_len := 0; mp_blob_checksum := 0;
     mp_blob_next_offset := 0 |}.

Definition tp_metadata_blob_begin (p : tp_metadata_poller_t) (a : tp_meta_blob_announce_t)
    : tp_metadata_poller_t :=
  {| mp_handlers := mp_handlers p; mp_blob_active := true; mp_blob_stream_id := ba_stream_id a;
     mp_blob_meta_version := ba_meta_version a; mp_blob_type := ba_blob_type a;
     mp_blob_total_len := ba_total_len a; mp_blob_checksum := ba_checksum a;
     mp_blob_next_offset := 0 |}.

Definition with_next_offset (p : tp_metadata_poller_t) (offset : Z) : tp_metadata_poller_t :=
  {| mp_handlers := mp_handlers p; mp_blob_active := mp_blob_active p;
     mp_blob_stream_id := mp_blob_stream_id p; mp_blob_meta_version := mp_blob_meta_version p;
     mp_blob_type := mp_blob_type p; mp_blob_total_len := mp_blob_total_len p;
     mp_blob_checksum := mp_blob_checksum p; mp_blob_next_offset := offset |}.

(** A failed check ends the blob, except that there must be one. *)
Definition tp_metadata_blob_validate_chunk (p : tp_metadata_poller_t) (c : tp_meta_blob_chunk_view_t)
    : res unit * tp_metadata_poller_t :=
  let fail := (Err EINVAL, tp_metadata_blob_reset p) in
  if negb (mp_blob_active p) then (Err EINVAL, p)
  else if negb (kv_stream_id c =? mp_blob_stream_id p) ||
          negb (kv_meta_version c =? mp_blob_meta_version p) then fail
  else if (sv_length (kv_bytes c) =? 0)%nat then fail
  else if negb (kv_offset c =? mp_blob_next_offset p) then fail
  else if mp_blob_total_len p <? kv_offset c then fail
  else
    let remaining := u64 (mp_blob_total_len p - kv_offset c) in
    if remaining <? Z.of_nat (sv_length (kv_bytes c)) then fail
    else (Ok tt, with_next_offset p (u64 (kv_offset c + Z.of_nat (sv_length (kv_bytes c))))).

Definition tp_metadata_blob_validate_complete (p : tp_metadata_poller_t) (c : tp_meta_blob_complete_t)
    : res unit * tp_metadata_poller_t :=
  let fail := (Err EINVAL, tp_metadata_blob_reset p) in
  if negb (mp_blob_active p) then (Err EINVAL, p)
  else if negb (bk_stream_id c =? mp_blob_stream_id p) ||
          negb (bk_meta_version c =? mp_blob_meta_version p) then fail
  else if negb (bk_checksum c =? mp_blob_checksum p) then fail
  else if negb (mp_blob_next_offset p =? mp_blob_total_len p) then fail
  else (Ok tt, p).

Definition call {A} (set : bool) (e : A) : list A := if set then [e] else [].
Definition is_ok {A} (r : res A) : bool := match r with Ok _ => true | Err _ => false end.

Section Poller.
Context `{Sbe}.

Definition handle_blob_complete (p : tp_metadata_poller_t) (b : bytes)
    : option (tp_metadata_poller_t * list metadata_event) :=
  match tp_control_decode_meta_blob_complete b with
  | OutOfBounds => None
  | Decoded c =>
    let '(r, p) := tp_metadata_blob_validate_complete p c in
    Some (tp_metadata_blob_reset p,
          call (is_ok r && mh_on_meta_blob_complete (mp_handlers p)) (OnBlobComplete c))
  | _ => Some (p, [])
  end.

Definition handle_blob_chunk (p : tp_metadata_poller_t) (b : bytes)
    : option (tp_metadata_poller_t * list metadata_event) :=
  match tp_control_decode_meta_blob_chunk b with
  | OutOfBounds => None
  | Decoded c =>
    let '(r, p) := tp_metadata_blob_validate_chunk p c in
    Some (p, call (is_ok r && mh_on_meta_blob_chunk (mp_handlers p)) (OnBlobChunk c))
  | _ => handle_blob_complete p b
  end.

Definition handle_blob (p : tp_metadata_poller_t) (b : bytes)
    : option (tp_metadata_poller_t * list metadata_event) :=
  match tp_control_decode_meta_blob_announce b with
  | OutOfBounds => None
  | Decoded a =>
    Some (tp_metadata_blob_begin p a,
          call (mh_on_meta_blob_announce (mp_handlers p)) (OnBlobAnnounce a))
  | _ => handle_blob_chunk p b
  end.

(** The attributes are passed on while they are decoded: before the begin, and
    also when the decoding then fails. *)
Definition handle_meta (h : tp_metadata_handlers_t) (b : bytes) : option (list metadata_event) :=
  if mh_on_data_source_meta_begin h || mh_on_data_source_meta_attr h || mh_on_data_source_meta_end h
  then
    let '(attrs, r) := tp_control_decode_data_source_meta b (mh_on_data_source_meta_attr h) in
    match r with
    | OutOfBounds => None
    | Decoded v => Some ((OnMetaAttr <$> attrs) ++
                         call (mh_on_data_source_meta_begin h) (OnMetaBegin v) ++
                         call (mh_on_data_source_meta_end h) (OnMetaEnd v))
    | _ => Some (OnMetaAttr <$> attrs)
    end
  else Some [].

(** [None]: a decoder read beyond the fragment. *)
Definition tp_metadata_poller_handler (p : tp_metadata_poller_t) (b : bytes)
    : option (tp_metadata_poller_t * list metadata_event) :=
  match (if mh_on_data_source_announce (mp_handlers p)
         then tp_control_decode_data_source_announce b else NotThisMessage) with
  | OutOfBounds => None
  | Decoded v => Some (p, [OnSource v])
  | _ =>
    match handle_meta (mp_handlers p) b with
    | None => None
    | Some events =>
      match handle_blob p b with
      | None => None
      | Some (p, events') => Some (p, events ++ events')
      end
    end
  end.

Definition tp_metadata_poller_init (handlers : ptr tp_metadata_handlers_t) : tp_metadata_poller_t :=
  let none := {| mh_on_data_source_announce := false; mh_on_data_source_meta_begin := false;
                 mh_on_data_source_meta_attr := false; mh_on_data_source_meta_end := false;
                 mh_on_meta_blob_announce := false; mh_on_meta_blob_chunk := false;
                 mh_on_meta_blob_complete := false |} in
  {| mp_handlers := default none handlers; mp_blob_active := false; mp_blob_stream_id := 0;
     mp_blob_meta_version := 0; mp_blob_type := 0; mp_blob_total_len := 0; mp_blob_checksum := 0;
     mp_blob_next_offset := 0 |}.

(** The fragments a subscription delivers, one after another. *)
Fixpoint metadata_run (p : tp_metadata_poller_t) (fragments : list bytes)
    : option (tp_metadata_poller_t * list metadata_event) :=
  match fragments with
  | [] => Some (p, [])
  | b :: rest =>
    match tp_metadata_poller_handler p b with
    | None => None
    | Some (p, events) =>
      match metadata_run p rest with
      | None => None
      | Some (p, events') => Some (p, events ++ events')
      end
    end
  end.
End Poller.

(** ** A completed blob is whole *)

(** The announcement and the chunks the callbacks have received of the blob
    announced last. *)
Definition blob_step (st : option (tp_meta_blob_announce_t * list tp_meta_blob_chunk_view_t))
    (e : metadata_event) : option (tp_meta_blob_announce_t * list tp_meta_blob_chunk_view_t) :=
  match e, st with
  | OnBlobAnnounce a, _ => Some (a, [])
  | OnBlobChunk c, Some (a, cs) => Some (a, cs ++ [c])
  | _, _ => st
  end.

Definition blob_of (events : list metadata_event)
    : option (tp_meta_blob_announce_t * list tp_meta_blob_chunk_view_t) :=
  foldl blob_step None events.

(** The chunks cover [from, to) of the blob without a gap, in order. *)
Fixpoint covers (a : tp_meta_blob_announce_t) (from : Z) (cs : list tp_meta_blob_chunk_view_t)
    (to : Z) : Prop :=
  match cs with
  | [] => from = to
  | c :: cs' =>
    kv_stream_id c = ba_stream_id a /\ kv_meta_version c = ba_meta_version a /\ kv_offset c = from /\
    (0 < sv_length (kv_bytes c))%nat /\ covers a (from + Z.of_nat (sv_length (kv_bytes c))) cs' to
  end.

Lemma covers_snoc a c cs : forall from to,
  covers a from cs to -> kv_stream_id c = ba_stream_id a -> kv_meta_version c = ba_meta_version a ->
  kv_offset c = to -> (0 < sv_length (kv_bytes c))%nat ->
  covers a from (cs ++ [c]) (to + Z.of_nat (sv_length (kv_bytes c))).
Proof.
  induction cs as [|x cs IH]; intros from to Hc Hs Hv Ho Hl; cbn [covers app] in *.
  - by subst.
  - destruct Hc as (? & ? & ? & ? & Hc). split_and!; [done..|]. by apply IH.
Qed.

(** What the poller knows of the blob the callbacks have received. *)
Definition blob_known (p : tp_metadata_poller_t) (events : list metadata_event) : Prop :=
  mp_blob_active p = true -> exists a cs,
    blob_of events = Some (a, cs) /\ mp_blob_stream_id p = ba_stream_id a /\
    mp_blob_meta_version p = ba_meta_version a /\ mp_blob_total_len p = ba_total_len a /\
    mp_blob_checksum p = ba_checksum a /\ covers a 0 cs (mp_blob_next_offset p) /\
    0 <= mp_blob_next_offset p <= ba_total_len a /\ is_u64 (ba_total_len a).

(** The completion [k] ends a blob whose chunks were all received. *)
Definition completes (events : list metadata_event) (k : tp_meta_blob_complete_t) : Prop :=
  exists a cs, blob_of events = Some (a, cs) /\ covers a 0 cs (ba_total_len a) /\
    bk_stream_id k = ba_stream_id a /\ bk_meta_version k = ba_meta_version a /\
    bk_checksum k = ba_checksum a.

(** Every completion among the later events completes its blob. *)
Fixpoint all_complete (before later : list metadata_event) : Prop :=
  match later with
  | [] => True
  | e :: later' =>
    match e with OnBlobComplete k => completes before k | _ => True end /\
    all_complete (before ++ [e]) later'
  end.

Lemma all_complete_app before l1 l2 :
  all_complete before (l1 ++ l2) <-> all_complete before l1 /\ all_complete (before ++ l1) l2.
Proof.
  revert before. induction l1 as [|e l1 IH]; intros before; cbn [app all_complete].
  - rewrite app_nil_r. tauto.
  - rewrite IH, <- app_assoc. cbn [app]. tauto.
Qed.

Lemma blob_of_app l1 l2 : blob_of (l1 ++ l2) = foldl blob_step (blob_of l1) l2.
Proof. apply foldl_app. Qed.

(** Events of other messages leave the blob. *)
Definition no_blob (e : metadata_event) : bool :=
  match e with OnBlobAnnounce _ | OnBlobChunk _ | OnBlobComplete _ => false | _ => true end.

Lemma no_blob_events p before l :
  Forall (fun e => no_blob e = true) l -> blob_known p before ->
  blob_known p (before ++ l) /\ all_complete before l.
Proof.
  intros Hl. revert before. induction Hl as [|e l He _ IH]; intros before Hk; [by rewrite app_nil_r|].
  destruct (IH (before ++ [e])) as [H1 H2].
  { intros Ha. destruct (Hk Ha) as (a & cs & Hb & Hrest). exists a, cs. split; [|done].
    rewrite blob_of_app, Hb. by destruct e. }
  rewrite <- app_assoc in H1. split; [done|]. cbn [all_complete]. split; [by destruct e|done].
Qed.

Section Whole.
Context `{Sbe}.

Definition blob_callbacks (h : tp_metadata_handlers_t) : Prop :=
  mh_on_meta_blob_announce h = true /\ mh_on_meta_blob_chunk h = true /\
  mh_on_meta_blob_complete h = true.

(** One fragment keeps what is known, and completes only whole blobs. *)
Definition keeps (p : tp_metadata_poller_t) (before : list metadata_event)
    (r : option (tp_metadata_poller_t * list metadata_event)) : Prop :=
  match r with
  | None => True
  | Some (p', events) => mp_handlers p' = mp_handlers p /\ blob_known p' (before ++ events) /\
                         all_complete before events
  end.

Lemma inactive_known p events : mp_blob_active p = false -> blob_known p events.
Proof. intros E Ha. congruence. Qed.

Lemma keeps_nothing p before : blob_known p before -> keeps p before (Some (p, [])).
Proof. intros Hk. unfold keeps. by rewrite app_nil_r. Qed.

Lemma blob_complete_keeps p b before :
  blob_callbacks (mp_handlers p) -> blob_known p before -> keeps p before (handle_blob_complete p b).
Proof.
  intros (_ & _ & Hc) Hk. unfold handle_blob_complete.
  destruct (tp_control_decode_meta_blob_complete b) as [k| | |]; [|by apply keeps_nothing..|done].
  destruct (tp_metadata_blob_validate_complete p k) as [r p'] eqn:Ev.
  assert (Hh : mp_handlers p' = mp_handlers p)
    by (unfold tp_metadata_blob_validate_complete in Ev; repeat case_match; by simplify_eq).
  split; [done|]. split; [by apply inactive_known|]. rewrite Hh, Hc, andb_true_r.
  destruct r as [[]|]; [|done]. split; [|done].
  unfold tp_metadata_blob_validate_complete in Ev. repeat case_match; simplify_eq. bool_simp.
  destruct (Hk ltac:(done)) as (a & cs & Hb & Es & Emv & Et & Eck & Hcov & _).
  exists a, cs. split_and!; [done|congruence..].
Qed.

Lemma blob_chunk_keeps p b before :
  blob_callbacks (mp_handlers p) -> blob_known p before -> keeps p before (handle_blob_chunk p b).
Proof.
  intros Hcall Hk. unfold handle_blob_chunk.
  destruct (tp_control_decode_meta_blob_chunk b) as [c| | |]; [|by apply blob_complete_keeps..|done].
  destruct Hcall as (_ & Hc & _).
  destruct (tp_metadata_blob_validate_chunk p c) as [r p'] eqn:Ev.
  unfold tp_metadata_blob_validate_chunk in Ev. destruct (mp_blob_active p) eqn:Ha.
  2:{ injection Ev as <- <-. by apply keeps_nothing. }
  repeat case_match; simplify_eq; bool_simp; cbn [is_ok andb call];
    try (split; [done|split; [by apply inactive_known|done]]).
  destruct (Hk Ha) as (a & cs & Hb & Es & Emv & Et & Eck & Hcov & Hoff & Ht).
  assert (Hlen : (0 < sv_length (kv_bytes c))%nat)
    by (destruct (Nat.eqb_spec (sv_length (kv_bytes c)) 0); [done|lia]).
  rewrite u64_small in * by ulia. rewrite u64_small by ulia.
  split; [done|]. cbn [mp_handlers with_next_offset]. rewrite Hc. cbn [call]. split; [|done].
  intros _. exists a, (cs ++ [c]). rewrite blob_of_app, Hb. cbn -[is_u64].
  split_and!; try done; [|lia..]. replace (kv_offset c) with (mp_blob_next_offset p) by done.
  apply covers_snoc; congruence.
Qed.

Lemma blob_keeps p b before :
  blob_callbacks (mp_handlers p) -> blob_known p before -> keeps p before (handle_blob p b).
Proof.
  intros Hcall Hk. unfold handle_blob.
  destruct (tp_control_decode_meta_blob_announce b) as [a| | |] eqn:Ed; [|by apply blob_chunk_keeps..|done].
  destruct Hcall as (Hc & _). rewrite Hc. split; [done|]. split; [|done]. intros _.
  exists a, []. rewrite blob_of_app. cbn.
  assert (Hu : is_u64 (ba_total_len a)).
  { unfold tp_control_decode_meta_blob_announce in Ed. destruct (recognised _ _); try done.
    cbn [outcome_bind] in Ed. destruct (_ <? _); [done|]. injection Ed as <-. apply get_u64. }
  split_and!; try done; apply Hu.
Qed.

Lemma meta_no_blob h b events :
  handle_meta h b = Some events -> Forall (fun e => no_blob e = true) events.
Proof.
  unfold handle_meta. destruct (_ || _ || _); [|by intros [= <-]].
  destruct (tp_control_decode_data_source_meta b _) as [attrs r].
  assert (Ha : Forall (fun e => no_blob e = true) (OnMetaAttr <$> attrs))
    by (apply Forall_fmap, Forall_forall; done).
  destruct r; intros [= <-]; try done. apply Forall_app_2; [done|].
  destruct (mh_on_data_source_meta_begin h), (mh_on_data_source_meta_end h); by repeat constructor.
Qed.

Lemma handler_keeps p b before :
  blob_callbacks (mp_handlers p) -> blob_known p before ->
  keeps p before (tp_metadata_poller_handler p b).
Proof.
  intros Hcall Hk. unfold tp_metadata_poller_handler.
  set (source := if mh_on_data_source_announce _ then _ else _).
  assert (Hrest : keeps p before
    match handle_meta (mp_handlers p) b with
    | None => None
    | Some events => match handle_blob p b with
                     | None => None
                     | Some (p, events') => Some (p, events ++ events')
                     end
    end).
  { destruct (handle_meta _ b) as [events|] eqn:Em; [|done].
    destruct (no_blob_events p before events (meta_no_blob _ _ _ Em) Hk) as [Hk' Hall].
    pose proof (blob_keeps p b _ Hcall Hk') as Hb. destruct (handle_blob p b) as [[p' events']|]; [|done].
    destruct Hb as (Hh & Hk2 & Hall2). split; [done|]. rewrite app_assoc. split; [done|].
    by apply all_complete_app. }
  destruct source as [v| | |]; [|exact Hrest..|done].
  split; [done|]. by apply no_blob_events; [repeat constructor|].
Qed.

Lemma run_keeps fragments : forall p before p' events,
  blob_callbacks (mp_handlers p) -> blob_known p before ->
  metadata_run p fragments = Some (p', events) ->
  blob_known p' (before ++ events) /\ all_complete before events.
Proof.
  induction fragments as [|b fragments IH]; intros p before p' events Hc Hk Hrun; cbn in Hrun.
  { injection Hrun as <- <-. by rewrite app_nil_r. }
  pose proof (handler_keeps p b before Hc Hk) as Hstep.
  destruct (tp_metadata_poller_handler p b) as [[p1 e1]|]; [|done]. destruct Hstep as (Hh & Hk1 & Ha1).
  destruct (metadata_run p1 fragments) as [[p2 e2]|] eqn:Hr; [|done]. injection Hrun as <- <-.
  destruct (IH p1 (before ++ e1) p2 e2 ltac:(by rewrite Hh) Hk1 Hr) as [Hk2 Ha2].
  rewrite app_assoc. split; [done|]. by apply all_complete_app.
Qed.

(** C23: Whatever fragments arrive, the application is told that a blob is complete only
    when it has received it whole since the blob was announced: the chunks passed to
    it, in order, belong to the announced stream and version, leave no gap and
    overlap nowhere, and add up to the announced length, and the completion carries
    the announced checksum. *)
Theorem blob_complete_whole handlers fragments p events before k after :
  blob_callbacks handlers ->
  metadata_run (tp_metadata_poller_init (Some handlers)) fragments = Some (p, events) ->
  events = before ++ OnBlobComplete k :: after ->
  exists a cs, blob_of before = Some (a, cs) /\ covers a 0 cs (ba_total_len a) /\
    bk_stream_id k = ba_stream_id a /\ bk_meta_version k = ba_meta_version a /\
    bk_checksum k = ba_checksum a.
Proof.
  intros Hc Hrun ->.
  destruct (run_keeps fragments (tp_metadata_poller_init (Some handlers)) [] _ _ Hc
    ltac:(by apply inactive_known) Hrun) as [_ Hall].
  apply all_complete_app in Hall as [_ Hall]. exact (proj1 Hall).
Qed.
End Whole.

(** ** A blob that is sent arrives *)

Section Transfer.
Context `{Sbe}.
Context (stream_id meta_version blob_type checksum : Z).
Context (Hstream : is_u32 stream_id) (Hversion : is_u32 meta_version) (Htype : is_u32 blob_type)
        (Hchecksum : is_u64 checksum).

(** The chunks of a blob cut into pieces. *)
Fixpoint chunk_messages (offset : Z) (pieces : list chars) : list tp_meta_blob_chunk_t :=
  match pieces with
  | [] => []
  | s :: pieces' =>
    {| bc_stream_id := stream_id; bc_meta_version := meta_version; bc_offset := offset;
       bc_bytes := Some s |} :: chunk_messages (offset + Z.of_nat (length s)) pieces'
  end.

Definition announcement (pieces : list chars) : tp_meta_blob_announce_t :=
  {| ba_stream_id := stream_id; ba_meta_version := meta_version; ba_blob_type := blob_type;
     ba_total_len := Z.of_nat (length (mjoin pieces)); ba_checksum := checksum |}.

Definition completion : tp_meta_blob_complete_t :=
  {| bk_stream_id := stream_id; bk_meta_version := meta_version; bk_checksum := checksum |}.

(** All messages of the transfer, as the senders write them. *)
Definition blob_messages (pieces : list chars) : list (res (list item)) :=
  tp_producer_send_meta_blob_announce (announcement pieces) ::
  (tp_producer_send_meta_blob_chunk <$> chunk_messages 0 pieces) ++
  [tp_producer_send_meta_blob_complete completion].

(** The fragment is the message, from whatever buffer. *)
Definition sent (r : res (list item)) (fragment : bytes) : Prop :=
  exists items b, r = Ok items /\ encode items b = Some fragment.

Definition chunk_view (c : tp_meta_blob_chunk_t) : tp_meta_blob_chunk_view_t :=
  {| kv_stream_id := bc_stream_id c; kv_meta_version := bc_meta_version c; kv_offset := bc_offset c;
     kv_bytes := text_view (default [] (bc_bytes c)) |}.

(** The bytes of a view. *)
Definition view_chars (v : tp_string_view_t) : chars := default [] (sv_data v).

Lemma view_of_text s : view_chars (text_view s) = s.
Proof. unfold view_chars, text_view. cbn. by destruct s. Qed.

(** A message of another kind is passed over. *)
Lemma recognised_other b block template ws l template' :
  arrived b block template ws l -> 0 <= block -> template <> template' ->
  recognised b template' = NotThisMessage.
Proof.
  intros Ha Hb Hne. rewrite (recognised_arrived _ _ _ _ _ Ha Hb).
  by destruct (Z.eqb_spec template template').
Qed.

Lemma not_metadata p b block template ws l :
  arrived b block template ws l -> 0 <= block ->
  template <> dataSourceAnnounce_template -> template <> dataSourceMeta_template ->
  tp_metadata_poller_handler p b = handle_blob p b.
Proof.
  intros Ha Hb H1 H2. unfold tp_metadata_poller_handler, tp_control_decode_data_source_announce,
    handle_meta, tp_control_decode_data_source_meta, lax_header_check, control_header_check.
  rewrite (recognised_other _ _ _ _ _ _ Ha Hb H1), (recognised_other _ _ _ _ _ _ Ha Hb H2).
  cbn [outcome_bind fmap list_fmap].
  destruct (mh_on_data_source_announce _); destruct (_ || _ || _);
    by destruct (handle_blob p b) as [[]|].
Qed.

Lemma blob_announce_handled p a fragment :
  is_u32 (ba_stream_id a) -> is_u32 (ba_meta_version a) -> is_u32 (ba_blob_type a) ->
  is_u64 (ba_total_len a) -> is_u64 (ba_checksum a) ->
  sent (tp_producer_send_meta_blob_announce a) fragment ->
  tp_metadata_poller_handler p fragment =
    Some (tp_metadata_blob_begin p a, call (mh_on_meta_blob_announce (mp_handlers p)) (OnBlobAnnounce a)).
Proof.
  intros Hs Hv Ht Htl Hck (items & b & [= <-] & He).
  apply message_arrived in He as Ha; [|done..|reflexivity|write_fits_tac|constructor].
  rewrite (not_metadata _ _ _ _ _ _ Ha) by done. unfold handle_blob, tp_control_decode_meta_blob_announce.
  rewrite (recognised_arrived _ _ _ _ _ Ha) by done. rewrite Z.eqb_refl. cbn [outcome_bind].
  pose proof (ar_length _ _ _ _ _ Ha). unfold messageHeader_encoded_length.
  destruct (Z.ltb_spec (blen fragment) (8 + metaBlobAnnounce_block)); [lia|].
  pose proof (ar_block _ _ _ _ _ Ha) as Hb.
  block_field Hb 0 4 (ba_stream_id a). block_field Hb 4 4 (ba_meta_version a).
  block_field Hb 8 4 (ba_blob_type a). block_field Hb 12 8 (ba_total_len a).
  block_field Hb 20 8 (ba_checksum a). by destruct a.
Qed.

Lemma blob_chunk_decoded p c fragment :
  is_u32 (bc_stream_id c) -> is_u32 (bc_meta_version c) -> is_u64 (bc_offset c) ->
  sent (tp_producer_send_meta_blob_chunk c) fragment ->
  exists s, bc_bytes c = Some s /\ (0 < length s)%nat /\
  tp_metadata_poller_handler p fragment =
    let '(r, p') := tp_metadata_blob_validate_chunk p (chunk_view c) in
    Some (p', call (is_ok r && mh_on_meta_blob_chunk (mp_handlers p')) (OnBlobChunk (chunk_view c))).
Proof.
  intros Hs Hv Ho (items & b & Hi & He). unfold tp_producer_send_meta_blob_chunk in Hi.
  destruct (bc_bytes c) as [s|] eqn:Hc; [|done]. exists s. split; [done|].
  destruct (Z.eqb_spec (Z.of_nat (length s)) 0); [done|]. split; [lia|].
  destruct (Z.ltb_spec (4096 - messageHeader_encoded_length - metaBlobChunk_block)
    (Z.of_nat (length s))) as [|Hlen]; [done|]. injection Hi as <-.
  unfold messageHeader_encoded_length, metaBlobChunk_block in Hlen.
  apply message_arrived in He as Ha; [|done..|reflexivity|write_fits_tac|].
  2:{ constructor; [by apply text_ok; lia|constructor]. }
  rewrite (not_metadata _ _ _ _ _ _ Ha) by done.
  unfold handle_blob, tp_control_decode_meta_blob_announce.
  rewrite (recognised_other _ _ _ _ _ _ Ha) by done. cbn [outcome_bind].
  unfold handle_blob_chunk, tp_control_decode_meta_blob_chunk. arrive Ha.
  rewrite E. cbn [outcome_bind fst].
  block_field Hb 0 4 (bc_stream_id c). block_field Hb 4 4 (bc_meta_version c).
  block_field Hb 8 8 (bc_offset c). unfold chunk_view. by rewrite Hc.
Qed.

Lemma blob_complete_decoded p c fragment :
  is_u32 (bk_stream_id c) -> is_u32 (bk_meta_version c) -> is_u64 (bk_checksum c) ->
  sent (tp_producer_send_meta_blob_complete c) fragment ->
  tp_metadata_poller_handler p fragment =
    let '(r, p') := tp_metadata_blob_validate_complete p c in
    Some (tp_metadata_blob_reset p',
          call (is_ok r && mh_on_meta_blob_complete (mp_handlers p')) (OnBlobComplete c)).
Proof.
  intros Hs Hv Ho (items & b & [= <-] & He).
  apply message_arrived in He as Ha; [|done..|reflexivity|write_fits_tac|constructor].
  rewrite (not_metadata _ _ _ _ _ _ Ha) by done.
  unfold handle_blob, tp_control_decode_meta_blob_announce, handle_blob_chunk,
    tp_control_decode_meta_blob_chunk, control_header_check, handle_blob_complete,
    tp_control_decode_meta_blob_complete.
  rewrite !(recognised_other _ _ _ _ _ _ Ha) by done.
  rewrite (recognised_arrived _ _ _ _ _ Ha) by done. rewrite Z.eqb_refl. cbn [outcome_bind].
  pose proof (ar_length _ _ _ _ _ Ha). unfold messageHeader_encoded_length.
  destruct (Z.ltb_spec (blen fragment) (8 + metaBlobComplete_block)); [lia|].
  pose proof (ar_block _ _ _ _ _ Ha) as Hb.
  block_field Hb 0 4 (bk_stream_id c). block_field Hb 4 4 (bk_meta_version c).
  block_field Hb 8 8 (bk_checksum c). by destruct c.
Qed.

(** The poller in the middle of the blob. *)
Record receiving (p : tp_metadata_poller_t) (total offset : Z) : Prop := {
  rc_active : mp_blob_active p = true;
  rc_stream : mp_blob_stream_id p = stream_id;
  rc_version : mp_blob_meta_version p = meta_version;
  rc_total : mp_blob_total_len p = total;
  rc_checksum : mp_blob_checksum p = checksum;
  rc_offset : mp_blob_next_offset p = offset;
}.

Lemma receiving_next p total offset offset' :
  receiving p total offset -> receiving (with_next_offset p offset') total offset'.
Proof. by intros []. Qed.

Lemma chunk_accepted p total offset s :
  total < 2 ^ 64 -> receiving p total offset -> 0 <= offset ->
  offset + Z.of_nat (length s) <= total -> (0 < length s)%nat ->
  tp_metadata_blob_validate_chunk p
    (chunk_view {| bc_stream_id := stream_id; bc_meta_version := meta_version;
                   bc_offset := offset; bc_bytes := Some s |}) =
    (Ok tt, with_next_offset p (offset + Z.of_nat (length s))).
Proof.
  intros Htot [E1 E2 E3 E4 E5 E6] Ho Hsum Hs.
  unfold tp_metadata_blob_validate_chunk. rewrite E1, E2, E3, E4, E6.
  cbn [negb chunk_view bc_stream_id bc_meta_version bc_offset bc_bytes kv_stream_id kv_meta_version
    kv_offset kv_bytes default from_option id text_view sv_length]. rewrite !Z.eqb_refl. cbn [negb orb].
  destruct (Nat.eqb_spec (length s) 0); [lia|]. destruct (Z.ltb_spec total offset); [lia|].
  rewrite u64_small by ulia. destruct (Z.ltb_spec (total - offset) (Z.of_nat (length s))); [lia|].
  by rewrite u64_small by ulia.
Qed.

Lemma chunks_received total pieces : forall p offset fragments tail,
  total < 2 ^ 64 -> receiving p total offset -> 0 <= offset ->
  offset + Z.of_nat (length (mjoin pieces)) = total ->
  mh_on_meta_blob_chunk (mp_handlers p) = true ->
  Forall2 sent (tp_producer_send_meta_blob_chunk <$> chunk_messages offset pieces) fragments ->
  metadata_run p (fragments ++ tail) =
    match metadata_run (with_next_offset p total) tail with
    | None => None
    | Some (p', events) => Some (p', (OnBlobChunk <$> (chunk_view <$> chunk_messages offset pieces)) ++ events)
    end.
Proof.
  induction pieces as [|s pieces IH]; intros p offset fragments tail Htot Hp Ho Hsum Hc Hsent.
  { apply Forall2_nil_inv_l in Hsent as ->. cbn in Hsum.
    assert (with_next_offset p total = p) as ->.
    { destruct p, Hp. cbn in *. unfold with_next_offset. cbn. f_equal. lia. }
    cbn [app chunk_messages fmap list_fmap]. by destruct (metadata_run p tail) as [[]|]. }
  cbn [chunk_messages fmap list_fmap] in Hsent.
  apply Forall2_cons_inv_l in Hsent as (f & fragments' & Hf & Hfs & ->).
  change (mjoin (s :: pieces)) with (s ++ mjoin pieces) in Hsum. rewrite length_app in Hsum.
  match type of Hf with sent (tp_producer_send_meta_blob_chunk ?c) _ =>
    destruct (blob_chunk_decoded p c f Hstream Hversion ltac:(cbn; ulia) Hf)
      as (s' & Hs & Hlen & Hd) end.
  injection Hs as <-. cbn [metadata_run app]. rewrite Hd.
  rewrite (chunk_accepted p total offset s) by (done || lia). cbn [is_ok andb].
  cbn [with_next_offset mp_handlers]. rewrite Hc.
  rewrite (IH (with_next_offset p (offset + Z.of_nat (length s))) (offset + Z.of_nat (length s))
    fragments' tail); [|done|by eapply receiving_next|lia|lia|done|done].
  change (with_next_offset (with_next_offset p (offset + Z.of_nat (length s))) total)
    with (with_next_offset p total). by destruct (metadata_run _ tail) as [[]|].
Qed.

Lemma chunk_bytes pieces offset :
  mjoin ((fun c => view_chars (kv_bytes (chunk_view c))) <$> chunk_messages offset pieces) = mjoin pieces.
Proof.
  revert offset. induction pieces as [|s pieces IH]; intros offset; [done|].
  cbn [chunk_messages fmap list_fmap mjoin list_join]. cbn [chunk_view kv_bytes bc_bytes default from_option id].
  rewrite view_of_text. f_equal. apply IH.
Qed.

(** A blob cut into any pieces arrives: whatever was received before, the poller
    passes on the announcement, every chunk in order and the completion, the chunks'
    bytes joined are the blob, and the poller is ready for the next one. *)
Theorem blob_transfer p pieces fragments :
  Z.of_nat (length (mjoin pieces)) < 2 ^ 64 -> blob_callbacks (mp_handlers p) ->
  Forall2 sent (blob_messages pieces) fragments ->
  exists chunks,
    metadata_run p fragments =
      Some (tp_metadata_blob_reset p,
            [OnBlobAnnounce (announcement pieces)] ++ (OnBlobChunk <$> chunks) ++
            [OnBlobComplete completion]) /\
    mjoin ((fun c => view_chars (kv_bytes c)) <$> chunks) = mjoin pieces.
Proof.
  intros Htot (Hc1 & Hc2 & Hc3) Hsent. unfold blob_messages in Hsent.
  apply Forall2_cons_inv_l in Hsent as (f & fs & Hf & Hfs & ->).
  apply Forall2_app_inv_l in Hfs as (fs1 & fs2 & Hfs1 & Hfs2 & ->).
  apply Forall2_cons_inv_l in Hfs2 as (g & fs3 & Hg & Hnil & ->). apply Forall2_nil_inv_l in Hnil as ->.
  exists (chunk_view <$> chunk_messages 0 pieces). split.
  2:{ rewrite <- list_fmap_compose. apply chunk_bytes. }
  cbn [metadata_run].
  rewrite (blob_announce_handled p (announcement pieces) f Hstream Hversion Htype ltac:(cbn; ulia) Hchecksum Hf), Hc1.
  set (p1 := tp_metadata_blob_begin p (announcement pieces)).
  rewrite (chunks_received (Z.of_nat (length (mjoin pieces))) pieces p1 0 fs1 [g]);
    [|done|by split|done|lia|done|done].
  cbn [metadata_run]. rewrite (blob_complete_decoded _ completion g Hstream Hversion Hchecksum Hg).
  assert (Ev : forall q, receiving q (Z.of_nat (length (mjoin pieces))) (Z.of_nat (length (mjoin pieces))) ->
    tp_metadata_blob_validate_complete q completion = (Ok tt, q)).
  { intros q [E1 E2 E3 E4 E5 E6]. unfold tp_metadata_blob_validate_complete.
    rewrite E1, E2, E3, E4, E5, E6. cbn. by rewrite !Z.eqb_refl. }
  rewrite Ev by by split. cbn [is_ok andb with_next_offset mp_handlers p1 tp_metadata_blob_begin].
  by rewrite Hc3.
Qed.
End Transfer.
(** *** A concrete blob *)

#[local] Existing Instance le_sbe.

Definition demo_handlers : tp_metadata_handlers_t :=
  {| mh_on_data_source_announce := true; mh_on_data_source_meta_begin := true;
     mh_on_data_source_meta_attr := true; mh_on_data_source_meta_end := true;
     mh_on_meta_blob_announce := true; mh_on_meta_blob_chunk := true;
     mh_on_meta_blob_complete := true |}.

Definition demo_pieces : list chars := [lit "shape "; lit "of the "; lit "tensor"].

(** The bytes of a message in a buffer of [n] bytes. *)
Definition fragment_of (n : nat) (r : res (list item)) : bytes :=
  match r with Ok items => default [] (encode items (repeat 0 n)) | Err _ => [] end.

Definition demo_fragments : list bytes := fragment_of 64 <$> blob_messages 7 2 5 99 demo_pieces.

Lemma blob_transfer_witness :
  Forall2 sent (blob_messages 7 2 5 99 demo_pieces) demo_fragments /\
  exists chunks,
    metadata_run (tp_metadata_poller_init (Some demo_handlers)) demo_fragments =
      Some (tp_metadata_poller_init (Some demo_handlers),
            [OnBlobAnnounce (announcement 7 2 5 99 demo_pieces)] ++ (OnBlobChunk <$> chunks) ++
            [OnBlobComplete (completion 7 2 99)]) /\
    mjoin ((fun c => view_chars (kv_bytes c)) <$> chunks) = lit "shape of the tensor".
Proof.
  assert (Hs : Forall2 sent (blob_messages 7 2 5 99 demo_pieces) demo_fragments).
  { repeat constructor; eexists _, (repeat 0 64); (split; [reflexivity|vm_compute; reflexivity]). }
  split; [exact Hs|].
  apply (blob_transfer 7 2 5 99 ltac:(split; (discriminate || reflexivity))
    ltac:(split; (discriminate || reflexivity)) ltac:(split; (discriminate || reflexivity))
    ltac:(split; (discriminate || reflexivity))
    (tp_metadata_poller_init (Some demo_handlers)) demo_pieces demo_fragments);
    [reflexivity|repeat split|exact Hs].
Defined.

Lemma blob_complete_whole_witness :
  exists before k a cs, blob_of before = Some (a, cs) /\ covers a 0 cs (ba_total_len a) /\
    ba_total_len a = 19 /\ length cs = 3%nat /\ bk_checksum k = ba_checksum a.
Proof.
  destruct (metadata_run (tp_metadata_poller_init (Some demo_handlers)) demo_fragments)
    as [[p events]|] eqn:E; [|vm_compute in E; discriminate E].
  assert (Hb : exists k, events = take 4 events ++ OnBlobComplete k :: []).
  { exists (completion 7 2 99). vm_compute in E. injection E as _ <-. reflexivity. }
  destruct Hb as [k Hb].
  destruct (blob_complete_whole demo_handlers demo_fragments p events (take 4 events) k []
    ltac:(repeat split) E Hb) as (a & cs & Ha & Hc & _ & _ & Hck).
  exists (take 4 events), k, a, cs. split; [exact Ha|]. split; [exact Hc|].
  vm_compute in E. injection E as _ <-. vm_compute in Ha. injection Ha as <- <-.
  split; [reflexivity|]. split; [reflexivity|exact Hck].
Defined.

(** The poller passes the attributes on before the message they belong to. *)
Example attributes_before_begin :
  exists v a, metadata_run (tp_metadata_poller_init (Some demo_handlers))
      [fragment_of 256 (tp_producer_send_data_source_meta
         {| dm_stream_id := 7; dm_meta_version := 2; dm_timestamp_ns := 99;
            dm_attributes := [{| ma_key := lit "k"; ma_format := []; ma_value := lit "v" |}] |})] =
    Some (tp_metadata_poller_init (Some demo_handlers), [OnMetaAttr a; OnMetaBegin v; OnMetaEnd v]).
Proof. eexists _, _. vm_compute. reflexivity. Qed.
End Blob.

(** ** Quality-of-service reports *)

Module Qos.

Definition qosConsumer_template : Z := 5.
Definition qosProducer_template : Z := 6.
Definition qosConsumer_block : Z := 41.
Definition qosProducer_block : Z := 28.
Definition TP_MODE_NULL : Z := 255.

Inductive tp_qos_event_t :=
  | QosProducer (stream_id producer_id epoch current_seq watermark : Z)
  | QosConsumer (stream_id consumer_id epoch last_seq_seen drops_gap drops_late mode : Z).

(** [producer]: its stream, identifier and epoch. *)
Definition tp_qos_publish_producer (stream_id producer_id epoch current_seq watermark : Z) : list item :=
  [control_header qosProducer_block qosProducer_template;
   Block qosProducer_block
     [Write 0 4 stream_id; Write 4 4 producer_id; Write 8 8 epoch; Write 16 8 current_seq;
      Write 24 4 watermark]].

Definition tp_qos_publish_consumer
    (stream_id consumer_id epoch last_seq_seen drops_gap drops_late mode : Z) : list item :=
  [control_header qosConsumer_block qosConsumer_template;
   Block qosConsumer_block
     [Write 0 4 stream_id; Write 4 4 consumer_id; Write 8 8 epoch; Write 16 8 last_seq_seen;
      Write 24 8 drops_gap; Write 32 8 drops_late; Write 40 1 mode]].

Section Reports.
Context `{Sbe}.

(** Neither version nor block length is looked at; [None] beyond the fragment. *)
Definition tp_qos_poller_handler (on_qos_event : bool) (b : bytes) : option (list tp_qos_event_t) :=
  if blen b <? messageHeader_encoded_length then Some []
  else if negb (messageHeader_schemaId b =? wire_schema_id) then Some []
  else
    let template_id := messageHeader_templateId b in
    let event e := Some (if on_qos_event then [e] else []) in
    if template_id =? qosProducer_template then
      if blen b <? messageHeader_encoded_length + qosProducer_block then None
      else event (QosProducer (sbe_get 4 b (8 + 0)) (sbe_get 4 b (8 + 4)) (sbe_get 8 b (8 + 8))
                    (sbe_get 8 b (8 + 16)) (sbe_get 4 b (8 + 24)))
    else if template_id =? qosConsumer_template then
      if blen b <? messageHeader_encoded_length + qosConsumer_block then None
      else event (QosConsumer (sbe_get 4 b (8 + 0)) (sbe_get 4 b (8 + 4)) (sbe_get 8 b (8 + 8))
                    (sbe_get 8 b (8 + 16)) (sbe_get 8 b (8 + 24)) (sbe_get 8 b (8 + 32))
                    (default TP_MODE_NULL (sbe_enum mode_values uint8_null (sbe_get 1 b (8 + 40)))))
    else Some [].

(** A report arrives as it was sent; a mode outside the enumeration as none. *)
Theorem qos_reported stream id epoch seq watermark gap late mode b fragment :
  Forall is_u32 [stream; id; watermark] -> Forall is_u64 [epoch; seq; gap; late] -> is_u8 mode ->
  (encode (tp_qos_publish_producer stream id epoch seq watermark) b = Some fragment ->
   tp_qos_poller_handler true fragment = Some [QosProducer stream id epoch seq watermark]) /\
  (encode (tp_qos_publish_consumer stream id epoch seq gap late mode) b = Some fragment ->
   tp_qos_poller_handler true fragment =
     Some [QosConsumer stream id epoch seq gap late
             (default TP_MODE_NULL (sbe_enum mode_values uint8_null mode))]).
Proof.
  intros Hw Hl Hm. decompose_Forall_hyps.
  split; intros He; apply message_arrived in He as Ha; try done;
    try reflexivity; try write_fits_tac; try constructor;
    pose proof (handler_arrived _ _ _ _ _ Ha ltac:(done)) as (E1 & E2 & E3);
    pose proof (ar_length _ _ _ _ _ Ha) as Hlen; pose proof (ar_block _ _ _ _ _ Ha) as Hb;
    unfold tp_qos_poller_handler; rewrite E1, E2, E3; cbn [negb];
    unfold messageHeader_encoded_length.
  - change (qosProducer_template =? qosProducer_template) with true. cbn iota.
    destruct (Z.ltb_spec (blen fragment) (8 + qosProducer_block)); [lia|].
    block_field Hb 0 4 stream. block_field Hb 4 4 id. block_field Hb 8 8 epoch.
    block_field Hb 16 8 seq. by block_field Hb 24 4 watermark.
  - change (qosConsumer_template =? qosProducer_template) with false.
    change (qosConsumer_template =? qosConsumer_template) with true. cbn iota.
    destruct (Z.ltb_spec (blen fragment) (8 + qosConsumer_block)); [lia|].
    block_field Hb 0 4 stream. block_field Hb 4 4 id. block_field Hb 8 8 epoch.
    block_field Hb 16 8 seq. block_field Hb 24 8 gap. block_field Hb 32 8 late.
    by block_field Hb 40 1 mode.
Qed.
End Reports.
End Qos.
