(* ===== verification/Machine.v ===== *)
(** * Machine: operations of a component within its process

    Producers and consumers change their own state, call the operating system of
    Shm.Mapping, and tell others something.  Their operations are computations of
    the monad [C] over a [machine]: the state of the component, the process, and
    the events so far; [None] is a NULL pointer followed or a read past the end of
    a fragment.  Everything else outside - the memory other processes write, the
    clocks, the allocator, the answers of Aeron - is the [world], which may answer
    anything at any time.  Proofs go by weakest preconditions: [wp F m Q] holds of
    the machines from which [m] ends in [Q], and faults only if [F]. *)

From Stdlib Require Import ZArith Lia.
From stdpp Require Import list.
From S2P Require Import Prelude Sbe Shm.
Import Mapping.

#[local] Open Scope Z_scope.
#[local] Open Scope list_scope.

(** ** The world, and computations in it *)

(** The answers at each point of time: the superblock another process has in the
    memory at an address, the clocks, whether an allocation succeeds, whether a
    subscription is added, and whether a message offered is accepted. *)
Record world := {
  w_kernel : kernel;
  w_memory : nat -> Z -> bytes;
  w_clock_ns : nat -> Z;
  w_realtime_ns : nat -> Z;
  w_alloc : nat -> bool;
  w_subscribe : nat -> bool;
  w_offer : nat -> bool;
}.

(** Every allocation succeeds. *)
Definition memory_enough (W : world) : Prop := forall t, w_alloc W t = true.

Record machine (St Ev : Type) := {
  ma_state : St;
  ma_process : process;
  ma_events : list Ev;
}.
Arguments ma_state {St Ev}.
Arguments ma_process {St Ev}.
Arguments ma_events {St Ev}.
Arguments Build_machine {St Ev}.

Section Monad.
Context {St Ev : Type}.
Abbreviation machine := (machine St Ev).

Definition C (A : Type) : Type := machine -> option (A * machine).

Definition give {A} (a : A) : C A := fun s => Some (a, s).
Definition fault {A} : C A := fun _ => None.
Definition next {A B} (m : C A) (k : A -> C B) : C B :=
  fun s => match m s with Some (a, s') => k a s' | None => None end.
Definition get : C St := fun s => Some (ma_state s, s).
Definition modify (f : St -> St) : C unit :=
  fun s => Some (tt, {| ma_state := f (ma_state s); ma_process := ma_process s;
                        ma_events := ma_events s |}).
Definition emit (e : Ev) : C unit :=
  fun s => Some (tt, {| ma_state := ma_state s; ma_process := ma_process s;
                        ma_events := ma_events s ++ [e] |}).
(** A call of the operating system. *)
Definition system {A} (m : M A) : C A :=
  fun s => let '(a, p) := m (ma_process s) in
           Some (a, {| ma_state := ma_state s; ma_process := p; ma_events := ma_events s |}).

(** Time passes. *)
Definition later (p : process) : process :=
  {| os_tick := S (os_tick p); os_fds := os_fds p; os_maps := os_maps p; os_log := os_log p |}.

(** Something read from outside. *)
Definition ask {A} (f : nat -> A) : C A :=
  fun s => Some (f (os_tick (ma_process s)),
                 {| ma_state := ma_state s; ma_process := later (ma_process s);
                    ma_events := ma_events s |}).

Fixpoint for_each {A} (f : A -> C unit) (l : list A) : C unit :=
  match l with
  | [] => give tt
  | a :: l' => next (f a) (fun _ => for_each f l')
  end.
End Monad.
Arguments C : clear implicits.

Notation "'let+' x ':=' m 'in' k" := (next m (fun x => k))
  (at level 10, x name, m at level 100, k at level 200) : tp_scope.
Notation "'do+' m 'in' k" := (next m (fun _ : unit => k))
  (at level 10, m at level 100, k at level 200) : tp_scope.
(** Continue after success, return the error otherwise. *)
Notation "'try+' x ':=' m 'in' k" :=
  (next m (fun r => match r with Ok x => k | Err e => give (Err e) end))
  (at level 10, x name, m at level 100, k at level 200) : tp_scope.

(** ** Weakest preconditions *)

Section Rules.
Context {St Ev : Type} (F : Prop).
Abbreviation machine := (machine St Ev).
Abbreviation C := (C St Ev).

Definition wp {A} (m : C A) (Q : A -> machine -> Prop) (s : machine) : Prop :=
  match m s with
  | Some (a, s') => Q a s'
  | None => F
  end.

Lemma wp_next {A B} (m : C A) (k : A -> C B) Q s :
  wp m (fun a => wp (k a) Q) s -> wp (next m k) Q s.
Proof. unfold wp, next. by destruct (m s) as [[a s']|]. Qed.

Lemma wp_mono {A} (m : C A) (Q Q' : A -> machine -> Prop) s :
  wp m Q s -> (forall a s', Q a s' -> Q' a s') -> wp m Q' s.
Proof. unfold wp. destruct (m s) as [[a s']|]; auto. Qed.

(** The result may be taken to be that of the run. *)
Lemma wp_eq {A} (m : C A) (Q : A -> machine -> Prop) s :
  wp m (fun a s' => m s = Some (a, s') -> Q a s') s -> wp m Q s.
Proof. unfold wp. destruct (m s) as [[a s']|]; auto. Qed.

(** From a weakest precondition to the machine that was reached. *)
Lemma wp_reached {A} (m : C A) (Q : A -> machine -> Prop) s a s' :
  wp m Q s -> m s = Some (a, s') -> Q a s'.
Proof. unfold wp. intros Hw E. by rewrite E in Hw. Qed.

Lemma wp_give {A} (a : A) (Q : A -> machine -> Prop) s : Q a s -> wp (give a) Q s.
Proof. done. Qed.
Lemma wp_get (Q : St -> machine -> Prop) s : Q (ma_state s) s -> wp get Q s.
Proof. done. Qed.
Lemma wp_modify f (Q : unit -> machine -> Prop) s :
  Q tt {| ma_state := f (ma_state s); ma_process := ma_process s; ma_events := ma_events s |} ->
  wp (modify f) Q s.
Proof. done. Qed.
Lemma wp_emit e (Q : unit -> machine -> Prop) s :
  Q tt {| ma_state := ma_state s; ma_process := ma_process s; ma_events := ma_events s ++ [e] |} ->
  wp (emit e) Q s.
Proof. done. Qed.
Lemma wp_system {A} (m : M A) (Q : A -> machine -> Prop) s :
  (let '(a, p) := m (ma_process s) in
   Q a {| ma_state := ma_state s; ma_process := p; ma_events := ma_events s |}) ->
  wp (system m) Q s.
Proof. unfold wp, system. by destruct (m (ma_process s)). Qed.
Lemma wp_ask {A} (f : nat -> A) (Q : A -> machine -> Prop) s :
  Q (f (os_tick (ma_process s)))
    {| ma_state := ma_state s; ma_process := later (ma_process s); ma_events := ma_events s |} ->
  wp (ask f) Q s.
Proof. done. Qed.
End Rules.

Lemma wp_weaken {St Ev A} (F G : Prop) (m : C St Ev A) Q s : (F -> G) -> wp F m Q s -> wp G m Q s.
Proof. unfold wp. destruct (m s) as [[a s']|]; auto. Qed.

(** One rule at the head of the program. *)
Ltac wp1 :=
  lazymatch goal with
  | |- wp _ (next _ _) _ _ => apply wp_next
  | |- wp _ (give _) _ _ => apply wp_give
  | |- wp _ get _ _ => apply wp_get
  | |- wp _ (modify _) _ _ => apply wp_modify
  | |- wp _ (emit _) _ _ => apply wp_emit
  | |- wp _ (ask _) _ _ => apply wp_ask
  end; cbv beta; cbn [ma_state ma_process ma_events].
Ltac wps := repeat wp1.
