(* ===== verification/Regions.v ===== *)
(** * Regions: the mapped regions of producers and consumers

    A producer and a consumer hold the same kind of regions - a header ring and
    payload pools - and map, check and give them up with the same steps.  [Holder]
    is the interface of a state that has them; the operations and their theorems
    are stated once against it: every descriptor and mapping of the process
    belongs to one of the regions held ([accounted]), and a region attached to was
    mapped and validated ([region_ready]). *)

From Stdlib Require Import ZArith Lia Bool Ascii String.
From stdpp Require Import strings list.
From coqutil Require Import Datatypes.RecordSetters.
From S2P Require Import Prelude Sbe Seqlock Uri Shm Machine.
Import Mapping TriangleBracketNotations.

#[local] Open Scope Z_scope.
#[local] Open Scope list_scope.

(** ** Data *)

(** A [tp_shm_region_t] with its process identifier: not mapped when the address
    is NULL. *)
Record attached_region := {
  rn_region : tp_shm_region_t;
  rn_pid : Z;
}.

Definition empty_region (fd : Z) : attached_region :=
  {| rn_region := {| rg_fd := fd; rg_length := 0; rg_addr := 0;
                     rg_uri := {| uri_path := []; uri_require_hugepages := false |} |};
     rn_pid := 0 |}.

(** [tp_consumer_pool_t] and [tp_payload_pool_t]. *)
Record attached_pool := {
  po_pool_id : Z;
  po_nslots : Z;
  po_stride_bytes : Z;
  po_region : attached_region;
}.

(** Zeroed memory. *)
Definition zero_pool : attached_pool :=
  {| po_pool_id := 0; po_nslots := 0; po_stride_bytes := 0; po_region := empty_region 0 |}.

(** [tp_consumer_pool_config_t] and [tp_payload_pool_config_t]. *)
Record pool_config := {
  pc_pool_id : Z;
  pc_nslots : Z;
  pc_stride_bytes : Z;
  pc_uri : ptr chars;
}.

(** [tp_consumer_config_t], and all but the identifier of [tp_producer_config_t];
    [pool_count] is the length of [pools]. *)
Record region_config := {
  cc_stream_id : Z;
  cc_epoch : Z;
  cc_layout_version : Z;
  cc_header_nslots : Z;
  cc_header_uri : ptr chars;
  cc_pools : list pool_config;
}.

(** The part of the client's context that a producer or a consumer reads. *)
Record client_settings := {
  cs_allowed_paths : tp_allowed_paths_t;
  cs_announce_period_ns : Z;
}.

(** ** The interface *)

Class Holder (St : Type) := {
  header_of : St -> attached_region;
  put_header : attached_region -> St -> St;
  pools_of : St -> ptr (list attached_pool);
  put_pools : ptr (list attached_pool) -> St -> St;
  count_of : St -> nat;
  paths_of : St -> tp_allowed_paths_t;
  header_put : forall r c, header_of (put_header r c) = r;
  header_put_pools : forall l c, header_of (put_pools l c) = header_of c;
  pools_put : forall l c, pools_of (put_pools l c) = l;
  pools_put_header : forall r c, pools_of (put_header r c) = pools_of c;
  put_header_twice : forall r r' c, put_header r (put_header r' c) = put_header r c;
  put_pools_twice : forall l l' c, put_pools l (put_pools l' c) = put_pools l c;
  put_pools_same : forall c, put_pools (pools_of c) c = c;
  paths_put_header : forall r c, paths_of (put_header r c) = paths_of c;
  paths_put_pools : forall l c, paths_of (put_pools l c) = paths_of c;
}.

(** ** Operations *)

Section Operations.
Context `{Sbe} {St Ev : Type} `{!Holder St} (W : world).
Abbreviation C := (C St Ev).

(** The superblock in mapped memory; NULL of a region that is not mapped. *)
Definition read_superblock (r : attached_region) : C (ptr bytes) :=
  if rg_addr (rn_region r) =? 0 then give NULL
  else ask (fun t => Some (w_memory W t (rg_addr (rn_region r)))).

(** [tp_shm_unmap] of a region that may not be mapped; no caller looks at the
    result, but a region whose [munmap] fails stays as it is.  A mapped region is
    never empty. *)
Definition unmap_region (r : attached_region) : C attached_region :=
  if rg_addr (rn_region r) =? 0 then give (empty_region (-1))
  else
    let+ result := system (tp_shm_unmap (w_kernel W) (rn_region r)) in
    give (match result with Ok _ => empty_region (-1) | Err _ => r end).

(** [tp_shm_map] into a region: without allowed paths it is not touched, and
    otherwise overwritten. *)
Definition map_region (writable : bool) (r : attached_region) (uri : ptr chars)
    : C (res unit * attached_region) :=
  let+ c := get in
  let allowed := paths_of c in
  if bool_decide (ap_canonical_paths allowed = []) then give (Err EINVAL, r)
  else
    let+ result := system (tp_shm_map (w_kernel W) uri writable (Some allowed)) in
    give (match result with
          | Ok rg => (Ok tt, {| rn_region := rg; rn_pid := 0 |})
          | Err e => (Err e, empty_region (-1))
          end).

Definition set_pool_region (i : nat) (r : attached_region) (c : St) : St :=
  put_pools (alter (fun p => p <| po_region := r |>) i <$> pools_of c) c.

Definition set_pool (i : nat) (p : attached_pool) (c : St) : St :=
  put_pools ((fun l => <[i := p]> l) <$> pools_of c) c.

(** [pools[i]]. *)
Definition get_pool (i : nat) : C attached_pool :=
  let+ c := get in
  match pools_of c ≫= (.!! i) with
  | Some p => give p
  | None => fault
  end.

Definition unmap_pool (i : nat) : C unit :=
  let+ p := get_pool i in
  let+ r := unmap_region (po_region p) in
  modify (set_pool_region i r).

Definition unmap_header : C unit :=
  let+ c := get in
  let+ r := unmap_region (header_of c) in
  modify (put_header r).

(** The loops over [pool_count] do not look whether there is an array. *)
Definition unmap_pools : C unit :=
  let+ c := get in
  for_each unmap_pool (seq 0 (count_of c)).

Definition header_expected (cfg : region_config) : tp_shm_expected_t :=
  {| ex_stream_id := cc_stream_id cfg; ex_layout_version := cc_layout_version cfg;
     ex_epoch := cc_epoch cfg; ex_region_type := tensor_pool_regionType_HEADER_RING;
     ex_pool_id := 0; ex_nslots := cc_header_nslots cfg; ex_slot_bytes := TP_HEADER_SLOT_BYTES;
     ex_stride_bytes := TP_NULL_U32 |}.

Definition pool_expected (cfg : region_config) (p : pool_config) : tp_shm_expected_t :=
  {| ex_stream_id := cc_stream_id cfg; ex_layout_version := cc_layout_version cfg;
     ex_epoch := cc_epoch cfg; ex_region_type := tensor_pool_regionType_PAYLOAD_POOL;
     ex_pool_id := pc_pool_id p; ex_nslots := pc_nslots p; ex_slot_bytes := TP_NULL_U32;
     ex_stride_bytes := pc_stride_bytes p |}.

(** Map, check the superblock and, if asked to, remember the process that wrote it. *)
Definition attach_region (writable with_pid : bool) (r : attached_region) (uri : ptr chars)
    (expected : tp_shm_expected_t) (put : attached_region -> St -> St) : C (res unit) :=
  let+ mapped := map_region writable r uri in
  do+ modify (put (snd mapped)) in
  match fst mapped with
  | Err e => give (Err e)
  | Ok _ =>
    let+ superblock := read_superblock (snd mapped) in
    match Superblock.tp_shm_validate_superblock superblock (Some expected) with
    | Err e => give (Err e)
    | Ok _ =>
      if with_pid then
        let+ superblock := read_superblock (snd mapped) in
        match Superblock.tp_shm_read_pid superblock with
        | Err e => give (Err e)
        | Ok pid => do+ modify (put ((snd mapped) <| rn_pid := pid |>)) in give (Ok tt)
        end
      else give (Ok tt)
    end
  end.

Definition attach_header (writable with_pid : bool) (cfg : region_config) : C (res unit) :=
  let+ c := get in
  attach_region writable with_pid (header_of c) (cc_header_uri cfg) (header_expected cfg) put_header.

Definition attach_pool (writable with_pid : bool) (cfg : region_config) (i : nat) (p : pool_config)
    : C (res unit) :=
  let+ _ := get_pool i in
  do+ modify (set_pool i zero_pool) in
  if negb (pc_nslots p =? cc_header_nslots cfg) then give (Err EINVAL)
  else
    do+ modify (set_pool i {| po_pool_id := pc_pool_id p; po_nslots := pc_nslots p;
                              po_stride_bytes := pc_stride_bytes p; po_region := empty_region 0 |}) in
    try+ _ := system (tp_shm_validate_stride_alignment (w_kernel W) (pc_uri p) (pc_stride_bytes p)) in
    attach_region writable with_pid (empty_region 0) (pc_uri p) (pool_expected cfg p) (set_pool_region i).

(** The loop over the pools, from index [i]. *)
Fixpoint attach_pools (writable with_pid : bool) (cfg : region_config) (i : nat)
    (pools : list pool_config) : C (res unit) :=
  match pools with
  | [] => give (Ok tt)
  | p :: pools' =>
    try+ _ := attach_pool writable with_pid cfg i p in
    attach_pools writable with_pid cfg (S i) pools'
  end.
End Operations.

(** ** Who owns the descriptors and the mappings *)

Definition mapped (r : tp_shm_region_t) : Prop := rg_addr r <> 0.
#[export] Instance mapped_dec r : Decision (mapped r).
Proof. unfold mapped. apply _. Defined.

Definition free (r : tp_shm_region_t) : Prop := rg_addr r = 0.
Definition empty (fd : Z) : tp_shm_region_t := rn_region (empty_region fd).

Lemma filter_slot (R : list tp_shm_region_t) j r r' :
  R !! j = Some r ->
  filter mapped (<[j := r']> R) ++ filter mapped [r] ≡ₚ filter mapped R ++ filter mapped [r'].
Proof.
  intros Hj. pose proof (lookup_lt_Some _ _ _ Hj) as Hlt. rewrite insert_take_drop by done.
  rewrite <- (take_drop_middle R j r Hj) at 3. rewrite !filter_app, !filter_cons, filter_nil.
  destruct (decide (mapped r)), (decide (mapped r')); solve_Permutation.
Qed.

Section Accounts.
Context (maps0 : list (Z * Z)) (fds0 : list Z).

(** What the process has open is what it had before and what the slots hold. *)
Record accounted (R : list tp_shm_region_t) (p : process) : Prop := {
  ac_maps : os_maps p ≡ₚ ((fun r => (rg_addr r, rg_length r)) <$> filter mapped R) ++ maps0;
  ac_fds : os_fds p ≡ₚ (rg_fd <$> filter mapped R) ++ fds0;
  ac_valid : Forall (fun r => 0 <= rg_fd r) (filter mapped R);
}.

Lemma remove_first_perm {A} `{EqDecision A} (x : A) l l' :
  l ≡ₚ x :: l' -> remove_first x l ≡ₚ l'.
Proof.
  revert l'. induction l as [|y l IH]; intros l' Hp.
  { by apply Permutation_nil_cons in Hp. }
  cbn [remove_first]. destruct (decide (x = y)) as [->|Hne]; [by apply Permutation_cons_inv in Hp|].
  assert (Hy : y ∈ l') by (assert (y ∈ x :: l') by (rewrite <- Hp; left); set_solver).
  apply elem_of_Permutation in Hy as [l2 Hl2].
  rewrite Hl2. f_equiv. apply IH. apply (Permutation_cons_inv (a := y)). rewrite Hp, Hl2.
  apply perm_swap.
Qed.

Lemma accounted_later R p : accounted R p -> accounted R (later p).
Proof. by intros []. Qed.

Lemma accounted_perm R R' p :
  filter mapped R ≡ₚ filter mapped R' -> accounted R p -> accounted R' p.
Proof. intros Hp [H1 H2 H3]. split; by rewrite <- Hp. Qed.

(** A slot without a mapping may be overwritten by another such. *)
Lemma accounted_free R p j r r' :
  R !! j = Some r -> free r -> free r' -> accounted R p -> accounted (<[j := r']> R) p.
Proof.
  intros Hj Hr Hr'. apply accounted_perm. pose proof (filter_slot R j r r' Hj) as Hp.
  rewrite !filter_cons_False, !filter_nil, !app_nil_r in Hp by (unfold mapped, free in *; congruence).
  by rewrite Hp.
Qed.

(** Mapping into a free slot. *)
Lemma accounted_map R p p' j r r' :
  R !! j = Some r -> free r -> mapped r' -> 0 <= rg_fd r' ->
  os_fds p' = rg_fd r' :: os_fds p -> os_maps p' = (rg_addr r', rg_length r') :: os_maps p ->
  accounted R p -> accounted (<[j := r']> R) p'.
Proof.
  intros Hj Hr Hr' Hfd Ef Em [H1 H2 H3]. pose proof (filter_slot R j r r' Hj) as Hp.
  rewrite (filter_cons_False _ r), filter_nil, app_nil_r in Hp by (unfold mapped, free in *; congruence).
  rewrite (filter_cons_True _ r'), filter_nil in Hp by done.
  rewrite (Permutation_app_comm (filter mapped R) [r']) in Hp. cbn [app] in Hp.
  split; rewrite Hp; cbn [fmap list_fmap app].
  - by rewrite Em, H1.
  - by rewrite Ef, H2.
  - by constructor.
Qed.

(** Giving a slot's mapping back. *)
Lemma accounted_unmap R p p' j r r' :
  R !! j = Some r -> mapped r -> free r' ->
  os_fds p' = remove_first (rg_fd r) (os_fds p) ->
  os_maps p' = remove_first (rg_addr r, rg_length r) (os_maps p) ->
  accounted R p -> accounted (<[j := r']> R) p'.
Proof.
  intros Hj Hr Hr' Ef Em [H1 H2 H3]. pose proof (filter_slot R j r r' Hj) as Hp.
  rewrite (filter_cons_True _ r), filter_nil in Hp by done.
  rewrite (filter_cons_False _ r'), filter_nil, app_nil_r in Hp by (unfold mapped, free in *; congruence).
  rewrite (Permutation_app_comm _ [r]) in Hp. cbn [app] in Hp.
  rewrite <- Hp in H1, H2, H3. cbn [fmap list_fmap app] in H1, H2.
  split.
  - rewrite Em. by apply remove_first_perm.
  - rewrite Ef. by apply remove_first_perm.
  - by inversion H3.
Qed.
End Accounts.

(** What the operating system documents: a mapping that exists can be given back,
    descriptors are not negative and [mmap] never returns NULL. *)
Record kernel_ok (K : kernel) : Prop := {
  ko_munmap : forall t, k_munmap K t = Ok tt;
  ko_open : forall t dirfd name fd, k_openat K t dirfd name = Ok fd -> 0 <= fd;
  ko_mmap : forall t fd len addr, k_mmap K t fd len = Ok addr -> addr <> 0;
}.

(** ** The slots of a holder: the header ring, then the pools *)

Section Slots.
Context {St : Type} `{!Holder St}.

Definition slots (c : St) : list tp_shm_region_t :=
  rn_region (header_of c) :: ((fun p => rn_region (po_region p)) <$> default [] (pools_of c)).

Definition nothing_mapped (c : St) : Prop := Forall free (slots c).

(** The count is that of the array. *)
Definition pools_ok (c : St) : Prop :=
  match pools_of c with
  | Some l => count_of c = length l
  | NULL => count_of c = 0%nat
  end.

Lemma slots_header c r : slots (put_header r c) = <[0%nat := rn_region r]> (slots c).
Proof. unfold slots. by rewrite header_put, pools_put_header. Qed.

Lemma slots_put_pools l c :
  slots (put_pools l c) = rn_region (header_of c) :: ((fun p => rn_region (po_region p)) <$> default [] l).
Proof. unfold slots. by rewrite header_put_pools, pools_put. Qed.

Lemma slots_pool_region i r c : slots (set_pool_region i r c) = <[S i := rn_region r]> (slots c).
Proof.
  unfold set_pool_region. rewrite slots_put_pools. unfold slots. destruct (pools_of c) as [l|]; [|done].
  cbn. f_equal. revert i. induction l as [|p l IH]; intros [|i]; try done. cbn. f_equal. apply IH.
Qed.

Lemma slots_pool i p c : slots (set_pool i p c) = <[S i := rn_region (po_region p)]> (slots c).
Proof.
  unfold set_pool. rewrite slots_put_pools. unfold slots. destruct (pools_of c) as [l|]; [|done].
  cbn. f_equal. by rewrite list_fmap_insert.
Qed.

Lemma slots_lookup_pool c l i q :
  pools_of c = Some l -> l !! i = Some q -> slots c !! S i = Some (rn_region (po_region q)).
Proof.
  intros El Hq. unfold slots. rewrite El. change (default [] (Some l)) with l.
  rewrite lookup_cons. by rewrite list_lookup_fmap, Hq.
Qed.

Lemma filter_nothing c : nothing_mapped c -> filter mapped (slots c) = [].
Proof.
  unfold nothing_mapped. induction 1 as [|r R Hr _ IH]; [done|].
  rewrite filter_cons_False; [done|]. unfold mapped, free in *. congruence.
Qed.

Lemma accounted_nothing maps0 fds0 c c' p :
  nothing_mapped c -> nothing_mapped c' -> accounted maps0 fds0 (slots c) p ->
  accounted maps0 fds0 (slots c') p.
Proof.
  intros H1 H2. apply accounted_perm. by rewrite !filter_nothing.
Qed.

Lemma filter_free_pools (R : list attached_pool) :
  Forall (fun q => free (rn_region (po_region q))) R ->
  filter mapped ((fun p => rn_region (po_region p)) <$> R) = [].
Proof.
  induction 1 as [|q R Hq _ IH]; [done|]. rewrite fmap_cons, filter_cons_False; [done|].
  unfold mapped, free in *. congruence.
Qed.

(** An array of pools without mappings may be dropped. *)
Lemma accounted_drop_pools maps0 fds0 l c p :
  Forall (fun q => free (rn_region (po_region q))) (default [] l) ->
  accounted maps0 fds0 (slots (put_pools l c)) p -> accounted maps0 fds0 (slots (put_pools NULL c)) p.
Proof.
  intros Hl. apply accounted_perm. rewrite !slots_put_pools, !filter_cons.
  rewrite filter_free_pools by done. done.
Qed.

Lemma set_pool_pools i q c l :
  pools_of c = Some l -> set_pool i q c = put_pools (Some (<[i := q]> l)) c.
Proof. intros E. unfold set_pool. by rewrite E. Qed.

Lemma set_pool_region_pools i r c l :
  pools_of c = Some l ->
  set_pool_region i r c = put_pools (Some (alter (fun p => p <| po_region := r |>) i l)) c.
Proof. intros E. unfold set_pool_region. by rewrite E. Qed.

Lemma put_pools_id l c : pools_of c = Some l -> put_pools (Some l) c = c.
Proof. intros <-. apply put_pools_same. Qed.

Lemma nothing_mapped_pools c l :
  free (rn_region (header_of c)) ->
  (forall i q, l !! i = Some q -> free (rn_region (po_region q))) ->
  nothing_mapped (put_pools (Some l) c).
Proof.
  intros Hh Hl. apply (Forall_lookup_2 _ l) in Hl. unfold nothing_mapped. rewrite slots_put_pools.
  constructor; [done|]. by apply Forall_fmap.
Qed.
End Slots.

Lemma alter_insert_same {A} (f : A -> A) (i : nat) x (l : list A) : alter f i (<[i := x]> l) = <[i := f x]> l.
Proof. revert i. induction l as [|y l IH]; intros [|i]; try done. cbn. f_equal. apply IH. Qed.

Lemma alter_twice {A} (f g : A -> A) (i : nat) (l : list A) :
  (forall x, g (f x) = g x) -> alter g i (alter f i l) = alter g i l.
Proof.
  intros Hg. revert i. induction l as [|y l IH]; intros [|i]; try done; cbn; f_equal; [apply Hg|apply IH].
Qed.

(** ** What the operations do *)

Section Specs.
Context `{Sbe} {St Ev : Type} `{!Holder St} (W : world) (HK : kernel_ok (w_kernel W)).
Context (maps0 : list (Z * Z)) (fds0 : list Z).
Abbreviation accounted := (accounted maps0 fds0).
Abbreviation machine := (machine St Ev).

Lemma unmap_region_spec F r j R (Q : attached_region -> machine -> Prop) s :
  R !! j = Some (rn_region r) -> accounted R (ma_process s) ->
  (forall p', accounted (<[j := empty (-1)]> R) p' ->
     Q (empty_region (-1))
       {| ma_state := ma_state s; ma_process := p'; ma_events := ma_events s |}) ->
  wp F (unmap_region W r) Q s.
Proof.
  intros Hj Ha HQ. unfold unmap_region. destruct (Z.eqb_spec (rg_addr (rn_region r)) 0) as [E|E].
  { wps. destruct s. by eapply HQ, accounted_free. }
  wps. apply wp_system. pose proof (unmap_descriptors (w_kernel W) (rn_region r) (ma_process s)) as Hu.
  destruct (tp_shm_unmap _ _ _) as [[[]|e] p'] eqn:Eu.
  - wps. apply HQ. destruct Hu as [Hf Hm].
    assert (Hfd : 0 <= rg_fd (rn_region r)).
    { pose proof (ac_valid _ _ _ _ Ha) as Hv. rewrite Forall_forall in Hv. apply Hv.
      apply list_elem_of_filter. split; [done|]. by eapply list_elem_of_lookup_2. }
    destruct (Z.leb_spec 0 (rg_fd (rn_region r))); [|lia]. by eapply accounted_unmap.
  - exfalso. unfold tp_shm_unmap, try_bind, bind, munmap in Eu. rewrite (ko_munmap _ HK) in Eu.
    by destruct (0 <=? _).
Qed.

Lemma map_region_spec F writable r j R uri (Q : _ -> machine -> Prop) s :
  R !! j = Some (rn_region r) -> free (rn_region r) -> accounted R (ma_process s) ->
  (forall r' p', accounted (<[j := rn_region r']> R) p' -> mapped (rn_region r') ->
     TP_SUPERBLOCK_SIZE_BYTES <= rg_length (rn_region r') ->
     Q (Ok tt, r') {| ma_state := ma_state s; ma_process := p'; ma_events := ma_events s |}) ->
  (forall e r' p', accounted (<[j := rn_region r']> R) p' -> free (rn_region r') ->
     Q (Err e, r') {| ma_state := ma_state s; ma_process := p'; ma_events := ma_events s |}) ->
  wp F (map_region W writable r uri) Q s.
Proof.
  intros Hj Hfree Ha HQ HE. unfold map_region. wps. case_bool_decide.
  { wps. destruct s. apply HE; [|done]. by rewrite list_insert_id. }
  wps. apply wp_system. set (allowed := Some _).
  pose proof (map_descriptors (w_kernel W) uri writable allowed (ma_process s)) as Hm.
  pose proof (map_answered (w_kernel W) uri writable allowed (ma_process s)) as Hans.
  destruct (tp_shm_map _ _ _ _ _) as [[rg|e] p'].
  - destruct (Hans rg p' eq_refl) as ((t & dirfd & name & Ho) & (t' & len & Hmm) & Hlen).
    destruct Hm as [Hf Hmaps]. wps. apply HQ; [|by eapply ko_mmap|done].
    eapply accounted_map; try done; [by eapply ko_mmap|by eapply ko_open].
  - destruct Hm as [Hf Hmaps]. wps. apply HE; [|done].
    assert (Ha' : accounted R p') by (destruct Ha; split; by rewrite ?Hf, ?Hmaps).
    by eapply accounted_free.
Qed.

Lemma get_pool_spec F i c l p (Q : _ -> machine -> Prop) s :
  ma_state s = c -> pools_of c = Some l -> l !! i = Some p -> Q p s -> wp F (get_pool i) Q s.
Proof. intros <- El Ei HQ. unfold get_pool. wps. rewrite El. cbn [mbind option_bind]. by rewrite Ei. Qed.

Definition emptied (k n : nat) (l l' : list attached_pool) : Prop :=
  length l' = length l /\
  forall i q, l' !! i = Some q ->
    (k <= i < k + n)%nat /\ free (rn_region (po_region q)) \/ l !! i = Some q /\ ~ (k <= i < k + n)%nat.

Lemma unmap_loop_spec F n : forall k c p ev l (Q : unit -> machine -> Prop),
  pools_of c = Some l -> (k + n <= length l)%nat -> accounted (slots c) p ->
  (forall l' p', emptied k n l l' -> accounted (slots (put_pools (Some l') c)) p' ->
     Q tt {| ma_state := put_pools (Some l') c; ma_process := p'; ma_events := ev |}) ->
  wp F (for_each (unmap_pool W) (seq k n)) Q
    {| ma_state := c; ma_process := p; ma_events := ev |}.
Proof.
  induction n as [|n IH]; intros k c p ev l Q El Hk Ha HQ; cbn [seq for_each]; wps.
  { rewrite <- (put_pools_id l c El). apply HQ; [|by rewrite (put_pools_id l c El)].
    split; [done|]. intros i q Hi. right. split; [done|lia]. }
  destruct (lookup_lt_is_Some_2 l k) as [q Hq]; [lia|].
  unfold unmap_pool. wps. eapply get_pool_spec; [done|done|done|]. wps.
  apply (unmap_region_spec F (po_region q) (S k) (slots c)); [|done|].
  { by eapply slots_lookup_pool. }
  intros p' Ha'. cbn [ma_state ma_events]. wps.
  rewrite (set_pool_region_pools _ _ _ _ El). set (l1 := alter _ k l).
  assert (Hslots : slots (put_pools (Some l1) c) = <[S k := empty (-1)]> (slots c))
    by (unfold l1; by rewrite <- set_pool_region_pools, slots_pool_region).
  apply (IH _ _ _ _ l1); [apply pools_put|unfold l1; rewrite length_alter; lia|by rewrite Hslots|].
  intros l' p'' [Hlen He]. rewrite put_pools_twice. intros Ha''.
  apply HQ; [|done]. unfold l1 in *. rewrite length_alter in Hlen. split; [done|].
  intros i x Hx. destruct (He i x Hx) as [[Hi Hf]|[Hl Hi]]; [left; split; [lia|done]|].
  destruct (decide (i = k)) as [->|Hne].
  - rewrite list_lookup_alter_eq, Hq in Hl. injection Hl as <-. left. split; [lia|done].
  - rewrite list_lookup_alter_ne in Hl by done. right. split; [done|lia].
Qed.

(** All pools, when the count is that of the array. *)
Lemma unmap_pools_spec F c p ev (Q : unit -> machine -> Prop) :
  pools_ok c -> accounted (slots c) p ->
  (forall l' p', (l' = NULL <-> pools_of c = NULL) -> Forall (fun q => free (rn_region (po_region q))) (default [] l') ->
     accounted (slots (put_pools l' c)) p' ->
     Q tt {| ma_state := put_pools l' c; ma_process := p'; ma_events := ev |}) ->
  wp F (unmap_pools W) Q {| ma_state := c; ma_process := p; ma_events := ev |}.
Proof.
  intros Hp Ha HQ. unfold unmap_pools. wps. unfold pools_ok in Hp.
  destruct (pools_of c) as [l|] eqn:El; rewrite Hp; clear Hp.
  - apply (unmap_loop_spec F _ _ _ _ _ l); [done|done|done|]. intros l' p' [Hlen He] Ha'.
    apply HQ; [done| |done]. apply Forall_lookup. intros i q Hq.
    destruct (He i q Hq) as [[_ Hf]|[_ Hi]]; [done|].
    apply lookup_lt_Some in Hq. change (default [] (Some l')) with l' in Hq. lia.
  - cbn [seq for_each]. wps. rewrite <- (put_pools_same c), El.
    apply HQ; [done|constructor|]. by rewrite <- El, put_pools_same.
Qed.

Lemma unmap_header_spec F c p ev (Q : unit -> machine -> Prop) :
  accounted (slots c) p ->
  (forall p', accounted (slots (put_header (empty_region (-1)) c)) p' ->
     Q tt {| ma_state := put_header (empty_region (-1)) c; ma_process := p'; ma_events := ev |}) ->
  wp F (unmap_header W) Q {| ma_state := c; ma_process := p; ma_events := ev |}.
Proof.
  intros Ha HQ. unfold unmap_header. wps.
  apply (unmap_region_spec F _ 0 (slots c)); [done|done|]. intros p' Ha'. wps.
  apply HQ. by rewrite slots_header.
Qed.

(** The pools, then the header ring, and what follows. *)
Lemma unmap_slots_spec F {A} (k : C St Ev A) c p ev (Q : A -> machine -> Prop) :
  pools_ok c -> accounted (slots c) p ->
  (forall l p', let c' := put_header (empty_region (-1)) (put_pools l c) in
     nothing_mapped c' -> accounted (slots c') p' ->
     wp F k Q {| ma_state := c'; ma_process := p'; ma_events := ev |}) ->
  wp F (do+ unmap_pools W in do+ unmap_header W in k) Q
    {| ma_state := c; ma_process := p; ma_events := ev |}.
Proof.
  intros Hp Ha HQ. wps. apply unmap_pools_spec; [done|done|]. intros l p' _ Hl Ha'. wps.
  apply unmap_header_spec; [done|]. intros p'' Ha''. apply HQ; [|done].
  unfold nothing_mapped. rewrite slots_header, slots_put_pools. constructor; [done|]. by apply Forall_fmap.
Qed.

(** ** Attaching *)

(** The region is mapped, held a superblock that met the expectation, and its
    process identifier was read from there, if it was asked for. *)
Record region_ready (with_pid : bool) (e : tp_shm_expected_t) (r : attached_region) : Prop := {
  rr_mapped : mapped (rn_region r);
  rr_length : TP_SUPERBLOCK_SIZE_BYTES <= rg_length (rn_region r);
  rr_valid : exists t, Superblock.tp_shm_validate_superblock
    (Some (w_memory W t (rg_addr (rn_region r)))) (Some e) = Ok tt;
  rr_pid : with_pid = true -> exists t,
    Superblock.tp_shm_read_pid (Some (w_memory W t (rg_addr (rn_region r)))) = Ok (rn_pid r);
}.

Lemma read_superblock_spec F r (Q : _ -> machine -> Prop) s :
  mapped (rn_region r) ->
  (forall t p', (forall R, accounted R (ma_process s) -> accounted R p') ->
     Q (Some (w_memory W t (rg_addr (rn_region r))))
       {| ma_state := ma_state s; ma_process := p'; ma_events := ma_events s |}) ->
  wp F (read_superblock W r) Q s.
Proof.
  intros Hm HQ. unfold read_superblock. destruct (Z.eqb_spec (rg_addr (rn_region r)) 0); [done|].
  wps. apply HQ. intros R. apply accounted_later.
Qed.

Lemma attach_region_spec F writable with_pid j r uri e put c p ev (Q : _ -> machine -> Prop) :
  (forall r' c, slots (put r' c) = <[j := rn_region r']> (slots c)) ->
  (forall r1 r2 c, put r2 (put r1 c) = put r2 c) ->
  slots c !! j = Some (rn_region r) -> free (rn_region r) -> accounted (slots c) p ->
  (forall r' p', accounted (slots (put r' c)) p' -> region_ready with_pid e r' ->
     Q (Ok tt) {| ma_state := put r' c; ma_process := p'; ma_events := ev |}) ->
  (forall err r' p', accounted (slots (put r' c)) p' ->
     Q (Err err) {| ma_state := put r' c; ma_process := p'; ma_events := ev |}) ->
  wp F (attach_region W writable with_pid r uri e put) Q
    {| ma_state := c; ma_process := p; ma_events := ev |}.
Proof.
  intros Hslots Hput Hj Hfree Ha HQ HE. unfold attach_region. wps.
  apply (map_region_spec F writable r j (slots c)); [done..| |].
  2:{ intros err r' p' Ha' _. cbn [fst snd]. wps. apply HE. by rewrite Hslots. }
  intros r' p' Ha' Hm Hlen. cbn [fst snd]. wps. apply read_superblock_spec; [done|].
  intros t p1 H1. cbn [ma_process ma_state ma_events] in *.
  destruct (Superblock.tp_shm_validate_superblock _ _) as [[]|err] eqn:Evalid; wps.
  2:{ apply HE. rewrite Hslots. by apply H1. }
  destruct with_pid; wps.
  2:{ apply HQ; [rewrite Hslots; by apply H1|]. split; [done|done|by exists t|done]. }
  apply read_superblock_spec; [done|]. intros t2 p2 H2. cbn [ma_process ma_state ma_events] in *.
  destruct (Superblock.tp_shm_read_pid _) as [pid|err] eqn:Ep; wps.
  - rewrite Hput. apply HQ; [rewrite Hslots; by apply H2, H1|]. split; [done|done|by exists t|by exists t2].
  - apply HE. rewrite Hslots. by apply H2, H1.
Qed.

Lemma attach_header_spec F writable with_pid cfg c p ev (Q : _ -> machine -> Prop) :
  free (rn_region (header_of c)) -> accounted (slots c) p ->
  (forall r' p', accounted (slots (put_header r' c)) p' ->
     region_ready with_pid (header_expected cfg) r' ->
     Q (Ok tt) {| ma_state := put_header r' c; ma_process := p'; ma_events := ev |}) ->
  (forall err r' p', accounted (slots (put_header r' c)) p' ->
     Q (Err err) {| ma_state := put_header r' c; ma_process := p'; ma_events := ev |}) ->
  wp F (attach_header W writable with_pid cfg) Q {| ma_state := c; ma_process := p; ma_events := ev |}.
Proof.
  intros Hf Ha HQ HE. unfold attach_header. wps.
  apply (attach_region_spec F _ _ 0); [intros; apply slots_header|intros; apply put_header_twice|done..].
Qed.

Record pool_ready (with_pid : bool) (cfg : region_config) (pc : pool_config) (q : attached_pool) : Prop := {
  pr_pool_id : po_pool_id q = pc_pool_id pc;
  pr_nslots : po_nslots q = cc_header_nslots cfg /\ pc_nslots pc = cc_header_nslots cfg;
  pr_stride : po_stride_bytes q = pc_stride_bytes pc;
  pr_aligned : 64 <= po_stride_bytes q /\ po_stride_bytes q mod 64 = 0;
  pr_region : region_ready with_pid (pool_expected cfg pc) (po_region q);
}.

(** Checking the alignment opens nothing. *)
Lemma stride_alignment_spec F uri stride (Q : _ -> machine -> Prop) s :
  (forall p', (forall R, accounted R (ma_process s) -> accounted R p') ->
     64 <= stride -> stride mod 64 = 0 ->
     Q (Ok tt) {| ma_state := ma_state s; ma_process := p'; ma_events := ma_events s |}) ->
  (forall err p', (forall R, accounted R (ma_process s) -> accounted R p') ->
     Q (Err err) {| ma_state := ma_state s; ma_process := p'; ma_events := ma_events s |}) ->
  wp F (system (tp_shm_validate_stride_alignment (w_kernel W) uri stride)) Q s.
Proof.
  intros HQ HE. apply wp_system. unfold tp_shm_validate_stride_alignment.
  destruct uri as [uri|]; [|by apply HE]. destruct (negb _) eqn:Es; [|by apply HE].
  destruct (tp_shm_uri_parse _) as [u|e]; [|by apply HE].
  assert (Hl : forall e0 R, accounted R (ma_process s) ->
    accounted R (called id id (EStatfs (uri_path u) e0) (ma_process s))) by (intros e0 R []; by split).
  unfold try_bind, bind, statfs. destruct (k_statfs _ _ _) as [t|e]; [|apply HE; intros; by apply Hl].
  bool_simp. destruct (negb _); [|apply HE; intros; by apply Hl].
  apply HQ; [intros; by apply Hl|lia|lia].
Qed.

Lemma attach_pool_spec F writable with_pid cfg i pc c l q p ev (Q : _ -> machine -> Prop) :
  pools_of c = Some l -> l !! i = Some q -> free (rn_region (po_region q)) -> accounted (slots c) p ->
  (forall q' p', accounted (slots (put_pools (Some (<[i := q']> l)) c)) p' ->
     pool_ready with_pid cfg pc q' ->
     Q (Ok tt) {| ma_state := put_pools (Some (<[i := q']> l)) c; ma_process := p'; ma_events := ev |}) ->
  (forall err q' p', accounted (slots (put_pools (Some (<[i := q']> l)) c)) p' ->
     Q (Err err) {| ma_state := put_pools (Some (<[i := q']> l)) c; ma_process := p'; ma_events := ev |}) ->
  wp F (attach_pool W writable with_pid cfg i pc) Q {| ma_state := c; ma_process := p; ma_events := ev |}.
Proof.
  intros El Hi Hfree Ha HQ HE. unfold attach_pool. wps. eapply get_pool_spec; [done|done|done|]. wps.
  pose proof (slots_lookup_pool c l i q El Hi) as Hslot.
  assert (Hz : forall q', free (rn_region (po_region q')) -> accounted (slots (set_pool i q' c)) p)
    by (intros q' Hq'; rewrite slots_pool; by eapply accounted_free).
  destruct (Z.eqb_spec (pc_nslots pc) (cc_header_nslots cfg)) as [En|]; cbn [negb]; wps.
  2:{ rewrite (set_pool_pools _ _ _ _ El). apply HE. rewrite <- (set_pool_pools _ _ _ _ El). by apply Hz. }
  set (q1 := {| po_pool_id := pc_pool_id pc; po_nslots := pc_nslots pc;
                po_stride_bytes := pc_stride_bytes pc; po_region := empty_region 0 |}).
  assert (E1 : set_pool i q1 (set_pool i zero_pool c) = put_pools (Some (<[i := q1]> l)) c).
  { rewrite (set_pool_pools _ _ _ _ El), (set_pool_pools _ _ _ _ (pools_put _ _)).
    by rewrite put_pools_twice, list_insert_insert_eq. }
  rewrite E1. apply lookup_lt_Some in Hi as Hlt.
  assert (Ha1 : accounted (slots (put_pools (Some (<[i := q1]> l)) c)) p)
    by (rewrite <- (set_pool_pools _ _ _ _ El); by apply Hz).
  apply stride_alignment_spec; cbn [ma_process ma_state ma_events].
  2:{ intros err p' Hp'. wps. apply HE. by apply Hp'. }
  intros p' Hp' Hs1 Hs2. cbv beta iota.
  assert (Hput : forall r, set_pool_region i r (put_pools (Some (<[i := q1]> l)) c) =
    put_pools (Some (<[i := q1 <| po_region := r |>]> l)) c).
  { intros r. rewrite (set_pool_region_pools _ _ _ _ (pools_put _ _)), put_pools_twice.
    by rewrite alter_insert_same. }
  apply (attach_region_spec F _ _ (S i)); [intros; apply slots_pool_region| |  |done|by apply Hp'|..].
  - intros r1 r2 c'. unfold set_pool_region. rewrite put_pools_twice, pools_put. f_equal.
    destruct (pools_of c') as [l'|]; [|done]. cbn. f_equal. apply alter_twice. by intros [].
  - rewrite (slots_lookup_pool _ _ i q1 (pools_put _ _)); [done|]. by rewrite list_lookup_insert_eq.
  - intros r' p2. rewrite Hput. intros Ha2 Hr. by apply HQ.
  - intros err r' p2. rewrite Hput. intros Ha2. by apply HE.
Qed.

Lemma attach_pools_spec F writable with_pid cfg ps : forall i c l p ev (Q : _ -> machine -> Prop),
  pools_of c = Some l -> length l = (i + length ps)%nat ->
  (forall j q, (i <= j)%nat -> l !! j = Some q -> free (rn_region (po_region q))) ->
  accounted (slots c) p ->
  (forall qs p', accounted (slots (put_pools (Some (take i l ++ qs)) c)) p' ->
     Forall2 (pool_ready with_pid cfg) ps qs ->
     Q (Ok tt) {| ma_state := put_pools (Some (take i l ++ qs)) c; ma_process := p'; ma_events := ev |}) ->
  (forall err l' p', length l' = length l -> accounted (slots (put_pools (Some l') c)) p' ->
     Q (Err err) {| ma_state := put_pools (Some l') c; ma_process := p'; ma_events := ev |}) ->
  wp F (attach_pools W writable with_pid cfg i ps) Q
    {| ma_state := c; ma_process := p; ma_events := ev |}.
Proof.
  induction ps as [|pc ps IH]; intros i c l p ev Q El Hlen Hfree Ha HQ HE; cbn [attach_pools].
  { wps. assert (El' : take i l ++ [] = l) by (rewrite app_nil_r; apply take_ge; cbn in Hlen; lia).
    specialize (HQ [] p). rewrite El', (put_pools_id l c El) in HQ. by apply HQ. }
  cbn [length] in Hlen. destruct (lookup_lt_is_Some_2 l i) as [q Hq]; [lia|]. wps.
  apply (attach_pool_spec F _ _ cfg i pc c l q); [done|done|by eapply Hfree|done|..].
  - intros q' p' Ha' Hr. cbv beta iota.
    apply (IH _ _ (<[i := q']> l)); [apply pools_put|rewrite length_insert; lia| |done|..].
    + intros j x Hj Hx. rewrite list_lookup_insert_ne in Hx by lia. apply (Hfree j); [lia|done].
    + intros qs p2. rewrite put_pools_twice.
      assert (E : take (S i) (<[i := q']> l) ++ qs = take i l ++ q' :: qs).
      { rewrite (take_S_r _ i q') by (rewrite list_lookup_insert_eq; [done|lia]).
        rewrite take_insert_ge, <- app_assoc by lia. done. }
      rewrite E. intros Ha2 Hqs. apply HQ; [done|]. by constructor.
    + intros err l' p2. rewrite length_insert, put_pools_twice. intros Hl' Ha2. by apply HE.
  - intros err q' p' Ha'. cbv beta iota. wps. apply HE; [by rewrite length_insert|done].
Qed.
End Specs.

(** ** A concrete world *)

#[local] Existing Instance le_sbe.

(** A stream of one pool: two files in a directory, at their own addresses, both
    with the superblock the driver writes. *)
Module TwoFiles.

Definition kernel_of_two_files : kernel :=
  {| k_realpath := fun _ path => Ok path; k_stat := fun _ _ => Ok one_file;
     k_open_root := fun _ => Ok 3;
     k_openat := fun _ _ name => Ok (if bool_decide (name = lit "header.ring") then 100
                                     else if bool_decide (name = lit "1.pool") then 101 else 4);
     k_fstat := fun _ _ => Ok one_file; k_fstatfs := fun _ _ => Ok TMPFS_MAGIC;
     k_statfs := fun _ _ => Ok TMPFS_MAGIC; k_mmap := fun _ fd _ => Ok (4096 + Z.abs fd * 4096);
     k_munmap := fun _ => Ok tt |}.

Definition demo_world : world :=
  {| w_kernel := kernel_of_two_files;
     w_memory := fun _ addr =>
       if addr =? 101 * 4096
       then Superblock.region_superblock 10 77 0 tensor_pool_regionType_HEADER_RING 8 0 1234 500
       else Superblock.region_superblock 10 77 1 tensor_pool_regionType_PAYLOAD_POOL 8 4096 1234 500;
     w_clock_ns := fun n => if (n <? 10)%nat then 1000 else 3000; w_realtime_ns := fun _ => 0;
     w_alloc := fun _ => true; w_subscribe := fun _ => true; w_offer := fun _ => true |}.

Lemma demo_kernel_ok : kernel_ok (w_kernel demo_world).
Proof.
  split.
  - done.
  - intros t dirfd name fd E. cbn -[bool_decide] in E. injection E as <-.
    destruct (bool_decide _); [lia|]. destruct (bool_decide _); lia.
  - intros t fd len addr E. cbn -[Z.mul Z.add] in E. injection E as <-. lia.
Qed.

Definition demo_settings : client_settings :=
  {| cs_allowed_paths := dev_shm "/dev/shm"; cs_announce_period_ns := 1000000000 |}.

Definition demo_uri (file : string) : chars :=
  lit ("shm:file?path=/dev/shm/tensorpool-user/default/10/77/" ++ file ++ "|require_hugepages=false").

Definition demo_config (nslots : Z) : region_config :=
  {| cc_stream_id := 10; cc_epoch := 77; cc_layout_version := 1; cc_header_nslots := nslots;
     cc_header_uri := Some (demo_uri "header.ring");
     cc_pools := [{| pc_pool_id := 1; pc_nslots := 8; pc_stride_bytes := 4096;
                     pc_uri := Some (demo_uri "1.pool") |}] |}.
End TwoFiles.
