(* ===== verification/ConsumerMapping.v ===== *)
(** * ConsumerMapping: what a consumer has mapped (tp_consumer.c)

    A consumer maps the header ring and the payload pools that an announcement or
    the driver's attach response names, and gives them up when the producer's
    epoch, its activity or its process is gone, when the driver revokes the lease,
    or when the producer tells it to do without shared memory.  The operations are
    computations of Machine over the state of the consumer; the regions are those
    of Regions, mapped for reading and with the identifier of the process that
    wrote them. *)

From Stdlib Require Import ZArith Lia Bool Ascii String.
From stdpp Require Import strings list.
From coqutil Require Import Datatypes.RecordSetters.
From S2P Require Import Prelude Sbe Seqlock Uri Shm Message ConsumerManager ProgressPoller.
From S2P Require Import Driver DriverMessages DriverClient Control Metadata Machine Regions.
Import Mapping TriangleBracketNotations.

#[local] Open Scope Z_scope.
#[local] Open Scope list_scope.

(** ** State *)

Record tp_consumer_context_t := {
  cx_stream_id : Z;
  cx_consumer_id : Z;
  cx_use_driver : bool;
  cx_driver_request : tp_driver_attach_request_t;
  cx_hello : tp_consumer_hello_t;
}.

Inductive tp_consumer_state_t :=
  | TP_CONSUMER_STATE_UNMAPPED
  | TP_CONSUMER_STATE_MAPPED
  | TP_CONSUMER_STATE_FALLBACK.

(** Publications by whether they are there; the driver client and the progress
    poller NULL before they are initialised. *)
Record tp_consumer_t := {
  co_settings : client_settings;
  co_context : tp_consumer_context_t;
  co_control_publication : bool;
  co_qos_publication : bool;
  co_assigned_descriptor_stream_id : Z;
  co_assigned_control_stream_id : Z;
  co_progress_poller : ptr tp_progress_poller_t;
  co_header_region : attached_region;
  co_pools : ptr (list attached_pool);
  co_pool_count : nat;
  co_stream_id : Z;
  co_epoch : Z;
  co_layout_version : Z;
  co_header_nslots : Z;
  co_driver : ptr tp_driver_client_t;
  co_driver_attached : bool;
  co_state : tp_consumer_state_t;
  co_use_shm : bool;
  co_payload_fallback_uri : chars;
  co_shm_mapped : bool;
  co_mapped_epoch : Z;
  co_attach_time_ns : Z;
  co_last_seq_seen : Z;
  co_drops_gap : Z;
  co_drops_late : Z;
  co_last_qos_ns : Z;
  co_announce_join_time_ns : Z;
  co_last_announce_rx_ns : Z;
  co_last_announce_timestamp_ns : Z;
  co_last_announce_clock_domain : Z;
  co_last_announce_epoch : Z;
  co_next_attach_ns : Z;
  co_attach_failures : Z;
  co_reattach_requested : bool;
}.

Record tp_frame_descriptor_t := {
  fd_seq : Z;
  fd_timestamp_ns : Z;
  fd_meta_version : Z;
  fd_trace_id : Z;
}.

(** What a consumer lets others see: callbacks and messages. *)
Inductive consumer_event :=
  | HelloSent (h : tp_consumer_hello_t)
  | QosSent (consumer_id last_seq_seen drops_gap drops_late : Z)
  | FrameDescribed (d : tp_frame_descriptor_t)
  | LeaseRevokedError (r : tp_driver_lease_revoked_t)
  | ShutdownError (s : tp_driver_shutdown_t)
  | DetachRequested (lease_id stream_id client_id role : Z).

Abbreviation machine := (Machine.machine tp_consumer_t consumer_event).
Abbreviation C := (Machine.C tp_consumer_t consumer_event).

#[export] Program Instance consumer_holder : Holder tp_consumer_t := {|
  header_of := co_header_region;
  put_header r c := c <| co_header_region := r |>;
  pools_of := co_pools;
  put_pools l c := c <| co_pools := l |>;
  count_of := co_pool_count;
  paths_of c := cs_allowed_paths (co_settings c);
|}.
Solve Obligations with (by intros; repeat match goal with c : tp_consumer_t |- _ => destruct c end).

(** ** Reconnecting to the driver *)

Definition tp_consumer_next_backoff_ns (failures : Z) : Z :=
  let shift := if 5 <? failures then 5 else failures in
  u64 (Z.shiftl (100 * 1000 * 1000) shift).

Definition tp_consumer_schedule_reattach (now_ns : Z) (c : tp_consumer_t) : tp_consumer_t :=
  if negb (cx_use_driver (co_context c)) then c
  else
    let failures := u32 (co_attach_failures c + 1) in
    c <| co_reattach_requested := true |> <| co_attach_failures := failures |>
      <| co_next_attach_ns := u64 (now_ns + tp_consumer_next_backoff_ns (u32 (failures - 1))) |>.

Definition tp_consumer_reattach_due (c : tp_consumer_t) (now_ns : Z) : bool :=
  co_reattach_requested c && (co_next_attach_ns c <=? now_ns).

Definition tp_consumer_clear_reattach (c : tp_consumer_t) : tp_consumer_t :=
  c <| co_reattach_requested := false |> <| co_attach_failures := 0 |> <| co_next_attach_ns := 0 |>.

(** [correlation_id] and [client_id] are the next identifiers. *)
Definition tp_consumer_fill_driver_request (correlation_id client_id : Z) (c : tp_consumer_t)
    : tp_driver_attach_request_t * tp_consumer_t :=
  let cx := co_context c in
  let r := cx_driver_request cx in
  let client := if at_client_id r =? 0
                then if cx_consumer_id cx =? 0 then client_id else cx_consumer_id cx
                else at_client_id r in
  let cx' := if (at_client_id r =? 0) && (cx_consumer_id cx =? 0)
             then cx <| cx_consumer_id := client_id |> else cx in
  ({| at_correlation_id := if at_correlation_id r =? 0 then correlation_id else at_correlation_id r;
      at_stream_id := if at_stream_id r =? 0 then cx_stream_id cx else at_stream_id r;
      at_client_id := client;
      at_role := if at_role r =? 0 then tensor_pool_role_CONSUMER else at_role r;
      at_expected_layout_version := at_expected_layout_version r;
      at_publish_mode := if at_publish_mode r =? 0 then tensor_pool_publishMode_REQUIRE_EXISTING
                         else at_publish_mode r;
      at_require_hugepages := if at_require_hugepages r =? 0 then TP_HUGEPAGES_UNSPECIFIED
                              else at_require_hugepages r;
      at_desired_node_id := at_desired_node_id r |},
   c <| co_context := cx' |>).

Definition tp_consumer_prepare_hello (c : tp_consumer_t) : tp_consumer_hello_t :=
  let cx := co_context c in
  let hello := cx_hello cx in
  hello <| he_stream_id := if he_stream_id hello =? 0
                           then if co_stream_id c =? 0 then cx_stream_id cx else co_stream_id c
                           else he_stream_id hello |>
        <| he_consumer_id := if he_consumer_id hello =? 0 then cx_consumer_id cx
                             else he_consumer_id hello |>.

(** ** Mapping and unmapping *)

Section World.
Context `{Sbe} (W : world).

(** The fields after the regions are gone. *)
Definition unmapped_fields (c : tp_consumer_t) : tp_consumer_t :=
  c <| co_pools := NULL |> <| co_pool_count := 0%nat |> <| co_header_nslots := 0 |>
    <| co_state := TP_CONSUMER_STATE_UNMAPPED |> <| co_shm_mapped := false |>
    <| co_mapped_epoch := 0 |> <| co_last_seq_seen := 0 |> <| co_drops_gap := 0 |>
    <| co_drops_late := 0 |> <| co_last_qos_ns := 0 |>.

(** The loop does not look whether there is an array. *)
Definition tp_consumer_unmap_regions : C unit :=
  do+ unmap_pools W in
  do+ unmap_header W in
  modify (fun c => (unmapped_fields c) <| co_attach_time_ns := 0 |>).

Definition tp_consumer_enter_fallback : C unit :=
  do+ tp_consumer_unmap_regions in
  modify (fun c => c <| co_state := TP_CONSUMER_STATE_FALLBACK |>).

(** The poller is told of the consumer between the header ring and the pools. *)
Definition tell_progress_poller : C unit :=
  let+ alloc := ask (w_alloc W) in
  modify (fun c => c <| co_progress_poller ::=
    fmap (tp_progress_poller_set_consumer alloc (Some (co_header_nslots c))) |>).

Definition attach_regions (cfg : region_config) : C (res unit) :=
  try+ _ := attach_header W false true cfg in
  do+ tell_progress_poller in
  attach_pools W false true cfg 0 (cc_pools cfg).

(** The label [cleanup]: without an array of pools none are unmapped. *)
Definition attach_cleanup (e : errno) : C (res unit) :=
  let+ c := get in
  do+ match co_pools c with
      | Some _ => unmap_pools W
      | NULL => give tt
      end in
  do+ unmap_header W in
  do+ modify unmapped_fields in
  let+ c := get in
  if bool_decide (co_payload_fallback_uri c = []) then give (Err e)
  else do+ tp_consumer_enter_fallback in give (Ok tt).

(** The hello is sent whatever comes of it. *)
Definition attach_done (cfg : region_config) : C (res unit) :=
  let+ c := get in
  do+ (if co_control_publication c then emit (HelloSent (tp_consumer_prepare_hello c)) else give tt) in
  let+ now_ns := ask (w_clock_ns W) in
  do+ modify (fun c => tp_consumer_clear_reattach
        (c <| co_state := TP_CONSUMER_STATE_MAPPED |> <| co_shm_mapped := true |>
           <| co_mapped_epoch := cc_epoch cfg |> <| co_attach_time_ns := u64 now_ns |>
           <| co_last_announce_epoch := cc_epoch cfg |> <| co_last_seq_seen := 0 |>
           <| co_drops_gap := 0 |> <| co_drops_late := 0 |> <| co_last_qos_ns := 0 |>)) in
  give (Ok tt).

(** Two errors return before the label [cleanup]; [aeron_alloc] zeroes. *)
Definition tp_consumer_attach_config (cfg : region_config) : C (res unit) :=
  let count := length (cc_pools cfg) in
  do+ modify (fun c =>
        c <| co_stream_id := cc_stream_id cfg |> <| co_epoch := cc_epoch cfg |>
          <| co_layout_version := cc_layout_version cfg |>
          <| co_header_nslots := cc_header_nslots cfg |> <| co_pool_count := count |>) in
  if negb (cc_layout_version cfg =? TP_LAYOUT_VERSION) then attach_cleanup EINVAL
  else if negb (tp_is_power_of_two (cc_header_nslots cfg)) then give (Err EINVAL)
  else
    let+ alloc := (if (0 <? count)%nat then ask (w_alloc W) else give true) in
    if negb alloc then
      do+ modify (fun c => c <| co_pool_count := 0%nat |> <| co_header_nslots := 0 |>) in
      give (Err ENOMEM)
    else
      do+ (if (0 <? count)%nat
           then modify (fun c => c <| co_pools := Some (replicate count zero_pool) |>)
           else give tt) in
      let+ r := attach_regions cfg in
      match r with
      | Err e => attach_cleanup e
      | Ok _ => attach_done cfg
      end.

(** ** Announcements *)

(** The string of a view, [calloc]ed; NULL for an empty view or without memory. *)
Definition tp_string_view_dup (view : tp_string_view_t) : C (ptr chars) :=
  match sv_data view with
  | NULL => give NULL
  | Some data =>
    if (sv_length view =? 0)%nat then give NULL
    else
      let+ alloc := ask (w_alloc W) in
      give (if alloc then Some (cstring data) else NULL)
  end.

(** The pools of the configuration, in the order of the checks. *)
Fixpoint announced_pool_configs (header_nslots : Z) (pools : list tp_shm_pool_desc_t)
    : C (res (list pool_config)) :=
  match pools with
  | [] => give (Ok [])
  | p :: pools' =>
    let+ uri := tp_string_view_dup (pd_region_uri p) in
    match uri with
    | NULL => give (Err ENOMEM)
    | Some _ =>
      if negb (pd_nslots p =? header_nslots) then give (Err EINVAL)
      else
        try+ rest := announced_pool_configs header_nslots pools' in
        give (Ok ({| pc_pool_id := pd_pool_id p; pc_nslots := pd_nslots p;
                     pc_stride_bytes := pd_stride_bytes p; pc_uri := uri |} :: rest))
    end
  end.

Definition tp_consumer_apply_announce (a : tp_shm_pool_announce_view_t) : C (res unit) :=
  let uri := pv_header_region_uri a in
  if (sv_length uri =? 0)%nat || bool_decide (sv_data uri = NULL) then give (Err EINVAL)
  else if negb (pv_header_slot_bytes a =? TP_HEADER_SLOT_BYTES) then give (Err EINVAL)
  else if (length (pv_pools a) =? 0)%nat then give (Err EINVAL)
  else
    let+ header_uri := tp_string_view_dup uri in
    match header_uri with
    | NULL => give (Err ENOMEM)
    | Some _ =>
      let+ pools_alloc := ask (w_alloc W) in
      let+ uris_alloc := ask (w_alloc W) in
      if negb pools_alloc || negb uris_alloc then give (Err ENOMEM)
      else
        try+ pools := announced_pool_configs (pv_header_nslots a) (pv_pools a) in
        do+ tp_consumer_unmap_regions in
        try+ _ := tp_consumer_attach_config
          {| cc_stream_id := pv_stream_id a; cc_epoch := pv_epoch a;
             cc_layout_version := pv_layout_version a; cc_header_nslots := pv_header_nslots a;
             cc_header_uri := header_uri; cc_pools := pools |} in
        let+ c := get in
        match co_state c with
        | TP_CONSUMER_STATE_FALLBACK => give (Ok tt)
        | _ =>
          do+ modify (fun c => c <| co_state := TP_CONSUMER_STATE_MAPPED |>
                                 <| co_shm_mapped := true |> <| co_mapped_epoch := pv_epoch a |>) in
          give (Ok tt)
        end
    end.

Definition freshness_ns (c : tp_consumer_t) : Z := u64 (cs_announce_period_ns (co_settings c) * 3).

(** An announcement that is too old, or for another layout, is dropped. *)
Definition announce_acceptable (c : tp_consumer_t) (announce_now_ns : Z)
    (a : tp_shm_pool_announce_view_t) : bool :=
  negb ((pv_announce_timestamp_ns a <? announce_now_ns) &&
        (freshness_ns c <? u64 (announce_now_ns - pv_announce_timestamp_ns a))) &&
  negb ((pv_announce_clock_domain a =? TP_CLOCK_DOMAIN_MONOTONIC) &&
        (pv_announce_timestamp_ns a <? co_announce_join_time_ns c)) &&
  negb (negb (he_expected_layout_version (cx_hello (co_context c)) =? 0) &&
        negb (pv_layout_version a =? he_expected_layout_version (cx_hello (co_context c)))).

(** The epochs decide whether the regions go and whether new ones come. *)
Definition announce_epoch (now_ns : Z) (a : tp_shm_pool_announce_view_t) : C unit :=
  let+ c := get in
  do+ (if co_shm_mapped c && negb (pv_epoch a =? co_mapped_epoch c)
       then tp_consumer_unmap_regions else give tt) in
  if co_shm_mapped c && (pv_epoch a <? co_mapped_epoch c) then give tt
  else
    let+ c := get in
    if negb (co_last_announce_epoch c =? 0) && (pv_epoch a <? co_last_announce_epoch c) then give tt
    else
      let+ r := tp_consumer_apply_announce a in
      match r with
      | Err _ => give tt
      | Ok _ => modify (fun c =>
          c <| co_last_announce_rx_ns := now_ns |>
            <| co_last_announce_timestamp_ns := pv_announce_timestamp_ns a |>
            <| co_last_announce_clock_domain := pv_announce_clock_domain a |>
            <| co_last_announce_epoch := pv_epoch a |>)
      end.

Definition on_announce (a : tp_shm_pool_announce_view_t) : C unit :=
  let+ c := get in
  if negb (co_use_shm c) then give tt
  else
    do+ (if co_announce_join_time_ns c =? 0
         then let+ now_ns := ask (w_clock_ns W) in
              modify (fun c => c <| co_announce_join_time_ns := u64 now_ns |>)
         else give tt) in
    if negb (pv_stream_id a =? cx_stream_id (co_context c)) then give tt
    else
      let+ now_ns := ask (fun t => u64 (w_clock_ns W t)) in
      let+ announce_now_ns :=
        (if pv_announce_clock_domain a =? TP_CLOCK_DOMAIN_REALTIME_SYNCED
         then ask (fun t => u64 (w_realtime_ns W t)) else give now_ns) in
      let+ c := get in
      if (pv_announce_clock_domain a =? TP_CLOCK_DOMAIN_REALTIME_SYNCED) && (announce_now_ns =? 0)
      then give tt
      else if announce_acceptable c announce_now_ns a then announce_epoch now_ns a
      else give tt.

(** ** The other control messages *)

(** The copy is a C string, cut to the size of its array. *)
Definition tp_consumer_set_payload_fallback (view : tp_string_view_t) (c : tp_consumer_t)
    : tp_consumer_t :=
  let uri :=
    match sv_data view with
    | Some data =>
      if negb (tp_payload_fallback_uri_supported (sv_data view) (sv_length view)) ||
         (sv_length view =? 0)%nat then []
      else cstring (take (TP_URI_MAX_LENGTH - 1) data)
    | NULL => []
    end in
  c <| co_payload_fallback_uri := uri |>.

(** [tp_consumer_add_subscription]: the identifier is passed on as a signed one. *)
Definition subscribe (stream_id : Z) : C bool :=
  if i32 stream_id <? 0 then give false else ask (w_subscribe W).

Definition assignment_valid (channel : tp_string_view_t) (stream_id : Z) : bool :=
  negb ((0 <? sv_length channel)%nat && (stream_id =? 0)) &&
  negb ((sv_length channel =? 0)%nat && negb (stream_id =? 0)).

(** A subscription replaces the one there was. *)
Definition assign (channel : tp_string_view_t) (stream_id : Z) (put : Z -> tp_consumer_t -> tp_consumer_t)
    : C unit :=
  if (0 <? sv_length channel)%nat && (0 <? stream_id) then
    let+ added := subscribe stream_id in
    if added : bool then modify (put stream_id) else give tt
  else give tt.

Definition on_config (v : tp_consumer_config_view_t) : C unit :=
  let+ c := get in
  if negb (cv_consumer_id v =? cx_consumer_id (co_context c)) then give tt
  else if negb (assignment_valid (cv_descriptor_channel v) (cv_descriptor_stream_id v)) then give tt
  else if negb (assignment_valid (cv_control_channel v) (cv_control_stream_id v)) then give tt
  else
    do+ modify (fun c => tp_consumer_set_payload_fallback (cv_payload_fallback_uri v)
          (c <| co_assigned_descriptor_stream_id := 0 |> <| co_assigned_control_stream_id := 0 |>
             <| co_use_shm := negb (cv_use_shm v =? 0) |>)) in
    let+ c := get in
    do+ (if negb (co_use_shm c) then tp_consumer_enter_fallback
         else match co_state c with
              | TP_CONSUMER_STATE_FALLBACK =>
                modify (fun c => c <| co_state := TP_CONSUMER_STATE_UNMAPPED |>)
              | _ => give tt
              end) in
    do+ assign (cv_descriptor_channel v) (cv_descriptor_stream_id v)
          (fun id c => c <| co_assigned_descriptor_stream_id := id |>) in
    assign (cv_control_channel v) (cv_control_stream_id v)
      (fun id c => c <| co_assigned_control_stream_id := id |>).

(** Our lease, whatever its identifier: the client and the role are compared. *)
Definition on_lease_revoked (r : tp_driver_lease_revoked_t) : C unit :=
  let+ c := get in
  if (lr_client_id r =? cx_consumer_id (co_context c)) && (lr_role r =? tensor_pool_role_CONSUMER)
  then
    let+ now := ask (w_clock_ns W) in
    do+ emit (LeaseRevokedError r) in
    do+ tp_consumer_unmap_regions in
    modify (fun c => tp_consumer_schedule_reattach (u64 now)
      (c <| co_driver ::= fmap clear_lease |> <| co_driver_attached := false |>))
  else give tt.

Definition tp_consumer_control_handler (b : bytes) : C unit :=
  let+ alloc := ask (w_alloc W) in
  match tp_control_decode_shm_pool_announce b alloc with
  | OutOfBounds => fault
  | Decoded a => on_announce a
  | _ =>
    match tp_control_decode_consumer_config b with
    | OutOfBounds => fault
    | Decoded v => on_config v
    | _ =>
      match tp_driver_decode_lease_revoked b with
      | OutOfBounds => fault
      | Decoded r => on_lease_revoked r
      | _ =>
        match tp_driver_decode_shutdown b with
        | OutOfBounds => fault
        | Decoded s => emit (ShutdownError s)
        | _ => give tt
        end
      end
    end
  end.

(** ** Descriptors *)

Definition frameDescriptor_template : Z := 4.
Definition frameDescriptor_block : Z := 40.

Definition count_descriptor (seq : Z) (c : tp_consumer_t) : tp_consumer_t :=
  let last := co_last_seq_seen c in
  c <| co_drops_gap := if negb (last =? 0) && (u64 (last + 1) <? seq)
                       then u64 (co_drops_gap c + u64 (seq - last - 1)) else co_drops_gap c |>
    <| co_last_seq_seen := if last <? seq then seq else last |>.

(** Neither version nor block length is looked at; a callback is set. *)
Definition tp_consumer_descriptor_handler (b : bytes) : C unit :=
  if blen b <? messageHeader_encoded_length then give tt
  else if negb (messageHeader_schemaId b =? Control.wire_schema_id) ||
          negb (messageHeader_templateId b =? frameDescriptor_template) then give tt
  else if blen b <? messageHeader_encoded_length + frameDescriptor_block then fault
  else
    let epoch := sbe_get 8 b (8 + 4) in
    let view := {| fd_seq := sbe_get 8 b (8 + 12); fd_timestamp_ns := sbe_get 8 b (8 + 20);
                   fd_meta_version := sbe_get 4 b (8 + 28); fd_trace_id := sbe_get 8 b (8 + 32) |} in
    let+ c := get in
    if negb (co_shm_mapped c) then give tt
    else if negb (co_mapped_epoch c =? epoch) then tp_consumer_unmap_regions
    else
      do+ modify (count_descriptor (fd_seq view)) in
      emit (FrameDescribed view).

(** ** Liveness *)

(** A producer that has not stamped its header ring for three announce periods
    is gone; the first three periods after mapping are spared. *)
Definition tp_consumer_check_activity_liveness (now_ns : Z) : C unit :=
  let+ c := get in
  let period := cs_announce_period_ns (co_settings c) in
  let stale_ns := u64 (period * 3) in
  if negb (co_shm_mapped c) || (period =? 0) then give tt
  else if negb (co_attach_time_ns c =? 0) && (co_attach_time_ns c <? now_ns) &&
          (now_ns - co_attach_time_ns c <=? stale_ns) then give tt
  else
    let+ superblock := read_superblock W (co_header_region c) in
    match Superblock.tp_shm_read_activity_timestamp superblock with
    | Err _ => give tt
    | Ok activity_ns =>
      if negb (activity_ns =? 0) && (activity_ns <? now_ns) && (stale_ns <? now_ns - activity_ns)
      then tp_consumer_unmap_regions else give tt
    end.

(** The loop over the pools from index [i]; [n] are left. *)
Fixpoint check_pool_pids (n i : nat) : C unit :=
  match n with
  | O => give tt
  | S n' =>
    let+ p := get_pool i in
    let+ superblock := read_superblock W (po_region p) in
    match Superblock.tp_shm_read_pid superblock with
    | Err _ => give tt
    | Ok pid =>
      if negb (pid =? rn_pid (po_region p)) then tp_consumer_unmap_regions
      else check_pool_pids n' (S i)
    end
  end.

Definition tp_consumer_check_pid_liveness : C unit :=
  let+ c := get in
  if negb (co_shm_mapped c) then give tt
  else
    let+ superblock := read_superblock W (co_header_region c) in
    match Superblock.tp_shm_read_pid superblock with
    | Err _ => give tt
    | Ok pid =>
      if negb (pid =? rn_pid (co_header_region c)) then tp_consumer_unmap_regions
      else check_pool_pids (co_pool_count c) 0
    end.

(** ** Polling *)

(** The fragments that a poll of the descriptor subscription delivers. *)
Definition tp_consumer_poll_descriptors_internal (fragments : list bytes) : C unit :=
  do+ for_each tp_consumer_descriptor_handler fragments in
  let+ now_ns := ask (fun t => u64 (w_clock_ns W t)) in
  do+ tp_consumer_check_activity_liveness now_ns in
  tp_consumer_check_pid_liveness.

Definition report_qos (now_ns : Z) : C unit :=
  let+ c := get in
  let period := cs_announce_period_ns (co_settings c) in
  if co_qos_publication c && (0 <? period) &&
     ((co_last_qos_ns c =? 0) || (period <=? u64 (now_ns - co_last_qos_ns c)))
  then
    do+ emit (QosSent (cx_consumer_id (co_context c)) (co_last_seq_seen c) (co_drops_gap c)
                (co_drops_late c)) in
    modify (fun c => c <| co_last_qos_ns := now_ns |>)
  else give tt.

(** Of the control and then of the announce subscription. *)
Definition tp_consumer_poll_control_internal (fragments : list bytes) : C unit :=
  do+ for_each tp_consumer_control_handler fragments in
  let+ now_ns := ask (fun t => u64 (w_clock_ns W t)) in
  do+ report_qos now_ns in
  do+ tp_consumer_check_activity_liveness now_ns in
  tp_consumer_check_pid_liveness.

(** ** Attaching through the driver *)

(** The strings of the response are arrays, its pools as many as it says. *)
Definition tp_driver_attach_consumer_config (info : tp_driver_attach_info_t) : region_config :=
  {| cc_stream_id := ai_stream_id info; cc_epoch := ai_epoch info;
     cc_layout_version := ai_layout_version info; cc_header_nslots := ai_header_nslots info;
     cc_header_uri := Some (cstring (ai_header_region_uri info));
     cc_pools := (fun p => {| pc_pool_id := pi_pool_id p; pc_nslots := pi_nslots p;
                              pc_stride_bytes := pi_stride_bytes p;
                              pc_uri := Some (cstring (pi_region_uri p)) |}) <$>
                 take (Z.to_nat (ai_pool_count info)) (ai_pools info) |}.

(** What follows a complete answer in both ways to attach. *)
Definition take_attach_info (info : tp_driver_attach_info_t) : C (res unit) :=
  if negb (ai_code info =? tensor_pool_responseCode_OK) then give (Err EINVAL)
  else
    do+ modify (fun c => c <| co_driver_attached := true |>) in
    let+ alloc := ask (w_alloc W) in
    let+ r := (if alloc : bool then tp_consumer_attach_config (tp_driver_attach_consumer_config info)
               else give (Err ENOMEM)) in
    match r with
    | Ok _ => give (Ok tt)
    | Err e => do+ modify (fun c => c <| co_driver_attached := false |>) in give (Err e)
    end.

Definition tp_consumer_attach_driver_async (correlation_id client_id : Z) (driver : tp_driver_client_t)
    : C tp_async_attach_t :=
  let+ c := get in
  let '(request, c') := tp_consumer_fill_driver_request correlation_id client_id c in
  do+ modify (fun _ => c' <| co_driver := Some (default driver (co_driver c)) |>) in
  give (tp_driver_attach_async correlation_id client_id request).

(** Its result: 0, 1 or -1, and the request in its new state.  A request is only
    there when the driver client is. *)
Definition tp_consumer_attach_driver_poll (codes : aeron) (fresh : tp_driver_pool_info_t)
    (e : poll_env) (a : tp_async_attach_t) : C (Z * tp_async_attach_t) :=
  let+ c := get in
  match co_driver c with
  | NULL => fault
  | Some d =>
    let '(r, d', a', _) := tp_driver_attach_poll codes fresh e d a in
    do+ modify (fun c => c <| co_driver := Some d' |>) in
    match r with
    | Pending => give (0, a')
    | PollFailed => give (-1, a')
    | Undefined => fault
    | Complete info =>
      let+ r := take_attach_info info in
      give (match r with Ok _ => 1 | Err _ => -1 end, a')
    end
  end.

(** [attach]: what the blocking [tp_driver_attach] of a request comes to: the driver
    client after it, and its answer. *)
Definition tp_consumer_attach (correlation_id client_id : Z) (config : ptr region_config)
    (attach : tp_driver_attach_request_t -> tp_driver_client_t * res tp_driver_attach_info_t)
    : C (res unit) :=
  let+ c := get in
  match cx_use_driver (co_context c), config with
  | true, Some _ => give (Err EINVAL)
  | true, NULL =>
    let '(request, c') := tp_consumer_fill_driver_request correlation_id client_id c in
    do+ modify (fun _ => c' <| co_driver := Some (fst (attach request)) |>) in
    match snd (attach request) with
    | Err e => give (Err e)
    | Ok info => take_attach_info info
    end
  | false, NULL => give (Err EINVAL)
  | false, Some cfg => tp_consumer_attach_config cfg
  end.

Definition tp_consumer_close : C unit :=
  do+ tp_consumer_unmap_regions in
  let+ c := get in
  do+ match co_driver c with
      | Some d =>
        if co_driver_attached c
        then emit (DetachRequested (dc_active_lease_id d) (dc_active_stream_id d) (dc_client_id d)
                     (dc_role d))
        else give tt
      | NULL => give tt
      end in
  modify (fun c => c <| co_driver := NULL |> <| co_driver_attached := false |>
                     <| co_progress_poller := NULL |>).
End World.

(** After [tp_consumer_init], before anything is attached: zeroed memory. *)
Definition consumer_init (settings : client_settings) (context : tp_consumer_context_t)
    (control_publication qos_publication : bool) : tp_consumer_t :=
  {| co_settings := settings; co_context := context;
     co_control_publication := control_publication; co_qos_publication := qos_publication;
     co_assigned_descriptor_stream_id := 0; co_assigned_control_stream_id := 0;
     co_progress_poller := NULL; co_header_region := empty_region 0; co_pools := NULL;
     co_pool_count := 0%nat; co_stream_id := 0; co_epoch := 0; co_layout_version := 0;
     co_header_nslots := 0; co_driver := NULL; co_driver_attached := false;
     co_state := TP_CONSUMER_STATE_UNMAPPED; co_use_shm := true; co_payload_fallback_uri := [];
     co_shm_mapped := false; co_mapped_epoch := 0; co_attach_time_ns := 0; co_last_seq_seen := 0;
     co_drops_gap := 0; co_drops_late := 0; co_last_qos_ns := 0; co_announce_join_time_ns := 0;
     co_last_announce_rx_ns := 0; co_last_announce_timestamp_ns := 0;
     co_last_announce_clock_domain := 0; co_last_announce_epoch := 0; co_next_attach_ns := 0;
     co_attach_failures := 0; co_reattach_requested := false |}.
