(* ===== verification/ConsumerRegions.v ===== *)
(** * ConsumerRegions: the regions of a consumer, over any run

    The theorems about ConsumerMapping: every descriptor and mapping a consumer
    opens is one of its regions until it is given back, what it reads frames from
    is what was announced and validated, and its counters and its back-off count
    what they say. *)

From Stdlib Require Import ZArith Lia Bool Ascii String.
From stdpp Require Import strings list.
From coqutil Require Import Datatypes.RecordSetters.
From S2P Require Import Prelude Sbe Seqlock Uri Shm Message ConsumerManager ProgressPoller.
From S2P Require Import Driver DriverMessages DriverClient Control Metadata Machine Regions ConsumerMapping.
Import Mapping TriangleBracketNotations.

#[local] Open Scope Z_scope.
#[local] Open Scope list_scope.

(** Use what is known of the program at the head. *)
Tactic Notation "wp_use" uconstr(lemma) := eapply wp_mono; [eapply lemma|cbv beta].

Section Regions.
Context `{Sbe} (W : world) (HK : kernel_ok (w_kernel W)).
Context (maps0 : list (Z * Z)) (fds0 : list Z).
Abbreviation accounted := (accounted maps0 fds0).

(** ** Giving everything up *)

(** Nothing is mapped any more. *)
Definition unmapped (c : tp_consumer_t) : tp_consumer_t :=
  (unmapped_fields (c <| co_header_region := empty_region (-1) |>)) <| co_attach_time_ns := 0 |>.

Lemma unmapped_nothing c :
  co_header_region c = empty_region (-1) -> nothing_mapped (unmapped_fields c).
Proof. intros E. destruct c. cbn in *. subst. by repeat constructor. Qed.

Lemma unmap_regions_spec F c p ev (Q : unit -> machine -> Prop) :
  pools_ok c -> accounted (slots c) p ->
  (forall p', accounted (slots (unmapped c)) p' ->
     Q tt {| ma_state := unmapped c; ma_process := p'; ma_events := ev |}) ->
  wp F (tp_consumer_unmap_regions W) Q {| ma_state := c; ma_process := p; ma_events := ev |}.
Proof.
  intros Hp Ha HQ. unfold tp_consumer_unmap_regions.
  apply (unmap_slots_spec W HK maps0 fds0); [done|done|]. intros l p' c' Hn Ha'. wps.
  assert (E : unmapped_fields c' = unmapped_fields (c <| co_header_region := empty_region (-1) |>))
    by (unfold c'; by destruct c).
  rewrite E. apply HQ. eapply accounted_nothing; [exact Hn| |done]. unfold unmapped.
  pose proof (unmapped_nothing c') as Hu. rewrite E in Hu. clear - Hu. by destruct c; apply Hu.
Qed.

(** ** Attaching *)

(** Fields that mapping and unmapping leave alone. *)
Record kept (c c' : tp_consumer_t) : Prop := {
  kp_settings : co_settings c' = co_settings c;
  kp_context : co_context c' = co_context c;
  kp_use_shm : co_use_shm c' = co_use_shm c;
  kp_fallback : co_payload_fallback_uri c' = co_payload_fallback_uri c;
  kp_driver : co_driver c' = co_driver c;
  kp_driver_attached : co_driver_attached c' = co_driver_attached c;
  kp_join : co_announce_join_time_ns c' = co_announce_join_time_ns c;
}.

Lemma kept_refl c : kept c c.
Proof. done. Qed.
Lemma kept_trans c1 c2 c3 : kept c1 c2 -> kept c2 c3 -> kept c1 c3.
Proof. intros [] []. split; congruence. Qed.

(** A consumer without regions. *)
Record idle (c : tp_consumer_t) : Prop := {
  id_pools : co_pools c = NULL;
  id_count : co_pool_count c = 0%nat;
  id_header : free (rn_region (co_header_region c));
  id_nslots : co_header_nslots c = 0;
  id_mapped : co_shm_mapped c = false;
  id_state : co_state c <> TP_CONSUMER_STATE_MAPPED;
}.

Lemma idle_nothing c : idle c -> nothing_mapped c.
Proof. intros [E _ ? _ _ _]. unfold nothing_mapped, slots. cbn. rewrite E. by repeat constructor. Qed.

Lemma idle_pools_ok c : idle c -> pools_ok c.
Proof. intros [E E' _ _ _ _]. unfold pools_ok. cbn. by rewrite E. Qed.

Definition cleaned (c : tp_consumer_t) : tp_consumer_t :=
  unmapped_fields (c <| co_header_region := empty_region (-1) |>).

Lemma cleaned_idle c : idle (cleaned c).
Proof. by destruct c. Qed.
Lemma unmapped_idle c : idle (unmapped c).
Proof. by destruct c. Qed.
Lemma cleaned_kept c : kept c (cleaned c).
Proof. by destruct c. Qed.
Lemma unmapped_kept c : kept c (unmapped c).
Proof. by destruct c. Qed.

Definition fallen_back (c : tp_consumer_t) : tp_consumer_t :=
  (unmapped c) <| co_state := TP_CONSUMER_STATE_FALLBACK |>.

Lemma fallen_back_idle c : idle (fallen_back c).
Proof. by destruct c. Qed.
Lemma fallen_back_kept c : kept c (fallen_back c).
Proof. by destruct c. Qed.
Lemma slots_fallen_back c : slots (fallen_back c) = slots (unmapped c).
Proof. by destruct c. Qed.

Lemma enter_fallback_spec F c p ev (Q : unit -> machine -> Prop) :
  pools_ok c -> accounted (slots c) p ->
  (forall p', accounted (slots (fallen_back c)) p' ->
     Q tt {| ma_state := fallen_back c; ma_process := p'; ma_events := ev |}) ->
  wp F (tp_consumer_enter_fallback W) Q {| ma_state := c; ma_process := p; ma_events := ev |}.
Proof.
  intros Hp Ha HQ. unfold tp_consumer_enter_fallback. wps. apply unmap_regions_spec; [done|done|].
  intros p' Ha'. wps. by apply HQ.
Qed.

(** The label [cleanup] ends in one of two states. *)
Lemma attach_cleanup_spec F e c p ev (Q : _ -> machine -> Prop) :
  (forall l, co_pools c = Some l -> co_pool_count c = length l) -> accounted (slots c) p ->
  (forall p', accounted (slots (cleaned c)) p' -> co_payload_fallback_uri c = [] ->
     Q (Err e) {| ma_state := cleaned c; ma_process := p'; ma_events := ev |}) ->
  (forall p', accounted (slots (fallen_back (cleaned c))) p' -> co_payload_fallback_uri c <> [] ->
     Q (Ok tt) {| ma_state := fallen_back (cleaned c); ma_process := p'; ma_events := ev |}) ->
  wp F (attach_cleanup W e) Q {| ma_state := c; ma_process := p; ma_events := ev |}.
Proof.
  intros Hp Ha HE HQ. unfold attach_cleanup. wp1. wp1.
  assert (Hend : forall c' p', nothing_mapped c' -> unmapped_fields c' = cleaned c ->
    accounted (slots c') p' ->
    wp F (do+ modify unmapped_fields in
          let+ c := get in
          if bool_decide (co_payload_fallback_uri c = []) then give (Err e)
          else do+ tp_consumer_enter_fallback W in give (Ok tt)) Q
      {| ma_state := c'; ma_process := p'; ma_events := ev |}).
  { intros c' p' Hn E Ha'. wps. rewrite E.
    assert (Ha'' : accounted (slots (cleaned c)) p')
      by (eapply accounted_nothing; [exact Hn|apply idle_nothing, cleaned_idle|done]).
    rewrite (kp_fallback _ _ (cleaned_kept c)). case_bool_decide.
    - wps. by apply HE.
    - wps. apply enter_fallback_spec; [apply idle_pools_ok, cleaned_idle|done|].
      intros p2 Ha2. wps. by apply HQ. }
  destruct (co_pools c) as [l|] eqn:El.
  - apply (unmap_slots_spec W HK maps0 fds0); [unfold pools_ok; cbn; rewrite El; by apply Hp|done|].
    intros l' p' c' Hn Ha'. apply Hend; [done|unfold c'; by destruct c|done].
  - wps. apply (unmap_header_spec W HK maps0 fds0); [done|]. intros p' Ha'. apply Hend; [|done|done].
    destruct c. cbn in El. subst. by repeat constructor.
Qed.

(** The consumer with other regions, and a poller told of them. *)
Definition with_regions (h : attached_region) (poller : ptr tp_progress_poller_t)
    (pools : ptr (list attached_pool)) (c : tp_consumer_t) : tp_consumer_t :=
  c <| co_header_region := h |> <| co_progress_poller := poller |> <| co_pools := pools |>.

(** Freshly allocated pools, or none. *)
Definition fresh_pools (cfg : region_config) (c : tp_consumer_t) : Prop :=
  co_pools c = (match cc_pools cfg with [] => NULL | ps => Some (replicate (length ps) zero_pool) end).

Lemma tell_poller_spec F c p ev (Q : unit -> machine -> Prop) :
  (forall poller p', (forall R, accounted R p -> accounted R p') ->
     Q tt {| ma_state := c <| co_progress_poller := poller |>; ma_process := p'; ma_events := ev |}) ->
  wp F (tell_progress_poller W) Q {| ma_state := c; ma_process := p; ma_events := ev |}.
Proof.
  intros HQ. unfold tell_progress_poller. wps.
  replace (apply_update _ c) with (c <| co_progress_poller :=
    (fun x => tp_progress_poller_set_consumer (w_alloc W (os_tick p)) (Some (co_header_nslots c)) x) <$>
    co_progress_poller c |>) by by destruct c.
  apply HQ. intros R. apply accounted_later.
Qed.

Lemma attach_regions_spec F cfg c p ev (Q : _ -> machine -> Prop) :
  fresh_pools cfg c -> free (rn_region (co_header_region c)) -> accounted (slots c) p ->
  (forall h poller pools p', accounted (slots (with_regions h poller pools c)) p' ->
     region_ready W true (header_expected cfg) h ->
     Forall2 (pool_ready W true cfg) (cc_pools cfg) (default [] pools) ->
     (pools = NULL -> cc_pools cfg = []) ->
     Q (Ok tt) {| ma_state := with_regions h poller pools c; ma_process := p'; ma_events := ev |}) ->
  (forall err h poller pools p', accounted (slots (with_regions h poller pools c)) p' ->
     (forall l, pools = Some l -> length l = length (cc_pools cfg)) ->
     Q (Err err) {| ma_state := with_regions h poller pools c; ma_process := p'; ma_events := ev |}) ->
  wp F (attach_regions W cfg) Q {| ma_state := c; ma_process := p; ma_events := ev |}.
Proof.
  intros Hpools Hf Ha HQ HE. unfold attach_regions. wps.
  assert (Hlen : forall l, co_pools c = Some l -> length l = length (cc_pools cfg)).
  { intros l E. rewrite Hpools in E. destruct (cc_pools cfg); [done|].
    injection E as <-. cbn. by rewrite length_replicate. }
  apply (attach_header_spec W HK maps0 fds0); [done|done| |].
  2:{ intros err r' p' Ha'. cbv beta iota. wps.
      pose proof (HE err r' (co_progress_poller c) (co_pools c) p') as Hend.
      replace (with_regions r' (co_progress_poller c) (co_pools c) c)
        with (c <| co_header_region := r' |>) in Hend by by destruct c. by apply Hend. }
  intros h p' Ha' Hh. cbv beta iota. wps. apply tell_poller_spec. intros poller p1 Hp1.
  change (put_header h c) with (c <| co_header_region := h |>) in *.
  set (c1 := c <| co_header_region := h |> <| co_progress_poller := poller |>).
  assert (Ha1 : accounted (slots c1) p1) by (apply Hp1; unfold c1; by destruct c).
  assert (E1 : co_pools c1 = co_pools c) by (unfold c1; by destruct c).
  destruct (cc_pools cfg) as [|pc ps] eqn:Eps.
  - cbn [attach_pools]. wps. unfold fresh_pools in Hpools. rewrite Eps in Hpools.
    assert (Ec : c1 = with_regions h poller NULL c)
      by (unfold c1; destruct c; cbn in Hpools; by subst).
    rewrite Ec in *. apply (HQ h poller NULL); [done|done|constructor|done].
  - assert (Epools : co_pools c1 = Some (replicate (length (cc_pools cfg)) zero_pool))
      by (unfold fresh_pools in Hpools; rewrite E1, Hpools, Eps; done).
    rewrite <- Eps in *. apply (attach_pools_spec W HK maps0 fds0 F false true cfg _ 0 c1 (replicate (length (cc_pools cfg)) zero_pool)).
    + done.
    + by rewrite length_replicate.
    + intros j q _ Hq. by apply lookup_replicate in Hq as [-> _].
    + done.
    + intros qs p2. cbn [take app]. change (put_pools (Some qs) c1) with (with_regions h poller (Some qs) c).
      intros Ha2 Hqs. by apply HQ.
    + intros err l' p2. change (put_pools (Some l') c1) with (with_regions h poller (Some l') c).
      rewrite length_replicate. intros Hl Ha2. apply HE; [done|]. by intros l [= <-].
Qed.

(** A consumer whose regions are those of the configuration. *)
Record live (cfg : region_config) (c : tp_consumer_t) : Prop := {
  lv_state : co_state c = TP_CONSUMER_STATE_MAPPED /\ co_shm_mapped c = true;
  lv_stream : co_stream_id c = cc_stream_id cfg;
  lv_epoch : co_epoch c = cc_epoch cfg /\ co_mapped_epoch c = cc_epoch cfg;
  lv_layout : co_layout_version c = TP_LAYOUT_VERSION /\ cc_layout_version cfg = TP_LAYOUT_VERSION;
  lv_nslots : co_header_nslots c = cc_header_nslots cfg /\
              tp_is_power_of_two (cc_header_nslots cfg) = true;
  lv_header : region_ready W true (header_expected cfg) (co_header_region c);
  lv_pools : Forall2 (pool_ready W true cfg) (cc_pools cfg) (default [] (co_pools c));
  lv_pools_ok : pools_ok c;
}.

Lemma live_again cfg c :
  live cfg c ->
  c <| co_state := TP_CONSUMER_STATE_MAPPED |> <| co_shm_mapped := true |>
    <| co_mapped_epoch := cc_epoch cfg |> = c.
Proof. intros [[E1 E2] _ [_ E3] _ _ _ _ _]. destruct c. cbn in *. by subst. Qed.

(** What attaching to it leaves. *)
Record attached (cfg : region_config) (c : tp_consumer_t) : Prop := {
  ah_live : live cfg c;
  ah_last : co_last_announce_epoch c = cc_epoch cfg;
  ah_counters : co_last_seq_seen c = 0 /\ co_drops_gap c = 0 /\ co_drops_late c = 0;
  ah_reattach : co_reattach_requested c = false /\ co_attach_failures c = 0;
}.

(** The last epoch and the reconnection are only touched by success. *)
Definition undisturbed (c c' : tp_consumer_t) : Prop :=
  co_last_announce_epoch c' = co_last_announce_epoch c /\
  co_reattach_requested c' = co_reattach_requested c /\ co_next_attach_ns c' = co_next_attach_ns c.

(** Nothing stands in the way of attaching: enough memory, the layout of this
    version, and regions that can be mapped and pass their checks. *)
Record attachable (ab_paths : tp_allowed_paths_t) (cfg : region_config) : Prop := {
  ab_alloc : forall t, w_alloc W t = true;
  ab_layout : cc_layout_version cfg = TP_LAYOUT_VERSION;
  ab_nslots : tp_is_power_of_two (cc_header_nslots cfg) = true;
  ab_regions : forall c p ev, fresh_pools cfg c -> cs_allowed_paths (co_settings c) = ab_paths ->
    wp True (attach_regions W cfg) (fun r _ => r = Ok tt)
      {| ma_state := c; ma_process := p; ma_events := ev |};
}.

Inductive attach_result (cfg : region_config) (c : tp_consumer_t)
    : res unit -> tp_consumer_t -> Prop :=
  | attach_mapped c' : attached cfg c' -> attach_result cfg c (Ok tt) c'
  | attach_fell_back c' : idle c' -> co_state c' = TP_CONSUMER_STATE_FALLBACK ->
      co_payload_fallback_uri c <> [] -> undisturbed c c' ->
      ~ attachable (cs_allowed_paths (co_settings c)) cfg -> attach_result cfg c (Ok tt) c'
  | attach_failed c' e : idle c' -> undisturbed c c' ->
      ~ attachable (cs_allowed_paths (co_settings c)) cfg -> attach_result cfg c (Err e) c'.

Definition config_sane (cfg : region_config) : Prop :=
  cc_layout_version cfg = TP_LAYOUT_VERSION -> tp_is_power_of_two (cc_header_nslots cfg) = true.

(** The consumer when the configuration has been taken over. *)
Definition configured (cfg : region_config) (pools : ptr (list attached_pool))
    (c : tp_consumer_t) : tp_consumer_t :=
  c <| co_stream_id := cc_stream_id cfg |> <| co_epoch := cc_epoch cfg |>
    <| co_layout_version := cc_layout_version cfg |>
    <| co_header_nslots := cc_header_nslots cfg |>
    <| co_pool_count := length (cc_pools cfg) |> <| co_pools := pools |>.

(** Cleaning up after any failure. *)
Lemma attach_failure_spec F cfg e c c1 p ev (Q : _ -> machine -> Prop) :
  ~ attachable (cs_allowed_paths (co_settings c)) cfg -> kept c c1 -> undisturbed c c1 -> (forall l, co_pools c1 = Some l -> co_pool_count c1 = length l) ->
  accounted (slots c1) p ->
  (forall r c' p' ev', accounted (slots c') p' -> kept c c' -> attach_result cfg c r c' ->
     Q r {| ma_state := c'; ma_process := p'; ma_events := ev' |}) ->
  wp F (attach_cleanup W e) Q {| ma_state := c1; ma_process := p; ma_events := ev |}.
Proof.
  intros Hno Hk Hu Hp Ha HQ.
  assert (Hu' : undisturbed c (cleaned c1)) by (destruct Hu as (? & ? & ?); by destruct c1).
  assert (Hf' : undisturbed c (fallen_back (cleaned c1))) by (destruct Hu as (? & ? & ?); by destruct c1).
  apply attach_cleanup_spec; [done|done|..]; intros p' Ha' Huri; apply HQ; try done.
  - by eapply kept_trans, cleaned_kept.
  - constructor; [apply cleaned_idle|done|done].
  - exact (kept_trans _ _ _ Hk (kept_trans _ _ _ (cleaned_kept c1) (fallen_back_kept _))).
  - apply attach_fell_back; [apply fallen_back_idle|by destruct c1| |done|done].
    by rewrite <- (kp_fallback _ _ Hk).
Qed.

(** The end of a successful attach. *)
Lemma attach_done_spec F cfg c h poller pools p ev (Q : _ -> machine -> Prop) :
  cc_layout_version cfg = TP_LAYOUT_VERSION -> tp_is_power_of_two (cc_header_nslots cfg) = true ->
  accounted (slots (with_regions h poller pools c)) p -> region_ready W true (header_expected cfg) h ->
  Forall2 (pool_ready W true cfg) (cc_pools cfg) (default [] pools) ->
  (pools = NULL -> cc_pools cfg = []) ->
  (forall c' p' ev', accounted (slots c') p' -> kept c c' -> attached cfg c' ->
     Q (Ok tt) {| ma_state := c'; ma_process := p'; ma_events := ev' |}) ->
  wp F (attach_done W cfg) Q
    {| ma_state := with_regions h poller pools (configured cfg (co_pools c) c);
       ma_process := p; ma_events := ev |}.
Proof.
  intros Hl Hn Ha Hh Hps Hnull HQ. unfold attach_done. wps.
  destruct (co_control_publication _); wps; (apply HQ;
    [apply accounted_later; by destruct c|by destruct c|]).
  all: apply Forall2_length in Hps as Hlen; destruct c; split; [split; try done|done..].
  all: unfold pools_ok; cbn; destruct pools; cbn in *; try done; by rewrite Hnull.
Qed.

Lemma attach_config_spec F cfg c p ev (Q : _ -> machine -> Prop) :
  idle c -> config_sane cfg -> accounted (slots c) p ->
  (forall r c' p' ev', accounted (slots c') p' -> kept c c' -> attach_result cfg c r c' ->
     Q r {| ma_state := c'; ma_process := p'; ma_events := ev' |}) ->
  wp F (tp_consumer_attach_config W cfg) Q {| ma_state := c; ma_process := p; ma_events := ev |}.
Proof.
  intros Hid Hsane Ha HQ. unfold tp_consumer_attach_config. wps.
  assert (Hc0 : forall f, f = configured cfg (co_pools c) c -> f = configured cfg NULL c)
    by (intros f ->; by rewrite (id_pools _ Hid)).
  set (c0 := apply_update _ _). assert (E0 : c0 = configured cfg NULL c) by (apply Hc0; unfold c0; by destruct c).
  clearbody c0. subst c0. clear Hc0.
  assert (Ha0 : accounted (slots (configured cfg NULL c)) p).
  { eapply accounted_nothing; [by apply idle_nothing| |done]. destruct Hid as [? ? Hf ? ? ?], c.
    cbn in *. by repeat constructor. }
  destruct (Z.eqb_spec (cc_layout_version cfg) TP_LAYOUT_VERSION) as [Hl|]; cbn [negb].
  2:{ apply (attach_failure_spec F cfg EINVAL c); [by intros []|by destruct c..|done|done]. }
  rewrite (Hsane Hl). cbn [negb]. wps.
  assert (Halloc : forall p' : process, accounted (slots (configured cfg NULL c)) p' ->
    ~ attachable (cs_allowed_paths (co_settings c)) cfg ->
    Q (Err ENOMEM) {| ma_state := (configured cfg NULL c) <| co_pool_count := 0%nat |>
                                       <| co_header_nslots := 0 |>;
                      ma_process := p'; ma_events := ev |}).
  { intros p' Hp' Hno. apply HQ; [by destruct c|by destruct c|].
    constructor; [|by destruct c|done]. destruct Hid as [? ? ? ? ? ?], c. cbn in *. by constructor. }
  set (pools := match cc_pools cfg with [] => NULL | ps => Some (replicate (length ps) zero_pool) end).
  set (c1 := configured cfg pools c).
  assert (Hgo : forall p', accounted (slots (configured cfg NULL c)) p' ->
    wp F (attach_regions W cfg)
      (fun r => wp F (match r with Err e => attach_cleanup W e | Ok _ => attach_done W cfg end) Q)
      {| ma_state := c1; ma_process := p'; ma_events := ev |}).
  { intros p' Hp'.
    assert (Hn : nothing_mapped c1).
    { unfold c1, pools. destruct Hid as [? ? Hf ? ? ?], c. cbn in *. constructor; [done|]. cbn.
      destruct (cc_pools cfg) as [|pc ps]; [constructor|]. cbn. constructor; [done|].
      apply Forall_fmap, Forall_replicate. done. }
    assert (Hfresh : fresh_pools cfg c1) by (unfold fresh_pools, c1, pools; by destruct c).
    apply wp_eq, attach_regions_spec.
    - done.
    - by inversion Hn.
    - eapply accounted_nothing; [|exact Hn|exact Hp'].
      destruct Hid as [? ? Hf ? ? ?], c. cbn in *. by repeat constructor.
    - intros h poller ps p2 Ha2 Hh Hps Hnull _. cbv beta iota.
      assert (E : with_regions h poller ps c1 = with_regions h poller ps (configured cfg (co_pools c) c))
        by (unfold c1; by destruct c).
      rewrite E. clear E.
      apply attach_done_spec; [done|by apply Hsane| |done..|].
      + replace (slots (with_regions h poller ps c)) with (slots (with_regions h poller ps c1));
          [done|]. unfold c1. by destruct c.
      + intros c' p3 ev' Ha3 Hk Hat. apply HQ; [done|done|by constructor].
    - intros err h poller ps p2 Ha2 Hlen Erun. cbv beta iota.
      apply (attach_failure_spec F cfg err c); [|by destruct c|by destruct c| |done|done].
      { intros [_ _ _ Hreg]. specialize (Hreg c1 p' ev Hfresh ltac:(by destruct c)).
        unfold wp in Hreg. by rewrite Erun in Hreg. }
      intros l E. unfold c1 in *. destruct c. symmetry. apply Hlen. exact E. }
  destruct (cc_pools cfg) as [|pc ps] eqn:Eps; cbn [length Nat.ltb Nat.leb].
  - wps. cbn [negb]. wps. replace (configured cfg NULL c) with c1 by done. by apply Hgo.
  - wps. destruct (w_alloc W _) eqn:Ealloc; cbn [negb]; wps.
    2:{ apply Halloc; [by apply accounted_later|]. intros [Hall _ _ _]. by rewrite Hall in Ealloc. }
    replace (apply_update _ (configured cfg NULL c)) with c1.
    2:{ unfold c1, pools, configured. rewrite Eps. by destruct c. }
    by apply Hgo, accounted_later.
Qed.

(** ** Between the operations *)

(** A consumer has the regions of one configuration, or none. *)
Definition consistent (c : tp_consumer_t) : Prop := idle c \/ exists cfg, live cfg c.

Lemma consistent_pools_ok c : consistent c -> pools_ok c.
Proof. intros [Hi|[cfg Hl]]; [by apply idle_pools_ok|apply Hl]. Qed.

Definition settled (c : tp_consumer_t) (p : process) : Prop :=
  consistent c /\ accounted (slots c) p.

(** The process went on without opening or closing anything. *)
Definition quiet (p p' : process) : Prop := forall R, accounted R p -> accounted R p'.

Lemma quiet_refl p : quiet p p.
Proof. by intros R. Qed.
Lemma quiet_later p : quiet p (later p).
Proof. intros R. apply accounted_later. Qed.
Lemma quiet_trans p1 p2 p3 : quiet p1 p2 -> quiet p2 p3 -> quiet p1 p3.
Proof. intros H1 H2 R HR. by apply H2, H1. Qed.

Lemma settled_quiet c p p' : quiet p p' -> settled c p -> settled c p'.
Proof. intros Hq [Hc Ha]. split; [done|by apply Hq]. Qed.

Lemma settled_unmap_spec F c p ev (Q : unit -> machine -> Prop) :
  settled c p ->
  (forall p', settled (unmapped c) p' ->
     Q tt {| ma_state := unmapped c; ma_process := p'; ma_events := ev |}) ->
  wp F (tp_consumer_unmap_regions W) Q {| ma_state := c; ma_process := p; ma_events := ev |}.
Proof.
  intros [Hc Ha] HQ. apply unmap_regions_spec; [by apply consistent_pools_ok|done|].
  intros p' Ha'. apply HQ. split; [left; apply unmapped_idle|done].
Qed.

(** Copying the strings of an announcement. *)
Definition view_string (view : tp_string_view_t) : ptr chars :=
  match sv_data view with
  | Some data => if (sv_length view =? 0)%nat then NULL else Some (cstring data)
  | NULL => NULL
  end.

Lemma dup_spec F view (Q : ptr chars -> machine -> Prop) s :
  (forall r p', quiet (ma_process s) p' -> (memory_enough W -> r = view_string view) ->
     Q r {| ma_state := ma_state s; ma_process := p'; ma_events := ma_events s |}) ->
  wp F (tp_string_view_dup W view) Q s.
Proof.
  intros HQ. unfold tp_string_view_dup, view_string in *.
  destruct (sv_data view); [|wps; destruct s; apply HQ; [apply quiet_refl|done]].
  destruct (_ =? 0)%nat; [wps; destruct s; apply HQ; [apply quiet_refl|done]|].
  wps. apply HQ; [apply quiet_later|]. intros Hm. by rewrite Hm.
Qed.

(** The pools of an announcement as a configuration. *)
Fixpoint pool_configs (nslots : Z) (pools : list tp_shm_pool_desc_t)
    : res (list pool_config) :=
  match pools with
  | [] => Ok []
  | p :: pools' =>
    match view_string (pd_region_uri p) with
    | NULL => Err ENOMEM
    | Some uri =>
      guard! pd_nslots p =? nslots else EINVAL in
      let! rest := pool_configs nslots pools' in
      Ok ({| pc_pool_id := pd_pool_id p; pc_nslots := pd_nslots p;
             pc_stride_bytes := pd_stride_bytes p; pc_uri := Some uri |} :: rest)
    end
  end.

Definition announce_config (a : tp_shm_pool_announce_view_t) (pools : list pool_config)
    : region_config :=
  {| cc_stream_id := pv_stream_id a; cc_epoch := pv_epoch a;
     cc_layout_version := pv_layout_version a; cc_header_nslots := pv_header_nslots a;
     cc_header_uri := view_string (pv_header_region_uri a); cc_pools := pools |}.

Lemma announced_pools_spec F nslots pools : forall (Q : _ -> machine -> Prop) s,
  (forall r p', quiet (ma_process s) p' -> (memory_enough W -> r = pool_configs nslots pools) ->
     Q r {| ma_state := ma_state s; ma_process := p'; ma_events := ma_events s |}) ->
  wp F (announced_pool_configs W nslots pools) Q s.
Proof.
  induction pools as [|pd pools IH]; intros Q s HQ; cbn [announced_pool_configs pool_configs] in *.
  { wps. destruct s. apply HQ; [apply quiet_refl|done]. }
  wps. apply dup_spec. intros uri p1 Hq1 E1. destruct uri as [uri|].
  2:{ wps. apply HQ; [done|]. intros Hm. by rewrite <- (E1 Hm). }
  destruct (pd_nslots pd =? nslots); cbn [negb].
  2:{ wps. apply HQ; [done|]. intros Hm. by rewrite <- (E1 Hm). }
  wps. apply IH. intros r p2 Hq2 E2. cbn [ma_process ma_state ma_events] in *.
  pose proof (quiet_trans _ _ _ Hq1 Hq2).
  destruct r as [rest|e]; wps; (apply HQ; [done|]); intros Hm; by rewrite <- (E1 Hm), <- (E2 Hm).
Qed.

(** What an announcement does to a consumer that has nothing mapped beforehand or
    gives it up first. *)
Definition announce_sane (a : tp_shm_pool_announce_view_t) : Prop :=
  pv_layout_version a = TP_LAYOUT_VERSION -> tp_is_power_of_two (pv_header_nslots a) = true.

Definition last_follows (epoch : Z) (c c' : tp_consumer_t) : Prop :=
  co_last_announce_epoch c' = co_last_announce_epoch c \/ co_last_announce_epoch c' = epoch.

(** An announcement that can be followed is. *)
Record followable (paths : tp_allowed_paths_t) (a : tp_shm_pool_announce_view_t)
    (pools : list pool_config) : Prop := {
  fo_header : exists uri, view_string (pv_header_region_uri a) = Some uri;
  fo_slot_bytes : pv_header_slot_bytes a = TP_HEADER_SLOT_BYTES;
  fo_pools : pv_pools a <> [] /\ pool_configs (pv_header_nslots a) (pv_pools a) = Ok pools;
  fo_attachable : attachable paths (announce_config a pools);
}.

Definition followed (a : tp_shm_pool_announce_view_t) (c : tp_consumer_t) (r : res unit)
    (c' : tp_consumer_t) : Prop :=
  forall pools, followable (cs_allowed_paths (co_settings c)) a pools ->
    r = Ok tt /\ live (announce_config a pools) c'.

Lemma apply_announce_spec F a c p ev (Q : _ -> machine -> Prop) :
  settled c p -> announce_sane a ->
  (forall r c' p' ev', settled c' p' -> kept c c' -> last_follows (pv_epoch a) c c' ->
     followed a c r c' -> Q r {| ma_state := c'; ma_process := p'; ma_events := ev' |}) ->
  wp F (tp_consumer_apply_announce W a) Q {| ma_state := c; ma_process := p; ma_events := ev |}.
Proof.
  intros Hs Hsane HQ. unfold tp_consumer_apply_announce.
  assert (Hstop : forall e p', quiet p p' ->
    (forall pools, ~ followable (cs_allowed_paths (co_settings c)) a pools) ->
    Q (Err e) {| ma_state := c; ma_process := p'; ma_events := ev |}).
  { intros e p' Hq Hno. apply HQ; [by eapply settled_quiet|done|by left|]. intros pools Hf. by destruct (Hno pools). }
  destruct (_ || _) eqn:E1.
  { wps. apply Hstop; [apply quiet_refl|]. intros pools [[uri Hu] _ _ _]. unfold view_string in Hu.
    destruct (sv_data _); [|done]. by destruct (_ =? 0)%nat. }
  destruct (Z.eqb_spec (pv_header_slot_bytes a) TP_HEADER_SLOT_BYTES) as [Hsb|]; cbn [negb].
  2:{ wps. apply Hstop; [apply quiet_refl|]. by intros pools []. }
  destruct (Nat.eqb_spec (length (pv_pools a)) 0) as [E0|].
  { wps. apply Hstop; [apply quiet_refl|]. intros pools [_ _ [Hn _] _]. by apply nil_length_inv in E0. }
  wps. apply dup_spec. intros uri p1 Hq1 Euri. cbn [ma_process ma_state ma_events] in *.
  destruct uri as [uri|].
  2:{ wps. apply Hstop; [done|]. intros pools [[uri Hu] _ _ [Hm _ _ _]]. by rewrite <- (Euri Hm) in Hu. }
  wps.
  assert (Hq2 : quiet p (later (later p1))) by (intros R HR; by apply accounted_later, accounted_later, Hq1).
  destruct (negb _ || negb _) eqn:E2.
  { wps. apply Hstop; [done|]. intros pools [_ _ _ [Hm _ _ _]]. by rewrite !Hm in E2. }
  wps. apply announced_pools_spec.
  intros r p3 Hq3 Er. cbn [ma_process ma_state ma_events] in *. pose proof (quiet_trans _ _ _ Hq2 Hq3).
  destruct r as [pools|err].
  2:{ wps. apply Hstop; [done|]. intros pools [_ _ [_ Hp] [Hm _ _ _]]. by rewrite <- (Er Hm) in Hp. }
  wps. apply settled_unmap_spec; [by eapply settled_quiet|].
  intros p4 [Hc4 Ha4]. wps. set (cfg := {| cc_stream_id := _ |}).
  assert (Hcfg : forall pools', followable (cs_allowed_paths (co_settings c)) a pools' ->
    announce_config a pools' = cfg).
  { intros pools' [_ _ [_ Hp] [Hm _ _ _]]. unfold announce_config, cfg. rewrite <- (Euri Hm).
    rewrite <- (Er Hm) in Hp. by injection Hp as <-. }
  apply attach_config_spec; [apply unmapped_idle|exact Hsane|done|].
  intros r c' p5 ev5 Ha5 Hk Hr. apply (kept_trans _ _ _ (unmapped_kept c)) in Hk.
  assert (Hu : co_last_announce_epoch (unmapped c) = co_last_announce_epoch c) by by destruct c.
  assert (Hnot : ~ attachable (cs_allowed_paths (co_settings (unmapped c))) cfg ->
    forall c' r, followed a c r c').
  { rewrite (kp_settings _ _ (unmapped_kept c)). intros Hno c0 r0 pools' Hf. rewrite <- (Hcfg _ Hf) in Hno. by destruct Hf. }
  destruct Hr as [c' Hat|c' Hid Hst Huri (Hl & _) Hno|c' e Hid (Hl & _) Hno]; cbv beta iota; wps.
  - destruct (lv_state _ _ (ah_live _ _ Hat)) as [-> _]. wps.
    rewrite (live_again cfg) by apply Hat. apply HQ; [|done|right; apply Hat|].
    + split; [right; exists cfg; apply Hat|done].
    + intros pools' Hf. rewrite (Hcfg _ Hf). split; [done|apply Hat].
  - rewrite Hst. wps. apply HQ; [by split; [left|]|done|left; congruence|by apply Hnot].
  - apply HQ; [by split; [left|]|done|left; congruence|by apply Hnot].
Qed.

(** An operation leaves the consumer settled and never goes back to an older epoch. *)
Definition advanced (c c' : tp_consumer_t) : Prop :=
  co_last_announce_epoch c <= co_last_announce_epoch c'.

Definition progress (c : tp_consumer_t) (s : machine) : Prop :=
  settled (ma_state s) (ma_process s) /\ advanced c (ma_state s).

Lemma progress_trans c1 c2 s : advanced c1 c2 -> progress c2 s -> progress c1 s.
Proof. unfold progress, advanced. intros H1 [H2 H3]. split; [done|lia]. Qed.

Lemma unmap_progress F c p ev :
  settled c p ->
  wp F (tp_consumer_unmap_regions W) (fun _ s => progress c s)
    {| ma_state := c; ma_process := p; ma_events := ev |}.
Proof.
  intros Hs. apply settled_unmap_spec; [done|]. intros p' Hs'. split; [done|].
  unfold advanced. by destruct c.
Qed.

(** Settled for every change of fields that say nothing about the regions. *)
Definition elsewhere (c c' : tp_consumer_t) : Prop :=
  co_header_region c' = co_header_region c /\ co_pools c' = co_pools c /\
  co_pool_count c' = co_pool_count c /\ co_stream_id c' = co_stream_id c /\
  co_epoch c' = co_epoch c /\ co_layout_version c' = co_layout_version c /\
  co_header_nslots c' = co_header_nslots c /\ co_state c' = co_state c /\
  co_shm_mapped c' = co_shm_mapped c /\ co_mapped_epoch c' = co_mapped_epoch c.

Lemma live_elsewhere cfg c c' : elsewhere c c' -> live cfg c -> live cfg c'.
Proof.
  intros (E1 & E2 & E3 & E4 & E5 & E6 & E7 & E8 & E9 & E10) []. split; try congruence;
    unfold pools_ok in *; cbn [pools_of count_of consumer_holder] in *; rewrite ?E1, ?E2, ?E3, ?E4, ?E5, ?E6, ?E7, ?E8, ?E9, ?E10; assumption.
Qed.

Lemma idle_elsewhere c c' : elsewhere c c' -> idle c -> idle c'.
Proof.
  intros (E1 & E2 & E3 & E4 & E5 & E6 & E7 & E8 & E9 & E10) []. by split; rewrite ?E1, ?E2, ?E3, ?E7, ?E8, ?E9.
Qed.

Lemma settled_elsewhere c c' p : elsewhere c c' -> settled c p -> settled c' p.
Proof.
  intros He [Hc Ha]. split.
  - destruct Hc as [Hid|[cfg Hl]]; [left; by eapply idle_elsewhere|right; exists cfg; by eapply live_elsewhere].
  - destruct He as (E1 & E2 & _). unfold slots in *. cbn [header_of pools_of consumer_holder] in *. by rewrite E1, E2.
Qed.

Lemma announce_epoch_spec F now_ns a c p ev :
  settled c p -> announce_sane a -> 0 <= pv_epoch a ->
  wp F (announce_epoch W now_ns a) (fun _ s => progress c s)
    {| ma_state := c; ma_process := p; ma_events := ev |}.
Proof.
  intros Hs Hsane Hepoch. unfold announce_epoch. wps.
  assert (Hrest : forall c1 p1, settled c1 p1 -> co_last_announce_epoch c1 = co_last_announce_epoch c ->
    wp F (let+ c2 := get in
          if negb (co_last_announce_epoch c2 =? 0) && (pv_epoch a <? co_last_announce_epoch c2)
          then give tt
          else let+ r := tp_consumer_apply_announce W a in
               match r with
               | Ok _ => modify (fun c3 =>
                   c3 <| co_last_announce_rx_ns := now_ns |>
                      <| co_last_announce_timestamp_ns := pv_announce_timestamp_ns a |>
                      <| co_last_announce_clock_domain := pv_announce_clock_domain a |>
                      <| co_last_announce_epoch := pv_epoch a |>)
               | Err _ => give tt
               end) (fun _ s => progress c s)
      {| ma_state := c1; ma_process := p1; ma_events := ev |}).
  { intros c1 p1 Hs1 Hl1. wps. destruct (negb _ && _) eqn:Ee; wps.
    { split; [done|]. unfold advanced. cbn. lia. }
    assert (Hle : co_last_announce_epoch c <= pv_epoch a).
    { rewrite <- Hl1. destruct (Z.eqb_spec (co_last_announce_epoch c1) 0); [lia|].
      destruct (Z.ltb_spec (pv_epoch a) (co_last_announce_epoch c1)); [done|lia]. }
    apply apply_announce_spec; [done|done|]. intros r c' p' ev' Hs' _ Hf _.
    unfold last_follows in Hf. destruct r as [[]|e]; wps.
    - split; cbn [ma_state ma_process]; [eapply settled_elsewhere; [|exact Hs']; by destruct c'|].
      unfold advanced. replace (co_last_announce_epoch (apply_update _ _)) with (pv_epoch a); [done|].
      by destruct c'.
    - split; [done|]. unfold advanced. cbn. destruct Hf as [->| ->]; lia. }
  destruct (co_shm_mapped c && negb _) eqn:Em; wps.
  - apply settled_unmap_spec; [done|]. intros p' Hs'.
    destruct (co_shm_mapped c && (pv_epoch a <? co_mapped_epoch c)) eqn:Eo.
    + wps. split; [done|]. unfold advanced. by destruct c.
    + apply Hrest; [done|by destruct c].
  - destruct (co_shm_mapped c && (pv_epoch a <? co_mapped_epoch c)) eqn:Eo.
    + wps. split; [done|]. unfold advanced. cbn. lia.
    + by apply Hrest.
Qed.

Lemma on_announce_spec F a c p ev :
  settled c p -> announce_sane a -> 0 <= pv_epoch a ->
  wp F (on_announce W a) (fun _ s => progress c s)
    {| ma_state := c; ma_process := p; ma_events := ev |}.
Proof.
  intros Hs Hsane Hepoch. unfold on_announce. wps.
  assert (Hstay : forall p', quiet p p' -> progress c {| ma_state := c; ma_process := p'; ma_events := ev |}).
  { intros p' Hq. split; [by eapply settled_quiet|]. unfold advanced. cbn. lia. }
  destruct (negb _); wps; [apply Hstay, quiet_refl|].
  assert (Hrest : forall c1 p1, settled c1 p1 -> advanced c c1 ->
    wp F (if negb (pv_stream_id a =? cx_stream_id (co_context c)) then give tt
          else
            let+ now_ns := ask (fun t => u64 (w_clock_ns W t)) in
            let+ announce_now_ns :=
              (if pv_announce_clock_domain a =? TP_CLOCK_DOMAIN_REALTIME_SYNCED
               then ask (fun t => u64 (w_realtime_ns W t)) else give now_ns) in
            let+ c := get in
            if (pv_announce_clock_domain a =? TP_CLOCK_DOMAIN_REALTIME_SYNCED) && (announce_now_ns =? 0)
            then give tt
            else if announce_acceptable c announce_now_ns a then announce_epoch W now_ns a
            else give tt) (fun _ s => progress c s)
      {| ma_state := c1; ma_process := p1; ma_events := ev |}).
  { intros c1 p1 Hs1 Hadv.
    assert (Hstay1 : forall p', quiet p1 p' ->
      progress c {| ma_state := c1; ma_process := p'; ma_events := ev |}).
    { intros p' Hq. split; [by eapply settled_quiet|done]. }
    assert (Hgo : forall now p', quiet p1 p' ->
      wp F (announce_epoch W now a) (fun _ s => progress c s)
        {| ma_state := c1; ma_process := p'; ma_events := ev |}).
    { intros now p' Hq. eapply wp_mono; [apply announce_epoch_spec; [by eapply settled_quiet|done|done]|].
      intros ? s'. by apply progress_trans. }
    destruct (negb _); wps; [apply Hstay1, quiet_refl|].
    pose proof (quiet_later p1). pose proof (quiet_trans _ _ _ (quiet_later p1) (quiet_later (later p1))).
    destruct (_ =? TP_CLOCK_DOMAIN_REALTIME_SYNCED); wps; cbn [andb];
      repeat case_match; wps; by (apply Hstay1 || apply Hgo). }
  destruct (_ =? 0); wps; [|by apply Hrest; [done|unfold advanced]].
  apply Hrest; [|unfold advanced; by destruct c].
  eapply settled_elsewhere; [|eapply settled_quiet; [apply quiet_later|exact Hs]]. by destruct c.
Qed.

Lemma progress_elsewhere c c' s' :
  elsewhere (ma_state s') c' -> co_last_announce_epoch c' = co_last_announce_epoch (ma_state s') ->
  progress c s' ->
  progress c {| ma_state := c'; ma_process := ma_process s'; ma_events := ma_events s' |}.
Proof.
  intros He El [Hs Ha]. split; [by eapply settled_elsewhere|]. unfold advanced in *. cbn. by rewrite El.
Qed.

Lemma progress_refl c p ev : settled c p -> progress c {| ma_state := c; ma_process := p; ma_events := ev |}.
Proof. intros Hs. split; [done|]. unfold advanced. cbn. lia. Qed.

Lemma progress_quiet c s p' :
  quiet (ma_process s) p' -> progress c s ->
  progress c {| ma_state := ma_state s; ma_process := p'; ma_events := ma_events s |}.
Proof. intros Hq [Hs Ha]. split; [by eapply settled_quiet|done]. Qed.

Lemma progress_events c s ev :
  progress c s -> progress c {| ma_state := ma_state s; ma_process := ma_process s; ma_events := ev |}.
Proof. intros [Hs Ha]. by split. Qed.

Lemma assign_spec F channel id put c s :
  (forall id c, elsewhere c (put id c) /\ co_last_announce_epoch (put id c) = co_last_announce_epoch c) ->
  progress c s -> wp F (assign W channel id put) (fun _ s => progress c s) s.
Proof.
  intros Hput Hp. unfold assign. destruct (_ && _); [|by wps].
  wps. unfold subscribe.
  assert (Hadd : forall p', quiet (ma_process s) p' ->
    progress c {| ma_state := put id (ma_state s); ma_process := p'; ma_events := ma_events s |}).
  { intros p' Hq. destruct (Hput id (ma_state s)) as [He El].
    by apply (progress_elsewhere c _ {| ma_state := ma_state s; ma_process := p';
      ma_events := ma_events s |}); [| |apply progress_quiet]. }
  destruct (_ <? 0); wps; [done|]. destruct (w_subscribe _ _); wps.
  - apply Hadd, quiet_later.
  - apply progress_quiet; [apply quiet_later|done].
Qed.

Lemma on_config_spec F v c p ev :
  settled c p ->
  wp F (on_config W v) (fun _ s => progress c s) {| ma_state := c; ma_process := p; ma_events := ev |}.
Proof.
  intros Hs. unfold on_config. wps. repeat (destruct (negb _); wps; [by apply progress_refl|]).
  set (c1 := tp_consumer_set_payload_fallback _ _).
  assert (H1 : progress c {| ma_state := c1; ma_process := p; ma_events := ev |}).
  { apply (progress_elsewhere c c1 {| ma_state := c; ma_process := p; ma_events := ev |});
      [by destruct c|by destruct c|by apply progress_refl]. }
  assert (Hassign : forall s, progress c s ->
    wp F (assign W (cv_descriptor_channel v) (cv_descriptor_stream_id v)
            (fun id c => c <| co_assigned_descriptor_stream_id := id |>))
      (fun _ => wp F (assign W (cv_control_channel v) (cv_control_stream_id v)
                        (fun id c => c <| co_assigned_control_stream_id := id |>))
                  (fun _ s => progress c s)) s).
  { intros s Hp. eapply wp_mono; [apply assign_spec; [|exact Hp]; by intros ? []|].
    intros ? s' Hp'. apply assign_spec; [by intros ? []|done]. }
  clearbody c1. destruct H1 as [Hs1 Ha1]. cbn [ma_state ma_process] in Hs1, Ha1.
  destruct (negb (co_use_shm c1)); wps.
  - destruct Hs1 as [Hc1 Hac1]. apply enter_fallback_spec; [by apply consistent_pools_ok|done|].
    intros p' Ha'. wps. apply Hassign. split; [split; [left; apply fallen_back_idle|done]|].
    unfold advanced in *. by destruct c1.
  - destruct (co_state c1) eqn:Est; wps; apply Hassign; (split; [|unfold advanced in *; by destruct c1]);
      [done|done|].
    destruct Hs1 as [[Hid|[cfg Hl]] Hac1]; [|destruct (lv_state _ _ Hl); congruence].
    split; [left|by destruct c1]. destruct Hid, c1. by split.
Qed.

Lemma on_lease_revoked_spec F r c p ev :
  settled c p ->
  wp F (on_lease_revoked W r) (fun _ s => progress c s)
    {| ma_state := c; ma_process := p; ma_events := ev |}.
Proof.
  intros Hs. unfold on_lease_revoked. wps. destruct (_ && _); wps; [|by apply progress_refl].
  apply settled_unmap_spec; [by eapply settled_quiet, Hs; apply quiet_later|].
  intros p' Hs'. wps. eapply (progress_elsewhere c _ {| ma_state := unmapped c |}); cycle 2.
  - split; [exact Hs'|]. unfold advanced. by destruct c.
  - cbn [ma_state]. unfold tp_consumer_schedule_reattach. case_match; by destruct c.
  - cbn [ma_state]. unfold tp_consumer_schedule_reattach. case_match; by destruct c.
Qed.

(** ** Fragments *)

(** A fragment no decoder reads beyond, and that announces no ring whose size is
    not a power of two. *)
Record control_fragment_safe (b : bytes) : Prop := {
  sf_announce : forall alloc, tp_control_decode_shm_pool_announce b alloc <> OutOfBounds;
  sf_sane : forall alloc a, tp_control_decode_shm_pool_announce b alloc = Decoded a -> announce_sane a;
  sf_config : tp_control_decode_consumer_config b <> OutOfBounds;
  sf_revoked : tp_driver_decode_lease_revoked b <> OutOfBounds;
  sf_shutdown : tp_driver_decode_shutdown b <> OutOfBounds;
}.

Lemma control_handler_spec b c p ev :
  settled c p -> control_fragment_safe b ->
  wp False (tp_consumer_control_handler W b) (fun _ s => progress c s)
    {| ma_state := c; ma_process := p; ma_events := ev |}.
Proof.
  intros Hs [Ha Hsane Hcfg Hrev Hsh]. unfold tp_consumer_control_handler. wps.
  assert (Hs' : settled c (later p)) by (eapply settled_quiet; [apply quiet_later|done]).
  specialize (Ha (w_alloc W (os_tick p))). specialize (Hsane (w_alloc W (os_tick p))).
  assert (Hrest : wp False
    (match tp_control_decode_consumer_config b with
     | OutOfBounds => fault
     | Decoded v => on_config W v
     | _ => match tp_driver_decode_lease_revoked b with
            | OutOfBounds => fault
            | Decoded r => on_lease_revoked W r
            | _ => match tp_driver_decode_shutdown b with
                   | OutOfBounds => fault
                   | Decoded s => emit (ShutdownError s)
                   | _ => give tt
                   end
            end
     end) (fun _ s => progress c s) {| ma_state := c; ma_process := later p; ma_events := ev |}).
  { assert (Hstay : forall ev', progress c {| ma_state := c; ma_process := later p; ma_events := ev' |})
      by (intros; by apply progress_refl).
    destruct (tp_control_decode_consumer_config b); [by apply on_config_spec| | |done];
      (destruct (tp_driver_decode_lease_revoked b); [by apply on_lease_revoked_spec| | |done]);
      destruct (tp_driver_decode_shutdown b); wps; done. }
  pose proof (pool_announce_sound b (w_alloc W (os_tick p))) as Hsound.
  destruct (tp_control_decode_shm_pool_announce b _) as [a| | |]; [|exact Hrest|exact Hrest|done].
  apply on_announce_spec; [done|by apply Hsane|].
  cbn [sound event_typed] in Hsound. destruct Hsound as (_ & He & _). decompose_Forall_hyps.
  match goal with H : is_u64 (pv_epoch a) |- _ => exact (proj1 H) end.
Qed.

(** A descriptor that holds its block. *)
Definition descriptor_safe (b : bytes) : Prop :=
  messageHeader_schemaId b = Control.wire_schema_id -> messageHeader_templateId b = frameDescriptor_template ->
  messageHeader_encoded_length <= blen b -> messageHeader_encoded_length + frameDescriptor_block <= blen b.

Lemma descriptor_handler_spec b c p ev :
  settled c p -> descriptor_safe b ->
  wp False (tp_consumer_descriptor_handler W b) (fun _ s => progress c s)
    {| ma_state := c; ma_process := p; ma_events := ev |}.
Proof.
  intros Hs Hb. unfold tp_consumer_descriptor_handler.
  destruct (Z.ltb_spec (blen b) messageHeader_encoded_length); [by wps; apply progress_refl|].
  destruct (_ || _) eqn:Et; [by wps; apply progress_refl|].
  apply orb_false_iff in Et as [E1 E2]. bool_simp.
  destruct (Z.ltb_spec (blen b) (messageHeader_encoded_length + frameDescriptor_block)) as [Hl|].
  { exfalso. specialize (Hb ltac:(done) ltac:(done) ltac:(done)). lia. }
  wps. destruct (negb (co_shm_mapped c)); wps; [by apply progress_refl|].
  destruct (negb _); [by apply unmap_progress|]. wps.
  apply (progress_elsewhere c _ {| ma_state := c; ma_process := p; ma_events := ev ++ _ |});
    [by destruct c|by destruct c|by apply progress_refl].
Qed.

(** ** Polls *)

Lemma activity_spec F now_ns c s :
  progress c s ->
  wp F (tp_consumer_check_activity_liveness W now_ns) (fun _ s => progress c s) s.
Proof.
  intros Hp. unfold tp_consumer_check_activity_liveness. wps. destruct (_ || _); [by wps|].
  destruct (_ && _); [by wps|]. wps. unfold read_superblock.
  destruct (_ =? 0); wps; [done|]. cbn [Superblock.tp_shm_read_activity_timestamp].
  destruct (negb _ && _ && _); [|by wps; apply progress_quiet; [apply quiet_later|]].
  destruct Hp as [Hs Ha]. eapply wp_mono; [apply unmap_progress; by eapply settled_quiet, Hs; apply quiet_later|].
  intros ? s'. by apply progress_trans.
Qed.

Lemma check_pool_pids_spec c n : forall i s,
  progress c s ->
  (forall l, co_pools (ma_state s) = Some l -> (i + n <= length l)%nat) ->
  (co_pools (ma_state s) = NULL -> n = 0%nat) ->
  wp False (check_pool_pids W n i) (fun _ s => progress c s) s.
Proof.
  induction n as [|n IH]; intros i s Hp Hlen Hnull; cbn [check_pool_pids]; wps; [done|].
  destruct (co_pools (ma_state s)) as [l|] eqn:El; [|by specialize (Hnull eq_refl)].
  specialize (Hlen l eq_refl). destruct (lookup_lt_is_Some_2 l i) as [q Hq]; [lia|].
  eapply get_pool_spec; [done|exact El|exact Hq|]. unfold read_superblock.
  destruct (_ =? 0); wps; [done|].
  pose proof (progress_quiet c s _ (quiet_later _) Hp) as Hp'. cbn [Superblock.tp_shm_read_pid].
  destruct (negb _).
  - destruct Hp' as [Hs Ha]. eapply wp_mono; [by apply unmap_progress|]. intros ? s'. by apply progress_trans.
  - apply IH; [done| |]; cbn [ma_state]; rewrite El; [intros l' [= <-]; lia|done].
Qed.

Lemma pid_liveness_spec c s :
  progress c s -> wp False (tp_consumer_check_pid_liveness W) (fun _ s => progress c s) s.
Proof.
  intros Hp. unfold tp_consumer_check_pid_liveness. wps. destruct (negb _); [by wps|]. wps.
  unfold read_superblock. destruct (_ =? 0); wps; [done|].
  pose proof (progress_quiet c s _ (quiet_later _) Hp) as Hp'. cbn [Superblock.tp_shm_read_pid].
  destruct (negb _).
  - destruct Hp' as [Hs Ha]. eapply wp_mono; [by apply unmap_progress|]. intros ? s'. by apply progress_trans.
  - assert (Hok : pools_ok (ma_state s)) by (destruct Hp as [[Hc _] _]; by apply consistent_pools_ok).
    unfold pools_ok in Hok. cbn [pools_of count_of consumer_holder] in Hok. apply check_pool_pids_spec; [done|..]; cbn [ma_state].
    + intros l El. rewrite El in Hok. lia.
    + intros El. by rewrite El in Hok.
Qed.

Lemma report_qos_spec F now_ns c s :
  progress c s -> wp F (report_qos now_ns) (fun _ s => progress c s) s.
Proof.
  intros Hp. unfold report_qos. wps. destruct (_ && _ && _); wps; [|done].
  apply (progress_elsewhere c _ {| ma_state := ma_state s; ma_process := ma_process s;
    ma_events := ma_events s ++ _ |}); [by destruct (ma_state s)|by destruct (ma_state s)|].
  by apply progress_events.
Qed.

(** The handlers, one fragment after another. *)
Lemma for_each_progress {A} (f : A -> C unit) (safe : A -> Prop) l : forall c s,
  (forall a c p ev, settled c p -> safe a ->
     wp False (f a) (fun _ s => progress c s) {| ma_state := c; ma_process := p; ma_events := ev |}) ->
  Forall safe l -> progress c s -> wp False (for_each f l) (fun _ s => progress c s) s.
Proof.
  induction l as [|a l IH]; intros c s Hf Hl Hp; cbn [for_each]; wps; [done|].
  inversion_clear Hl as [|? ? Ha Hl']. destruct s as [c1 p1 ev1], Hp as [Hs Hadv].
  eapply wp_mono; [by apply Hf|]. intros ? s' Hp'. apply IH; [done|done|]. by eapply progress_trans.
Qed.

Lemma poll_descriptors_spec fragments c s :
  Forall descriptor_safe fragments -> progress c s ->
  wp False (tp_consumer_poll_descriptors_internal W fragments) (fun _ s => progress c s) s.
Proof.
  intros Hf Hp. unfold tp_consumer_poll_descriptors_internal. wps.
  eapply wp_mono; [apply (for_each_progress _ descriptor_safe); [|done|exact Hp]|].
  { intros. by apply descriptor_handler_spec. }
  intros ? s1 Hp1. wps. pose proof (progress_quiet c s1 _ (quiet_later _) Hp1).
  eapply wp_mono; [by apply activity_spec|]. intros ? s2 Hp2. by apply pid_liveness_spec.
Qed.

Lemma poll_control_spec fragments c s :
  Forall control_fragment_safe fragments -> progress c s ->
  wp False (tp_consumer_poll_control_internal W fragments) (fun _ s => progress c s) s.
Proof.
  intros Hf Hp. unfold tp_consumer_poll_control_internal. wps.
  eapply wp_mono; [apply (for_each_progress _ control_fragment_safe); [|done|exact Hp]|].
  { intros. by apply control_handler_spec. }
  intros ? s1 Hp1. wps. pose proof (progress_quiet c s1 _ (quiet_later _) Hp1).
  eapply wp_mono; [by apply report_qos_spec|]. intros ? s2 Hp2. wps.
  eapply wp_mono; [apply activity_spec; exact Hp2|]. intros ? s3 Hp3. by apply pid_liveness_spec.
Qed.

(** ** Attaching and closing *)

Definition info_sane (info : tp_driver_attach_info_t) : Prop :=
  config_sane (tp_driver_attach_consumer_config info).

Lemma take_attach_info_spec F info c p ev :
  idle c -> accounted (slots c) p -> info_sane info ->
  wp F (take_attach_info W info) (fun _ s => settled (ma_state s) (ma_process s))
    {| ma_state := c; ma_process := p; ma_events := ev |}.
Proof.
  intros Hid Ha Hsane. unfold take_attach_info.
  destruct (negb _); [wps; by split; [left|]|]. wps.
  set (c1 := c <| co_driver_attached := true |>).
  assert (Hid1 : idle c1) by (apply (idle_elsewhere c); [by destruct c|done]).
  assert (Ha1 : accounted (slots c1) p) by by destruct c.
  assert (Hdrop : forall c' p', settled c' p' -> settled (c' <| co_driver_attached := false |>) p')
    by (intros c' p'; apply settled_elsewhere; by destruct c').
  destruct (w_alloc W _); wps.
  - apply attach_config_spec; [done|done|by apply accounted_later|].
    intros r c' p' ev' Ha' _ Hr. assert (Hs' : settled c' p').
    { split; [|done]. destruct Hr as [c' Hat| |]; [right; exists (tp_driver_attach_consumer_config info); apply Hat|by left..]. }
    destruct r as [[]|e]; wps; [done|]. by apply Hdrop.
  - apply Hdrop. split; [by left|by apply accounted_later].
Qed.

(** What a driver's answer leads to is sane. *)
Definition answer_sane (r : poll_result tp_driver_attach_info_t) : Prop :=
  match r with Complete info => info_sane info | _ => True end.

Lemma settled_idle c p : settled c p -> co_shm_mapped c = false -> idle c.
Proof. intros [[Hid|[cfg Hl]] _] E; [done|]. destruct (lv_state _ _ Hl). congruence. Qed.

Lemma attach_poll_spec codes fresh e a c p ev :
  settled c p -> co_shm_mapped c = false ->
  (forall d, co_driver c = Some d ->
     answer_sane (fst (fst (fst (tp_driver_attach_poll codes fresh e d a))))) ->
  wp True (tp_consumer_attach_driver_poll W codes fresh e a)
    (fun _ s => settled (ma_state s) (ma_process s))
    {| ma_state := c; ma_process := p; ma_events := ev |}.
Proof.
  intros Hs Hm Hans. unfold tp_consumer_attach_driver_poll. wps.
  destruct (co_driver c) as [d|]; [|done]. specialize (Hans d eq_refl).
  destruct (tp_driver_attach_poll codes fresh e d a) as [[[res d'] a'] out]. cbn [fst] in Hans. wps.
  assert (Hs1 : settled (c <| co_driver := Some d' |>) p) by (eapply settled_elsewhere, Hs; by destruct c).
  destruct res as [|info| |]; wps; try done.
  assert (Hid : idle (c <| co_driver := Some d' |>)) by (eapply settled_idle; [done|by destruct c]).
  eapply wp_mono; [by apply take_attach_info_spec; [|apply Hs1|]|]. intros ? s' Hs'. by wps.
Qed.

Lemma consumer_attach_spec correlation_id client_id config attach c p ev :
  settled c p -> co_shm_mapped c = false ->
  (forall cfg, config = Some cfg -> config_sane cfg) ->
  (forall request info, snd (attach request) = Ok info -> info_sane info) ->
  wp True (tp_consumer_attach W correlation_id client_id config attach)
    (fun _ s => settled (ma_state s) (ma_process s))
    {| ma_state := c; ma_process := p; ma_events := ev |}.
Proof.
  intros Hs Hm Hcfg Hans. unfold tp_consumer_attach. wps.
  destruct (cx_use_driver (co_context c)), config as [cfg|]; wps; try done.
  - unfold tp_consumer_fill_driver_request. cbv beta zeta iota. wps.
    match goal with |- context [attach ?r] => set (request := r) end.
    match goal with |- context [{| ma_state := ?x |}] => set (c1 := x) end.
    assert (He : elsewhere c c1) by (unfold c1; by destruct c).
    assert (Hs1 : settled c1 p) by (by eapply settled_elsewhere).
    destruct (snd (attach request)) as [info|e] eqn:Ea; wps; [|done].
    apply take_attach_info_spec; [|apply Hs1|by eapply Hans].
    eapply settled_idle; [done|]. destruct He as (_ & _ & _ & _ & _ & _ & _ & _ & -> & _). done.
  - apply attach_config_spec; [by eapply settled_idle|by apply Hcfg|apply Hs|].
    intros r c' p' ev' Ha' _ Hr. split; [|done].
    destruct Hr as [c' Hat| |]; [right; exists cfg; apply Hat|by left..].
Qed.

Lemma close_spec c p ev :
  settled c p ->
  wp False (tp_consumer_close W)
    (fun _ s => idle (ma_state s) /\ os_maps (ma_process s) ≡ₚ maps0 /\ os_fds (ma_process s) ≡ₚ fds0)
    {| ma_state := c; ma_process := p; ma_events := ev |}.
Proof.
  intros Hs. unfold tp_consumer_close. wps. apply settled_unmap_spec; [done|]. intros p' [_ [H1 H2 _]].
  rewrite (filter_nothing _ (idle_nothing _ (unmapped_idle c))) in H1, H2. cbn [fmap list_fmap app] in H1, H2.
  wps. destruct (co_driver (unmapped c)) as [d|]; [destruct (co_driver_attached (unmapped c))|]; wps;
    (split; [by destruct c|done]).
Qed.
End Regions.

(** ** Any run of a consumer *)

Section Runs.
Context `{Sbe} (W : world) (HK : kernel_ok (w_kernel W)).
Context (settings : client_settings) (context : tp_consumer_context_t)
        (control_publication qos_publication : bool) (before : process).

Definition new_consumer : machine :=
  {| ma_state := consumer_init settings context control_publication qos_publication;
     ma_process := before; ma_events := [] |}.

Definition set_consumer (s : machine) (c : tp_consumer_t) : machine := s <| ma_state := c |>.

(** The machines a consumer gets to: it polls whatever arrives, reads frames, and
    attaches, by itself or through the driver, only while it has nothing mapped. *)
Inductive reached : machine -> Prop :=
  | reached_new : reached new_consumer
  | reached_control s fragments s' :
      reached s -> Forall control_fragment_safe fragments ->
      tp_consumer_poll_control_internal W fragments s = Some (tt, s') -> reached s'
  | reached_descriptors s fragments s' :
      reached s -> Forall descriptor_safe fragments ->
      tp_consumer_poll_descriptors_internal W fragments s = Some (tt, s') -> reached s'
  | reached_late s late :
      reached s -> reached (set_consumer s ((ma_state s) <| co_drops_late := late |>))
  | reached_schedule s now_ns :
      reached s -> reached (set_consumer s (tp_consumer_schedule_reattach now_ns (ma_state s)))
  | reached_async s correlation_id client_id driver a s' :
      reached s ->
      tp_consumer_attach_driver_async correlation_id client_id driver s = Some (a, s') -> reached s'
  | reached_poll s codes fresh e a r s' :
      reached s -> co_shm_mapped (ma_state s) = false ->
      (forall d, co_driver (ma_state s) = Some d ->
         answer_sane (fst (fst (fst (tp_driver_attach_poll codes fresh e d a))))) ->
      tp_consumer_attach_driver_poll W codes fresh e a s = Some (r, s') -> reached s'
  | reached_attach s correlation_id client_id config attach r s' :
      reached s -> co_shm_mapped (ma_state s) = false ->
      (forall cfg, config = Some cfg -> config_sane cfg) ->
      (forall request info, snd (attach request) = Ok info -> info_sane info) ->
      tp_consumer_attach W correlation_id client_id config attach s = Some (r, s') -> reached s'.

Abbreviation settled := (settled W (os_maps before) (os_fds before)).

Lemma reached_settled s : reached s -> settled (ma_state s) (ma_process s).
Proof.
  induction 1 as [|s fs s' _ IH Hf Hs|s fs s' _ IH Hf Hs|s late _ IH|s now _ IH|
    s corr cl d a s' _ IH Hs|s codes fresh e a r s' _ IH Hm Hans Hs|
    s corr cl cfg attach r s' _ IH Hm Hcfg Hans Hs].
  - split; [by left|]. by split.
  - destruct s as [c p ev].
    by apply (wp_reached _ _ _ _ _ _ (poll_control_spec W HK _ _ fs c _ Hf (progress_refl _ _ _ c p ev IH)) Hs).
  - destruct s as [c p ev].
    by apply (wp_reached _ _ _ _ _ _ (poll_descriptors_spec W HK _ _ fs c _ Hf (progress_refl _ _ _ c p ev IH)) Hs).
  - eapply settled_elsewhere; [|exact IH]. by destruct (ma_state s).
  - eapply settled_elsewhere; [|exact IH]. unfold set_consumer, tp_consumer_schedule_reattach.
    cbn [ma_state]. destruct s as [c p ev]. cbn. case_match; by destruct c.
  - destruct s as [c p ev]. injection Hs as _ <-. cbn [ma_state ma_process] in *.
    eapply settled_elsewhere; [|exact IH]. by destruct c.
  - destruct s as [c p ev]. exact (wp_reached _ _ _ _ _ _ (attach_poll_spec W HK _ _ codes fresh e a c p ev IH Hm Hans) Hs).
  - destruct s as [c p ev]. exact (wp_reached _ _ _ _ _ _ (consumer_attach_spec W HK _ _ corr cl cfg attach c p ev IH Hm Hcfg Hans) Hs).
Qed.

(** C9: In every run that [reached] admits, whatever else arrives and whichever calls
    of the operating system fail, the descriptors and mappings the process has beyond
    those it started with are, one for one, those of the regions the consumer holds,
    and closing the consumer gives all of them back.  The runs admitted attach only
    while nothing is mapped and take ring sizes that are powers of two from the
    control stream and the driver: [attach_while_mapped] leaks without the first,
    and after [unchecked_ring_size] closing follows a NULL pointer. *)
Theorem regions_given_back s :
  reached s ->
  os_maps (ma_process s) ≡ₚ
    ((fun r => (rg_addr r, rg_length r)) <$> filter mapped (slots (ma_state s))) ++ os_maps before /\
  os_fds (ma_process s) ≡ₚ (rg_fd <$> filter mapped (slots (ma_state s))) ++ os_fds before /\
  exists s', tp_consumer_close W s = Some (tt, s') /\
    os_maps (ma_process s') ≡ₚ os_maps before /\ os_fds (ma_process s') ≡ₚ os_fds before.
Proof.
  intros Hr. apply reached_settled in Hr as Hs. pose proof Hs as [_ [H1 H2 _]].
  split; [done|]. split; [done|]. destruct s as [c p ev].
  pose proof (close_spec W HK _ _ c p ev Hs) as Hc. unfold wp in Hc.
  destruct (tp_consumer_close W _) as [[[] s']|]; [|done]. destruct Hc as (_ & Hm & Hf).
  by exists s'.
Qed.

(** C16: While a consumer reads frames its regions are those of one configuration: the
    header ring and every pool are mapped and held a superblock with the stream,
    the epoch, the sizes and the pool identifier the consumer goes by, the ring's
    size is a power of two that every pool shares, and strides are multiples of 64.
    Otherwise nothing is mapped and there is no ring to index. *)
Theorem mapped_regions_validated s :
  reached s ->
  let c := ma_state s in
  if co_shm_mapped c then
    exists cfg pools, default [] (co_pools c) = pools /\ co_pool_count c = length pools /\
      co_stream_id c = cc_stream_id cfg /\ co_epoch c = cc_epoch cfg /\
      co_mapped_epoch c = cc_epoch cfg /\ co_header_nslots c = cc_header_nslots cfg /\
      tp_is_power_of_two (co_header_nslots c) = true /\
      region_ready W true (header_expected cfg) (co_header_region c) /\
      Forall2 (pool_ready W true cfg) (cc_pools cfg) pools
  else
    co_pools c = NULL /\ co_pool_count c = 0%nat /\ free (rn_region (co_header_region c)) /\
    co_header_nslots c = 0 /\ co_state c <> TP_CONSUMER_STATE_MAPPED.
Proof.
  intros Hr. apply reached_settled in Hr as [[[]|[cfg Hl]] _]; cbv zeta.
  - destruct (co_shm_mapped (ma_state s)); [done|]. by split_and!.
  - destruct Hl as [[_ ->] Hst [He Hme] _ [Hn Hpow] Hh Hps Hok].
    exists cfg, (default [] (co_pools (ma_state s))). split; [done|].
    split; [unfold pools_ok in Hok; cbn in Hok; by destruct (co_pools _)|]. rewrite Hn. by split_and!.
Qed.

(** Polling never follows a NULL pointer and always returns, whatever fragments
    arrive that no decoder reads beyond, and the epoch of the last announcement
    applied never goes back. *)
Theorem polls_return s fragments :
  reached s ->
  (Forall control_fragment_safe fragments ->
   exists s', tp_consumer_poll_control_internal W fragments s = Some (tt, s') /\
     co_last_announce_epoch (ma_state s) <= co_last_announce_epoch (ma_state s')) /\
  (Forall descriptor_safe fragments ->
   exists s', tp_consumer_poll_descriptors_internal W fragments s = Some (tt, s') /\
     co_last_announce_epoch (ma_state s) <= co_last_announce_epoch (ma_state s')).
Proof.
  intros Hr. apply reached_settled in Hr as Hs. destruct s as [c p ev].
  pose proof (progress_refl W _ _ c p ev Hs) as Hp. split; intros Hf.
  - pose proof (poll_control_spec W HK _ _ fragments c _ Hf Hp) as Hw. unfold wp in Hw.
    destruct (tp_consumer_poll_control_internal W _ _) as [[[] s']|]; [|done].
    exists s'. split; [done|apply Hw].
  - pose proof (poll_descriptors_spec W HK _ _ fragments c _ Hf Hp) as Hw. unfold wp in Hw.
    destruct (tp_consumer_poll_descriptors_internal W _ _) as [[[] s']|]; [|done].
    exists s'. split; [done|apply Hw].
Qed.
End Runs.

(** ** A concrete consumer *)

#[local] Existing Instance le_sbe.

Module Demo.

Export TwoFiles.

Definition demo_hello : tp_consumer_hello_t :=
  {| he_stream_id := 0; he_consumer_id := 0; he_supports_shm := 1; he_supports_progress := 0;
     he_mode := 1; he_max_rate_hz := 0; he_expected_layout_version := 0;
     he_progress_interval_us := 0; he_progress_bytes_delta := 0; he_progress_major_delta_units := 0;
     he_descriptor_stream_id := 0; he_control_stream_id := 0; he_descriptor_channel := NULL;
     he_control_channel := NULL |}.

Definition demo_request : tp_driver_attach_request_t :=
  {| at_correlation_id := 0; at_stream_id := 0; at_client_id := 0; at_role := 0;
     at_expected_layout_version := 0; at_publish_mode := 0; at_require_hugepages := 0;
     at_desired_node_id := 0 |}.

Definition demo_context (use_driver : bool) : tp_consumer_context_t :=
  {| cx_stream_id := 10; cx_consumer_id := 21; cx_use_driver := use_driver;
     cx_driver_request := demo_request; cx_hello := demo_hello |}.

(** A driver that never answers. *)
Definition no_driver (_ : tp_driver_attach_request_t)
    : tp_driver_client_t * res tp_driver_attach_info_t :=
  ({| dc_publication := true; dc_subscription := true; dc_active_lease_id := 0;
      dc_lease_expiry_timestamp_ns := 0; dc_last_keepalive_ns := 0; dc_active_stream_id := 0;
      dc_client_id := 0; dc_role := 0 |}, Err EINVAL).

Definition demo_new (use_driver : bool) : machine :=
  new_consumer demo_settings (demo_context use_driver) true true fresh.

(** After attaching by itself. *)
Definition demo_attached : option (res unit * machine) :=
  tp_consumer_attach demo_world 1 2 (Some (demo_config 8)) no_driver (demo_new false).

Lemma demo_reached r s :
  demo_attached = Some (r, s) ->
  reached demo_world demo_settings (demo_context false) true true fresh s.
Proof.
  unfold demo_attached. intros E.
  eapply (reached_attach _ _ _ _ _ _ (demo_new false)); [constructor|reflexivity| | |exact E].
  - intros cfg [= <-]. by intros _.
  - done.
Qed.

Lemma mapped_regions_validated_witness :
  exists s cfg, demo_attached = Some (Ok tt, s) /\ co_shm_mapped (ma_state s) = true /\
    cc_epoch cfg = 77 /\ co_pool_count (ma_state s) = 1%nat /\
    region_ready demo_world true (header_expected cfg) (co_header_region (ma_state s)).
Proof.
  destruct demo_attached as [[r s]|] eqn:E; [|vm_compute in E; discriminate E].
  pose proof (mapped_regions_validated demo_world demo_kernel_ok demo_settings (demo_context false)
    true true fresh s (demo_reached _ _ E)) as Hv.
  vm_compute in E. injection E as <- <-. cbv zeta in Hv. cbn [ma_state co_shm_mapped] in Hv.
  destruct Hv as (cfg & pools & _ & _ & _ & _ & Ee & _ & _ & Hh & _).
  eexists _, cfg. split; [reflexivity|]. split; [reflexivity|]. split; [symmetry; exact Ee|].
  split; [reflexivity|exact Hh].
Defined.

Lemma regions_given_back_witness :
  exists s s', demo_attached = Some (Ok tt, s) /\ os_fds (ma_process s) = [101; 100] /\
    tp_consumer_close demo_world s = Some (tt, s') /\ os_fds (ma_process s') ≡ₚ [].
Proof.
  destruct demo_attached as [[r s]|] eqn:E; [|vm_compute in E; discriminate E].
  pose proof (regions_given_back demo_world demo_kernel_ok demo_settings (demo_context false)
    true true fresh s (demo_reached _ _ E)) as (_ & _ & s' & Hc & _ & Hf).
  exists s, s'. vm_compute in E. injection E as <- <-.
  split; [reflexivity|]. split; [reflexivity|]. split; [exact Hc|exact Hf].
Defined.

(** A descriptor of another epoch makes the consumer give its regions up. *)
Definition foreign_descriptor : bytes :=
  [40; 0; 4; 0; 132; 3; 1; 0; 10; 0; 0; 0; 78; 0; 0; 0; 0; 0; 0; 0; 5; 0; 0; 0; 0; 0; 0; 0] ++ repeat 0 20.

Lemma polls_return_witness :
  exists s s', demo_attached = Some (Ok tt, s) /\
    tp_consumer_poll_descriptors_internal demo_world [foreign_descriptor] s = Some (tt, s') /\
    co_shm_mapped (ma_state s) = true /\ co_shm_mapped (ma_state s') = false /\
    co_last_announce_epoch (ma_state s) <= co_last_announce_epoch (ma_state s').
Proof.
  destruct demo_attached as [[r s]|] eqn:E; [|vm_compute in E; discriminate E].
  destruct (polls_return demo_world demo_kernel_ok demo_settings (demo_context false)
    true true fresh s [foreign_descriptor] (demo_reached _ _ E)) as [_ Hd].
  destruct Hd as (s' & Hs & Hle).
  { constructor; [|constructor]. intros _ _ _. vm_compute. discriminate. }
  exists s, s'. vm_compute in E. injection E as <- <-.
  split; [reflexivity|]. split; [exact Hs|]. split; [reflexivity|]. split; [|exact Hle].
  vm_compute in Hs. injection Hs as <-. reflexivity.
Defined.

(** A ring whose size is not a power of two leaves the number of pools behind
    without an array of them: giving the regions up follows a NULL pointer. *)
Example unchecked_ring_size :
  exists s, tp_consumer_attach demo_world 1 2 (Some (demo_config 6)) no_driver (demo_new false) =
    Some (Err EINVAL, s) /\
  co_pool_count (ma_state s) = 1%nat /\ co_pools (ma_state s) = NULL /\
  tp_consumer_close demo_world s = None.
Proof. eexists. split; [vm_compute; reflexivity|]. by split_and!. Qed.

(** Attaching again without having given up the regions forgets them. *)
Example attach_while_mapped :
  exists s s1 s2, demo_attached = Some (Ok tt, s) /\
    tp_consumer_attach demo_world 1 2 (Some (demo_config 8)) no_driver s = Some (Ok tt, s1) /\
    tp_consumer_close demo_world s1 = Some (tt, s2) /\
    os_fds (ma_process s2) = [101; 100].
Proof. eexists _, _, _. split_and!; [vm_compute; reflexivity..]. Qed.
End Demo.
