(* ===== verification/ConsumerSession.v ===== *)
(** * ConsumerSession: a consumer in its session

    Theorems about ConsumerMapping that join it to its partners: the bytes of the
    driver's announcement make a consumer map the driver's regions, the bytes of
    its revocation make it give them up and come back later; descriptors are
    counted without losing a gap; and what a session must not do to a consumer
    but does (the examples at the end). *)

From Stdlib Require Import ZArith Lia Bool Ascii String.
From stdpp Require Import strings list.
From coqutil Require Import Datatypes.RecordSetters.
From S2P Require Import Prelude Sbe Seqlock Uri Shm Message ConsumerManager ProgressPoller.
From S2P Require Import Driver DriverMessages DriverClient Control Metadata Machine Regions ConsumerMapping ConsumerRegions.
Import Mapping TriangleBracketNotations.

#[local] Open Scope Z_scope.
#[local] Open Scope list_scope.

(** ** Regions that can be attached *)

Section Offered.
Context `{Sbe} (W : world) (HK : kernel_ok (w_kernel W)) (paths : tp_allowed_paths_t).

(** Mapping the URI succeeds whenever it is tried, and what is mapped then always
    meets the expectation. *)
Definition offered (uri : chars) (e : tp_shm_expected_t) : Prop :=
  forall p, exists rg p', tp_shm_map (w_kernel W) (Some uri) false (Some paths) p = (Ok rg, p') /\
    forall t, Superblock.tp_shm_validate_superblock (Some (w_memory W t (rg_addr rg))) (Some e) = Ok tt.

Definition aligned (uri : chars) (stride : Z) : Prop :=
  forall p, exists p', tp_shm_validate_stride_alignment (w_kernel W) (Some uri) stride p = (Ok tt, p').

Definition keeps_paths (s : machine) : Prop :=
  cs_allowed_paths (co_settings (ma_state s)) = paths.

Lemma attach_region_offered r uri e put s :
  ap_canonical_paths paths <> [] ->
  (forall r c, co_settings (put r c) = co_settings c) -> offered uri e -> keeps_paths s ->
  wp True (attach_region W false true r (Some uri) e put) (fun r s' => r = Ok tt /\ keeps_paths s') s.
Proof.
  intros Hne Hput Ho Hs. unfold attach_region, map_region. wps. unfold keeps_paths in Hs.
  cbn [paths_of consumer_holder]. rewrite Hs, bool_decide_false by done. wps. apply wp_system.
  destruct (Ho (ma_process s)) as (rg & p' & E & Hvalid). rewrite E. wps. cbn [fst snd]. wps.
  destruct (map_answered _ _ _ _ _ _ _ E) as (_ & (t & len & Hmm) & _).
  unfold read_superblock. cbn [rn_region]. rewrite (proj2 (Z.eqb_neq _ _)) by (by eapply ko_mmap).
  wps. rewrite Hvalid. wps. cbn [Superblock.tp_shm_read_pid]. wps. split; [done|].
  unfold keeps_paths. cbn [ma_state]. by rewrite !Hput.
Qed.

Definition pool_offered (cfg : region_config) (pc : pool_config) : Prop :=
  exists uri, pc_uri pc = Some uri /\ pc_nslots pc = cc_header_nslots cfg /\
    aligned uri (pc_stride_bytes pc) /\ offered uri (pool_expected cfg pc).

Lemma attach_pools_offered cfg pools : forall i s,
  ap_canonical_paths paths <> [] -> Forall (pool_offered cfg) pools -> keeps_paths s ->
  wp True (attach_pools W false true cfg i pools) (fun r _ => r = Ok tt) s.
Proof.
  induction pools as [|pc pools IH]; intros i s Hne Hall Hs; cbn [attach_pools]; wps; [done|].
  apply Forall_cons_1 in Hall as [(uri & Euri & En & Hal & Ho) Hall'].
  unfold attach_pool, get_pool. wps. cbn [pools_of consumer_holder].
  destruct (co_pools (ma_state s) ≫= (.!! i)); [|done]. wps.
  rewrite En, Z.eqb_refl. cbn [negb]. wps. apply wp_system. cbn [ma_process ma_state ma_events].
  rewrite Euri. destruct (Hal (ma_process s)) as [p' E]. rewrite E. cbv iota.
  eapply wp_mono; [apply attach_region_offered; [done| |done|]|].
  - intros r c. unfold set_pool_region. by destruct c.
  - unfold keeps_paths, set_pool in *. cbn [ma_state]. by destruct (ma_state s).
  - intros r s' [-> Hs']. by apply IH.
Qed.

Lemma offered_attachable cfg uri :
  ap_canonical_paths paths <> [] -> memory_enough W ->
  cc_layout_version cfg = TP_LAYOUT_VERSION -> tp_is_power_of_two (cc_header_nslots cfg) = true ->
  cc_header_uri cfg = Some uri -> offered uri (header_expected cfg) ->
  Forall (pool_offered cfg) (cc_pools cfg) -> attachable W paths cfg.
Proof.
  intros Hne Hm Hl Hn Euri Ho Hall. split; [done..|]. intros c p ev _ Hpaths.
  unfold attach_regions, attach_header. wps. rewrite Euri.
  eapply wp_mono; [apply attach_region_offered; [done|by intros ? []|done|done]|].
  intros r s [-> Hs]. cbv beta iota. wps. unfold tell_progress_poller. wps.
  apply attach_pools_offered; [done|done|]. unfold keeps_paths in *. cbn [ma_state].
  by destruct (ma_state s).
Qed.
End Offered.

(** ** Following an announcement *)

Section Followed.
Context `{Sbe} (W : world) (HK : kernel_ok (w_kernel W)) (settings : client_settings).
Context (a : tp_shm_pool_announce_t) (pools : list pool_config).

(** An announcement that arrives whole and can be followed. *)
Record announces : Prop := {
  ax_domain : an_announce_clock_domain a = TP_CLOCK_DOMAIN_MONOTONIC;
  ax_layout : an_layout_version a = TP_LAYOUT_VERSION;
  ax_nslots : tp_is_power_of_two (an_header_nslots a) = true;
  ax_ok : pool_announce_ok a;
  ax_count : Z.of_nat (length (default [] (an_pools a))) < 65535;
  ax_followable : followable W (cs_allowed_paths settings) (pool_announce_view a) pools;
}.

(** A consumer of the stream that has not seen a later epoch, joined before the
    announcement was made, and gets it while it is fresh. *)
Record waiting (c : tp_consumer_t) : Prop := {
  wt_settings : co_settings c = settings;
  wt_use_shm : co_use_shm c = true;
  wt_stream : cx_stream_id (co_context c) = an_stream_id a;
  wt_layout : he_expected_layout_version (cx_hello (co_context c)) ∈ [0; TP_LAYOUT_VERSION];
  wt_join : 0 < co_announce_join_time_ns c <= an_announce_timestamp_ns a;
  wt_last : co_last_announce_epoch c <= an_epoch a;
  wt_mapped : co_shm_mapped c = true -> co_mapped_epoch c <= an_epoch a;
  wt_fresh : forall t, u64 (w_clock_ns W t) - an_announce_timestamp_ns a <= freshness_ns c;
}.

Context (Hann : announces).

Lemma announcement_acceptable c t :
  waiting c -> announce_acceptable c (u64 (w_clock_ns W t)) (pool_announce_view a) = true.
Proof.
  intros [Hset _ _ Hlay Hjoin _ _ Hfresh]. specialize (Hfresh t). unfold announce_acceptable.
  destruct Hann as [Ed El _ [_ Hl _ _ _ _] _ _].
  cbn [pool_announce_view pv_announce_timestamp_ns pv_announce_clock_domain pv_layout_version].
  rewrite Ed, El. pose proof (u64_range (w_clock_ns W t)). decompose_Forall_hyps.
  set (now_ns := an_announce_timestamp_ns a) in *.
  assert (Hold : (now_ns <? u64 (w_clock_ns W t)) && (freshness_ns c <? u64 (u64 (w_clock_ns W t) - now_ns)) = false).
  { destruct (Z.ltb_spec now_ns (u64 (w_clock_ns W t))); [|done]. cbn [andb].
    rewrite u64_small by ulia. apply Z.ltb_ge. done. }
  rewrite Hold. destruct (Z.ltb_spec now_ns (co_announce_join_time_ns c)); [lia|].
  rewrite !elem_of_cons, elem_of_nil in Hlay.
  destruct Hlay as [-> |[-> |[]]]; reflexivity.
Qed.

Abbreviation config := (announce_config (pool_announce_view a) pools).

Lemma announcement_followed F maps0 fds0 c p ev n :
  waiting c -> settled W maps0 fds0 c p ->
  wp F (announce_epoch W n (pool_announce_view a))
    (fun _ s => live W config (ma_state s) /\ co_last_announce_epoch (ma_state s) = an_epoch a)
    {| ma_state := c; ma_process := p; ma_events := ev |}.
Proof.
  intros Hwait Hs. pose proof (ax_followable Hann) as Hfo.
  assert (Hsane : announce_sane (pool_announce_view a)) by (intros _; apply (ax_nslots Hann)).
  assert (Hgo : forall c1 p1, settled W maps0 fds0 c1 p1 -> co_settings c1 = settings ->
    co_last_announce_epoch c1 <= an_epoch a ->
    wp F (let+ c2 := get in
          if negb (co_last_announce_epoch c2 =? 0) &&
             (pv_epoch (pool_announce_view a) <? co_last_announce_epoch c2) then give tt
          else let+ r := tp_consumer_apply_announce W (pool_announce_view a) in
               match r with
               | Ok _ => modify (fun c3 =>
                   c3 <| co_last_announce_rx_ns := n |>
                      <| co_last_announce_timestamp_ns := pv_announce_timestamp_ns (pool_announce_view a) |>
                      <| co_last_announce_clock_domain := pv_announce_clock_domain (pool_announce_view a) |>
                      <| co_last_announce_epoch := pv_epoch (pool_announce_view a) |>)
               | Err _ => give tt
               end)
      (fun _ s => live W config (ma_state s) /\ co_last_announce_epoch (ma_state s) = an_epoch a)
      {| ma_state := c1; ma_process := p1; ma_events := ev |}).
  { intros c1 p1 Hs1 Hset Hlast. wps. cbn [pool_announce_view pv_epoch].
    destruct (Z.ltb_spec (an_epoch a) (co_last_announce_epoch c1)); [lia|]. rewrite andb_false_r. wps.
    eapply apply_announce_spec; [done|exact Hs1|exact Hsane|].
    intros r c' p' ev' _ _ _ Hf. rewrite <- Hset in Hfo. destruct (Hf _ Hfo) as [-> Hl]. wps.
    split; [|by destruct c'].
    eapply live_elsewhere, Hl. by destruct c'. }
  unfold announce_epoch. wps. cbn [pool_announce_view pv_epoch].
  destruct Hwait as [Hset _ _ _ _ Hlast Hmap _].
  assert (Holder : co_shm_mapped c && (an_epoch a <? co_mapped_epoch c) = false).
  { destruct (co_shm_mapped c); [|done]. specialize (Hmap eq_refl). cbn [andb]. apply Z.ltb_ge. lia. }
  rewrite Holder. cbn [pool_announce_view pv_epoch] in Hgo.
  destruct (co_shm_mapped c && negb _); wps.
  - eapply settled_unmap_spec; [done|exact Hs|]. intros p' Hs'. apply Hgo; [done|by destruct c|by destruct c].
  - by apply Hgo.
Qed.

(** The bytes of such an announcement make a waiting consumer map its regions. *)
Lemma announcement_handled maps0 fds0 s b fragment :
  settled W maps0 fds0 (ma_state s) (ma_process s) ->
  encode (driver_announce_items a) b = Some fragment -> waiting (ma_state s) ->
  exists s', tp_consumer_control_handler W fragment s = Some (tt, s') /\
    live W config (ma_state s') /\ co_last_announce_epoch (ma_state s') = an_epoch a.
Proof.
  intros Hs He Hwait. destruct s as [c p ev]. cbn [ma_state ma_process] in *.
  destruct (pool_announce_read a b fragment (ax_ok Hann) (ax_count Hann) He) as (ws & l & _ & Hd).
  assert (Hw : wp False (tp_consumer_control_handler W fragment)
    (fun _ s => live W config (ma_state s) /\ co_last_announce_epoch (ma_state s) = an_epoch a)
    {| ma_state := c; ma_process := p; ma_events := ev |}).
  { unfold tp_consumer_control_handler. wps. rewrite (ab_alloc _ _ _ (fo_attachable _ _ _ _ (ax_followable Hann))), Hd.
    unfold on_announce. wps. rewrite (wt_use_shm _ Hwait). cbn [negb].
    pose proof (wt_join _ Hwait). destruct (Z.eqb_spec (co_announce_join_time_ns c) 0); [lia|]. wps.
    cbn [pool_announce_view pv_stream_id pv_announce_clock_domain].
    rewrite (wt_stream _ Hwait), Z.eqb_refl, (ax_domain Hann).
    cbn [negb]. wps. change (TP_CLOCK_DOMAIN_MONOTONIC =? TP_CLOCK_DOMAIN_REALTIME_SYNCED) with false.
    cbv iota. wps. cbn [andb].
    rewrite announcement_acceptable by done.
    eapply announcement_followed; [done|]. do 2 (eapply settled_quiet; [apply quiet_later|]). exact Hs. }
  unfold wp in Hw. destruct (tp_consumer_control_handler W fragment _) as [[[] s']|]; [|done].
  by exists s'.
Qed.
End Followed.

(** ** The driver announces its regions *)

Section Announced.
Context `{Sbe} (W : world) (HK : kernel_ok (w_kernel W)).
Context (settings : client_settings) (context : tp_consumer_context_t)
        (control_publication qos_publication : bool) (before : process).
Context (base ns : chars) (pw : ptr chars) (huge : bool) (now_ns : Z).
Context (stream : tp_driver_stream_state_t) (profile : tp_driver_profile_t) (a : tp_shm_pool_announce_t).

Abbreviation paths := (cs_allowed_paths settings).

(** The file behind a URI can be mapped and holds the superblock the driver wrote. *)
Definition driver_file (uri : chars) (pool_id type stride : Z) : Prop :=
  forall p, exists rg p', tp_shm_map (w_kernel W) (Some uri) false (Some paths) p = (Ok rg, p') /\
    forall t, exists pid created, is_u64 pid /\ is_u64 created /\
      w_memory W t (rg_addr rg) =
        Superblock.region_superblock (ds_stream_id stream) (ds_epoch stream) pool_id type
          (pf_header_nslots profile) stride pid created.

Definition pool_file (q : tp_shm_pool_announce_pool_t) : Prop :=
  exists uri, ap_region_uri q = Some uri /\ aligned W uri (ap_stride_bytes q) /\
    driver_file uri (ap_pool_id q) tensor_pool_regionType_PAYLOAD_POOL (ap_stride_bytes q).

Record stream_served : Prop := {
  ss_profile : ds_profile stream = Some profile;
  ss_announce : driver_announce base ns pw now_ns stream huge = Ok a;
  ss_base : "000"%char ∉ base;
  ss_words : Forall is_u32 [ds_stream_id stream; ds_producer_client_id stream];
  ss_longs : Forall is_u64 [ds_epoch stream; now_ns];
  ss_nslots : is_u32 (pf_header_nslots profile) /\ tp_is_power_of_two (pf_header_nslots profile) = true;
  ss_pools : pf_pools profile <> [] /\
             Forall (fun p => is_u16 (fst p) /\ 0 < snd p < TP_NULL_U32) (pf_pools profile);
}.

(** The configuration a consumer must arrive at. *)
Definition driver_config : region_config :=
  {| cc_stream_id := ds_stream_id stream; cc_epoch := ds_epoch stream;
     cc_layout_version := TP_LAYOUT_VERSION; cc_header_nslots := pf_header_nslots profile;
     cc_header_uri := an_header_region_uri a;
     cc_pools := (fun q => {| pc_pool_id := ap_pool_id q; pc_nslots := pf_header_nslots profile;
                              pc_stride_bytes := ap_stride_bytes q; pc_uri := ap_region_uri q |}) <$>
                 default [] (an_pools a) |}.

Lemma region_pools_seen nslots pools : forall qs,
  ("000"%char ∉ base) -> 0 <= ds_stream_id stream -> 0 <= ds_epoch stream ->
  Forall (fun p => is_u16 (fst p) /\ 0 < snd p < TP_NULL_U32) pools ->
  region_pools base ns pw stream nslots huge pools = Ok qs ->
  length qs = length pools /\
  Forall (fun q => is_u16 (ap_pool_id q) /\ 0 < ap_stride_bytes q < TP_NULL_U32 /\
                   ap_pool_nslots q = nslots /\
                   exists uri, ap_region_uri q = Some uri /\ ("000"%char ∉ uri) /\
                     (0 < length uri < 4096)%nat) qs.
Proof.
  induction pools as [|[id stride] pools IH]; intros qs Hb Hs He Hp Hq; cbn [region_pools] in Hq.
  { injection Hq as <-. by split. }
  apply Forall_cons_1 in Hp as [[Hid Hst] Hp].
  destruct (region_uri _ _ _ _ _ _ _) as [uri|] eqn:Eu; [|done]. cbn [res_bind] in Hq.
  destruct (region_pools _ _ _ _ _ _ pools) as [rest|] eqn:Er; [|done]. injection Hq as <-.
  destruct (IH rest Hb Hs He Hp eq_refl) as [Hlen Hall].
  destruct (region_uri_string _ _ _ _ _ _ _ _ Hb Hs He (proj1 Hid) Eu) as [Hno Hl].
  split; [cbn; by rewrite Hlen|]. constructor; [|done]. split_and!; try done; [apply Hst..|].
  by exists uri.
Qed.

(** The string a text of the announcement becomes again. *)
Lemma view_of_uri uri :
  ("000"%char ∉ uri) -> (0 < length uri)%nat -> view_string (text_view uri) = Some uri.
Proof.
  intros Hno Hl. unfold view_string, text_view. cbn.
  destruct (Nat.eqb_spec (length uri) 0); [lia|]. by rewrite cstring_id.
Qed.

Lemma pool_configs_seen nslots qs :
  Forall (fun q => ap_pool_nslots q = nslots /\
    exists uri, ap_region_uri q = Some uri /\ ("000"%char ∉ uri) /\ (0 < length uri)%nat) qs ->
  pool_configs nslots (pool_view <$> qs) =
    Ok ((fun q => {| pc_pool_id := ap_pool_id q; pc_nslots := nslots;
                     pc_stride_bytes := ap_stride_bytes q; pc_uri := ap_region_uri q |}) <$> qs).
Proof.
  induction 1 as [|q qs (En & uri & Euri & Hno & Hl) _ IH]; [done|].
  rewrite !fmap_cons. cbn [pool_configs pool_view pd_region_uri pd_nslots pd_pool_id pd_stride_bytes].
  rewrite Euri. cbn [text_of default from_option id]. rewrite view_of_uri by done.
  rewrite En, Z.eqb_refl. rewrite IH. done.
Qed.

Context (Hserved : stream_served).

Lemma announce_fields :
  an_stream_id a = ds_stream_id stream /\ an_epoch a = ds_epoch stream /\
  an_producer_id a = ds_producer_client_id stream /\
  an_announce_timestamp_ns a = now_ns /\ an_announce_clock_domain a = TP_CLOCK_DOMAIN_MONOTONIC /\
  an_layout_version a = TP_LAYOUT_VERSION /\ an_header_nslots a = pf_header_nslots profile /\
  an_header_slot_bytes a = TP_HEADER_SLOT_BYTES.
Proof.
  destruct Hserved as [Hp Ha _ _ _ _ _]. unfold driver_announce in Ha. rewrite Hp in Ha.
  destruct (_ <? _); [|done]. destruct (region_pools _ _ _ _ _ _ _); [|done]. cbn [res_bind] in Ha.
  destruct (region_uri _ _ _ _ _ _ _); [|done]. by injection Ha as <-.
Qed.

Lemma announce_uris :
  (exists uri, an_header_region_uri a = Some uri /\ ("000"%char ∉ uri) /\ (0 < length uri < 4096)%nat) /\
  exists qs, an_pools a = Some qs /\ Z.of_nat (length qs) < 65535 /\ qs <> [] /\
    Forall (fun q => is_u16 (ap_pool_id q) /\ 0 < ap_stride_bytes q < TP_NULL_U32 /\
                     ap_pool_nslots q = pf_header_nslots profile /\
                     exists uri, ap_region_uri q = Some uri /\ ("000"%char ∉ uri) /\
                       (0 < length uri < 4096)%nat) qs.
Proof.
  destruct Hserved as [Hp Ha Hb Hw Hl _ [Hne Hps]]. unfold driver_announce in Ha. rewrite Hp in Ha.
  decompose_Forall_hyps.
  assert (Hs : 0 <= ds_stream_id stream) by (match goal with H : is_u32 (ds_stream_id _) |- _ => apply H end).
  assert (He : 0 <= ds_epoch stream) by (match goal with H : is_u64 (ds_epoch _) |- _ => apply H end).
  destruct (Z.ltb_spec (Z.of_nat (length (pf_pools profile))) 65535); [|done].
  destruct (region_pools _ _ _ _ _ _ _) as [qs|] eqn:Eq; [|done]. cbn [res_bind] in Ha.
  destruct (region_uri _ _ _ _ _ _ _) as [uri|] eqn:Eu; [|done]. injection Ha as <-.
  destruct (region_pools_seen _ _ _ Hb Hs He Hps Eq) as [Hlen Hall]. split.
  - exists uri. split; [done|]. by apply (region_uri_string _ _ _ _ _ _ _ _ Hb Hs He (Z.le_refl 0) Eu).
  - exists qs. split; [done|]. split; [lia|]. split; [|done]. intros ->. by destruct (pf_pools profile).
Qed.

Lemma announce_ok_served : pool_announce_ok a.
Proof.
  destruct announce_fields as (E1 & E2 & E3 & E4 & E5 & E6 & E7 & E8).
  destruct announce_uris as [(uri & Eu & _ & Hu) (qs & Eq & _ & _ & Hall)].
  destruct Hserved as [_ _ _ Hw Hl [Hn _] _]. decompose_Forall_hyps.
  split; rewrite ?E1, ?E2, ?E3, ?E4, ?E5, ?E6, ?E7, ?E8.
  - constructor; [done|]. constructor; [done|]. constructor; [done|]. by constructor.
  - constructor; [done|]. by constructor.
  - done.
  - left.
  - rewrite Eu. unfold text_small. cbn. lia.
  - rewrite Eq. cbn [default from_option id]. eapply Forall_impl; [exact Hall|].
    intros q (Hid & Hst & En & u & Euq & _ & Hlu). unfold announced_pool_ok.
    rewrite En, Euq. unfold text_small. cbn. split; [done|]. split; [done|].
    split; [unfold is_u32, TP_NULL_U32 in *; lia|lia].
Qed.

Lemma announce_config_served :
  pool_configs (pf_header_nslots profile) (pv_pools (pool_announce_view a)) = Ok (cc_pools driver_config) /\
  announce_config (pool_announce_view a) (cc_pools driver_config) = driver_config.
Proof.
  destruct announce_fields as (E1 & E2 & E3 & E4 & E5 & E6 & E7 & E8).
  destruct announce_uris as [(uri & Eu & Hno & Hu) (qs & Eq & _ & _ & Hall)]. split.
  - unfold pool_announce_view, driver_config. cbn [pv_pools cc_pools].
    rewrite Eq. cbn [default from_option id]. apply pool_configs_seen. eapply Forall_impl; [exact Hall|].
    intros q (_ & _ & En & u & Euq & Hnu & Hlu). split; [done|]. exists u. split; [done|]. split; [done|lia].
  - unfold announce_config, driver_config, pool_announce_view.
    cbn [pv_stream_id pv_epoch pv_layout_version pv_header_nslots pv_header_region_uri cc_pools].
    rewrite E1, E2, E6, E7, Eu. cbn [text_of default from_option id].
    by rewrite view_of_uri by (done || lia).
Qed.

(** What the driver wrote is what the consumer expects. *)
Lemma driver_file_offered uri pool_id type stride e :
  is_u16 pool_id -> type ∈ regionType_values -> is_u32 stride ->
  (type = tensor_pool_regionType_PAYLOAD_POOL -> stride <> 0) ->
  Superblock.expectation_met e (ds_stream_id stream) (ds_epoch stream) pool_id type (pf_header_nslots profile)
    (if type =? tensor_pool_regionType_HEADER_RING then TP_HEADER_SLOT_BYTES else TP_NULL_U32) stride ->
  driver_file uri pool_id type stride -> offered W paths uri e.
Proof.
  intros Hid Ht Hst Hne He Hf p. destruct (Hf p) as (rg & p' & E & Hmem). exists rg, p'.
  split; [done|]. intros t. destruct (Hmem t) as (pid & created & Hpid & Hc & ->).
  destruct Hserved as [_ _ _ Hw Hl [Hn _] _]. decompose_Forall_hyps.
  by apply Superblock.superblock_accepted.
Qed.

Definition header_file : Prop :=
  exists uri, an_header_region_uri a = Some uri /\
    driver_file uri 0 tensor_pool_regionType_HEADER_RING 0.

Lemma driver_followable :
  memory_enough W -> header_file -> Forall pool_file (default [] (an_pools a)) ->
  followable W paths (pool_announce_view a) (cc_pools driver_config).
Proof.
  intros Hm (uri & Eu & Hh) Hps.
  destruct announce_fields as (E1 & E2 & E3 & E4 & E5 & E6 & E7 & E8).
  destruct announce_uris as [(uri' & Eu' & Hno & Hu) (qs & Eq & _ & Hne & Hall)].
  rewrite Eu in Eu'. injection Eu' as <-.
  assert (Hpaths : ap_canonical_paths paths <> []).
  { intros En. destruct (Hh {| os_tick := 0; os_fds := []; os_maps := []; os_log := [] |}) as (rg & p' & E & _).
    unfold tp_shm_map in E. by rewrite En in E. }
  destruct announce_config_served as [Hpc Hcfg].
  split; rewrite ?Hcfg; unfold pool_announce_view;
    cbn [pv_header_region_uri pv_header_slot_bytes pv_pools pv_header_nslots].
  - exists uri. rewrite Eu. cbn. by rewrite view_of_uri by (done || lia).
  - done.
  - rewrite E7, Eq. split; [by destruct qs|]. rewrite <- Hpc. unfold pool_announce_view. cbn. by rewrite Eq.
  - apply (offered_attachable W HK paths _ uri); try done; [apply Hserved| |].
    + eapply driver_file_offered; [..|exact Hh]; [done|left|done|done|].
      unfold Superblock.expectation_met, header_expected, driver_config; cbn. split_and!; auto.
    + unfold driver_config. cbn [cc_pools]. rewrite Eq in *. cbn [default from_option id] in *.
      rewrite Forall_fmap. rewrite Forall_forall in *. intros q Hq.
      destruct (Hps q Hq) as (u & Euq & Hal & Hf). destruct (Hall q Hq) as (Hid & Hst & En & _).
      exists u. cbn. split; [done|]. split; [done|]. split; [done|].
      eapply driver_file_offered; [..|exact Hf]; [done|right; left|unfold is_u32, TP_NULL_U32 in *; lia|lia|].
      unfold Superblock.expectation_met, pool_expected; cbn. split_and!; auto.
Qed.

(** C7: The bytes of the driver's announcement make a consumer of the stream map the
    driver's regions: once the files the driver created can be mapped, a consumer
    that has seen no later epoch ends up, whatever it had mapped, with the header
    ring and the pools of the stream's profile, under the announced epoch. *)
Theorem driver_announcement_mapped s b fragment :
  reached W settings context control_publication qos_publication before s ->
  encode (driver_announce_items a) b = Some fragment ->
  memory_enough W -> header_file -> Forall pool_file (default [] (an_pools a)) ->
  waiting W settings a (ma_state s) ->
  exists s', tp_consumer_control_handler W fragment s = Some (tt, s') /\
    live W driver_config (ma_state s') /\
    co_last_announce_epoch (ma_state s') = ds_epoch stream.
Proof.
  intros Hr He Hm Hh Hps Hwait. apply (reached_settled W HK) in Hr as Hs.
  destruct announce_config_served as [_ Hcfg]. destruct announce_fields as (_ & E2 & _ & _ & E5 & E6 & E7 & _).
  destruct announce_uris as [_ (qs & Eq & Hlen & _)].
  rewrite <- Hcfg, <- E2. apply (announcement_handled W HK settings a (cc_pools driver_config)) with (os_maps before) (os_fds before) b;
    [|done..]. split; [done|done|rewrite E7; apply Hserved|apply announce_ok_served|by rewrite Eq|].
  by apply driver_followable.
Qed.
End Announced.


(** ** Descriptors *)

Section Descriptors.
Context `{Sbe} (W : world).

(** The null values of the schema are those of the program. *)
Definition frameDescriptor_timestampNs_null : Z := 2 ^ 64 - 1.
Definition frameDescriptor_metaVersion_null : Z := 2 ^ 32 - 1.

(** What a producer of the stream and epoch publishes. *)
Definition tp_producer_publish_descriptor_to (stream_id epoch : Z) (d : tp_frame_descriptor_t) : list item :=
  let encoded_timestamp := if fd_timestamp_ns d =? TP_NULL_U64 then frameDescriptor_timestampNs_null
                           else fd_timestamp_ns d in
  let encoded_meta_version := if fd_meta_version d =? TP_NULL_U32 then frameDescriptor_metaVersion_null
                              else fd_meta_version d in
  [control_header frameDescriptor_block frameDescriptor_template;
   Block frameDescriptor_block
     [Write 0 4 stream_id; Write 4 8 epoch; Write 12 8 (fd_seq d); Write 20 8 encoded_timestamp;
      Write 28 4 encoded_meta_version; Write 32 8 (fd_trace_id d)]].

Record descriptor_ok (d : tp_frame_descriptor_t) : Prop := {
  do_seq : 0 <= fd_seq d < 2 ^ 64 - 1;
  do_longs : is_u64 (fd_timestamp_ns d) /\ is_u64 (fd_trace_id d);
  do_meta : is_u32 (fd_meta_version d);
}.

Lemma descriptor_handled stream_id epoch d b fragment s :
  is_u32 stream_id -> is_u64 epoch -> descriptor_ok d ->
  encode (tp_producer_publish_descriptor_to stream_id epoch d) b = Some fragment ->
  co_shm_mapped (ma_state s) = true -> co_mapped_epoch (ma_state s) = epoch ->
  tp_consumer_descriptor_handler W fragment s =
    Some (tt, {| ma_state := count_descriptor (fd_seq d) (ma_state s); ma_process := ma_process s;
                 ma_events := ma_events s ++ [FrameDescribed d] |}).
Proof.
  intros Hst Hep [Hseq [Hts Htr] Hmv] He Hm Hme.
  assert (Hseq' : is_u64 (fd_seq d)) by (unfold is_u64; lia).
  unfold tp_producer_publish_descriptor_to in He.
  assert (Et : (if fd_timestamp_ns d =? TP_NULL_U64 then frameDescriptor_timestampNs_null
                else fd_timestamp_ns d) = fd_timestamp_ns d)
    by (by destruct (Z.eqb_spec (fd_timestamp_ns d) TP_NULL_U64)).
  assert (Ev : (if fd_meta_version d =? TP_NULL_U32 then frameDescriptor_metaVersion_null
                else fd_meta_version d) = fd_meta_version d)
    by (by destruct (Z.eqb_spec (fd_meta_version d) TP_NULL_U32)).
  cbv zeta in He. rewrite Et, Ev in He.
  apply message_arrived in He as Ha; [|done..|reflexivity|write_fits_tac|constructor].
  pose proof (handler_arrived _ _ _ _ _ Ha ltac:(done)) as (E1 & E2 & E3).
  unfold tp_consumer_descriptor_handler. rewrite E1, E2, E3. change (negb true || negb (_ =? _)) with false.
  cbv iota. pose proof (ar_length _ _ _ _ _ Ha) as Hlen.
  destruct (Z.ltb_spec (blen fragment) (messageHeader_encoded_length + frameDescriptor_block)) as [Hl|_];
    [unfold messageHeader_encoded_length in Hl; lia|].
  pose proof (ar_block _ _ _ _ _ Ha) as Hb.
  block_field Hb 4 8 epoch. block_field Hb 12 8 (fd_seq d). block_field Hb 20 8 (fd_timestamp_ns d).
  block_field Hb 28 4 (fd_meta_version d). block_field Hb 32 8 (fd_trace_id d).
  unfold next, get, give. rewrite Hm, Hme, Z.eqb_refl. by destruct d.
Qed.

(** The sequence numbers that are given up for lost: those that a larger one
    overtakes, beyond what has been seen before. *)
Fixpoint lost (last : Z) (seqs : list Z) : list Z :=
  match seqs with
  | [] => []
  | seq :: seqs' => seqZ (last + 1) (seq - last - 1) ++ lost (Z.max last seq) seqs'
  end.

Lemma lost_above seqs : forall last n, n ∈ lost last seqs -> last < n.
Proof.
  induction seqs as [|seq seqs IH]; intros last n; cbn [lost]; [by rewrite elem_of_nil|].
  rewrite elem_of_app, elem_of_seqZ. intros [Hn|Hn%IH]; lia.
Qed.

Lemma lost_NoDup seqs : forall last, NoDup (lost last seqs).
Proof.
  induction seqs as [|seq seqs IH]; intros last; cbn [lost]; [constructor|].
  apply NoDup_app. split; [apply NoDup_seqZ|]. split; [|apply IH].
  intros n Hn%elem_of_seqZ Hl%lost_above. lia.
Qed.

(** A number is lost when the first received that is not smaller is larger. *)
Lemma lost_iff seqs : forall last n,
  n ∈ lost last seqs <->
  last < n /\ exists before seq after, seqs = before ++ seq :: after /\ n < seq /\ Forall (fun m => m < n) before.
Proof.
  induction seqs as [|seq seqs IH]; intros last n; cbn [lost].
  { rewrite elem_of_nil. split; [done|]. intros (_ & [] & ? & ? & ? & _); done. }
  rewrite elem_of_app, elem_of_seqZ, IH. split.
  - intros [Hn|[Hn (before & m & after & -> & Hm & Hb)]].
    + split; [lia|]. exists [], seq, seqs. split; [done|]. split; [lia|constructor].
    + split; [lia|]. exists (seq :: before), m, after. split; [done|]. split; [done|].
      constructor; [lia|done].
  - intros [Hn ([|m' before] & m & after & E & Hm & Hb)].
    + injection E as <- <-. left. lia.
    + injection E as <- ->. apply Forall_cons_1 in Hb as [Hs Hb]. right. split; [lia|].
      by exists before, m, after.
Qed.
(** One after another, without wrapping: the last is the largest seen so far, and
    the gap grows by what is lost. *)
Lemma count_step seq c :
  0 < co_last_seq_seen c < 2 ^ 64 - 1 -> 0 <= seq < 2 ^ 64 - 1 ->
  co_last_seq_seen (count_descriptor seq c) = Z.max (co_last_seq_seen c) seq /\
  u64 (co_drops_gap (count_descriptor seq c)) =
    u64 (co_drops_gap c + Z.of_nat (length (seqZ (co_last_seq_seen c + 1) (seq - co_last_seq_seen c - 1)))) /\
  (is_u64 (co_drops_gap c) -> is_u64 (co_drops_gap (count_descriptor seq c))) /\
  co_shm_mapped (count_descriptor seq c) = co_shm_mapped c /\
  co_mapped_epoch (count_descriptor seq c) = co_mapped_epoch c.
Proof.
  intros Hl Hs. set (last := co_last_seq_seen c) in *.
  assert (E1 : co_last_seq_seen (count_descriptor seq c) = if last <? seq then seq else last)
    by by destruct c.
  assert (E2 : co_drops_gap (count_descriptor seq c) =
    if negb (last =? 0) && (u64 (last + 1) <? seq)
    then u64 (co_drops_gap c + u64 (seq - last - 1)) else co_drops_gap c) by by destruct c.
  rewrite E1, E2, length_seqZ, (u64_small (last + 1)) by ulia.
  destruct (Z.eqb_spec last 0); [lia|]. cbn [negb andb].
  split; [destruct (Z.ltb_spec last seq); lia|]. destruct (Z.ltb_spec (last + 1) seq).
  - rewrite (u64_small (seq - last - 1)) by ulia.
    split; [rewrite u64_idem; do 2 f_equal; lia|]. split; [intros _; apply u64_range|by destruct c].
  - split; [f_equal; lia|]. split; [done|by destruct c].
Qed.

Definition counted (ds : list tp_frame_descriptor_t) (c : tp_consumer_t) : tp_consumer_t :=
  foldl (fun c d => count_descriptor (fd_seq d) c) c ds.

Lemma counted_sums ds : forall c,
  Forall descriptor_ok ds -> 0 < co_last_seq_seen c < 2 ^ 64 - 1 -> is_u64 (co_drops_gap c) ->
  co_last_seq_seen (counted ds c) = foldl Z.max (co_last_seq_seen c) (fd_seq <$> ds) /\
  co_drops_gap (counted ds c) =
    u64 (co_drops_gap c + Z.of_nat (length (lost (co_last_seq_seen c) (fd_seq <$> ds)))).
Proof.
  induction ds as [|d ds IH]; intros c Hok Hl Hg; cbn [counted foldl fmap list_fmap lost].
  { split; [done|]. rewrite Z.add_0_r. by rewrite u64_small. }
  apply Forall_cons_1 in Hok as [Hd Hok]. pose proof (do_seq _ Hd) as Hseq.
  destruct (count_step (fd_seq d) c Hl Hseq) as (E1 & E2 & E3 & _).
  destruct (IH (count_descriptor (fd_seq d) c) Hok) as [F1 F2]; [rewrite E1; lia|by apply E3|].
  unfold counted in *. rewrite F1, F2, E1. split; [done|]. rewrite length_app, Nat2Z.inj_add, Z.add_assoc.
  rewrite <- (u64_small (co_drops_gap (count_descriptor (fd_seq d) c))) by (by apply E3).
  rewrite E2. by rewrite u64_add_l.
Qed.

(** Every frame that a producer describes to a consumer of its epoch is reported
    to the application, in order and with the values sent, and the gap counter grows
    by exactly the sequence numbers that were lost: those above the last seen for
    which the first descriptor to reach or pass them is already beyond them.  Late
    and repeated descriptors count nothing. *)
Theorem descriptors_counted stream_id epoch ds fragments s :
  is_u32 stream_id -> is_u64 epoch -> Forall descriptor_ok ds ->
  Forall2 (fun d fragment => exists b,
    encode (tp_producer_publish_descriptor_to stream_id epoch d) b = Some fragment) ds fragments ->
  co_shm_mapped (ma_state s) = true -> co_mapped_epoch (ma_state s) = epoch ->
  0 < co_last_seq_seen (ma_state s) < 2 ^ 64 - 1 -> is_u64 (co_drops_gap (ma_state s)) ->
  exists s' missing,
    for_each (tp_consumer_descriptor_handler W) fragments s = Some (tt, s') /\
    ma_process s' = ma_process s /\ ma_events s' = ma_events s ++ (FrameDescribed <$> ds) /\
    co_last_seq_seen (ma_state s') = foldl Z.max (co_last_seq_seen (ma_state s)) (fd_seq <$> ds) /\
    co_drops_gap (ma_state s') = u64 (co_drops_gap (ma_state s) + Z.of_nat (length missing)) /\
    NoDup missing /\
    forall n, n ∈ missing <->
      co_last_seq_seen (ma_state s) < n /\
      exists before seq after, fd_seq <$> ds = before ++ seq :: after /\ n < seq /\
        Forall (fun m => m < n) before.
Proof.
  intros Hst Hep Hok Hsent Hm Hme Hl Hg.
  destruct (counted_sums ds _ Hok Hl Hg) as [E1 E2].
  exists {| ma_state := counted ds (ma_state s); ma_process := ma_process s;
            ma_events := ma_events s ++ (FrameDescribed <$> ds) |},
    (lost (co_last_seq_seen (ma_state s)) (fd_seq <$> ds)).
  split; [|split_and!; try done; [apply lost_NoDup|apply lost_iff]].
  clear Hl Hg E1 E2. revert s Hok Hm Hme.
  induction Hsent as [|d fragment ds fragments [b He] _ IH]; intros s Hok Hm Hme; cbn [for_each].
  { rewrite app_nil_r. by destruct s. }
  apply Forall_cons_1 in Hok as [Hd Hok]. unfold next.
  rewrite (descriptor_handled _ _ _ _ _ _ Hst Hep Hd He Hm Hme).
  rewrite IH; [|done|by destruct s as [[] ? ?]..]. cbn [ma_state ma_process ma_events].
  rewrite fmap_cons. by rewrite <- app_assoc.
Qed.
End Descriptors.

(** ** The driver takes the lease back *)

Section Backoff.

(** After a failure the next attempt is due a tenth of a second later, doubled for
    every failure before it and never more than 3.2 seconds. *)
Definition backoff_ns (failures : Z) : Z := 100000000 * 2 ^ Z.min 5 failures.

Lemma backoff_spec failures :
  is_u32 failures ->
  tp_consumer_next_backoff_ns failures = backoff_ns failures /\
  100000000 <= backoff_ns failures <= 3200000000.
Proof.
  intros [H0 _]. unfold tp_consumer_next_backoff_ns, backoff_ns.
  assert (Hmin : (if 5 <? failures then 5 else failures) = Z.min 5 failures)
    by (destruct (Z.ltb_spec 5 failures); lia).
  rewrite Hmin. cbv zeta. set (m := Z.min 5 failures). assert (Hm : 0 <= m <= 5) by lia.
  rewrite Z.shiftl_mul_pow2 by lia. change (100 * 1000 * 1000) with 100000000.
  assert (2 ^ 0 <= 2 ^ m <= 2 ^ 5) by (split; apply Z.pow_le_mono_r; lia).
  change (2 ^ 0) with 1 in *. change (2 ^ 5) with 32 in *.
  split; [apply u64_small; unfold is_u64; change (2 ^ 64) with 18446744073709551616|]; lia.
Qed.

(** When the next attempt is due. *)
Lemma schedule_due c now_ns :
  cx_use_driver (co_context c) = true -> 0 <= co_attach_failures c < 2 ^ 32 - 1 ->
  0 <= now_ns < 2 ^ 64 - 3200000000 ->
  let c' := tp_consumer_schedule_reattach now_ns c in
  co_attach_failures c' = co_attach_failures c + 1 /\
  forall t, tp_consumer_reattach_due c' t = true <-> now_ns + backoff_ns (co_attach_failures c) <= t.
Proof.
  intros Hd Hf Hn. cbv zeta.
  assert (E : tp_consumer_schedule_reattach now_ns c =
    c <| co_reattach_requested := true |> <| co_attach_failures := co_attach_failures c + 1 |>
      <| co_next_attach_ns := now_ns + backoff_ns (co_attach_failures c) |>).
  { unfold tp_consumer_schedule_reattach. rewrite Hd. cbn [negb]. cbv zeta.
    rewrite (u32_small (co_attach_failures c + 1)) by ulia.
    replace (co_attach_failures c + 1 - 1) with (co_attach_failures c) by lia.
    rewrite u32_small by ulia. destruct (backoff_spec (co_attach_failures c)) as [-> Hb]; [ulia|].
    rewrite u64_small; [done|]. ulia. }
  rewrite E. split; [by destruct c|]. intros t.
  assert (Ed : forall d, tp_consumer_reattach_due
    (c <| co_reattach_requested := true |> <| co_attach_failures := co_attach_failures c + 1 |>
       <| co_next_attach_ns := d |>) t = (d <=? t)) by (intros; by destruct c).
  rewrite Ed. apply Z.leb_le.
Qed.
End Backoff.

Section Revoked.
Context `{Sbe} (W : world) (HK : kernel_ok (w_kernel W)).
Context (settings : client_settings) (context : tp_consumer_context_t)
        (control_publication qos_publication : bool) (before : process).

(** A message of the driver's schema is none of the control plane's. *)
Lemma revoked_schema b r :
  tp_driver_decode_lease_revoked b = Decoded r -> messageHeader_schemaId b = driver_schema_id.
Proof.
  unfold tp_driver_decode_lease_revoked, driver_header_check.
  destruct (negb (_ <? _)); [|done]. destruct (Z.eqb_spec (messageHeader_schemaId b) driver_schema_id); done.
Qed.

Lemma not_control b template block :
  messageHeader_schemaId b = driver_schema_id ->
  control_header_check b template block = NotThisMessage \/
  control_header_check b template block = Malformed.
Proof.
  intros E. unfold control_header_check, recognised. rewrite E.
  destruct (negb (_ <? _)); [by left|by right].
Qed.

(** C32: The bytes of the driver's revocation make the consumer that holds the lease
    give every region back and tell the application why; the lease is forgotten, so
    that no keepalive renews it, and the next attempt to attach is due after a
    back-off of 100 ms, doubled for each failure before it, up to 3.2 s. *)
Theorem revocation_followed s base ns pw t l reason text b fragment :
  reached W settings context control_publication qos_publication before s ->
  is_u64 t -> is_u64 (dl_lease_id l) -> is_u32 (dl_stream_id l) -> is_u32 (dl_client_id l) ->
  dl_client_id l = cx_consumer_id (co_context (ma_state s)) ->
  dl_role l = tensor_pool_role_CONSUMER -> reason ∈ leaseRevokeReason_values -> text_fits text ->
  send_bytes base ns pw (ShmLeaseRevoked t l reason text) b = Some fragment ->
  cx_use_driver (co_context (ma_state s)) = true ->
  0 <= co_attach_failures (ma_state s) < 2 ^ 32 - 1 ->
  (forall u, 0 <= w_clock_ns W u < 2 ^ 64 - 3200000000) ->
  exists s' now_ns, tp_consumer_control_handler W fragment s = Some (tt, s') /\
    idle (ma_state s') /\ os_maps (ma_process s') ≡ₚ os_maps before /\
    os_fds (ma_process s') ≡ₚ os_fds before /\
    ma_events s' = ma_events s ++ [LeaseRevokedError
      {| lr_timestamp_ns := t; lr_lease_id := dl_lease_id l; lr_stream_id := dl_stream_id l;
         lr_client_id := dl_client_id l; lr_role := dl_role l; lr_reason := reason;
         lr_error_message := received_text text |}] /\
    co_driver (ma_state s') = clear_lease <$> co_driver (ma_state s) /\
    co_driver_attached (ma_state s') = false /\
    (exists u, now_ns = w_clock_ns W u) /\
    forall u, tp_consumer_reattach_due (ma_state s') u = true <->
      now_ns + backoff_ns (co_attach_failures (ma_state s)) <= u.
Proof.
  intros Hr Ht Hl Hst Hc Hid Hrole Hreason Htext Hsend Hdrv Hfail Hclock.
  apply (reached_settled W HK) in Hr as Hs. destruct s as [c p ev]. cbn [ma_state ma_process ma_events] in *.
  destruct (lease_revoked_read base ns pw b fragment t l reason text Ht Hl Hst Hc
    ltac:(rewrite Hrole; left; vm_compute; by repeat constructor) Hreason Htext Hsend) as (Hd & _ & _).
  pose proof (revoked_schema _ _ Hd) as Hschema.
  match type of Hd with _ = Decoded ?x => set (r := x) in * end.
  assert (Hw : wp False (tp_consumer_control_handler W fragment)
    (fun _ s => exists p' u,
       settled W (os_maps before) (os_fds before) (unmapped c) p' /\
       s = {| ma_state := tp_consumer_schedule_reattach (w_clock_ns W u)
                ((unmapped c) <| co_driver ::= fmap clear_lease |> <| co_driver_attached := false |>);
              ma_process := p'; ma_events := ev ++ [LeaseRevokedError r] |})
    {| ma_state := c; ma_process := p; ma_events := ev |}).
  { unfold tp_consumer_control_handler. wps.
    unfold tp_control_decode_shm_pool_announce, tp_control_decode_consumer_config.
    destruct (not_control fragment shmPoolAnnounce_template shmPoolAnnounce_block Hschema) as [-> | ->];
    (destruct (not_control fragment consumerConfig_template consumerConfig_block Hschema) as [-> | ->]);
    cbn [outcome_bind]; rewrite Hd; unfold on_lease_revoked; wps;
    change (lr_client_id r) with (dl_client_id l); change (lr_role r) with (dl_role l);
    rewrite Hid, Hrole, !Z.eqb_refl; cbn [andb]; wps;
    (apply (settled_unmap_spec W HK (os_maps before) (os_fds before)); [do 2 (eapply settled_quiet; [apply quiet_later|]); exact Hs|]);
    intros p' Hp'; wps; exists p', (os_tick (later p)); (split; [done|]);
    unfold u64; rewrite Z.mod_small by (specialize (Hclock (os_tick (later p))); lia); done. }
  unfold wp in Hw. destruct (tp_consumer_control_handler W fragment _) as [[[] s']|]; [|done].
  destruct Hw as (p' & u & [Hcons [H1 H2 _]] & ->).
  rewrite (filter_nothing _ (idle_nothing _ (unmapped_idle c))) in H1, H2. cbn [fmap list_fmap app] in H1, H2.
  eexists _, (w_clock_ns W u). split; [reflexivity|]. cbn [ma_state ma_process ma_events].
  destruct (schedule_due ((unmapped c) <| co_driver ::= fmap clear_lease |> <| co_driver_attached := false |>)
    (w_clock_ns W u)) as [_ Hdue]; [by destruct c|by destruct c|apply Hclock|].
  split; [|split; [done|split; [done|split; [done|split; [|split; [|split]]]]]].
  - eapply idle_elsewhere, (unmapped_idle c). unfold tp_consumer_schedule_reattach. case_match; by destruct c.
  - unfold tp_consumer_schedule_reattach. case_match; by destruct c.
  - unfold tp_consumer_schedule_reattach. case_match; by destruct c.
  - by exists u.
  - intros u'. rewrite (Hdue u'). by destruct c.
Qed.
End Revoked.

(** ** A concrete session *)

#[local] Existing Instance le_sbe.

Module Session.
Import Demo.

Definition demo_profile : tp_driver_profile_t :=
  {| pf_name := "camera"; pf_header_nslots := 8; pf_pools := [(1, 4096)] |}.
Definition demo_stream : tp_driver_stream_state_t :=
  {| ds_stream_id := 10; ds_profile := Some demo_profile; ds_epoch := 77; ds_epoch_created_ns := 500;
     ds_last_announce_ns := 0; ds_producer_lease_id := 5; ds_producer_client_id := 6;
     ds_require_hugepages := false |}.

Definition base_dir : chars := lit "/dev/shm".
Definition namespace : chars := lit "default".
Definition user : ptr chars := Some (lit "user").

Definition announce_at (now_ns : Z) : tp_shm_pool_announce_t :=
  {| an_stream_id := 10; an_producer_id := 6; an_epoch := 77; an_announce_timestamp_ns := now_ns;
     an_announce_clock_domain := 1; an_layout_version := 1; an_header_nslots := 8;
     an_header_slot_bytes := 256; an_header_region_uri := Some (demo_uri "header.ring");
     an_pools := Some [{| ap_pool_id := 1; ap_pool_nslots := 8; ap_stride_bytes := 4096;
                          ap_region_uri := Some (demo_uri "1.pool") |}] |}.

Definition announcement_at (now_ns : Z) : bytes :=
  default [] (encode (driver_announce_items (announce_at now_ns)) (repeat 0 512)).

(** A consumer that has heard an announcement made before it came. *)
Definition demo_joined : option (unit * machine) :=
  tp_consumer_poll_control_internal demo_world [announcement_at 900] (demo_new true).

Lemma announcement_safe now_ns :
  now_ns = 900 \/ now_ns = 2000 -> control_fragment_safe (announcement_at now_ns).
Proof.
  intros [-> | ->].
  all: split; [intros []; vm_compute; discriminate
    |intros [] a Ha; vm_compute in Ha; [injection Ha as <-; intros ?; reflexivity|discriminate Ha]
    |vm_compute; discriminate ..].
Qed.

Lemma joined_reached s :
  demo_joined = Some (tt, s) ->
  reached demo_world demo_settings (demo_context true) true true fresh s.
Proof.
  unfold demo_joined. intros E. eapply (reached_control _ _ _ _ _ _ (demo_new true)); [constructor| |exact E].
  constructor; [|constructor]. apply announcement_safe. by left.
Qed.

Lemma demo_clock t : w_clock_ns demo_world t = 1000 \/ w_clock_ns demo_world t = 3000.
Proof. cbn [demo_world w_clock_ns]. destruct (t <? 10)%nat; [by left|by right]. Qed.

(** The driver's files: the world of [Demo] holds what the driver writes. *)
Lemma demo_header_file :
  header_file demo_world demo_settings demo_stream demo_profile (announce_at 2000).
Proof.
  exists (demo_uri "header.ring"). split; [reflexivity|]. intros [t f m l].
  eexists _, _. split; [vm_compute; reflexivity|]. intros ?. exists 1234, 500.
  split; [unfold is_u64; lia|]. split; [unfold is_u64; lia|]. vm_compute. reflexivity.
Qed.

Lemma demo_pool_files :
  Forall (pool_file demo_world demo_settings demo_stream demo_profile)
    (default [] (an_pools (announce_at 2000))).
Proof.
  constructor; [|constructor]. exists (demo_uri "1.pool"). split; [reflexivity|]. split.
  - intros [t f m l]. eexists. vm_compute. reflexivity.
  - intros [t f m l]. eexists _, _. split; [vm_compute; reflexivity|]. intros ?. exists 1234, 500.
    split; [unfold is_u64; lia|]. split; [unfold is_u64; lia|]. vm_compute. reflexivity.
Qed.

Lemma demo_served :
  stream_served base_dir namespace user false 2000 demo_stream demo_profile (announce_at 2000).
Proof.
  split.
  - reflexivity.
  - vm_compute. reflexivity.
  - in_compute.
  - repeat constructor; discriminate.
  - repeat constructor; discriminate.
  - repeat constructor; discriminate.
  - split; [discriminate|]. constructor; [|constructor]. cbn. unfold is_u16, TP_NULL_U32. lia.
Qed.

Lemma driver_announcement_mapped_witness :
  exists s s', demo_joined = Some (tt, s) /\ co_shm_mapped (ma_state s) = false /\
    tp_consumer_control_handler demo_world (announcement_at 2000) s = Some (tt, s') /\
    live demo_world (driver_config demo_stream demo_profile (announce_at 2000)) (ma_state s').
Proof.
  destruct demo_joined as [[[] s]|] eqn:E; [|vm_compute in E; discriminate E].
  pose proof (joined_reached s E) as Hr.
  assert (Hwait : waiting demo_world demo_settings (announce_at 2000) (ma_state s)).
  { vm_compute in E. injection E as <-. split; try reflexivity; try discriminate.
    - left.
    - split; [reflexivity|discriminate].
    - intros t. destruct (demo_clock t) as [-> | ->]; vm_compute; discriminate. }
  destruct (driver_announcement_mapped demo_world demo_kernel_ok demo_settings (demo_context true)
    true true fresh base_dir namespace user false 2000 demo_stream demo_profile (announce_at 2000)
    demo_served s (repeat 0 512) (announcement_at 2000)) as (s' & Hs & Hl & _);
    [exact Hr|vm_compute; reflexivity|intros ?; reflexivity|exact demo_header_file|exact demo_pool_files|exact Hwait|].
  exists s, s'. split; [reflexivity|]. split; [|split; [exact Hs|exact Hl]].
  vm_compute in E. injection E as <-. reflexivity.
Defined.

(** Frames 5, 6, 9, 8: two numbers are given up when 9 comes. *)
Definition demo_frame (seq : Z) : tp_frame_descriptor_t :=
  {| fd_seq := seq; fd_timestamp_ns := 0; fd_meta_version := 1; fd_trace_id := 0 |}.
Definition descriptor_of (seq : Z) : bytes :=
  default [] (encode (tp_producer_publish_descriptor_to 10 77 (demo_frame seq)) (repeat 0 64)).

Definition described (seqs : list Z) (s : machine) : option (unit * machine) :=
  for_each (tp_consumer_descriptor_handler demo_world) (descriptor_of <$> seqs) s.
Definition later_fragments : list bytes := descriptor_of <$> [6; 9; 8].

Lemma demo_frame_ok seq : 0 <= seq < 2 ^ 64 - 1 -> descriptor_ok (demo_frame seq).
Proof. intros Hs. split; [done|split; split; (discriminate || reflexivity)|split; (discriminate || reflexivity)]. Qed.

Lemma descriptors_counted_witness :
  exists s s1 s2, demo_attached = Some (Ok tt, s) /\ described [5] s = Some (tt, s1) /\
    described [6; 9; 8] s1 = Some (tt, s2) /\
    co_drops_gap (ma_state s1) = 0 /\ co_drops_gap (ma_state s2) = 2 /\
    ma_events s2 = ma_events s1 ++ (FrameDescribed <$> [demo_frame 6; demo_frame 9; demo_frame 8]).
Proof.
  destruct demo_attached as [[r s]|] eqn:E; [|vm_compute in E; discriminate E].
  destruct (described [5] s) as [[[] s1]|] eqn:E1; [|vm_compute in E; injection E as <- <-; vm_compute in E1; discriminate E1].
  pose proof (descriptors_counted demo_world 10 77 [demo_frame 6; demo_frame 9; demo_frame 8]
    later_fragments s1) as Hc.
  destruct Hc as (s2 & missing & Hs2 & _ & Hev & _).
  - unfold is_u32. lia.
  - unfold is_u64. lia.
  - do 3 (constructor; [apply demo_frame_ok; lia|]). constructor.
  - do 3 (constructor; [exists (repeat 0 64); vm_compute; reflexivity|]). constructor.
  - vm_compute in E; injection E as <- <-; vm_compute in E1; injection E1 as <-. reflexivity.
  - vm_compute in E; injection E as <- <-; vm_compute in E1; injection E1 as <-. reflexivity.
  - vm_compute in E; injection E as <- <-; vm_compute in E1; injection E1 as <-. split; reflexivity.
  - vm_compute in E; injection E as <- <-; vm_compute in E1; injection E1 as <-. cbn [ma_state co_drops_gap]. unfold is_u64. lia.
  - exists s, s1, s2. vm_compute in E; injection E as <- <-; vm_compute in E1; injection E1 as <-.
    split; [reflexivity|]. split; [vm_compute; reflexivity|]. split; [exact Hs2|]. split; [reflexivity|].
    split; [|exact Hev]. vm_compute in Hs2. injection Hs2 as <-. reflexivity.
Defined.

(** Zero means that nothing has been seen, though producers number from zero. *)
Example gap_after_frame_zero :
  exists s s', demo_attached = Some (Ok tt, s) /\ described [0; 5] s = Some (tt, s') /\
    co_drops_gap (ma_state s') = 0 /\ co_last_seq_seen (ma_state s') = 5.
Proof.
  eexists _, _. split; [vm_compute; reflexivity|]. split; [vm_compute; reflexivity|]. split; reflexivity.
Qed.

Definition poll (fragments : list bytes) (s : machine) : option (unit * machine) :=
  tp_consumer_poll_control_internal demo_world fragments s.

(** Every periodic announcement of the epoch maps the regions anew: the counters
    start over and addresses handed out before are stale. *)
Example announcement_remaps :
  exists s s1 s2, demo_joined = Some (tt, s) /\ poll [announcement_at 2000] s = Some (tt, s1) /\
    co_shm_mapped (ma_state s1) = true /\
    exists s3, described [5; 9] s1 = Some (tt, s2) /\ co_drops_gap (ma_state s2) = 3 /\
      poll [announcement_at 2000] s2 = Some (tt, s3) /\
      co_shm_mapped (ma_state s3) = true /\ co_drops_gap (ma_state s3) = 0 /\
      co_last_seq_seen (ma_state s3) = 0 /\
      existsb (fun e => match e with EMunmap addr _ _ => addr =? 417792 | _ => false end)
        (os_log (ma_process s3)) = true.
Proof.
  eexists _, _, _. split; [vm_compute; reflexivity|]. split; [vm_compute; reflexivity|].
  split; [reflexivity|]. eexists. split; [vm_compute; reflexivity|]. split; [reflexivity|].
  split; [vm_compute; reflexivity|]. split; [reflexivity|]. split; [reflexivity|].
  split; [reflexivity|]. vm_compute. reflexivity.
Qed.

(** A lease of the consumer that the driver takes back. *)
Definition demo_lease : tp_driver_lease_t :=
  {| dl_lease_id := 9; dl_expiry_ns := 0; dl_issued_ns := 0; dl_stream_id := 10; dl_client_id := 21;
     dl_node_id := 0; dl_role := tensor_pool_role_CONSUMER |}.

Definition revocation : bytes :=
  default [] (send_bytes base_dir namespace user
    (ShmLeaseRevoked 2500 demo_lease tensor_pool_leaseRevokeReason_EXPIRED NULL) (repeat 0 64)).

Lemma revocation_followed_witness :
  exists s s1 s2 now_ns, demo_joined = Some (tt, s) /\ poll [announcement_at 2000] s = Some (tt, s1) /\
    co_shm_mapped (ma_state s1) = true /\
    tp_consumer_control_handler demo_world revocation s1 = Some (tt, s2) /\
    idle (ma_state s2) /\ os_fds (ma_process s2) ≡ₚ [] /\
    forall u, tp_consumer_reattach_due (ma_state s2) u = true <-> now_ns + 100000000 <= u.
Proof.
  destruct demo_joined as [[[] s]|] eqn:E; [|vm_compute in E; discriminate E].
  destruct (poll [announcement_at 2000] s) as [[[] s1]|] eqn:E1;
    [|vm_compute in E; injection E as <-; vm_compute in E1; discriminate E1].
  assert (Hr : reached demo_world demo_settings (demo_context true) true true fresh s1).
  { eapply reached_control; [apply joined_reached; exact E| |exact E1].
    constructor; [|constructor]. apply announcement_safe. right. reflexivity. }
  assert (Es1 : forall P : machine -> Prop,
    (exists s0, demo_joined = Some (tt, s0) /\ match poll [announcement_at 2000] s0 with
     | Some (_, s1) => P s1 | None => False end) -> P s1).
  { intros P (s0 & E0 & H0). rewrite E in E0. injection E0 as <-. rewrite E1 in H0. exact H0. }
  pose proof (revocation_followed demo_world demo_kernel_ok demo_settings (demo_context true)
    true true fresh s1 base_dir namespace user 2500 demo_lease tensor_pool_leaseRevokeReason_EXPIRED
    NULL (repeat 0 64) revocation Hr) as Hc.
  destruct Hc as (s2 & now_ns & Hs2 & Hid & _ & Hf & _ & _ & _ & _ & Hdue).
  1-4: vm_compute; split; [discriminate|reflexivity].
  - apply Es1. eexists. split; [vm_compute; reflexivity|vm_compute; reflexivity].
  - reflexivity.
  - vm_compute. repeat constructor.
  - exact I.
  - vm_compute. reflexivity.
  - apply Es1. eexists. split; [vm_compute; reflexivity|vm_compute; reflexivity].
  - apply Es1. eexists. split; [vm_compute; reflexivity|]. vm_compute. split; [discriminate|reflexivity].
  - intros u. destruct (demo_clock u) as [-> | ->]; lia.
  - exists s, s1, s2, now_ns. split; [reflexivity|]. split; [exact E1|].
    split; [apply Es1; eexists; split; [vm_compute; reflexivity|vm_compute; reflexivity]|].
    split; [exact Hs2|]. split; [exact Hid|]. split; [exact Hf|]. intros u. rewrite Hdue.
    replace (co_attach_failures (ma_state s1)) with 0; [reflexivity|].
    apply Es1. eexists. split; [vm_compute; reflexivity|vm_compute; reflexivity].
Defined.

(** Until it attaches again: the next announcement maps the regions without a
    lease, and forgets that the consumer was to attach. *)
Example revoked_then_announced :
  exists s s1 s2 s3, demo_joined = Some (tt, s) /\ poll [announcement_at 2000] s = Some (tt, s1) /\
    poll [revocation] s1 = Some (tt, s2) /\
    (co_shm_mapped (ma_state s2), co_reattach_requested (ma_state s2)) = (false, true) /\
    poll [announcement_at 2000] s2 = Some (tt, s3) /\
    (co_shm_mapped (ma_state s3), co_reattach_requested (ma_state s3)) = (true, false).
Proof.
  eexists _, _, _, _. do 3 (split; [vm_compute; reflexivity|]). split; [reflexivity|].
  split; [vm_compute; reflexivity|]. reflexivity.
Qed.
End Session.
