(* ===== verification/ProducerMapping.v ===== *)
(** * ProducerMapping: what a producer has mapped (tp_producer.c)

    A producer maps its regions for writing, from its own configuration or from
    the driver's attach response, remembers their URIs to announce them, stamps
    them to show that it is alive, reports its progress and its data source at the
    announce period, and gives everything up when its lease is revoked or when it
    is closed.  The operations are computations of Machine over the state of the
    producer; the regions are those of Regions, mapped for writing.  The memory
    the producer writes is seen by others only: its stamps are events. *)

From Stdlib Require Import ZArith Lia Bool Ascii String.
From stdpp Require Import strings gmap list.
From coqutil Require Import Datatypes.RecordSetters.
From S2P Require Import Prelude Sbe Seqlock Tracelink Uri Shm Message ConsumerManager.
From S2P Require Import Driver DriverMessages DriverClient Control Metadata Machine Regions.
Import Mapping Manager Qos TriangleBracketNotations.

#[local] Open Scope Z_scope.
#[local] Open Scope list_scope.

(** ** State *)

Record tp_producer_context_t := {
  px_stream_id : Z;
  px_producer_id : Z;
  px_use_driver : bool;
  px_driver_request : tp_driver_attach_request_t;
  px_drop_unconnected_descriptors : bool;
}.

(** Publications by their number; the driver client NULL before it is
    initialised; [pd_media] is what the consumer manager opens and sends. *)
Record tp_producer_t := {
  pd_settings : client_settings;
  pd_context : tp_producer_context_t;
  pd_descriptor_publication : ptr Z;
  pd_control_publication : ptr Z;
  pd_qos_publication : ptr Z;
  pd_metadata_publication : ptr Z;
  pd_control_assembler : bool;
  pd_qos_poller : bool;
  pd_header_region : attached_region;
  pd_header_uri : ptr chars;
  pd_pools : ptr (list attached_pool);
  pd_pool_uris : ptr (list (ptr chars));
  pd_pool_uri_count : nat;
  pd_pool_count : nat;
  pd_stream_id : Z;
  pd_producer_id : Z;
  pd_epoch : Z;
  pd_layout_version : Z;
  pd_header_nslots : Z;
  pd_next_seq : Z;
  pd_driver : ptr tp_driver_client_t;
  pd_driver_attached : bool;
  pd_consumer_manager : ptr tp_consumer_manager_t;
  pd_media : media;
  pd_last_consumer_sweep_ns : Z;
  pd_last_qos_ns : Z;
  pd_last_activity_ns : Z;
  pd_last_shm_announce_ns : Z;
  pd_last_announce_ns : Z;
  pd_last_meta_ns : Z;
  pd_cached_announce : tp_data_source_announce_t;
  pd_has_announce : bool;
  pd_cached_meta : tp_data_source_meta_t;
  pd_cached_attrs : ptr (list tp_meta_attribute_t);
  pd_cached_attr_count : nat;
  pd_has_meta : bool;
  pd_tracelink_entries : ptr (list tp_tracelink_entry_t);
  pd_next_attach_ns : Z;
  pd_attach_failures : Z;
  pd_reattach_requested : bool;
}.

(** What a producer lets others see: messages, stamps, callbacks. *)
Inductive producer_event :=
  | Offered (publication : Z) (message : bytes)
  | ActivityStamped (addr now_ns : Z)
  | ProducerLeaseRevoked (r : tp_driver_lease_revoked_t)
  | ProducerShutdown (s : tp_driver_shutdown_t)
  | ProducerDetach (lease_id stream_id client_id role : Z).

Abbreviation machine := (Machine.machine tp_producer_t producer_event).
Abbreviation C := (Machine.C tp_producer_t producer_event).

#[export] Program Instance producer_holder : Holder tp_producer_t := {|
  header_of := pd_header_region;
  put_header r c := c <| pd_header_region := r |>;
  pools_of := pd_pools;
  put_pools l c := c <| pd_pools := l |>;
  count_of := pd_pool_count;
  paths_of c := cs_allowed_paths (pd_settings c);
|}.
Solve Obligations with (by intros; repeat match goal with c : tp_producer_t |- _ => destruct c end).

(** ** Reconnecting to the driver *)

Definition tp_producer_next_backoff_ns (failures : Z) : Z :=
  let shift := if 5 <? failures then 5 else failures in
  u64 (Z.shiftl (100 * 1000 * 1000) shift).

Definition tp_producer_schedule_reattach (now_ns : Z) (c : tp_producer_t) : tp_producer_t :=
  if negb (px_use_driver (pd_context c)) then c
  else
    let failures := u32 (pd_attach_failures c + 1) in
    c <| pd_reattach_requested := true |> <| pd_attach_failures := failures |>
      <| pd_next_attach_ns := u64 (now_ns + tp_producer_next_backoff_ns (u32 (failures - 1))) |>.

Definition tp_producer_reattach_due (c : tp_producer_t) (now_ns : Z) : bool :=
  pd_reattach_requested c && (pd_next_attach_ns c <=? now_ns).

Definition tp_producer_clear_reattach (c : tp_producer_t) : tp_producer_t :=
  c <| pd_reattach_requested := false |> <| pd_attach_failures := 0 |> <| pd_next_attach_ns := 0 |>.

(** [correlation_id] and [client_id] are the next identifiers. *)
Definition tp_producer_fill_driver_request (correlation_id client_id : Z) (c : tp_producer_t)
    : tp_driver_attach_request_t * tp_producer_t :=
  let cx := pd_context c in
  let r := px_driver_request cx in
  let client := if at_client_id r =? 0
                then if px_producer_id cx =? 0 then client_id else px_producer_id cx
                else at_client_id r in
  let cx' := if (at_client_id r =? 0) && (px_producer_id cx =? 0)
             then cx <| px_producer_id := client_id |> else cx in
  ({| at_correlation_id := if at_correlation_id r =? 0 then correlation_id else at_correlation_id r;
      at_stream_id := if at_stream_id r =? 0 then px_stream_id cx else at_stream_id r;
      at_client_id := client;
      at_role := if at_role r =? 0 then tensor_pool_role_PRODUCER else at_role r;
      at_expected_layout_version := at_expected_layout_version r;
      at_publish_mode := if at_publish_mode r =? 0 then tensor_pool_publishMode_EXISTING_OR_CREATE
                         else at_publish_mode r;
      at_require_hugepages := if at_require_hugepages r =? 0 then tensor_pool_hugepagesPolicy_UNSPECIFIED
                              else at_require_hugepages r;
      at_desired_node_id := at_desired_node_id r |},
   c <| pd_context := cx' |>).

Section World.
Context `{Sbe} (W : world) (A : ConsumerManager.aeron).

(** ** The URIs of the regions *)

(** [tp_dup_string]: NULL of NULL, and without memory. *)
Definition tp_dup_string (value : ptr chars) : C (ptr chars) :=
  match value with
  | NULL => give NULL
  | Some s => let+ alloc := ask (w_alloc W) in give (if alloc then Some (cstring s) else NULL)
  end.

Definition tp_producer_clear_shm_uris (c : tp_producer_t) : tp_producer_t :=
  c <| pd_header_uri := NULL |> <| pd_pool_uris := NULL |> <| pd_pool_uri_count := 0%nat |>.

(** The loop; [None] when a copy fails. *)
Fixpoint dup_uris (pools : list pool_config) : C (option (list (ptr chars))) :=
  match pools with
  | [] => give (Some [])
  | p :: pools' =>
    let+ uri := tp_dup_string (pc_uri p) in
    match uri with
    | NULL => give None
    | Some _ =>
      let+ rest := dup_uris pools' in
      give (match rest with Some rest => Some (uri :: rest) | None => None end)
    end
  end.

(** Whatever fails, no URI is kept. *)
Definition tp_producer_store_shm_uris (cfg : region_config) : C (res unit) :=
  let failed := do+ modify tp_producer_clear_shm_uris in give (Err ENOMEM) in
  let count := length (cc_pools cfg) in
  do+ modify tp_producer_clear_shm_uris in
  let+ header_uri := tp_dup_string (cc_header_uri cfg) in
  match header_uri with
  | NULL => failed
  | Some _ =>
    let+ alloc := (if (0 <? count)%nat then ask (w_alloc W) else give true) in
    if negb alloc then failed
    else
      let+ uris := dup_uris (cc_pools cfg) in
      match uris with
      | None => failed
      | Some uris =>
        do+ modify (fun c =>
              c <| pd_header_uri := header_uri |>
                <| pd_pool_uris := if (0 <? count)%nat then Some uris else NULL |>
                <| pd_pool_uri_count := count |> <| pd_last_shm_announce_ns := 0 |>) in
        give (Ok tt)
      end
  end.

(** ** Mapping and unmapping *)

(** [tp_producer_init_tracelink_entries] also forgets that the producer was to
    attach again. *)
Definition init_tracelink_entries : C (res unit) :=
  let+ c := get in
  if pd_header_nslots c =? 0 then give (Ok tt)
  else
    let+ alloc := ask (w_alloc W) in
    let '(tl, r) := tp_producer_init_tracelink_entries
      {| tl_stream_id := pd_stream_id c; tl_epoch := pd_epoch c;
         tl_header_nslots := pd_header_nslots c; tl_entries := pd_tracelink_entries c;
         tl_control_publication := bool_decide (pd_control_publication c <> NULL);
         tl_validator := VDefault |} alloc in
    do+ modify (fun c => c <| pd_tracelink_entries := tl_entries tl |>) in
    match r with
    | Err e => give (Err e)
    | Ok _ => do+ modify tp_producer_clear_reattach in give (Ok tt)
    end.

(** Here the loop over the pools looks whether there is an array. *)
Definition release_pools : C unit :=
  let+ c := get in
  match pd_pools c with
  | Some _ => do+ unmap_pools W in modify (fun c => c <| pd_pools := NULL |>)
  | NULL => give tt
  end.

Definition tp_producer_unmap_regions : C unit :=
  do+ unmap_header W in
  do+ release_pools in
  modify (fun c =>
    c <| pd_tracelink_entries := NULL |> <| pd_pool_count := 0%nat |> <| pd_header_nslots := 0 |>
      <| pd_epoch := 0 |> <| pd_layout_version := 0 |> <| pd_next_seq := 0 |>).

(** The label [cleanup]: here it does not look, and [pool_count] stays. *)
Definition attach_cleanup (e : errno) : C (res unit) :=
  do+ unmap_pools W in
  do+ unmap_header W in
  do+ modify (fun c => tp_producer_clear_shm_uris (c <| pd_pools := NULL |>)
                         <| pd_tracelink_entries := NULL |>) in
  give (Err e).

Definition attach_regions (cfg : region_config) : C (res unit) :=
  try+ _ := attach_header W true false cfg in
  attach_pools W true false cfg 0 (cc_pools cfg).

(** Three errors return before the label [cleanup]; an [aeron_alloc] that fails
    leaves NULL, and one that succeeds zeroed memory. *)
Definition tp_producer_attach_config (producer_id : Z) (cfg : region_config) : C (res unit) :=
  let count := length (cc_pools cfg) in
  do+ modify (fun c =>
        c <| pd_stream_id := cc_stream_id cfg |> <| pd_producer_id := producer_id |>
          <| pd_epoch := cc_epoch cfg |> <| pd_layout_version := cc_layout_version cfg |>
          <| pd_header_nslots := cc_header_nslots cfg |> <| pd_pool_count := count |>) in
  if negb (cc_layout_version cfg =? TP_LAYOUT_VERSION) then attach_cleanup EINVAL
  else if negb (tp_is_power_of_two (cc_header_nslots cfg)) then give (Err EINVAL)
  else
    try+ _ := init_tracelink_entries in
    let+ alloc := (if (0 <? count)%nat then ask (w_alloc W) else give true) in
    do+ (if (0 <? count)%nat
         then modify (fun c => c <| pd_pools := if alloc then Some (replicate count zero_pool) else NULL |>)
         else give tt) in
    if negb alloc then give (Err ENOMEM)
    else
      let+ r := attach_regions cfg in
      match r with
      | Err e => attach_cleanup e
      | Ok _ =>
        let+ r := tp_producer_store_shm_uris cfg in
        match r with
        | Err e => attach_cleanup e
        | Ok _ => give (Ok tt)
        end
      end.

(** ** Attaching through the driver *)

(** The strings of the response are arrays, its pools as many as it says. *)
Definition tp_driver_attach_producer_config (info : tp_driver_attach_info_t) : region_config :=
  {| cc_stream_id := ai_stream_id info; cc_epoch := ai_epoch info;
     cc_layout_version := ai_layout_version info; cc_header_nslots := ai_header_nslots info;
     cc_header_uri := Some (cstring (ai_header_region_uri info));
     cc_pools := (fun p => {| pc_pool_id := pi_pool_id p; pc_nslots := pi_nslots p;
                              pc_stride_bytes := pi_stride_bytes p;
                              pc_uri := Some (cstring (pi_region_uri p)) |}) <$>
                 take (Z.to_nat (ai_pool_count info)) (ai_pools info) |}.

(** What follows a complete answer in both ways to attach. *)
Definition take_attach_info (info : tp_driver_attach_info_t) : C (res unit) :=
  if negb (ai_code info =? tensor_pool_responseCode_OK) then give (Err EINVAL)
  else
    do+ modify (fun c => c <| pd_driver_attached := true |>) in
    let+ alloc := ask (w_alloc W) in
    let+ c := get in
    let+ r := (if alloc : bool
               then tp_producer_attach_config (px_producer_id (pd_context c))
                      (tp_driver_attach_producer_config info)
               else give (Err ENOMEM)) in
    match r with
    | Ok _ => give (Ok tt)
    | Err e => do+ modify (fun c => c <| pd_driver_attached := false |>) in give (Err e)
    end.

Definition tp_producer_attach_driver_async (correlation_id client_id : Z) (driver : tp_driver_client_t)
    : C tp_async_attach_t :=
  let+ c := get in
  let '(request, c') := tp_producer_fill_driver_request correlation_id client_id c in
  do+ modify (fun _ => c' <| pd_driver := Some (default driver (pd_driver c)) |>) in
  give (tp_driver_attach_async correlation_id client_id request).

(** Its result: 0, 1 or -1, and the request in its new state. *)
Definition tp_producer_attach_driver_poll (codes : aeron) (fresh : tp_driver_pool_info_t)
    (e : poll_env) (a : tp_async_attach_t) : C (Z * tp_async_attach_t) :=
  let+ c := get in
  match pd_driver c with
  | NULL => fault
  | Some d =>
    let '(r, d', a', _) := tp_driver_attach_poll codes fresh e d a in
    do+ modify (fun c => c <| pd_driver := Some d' |>) in
    match r with
    | Pending => give (0, a')
    | PollFailed => give (-1, a')
    | Undefined => fault
    | Complete info =>
      let+ r := take_attach_info info in
      give (match r with Ok _ => 1 | Err _ => -1 end, a')
    end
  end.

(** [attach]: what the blocking [tp_driver_attach] of a request comes to: the driver
    client after it, and its answer.  [config]: with the producer's identifier. *)
Definition tp_producer_attach (correlation_id client_id : Z) (config : ptr (Z * region_config))
    (attach : tp_driver_attach_request_t -> tp_driver_client_t * res tp_driver_attach_info_t)
    : C (res unit) :=
  let+ c := get in
  match px_use_driver (pd_context c), config with
  | true, Some _ => give (Err EINVAL)
  | true, NULL =>
    let '(request, c') := tp_producer_fill_driver_request correlation_id client_id c in
    do+ modify (fun _ => c' <| pd_driver := Some (fst (attach request)) |>) in
    match snd (attach request) with
    | Err e => give (Err e)
    | Ok info => take_attach_info info
    end
  | false, NULL => give (Err EINVAL)
  | false, Some (producer_id, cfg) => tp_producer_attach_config producer_id cfg
  end.

(** ** The control messages *)

(** Our lease, whatever its identifier: the client and the role are compared. *)
Definition on_lease_revoked (r : tp_driver_lease_revoked_t) : C unit :=
  let+ c := get in
  if (lr_client_id r =? px_producer_id (pd_context c)) && (lr_role r =? tensor_pool_role_PRODUCER)
  then
    let+ now := ask (w_clock_ns W) in
    do+ emit (ProducerLeaseRevoked r) in
    do+ tp_producer_unmap_regions in
    modify (fun c => tp_producer_schedule_reattach (u64 now)
      (c <| pd_driver ::= fmap clear_lease |> <| pd_driver_attached := false |>))
  else give tt.

(** The consumer manager answers a hello; its result is not looked at. *)
Definition on_hello (m : tp_consumer_manager_t) (hello : tp_consumer_hello_view_t) : C unit :=
  let+ now_ns := ask (fun t => u64 (w_clock_ns W t)) in
  modify (fun c =>
    let '(_, m, w) := tp_consumer_manager_handle_hello A m hello now_ns (pd_media c) in
    c <| pd_consumer_manager := Some m |> <| pd_media := w |>).

Definition tp_producer_control_handler (b : bytes) : C unit :=
  let+ c := get in
  match pd_consumer_manager c, tp_control_decode_consumer_hello b with
  | Some _, OutOfBounds => fault
  | Some m, Decoded hello => on_hello m hello
  | _, _ =>
    match tp_driver_decode_lease_revoked b with
    | OutOfBounds => fault
    | Decoded r => on_lease_revoked r
    | _ =>
      match tp_driver_decode_shutdown b with
      | OutOfBounds => fault
      | Decoded s => emit (ProducerShutdown s)
      | _ => give tt
      end
    end
  end.

(** A report of a consumer of this stream and epoch shows that it is alive. *)
Definition tp_producer_qos_event_handler (event : tp_qos_event_t) : C unit :=
  let+ c := get in
  match pd_consumer_manager c, event with
  | Some m, QosConsumer stream_id consumer_id epoch _ _ _ _ =>
    if negb (stream_id =? pd_stream_id c) || negb (epoch =? pd_epoch c) then give tt
    else
      let+ now_ns := ask (fun t => u64 (w_clock_ns W t)) in
      modify (fun c => c <| pd_consumer_manager :=
        Some (snd (tp_consumer_manager_touch m consumer_id now_ns)) |>)
  | _, _ => give tt
  end.

Definition qos_fragment (b : bytes) : C unit :=
  match tp_qos_poller_handler true b with
  | None => fault
  | Some events => for_each tp_producer_qos_event_handler events
  end.

(** The poller is made when it is first needed: two allocations.  [fragments]:
    what the poll of the subscription delivers, or its failure. *)
Definition tp_producer_poll_qos (fragments : res (list bytes)) : C (res unit) :=
  let+ c := get in
  let+ made :=
    (if pd_qos_poller c then give true
     else
       let+ alloc := ask (w_alloc W) in
       if negb alloc then give false
       else
         let+ assembler := ask (w_alloc W) in
         do+ modify (fun c => c <| pd_qos_poller := assembler |>) in
         give assembler) in
  if negb made then give (Err ENOMEM)
  else
    match fragments with
    | Err e => give (Err e)
    | Ok fragments => do+ for_each qos_fragment fragments in give (Ok tt)
    end.

(** ** What a producer sends and stamps *)

(** Encoding into a buffer of this length and offering; whether it was accepted. *)
Definition send (publication : ptr Z) (length : Z) (items : res (list item)) : C bool :=
  match publication, items with
  | Some publication, Ok items =>
    match encode items (repeat 0 (Z.to_nat length)) with
    | Some message => do+ emit (Offered publication message) in ask (w_offer W)
    | None => give false
    end
  | _, _ => give false
  end.

Definition stamp (now_ns : Z) (r : attached_region) : C unit :=
  if rg_addr (rn_region r) =? 0 then give tt
  else emit (ActivityStamped (rg_addr (rn_region r)) now_ns).

(** This loop does not look whether there is an array either. *)
Definition tp_producer_update_activity (now_ns : Z) : C unit :=
  let+ c := get in
  do+ stamp now_ns (pd_header_region c) in
  for_each (fun i => let+ p := get_pool i in stamp now_ns (po_region p)) (seq 0 (pd_pool_count c)).

(** The announced pools from index [i]. *)
Definition announced_pool (c : tp_producer_t) (i : nat) (p : attached_pool) : tp_shm_pool_announce_pool_t :=
  {| ap_pool_id := po_pool_id p; ap_pool_nslots := po_nslots p; ap_stride_bytes := po_stride_bytes p;
     ap_region_uri := match pd_pool_uris c with
                      | Some uris => if (i <? pd_pool_uri_count c)%nat then mjoin (uris !! i) else NULL
                      | NULL => NULL
                      end |}.

Definition producer_announce (now_ns : Z) (pools : list attached_pool) (c : tp_producer_t)
    : tp_shm_pool_announce_t :=
  {| an_stream_id := pd_stream_id c; an_producer_id := pd_producer_id c; an_epoch := pd_epoch c;
     an_announce_timestamp_ns := now_ns; an_announce_clock_domain := TP_CLOCK_DOMAIN_MONOTONIC;
     an_layout_version := pd_layout_version c; an_header_nslots := pd_header_nslots c;
     an_header_slot_bytes := TP_HEADER_SLOT_BYTES; an_header_region_uri := pd_header_uri c;
     an_pools := Some (imap (announced_pool c) (take (pd_pool_count c) pools)) |}.

(** Two allocations: the announced pools, and the buffer of the message. *)
Definition tp_producer_publish_shm_pool_announce (now_ns : Z) : C bool :=
  let+ c := get in
  match pd_control_publication c, pd_pools c, pd_header_uri c with
  | Some _, Some pools, Some _ =>
    if (pd_pool_count c =? 0)%nat then give false
    else
      let+ alloc := ask (w_alloc W) in
      if negb alloc then give false
      else
        let a := producer_announce now_ns pools c in
        match tp_producer_send_shm_pool_announce a with
        | Err _ => give false
        | Ok items =>
          let+ alloc := ask (w_alloc W) in
          if alloc : bool then send (pd_control_publication c) (pool_announce_length a) (Ok items)
          else give false
        end
  | _, _, _ => give false
  end.

(** ** Polling *)

Definition period (c : tp_producer_t) : Z := cs_announce_period_ns (pd_settings c).

(** Never yet, or a period ago. *)
Definition is_due (c : tp_producer_t) (last_ns now_ns : Z) : bool :=
  (last_ns =? 0) || (period c <=? u64 (now_ns - last_ns)).

Definition report_qos (now_ns : Z) : C unit :=
  let+ c := get in
  if bool_decide (pd_qos_publication c <> NULL) && is_due c (pd_last_qos_ns c) now_ns then
    let+ _ := send (pd_qos_publication c) 128
      (Ok (tp_qos_publish_producer (pd_stream_id c) (pd_producer_id c) (pd_epoch c) (pd_next_seq c)
             TP_NULL_U32)) in
    modify (fun c => c <| pd_last_qos_ns := now_ns |>)
  else give tt.

(** Only what was accepted counts as announced. *)
Definition announce_pools (now_ns : Z) : C unit :=
  let+ c := get in
  if negb (px_use_driver (pd_context c)) && bool_decide (pd_control_publication c <> NULL) &&
     is_due c (pd_last_shm_announce_ns c) now_ns
  then
    let+ accepted := tp_producer_publish_shm_pool_announce now_ns in
    if accepted : bool then modify (fun c => c <| pd_last_shm_announce_ns := now_ns |>) else give tt
  else give tt.

Definition announce_source (now_ns : Z) : C unit :=
  let+ c := get in
  if bool_decide (pd_metadata_publication c <> NULL) && pd_has_announce c &&
     is_due c (pd_last_announce_ns c) now_ns
  then
    let+ _ := send (pd_metadata_publication c) 512
      (tp_producer_send_data_source_announce (pd_cached_announce c)) in
    modify (fun c => c <| pd_last_announce_ns := now_ns |>)
  else give tt.

Definition report_meta (now_ns : Z) : C unit :=
  let+ c := get in
  if bool_decide (pd_metadata_publication c <> NULL) && pd_has_meta c &&
     is_due c (pd_last_meta_ns c) now_ns
  then
    let+ _ := send (pd_metadata_publication c) 2048
      (tp_producer_send_data_source_meta (pd_cached_meta c)) in
    modify (fun c => c <| pd_last_meta_ns := now_ns |>)
  else give tt.

Definition show_activity (now_ns : Z) : C unit :=
  let+ c := get in
  if (period c =? 0) || is_due c (pd_last_activity_ns c) now_ns then
    do+ tp_producer_update_activity now_ns in
    modify (fun c => c <| pd_last_activity_ns := now_ns |>)
  else give tt.

Definition stale_ns (c : tp_producer_t) : Z :=
  if 0 <? period c then u64 (period c * 5) else 5000000000.

(** Consumers that were not heard of for five periods are dropped. *)
Definition sweep_consumers (m : tp_consumer_manager_t) : C unit :=
  let+ now_ns := ask (fun t => u64 (w_clock_ns W t)) in
  modify (fun c =>
    let '(_, m, w) := tp_consumer_manager_sweep m now_ns (stale_ns c) (pd_media c) in
    c <| pd_consumer_manager := Some m |> <| pd_media := w |>).

(** The reports and the stamps at the end of a poll. *)
Definition poll_periodic : C unit :=
  let+ c := get in
  let+ now_ns := ask (fun t => u64 (w_clock_ns W t)) in
  do+ (if 0 <? period c then
         do+ report_qos now_ns in
         do+ announce_pools now_ns in
         do+ announce_source now_ns in
         report_meta now_ns
       else give tt) in
  show_activity now_ns.

(** With a consumer manager: its reports, and the consumers that are gone. *)
Definition poll_consumers (qos : res (list bytes)) : C (res unit) :=
  let+ c := get in
  match pd_consumer_manager c with
  | NULL => give (Ok tt)
  | Some _ =>
    try+ _ := tp_producer_poll_qos qos in
    let+ c := get in
    match pd_consumer_manager c with
    | NULL => give (Ok tt)
    | Some m => do+ sweep_consumers m in give (Ok tt)
    end
  end.

(** Once there is a fragment assembler. *)
Definition poll_assembled (control qos : res (list bytes)) : C (res unit) :=
  match control with
  | Err e => give (Err e)
  | Ok fragments =>
    do+ for_each tp_producer_control_handler fragments in
    try+ _ := poll_consumers qos in
    do+ poll_periodic in
    give (Ok tt)
  end.

(** [control] and [qos]: what the polls of the two subscriptions deliver. *)
Definition tp_producer_poll_control_internal (control qos : res (list bytes)) : C (res unit) :=
  let+ c := get in
  if pd_control_assembler c then poll_assembled control qos
  else
    let+ alloc := ask (w_alloc W) in
    do+ modify (fun c => c <| pd_control_assembler := alloc |>) in
    if alloc : bool then poll_assembled control qos else give (Err ENOMEM).

(** ** The data source *)

Definition zero_announce : tp_data_source_announce_t :=
  {| da_stream_id := 0; da_producer_id := 0; da_epoch := 0; da_meta_version := 0;
     da_name := NULL; da_summary := NULL |}.
Definition zero_meta : tp_data_source_meta_t :=
  {| dm_stream_id := 0; dm_meta_version := 0; dm_timestamp_ns := 0; dm_attributes := [] |}.

Definition tp_producer_clear_data_source_announce (c : tp_producer_t) : tp_producer_t :=
  c <| pd_cached_announce := zero_announce |> <| pd_has_announce := false |>.

Definition tp_producer_set_data_source_announce (announce : ptr tp_data_source_announce_t)
    : C (res unit) :=
  match announce with
  | NULL => give (Err EINVAL)
  | Some a =>
    do+ modify tp_producer_clear_data_source_announce in
    let+ name := tp_dup_string (da_name a) in
    let+ summary := tp_dup_string (da_summary a) in
    do+ modify (fun c =>
          c <| pd_cached_announce :=
                 {| da_stream_id := da_stream_id a; da_producer_id := da_producer_id a;
                    da_epoch := da_epoch a; da_meta_version := da_meta_version a;
                    da_name := name; da_summary := summary |} |>
            <| pd_has_announce := true |>) in
    if (bool_decide (da_name a <> NULL) && bool_decide (name = NULL)) ||
       (bool_decide (da_summary a <> NULL) && bool_decide (summary = NULL))
    then do+ modify tp_producer_clear_data_source_announce in give (Err ENOMEM)
    else give (Ok tt)
  end.

(** The loop over the attributes does not look whether there is an array. *)
Definition tp_producer_clear_cached_meta : C unit :=
  let+ c := get in
  match pd_cached_attrs c, pd_cached_attr_count c with
  | NULL, S _ => fault
  | _, _ =>
    modify (fun c =>
      c <| pd_cached_attrs := NULL |> <| pd_cached_attr_count := 0%nat |>
        <| pd_cached_meta := (pd_cached_meta c) <| dm_attributes := [] |> |> <| pd_has_meta := false |>)
  end.

Definition tp_producer_clear_data_source_meta : C unit :=
  do+ tp_producer_clear_cached_meta in
  modify (fun c => c <| pd_cached_meta := zero_meta |>).

(** An attribute of the application, its pointers possibly NULL; a value is an
    array of at least its length. *)
Record source_attribute := {
  sa_key : ptr chars;
  sa_format : ptr chars;
  sa_value : ptr chars;
  sa_value_length : nat;
}.

(** The copies of one attribute: [Err] after clearing what there is. *)
Definition copy_attribute (a : source_attribute) : C (res tp_meta_attribute_t) :=
  let absent := bool_decide (sa_value a = NULL) && (0 <? sa_value_length a)%nat in
  match sa_key a, sa_format a, absent with
  | Some _, Some _, false =>
    let+ key := tp_dup_string (sa_key a) in
    let+ format := tp_dup_string (sa_format a) in
    let+ value := (if (0 <? sa_value_length a)%nat then ask (w_alloc W) else give true) in
    match key, format, value with
    | Some key, Some format, true =>
      give (Ok {| ma_key := key; ma_format := format; ma_value := take (sa_value_length a) (default [] (sa_value a)) |})
    | _, _, _ => give (Err ENOMEM)
    end
  | _, _, _ => give (Err EINVAL)
  end.

Fixpoint copy_attributes (l : list source_attribute) : C (res (list tp_meta_attribute_t)) :=
  match l with
  | [] => give (Ok [])
  | a :: l' =>
    try+ copied := copy_attribute a in
    try+ rest := copy_attributes l' in
    give (Ok (copied :: rest))
  end.

(** [attributes] without its array when there are none.  The copies take their
    place in the array one by one; who fails gives them all up. *)
Definition tp_producer_set_data_source_meta (stream_id meta_version timestamp_ns : Z)
    (attributes : list source_attribute) : C (res unit) :=
  let count := length attributes in
  do+ tp_producer_clear_data_source_meta in
  do+ modify (fun c =>
        c <| pd_cached_meta := {| dm_stream_id := stream_id; dm_meta_version := meta_version;
                                  dm_timestamp_ns := timestamp_ns; dm_attributes := [] |} |>
          <| pd_cached_attr_count := count |>) in
  let+ alloc := (if (0 <? count)%nat then ask (w_alloc W) else give true) in
  if negb alloc then give (Err ENOMEM)
  else
    let+ copied := copy_attributes attributes in
    match copied with
    | Err e =>
      do+ modify (fun c => c <| pd_cached_attrs := Some [] |>) in
      do+ tp_producer_clear_data_source_meta in
      give (Err e)
    | Ok copies =>
      do+ modify (fun c =>
            c <| pd_cached_attrs := if (0 <? count)%nat then Some copies else NULL |>
              <| pd_cached_meta := (pd_cached_meta c) <| dm_attributes := copies |> |>
              <| pd_has_meta := true |>) in
      give (Ok tt)
    end.

(** ** The consumer manager, and the end *)

Definition tp_producer_enable_consumer_manager (capacity : nat) : C (res unit) :=
  let+ c := get in
  if (capacity =? 0)%nat then give (Err EINVAL)
  else
    match pd_consumer_manager c with
    | Some _ => give (Ok tt)
    | NULL =>
      let+ alloc := ask (w_alloc W) in
      if negb alloc then give (Err ENOMEM)
      else
        let+ entries := ask (w_alloc W) in
        match tp_consumer_manager_init
                {| pr_descriptor_publication := pd_descriptor_publication c;
                   pr_control_publication := pd_control_publication c;
                   pr_drop_unconnected_descriptors := px_drop_unconnected_descriptors (pd_context c) |}
                entries capacity with
        | Err e => give (Err e)
        | Ok m =>
          let+ now_ns := ask (fun t => u64 (w_clock_ns W t)) in
          do+ modify (fun c => c <| pd_consumer_manager := Some m |>
                                 <| pd_last_consumer_sweep_ns := now_ns |>) in
          give (Ok tt)
        end
    end.

Definition tp_producer_close : C unit :=
  do+ modify (fun c =>
        c <| pd_descriptor_publication := NULL |> <| pd_control_publication := NULL |>
          <| pd_qos_publication := NULL |> <| pd_metadata_publication := NULL |>
          <| pd_control_assembler := false |> <| pd_qos_poller := false |>) in
  do+ unmap_header W in
  do+ release_pools in
  do+ modify (fun c => tp_producer_clear_shm_uris (c <| pd_pool_count := 0%nat |>)) in
  do+ modify (fun c =>
        match pd_consumer_manager c with
        | Some m => c <| pd_media := snd (tp_consumer_manager_close m (pd_media c)) |>
                      <| pd_consumer_manager := NULL |>
        | NULL => c
        end) in
  do+ tp_producer_clear_data_source_meta in
  do+ modify (fun c => (tp_producer_clear_data_source_announce c) <| pd_tracelink_entries := NULL |>) in
  let+ c := get in
  do+ match pd_driver c with
      | Some d =>
        if pd_driver_attached c
        then emit (ProducerDetach (dc_active_lease_id d) (dc_active_stream_id d) (dc_client_id d)
                     (dc_role d))
        else give tt
      | NULL => give tt
      end in
  modify (fun c => c <| pd_driver := NULL |> <| pd_driver_attached := false |>).
End World.

(** The publications there are. *)
Record publications := {
  pb_descriptor : ptr Z;
  pb_control : ptr Z;
  pb_qos : ptr Z;
  pb_metadata : ptr Z;
}.

(** Within [tp_producer_init], before anything is attached: zeroed memory. *)
Definition producer_init (settings : client_settings) (context : tp_producer_context_t)
    (pubs : publications) (media : media) : tp_producer_t :=
  {| pd_settings := settings; pd_context := context;
     pd_descriptor_publication := pb_descriptor pubs; pd_control_publication := pb_control pubs;
     pd_qos_publication := pb_qos pubs; pd_metadata_publication := pb_metadata pubs;
     pd_control_assembler := false; pd_qos_poller := false; pd_header_region := empty_region 0;
     pd_header_uri := NULL; pd_pools := NULL; pd_pool_uris := NULL; pd_pool_uri_count := 0%nat;
     pd_pool_count := 0%nat; pd_stream_id := 0; pd_producer_id := 0; pd_epoch := 0;
     pd_layout_version := 0; pd_header_nslots := 0; pd_next_seq := 0; pd_driver := NULL;
     pd_driver_attached := false; pd_consumer_manager := NULL; pd_media := media;
     pd_last_consumer_sweep_ns := 0; pd_last_qos_ns := 0; pd_last_activity_ns := 0;
     pd_last_shm_announce_ns := 0; pd_last_announce_ns := 0; pd_last_meta_ns := 0;
     pd_cached_announce := zero_announce; pd_has_announce := false; pd_cached_meta := zero_meta;
     pd_cached_attrs := NULL; pd_cached_attr_count := 0%nat; pd_has_meta := false;
     pd_tracelink_entries := NULL; pd_next_attach_ns := 0; pd_attach_failures := 0;
     pd_reattach_requested := false |}.
