(* ===== verification/ProducerRegions.v ===== *)
(** * ProducerRegions: the regions of a producer, over any run

    The theorems about ProducerMapping: whatever arrives and fails, what the
    process has open is what the producer holds, and closing gives it back; what a
    producer writes to is one validated configuration, whose URIs it announces;
    and polling returns and shows that the producer is alive, as long as no attach
    has failed - the examples at the end show what happens otherwise. *)

From Stdlib Require Import ZArith Lia Bool Ascii String.
From stdpp Require Import strings list.
From coqutil Require Import Datatypes.RecordSetters.
From S2P Require Import Prelude Sbe Seqlock Tracelink Uri Shm Message ConsumerManager.
From S2P Require Import Driver DriverMessages DriverClient Control Metadata Machine Regions ProducerMapping.
Import Mapping Manager Qos TriangleBracketNotations.

#[local] Open Scope Z_scope.
#[local] Open Scope list_scope.

Section Regions.
Context `{Sbe} (W : world) (A : ConsumerManager.aeron) (HK : kernel_ok (w_kernel W)).
Context (maps0 : list (Z * Z)) (fds0 : list Z).
Abbreviation accounted := (accounted maps0 fds0).

(** ** Giving everything up *)

(** The count is that of the array, if there is one. *)
Definition count_ok (c : tp_producer_t) : Prop :=
  forall l, pd_pools c = Some l -> pd_pool_count c = length l.

(** A producer without regions; the count may be left over. *)
Record unmapped (c : tp_producer_t) : Prop := {
  un_pools : pd_pools c = NULL;
  un_header : free (rn_region (pd_header_region c));
}.

Lemma producer_unmapped_nothing c : unmapped c -> nothing_mapped c.
Proof. intros [E ?]. unfold nothing_mapped, slots. cbn. rewrite E. by repeat constructor. Qed.

Lemma unmapped_count c : unmapped c -> count_ok c.
Proof. intros [E _] l. by rewrite E. Qed.

Lemma release_pools_spec F c p ev (Q : unit -> machine -> Prop) :
  count_ok c -> accounted (slots c) p ->
  (forall p', accounted (slots (c <| pd_pools := NULL |>)) p' ->
     Q tt {| ma_state := c <| pd_pools := NULL |>; ma_process := p'; ma_events := ev |}) ->
  wp F (release_pools W) Q {| ma_state := c; ma_process := p; ma_events := ev |}.
Proof.
  intros Hc Ha HQ. unfold release_pools. wps. destruct (pd_pools c) as [l|] eqn:El; wps.
  - apply (unmap_pools_spec W HK maps0 fds0); [unfold pools_ok; cbn; rewrite El; by apply Hc|done|].
    intros l' p' _ Hl Ha'. wps.
    replace ((put_pools l' c) <| pd_pools := NULL |>) with (c <| pd_pools := NULL |>) by by destruct c.
    apply HQ. exact (accounted_drop_pools _ _ l' c _ Hl Ha').
  - assert (E : c <| pd_pools := NULL |> = c) by (destruct c; cbn in El; by subst).
    rewrite E in HQ. by apply HQ.
Qed.

(** After [tp_producer_unmap_regions]. *)
Definition given_up (c : tp_producer_t) : tp_producer_t :=
  c <| pd_header_region := empty_region (-1) |> <| pd_pools := NULL |>
    <| pd_tracelink_entries := NULL |> <| pd_pool_count := 0%nat |> <| pd_header_nslots := 0 |>
    <| pd_epoch := 0 |> <| pd_layout_version := 0 |> <| pd_next_seq := 0 |>.

Lemma given_up_unmapped c : unmapped (given_up c).
Proof. by destruct c. Qed.

Lemma producer_unmap_regions_spec F c p ev (Q : unit -> machine -> Prop) :
  count_ok c -> accounted (slots c) p ->
  (forall p', accounted (slots (given_up c)) p' ->
     Q tt {| ma_state := given_up c; ma_process := p'; ma_events := ev |}) ->
  wp F (tp_producer_unmap_regions W) Q {| ma_state := c; ma_process := p; ma_events := ev |}.
Proof.
  intros Hc Ha HQ. unfold tp_producer_unmap_regions. wps.
  apply (unmap_header_spec W HK maps0 fds0); [done|]. intros p' Ha'. wps.
  apply release_pools_spec; [by destruct c|done|]. intros p2 Ha2. wps. apply HQ.
  by destruct c.
Qed.

(** ** Attaching *)

(** After the label [cleanup]: the count stays. *)
Definition cleaned (c : tp_producer_t) : tp_producer_t :=
  (tp_producer_clear_shm_uris (c <| pd_header_region := empty_region (-1) |> <| pd_pools := NULL |>))
    <| pd_tracelink_entries := NULL |>.

Lemma cleaned_unmapped c : unmapped (cleaned c).
Proof. by destruct c. Qed.

Lemma producer_attach_cleanup_spec F e c p ev (Q : res unit -> machine -> Prop) :
  pools_ok c -> accounted (slots c) p ->
  (forall p', accounted (slots (cleaned c)) p' ->
     Q (Err e) {| ma_state := cleaned c; ma_process := p'; ma_events := ev |}) ->
  wp F (attach_cleanup W e) Q {| ma_state := c; ma_process := p; ma_events := ev |}.
Proof.
  intros Hp Ha HQ. unfold attach_cleanup.
  apply (unmap_slots_spec W HK maps0 fds0); [done|done|]. intros l p' c' Hn Ha'. wps.
  assert (E : tp_producer_clear_shm_uris (c' <| pd_pools := NULL |>) <| pd_tracelink_entries := NULL |> = cleaned c)
    by (unfold c'; by destruct c).
  rewrite E. apply HQ. eapply accounted_nothing; [exact Hn|apply producer_unmapped_nothing, cleaned_unmapped|done].
Qed.

(** Without an array of pools the loop follows a NULL pointer. *)
Lemma attach_cleanup_null e c p ev (Q : res unit -> machine -> Prop) :
  unmapped c -> accounted (slots c) p ->
  (forall p', accounted (slots (cleaned c)) p' ->
     Q (Err e) {| ma_state := cleaned c; ma_process := p'; ma_events := ev |}) ->
  wp (pd_pool_count c <> 0%nat) (attach_cleanup W e) Q {| ma_state := c; ma_process := p; ma_events := ev |}.
Proof.
  intros Hu Ha HQ. destruct (pd_pool_count c) as [|n] eqn:En.
  - apply producer_attach_cleanup_spec; [|done|done]. unfold pools_ok. cbn. by rewrite (un_pools _ Hu).
  - unfold attach_cleanup, unmap_pools. wps. change (count_of c) with (pd_pool_count c). rewrite En.
    cbn [seq for_each]. wps. unfold unmap_pool, get_pool. wps.
    change (pools_of c) with (pd_pools c). by rewrite (un_pools _ Hu).
Qed.

(** The copies of the URIs. *)
Lemma producer_dup_spec F value (Q : ptr chars -> machine -> Prop) s :
  (forall r p', (forall R, accounted R (ma_process s) -> accounted R p') ->
     (r = NULL \/ exists v, value = Some v /\ r = Some (cstring v)) ->
     Q r {| ma_state := ma_state s; ma_process := p'; ma_events := ma_events s |}) ->
  wp F (tp_dup_string W value) Q s.
Proof.
  intros HQ. unfold tp_dup_string. destruct value as [v|].
  - wps. apply HQ; [intros R; apply accounted_later|]. destruct (w_alloc _ _); [right; by exists v|by left].
  - wps. destruct s. apply HQ; [done|by left].
Qed.

Definition kept_uri (value : ptr chars) : ptr chars := cstring <$> value.

Lemma dup_uris_spec F ps : forall (Q : _ -> machine -> Prop) s,
  (forall r p', (forall R, accounted R (ma_process s) -> accounted R p') ->
     (forall l, r = Some l -> l = (fun p => kept_uri (pc_uri p)) <$> ps /\ Forall (fun p => pc_uri p <> NULL) ps) ->
     Q r {| ma_state := ma_state s; ma_process := p'; ma_events := ma_events s |}) ->
  wp F (dup_uris W ps) Q s.
Proof.
  induction ps as [|pc ps IH]; intros Q s HQ; cbn [dup_uris]; wps.
  { destruct s. apply HQ; [done|]. by intros l [= <-]. }
  apply producer_dup_spec. intros r p1 H1 Hr. destruct r as [u|]; [|wps; by apply HQ].
  wps. apply IH. intros rest p2 H2 Hrest. cbn [ma_process ma_state ma_events] in *. wps.
  apply HQ; [intros R HR; by apply H2, H1|]. destruct rest as [rest|]; [|done].
  intros l [= <-]. destruct (Hrest rest eq_refl) as [-> Hall].
  destruct Hr as [?|(v & E & Ev)]; [done|]. split.
  - rewrite fmap_cons. f_equal. rewrite E, Ev. done.
  - constructor; [by rewrite E|done].
Qed.

(** The URIs of the configuration are those kept for the announcements. *)
Record uris_kept (cfg : region_config) (c : tp_producer_t) : Prop := {
  uk_header : cc_header_uri cfg <> NULL /\ pd_header_uri c = kept_uri (cc_header_uri cfg);
  uk_pools : default [] (pd_pool_uris c) = (fun p => kept_uri (pc_uri p)) <$> cc_pools cfg;
  uk_count : pd_pool_uri_count c = length (cc_pools cfg);
  uk_present : Forall (fun p => pc_uri p <> NULL) (cc_pools cfg);
}.

Definition with_uris (header : ptr chars) (uris : ptr (list (ptr chars))) (count : nat) (last : Z)
    (c : tp_producer_t) : tp_producer_t :=
  c <| pd_header_uri := header |> <| pd_pool_uris := uris |> <| pd_pool_uri_count := count |>
    <| pd_last_shm_announce_ns := last |>.

Lemma store_uris_spec F cfg c p ev (Q : res unit -> machine -> Prop) :
  accounted (slots c) p ->
  (forall h us p', let c' := with_uris h us (length (cc_pools cfg)) 0 c in
     accounted (slots c') p' -> uris_kept cfg c' ->
     Q (Ok tt) {| ma_state := c'; ma_process := p'; ma_events := ev |}) ->
  (forall p', let c' := with_uris NULL NULL 0 (pd_last_shm_announce_ns c) c in accounted (slots c') p' ->
     Q (Err ENOMEM) {| ma_state := c'; ma_process := p'; ma_events := ev |}) ->
  wp F (tp_producer_store_shm_uris W cfg) Q {| ma_state := c; ma_process := p; ma_events := ev |}.
Proof.
  intros Ha HQ HE. unfold tp_producer_store_shm_uris. wps. set (c0 := tp_producer_clear_shm_uris c).
  assert (Hslots : forall h us n t, slots (with_uris h us n t c) = slots c) by (intros; by destruct c).
  assert (E0 : c0 = with_uris NULL NULL 0 (pd_last_shm_announce_ns c) c) by (unfold c0; by destruct c).
  assert (E1 : tp_producer_clear_shm_uris c0 = c0) by (unfold c0; by destruct c).
  assert (Hfail : forall p', accounted (slots c) p' ->
    Q (Err ENOMEM) {| ma_state := c0; ma_process := p'; ma_events := ev |}).
  { intros p' Ha'. rewrite E0. apply HE. by rewrite Hslots. }
  apply producer_dup_spec. intros header p1 H1 Hh. cbn [ma_process ma_state ma_events] in *.
  destruct header as [u|]; [|wps; rewrite E1; by apply Hfail, H1].
  destruct Hh as [?|(v & Ev & Eu)]; [done|].
  assert (Hcopy : forall p', accounted (slots c) p' ->
    wp F (dup_uris W (cc_pools cfg)) (fun uris => wp F (match uris with
      | Some uris =>
        do+ modify (fun c =>
              c <| pd_header_uri := Some u |>
                <| pd_pool_uris := if (0 <? length (cc_pools cfg))%nat then Some uris else NULL |>
                <| pd_pool_uri_count := length (cc_pools cfg) |> <| pd_last_shm_announce_ns := 0 |>) in
        give (Ok tt)
      | None => do+ modify tp_producer_clear_shm_uris in give (Err ENOMEM)
      end) Q) {| ma_state := c0; ma_process := p'; ma_events := ev |}).
  { intros p' Ha'. apply dup_uris_spec. intros uris p2 H2 Hu. cbn [ma_process ma_state ma_events] in *.
    destruct uris as [uris|]; wps; [|rewrite E1; by apply Hfail, H2].
    set (us := if (0 <? _)%nat then _ else _).
    match goal with |- Q _ {| ma_state := ?x |} =>
      replace x with (with_uris (Some u) us (length (cc_pools cfg)) 0 c) by (unfold c0; by destruct c) end.
    apply HQ; [rewrite Hslots; by apply H2|]. destruct (Hu uris eq_refl) as [-> Hall]. split.
    - rewrite Ev. split; [done|]. transitivity (Some u); [by destruct c|done].
    - replace (pd_pool_uris _) with us by by destruct c. unfold us. by destruct (cc_pools cfg).
    - by destruct c.
    - done. }
  wps. destruct (cc_pools cfg) as [|pc ps] eqn:Eps; cbn [length Nat.ltb Nat.leb] in *; wps.
  - cbn [negb]. wps. by apply Hcopy, H1.
  - destruct (w_alloc W _); cbn [negb]; wps; [by apply Hcopy, accounted_later, H1|].
    rewrite E1. by apply Hfail, accounted_later, H1.
Qed.
(** A producer whose regions are those of the configuration, and whose URIs it
    keeps. *)
Record live (cfg : region_config) (c : tp_producer_t) : Prop := {
  lv_stream : pd_stream_id c = cc_stream_id cfg;
  lv_epoch : pd_epoch c = cc_epoch cfg;
  lv_layout : pd_layout_version c = TP_LAYOUT_VERSION /\ cc_layout_version cfg = TP_LAYOUT_VERSION;
  lv_nslots : pd_header_nslots c = cc_header_nslots cfg /\
              tp_is_power_of_two (cc_header_nslots cfg) = true;
  lv_entries : exists entries, pd_tracelink_entries c = Some entries /\
               length entries = Z.to_nat (cc_header_nslots cfg);
  lv_header : region_ready W false (header_expected cfg) (pd_header_region c);
  lv_pools : Forall2 (pool_ready W false cfg) (cc_pools cfg) (default [] (pd_pools c));
  lv_count : pd_pool_count c = length (cc_pools cfg) /\ pools_ok c;
  lv_uris : uris_kept cfg c;
}.

Inductive attach_result (cfg : region_config) : res unit -> tp_producer_t -> Prop :=
  | attach_live c : live cfg c -> pd_reattach_requested c = false -> attach_result cfg (Ok tt) c
  | attach_failed e c : unmapped c -> attach_result cfg (Err e) c.

Definition with_regions (h : attached_region) (pools : ptr (list attached_pool)) (c : tp_producer_t)
    : tp_producer_t := c <| pd_header_region := h |> <| pd_pools := pools |>.

(** Freshly allocated pools, or none. *)
Definition fresh_pools (cfg : region_config) : ptr (list attached_pool) :=
  match cc_pools cfg with [] => NULL | ps => Some (replicate (length ps) zero_pool) end.

Lemma producer_attach_regions_spec F cfg c p ev (Q : _ -> machine -> Prop) :
  pd_pools c = fresh_pools cfg -> free (rn_region (pd_header_region c)) -> accounted (slots c) p ->
  (forall h pools p', let c' := with_regions h pools c in accounted (slots c') p' ->
     region_ready W false (header_expected cfg) h ->
     Forall2 (pool_ready W false cfg) (cc_pools cfg) (default [] pools) ->
     (pools = NULL -> cc_pools cfg = []) ->
     Q (Ok tt) {| ma_state := c'; ma_process := p'; ma_events := ev |}) ->
  (forall err h pools p', let c' := with_regions h pools c in accounted (slots c') p' ->
     length (default [] pools) = length (cc_pools cfg) ->
     Q (Err err) {| ma_state := c'; ma_process := p'; ma_events := ev |}) ->
  wp F (attach_regions W cfg) Q {| ma_state := c; ma_process := p; ma_events := ev |}.
Proof.
  intros Hpools Hf Ha HQ HE. unfold attach_regions. wps.
  assert (Hlen : length (default [] (pd_pools c)) = length (cc_pools cfg)).
  { rewrite Hpools. unfold fresh_pools. destruct (cc_pools cfg); [done|]. cbn. by rewrite length_replicate. }
  apply (attach_header_spec W HK maps0 fds0); [done|done| |].
  2:{ intros err h p' Ha'. cbv beta iota. wps. specialize (HE err h (pd_pools c) p').
      assert (E : with_regions h (pd_pools c) c = put_header h c) by by destruct c.
      cbv zeta in HE. rewrite E in HE. by apply HE. }
  intros h p' Ha' Hh. cbv beta iota. wps.
  destruct (cc_pools cfg) as [|pc ps] eqn:Eps.
  - cbn [attach_pools]. wps. specialize (HQ h NULL p'). cbv zeta in HQ.
    assert (E : with_regions h NULL c = put_header h c).
    { unfold fresh_pools in Hpools. rewrite Eps in Hpools. destruct c. cbn in Hpools. by subst. }
    rewrite E in HQ. apply HQ; [done|done|constructor|done].
  - rewrite <- Eps in *. set (l0 := replicate (length (cc_pools cfg)) zero_pool).
    apply (attach_pools_spec W HK maps0 fds0 F true false cfg _ 0 _ l0).
    + rewrite pools_put_header. change (pools_of c) with (pd_pools c). rewrite Hpools.
      unfold fresh_pools, l0. by rewrite Eps.
    + unfold l0. by rewrite length_replicate.
    + intros j q _ Hq. by apply lookup_replicate in Hq as [-> _].
    + done.
    + intros qs p2. cbn [take app]. change (put_pools (Some qs) (put_header h c)) with (with_regions h (Some qs) c).
      intros Ha2 Hqs. by apply HQ.
    + intros err l' p2. change (put_pools (Some l') (put_header h c)) with (with_regions h (Some l') c).
      unfold l0. rewrite length_replicate. intros Hl Ha2. by apply HE.
Qed.

(** The producer when the configuration has been taken over. *)
Definition configured (producer_id : Z) (cfg : region_config) (c : tp_producer_t) : tp_producer_t :=
  c <| pd_stream_id := cc_stream_id cfg |> <| pd_producer_id := producer_id |>
    <| pd_epoch := cc_epoch cfg |> <| pd_layout_version := cc_layout_version cfg |>
    <| pd_header_nslots := cc_header_nslots cfg |> <| pd_pool_count := length (cc_pools cfg) |>.

(** With entries for the history of descriptors and fresh pools, and nothing to
    attach again. *)
Definition prepared (producer_id : Z) (cfg : region_config) (pools : ptr (list attached_pool))
    (c : tp_producer_t) : tp_producer_t :=
  tp_producer_clear_reattach ((configured producer_id cfg c) <| pd_tracelink_entries :=
    Some (replicate (Z.to_nat (cc_header_nslots cfg)) {| te_seq := TP_NULL_U64; te_trace_id := 0 |}) |>)
  <| pd_pools := pools |>.

Lemma init_entries_spec F c p ev (Q : _ -> machine -> Prop) :
  pd_header_nslots c <> 0 -> accounted (slots c) p ->
  (forall p', accounted (slots c) p' ->
     Q (Ok tt) {| ma_state := tp_producer_clear_reattach (c <| pd_tracelink_entries :=
         Some (replicate (Z.to_nat (pd_header_nslots c)) {| te_seq := TP_NULL_U64; te_trace_id := 0 |}) |>);
       ma_process := p'; ma_events := ev |}) ->
  (forall p', accounted (slots c) p' ->
     Q (Err ENOMEM) {| ma_state := c <| pd_tracelink_entries := NULL |>; ma_process := p'; ma_events := ev |}) ->
  wp F (init_tracelink_entries W) Q {| ma_state := c; ma_process := p; ma_events := ev |}.
Proof.
  intros Hn Ha HQ HE. unfold init_tracelink_entries. wps.
  destruct (Z.eqb_spec (pd_header_nslots c) 0); [done|]. wps. unfold tp_producer_init_tracelink_entries.
  cbn [tl_header_nslots]. destruct (Z.eqb_spec (pd_header_nslots c) 0); [done|].
  destruct (w_alloc W _); cbn [negb set_entries tl_entries]; wps.
  - by apply HQ, accounted_later.
  - by apply HE, accounted_later.
Qed.

(** The regions are attached and the URIs kept, or everything is given up. *)
Lemma attach_prepared_spec F producer_id cfg c p ev (Q : _ -> machine -> Prop) :
  let c1 := prepared producer_id cfg (fresh_pools cfg) c in
  free (rn_region (pd_header_region c)) -> accounted (slots c1) p ->
  cc_layout_version cfg = TP_LAYOUT_VERSION -> tp_is_power_of_two (cc_header_nslots cfg) = true ->
  (forall r c' p', accounted (slots c') p' -> attach_result cfg r c' ->
     Q r {| ma_state := c'; ma_process := p'; ma_events := ev |}) ->
  wp F (attach_regions W cfg)
    (fun r => wp F (match r with
      | Err e => attach_cleanup W e
      | Ok _ =>
        let+ r := tp_producer_store_shm_uris W cfg in
        match r with
        | Err e => attach_cleanup W e
        | Ok _ => give (Ok tt)
        end
      end) Q) {| ma_state := c1; ma_process := p; ma_events := ev |}.
Proof.
  intros c1 Hf Ha Hl Hn HQ.
  assert (Hclean : forall e c' p', pools_ok c' -> accounted (slots c') p' ->
    wp F (attach_cleanup W e) Q {| ma_state := c'; ma_process := p'; ma_events := ev |}).
  { intros e c' p' Hp Ha'. apply producer_attach_cleanup_spec; [done|done|]. intros p2 Ha2.
    apply HQ; [done|]. constructor. apply cleaned_unmapped. }
  assert (Hok : forall h pools, length (default [] pools) = length (cc_pools cfg) ->
    pools_ok (with_regions h pools c1)).
  { intros h pools Hlen. unfold pools_ok. cbn -[with_regions].
    replace (pd_pools (with_regions h pools c1)) with pools by (unfold c1; by destruct c).
    replace (pd_pool_count (with_regions h pools c1)) with (length (cc_pools cfg)) by (unfold c1; by destruct c).
    by destruct pools. }
  apply producer_attach_regions_spec; [unfold c1; by destruct c|unfold c1; by destruct c|done| |].
  2:{ intros err h pools p' c' Ha' Hlen. cbv beta iota. apply Hclean; [by apply Hok|done]. }
  intros h pools p' c' Ha' Hh Hps Hnull. cbv beta iota. wps.
  apply Forall2_length in Hps as Hlen. symmetry in Hlen. pose proof (Hok h pools Hlen) as Hpok.
  apply store_uris_spec; [done| |].
  - intros hu us p2 c2 Ha2 Hu. cbv beta iota. wps. apply HQ; [done|].
    constructor; [|unfold c2, c', c1; by destruct c].
    split; try (unfold c2, c', c1; by destruct c).
    eexists. split; [unfold c2, c', c1; by destruct c|]. by rewrite length_replicate.
  - intros p2 c2 Ha2. cbv beta iota. apply Hclean; [|done]. unfold pools_ok in *. cbn in *.
    unfold c2, c', c1 in *. by destruct c.
Qed.

Lemma producer_attach_config_spec producer_id cfg c p ev (Q : _ -> machine -> Prop) :
  unmapped c -> accounted (slots c) p ->
  (forall r c' p', accounted (slots c') p' -> attach_result cfg r c' ->
     Q r {| ma_state := c'; ma_process := p'; ma_events := ev |}) ->
  wp (cc_layout_version cfg <> TP_LAYOUT_VERSION) (tp_producer_attach_config W producer_id cfg) Q
    {| ma_state := c; ma_process := p; ma_events := ev |}.
Proof.
  intros Hu Ha HQ. unfold tp_producer_attach_config. wps.
  set (c0 := apply_update _ _). assert (E0 : c0 = configured producer_id cfg c) by (unfold c0; by destruct c).
  clearbody c0. subst c0.
  assert (Hslots : forall e, slots ((configured producer_id cfg c) <| pd_tracelink_entries := e |>) = slots c)
    by (intros; by destruct c).
  assert (Hs0 : slots (configured producer_id cfg c) = slots c) by by destruct c.
  assert (Hu0 : unmapped (configured producer_id cfg c)) by (destruct Hu, c; by split).
  destruct (Z.eqb_spec (cc_layout_version cfg) TP_LAYOUT_VERSION) as [Hl|Hl]; cbn [negb].
  2:{ eapply wp_weaken; [|apply attach_cleanup_null; [done|by rewrite Hs0|]]; [done|].
      intros p' Ha'. apply HQ; [done|]. constructor. apply cleaned_unmapped. }
  destruct (tp_is_power_of_two (cc_header_nslots cfg)) eqn:Hn; cbn [negb].
  2:{ wps. apply HQ; [by rewrite Hs0|by constructor]. }
  wps. apply init_entries_spec; [|by rewrite Hs0| |].
  { replace (pd_header_nslots _) with (cc_header_nslots cfg) by by destruct c.
    intros E. by rewrite E in Hn. }
  2:{ intros p' Ha'. cbv beta iota. wps. apply HQ; [by rewrite Hslots, <- Hs0|]. constructor.
      destruct Hu, c; by split. }
  intros p' Ha'. cbv beta iota. rewrite Hs0 in Ha'. set (c1 := tp_producer_clear_reattach _).
  assert (E1 : forall pools, c1 <| pd_pools := pools |> = prepared producer_id cfg pools c)
    by (intros; unfold c1; by destruct c).
  assert (Hs1 : forall p2, accounted (slots c) p2 ->
    accounted (slots (prepared producer_id cfg (fresh_pools cfg) c)) p2).
  { intros p2. apply accounted_nothing; [by apply producer_unmapped_nothing|]. destruct Hu as [_ Hf].
    unfold nothing_mapped, slots. constructor; [by destruct c|].
    replace (pools_of _) with (fresh_pools cfg) by by destruct c. apply Forall_fmap. unfold fresh_pools.
    destruct (cc_pools cfg); [constructor|]. by apply Forall_replicate. }
  pose proof (E1 (fresh_pools cfg)) as E2. unfold fresh_pools in E2 at 1.
  destruct (cc_pools cfg) as [|pc ps] eqn:Eps; cbn [length Nat.ltb Nat.leb]; wps; cbn [negb]; wps.
  - assert (Ec : c1 = c1 <| pd_pools := NULL |>) by (unfold c1; destruct Hu as [Eu _], c; cbn in Eu; by subst).
    rewrite Ec, E2. apply attach_prepared_spec; [by destruct Hu|by apply Hs1|done|done|done].
  - destruct (w_alloc W _); cbn [negb]; wps.
    + change (length (pc :: ps)) with (S (length ps)) in E2. rewrite E2.
      apply attach_prepared_spec; [by destruct Hu|by apply Hs1, accounted_later|done|done|done].
    + rewrite E1. apply HQ; [|constructor; destruct Hu, c; by split].
      eapply accounted_nothing; [by apply producer_unmapped_nothing| |by apply accounted_later].
      apply producer_unmapped_nothing. destruct Hu, c; by split.
Qed.
(** ** Between the operations *)

(** A producer has the regions of one configuration, or none. *)
Definition consistent (c : tp_producer_t) : Prop := unmapped c \/ exists cfg, live cfg c.

Lemma consistent_count c : consistent c -> count_ok c.
Proof.
  intros [Hu|[cfg Hl]]; [by apply unmapped_count|]. intros l El.
  pose proof (proj2 (lv_count _ _ Hl)) as Hp. unfold pools_ok in Hp. cbn in Hp. by rewrite El in Hp.
Qed.

(** Every change of fields that say nothing about the regions. *)
Definition elsewhere (c c' : tp_producer_t) : Prop :=
  pd_header_region c' = pd_header_region c /\ pd_pools c' = pd_pools c /\
  pd_pool_count c' = pd_pool_count c /\ pd_stream_id c' = pd_stream_id c /\
  pd_epoch c' = pd_epoch c /\ pd_layout_version c' = pd_layout_version c /\
  pd_header_nslots c' = pd_header_nslots c /\ pd_tracelink_entries c' = pd_tracelink_entries c /\
  pd_header_uri c' = pd_header_uri c /\ pd_pool_uris c' = pd_pool_uris c /\
  pd_pool_uri_count c' = pd_pool_uri_count c.

Lemma producer_live_elsewhere cfg c c' : elsewhere c c' -> live cfg c -> live cfg c'.
Proof.
  intros (E1 & E2 & E3 & E4 & E5 & E6 & E7 & E8 & E9 & E10 & E11) [? ? ? ? ? ? ? [? Hp] []].
  split; rewrite ?E1, ?E2, ?E3, ?E4, ?E5, ?E6, ?E7, ?E8; try done.
  - split; [done|]. unfold pools_ok in *. cbn in *. by rewrite E2, E3.
  - split; by rewrite ?E9, ?E10, ?E11.
Qed.

Lemma consistent_elsewhere c c' : elsewhere c c' -> consistent c -> consistent c'.
Proof.
  intros He [[E Hf]|[cfg Hl]]; [left|right; exists cfg; by eapply producer_live_elsewhere].
  destruct He as (E1 & E2 & _). split; by rewrite ?E1, ?E2.
Qed.

Lemma slots_elsewhere c c' : elsewhere c c' -> slots c' = slots c.
Proof. intros (E1 & E2 & _). unfold slots. cbn. by rewrite E1, E2. Qed.

Lemma pools_ok_elsewhere c c' : elsewhere c c' -> pools_ok c -> pools_ok c'.
Proof. intros (_ & E2 & E3 & _). unfold pools_ok. cbn. by rewrite E2, E3. Qed.

Lemma given_up_pools_ok c : pools_ok (given_up c).
Proof. by destruct c. Qed.

(** The process went on without opening or closing anything. *)
Definition quiet (p p' : process) : Prop := forall R, accounted R p -> accounted R p'.

(** What holds throughout a poll that began with [c0]; [F] when a NULL pointer may
    be followed. *)
Record steady (F : Prop) (c0 : tp_producer_t) (s : machine) : Prop := {
  sd_consistent : consistent (ma_state s);
  sd_accounted : accounted (slots (ma_state s)) (ma_process s);
  sd_pools : F \/ pools_ok (ma_state s);
  sd_activity : pd_last_activity_ns (ma_state s) = pd_last_activity_ns c0;
  sd_settings : pd_settings (ma_state s) = pd_settings c0;
}.

Lemma steady_step F c0 c p ev c' p' ev' :
  steady F c0 {| ma_state := c; ma_process := p; ma_events := ev |} ->
  elsewhere c c' -> pd_last_activity_ns c' = pd_last_activity_ns c -> pd_settings c' = pd_settings c ->
  p' = p \/ p' = later p ->
  steady F c0 {| ma_state := c'; ma_process := p'; ma_events := ev' |}.
Proof.
  intros [Hc Ha Hp Hact Hset] He Ea Es Hpp. cbn [ma_state ma_process] in *. split; cbn [ma_state ma_process].
  - by eapply consistent_elsewhere.
  - rewrite (slots_elsewhere _ _ He). destruct Hpp as [-> | ->]; [done|by apply accounted_later].
  - destruct Hp; [by left|right; by eapply pools_ok_elsewhere].
  - congruence.
  - congruence.
Qed.

(** The step of a computation that only touches other fields. *)
Ltac steady_tac :=
  lazymatch goal with
  | Hs : steady _ ?c0 {| ma_state := ?c; ma_process := _; ma_events := _ |} |- steady _ ?c0 {| ma_state := _ |} =>
    eapply (steady_step _ _ _ _ _ _ _ _ Hs);
      [by destruct c|by destruct c|by destruct c|(by left) || (by right)]
  end.

Lemma steady_unmap_spec F c0 c p ev (Q : unit -> machine -> Prop) :
  steady F c0 {| ma_state := c; ma_process := p; ma_events := ev |} ->
  (forall p', steady F c0 {| ma_state := given_up c; ma_process := p'; ma_events := ev |} ->
     Q tt {| ma_state := given_up c; ma_process := p'; ma_events := ev |}) ->
  wp F (tp_producer_unmap_regions W) Q {| ma_state := c; ma_process := p; ma_events := ev |}.
Proof.
  intros [Hc Ha _ Hact Hset] HQ. apply producer_unmap_regions_spec; [by apply consistent_count|done|].
  intros p' Ha'. apply HQ. split; cbn [ma_state ma_process].
  - left. apply given_up_unmapped.
  - done.
  - right. apply given_up_pools_ok.
  - by destruct c.
  - by destruct c.
Qed.

(** No decoder reads past the end of these. *)
Record control_safe (b : bytes) : Prop := {
  cs_hello : tp_control_decode_consumer_hello b <> OutOfBounds;
  cs_revoked : tp_driver_decode_lease_revoked b <> OutOfBounds;
  cs_shutdown : tp_driver_decode_shutdown b <> OutOfBounds;
}.

Lemma producer_on_lease_revoked_spec F c0 r s :
  steady F c0 s -> wp F (on_lease_revoked W r) (fun _ => steady F c0) s.
Proof.
  destruct s as [c p ev]. intros Hs. unfold on_lease_revoked. wps.
  destruct (_ && _); wps; [|done].
  assert (Hs1 : steady F c0 {| ma_state := c; ma_process := later p; ma_events := ev ++ [ProducerLeaseRevoked r] |})
    by steady_tac.
  apply (steady_unmap_spec F c0); [done|]. intros p' Hs2. wps.
  eapply steady_step; [exact Hs2|..]; [| | |by left];
    unfold tp_producer_schedule_reattach; case_match; by destruct c.
Qed.

Lemma producer_control_handler_spec F c0 b s :
  F \/ control_safe b -> steady F c0 s -> wp F (tp_producer_control_handler W A b) (fun _ => steady F c0) s.
Proof.
  destruct s as [c p ev]. intros Hb Hs. unfold tp_producer_control_handler. wps.
  assert (Hhello : forall m hello, wp F (on_hello W A m hello) (fun _ => steady F c0)
    {| ma_state := c; ma_process := p; ma_events := ev |}).
  { intros m hello. unfold on_hello. wps. destruct (tp_consumer_manager_handle_hello _ _ _ _ _) as [[? ?] ?].
    steady_tac. }
  assert (Hfault : F -> wp F fault (fun (_ : unit) => steady F c0)
    {| ma_state := c; ma_process := p; ma_events := ev |}) by done.
  assert (Hshut : forall e, steady F c0 {| ma_state := c; ma_process := p; ma_events := ev ++ [e] |})
    by (intros; steady_tac).
  repeat case_match; wps;
    first [done|apply Hhello|by apply producer_on_lease_revoked_spec|apply Hshut|idtac];
    (apply Hfault; destruct Hb as [?|[]]; [done|congruence]).
Qed.

Lemma qos_event_spec F c0 e s :
  steady F c0 s -> wp F (tp_producer_qos_event_handler W e) (fun _ => steady F c0) s.
Proof.
  destruct s as [c p ev]. intros Hs. unfold tp_producer_qos_event_handler. wps.
  repeat case_match; wps; try done. steady_tac.
Qed.

(** A loop keeps what every step keeps. *)
Lemma for_each_keeps {B} (F : Prop) (P : machine -> Prop) (f : B -> C unit) l s :
  (forall a s, a ∈ l -> P s -> wp F (f a) (fun _ => P) s) -> P s -> wp F (for_each f l) (fun _ => P) s.
Proof.
  revert s. induction l as [|a l IH]; intros s Hf Hs; cbn [for_each]; wps; [done|].
  eapply wp_mono; [apply Hf; [left|done]|]. intros ? s' Hs'. apply IH; [|done].
  intros b s2 Hb. apply Hf. by right.
Qed.

Definition qos_safe (b : bytes) : Prop := tp_qos_poller_handler true b <> None.

Lemma poll_qos_spec F c0 fragments s :
  F \/ (forall l, fragments = Ok l -> Forall qos_safe l) -> steady F c0 s ->
  wp F (tp_producer_poll_qos W fragments) (fun _ => steady F c0) s.
Proof.
  intros Hf Hs. unfold tp_producer_poll_qos. wps.
  assert (Hpoll : forall s, steady F c0 s ->
    wp F (match fragments with
          | Err e => give (Err e)
          | Ok fragments => do+ for_each (qos_fragment W) fragments in give (Ok tt)
          end) (fun _ => steady F c0) s).
  { intros s1 Hs1. destruct fragments as [l|e]; wps; [|done].
    eapply wp_mono; [apply (for_each_keeps F (steady F c0))|]; [|done|intros ? s2 Hs2; by wps].
    intros b s2 Hb Hs2. unfold qos_fragment. destruct (tp_qos_poller_handler true b) as [es|] eqn:Eq.
    - apply for_each_keeps; [|done]. intros e s3 _. apply qos_event_spec.
    - destruct Hf as [?|Hall]; [done|]. specialize (Hall l eq_refl). rewrite Forall_forall in Hall.
      by destruct (Hall b Hb). }
  destruct s as [c p ev]. destruct (pd_qos_poller _); wps; [by apply Hpoll|].
  destruct (w_alloc W _); cbn [negb]; wps; cbn [negb]; wps; [|steady_tac].
  destruct (w_alloc W _); cbn [negb]; wps.
  - apply Hpoll. assert (steady F c0 {| ma_state := c; ma_process := later p; ma_events := ev |}) as Hs1 by steady_tac.
    clear Hs. steady_tac.
  - assert (steady F c0 {| ma_state := c; ma_process := later p; ma_events := ev |}) as Hs1 by steady_tac.
    clear Hs. steady_tac.
Qed.

(** Sending leaves the producer as it is. *)
Lemma send_spec F c0 pub len items s (Q : bool -> machine -> Prop) :
  steady F c0 s -> (forall r s', ma_state s' = ma_state s -> steady F c0 s' -> Q r s') ->
  wp F (send W pub len items) Q s.
Proof.
  destruct s as [c p ev]. intros Hs HQ. unfold send.
  destruct pub as [pub|]; [|wps; by apply HQ]. destruct items as [items|]; [|wps; by apply HQ].
  destruct (encode _ _); wps; [|by apply HQ]. apply HQ; [done|steady_tac].
Qed.
(** The reports and announcements at the period. *)
Lemma report_spec {B} F c0 (test : tp_producer_t -> bool) (m : tp_producer_t -> C B)
    (k : B -> C unit) s :
  steady F c0 s ->
  (forall c s, steady F c0 s -> ma_state s = c -> wp F (m c) (fun r => wp F (k r) (fun _ => steady F c0)) s) ->
  wp F (let+ c := get in if test c then let+ r := m c in k r else give tt) (fun _ => steady F c0) s.
Proof. intros Hs Hm. wps. destruct (test _); wps; [by apply Hm|done]. Qed.

Lemma producer_report_qos_spec F c0 now_ns s :
  steady F c0 s -> wp F (report_qos W now_ns) (fun _ => steady F c0) s.
Proof.
  intros Hs. apply (report_spec F c0 (fun c => _)); [done|]. intros c s1 Hs1 _.
  apply (send_spec F c0); [done|]. intros r [c' p' ev'] _ Hs'. wps. steady_tac.
Qed.

Lemma announce_source_spec F c0 now_ns s :
  steady F c0 s -> wp F (announce_source W now_ns) (fun _ => steady F c0) s.
Proof.
  intros Hs. apply (report_spec F c0 (fun c => _)); [done|]. intros c s1 Hs1 _.
  apply (send_spec F c0); [done|]. intros r [c' p' ev'] _ Hs'. wps. steady_tac.
Qed.

Lemma report_meta_spec F c0 now_ns s :
  steady F c0 s -> wp F (report_meta W now_ns) (fun _ => steady F c0) s.
Proof.
  intros Hs. apply (report_spec F c0 (fun c => _)); [done|]. intros c s1 Hs1 _.
  apply (send_spec F c0); [done|]. intros r [c' p' ev'] _ Hs'. wps. steady_tac.
Qed.

Lemma publish_announce_spec F c0 now_ns s :
  steady F c0 s -> wp F (tp_producer_publish_shm_pool_announce W now_ns) (fun _ => steady F c0) s.
Proof.
  destruct s as [c p ev]. intros Hs. unfold tp_producer_publish_shm_pool_announce. wps.
  destruct (pd_control_publication c), (pd_pools c), (pd_header_uri c); wps; try done.
  destruct (_ =? 0)%nat; wps; [done|]. destruct (w_alloc W _); cbn [negb]; wps; [|steady_tac].
  assert (Hs1 : steady F c0 {| ma_state := c; ma_process := later p; ma_events := ev |}) by steady_tac.
  clear Hs. destruct (tp_producer_send_shm_pool_announce _); wps; [|done].
  assert (Hs2 : steady F c0 {| ma_state := c; ma_process := later (later p); ma_events := ev |}) by steady_tac.
  destruct (w_alloc W _); wps; [|done]. apply (send_spec F c0); [done|]. by intros.
Qed.

Lemma announce_pools_spec F c0 now_ns s :
  steady F c0 s -> wp F (announce_pools W now_ns) (fun _ => steady F c0) s.
Proof.
  intros Hs. apply (report_spec F c0 (fun c => _)); [done|]. intros c s1 Hs1 _.
  eapply wp_mono; [by apply (publish_announce_spec F c0)|]. intros r [c' p' ev'] Hs'.
  destruct r; wps; [steady_tac|done].
Qed.

(** One stamp for every region there is. *)
Definition stamps (now_ns : Z) (R : list tp_shm_region_t) : list producer_event :=
  (fun r => ActivityStamped (rg_addr r) now_ns) <$> filter mapped R.

Lemma stamp_spec F now_ns r c p ev (Q : unit -> machine -> Prop) :
  Q tt {| ma_state := c; ma_process := p; ma_events := ev ++ stamps now_ns [rn_region r] |} ->
  wp F (stamp now_ns r) Q {| ma_state := c; ma_process := p; ma_events := ev |}.
Proof.
  intros HQ. unfold stamp, stamps in *. destruct (Z.eqb_spec (rg_addr (rn_region r)) 0) as [E|E]; wps.
  - by rewrite filter_cons_False, filter_nil, app_nil_r in HQ by (unfold mapped; congruence).
  - by rewrite filter_cons_True, filter_nil in HQ.
Qed.

Lemma stamps_app now_ns R R' : stamps now_ns (R ++ R') = stamps now_ns R ++ stamps now_ns R'.
Proof. unfold stamps. by rewrite filter_app, fmap_app. Qed.

Lemma stamp_pools_spec F now_ns c p l n : forall k ev (Q : unit -> machine -> Prop),
  pd_pools c = Some l -> (k + n = length l)%nat ->
  Q tt {| ma_state := c; ma_process := p;
          ma_events := ev ++ stamps now_ns ((fun q => rn_region (po_region q)) <$> drop k l) |} ->
  wp F (for_each (fun i => let+ q := get_pool i in stamp now_ns (po_region q)) (seq k n)) Q
    {| ma_state := c; ma_process := p; ma_events := ev |}.
Proof.
  induction n as [|n IH]; intros k ev Q El Hk HQ; cbn [seq for_each]; wps.
  { rewrite drop_ge in HQ by lia. cbn in HQ. by rewrite app_nil_r in HQ. }
  destruct (lookup_lt_is_Some_2 l k) as [q Hq]; [lia|].
  apply (get_pool_spec F k c l q); [done|done|done|]. apply stamp_spec.
  apply (IH (S k)); [done|lia|]. rewrite (drop_S l q k Hq) in HQ. rewrite fmap_cons in HQ.
  change (rn_region (po_region q) :: ?R) with ([rn_region (po_region q)] ++ R) in HQ.
  by rewrite stamps_app, app_assoc in HQ.
Qed.

Lemma update_activity_spec F now_ns c p ev (Q : unit -> machine -> Prop) :
  F \/ pools_ok c ->
  (forall ev', F \/ ev' = ev ++ stamps now_ns (slots c) ->
     Q tt {| ma_state := c; ma_process := p; ma_events := ev' |}) ->
  wp F (tp_producer_update_activity now_ns) Q {| ma_state := c; ma_process := p; ma_events := ev |}.
Proof.
  intros Hp HQ. unfold tp_producer_update_activity. wps. apply stamp_spec.
  destruct Hp as [HF|Hp].
  - eapply wp_mono; [apply (for_each_keeps F (fun s => exists ev', s = {| ma_state := c; ma_process := p; ma_events := ev' |}))|].
    + intros i s _ (ev' & ->). unfold get_pool. wps. destruct (_ ≫= _); [|done]. wps.
      apply stamp_spec. by eexists.
    + by eexists.
    + intros [] s (ev' & ->). apply HQ. by left.
  - unfold pools_ok in Hp. cbn in Hp. unfold slots in HQ. cbn [header_of pools_of producer_holder] in HQ.
    change (?r :: ?R) with ([r] ++ R) in HQ. rewrite stamps_app, app_assoc in HQ.
    destruct (pd_pools c) as [l|] eqn:El; rewrite Hp.
    + apply (stamp_pools_spec F now_ns c p l); [done|done|]. rewrite drop_0. apply HQ. by right.
    + cbn [seq for_each]. wps. apply HQ. right. cbn. by rewrite app_nil_r.
Qed.

(** What a poll that began with [c0] and got to its end shows: at the period every
    region there is, is stamped with the same time. *)
Definition shown (c0 : tp_producer_t) (s : machine) : Prop :=
  exists t earlier, let now_ns := u64 (w_clock_ns W t) in
    let due := (period c0 =? 0) || is_due c0 (pd_last_activity_ns c0) now_ns in
    ma_events s = earlier ++ (if due then stamps now_ns (slots (ma_state s)) else []) /\
    pd_last_activity_ns (ma_state s) = (if due then now_ns else pd_last_activity_ns c0).

(** What holds after a poll. *)
Record settled (F : Prop) (s : machine) : Prop := {
  st_consistent : consistent (ma_state s);
  st_accounted : accounted (slots (ma_state s)) (ma_process s);
  st_pools : F \/ pools_ok (ma_state s);
}.

Lemma steady_settled F c0 s : steady F c0 s -> settled F s.
Proof. by intros []. Qed.

Lemma settled_step F c p ev c' p' ev' :
  settled F {| ma_state := c; ma_process := p; ma_events := ev |} -> elsewhere c c' ->
  p' = p \/ p' = later p ->
  settled F {| ma_state := c'; ma_process := p'; ma_events := ev' |}.
Proof.
  intros [Hc Ha Hp] He Hpp. cbn [ma_state ma_process] in *. split; cbn [ma_state ma_process].
  - by eapply consistent_elsewhere.
  - rewrite (slots_elsewhere _ _ He). destruct Hpp as [-> | ->]; [done|by apply accounted_later].
  - destruct Hp; [by left|right; by eapply pools_ok_elsewhere].
Qed.

Definition poll_post (F : Prop) (c0 : tp_producer_t) (r : res unit) (s : machine) : Prop :=
  settled F s /\ (r = Ok tt -> F \/ shown c0 s).

Lemma show_activity_spec F c0 t s :
  steady F c0 s -> wp F (show_activity (u64 (w_clock_ns W t))) (fun _ => poll_post F c0 (Ok tt)) s.
Proof.
  destruct s as [c p ev]. intros Hs. unfold show_activity. wps. set (now_ns := u64 _).
  assert (Edue : (period c =? 0) || is_due c (pd_last_activity_ns c) now_ns =
                 (period c0 =? 0) || is_due c0 (pd_last_activity_ns c0) now_ns).
  { destruct Hs as [_ _ _ Ea Es]. cbn [ma_state] in *. unfold is_due, period. by rewrite Ea, Es. }
  rewrite Edue. clear Edue. set (due := _ || _). destruct due eqn:E; wps.
  - apply update_activity_spec; [apply Hs|]. intros ev' Hev. wps.
    set (c' := c <| pd_last_activity_ns := now_ns |>).
    assert (He : elsewhere c c') by (unfold c'; by destruct c).
    split; [eapply settled_step; [by apply (steady_settled _ c0)|done|by left]|]. intros _.
    destruct Hev as [HF| ->]; [by left|right]. exists t, ev. fold now_ns. cbv zeta. fold due. rewrite E.
    cbn [ma_state ma_events]. rewrite (slots_elsewhere _ _ He). split; [done|]. unfold c'. by destruct c.
  - split; [by eapply steady_settled|]. intros _. right. exists t, ev. fold now_ns. cbv zeta. fold due. rewrite E.
    rewrite app_nil_r. split; [done|]. apply Hs.
Qed.

Lemma poll_periodic_spec F c0 s :
  steady F c0 s -> wp F (poll_periodic W) (fun _ => poll_post F c0 (Ok tt)) s.
Proof.
  destruct s as [c p ev]. intros Hs. unfold poll_periodic. wps. set (now_ns := u64 _).
  assert (Hs1 : steady F c0 {| ma_state := c; ma_process := later p; ma_events := ev |}) by steady_tac.
  destruct (0 <? period c); wps; [|by apply show_activity_spec].
  eapply wp_mono; [by apply (producer_report_qos_spec F c0)|]. intros ? s1 H1. wps.
  eapply wp_mono; [by apply (announce_pools_spec F c0)|]. intros ? s2 H2. wps.
  eapply wp_mono; [by apply (announce_source_spec F c0)|]. intros ? s3 H3.
  eapply wp_mono; [by apply (report_meta_spec F c0)|]. intros ? s4 H4. by apply show_activity_spec.
Qed.

(** Fragments that nothing reads beyond. *)
Definition polls_safe (control qos : res (list bytes)) : Prop :=
  (forall l, control = Ok l -> Forall control_safe l) /\ (forall l, qos = Ok l -> Forall qos_safe l).

Lemma poll_consumers_spec F c0 qos s :
  F \/ (forall l, qos = Ok l -> Forall qos_safe l) -> steady F c0 s ->
  wp F (poll_consumers W qos) (fun _ => steady F c0) s.
Proof.
  intros Hf Hs. unfold poll_consumers. wps. destruct (pd_consumer_manager _); wps; [|done].
  eapply wp_mono; [by apply (poll_qos_spec F c0)|]. intros [[]|e] [c p ev] Hs1; wps; [|done].
  destruct (pd_consumer_manager _); wps; [|done]. unfold sweep_consumers. wps.
  destruct (tp_consumer_manager_sweep _ _ _ _) as [[? ?] ?]. clear Hs. steady_tac.
Qed.

Lemma poll_assembled_spec F c0 control qos s :
  F \/ polls_safe control qos -> steady F c0 s ->
  wp F (poll_assembled W A control qos) (poll_post F c0) s.
Proof.
  intros Hf Hs. unfold poll_assembled.
  assert (Hfail : forall e s, steady F c0 s -> poll_post F c0 (Err e) s)
    by (intros e s1 Hs1; split; [by eapply steady_settled|done]).
  destruct control as [fragments|e]; wps; [|by apply Hfail].
  eapply wp_mono; [apply (for_each_keeps F (steady F c0))|]; [|done|].
  { intros b s1 Hb. apply producer_control_handler_spec. destruct Hf as [?|[Hc _]]; [by left|right].
    specialize (Hc _ eq_refl). rewrite Forall_forall in Hc. by apply Hc. }
  intros ? s1 Hs1. wps. eapply wp_mono; [apply (poll_consumers_spec F c0); [|done]|].
  { destruct Hf as [?|[_ ?]]; [by left|by right]. }
  intros [[]|e] s2 Hs2; wps; [|by apply Hfail].
  eapply wp_mono; [by apply (poll_periodic_spec F c0)|]. intros ? s3 Hs3. by wps.
Qed.

Lemma poll_spec F control qos s :
  F \/ polls_safe control qos -> settled F s ->
  wp F (tp_producer_poll_control_internal W A control qos) (poll_post F (ma_state s)) s.
Proof.
  destruct s as [c p ev]. intros Hf Hset. unfold tp_producer_poll_control_internal. wps.
  assert (Hs : steady F c {| ma_state := c; ma_process := p; ma_events := ev |}) by (by destruct Hset).
  destruct (pd_control_assembler c); wps; [by apply poll_assembled_spec|].
  destruct (w_alloc W _); wps.
  - apply poll_assembled_spec; [done|]. steady_tac.
  - split; [|done]. apply (steady_settled _ c). steady_tac.
Qed.

(** ** Attaching, from a producer without regions *)

Lemma unmapped_elsewhere c c' : elsewhere c c' -> unmapped c -> unmapped c'.
Proof. intros (E1 & E2 & _) []. by split; rewrite ?E1, ?E2. Qed.

(** What attaching leaves, whatever comes of it. *)
Definition attach_post (r : res unit) (s : machine) : Prop :=
  settled True s /\
  match r with
  | Ok _ => pools_ok (ma_state s) /\ exists cfg, live cfg (ma_state s)
  | Err _ => unmapped (ma_state s)
  end.

Lemma attach_result_post cfg r c p ev :
  accounted (slots c) p -> attach_result cfg r c ->
  attach_post r {| ma_state := c; ma_process := p; ma_events := ev |}.
Proof.
  intros Ha Hr. revert Ha. destruct Hr as [c' Hl _|e c' Hu]; intros Ha; (split; [split; [| |by left]|]); cbn [ma_state ma_process].
  - right. by exists cfg.
  - exact Ha.
  - split; [apply Hl|by exists cfg].
  - by left.
  - exact Ha.
  - exact Hu.
Qed.

Lemma producer_take_attach_info_spec info c p ev :
  unmapped c -> accounted (slots c) p ->
  wp True (take_attach_info W info) attach_post {| ma_state := c; ma_process := p; ma_events := ev |}.
Proof.
  intros Hu Ha. unfold take_attach_info. destruct (negb _); wps.
  { split; [split; [by left|done|by left]|done]. }
  set (c1 := c <| pd_driver_attached := true |>).
  assert (He : elsewhere c c1) by (unfold c1; by destruct c).
  assert (Hu1 : unmapped c1) by by eapply unmapped_elsewhere.
  assert (Ha1 : accounted (slots c1) (later p)) by (rewrite (slots_elsewhere _ _ He); by apply accounted_later).
  assert (Hend : forall r s, attach_post r s -> wp True (match r with
    | Ok _ => give (Ok tt)
    | Err e => do+ modify (fun c => c <| pd_driver_attached := false |>) in give (Err e)
    end) attach_post s).
  { intros r [c2 p2 ev2] [Hs Hr]. destruct r as [[]|e]; wps; [by split|].
    split; [eapply (settled_step True _ _ _ _ _ _ Hs); [by destruct c2|by left]|].
    eapply unmapped_elsewhere; [|exact Hr]. by destruct c2. }
  assert (Hs1 : settled True {| ma_state := c1; ma_process := later p; ma_events := ev |})
    by (split; [by left|done|by left]).
  destruct (w_alloc W _); wps.
  2:{ split; [eapply (settled_step True _ _ _ _ _ _ Hs1); [by destruct c|by left]|].
      eapply unmapped_elsewhere; [|exact Hu1]. unfold c1. by destruct c. }
  eapply wp_weaken; [|apply producer_attach_config_spec; [done|done|]]; [done|].
  intros r c' p' Ha' Hr. apply Hend. by eapply attach_result_post.
Qed.

Lemma producer_attach_poll_spec codes fresh e a c p ev :
  unmapped c -> accounted (slots c) p ->
  wp True (tp_producer_attach_driver_poll W codes fresh e a)
    (fun _ => settled True) {| ma_state := c; ma_process := p; ma_events := ev |}.
Proof.
  intros Hu Ha. unfold tp_producer_attach_driver_poll. wps.
  destruct (pd_driver c) as [d|]; [|done].
  destruct (tp_driver_attach_poll _ _ _ _ _) as [[[r d'] a'] ?]. wps.
  set (c1 := c <| pd_driver := Some d' |>). assert (He : elsewhere c c1) by (unfold c1; by destruct c).
  assert (Hu1 : unmapped c1) by by eapply unmapped_elsewhere.
  assert (Ha1 : accounted (slots c1) p) by by rewrite (slots_elsewhere _ _ He).
  assert (Hs1 : settled True {| ma_state := c1; ma_process := p; ma_events := ev |})
    by (split; [by left|done|by left]).
  destruct r; wps; try done. eapply wp_mono; [by apply producer_take_attach_info_spec|].
  intros r s' [Hs' _]. by wps.
Qed.

Lemma producer_attach_spec corr cl config attach c p ev :
  unmapped c -> accounted (slots c) p ->
  wp True (tp_producer_attach W corr cl config attach) attach_post
    {| ma_state := c; ma_process := p; ma_events := ev |}.
Proof.
  intros Hu Ha. unfold tp_producer_attach. wps.
  assert (Hstay : forall e, attach_post (Err e) {| ma_state := c; ma_process := p; ma_events := ev |})
    by (intros e; split; [split; [by left|done|by left]|done]).
  destruct (px_use_driver _), config as [[id cfg]|]; wps; try done.
  - unfold tp_producer_fill_driver_request. set (request := {| at_correlation_id := _ |}). cbv zeta. wps.
    set (c1 := apply_update _ _). assert (He : elsewhere c c1) by (unfold c1; by destruct c).
    assert (Hu1 : unmapped c1) by by eapply unmapped_elsewhere.
    assert (Ha1 : accounted (slots c1) p) by by rewrite (slots_elsewhere _ _ He).
    destruct (attach _) as [d [info|e]]; cbn [snd]; wps; [by apply producer_take_attach_info_spec|].
    split; [split; [by left|done|by left]|done].
  - eapply wp_weaken; [|apply producer_attach_config_spec; [done|done|]]; [done|].
    intros r c' p' Ha' Hr. by eapply attach_result_post.
Qed.
(** Attaching by itself succeeds only with the regions of the configuration. *)
Lemma own_attach_live corr cl id cfg attach s s' :
  px_use_driver (pd_context (ma_state s)) = false -> unmapped (ma_state s) ->
  accounted (slots (ma_state s)) (ma_process s) ->
  tp_producer_attach W corr cl (Some (id, cfg)) attach s = Some (Ok tt, s') -> live cfg (ma_state s').
Proof.
  destruct s as [c p ev]. cbn [ma_state ma_process]. intros Hd Hu Ha E.
  unfold tp_producer_attach, next, get in E. cbn [ma_state] in E. rewrite Hd in E.
  assert (Hr : attach_result cfg (Ok tt) (ma_state s')).
  { eapply (wp_reached _ _ (fun r s => attach_result cfg r (ma_state s))); [|exact E].
    by apply producer_attach_config_spec. }
  by inversion Hr.
Qed.

(** ** The data source, and the end *)

(** The attributes are counted when there are any. *)
Definition attributes_ok (c : tp_producer_t) : Prop :=
  pd_cached_attrs c = NULL -> pd_cached_attr_count c = 0%nat.

(** Settled, whatever changes elsewhere. *)
Definition keeps_settled {B} (m : C B) : Prop :=
  forall s, settled True s -> wp True m (fun _ => settled True) s.

Lemma keeps_give {B} (b : B) : keeps_settled (give b).
Proof. by intros s Hs. Qed.
Lemma keeps_next {B B'} (m : C B) (k : B -> C B') :
  keeps_settled m -> (forall b, keeps_settled (k b)) -> keeps_settled (next m k).
Proof.
  intros Hm Hk s Hs. apply wp_next. eapply wp_mono; [by apply Hm|]. intros b s' Hs'. by apply Hk.
Qed.
Lemma keeps_ask {B} (f : nat -> B) : keeps_settled (ask f).
Proof. intros [c p ev] Hs. wps. eapply settled_step; [exact Hs|done|by right]. Qed.
Lemma keeps_modify f : (forall c, elsewhere c (f c)) -> keeps_settled (modify f).
Proof. intros Hf [c p ev] Hs. wps. eapply settled_step; [exact Hs|apply Hf|by left]. Qed.
Lemma keeps_fault {B} : keeps_settled (fault (A := B)).
Proof. by intros s Hs. Qed.
Lemma keeps_get {B} (k : tp_producer_t -> C B) :
  (forall c, keeps_settled (k c)) -> keeps_settled (next get k).
Proof. intros Hk s Hs. wps. by apply Hk. Qed.

Ltac keeps :=
  repeat lazymatch goal with
  | |- keeps_settled (next get _) => apply keeps_get; intros ?
  | |- keeps_settled (next _ _) => apply keeps_next; [|intros ?]
  | |- keeps_settled (give _) => apply keeps_give
  | |- keeps_settled fault => apply keeps_fault
  | |- keeps_settled (ask _) => apply keeps_ask
  | |- keeps_settled (modify _) => apply keeps_modify; let c := fresh in intros c; by destruct c
  | |- keeps_settled (if ?b then _ else _) => destruct b
  | |- keeps_settled (match ?x with _ => _ end) => destruct x
  end.

Lemma dup_string_keeps value : keeps_settled (tp_dup_string W value).
Proof. unfold tp_dup_string. keeps. Qed.

Lemma set_announce_keeps a : keeps_settled (tp_producer_set_data_source_announce W a).
Proof. unfold tp_producer_set_data_source_announce. keeps; apply dup_string_keeps. Qed.

Lemma clear_meta_keeps : keeps_settled tp_producer_clear_data_source_meta.
Proof. unfold tp_producer_clear_data_source_meta, tp_producer_clear_cached_meta. keeps. Qed.

Lemma copy_attributes_keeps l : keeps_settled (copy_attributes W l).
Proof.
  induction l as [|a l IH]; cbn [copy_attributes]; keeps; try done.
  unfold copy_attribute. keeps; apply dup_string_keeps.
Qed.

Lemma set_meta_keeps stream version timestamp l :
  keeps_settled (tp_producer_set_data_source_meta W stream version timestamp l).
Proof.
  unfold tp_producer_set_data_source_meta. keeps; first [apply clear_meta_keeps|apply copy_attributes_keeps].
Qed.

Lemma enable_manager_keeps capacity : keeps_settled (tp_producer_enable_consumer_manager W capacity).
Proof. unfold tp_producer_enable_consumer_manager. keeps. Qed.

Lemma producer_close_spec c p ev :
  settled True {| ma_state := c; ma_process := p; ma_events := ev |} ->
  wp (~ attributes_ok c) (tp_producer_close W) (fun _ s =>
      pd_driver (ma_state s) = NULL /\ unmapped (ma_state s) /\
      os_maps (ma_process s) ≡ₚ maps0 /\ os_fds (ma_process s) ≡ₚ fds0)
    {| ma_state := c; ma_process := p; ma_events := ev |}.
Proof.
  intros [Hc Ha _]. cbn [ma_state ma_process] in *. unfold tp_producer_close. wps.
  set (c1 := c <| pd_descriptor_publication := NULL |> <| pd_control_publication := NULL |>
    <| pd_qos_publication := NULL |> <| pd_metadata_publication := NULL |>
    <| pd_control_assembler := false |> <| pd_qos_poller := false |>).
  apply (unmap_header_spec W HK maps0 fds0); [unfold c1; by destruct c|]. intros p1 Ha1. wps.
  apply release_pools_spec; [|done|].
  { apply consistent_count in Hc. unfold c1, count_ok in *. by destruct c. }
  intros p2 Ha2. wps. match goal with |- wp _ _ _ {| ma_state := ?x |} => set (c2 := x) end.
  assert (Hu : unmapped c2 /\ pd_cached_attrs c2 = pd_cached_attrs c /\
               pd_cached_attr_count c2 = pd_cached_attr_count c).
  { unfold c2, c1. destruct c. cbn. by destruct pd_consumer_manager. }
  clearbody c2. destruct Hu as (Hu & E1 & E2).
  assert (Hp : os_maps p2 ≡ₚ maps0 /\ os_fds p2 ≡ₚ fds0).
  { assert (Hn : nothing_mapped ((put_header (empty_region (-1)) c1) <| pd_pools := NULL |>))
      by (apply producer_unmapped_nothing; unfold c1; by destruct c).
    destruct Ha2 as [H1 H2 _]. rewrite (filter_nothing _ Hn) in H1, H2. by cbn in H1, H2. }
  unfold tp_producer_clear_data_source_meta, tp_producer_clear_cached_meta. wps. rewrite E1, E2.
  unfold attributes_ok. destruct (pd_cached_attrs c) as [l|] eqn:Eattrs.
  2: destruct (pd_cached_attr_count c) as [|n] eqn:Ecount; [|unfold wp, next, fault; intros Hx; by specialize (Hx eq_refl)].
  all: wps; destruct (pd_driver _) as [d|]; [destruct (pd_driver_attached _)|]; wps;
    (split; [by destruct c2|split; [destruct Hu, c2; by split|exact Hp]]).
Qed.
End Regions.

(** ** Any run of a producer *)

Section Runs.
Context `{Sbe} (W : world) (A : ConsumerManager.aeron) (HK : kernel_ok (w_kernel W)).
Context (settings : client_settings) (context : tp_producer_context_t) (pubs : publications)
        (media0 : media) (before : process).

Definition new_producer : machine :=
  {| ma_state := producer_init settings context pubs media0; ma_process := before; ma_events := [] |}.

Definition set_producer (s : machine) (c : tp_producer_t) : machine :=
  {| ma_state := c; ma_process := ma_process s; ma_events := ma_events s |}.

(** The machines a producer gets to: it polls whatever arrives, publishes frames,
    says what its data source is, and attaches, by itself or through the driver,
    only while it has nothing mapped. *)
Inductive reached : machine -> Prop :=
  | reached_new : reached new_producer
  | reached_poll s control qos r s' :
      reached s -> tp_producer_poll_control_internal W A control qos s = Some (r, s') -> reached s'
  | reached_publish s seq :
      reached s -> reached (set_producer s ((ma_state s) <| pd_next_seq := seq |>))
  | reached_schedule s now_ns :
      reached s -> reached (set_producer s (tp_producer_schedule_reattach now_ns (ma_state s)))
  | reached_source s a r s' :
      reached s -> tp_producer_set_data_source_announce W a s = Some (r, s') -> reached s'
  | reached_meta s stream version timestamp l r s' :
      reached s -> tp_producer_set_data_source_meta W stream version timestamp l s = Some (r, s') ->
      reached s'
  | reached_manager s capacity r s' :
      reached s -> tp_producer_enable_consumer_manager W capacity s = Some (r, s') -> reached s'
  | reached_async s correlation_id client_id driver a s' :
      reached s ->
      tp_producer_attach_driver_async correlation_id client_id driver s = Some (a, s') -> reached s'
  | reached_attach_poll s codes fresh e a r s' :
      reached s -> unmapped (ma_state s) ->
      tp_producer_attach_driver_poll W codes fresh e a s = Some (r, s') -> reached s'
  | reached_attach s correlation_id client_id config attach r s' :
      reached s -> unmapped (ma_state s) ->
      tp_producer_attach W correlation_id client_id config attach s = Some (r, s') -> reached s'.

Abbreviation settled := (settled W (os_maps before) (os_fds before)).

Lemma producer_reached_settled s : reached s -> settled True s.
Proof.
  induction 1 as [|s control qos r s' _ IH Hs|s seq _ IH|s now _ IH|s a r s' _ IH Hs|
    s st v ts l r s' _ IH Hs|s cap r s' _ IH Hs|s corr cl d a s' _ IH Hs|
    s codes fresh e a r s' _ IH Hu Hs|s corr cl cfg attach r s' _ IH Hu Hs].
  - split; [by left|by split|by left].
  - by apply (wp_reached _ _ _ _ _ _ (poll_spec W A HK _ _ True control qos s (or_introl I) IH) Hs).
  - destruct s as [c p ev]. eapply settled_step; [exact IH|by destruct c|by left].
  - destruct s as [c p ev]. eapply settled_step; [exact IH| |by left].
    unfold tp_producer_schedule_reattach. case_match; by destruct c.
  - exact (wp_reached _ _ _ _ _ _ (set_announce_keeps W _ _ a s IH) Hs).
  - exact (wp_reached _ _ _ _ _ _ (set_meta_keeps W _ _ st v ts l s IH) Hs).
  - exact (wp_reached _ _ _ _ _ _ (enable_manager_keeps W _ _ cap s IH) Hs).
  - destruct s as [c p ev]. injection Hs as _ <-. eapply settled_step; [exact IH|by destruct c|by left].
  - destruct s as [c p ev]. destruct IH as [_ Ha _].
    exact (wp_reached _ _ _ _ _ _ (producer_attach_poll_spec W HK _ _ codes fresh e a c p ev Hu Ha) Hs).
  - destruct s as [c p ev]. destruct IH as [_ Ha _].
    apply (wp_reached _ _ _ _ _ _ (producer_attach_spec W HK _ _ corr cl cfg attach c p ev Hu Ha) Hs).
Qed.

(** C10: In every run that [reached] admits, whatever else arrives and whichever calls
    of the operating system fail, the descriptors and mappings the process has beyond
    those it started with are, one for one, those of the regions the producer holds;
    and closing it gives all of them back if no attribute array failed to be
    allocated.  The runs admitted attach only while nothing is mapped.  Both limits
    are the code's: [producer_attach_while_mapped] leaks, and closing after
    [attributes_left_behind] follows a NULL pointer. *)
Theorem producer_regions_given_back s :
  reached s ->
  os_maps (ma_process s) ≡ₚ
    ((fun r => (rg_addr r, rg_length r)) <$> filter mapped (slots (ma_state s))) ++ os_maps before /\
  os_fds (ma_process s) ≡ₚ (rg_fd <$> filter mapped (slots (ma_state s))) ++ os_fds before /\
  (attributes_ok (ma_state s) ->
   exists s', tp_producer_close W s = Some (tt, s') /\
     os_maps (ma_process s') ≡ₚ os_maps before /\ os_fds (ma_process s') ≡ₚ os_fds before).
Proof.
  intros Hr. apply producer_reached_settled in Hr as Hs. pose proof Hs as [_ [H1 H2 _] _].
  split; [done|]. split; [done|]. intros Hok. destruct s as [c p ev].
  pose proof (producer_close_spec W HK _ _ c p ev Hs) as Hc. unfold wp in Hc.
  destruct (tp_producer_close W _) as [[[] s']|]; [|by destruct Hc].
  destruct Hc as (_ & _ & Hm & Hf). by exists s'.
Qed.

(** C17: A producer that has anything mapped writes to the regions of one
    configuration: the header ring and every pool are mapped and held a superblock
    with the stream, the epoch, the sizes and the pool identifier it goes by, the
    ring's size is a power of two that every pool shares, the history of
    descriptors has an entry per slot, and the URIs it would announce are those of
    these regions. *)
Theorem producer_regions_validated s :
  reached s ->
  let c := ma_state s in
  (pd_pools c = NULL /\ free (rn_region (pd_header_region c))) \/
  exists cfg pools, default [] (pd_pools c) = pools /\ pd_pool_count c = length pools /\
    pd_stream_id c = cc_stream_id cfg /\ pd_epoch c = cc_epoch cfg /\
    pd_header_nslots c = cc_header_nslots cfg /\ tp_is_power_of_two (pd_header_nslots c) = true /\
    (exists entries, pd_tracelink_entries c = Some entries /\
       length entries = Z.to_nat (pd_header_nslots c)) /\
    region_ready W false (header_expected cfg) (pd_header_region c) /\
    Forall2 (pool_ready W false cfg) (cc_pools cfg) pools /\
    uris_kept cfg c.
Proof.
  intros Hr. apply producer_reached_settled in Hr as [[[]|[cfg []]] _ _]; cbv zeta; [by left|right].
  exists cfg, (default [] (pd_pools (ma_state s))). split; [done|].
  destruct lv_nslots0 as [-> Hpow]. destruct lv_count0 as [-> _].
  split; [by apply Forall2_length in lv_pools0|]. by split_and!.
Qed.

(** C36: As long as the producer's count of pools is that of its array, polling never
    follows a NULL pointer and always returns, whatever fragments arrive that no
    decoder reads beyond; the count stays right; and a poll that gets to its end
    stamps, once the period has passed, the header ring and every pool it then has
    with one and the same time.  A failed attach may break the count, whether it
    cleaned up after itself or not, and then the next poll that is due follows a
    NULL pointer: [refused_then_polled], [cleaned_then_polled]. *)
Theorem producer_polls_return s control qos :
  reached s -> pools_ok (ma_state s) -> polls_safe control qos ->
  exists r s', tp_producer_poll_control_internal W A control qos s = Some (r, s') /\
    pools_ok (ma_state s') /\ (r = Ok tt -> shown W (ma_state s) s').
Proof.
  intros Hr Hok Hsafe. apply producer_reached_settled in Hr as [Hc Ha _].
  assert (Hs : settled False s) by (split; [done|done|by right]).
  pose proof (poll_spec W A HK _ _ False control qos s (or_intror Hsafe) Hs) as Hp. unfold wp in Hp.
  destruct (tp_producer_poll_control_internal W A control qos s) as [[r s']|]; [|done].
  destruct Hp as [[_ _ [[]|Hok']] Hsh]. exists r, s'. split; [done|]. split; [done|].
  intros E. by destruct (Hsh E).
Qed.
End Runs.

(** ** A concrete producer *)

#[local] Existing Instance le_sbe.

Module ProducerDemo.
Import TwoFiles.

Abbreviation willing := ConsumerManager.Examples.agreeable.

Definition producer_context (use_driver : bool) : tp_producer_context_t :=
  {| px_stream_id := 10; px_producer_id := 6; px_use_driver := use_driver;
     px_driver_request := {| at_correlation_id := 0; at_stream_id := 0; at_client_id := 0; at_role := 0;
                             at_expected_layout_version := 0; at_publish_mode := 0;
                             at_require_hugepages := 0; at_desired_node_id := 0 |};
     px_drop_unconnected_descriptors := false |}.

Definition demo_publications : publications :=
  {| pb_descriptor := Some 1; pb_control := Some 2; pb_qos := Some 3; pb_metadata := Some 4 |}.

Definition demo_media : media := {| md_tick := 0; md_next := 10; md_open := ∅; md_sent := [] |}.

Definition no_driver (_ : tp_driver_attach_request_t)
    : tp_driver_client_t * res tp_driver_attach_info_t :=
  ({| dc_publication := true; dc_subscription := true; dc_active_lease_id := 0;
      dc_lease_expiry_timestamp_ns := 0; dc_last_keepalive_ns := 0; dc_active_stream_id := 0;
      dc_client_id := 0; dc_role := 0 |}, Err EINVAL).

Definition producer_new : machine :=
  new_producer demo_settings (producer_context false) demo_publications demo_media fresh.

(** After attaching by itself. *)
Definition producer_attached : option (res unit * machine) :=
  tp_producer_attach demo_world 1 2 (Some (6, demo_config 8)) no_driver producer_new.

Abbreviation demo_run := (reached demo_world willing demo_settings (producer_context false)
  demo_publications demo_media fresh).

Lemma attached_reached r s : producer_attached = Some (r, s) -> demo_run s.
Proof.
  unfold producer_attached. intros E.
  eapply (reached_attach _ _ _ _ _ _ _ producer_new); [constructor|by split|exact E].
Qed.

Lemma producer_regions_given_back_witness :
  exists s s', producer_attached = Some (Ok tt, s) /\ os_fds (ma_process s) = [101; 100] /\
    tp_producer_close demo_world s = Some (tt, s') /\ os_fds (ma_process s') ≡ₚ [].
Proof.
  destruct producer_attached as [[r s]|] eqn:E; [|vm_compute in E; discriminate E].
  pose proof (producer_regions_given_back demo_world willing demo_kernel_ok demo_settings
    (producer_context false) demo_publications demo_media fresh s (attached_reached _ _ E)) as (_ & _ & Hc).
  destruct Hc as (s' & Hc & _ & Hf); [vm_compute in E; injection E as <- <-; intros _; reflexivity|].
  exists s, s'. vm_compute in E. injection E as <- <-.
  split; [reflexivity|]. split; [reflexivity|]. split; [exact Hc|exact Hf].
Defined.

Lemma producer_regions_validated_witness :
  exists s cfg, producer_attached = Some (Ok tt, s) /\ cc_epoch cfg = 77 /\
    pd_pool_count (ma_state s) = 1%nat /\
    region_ready demo_world false (header_expected cfg) (pd_header_region (ma_state s)) /\
    uris_kept cfg (ma_state s).
Proof.
  destruct producer_attached as [[r s]|] eqn:E; [|vm_compute in E; discriminate E].
  pose proof (producer_regions_validated demo_world willing demo_kernel_ok demo_settings
    (producer_context false) demo_publications demo_media fresh s (attached_reached _ _ E)) as Hv.
  vm_compute in E. injection E as <- <-. cbv zeta in Hv. cbn [ma_state pd_pools] in Hv.
  destruct Hv as [[Hn _]|(cfg & pools & _ & _ & _ & Ee & _ & _ & _ & Hh & _ & Hu)]; [discriminate Hn|].
  eexists _, cfg. split; [reflexivity|]. split; [symmetry; exact Ee|].
  split; [reflexivity|]. split; [exact Hh|exact Hu].
Defined.

Lemma producer_polls_return_witness :
  exists s r s', producer_attached = Some (Ok tt, s) /\
    tp_producer_poll_control_internal demo_world willing (Ok []) (Ok []) s = Some (r, s') /\
    pools_ok (ma_state s') /\ shown demo_world (ma_state s) s'.
Proof.
  destruct producer_attached as [[r s]|] eqn:E; [|vm_compute in E; discriminate E].
  destruct (producer_polls_return demo_world willing demo_kernel_ok demo_settings
    (producer_context false) demo_publications demo_media fresh s (Ok []) (Ok []) (attached_reached _ _ E))
    as (r' & s' & Hs & Hok & Hsh).
  - vm_compute in E. injection E as <- <-. reflexivity.
  - split; intros l [= <-]; constructor.
  - exists s, r', s'. vm_compute in E. injection E as <- <-.
    split; [reflexivity|]. split; [exact Hs|]. split; [exact Hok|]. apply Hsh.
    vm_compute in Hs. injection Hs as <- _. reflexivity.
Defined.

Definition refused (nslots : Z) : option (res unit * machine) :=
  tp_producer_attach demo_world 1 2 (Some (6, demo_config nslots)) no_driver producer_new.

(** A ring whose size is not a power of two leaves the number of pools behind
    without an array of them: the stamps of the next poll follow a NULL pointer. *)
Example refused_then_polled :
  exists s, refused 6 = Some (Err EINVAL, s) /\ pd_pool_count (ma_state s) = 1%nat /\
    pd_pools (ma_state s) = NULL /\
    tp_producer_poll_control_internal demo_world willing (Ok []) (Ok []) s = None.
Proof. eexists. split; [vm_compute; reflexivity|]. by split_and!. Qed.

(** So does an attach that is cleaned up: here the superblock has another size. *)
Example cleaned_then_polled :
  exists s, refused 16 = Some (Err EINVAL, s) /\ pd_pools (ma_state s) = NULL /\
    os_fds (ma_process s) = [] /\
    tp_producer_poll_control_internal demo_world willing (Ok []) (Ok []) s = None.
Proof. eexists. split; [vm_compute; reflexivity|]. by split_and!. Qed.

(** The clean-up after another layout version follows the NULL pointer at once. *)
Example other_layout :
  tp_producer_attach demo_world 1 2
    (Some (6, (demo_config 8) <| cc_layout_version := 2 |>)) no_driver producer_new = None.
Proof. vm_compute. reflexivity. Qed.

(** Attaching again without having given up the regions forgets them. *)
Example producer_attach_while_mapped :
  exists s s1 s2, producer_attached = Some (Ok tt, s) /\
    tp_producer_attach demo_world 1 2 (Some (6, demo_config 8)) no_driver s = Some (Ok tt, s1) /\
    tp_producer_close demo_world s1 = Some (tt, s2) /\
    os_fds (ma_process s2) = [101; 100].
Proof. eexists _, _, _. split_and!; [vm_compute; reflexivity..]. Qed.

(** Without memory for the attributes their count is left behind. *)
Definition no_memory : world :=
  {| w_kernel := w_kernel demo_world; w_memory := w_memory demo_world; w_clock_ns := w_clock_ns demo_world;
     w_realtime_ns := w_realtime_ns demo_world; w_alloc := fun _ => false;
     w_subscribe := w_subscribe demo_world; w_offer := w_offer demo_world |}.

Example attributes_left_behind :
  exists s, tp_producer_set_data_source_meta no_memory 10 1 0
      [{| sa_key := Some (lit "key"); sa_format := Some (lit "text"); sa_value := NULL;
          sa_value_length := 0 |}] producer_new = Some (Err ENOMEM, s) /\
    tp_producer_close demo_world s = None.
Proof. eexists. split; [vm_compute; reflexivity|]. vm_compute. reflexivity. Qed.
End ProducerDemo.
