(* ===== verification/ProducerSession.v ===== *)
(** * ProducerSession: a producer and its consumers

    What joins ProducerMapping to its partners: the announcement a producer
    without a driver sends at its period is exactly as long as the buffer it
    allocates for it, and its bytes make a waiting consumer map the producer's
    regions; the bytes of the driver's revocation make a producer give its regions
    up and come back after the back-off. *)

From Stdlib Require Import ZArith Lia Bool Ascii String.
From stdpp Require Import strings list.
From coqutil Require Import Datatypes.RecordSetters.
From S2P Require Import Prelude Sbe Seqlock Tracelink Uri Shm Message ConsumerManager ProgressPoller.
From S2P Require Import Driver DriverMessages DriverClient Control Metadata Machine Regions.
From S2P Require Import ConsumerMapping ConsumerRegions ConsumerSession ProducerMapping ProducerRegions.
Import Mapping Manager Qos TriangleBracketNotations.

#[local] Open Scope Z_scope.
#[local] Open Scope list_scope.

(** ** The length of an announcement *)

Section Length.
Context `{Sbe}.

Lemma announced_items_size pools :
  items_size (mjoin (announced_pool_items <$> pools)) =
  foldr (fun p n => announcedPools_block + 4 + tp_control_strlen (ap_region_uri p) + n) 0 pools.
Proof.
  induction pools as [|p pools IH]; [done|]. rewrite fmap_cons. cbn [foldr].
  change (mjoin (?x :: ?l)) with (x ++ mjoin l). rewrite items_size_app, IH.
  unfold announced_pool_items, tp_control_strlen, Text. cbn [items_size item_size]. rewrite length_fmap. lia.
Qed.

Lemma announcement_size a : items_size (driver_announce_items a) = pool_announce_length a.
Proof.
  unfold driver_announce_items, pool_announce_head, pool_announce_length, group_item, Text.
  cbn [app items_size item_size]. rewrite items_size_app, announced_items_size. cbn [items_size item_size].
  rewrite length_fmap. change (Z.of_nat (length (text_of (an_header_region_uri a))))
    with (tp_control_strlen (an_header_region_uri a)).
  unfold control_header, header_item, messageHeader_encoded_length. cbn [item_size]. lia.
Qed.

Lemma announcement_length_nonneg a : 0 <= pool_announce_length a.
Proof.
  unfold pool_announce_length, tp_control_strlen.
  assert (0 <= foldr (fun p n => announcedPools_block + 4 + Z.of_nat (length (text_of (ap_region_uri p))) + n) 0
    (default [] (an_pools a))).
  { induction (default [] (an_pools a)) as [|p l IH]; cbn [foldr]; [done|].
    unfold announcedPools_block in *. lia. }
  unfold messageHeader_encoded_length, shmPoolAnnounce_block. lia.
Qed.

Lemma announcement_encoded a :
  exists fragment, encode (driver_announce_items a) (repeat 0 (Z.to_nat (pool_announce_length a))) = Some fragment.
Proof.
  unfold encode, blen. rewrite announcement_size, repeat_length.
  destruct (Z.ltb_spec (Z.of_nat (Z.to_nat (pool_announce_length a))) (pool_announce_length a)); [|by eexists].
  lia.
Qed.
End Length.

(** C25: The buffer for an announcement is exactly what it needs: whenever the sender
    accepts an announcement its encoding does not run out of the buffer it
    allocates for it, and fills it to the last byte. *)
Theorem pool_announce_fills_buffer `{Sbe} a items :
  tp_producer_send_shm_pool_announce a = Ok items ->
  exists fragment, encode items (repeat 0 (Z.to_nat (pool_announce_length a))) = Some fragment /\
    blen fragment = pool_announce_length a.
Proof.
  intros Hi. destruct (pool_announce_items _ _ Hi) as (-> & _ & _).
  destruct (announcement_encoded a) as [fragment He]. exists fragment. split; [done|].
  unfold encode in He. destruct (_ <? _) eqn:El; [done|]. apply (inj Some) in He.
  rewrite announcement_size in He, El. apply Z.ltb_ge in El. revert He El. generalize (repeat 0 (Z.to_nat (pool_announce_length a))).
  intros b He El. pose proof (sbe_puts_len (items_writes 0 (driver_announce_items a)) b) as Hb.
  pose proof (announcement_length_nonneg a). rewrite <- He. unfold blen in *. rewrite length_take. lia.
Qed.

(** ** The announcement of a producer's regions *)

Section Announced.
Context `{Sbe} (W : world) (cfg : region_config) (now_ns : Z).

(** A configuration that the announcement can carry. *)
Record announceable : Prop := {
  ac_words : is_u32 (cc_stream_id cfg) /\ is_u32 (cc_header_nslots cfg);
  ac_longs : is_u64 (cc_epoch cfg) /\ is_u64 now_ns;
  ac_header : exists uri, cc_header_uri cfg = Some uri /\ ("000"%char ∉ uri) /\ uri <> [] /\ text_small uri;
  ac_count : cc_pools cfg <> [] /\ Z.of_nat (length (cc_pools cfg)) < 65535;
  ac_pools : Forall (fun p => is_u16 (pc_pool_id p) /\ is_u32 (pc_stride_bytes p) /\
    exists uri, pc_uri p = Some uri /\ ("000"%char ∉ uri) /\ uri <> [] /\ text_small uri) (cc_pools cfg);
}.

Context (Hac : announceable) (c : tp_producer_t) (Hl : ProducerRegions.live W cfg c) (Hid : is_u32 (pd_producer_id c)).

Abbreviation pools := (default [] (pd_pools c)).
Abbreviation announcement := (producer_announce now_ns pools c).

(** The pools announced are those of the configuration. *)
Definition announced (p : pool_config) : tp_shm_pool_announce_pool_t :=
  {| ap_pool_id := pc_pool_id p; ap_pool_nslots := cc_header_nslots cfg;
     ap_stride_bytes := pc_stride_bytes p; ap_region_uri := pc_uri p |}.

Lemma kept_proper uri : ("000"%char ∉ uri) -> kept_uri (Some uri) = Some uri.
Proof. intros Hno. unfold kept_uri. cbn. by rewrite cstring_id. Qed.

Lemma kept_uris :
  exists uris, pd_pool_uris c = Some uris /\ uris = pc_uri <$> cc_pools cfg.
Proof.
  destruct (ProducerRegions.lv_uris _ _ _ Hl) as [_ Hp _ _].
  assert (E : (fun p => kept_uri (pc_uri p)) <$> cc_pools cfg = pc_uri <$> cc_pools cfg).
  { apply Forall_fmap_ext_1. eapply Forall_impl; [apply Hac|]. intros p (_ & _ & u & -> & Hno & _).
    by apply kept_proper. }
  rewrite E in Hp. destruct (pd_pool_uris c) as [uris|]; [by exists uris|].
  exfalso. destruct (ac_count Hac) as [Hne _]. by destruct (cc_pools cfg).
Qed.

Lemma announced_pools : an_pools announcement = Some (announced <$> cc_pools cfg).
Proof.
  unfold producer_announce. cbn [an_pools]. f_equal.
  destruct (ProducerRegions.lv_count _ _ _ Hl) as [Hn _].
  pose proof (ProducerRegions.lv_pools _ _ _ Hl) as Hps. apply Forall2_length in Hps as Hlen.
  rewrite Hn, take_ge by lia.
  destruct kept_uris as (uris & Eu & Euris).
  apply list_eq. intros i. rewrite list_lookup_imap, list_lookup_fmap.
  destruct (pools !! i) as [q|] eqn:Eq; cbn [fmap option_fmap option_map].
  - destruct (Forall2_lookup_r _ _ _ _ _ Hps Eq) as (pc & Epc & [Ei [En _] Es _ _]).
    rewrite Epc. cbn [fmap option_fmap option_map]. f_equal. unfold announced_pool, announced.
    rewrite Ei, En, Es, Eu, Euris. f_equal.
    rewrite (uk_count _ _ (ProducerRegions.lv_uris _ _ _ Hl)).
    apply lookup_lt_Some in Epc as Hlt. destruct (Nat.ltb_spec i (length (cc_pools cfg))); [|lia].
    by rewrite list_lookup_fmap, Epc.
  - apply lookup_ge_None in Eq. by rewrite (lookup_ge_None_2 (cc_pools cfg)) by lia.
Qed.

Lemma announced_header :
  exists uri, an_header_region_uri announcement = Some uri /\ cc_header_uri cfg = Some uri /\
    ("000"%char ∉ uri) /\ uri <> [] /\ text_small uri.
Proof.
  destruct (ac_header Hac) as (uri & Eu & Hno & Hne & Hs). exists uri. split; [|done].
  unfold producer_announce. cbn [an_header_region_uri].
  destruct (ProducerRegions.lv_uris _ _ _ Hl) as [[_ ->] _ _ _]. rewrite Eu. by apply kept_proper.
Qed.

Lemma announcement_fields :
  an_stream_id announcement = cc_stream_id cfg /\ an_epoch announcement = cc_epoch cfg /\
  an_layout_version announcement = TP_LAYOUT_VERSION /\
  an_header_nslots announcement = cc_header_nslots cfg.
Proof. destruct Hl as [E1 E2 [E3 _] [E4 _] _ _ _ _ _]. unfold producer_announce. by cbn. Qed.

Lemma announcement_ok : pool_announce_ok announcement.
Proof.
  destruct announcement_fields as (E1 & E2 & E3 & E4). destruct announced_header as (uri & Eu & _ & _ & _ & Hs).
  split; rewrite ?E1, ?E2, ?E3, ?E4.
  - destruct (ac_words Hac). do 4 (apply Forall_cons_2; [done|]). constructor.
  - destruct (ac_longs Hac). do 2 (apply Forall_cons_2; [done|]). constructor.
  - done.
  - left.
  - by rewrite Eu.
  - rewrite announced_pools. cbn [default from_option id]. apply Forall_fmap. eapply Forall_impl; [apply Hac|].
    intros p (H1 & H2 & u & Ep & _ & _ & H3). unfold announced_pool_ok. cbn. rewrite Ep.
    destruct (ac_words Hac). by split_and!.
Qed.

Lemma announcement_sent : tp_producer_send_shm_pool_announce announcement = Ok (driver_announce_items announcement).
Proof.
  unfold tp_producer_send_shm_pool_announce, driver_announce_items. rewrite announced_pools.
  destruct announced_header as (uri & -> & _ & _ & Hne & _). cbn [text_of default from_option id].
  rewrite bool_decide_false by done. destruct (ac_count Hac) as [Hn Hc].
  destruct (cc_pools cfg) as [|p ps] eqn:Eps; [done|]. rewrite fmap_cons. cbn [negb].
  rewrite <- fmap_cons, length_fmap. destruct (Z.ltb_spec (Z.of_nat (length (p :: ps))) 65535); [done|lia].
Qed.

(** What a consumer makes of it is the configuration. *)
Lemma announcement_config :
  pool_configs (cc_header_nslots cfg) (pv_pools (pool_announce_view announcement)) = Ok (cc_pools cfg) /\
  announce_config (pool_announce_view announcement) (cc_pools cfg) = cfg.
Proof.
  destruct announcement_fields as (E1 & E2 & E3 & E4). destruct announced_header as (uri & Eu & Ec & Hno & Hne & _).
  split.
  - unfold pool_announce_view. cbn [pv_pools]. rewrite announced_pools. cbn [default from_option id].
    rewrite pool_configs_seen.
    + f_equal. rewrite <- list_fmap_compose. rewrite <- (list_fmap_id (cc_pools cfg)) at 2.
      apply Forall_fmap_ext_1. apply Forall_forall. intros p Hp.
      pose proof (ProducerRegions.lv_pools _ _ _ Hl) as Hps. apply list_elem_of_lookup in Hp as [i Hp].
      destruct (Forall2_lookup_l _ _ _ _ _ Hps Hp) as (q & _ & [_ [_ En] _ _ _]). cbn. rewrite <- En. by destruct p.
    + apply Forall_fmap. eapply Forall_impl; [apply Hac|]. intros p (_ & _ & u & Ep & Hn & Hu & _).
      split; [done|]. exists u. split; [done|]. split; [done|]. destruct u; [done|cbn; lia].
  - unfold announce_config, pool_announce_view.
    cbn [pv_stream_id pv_epoch pv_layout_version pv_header_nslots pv_header_region_uri].
    rewrite E1, E2, E3, E4, Eu. cbn [text_of default from_option id].
    rewrite view_of_uri by (done || (destruct uri; [done|cbn; lia])). rewrite <- Ec.
    destruct (ProducerRegions.lv_layout _ _ _ Hl) as [_ <-]. by destruct cfg.
Qed.

(** It can be followed wherever the configuration can be attached. *)
Lemma announcement_announces settings :
  attachable W (cs_allowed_paths settings) cfg -> announces W settings announcement (cc_pools cfg).
Proof.
  intros Hat. destruct announcement_fields as (E1 & E2 & E3 & E4). destruct announcement_config as [Hpc Hcfg].
  destruct announced_header as (uri & Eu & _ & Hno & Hne & _). split.
  - done.
  - done.
  - rewrite E4. apply Hl.
  - apply announcement_ok.
  - rewrite announced_pools. cbn. rewrite length_fmap. apply Hac.
  - split; rewrite ?Hcfg; [| |split|done].
    + exists uri. unfold pool_announce_view. cbn [pv_header_region_uri]. rewrite Eu. cbn.
      rewrite view_of_uri by (done || (destruct uri; [done|cbn; lia])). done.
    + done.
    + unfold pool_announce_view. cbn [pv_pools]. rewrite announced_pools. cbn.
      destruct (ac_count Hac) as [Hn _]. by destruct (cc_pools cfg).
    + by unfold pool_announce_view at 1; cbn [pv_header_nslots]; rewrite E4.
Qed.
End Announced.

Section Joined.
Context `{Sbe} (W : world).

(** C8: A producer without a driver is found by its consumers: when an announcement is
    due, what it offers are the bytes of one whose receipt makes every waiting
    consumer that can attach to the producer's configuration map exactly these
    regions, under the producer's epoch. *)
Theorem producer_announcement_mapped cfg now_ns pub s :
  memory_enough W -> ProducerRegions.live W cfg (ma_state s) -> announceable cfg now_ns ->
  is_u32 (pd_producer_id (ma_state s)) ->
  pd_control_publication (ma_state s) = Some pub -> px_use_driver (pd_context (ma_state s)) = false ->
  is_due (ma_state s) (pd_last_shm_announce_ns (ma_state s)) now_ns = true ->
  let a := producer_announce now_ns (default [] (pd_pools (ma_state s))) (ma_state s) in
  exists fragment s', announce_pools W now_ns s = Some (tt, s') /\
    ma_events s' = ma_events s ++ [Offered pub fragment] /\
    forall settings context control qos before consumer,
      kernel_ok (w_kernel W) -> ConsumerRegions.reached W settings context control qos before consumer ->
      attachable W (cs_allowed_paths settings) cfg -> waiting W settings a (ma_state consumer) ->
      exists consumer', tp_consumer_control_handler W fragment consumer = Some (tt, consumer') /\
        ConsumerRegions.live W cfg (ma_state consumer') /\
        co_mapped_epoch (ma_state consumer') = pd_epoch (ma_state s).
Proof.
  intros Hm Hl Hac Hid Hpub Hdrv Hdue a. destruct s as [c p ev]. cbn [ma_state ma_process ma_events] in *.
  destruct (announced_header W cfg now_ns Hac c Hl) as (uri & Eu & _ & _ & Hne & _).
  pose proof (announcement_sent W cfg now_ns Hac c Hl) as Hsent. fold a in Eu, Hsent.
  destruct (announcement_encoded a) as [fragment He]. exists fragment.
  assert (Hpools : exists l, pd_pools c = Some l).
  { pose proof (announced_pools W cfg now_ns Hac c Hl) as Hp. destruct (ac_count _ _ Hac) as [Hn _].
    destruct (pd_pools c) as [l|]; [by exists l|]. exfalso. cbn in Hp. rewrite take_nil in Hp. cbn in Hp.
    by destruct (cc_pools cfg). }
  destruct Hpools as [l El].
  assert (Hcount : pd_pool_count c <> 0%nat).
  { destruct (ProducerRegions.lv_count _ _ _ Hl) as [-> _]. destruct (ac_count _ _ Hac) as [Hn _].
    by destruct (cc_pools cfg). }
  assert (Huri : pd_header_uri c = Some uri) by exact Eu.
  assert (Hw : wp False (announce_pools W now_ns) (fun _ s => ma_events s = ev ++ [Offered pub fragment])
    {| ma_state := c; ma_process := p; ma_events := ev |}).
  { unfold announce_pools. wps. rewrite Hdrv, Hpub, Hdue. cbn [negb andb]. rewrite bool_decide_true by done.
    cbn [andb]. wps. unfold tp_producer_publish_shm_pool_announce. wps. rewrite Hpub, El, Huri.
    destruct (Nat.eqb_spec (pd_pool_count c) 0); [done|]. wps. rewrite Hm. cbn [negb].
    replace (producer_announce now_ns l c) with a by (unfold a; by rewrite El).
    rewrite Hsent. wps. rewrite Hm. unfold send. rewrite He. wps.
    destruct (w_offer W _); wps; done. }
  unfold wp in Hw. destruct (announce_pools W now_ns _) as [[[] s']|] eqn:Es; [|done].
  exists s'. split; [done|]. split; [done|]. intros settings context control qos before consumer HK Hr Hat Hwait.
  apply (ConsumerRegions.reached_settled W HK) in Hr.
  destruct (announcement_config W cfg now_ns Hac c Hl) as [_ Hcfg]. fold a in Hcfg.
  destruct (announcement_handled W HK settings a (cc_pools cfg)
    (announcement_announces W cfg now_ns Hac c Hl Hid settings Hat) _ _ consumer _ fragment Hr He Hwait)
    as (consumer' & Hs & Hlive & _).
  rewrite Hcfg in Hlive. exists consumer'. split; [done|]. split; [done|].
  rewrite (proj2 (ConsumerRegions.lv_epoch _ _ _ Hlive)). symmetry. apply Hl.
Qed.
End Joined.

(** ** The driver takes the lease back *)

Section Revoked.
Context `{Sbe} (W : world) (A : ConsumerManager.aeron) (HK : kernel_ok (w_kernel W)).
Context (settings : client_settings) (context : tp_producer_context_t) (pubs : publications)
        (media0 : media) (before : process).

(** When the next attempt is due. *)
Lemma producer_schedule_due c now_ns :
  px_use_driver (pd_context c) = true -> 0 <= pd_attach_failures c < 2 ^ 32 - 1 ->
  0 <= now_ns < 2 ^ 64 - 3200000000 ->
  forall t, tp_producer_reattach_due (tp_producer_schedule_reattach now_ns c) t = true <->
    now_ns + backoff_ns (pd_attach_failures c) <= t.
Proof.
  intros Hd Hf Hn t.
  assert (E : tp_producer_schedule_reattach now_ns c =
    c <| pd_reattach_requested := true |> <| pd_attach_failures := pd_attach_failures c + 1 |>
      <| pd_next_attach_ns := now_ns + backoff_ns (pd_attach_failures c) |>).
  { unfold tp_producer_schedule_reattach. rewrite Hd. cbn [negb]. cbv zeta.
    rewrite (u32_small (pd_attach_failures c + 1)) by ulia.
    replace (pd_attach_failures c + 1 - 1) with (pd_attach_failures c) by lia.
    rewrite u32_small by ulia. change tp_producer_next_backoff_ns with tp_consumer_next_backoff_ns.
    destruct (backoff_spec (pd_attach_failures c)) as [-> Hb]; [ulia|].
    rewrite u64_small; [done|]. ulia. }
  assert (Ed : forall d, tp_producer_reattach_due
    (c <| pd_reattach_requested := true |> <| pd_attach_failures := pd_attach_failures c + 1 |>
       <| pd_next_attach_ns := d |>) t = (d <=? t)) by (intros; by destruct c).
  rewrite E, Ed. apply Z.leb_le.
Qed.

(** C31: The bytes of the driver's revocation make the producer that holds the lease
    give every region back and tell the application why; its sequence starts over,
    the lease is forgotten, and the next attempt to attach is due after the same
    back-off as a consumer's; nothing is announced in the meantime. *)
Theorem producer_revocation_followed s base ns pw t l reason text b fragment :
  reached W A settings context pubs media0 before s ->
  is_u64 t -> is_u64 (dl_lease_id l) -> is_u32 (dl_stream_id l) -> is_u32 (dl_client_id l) ->
  dl_client_id l = px_producer_id (pd_context (ma_state s)) ->
  dl_role l = tensor_pool_role_PRODUCER -> reason ∈ leaseRevokeReason_values -> text_fits text ->
  send_bytes base ns pw (ShmLeaseRevoked t l reason text) b = Some fragment ->
  px_use_driver (pd_context (ma_state s)) = true ->
  0 <= pd_attach_failures (ma_state s) < 2 ^ 32 - 1 ->
  (forall u, 0 <= w_clock_ns W u < 2 ^ 64 - 3200000000) ->
  exists s' now_ns, tp_producer_control_handler W A fragment s = Some (tt, s') /\
    unmapped (ma_state s') /\ pd_pool_count (ma_state s') = 0%nat /\ pd_next_seq (ma_state s') = 0 /\
    os_maps (ma_process s') ≡ₚ os_maps before /\ os_fds (ma_process s') ≡ₚ os_fds before /\
    ma_events s' = ma_events s ++ [ProducerLeaseRevoked
      {| lr_timestamp_ns := t; lr_lease_id := dl_lease_id l; lr_stream_id := dl_stream_id l;
         lr_client_id := dl_client_id l; lr_role := dl_role l; lr_reason := reason;
         lr_error_message := received_text text |}] /\
    pd_driver (ma_state s') = clear_lease <$> pd_driver (ma_state s) /\
    pd_driver_attached (ma_state s') = false /\
    (exists u, now_ns = w_clock_ns W u) /\
    forall u, tp_producer_reattach_due (ma_state s') u = true <->
      now_ns + backoff_ns (pd_attach_failures (ma_state s)) <= u.
Proof.
  intros Hr Ht Hl Hst Hc Hid Hrole Hreason Htext Hsend Hdrv Hfail Hclock.
  apply (producer_reached_settled W A HK) in Hr as [Hcons Hacc _].
  destruct s as [c p ev]. cbn [ma_state ma_process ma_events] in *.
  destruct (lease_revoked_read base ns pw b fragment t l reason text Ht Hl Hst Hc
    ltac:(rewrite Hrole; left; vm_compute; by repeat constructor) Hreason Htext Hsend) as (Hd & _ & _).
  pose proof (revoked_schema _ _ Hd) as Hschema.
  match type of Hd with _ = Decoded ?x => set (r := x) in * end.
  set (after := fun u => tp_producer_schedule_reattach (w_clock_ns W u)
    ((given_up c) <| pd_driver ::= fmap clear_lease |> <| pd_driver_attached := false |>)).
  assert (Hw : wp False (on_lease_revoked W r)
    (fun _ s => exists p' u, accounted (os_maps before) (os_fds before) (slots (given_up c)) p' /\
       s = {| ma_state := after u; ma_process := p'; ma_events := ev ++ [ProducerLeaseRevoked r] |})
    {| ma_state := c; ma_process := p; ma_events := ev |}).
  { unfold on_lease_revoked. wps. change (lr_client_id r) with (dl_client_id l).
    change (lr_role r) with (dl_role l). rewrite Hid, Hrole, !Z.eqb_refl. cbn [andb]. wps.
    apply (producer_unmap_regions_spec W HK (os_maps before) (os_fds before));
      [by apply (consistent_count W)|by apply accounted_later|].
    intros p' Hp'. wps. exists p', (os_tick p). split; [done|]. unfold after, u64.
    by rewrite Z.mod_small by (specialize (Hclock (os_tick p)); lia). }
  assert (Hh : tp_producer_control_handler W A fragment {| ma_state := c; ma_process := p; ma_events := ev |} =
    on_lease_revoked W r {| ma_state := c; ma_process := p; ma_events := ev |}).
  { unfold tp_producer_control_handler, next, get. cbn [ma_state]. unfold tp_control_decode_consumer_hello.
    destruct (not_control fragment consumerHello_template consumerHello_block Hschema) as [-> | ->];
      cbn [outcome_bind]; by destruct (pd_consumer_manager c); rewrite Hd. }
  rewrite Hh. unfold wp in Hw. destruct (on_lease_revoked W r _) as [[[] s']|]; [|done].
  destruct Hw as (p' & u & [H1 H2 _] & ->).
  rewrite (filter_nothing _ (producer_unmapped_nothing _ (given_up_unmapped c))) in H1, H2.
  cbn [fmap list_fmap app] in H1, H2.
  exists {| ma_state := after u; ma_process := p'; ma_events := ev ++ [ProducerLeaseRevoked r] |}, (w_clock_ns W u).
  split; [done|]. cbn [ma_state ma_process ma_events].
  assert (Hsame : unmapped (after u) /\ pd_pool_count (after u) = 0%nat /\ pd_next_seq (after u) = 0 /\
    pd_driver (after u) = clear_lease <$> pd_driver c /\ pd_driver_attached (after u) = false).
  { unfold after, tp_producer_schedule_reattach. case_match; destruct c; by split_and!. }
  destruct Hsame as (? & ? & ? & ? & ?). do 8 (split; [done|]). split; [by exists u|].
  intros u'. unfold after. rewrite producer_schedule_due; [by destruct c|by destruct c|by destruct c|apply Hclock].
Qed.
End Revoked.

(** ** A concrete session *)

#[local] Existing Instance le_sbe.

Module ProducerTalk.
Import TwoFiles ProducerDemo Demo Session.

Lemma pool_announce_fills_buffer_witness :
  exists items fragment, tp_producer_send_shm_pool_announce (announce_at 900) = Ok items /\
    encode items (repeat 0 (Z.to_nat (pool_announce_length (announce_at 900)))) = Some fragment /\
    blen fragment = 236.
Proof.
  destruct (tp_producer_send_shm_pool_announce (announce_at 900)) as [items|e] eqn:E;
    [|vm_compute in E; discriminate E].
  destruct (pool_announce_fills_buffer (announce_at 900) items E) as (fragment & He & Hl).
  exists items, fragment. split; [reflexivity|]. split; [exact He|]. rewrite Hl. vm_compute. reflexivity.
Defined.

Lemma attached_ok : exists s, producer_attached = Some (Ok tt, s).
Proof.
  assert (H : match producer_attached with Some (Ok tt, _) => True | _ => False end) by (vm_compute; exact I).
  destruct producer_attached as [[[[]|] s]|]; [by exists s|destruct H..].
Qed.

Lemma joined_ok : exists s, demo_joined = Some (tt, s).
Proof.
  assert (H : match demo_joined with Some (tt, _) => True | _ => False end) by (vm_compute; exact I).
  destruct demo_joined as [[[] s]|]; [by exists s|destruct H].
Qed.

(** What holds of the state a computation ends in is shown by running it. *)
Lemma evaluated {X Y} (o : option (X * Y)) r s (P : Y -> Prop) :
  o = Some (r, s) -> match o with Some (_, s) => P s | None => False end -> P s.
Proof. by intros ->. Qed.

Lemma attached_facts s :
  producer_attached = Some (Ok tt, s) ->
  is_u32 (pd_producer_id (ma_state s)) /\ pd_control_publication (ma_state s) = Some 2 /\
  px_use_driver (pd_context (ma_state s)) = false /\
  is_due (ma_state s) (pd_last_shm_announce_ns (ma_state s)) 2000 = true /\ ma_events s = [].
Proof.
  intros E. apply (evaluated _ _ _ (fun s => is_u32 (pd_producer_id (ma_state s)) /\
    pd_control_publication (ma_state s) = Some 2 /\ px_use_driver (pd_context (ma_state s)) = false /\
    is_due (ma_state s) (pd_last_shm_announce_ns (ma_state s)) 2000 = true /\ ma_events s = []) E).
  clear E s. vm_compute. split; [split; [discriminate|reflexivity]|]. repeat split.
Qed.

Lemma demo_waiting s consumer :
  producer_attached = Some (Ok tt, s) -> demo_joined = Some (tt, consumer) ->
  waiting demo_world demo_settings
    (producer_announce 2000 (default [] (pd_pools (ma_state s))) (ma_state s)) (ma_state consumer) /\
  co_shm_mapped (ma_state consumer) = false.
Proof.
  intros E E2.
  apply (evaluated _ _ _ (fun s => waiting demo_world demo_settings
    (producer_announce 2000 (default [] (pd_pools (ma_state s))) (ma_state s)) (ma_state consumer) /\
    co_shm_mapped (ma_state consumer) = false) E). clear E s.
  apply (evaluated _ _ _ (fun consumer => match producer_attached with
    | Some (_, s) => waiting demo_world demo_settings
        (producer_announce 2000 (default [] (pd_pools (ma_state s))) (ma_state s)) (ma_state consumer) /\
        co_shm_mapped (ma_state consumer) = false
    | None => False end) E2). clear E2 consumer.
  set (o := producer_attached). vm_compute in o. subst o. cbv iota.
  set (o := demo_joined). vm_compute in o. subst o. cbv iota.
  split; [|reflexivity]. split; try reflexivity; try discriminate.
  - left.
  - split; [reflexivity|discriminate].
  - intros t. destruct (demo_clock t) as [-> | ->]; vm_compute; discriminate.
Qed.

Lemma attached_live s :
  producer_attached = Some (Ok tt, s) -> ProducerRegions.live demo_world (demo_config 8) (ma_state s).
Proof.
  apply (own_attach_live demo_world demo_kernel_ok [] []); [reflexivity|by split|by split].
Qed.

Lemma demo_attachable :
  attachable demo_world (cs_allowed_paths demo_settings) (demo_config 8).
Proof.
  apply (offered_attachable demo_world demo_kernel_ok _ _ (demo_uri "header.ring")).
  - discriminate.
  - intros ?. reflexivity.
  - reflexivity.
  - reflexivity.
  - reflexivity.
  - intros [t f m l]. eexists _, _. split; [vm_compute; reflexivity|]. intros ?. vm_compute. reflexivity.
  - constructor; [|constructor]. exists (demo_uri "1.pool"). split; [reflexivity|]. split; [reflexivity|]. split.
    + intros [t f m l]. eexists. vm_compute. reflexivity.
    + intros [t f m l]. eexists _, _. split; [vm_compute; reflexivity|]. intros ?. vm_compute. reflexivity.
Qed.

Lemma demo_announceable : announceable (demo_config 8) 2000.
Proof.
  split.
  - split; split; (discriminate || reflexivity).
  - split; split; (discriminate || reflexivity).
  - exists (demo_uri "header.ring"). split; [reflexivity|]. split; [in_compute|]. split; [discriminate|].
    vm_compute. reflexivity.
  - split; [discriminate|reflexivity].
  - constructor; [|constructor]. split; [split; (discriminate || reflexivity)|].
    split; [split; (discriminate || reflexivity)|]. exists (demo_uri "1.pool"). split; [reflexivity|].
    split; [in_compute|]. split; [discriminate|]. vm_compute. reflexivity.
Qed.

Lemma producer_announcement_mapped_witness :
  exists s s' fragment consumer consumer', producer_attached = Some (Ok tt, s) /\
    announce_pools demo_world 2000 s = Some (tt, s') /\
    ma_events s' = [Offered 2 fragment] /\ demo_joined = Some (tt, consumer) /\
    co_shm_mapped (ma_state consumer) = false /\
    tp_consumer_control_handler demo_world fragment consumer = Some (tt, consumer') /\
    ConsumerRegions.live demo_world (demo_config 8) (ma_state consumer').
Proof.
  destruct attached_ok as [s E]. destruct joined_ok as [consumer E2].
  destruct (attached_facts s E) as (Hid & Hpub & Hdrv & Hdue & Hev0).
  destruct (demo_waiting s consumer E E2) as [Hwait Hm].
  destruct (producer_announcement_mapped demo_world (demo_config 8) 2000 2 s (fun _ => eq_refl) (attached_live s E)
    demo_announceable Hid Hpub Hdrv Hdue) as (fragment & s' & Hs & Hev & Hc).
  destruct (Hc demo_settings (demo_context true) true true fresh consumer demo_kernel_ok (joined_reached consumer E2)
    demo_attachable Hwait) as (consumer' & Hh & Hlive & _).
  exists s, s', fragment, consumer, consumer'. split; [exact E|]. split; [exact Hs|].
  split; [rewrite Hev, Hev0; reflexivity|]. split; [exact E2|]. split; [exact Hm|]. split; [exact Hh|exact Hlive].
Defined.

(** A driver that grants the lease. *)
Definition granting (_ : tp_driver_attach_request_t)
    : tp_driver_client_t * res tp_driver_attach_info_t :=
  ({| dc_publication := true; dc_subscription := true; dc_active_lease_id := 9;
      dc_lease_expiry_timestamp_ns := 0; dc_last_keepalive_ns := 0; dc_active_stream_id := 10;
      dc_client_id := 6; dc_role := tensor_pool_role_PRODUCER |},
   Ok {| ai_code := tensor_pool_responseCode_OK; ai_error_message := []; ai_lease_id := 9;
         ai_lease_expiry_timestamp_ns := 0; ai_stream_id := 10; ai_epoch := 77; ai_layout_version := 1;
         ai_header_nslots := 8; ai_header_slot_bytes := 256; ai_node_id := 0;
         ai_header_region_uri := demo_uri "header.ring";
         ai_pools := [{| pi_pool_id := 1; pi_nslots := 8; pi_stride_bytes := 4096;
                         pi_region_uri := demo_uri "1.pool" |}];
         ai_pool_count := 1 |}).

Definition leased : option (res unit * machine) :=
  tp_producer_attach demo_world 1 2 NULL granting
    (new_producer demo_settings (producer_context true) demo_publications demo_media fresh).

Definition producer_lease : tp_driver_lease_t :=
  {| dl_lease_id := 9; dl_expiry_ns := 0; dl_issued_ns := 0; dl_stream_id := 10; dl_client_id := 6;
     dl_node_id := 0; dl_role := tensor_pool_role_PRODUCER |}.

Definition producer_revocation : bytes :=
  default [] (send_bytes base_dir namespace user
    (ShmLeaseRevoked 2500 producer_lease tensor_pool_leaseRevokeReason_EXPIRED NULL) (repeat 0 64)).

Lemma leased_ok : exists s, leased = Some (Ok tt, s).
Proof.
  assert (H : match leased with Some (Ok tt, _) => True | _ => False end) by (vm_compute; exact I).
  destruct leased as [[[[]|] s]|]; [by exists s|destruct H..].
Qed.

Lemma leased_facts s :
  leased = Some (Ok tt, s) ->
  os_fds (ma_process s) = [101; 100] /\ px_producer_id (pd_context (ma_state s)) = 6 /\
  px_use_driver (pd_context (ma_state s)) = true /\ pd_attach_failures (ma_state s) = 0.
Proof.
  intros E. apply (evaluated _ _ _ (fun s => os_fds (ma_process s) = [101; 100] /\
    px_producer_id (pd_context (ma_state s)) = 6 /\ px_use_driver (pd_context (ma_state s)) = true /\
    pd_attach_failures (ma_state s) = 0) E).
  clear E s. vm_compute. repeat split.
Qed.

Lemma leased_reached s :
  leased = Some (Ok tt, s) ->
  reached demo_world willing demo_settings (producer_context true) demo_publications demo_media fresh s.
Proof.
  unfold leased. intros E. eapply (reached_attach _ _ _ _ _ _ _ (new_producer demo_settings (producer_context true)
    demo_publications demo_media fresh)); [constructor|by split|exact E].
Qed.

Lemma producer_revocation_followed_witness :
  exists s s' now_ns, leased = Some (Ok tt, s) /\ os_fds (ma_process s) = [101; 100] /\
    tp_producer_control_handler demo_world willing producer_revocation s = Some (tt, s') /\
    unmapped (ma_state s') /\ os_fds (ma_process s') ≡ₚ [] /\
    forall u, tp_producer_reattach_due (ma_state s') u = true <-> now_ns + 100000000 <= u.
Proof.
  destruct leased_ok as [s E]. destruct (leased_facts s E) as (Hfds & Hid & Hdrv & Hfail).
  destruct (producer_revocation_followed demo_world willing demo_kernel_ok demo_settings (producer_context true)
    demo_publications demo_media fresh s base_dir namespace user 2500 producer_lease
    tensor_pool_leaseRevokeReason_EXPIRED NULL (repeat 0 64) producer_revocation (leased_reached s E))
    as (s' & now_ns & Hs & Hu & _ & _ & _ & Hf & _ & _ & _ & _ & Hdue).
  1-4: vm_compute; split; [discriminate|reflexivity].
  - rewrite Hid. reflexivity.
  - reflexivity.
  - vm_compute. repeat constructor.
  - exact I.
  - vm_compute. reflexivity.
  - exact Hdrv.
  - rewrite Hfail. split; [lia|reflexivity].
  - intros u. destruct (demo_clock u) as [-> | ->]; lia.
  - exists s, s', now_ns. split; [exact E|]. split; [exact Hfds|]. split; [exact Hs|]. split; [exact Hu|].
    split; [exact Hf|]. intros u. rewrite Hdue, Hfail. reflexivity.
Defined.
End ProducerTalk.
