(* ===== verification/Discovery.v ===== *)
(** * Discovery: the registry of streams (src/discovery/tp_discovery_service.c)

    The discovery service listens to the announcements of producers and drivers and
    answers the question which streams there are.  Its registry has an entry for
    each stream it has heard of: what was announced last, of the newest epoch, and
    when.  An entry is forgotten three announce periods after it was last heard of;
    a query returns the entries left that match all its filters.  The operations
    are computations of Machine over the state of the service: the clock and the
    allocator are those of the [world]. *)

From Stdlib Require Import ZArith Lia Bool Ascii String.
From stdpp Require Import strings list.
From coqutil Require Import Datatypes.RecordSetters.
From S2P Require Import Prelude Sbe Uri Shm Message Seqlock Tensor ConsumerManager Driver DriverMessages Control.
From S2P Require Import Machine Regions.
Import Mapping TriangleBracketNotations.

#[local] Open Scope Z_scope.
#[local] Open Scope list_scope.

(** ** State *)

Definition discoveryStatus_OK : Z := 1.
Definition discoveryStatus_ERROR : Z := 3.

(** What the operations below use of the configuration. *)
Record tp_discovery_service_config_t := {
  sc_driver_instance_id : chars;
  sc_driver_control_channel : chars;
  sc_driver_control_stream_id : Z;
  sc_announce_period_ms : Z;
  sc_max_results : Z;
}.

Record tp_discovery_pool_entry_t := {
  qe_pool_id : Z;
  qe_pool_nslots : Z;
  qe_stride_bytes : Z;
  qe_region_uri : chars;
}.

(** Fixed arrays of characters hold C strings; a number of pools without an array
    is what a failed allocation leaves. *)
Record tp_discovery_entry_t := {
  de_stream_id : Z;
  de_producer_id : Z;
  de_epoch : Z;
  de_layout_version : Z;
  de_header_nslots : Z;
  de_header_slot_bytes : Z;
  de_max_dims : Z;
  de_data_source_id : Z;
  de_header_region_uri : chars;
  de_data_source_name : chars;
  de_tags : list chars;
  de_pools : ptr (list tp_discovery_pool_entry_t);
  de_pool_count : nat;
  de_last_announce_ns : Z;
}.

Record tp_discovery_publication_t := {
  qp_channel : chars;
  qp_stream_id : Z;
  qp_publication : Z;
}.

Record tp_discovery_service_t := {
  ds_config : tp_discovery_service_config_t;
  ds_entries : list tp_discovery_entry_t;
  ds_publications : list tp_discovery_publication_t;
}.

(** The array of tags with their number. *)
Record tp_discovery_request_t := {
  rq_request_id : Z;
  rq_client_id : Z;
  rq_response_channel : ptr chars;
  rq_response_stream_id : Z;
  rq_stream_id : Z;
  rq_producer_id : Z;
  rq_data_source_id : Z;
  rq_data_source_name : ptr chars;
  rq_tags : list (ptr chars);
}.

Record tp_discovery_pool_info_t := {
  dp_pool_id : Z;
  dp_nslots : Z;
  dp_stride_bytes : Z;
  dp_region_uri : chars;
}.

Record tp_discovery_result_t := {
  rs_stream_id : Z;
  rs_producer_id : Z;
  rs_epoch : Z;
  rs_layout_version : Z;
  rs_header_nslots : Z;
  rs_header_slot_bytes : Z;
  rs_max_dims : Z;
  rs_data_source_id : Z;
  rs_driver_control_stream_id : Z;
  rs_header_region_uri : chars;
  rs_data_source_name : chars;
  rs_driver_instance_id : chars;
  rs_driver_control_channel : chars;
  rs_pools : ptr (list tp_discovery_pool_info_t);
  rs_pool_count : nat;
  rs_tags : ptr (list (ptr chars));
  rs_tag_count : nat;
}.

Record tp_discovery_response_t := {
  dr_request_id : Z;
  dr_status : Z;
  dr_error_message : chars;
  dr_results : list tp_discovery_result_t;
}.

(** What the service lets others see. *)
Inductive discovery_event :=
  | Answered (publication : Z) (message : bytes).

Abbreviation machine := (Machine.machine tp_discovery_service_t discovery_event).
Abbreviation C := (Machine.C tp_discovery_service_t discovery_event).

(** [strncpy] into a zeroed array of this size, but for its last byte. *)
Definition kept (size : Z) (s : chars) : chars := take (Z.to_nat (size - 1)) (cstring s).

(** ** The entries *)

Definition tp_discovery_find_entry (l : list tp_discovery_entry_t) (stream_id : Z) : option nat :=
  if stream_id =? 0 then None else find_index (fun e => de_stream_id e =? stream_id) l.

Definition fresh_entry (stream_id : Z) : tp_discovery_entry_t :=
  {| de_stream_id := stream_id; de_producer_id := 0; de_epoch := 0; de_layout_version := 0;
     de_header_nslots := 0; de_header_slot_bytes := 0; de_max_dims := TP_MAX_DIMS;
     de_data_source_id := TP_NULL_U64; de_header_region_uri := []; de_data_source_name := [];
     de_tags := []; de_pools := NULL; de_pool_count := 0%nat; de_last_announce_ns := 0 |}.

Definition tp_discovery_entry_clear (e : tp_discovery_entry_t) : tp_discovery_entry_t :=
  e <| de_pools := NULL |> <| de_pool_count := 0%nat |> <| de_tags := [] |>.

Definition tp_discovery_expiry_ns (cfg : tp_discovery_service_config_t) : Z :=
  let period_ns := u64 (sc_announce_period_ms cfg * 1000000) in
  u64 ((if period_ns =? 0 then 1000 * 1000000 else period_ns) * 3).

Definition expired (now expiry : Z) (e : tp_discovery_entry_t) : bool :=
  negb (de_last_announce_ns e =? 0) && (u64 (de_last_announce_ns e + expiry) <? now).

(** What a query skips. *)
Definition stale (now expiry : Z) (e : tp_discovery_entry_t) : bool :=
  (de_last_announce_ns e =? 0) || (u64 (de_last_announce_ns e + expiry) <? now).

(** The loop of [tp_discovery_prune_expired]: an expired entry is overwritten by
    those behind it. *)
Fixpoint prune_loop (fuel : nat) (now expiry : Z) (i : nat) (l : list tp_discovery_entry_t)
    : list tp_discovery_entry_t :=
  match fuel with
  | O => l
  | S fuel' =>
    match l !! i with
    | None => l
    | Some e =>
      if expired now expiry e then prune_loop fuel' now expiry i (take i l ++ drop (S i) l)
      else prune_loop fuel' now expiry (S i) l
    end
  end.

Definition tp_discovery_entry_has_tag (e : tp_discovery_entry_t) (tag : ptr chars) : bool :=
  match tag with
  | NULL => false
  | Some tag => existsb (fun t => strcmp_eq t (cstring tag)) (de_tags e)
  end.

Definition tp_discovery_entry_matches (e : tp_discovery_entry_t) (q : tp_discovery_request_t) : bool :=
  if negb (rq_stream_id q =? TP_NULL_U32) && negb (rq_stream_id q =? de_stream_id e) then false
  else if negb (rq_producer_id q =? TP_NULL_U32) && negb (rq_producer_id q =? de_producer_id e) then false
  else if negb (rq_data_source_id q =? TP_NULL_U64) && negb (rq_data_source_id q =? de_data_source_id e)
  then false
  else if match rq_data_source_name q with
          | NULL => false
          | Some name => negb (strcmp_eq (cstring name) []) &&
                         negb (strcmp_eq (cstring name) (de_data_source_name e))
          end then false
  else forallb (tp_discovery_entry_has_tag e) (rq_tags q).

Section World.
Context (W : world).
#[local] Open Scope tp_scope.

(** The index of the entry, made if there is none. *)
Definition tp_discovery_entry_reserve (stream_id : Z) : C (option nat) :=
  let+ c := get in
  match tp_discovery_find_entry (ds_entries c) stream_id with
  | Some i => give (Some i)
  | None =>
    let+ alloc := ask (w_alloc W) in
    if alloc : bool then
      do+ modify (fun c => c <| ds_entries ::= fun l => l ++ [fresh_entry stream_id] |>) in
      give (Some (length (ds_entries c)))
    else give None
  end.

Definition get_entry (i : nat) : C tp_discovery_entry_t :=
  let+ c := get in
  match ds_entries c !! i with Some e => give e | None => fault end.

Definition set_entry (i : nat) (f : tp_discovery_entry_t -> tp_discovery_entry_t) : C unit :=
  modify (fun c => c <| ds_entries ::= alter f i |>).

Definition now_ns : C Z := ask (fun t => u64 (w_clock_ns W t)).

Definition touch_entry (i : nat) : C unit :=
  let+ now := now_ns in
  set_entry i (fun e => e <| de_last_announce_ns := now |>).

Definition tp_discovery_prune_expired : C unit :=
  let+ now := now_ns in
  modify (fun c => c <| ds_entries ::=
    fun l => prune_loop (length l) now (tp_discovery_expiry_ns (ds_config c)) 0 l |>).

(** ** What is announced *)

Definition pool_entry (p : tp_shm_pool_announce_pool_t) : tp_discovery_pool_entry_t :=
  {| qe_pool_id := ap_pool_id p; qe_pool_nslots := ap_pool_nslots p;
     qe_stride_bytes := ap_stride_bytes p;
     qe_region_uri := match ap_region_uri p with Some uri => kept 4096 uri | NULL => [] end |}.

(** The loop over the pools; [None] at the first that has other slots. *)
Fixpoint copy_pools (nslots : Z) (pools : list tp_shm_pool_announce_pool_t)
    : option (list tp_discovery_pool_entry_t) :=
  match pools with
  | [] => Some []
  | p :: pools' =>
    if negb (ap_pool_nslots p =? nslots) then None
    else cons (pool_entry p) <$> copy_pools nslots pools'
  end.

Definition announced_entry (a : tp_shm_pool_announce_t) (e : tp_discovery_entry_t) : tp_discovery_entry_t :=
  (tp_discovery_entry_clear e)
    <| de_producer_id := an_producer_id a |> <| de_epoch := an_epoch a |>
    <| de_layout_version := an_layout_version a |> <| de_header_nslots := an_header_nslots a |>
    <| de_header_slot_bytes := an_header_slot_bytes a |> <| de_max_dims := TP_MAX_DIMS |>
    <| de_header_region_uri := match an_header_region_uri a with Some uri => kept 4096 uri | NULL => [] end |>
    <| de_pool_count := length (default [] (an_pools a)) |>.

(** An announcement of an epoch before the one known. *)
Definition outdated (e : tp_discovery_entry_t) (epoch : Z) : bool :=
  negb (de_epoch e =? 0) && (epoch <? de_epoch e).

(** Whether it returns 0. *)
Definition tp_discovery_service_apply_announce (a : tp_shm_pool_announce_t) : C bool :=
  let pools := default [] (an_pools a) in
  if an_stream_id a =? 0 then give false
  else if negb (an_header_slot_bytes a =? TP_HEADER_SLOT_BYTES) then give false
  else if (length pools =? 0)%nat || (an_header_nslots a =? 0) then give false
  else
    let+ found := tp_discovery_entry_reserve (an_stream_id a) in
    match found with
    | None => give false
    | Some i =>
      let+ e := get_entry i in
      if outdated e (an_epoch a) then give true
      else
        do+ set_entry i (announced_entry a) in
        let+ alloc := ask (w_alloc W) in
        if negb alloc then give false
        else
          match copy_pools (an_header_nslots a) pools with
          | None => do+ set_entry i tp_discovery_entry_clear in give false
          | Some l =>
            do+ set_entry i (fun e => e <| de_pools := Some l |>) in
            do+ touch_entry i in
            give true
          end
    end.

Definition tp_discovery_service_apply_data_source (a : tp_data_source_announce_t) : C bool :=
  if da_stream_id a =? 0 then give false
  else
    let+ found := tp_discovery_entry_reserve (da_stream_id a) in
    match found with
    | None => give false
    | Some i =>
      let+ e := get_entry i in
      if outdated e (da_epoch a) then give true
      else
        do+ set_entry i (fun e =>
              e <| de_producer_id := da_producer_id a |> <| de_epoch := da_epoch a |>
                <| de_data_source_name ::= fun old => match da_name a with
                                                      | Some name => kept 256 name
                                                      | NULL => old
                                                      end |>) in
        do+ touch_entry i in
        give true
    end.

(** The copies of the tags; [None] when one fails. *)
Fixpoint copy_tags (tags : list (ptr chars)) : C (option (list chars)) :=
  match tags with
  | [] => give (Some [])
  | tag :: tags' =>
    let+ alloc := ask (w_alloc W) in
    if negb alloc then give None
    else
      let+ rest := copy_tags tags' in
      give (cons (cstring (default [] tag)) <$> rest)
  end.

Definition tp_discovery_service_set_tags (stream_id : Z) (tags : list (ptr chars)) : C bool :=
  if stream_id =? 0 then give false
  else
    let+ found := tp_discovery_entry_reserve stream_id in
    match found with
    | None => give false
    | Some i =>
      do+ set_entry i (fun e => e <| de_tags := [] |>) in
      if (length tags =? 0)%nat then do+ touch_entry i in give true
      else
        let+ alloc := ask (w_alloc W) in
        if negb alloc then give false
        else
          let+ copies := copy_tags tags in
          match copies with
          | None => give false
          | Some copies =>
            do+ set_entry i (fun e => e <| de_tags := copies |>) in
            do+ touch_entry i in
            give true
          end
    end.

(** ** Queries *)

Definition pool_info (p : tp_discovery_pool_entry_t) : tp_discovery_pool_info_t :=
  {| dp_pool_id := qe_pool_id p; dp_nslots := qe_pool_nslots p; dp_stride_bytes := qe_stride_bytes p;
     dp_region_uri := qe_region_uri p |}.

(** An allocation that fails leaves NULL, and the number. *)
Definition result_pools (e : tp_discovery_entry_t) : C (ptr (list tp_discovery_pool_info_t)) :=
  if (de_pool_count e =? 0)%nat then give NULL
  else
    let+ alloc := ask (w_alloc W) in
    if negb alloc then give NULL
    else match de_pools e with Some l => give (Some (pool_info <$> l)) | NULL => fault end.

Fixpoint result_tag_copies (tags : list chars) : C (list (ptr chars)) :=
  match tags with
  | [] => give []
  | tag :: tags' =>
    let+ alloc := ask (w_alloc W) in
    let+ rest := result_tag_copies tags' in
    give ((if alloc : bool then Some tag else NULL) :: rest)
  end.

Definition result_tags (e : tp_discovery_entry_t) : C (ptr (list (ptr chars))) :=
  if (length (de_tags e) =? 0)%nat then give NULL
  else
    let+ alloc := ask (w_alloc W) in
    if negb alloc then give NULL
    else let+ copies := result_tag_copies (de_tags e) in give (Some copies).

Definition tp_discovery_result_fill (e : tp_discovery_entry_t) : C tp_discovery_result_t :=
  let+ c := get in
  let+ pools := result_pools e in
  let+ tags := result_tags e in
  give {| rs_stream_id := de_stream_id e; rs_producer_id := de_producer_id e; rs_epoch := de_epoch e;
          rs_layout_version := de_layout_version e; rs_header_nslots := de_header_nslots e;
          rs_header_slot_bytes := de_header_slot_bytes e; rs_max_dims := de_max_dims e;
          rs_data_source_id := de_data_source_id e;
          rs_driver_control_stream_id := u32 (sc_driver_control_stream_id (ds_config c));
          rs_header_region_uri := de_header_region_uri e; rs_data_source_name := de_data_source_name e;
          rs_driver_instance_id := kept 256 (sc_driver_instance_id (ds_config c));
          rs_driver_control_channel := kept 1024 (sc_driver_control_channel (ds_config c));
          rs_pools := pools; rs_pool_count := de_pool_count e; rs_tags := tags;
          rs_tag_count := length (de_tags e) |}.

Fixpoint fill_results (l : list tp_discovery_entry_t) : C (list tp_discovery_result_t) :=
  match l with
  | [] => give []
  | e :: l' =>
    let+ r := tp_discovery_result_fill e in
    let+ rest := fill_results l' in
    give (r :: rest)
  end.

(** The entries a query returns: both loops look at the same. *)
Definition hits (now : Z) (q : tp_discovery_request_t) (c : tp_discovery_service_t)
    : list tp_discovery_entry_t :=
  List.filter (fun e => negb (stale now (tp_discovery_expiry_ns (ds_config c)) e) &&
                        tp_discovery_entry_matches e q) (ds_entries c).

Definition tp_discovery_service_query (q : tp_discovery_request_t) : C (res tp_discovery_response_t) :=
  let answer status message results :=
    {| dr_request_id := rq_request_id q; dr_status := status; dr_error_message := message;
       dr_results := results |} in
  do+ tp_discovery_prune_expired in
  let+ now := now_ns in
  let+ c := get in
  let found := hits now q c in
  if sc_max_results (ds_config c) <? Z.of_nat (length found)
  then give (Ok (answer discoveryStatus_ERROR (lit "result limit exceeded") []))
  else if (length found =? 0)%nat then give (Ok (answer discoveryStatus_OK [] []))
  else
    let+ alloc := ask (w_alloc W) in
    if negb alloc then give (Err ENOMEM)
    else let+ results := fill_results found in give (Ok (answer discoveryStatus_OK [] results)).

(** ** Where the answers go *)

(** The publication for an endpoint, opened when it is first needed: [w_subscribe]
    answers whether Aeron adds it. *)
Definition tp_discovery_get_publication (channel : chars) (stream_id : Z)
    : C (option tp_discovery_publication_t) :=
  let+ c := get in
  match find_index (fun p => (qp_stream_id p =? stream_id) && strcmp_eq (qp_channel p) channel)
          (ds_publications c) with
  | Some i => give (ds_publications c !! i)
  | None =>
    let+ alloc := ask (w_alloc W) in
    if negb alloc then give None
    else
      let+ opened := ask (fun t => if w_subscribe W t then Some (Z.of_nat t) else None) in
      match opened with
      | None => give None
      | Some publication =>
        let p := {| qp_channel := kept 1024 channel; qp_stream_id := stream_id;
                    qp_publication := publication |} in
        do+ modify (fun c => c <| ds_publications ::= fun l => l ++ [p] |>) in
        give (Some p)
      end
  end.
End World.

(** ** Texts *)

(** A C string that fits an array of this size. *)
Definition fits (size : Z) (s : chars) : Prop := Z.of_nat (length s) < size /\ "000"%char ∉ s.

Lemma kept_fits size s : 0 < size -> fits size (kept size s).
Proof.
  intros Hs. unfold kept. split; [rewrite length_take; lia|].
  intros (i & Hi & _)%elem_of_take. by apply list_elem_of_lookup_2, cstring_no_nul in Hi.
Qed.

Lemma kept_id size s : fits size s -> kept size s = s.
Proof. intros [Hl Hn]. unfold kept. rewrite cstring_id by done. apply take_ge. lia. Qed.

Lemma fits_nil size : 0 < size -> fits size [].
Proof. intros. split; [done|apply not_elem_of_nil]. Qed.

(** ** The registry stays well formed *)

(** An entry has its pools as announced, all with as many slots as the header ring;
    only when memory ran out ([~ M]) is there a number of pools without an array.
    Nothing gives an entry a data source identifier. *)
Record entry_ok (M : Prop) (e : tp_discovery_entry_t) : Prop := {
  eo_stream : de_stream_id e <> 0;
  eo_pools : match de_pools e with
             | Some l => length l = de_pool_count e /\
                         Forall (fun p => qe_pool_nslots p = de_header_nslots e /\
                                          fits 4096 (qe_region_uri p)) l
             | NULL => M -> de_pool_count e = 0%nat
             end;
  eo_uri : fits 4096 (de_header_region_uri e);
  eo_name : fits 256 (de_data_source_name e);
  eo_source : de_data_source_id e = TP_NULL_U64;
  eo_tags : Forall (fun t => "000"%char ∉ t) (de_tags e);
}.

Record registry_ok (M : Prop) (l : list tp_discovery_entry_t) : Prop := {
  ro_entries : Forall (entry_ok M) l;
  ro_streams : NoDup (de_stream_id <$> l);
}.

(** No stream goes back to an older epoch. *)
Definition keeps_newest (l l' : list tp_discovery_entry_t) : Prop :=
  forall e e', e ∈ l -> e' ∈ l' -> de_stream_id e = de_stream_id e' -> de_epoch e <= de_epoch e'.

Lemma prune_loop_spec now expiry fuel : forall i l, (length l - i <= fuel)%nat ->
  prune_loop fuel now expiry i l =
  take i l ++ List.filter (fun e => negb (expired now expiry e)) (drop i l).
Proof.
  induction fuel as [|fuel IH]; intros i l Hf; cbn [prune_loop].
  { rewrite drop_ge by lia. rewrite take_ge by lia. by rewrite app_nil_r. }
  destruct (l !! i) as [e|] eqn:E.
  2:{ apply lookup_ge_None in E. rewrite drop_ge, take_ge by done. by rewrite app_nil_r. }
  pose proof (lookup_lt_Some _ _ _ E) as Hi. rewrite (drop_S l e i E). cbn [List.filter].
  destruct (expired now expiry e); cbn [negb].
  - rewrite IH by (rewrite length_app, length_take, length_drop; lia).
    rewrite take_app_length', drop_app_length' by (rewrite length_take; lia). done.
  - rewrite IH by lia. by rewrite (take_S_r _ _ _ E), <- app_assoc.
Qed.

(** The loop that moves entries over expired ones is a filter. *)
Lemma prune_loop_filter now expiry l :
  prune_loop (length l) now expiry 0 l = List.filter (fun e => negb (expired now expiry e)) l.
Proof. by rewrite prune_loop_spec by lia. Qed.

Lemma filter_sublist {A} (f : A -> bool) l : List.filter f l `sublist_of` l.
Proof. induction l as [|a l IH]; cbn; [done|]. destruct (f a); by constructor. Qed.

Lemma registry_ok_sublist M l l' : l' `sublist_of` l -> registry_ok M l -> registry_ok M l'.
Proof.
  intros Hs [He Hn]. split.
  - apply Forall_forall. intros e Hin. eapply Forall_forall; [exact He|]. by eapply elem_of_sublist.
  - eapply sublist_NoDup; [exact Hn|]. by apply fmap_sublist.
Qed.

Lemma keeps_newest_sublist M l l' : registry_ok M l -> l' `sublist_of` l -> keeps_newest l l'.
Proof.
  intros [_ Hn] Hs e e' He He' Heq. pose proof (elem_of_sublist _ _ _ He' Hs) as Hl.
  apply list_elem_of_lookup in He as [i Hi]. apply list_elem_of_lookup in Hl as [j Hj].
  assert (i = j).
  { eapply NoDup_lookup; [exact Hn|by rewrite list_lookup_fmap, Hi|].
    rewrite list_lookup_fmap, Hj. cbn. by rewrite Heq. }
  subst j. rewrite Hi in Hj. injection Hj as ->. lia.
Qed.

Lemma fresh_entry_ok M stream_id : stream_id <> 0 -> entry_ok M (fresh_entry stream_id).
Proof. intros Hs. split; cbn; [done|done|by apply fits_nil|by apply fits_nil|done|constructor]. Qed.

Lemma find_entry_found l stream_id i :
  tp_discovery_find_entry l stream_id = Some i -> exists e, l !! i = Some e /\ de_stream_id e = stream_id.
Proof.
  unfold tp_discovery_find_entry. destruct (stream_id =? 0); [done|].
  intros (e & He & Hs)%find_index_lookup. apply Z.eqb_eq in Hs. by exists e.
Qed.

Lemma find_entry_none l stream_id :
  stream_id <> 0 -> tp_discovery_find_entry l stream_id = None -> (stream_id ∉ (de_stream_id <$> l)).
Proof.
  intros Hs. unfold tp_discovery_find_entry. destruct (Z.eqb_spec stream_id 0); [done|].
  intros Hf%find_index_None. intros (e & -> & He)%list_elem_of_fmap.
  eapply Forall_forall in Hf; [|exact He]. cbn in Hf. by apply Z.eqb_neq in Hf.
Qed.

(** An operation on one entry. *)
Lemma registry_ok_alter M l i f :
  registry_ok M l -> (forall e, l !! i = Some e -> entry_ok M (f e) /\ de_stream_id (f e) = de_stream_id e) ->
  registry_ok M (alter f i l).
Proof.
  intros [He Hn] Hf. split.
  - apply Forall_alter; [done|]. intros x Hx _. by apply Hf.
  - enough (de_stream_id <$> alter f i l = de_stream_id <$> l) as -> by done.
    apply list_eq. intros j. rewrite !list_lookup_fmap. destruct (decide (i = j)) as [<-|Hne].
    + rewrite list_lookup_alter_eq. destruct (l !! i) as [e|] eqn:E; [|done].
      cbn. by destruct (Hf e eq_refl) as [_ ->].
    + by rewrite list_lookup_alter_ne.
Qed.

(** ** What the operations do *)

Section Operations.
Context (W : world).
Abbreviation M := (memory_enough W).
Abbreviation wp := (wp (~ M)).

(** An operation leaves what it does not name. *)
Record untouched (s s' : machine) : Prop := {
  ut_config : ds_config (ma_state s') = ds_config (ma_state s);
  ut_publications : ds_publications (ma_state s') = ds_publications (ma_state s);
  ut_events : ma_events s' = ma_events s;
}.

(** The registry after an operation on one stream. *)
Record one_stream (stream_id : Z) (s s' : machine) : Prop := {
  os_untouched : untouched s s';
  os_ok : registry_ok M (ds_entries (ma_state s'));
  os_newest : keeps_newest (ds_entries (ma_state s)) (ds_entries (ma_state s'));
  os_others : forall e, de_stream_id e <> stream_id ->
                e ∈ ds_entries (ma_state s) <-> e ∈ ds_entries (ma_state s');
}.

Lemma reserve_spec stream_id (Q : option nat -> machine -> Prop) s :
  stream_id <> 0 -> registry_ok M (ds_entries (ma_state s)) ->
  (~ M -> Q None {| ma_state := ma_state s; ma_process := later (ma_process s); ma_events := ma_events s |}) ->
  (forall i e c' p', ds_entries c' !! i = Some e -> de_stream_id e = stream_id ->
     registry_ok M (ds_entries c') -> ds_config c' = ds_config (ma_state s) ->
     ds_publications c' = ds_publications (ma_state s) ->
     (ds_entries c' = ds_entries (ma_state s) \/
      (stream_id ∉ (de_stream_id <$> ds_entries (ma_state s))) /\
      ds_entries c' = ds_entries (ma_state s) ++ [fresh_entry stream_id]) ->
     Q (Some i) {| ma_state := c'; ma_process := p'; ma_events := ma_events s |}) ->
  wp (tp_discovery_entry_reserve W stream_id) Q s.
Proof.
  intros Hs Hok Hno HQ. destruct s as [c p ev]. cbn [ma_state ma_process ma_events] in *.
  unfold tp_discovery_entry_reserve. wps. destruct (tp_discovery_find_entry _ _) as [i|] eqn:E.
  - destruct (find_entry_found _ _ _ E) as (e & He & Hid). wps. eapply HQ; try done. by left.
  - wps. destruct (w_alloc W _) eqn:Ea; wps.
    + apply (HQ _ (fresh_entry stream_id)); cbn; try done.
      * by rewrite lookup_app_r, Nat.sub_diag by done.
      * pose proof (find_entry_none _ _ Hs E) as Hnew. destruct Hok as [He Hn]. split.
        -- apply Forall_app_2; [done|]. constructor; [by apply fresh_entry_ok|constructor].
        -- rewrite fmap_app. apply NoDup_app. split_and!; [done| |cbn; apply NoDup_singleton].
           intros x Hx ->%list_elem_of_singleton. done.
      * right. split; [by apply find_entry_none|done].
    + apply Hno. intros HM. by rewrite HM in Ea.
Qed.

Lemma elem_of_alter {A} (f : A -> A) (i : nat) (l : list A) (e' : A) :
  e' ∈ alter f i l <-> (exists j, j <> i /\ l !! j = Some e') \/ (exists e, l !! i = Some e /\ e' = f e).
Proof.
  rewrite list_elem_of_lookup. split.
  - intros [j Hj]. destruct (decide (i = j)) as [<-|Hne].
    + rewrite list_lookup_alter_eq in Hj. apply fmap_Some in Hj as (e & He & ->). right. by exists e.
    + rewrite list_lookup_alter_ne in Hj by done. left. by exists j.
  - intros [(j & Hne & Hj)|(e & He & ->)].
    + exists j. by rewrite list_lookup_alter_ne.
    + exists i. by rewrite list_lookup_alter_eq, He.
Qed.

Lemma same_stream l i j e e' :
  NoDup (de_stream_id <$> l) -> l !! i = Some e -> l !! j = Some e' ->
  de_stream_id e = de_stream_id e' -> i = j.
Proof.
  intros Hn Hi Hj Hs. eapply NoDup_lookup; [exact Hn|by rewrite list_lookup_fmap, Hi|].
  rewrite list_lookup_fmap, Hj. cbn. by rewrite Hs.
Qed.

(** The entry of the stream, and what an operation does to it. *)
Lemma one_stream_alter stream_id s c' p' i e f :
  ds_entries c' !! i = Some e -> de_stream_id e = stream_id ->
  registry_ok M (ds_entries c') -> ds_config c' = ds_config (ma_state s) ->
  ds_publications c' = ds_publications (ma_state s) ->
  (ds_entries c' = ds_entries (ma_state s) \/
   (stream_id ∉ (de_stream_id <$> ds_entries (ma_state s))) /\
   ds_entries c' = ds_entries (ma_state s) ++ [fresh_entry stream_id]) ->
  entry_ok M (f e) -> de_stream_id (f e) = stream_id -> de_epoch e <= de_epoch (f e) ->
  one_stream stream_id s {| ma_state := c' <| ds_entries ::= alter f i |>; ma_process := p';
                            ma_events := ma_events s |}.
Proof.
  intros Hi Hid Hok Hc Hp Hl Hf Hfid Hle. pose proof (ro_streams _ _ Hok) as Hn.
  assert (Hin : forall x, x ∈ ds_entries (ma_state s) -> x ∈ ds_entries c').
  { intros x Hx. destruct Hl as [->|[_ ->]]; [done|]. apply elem_of_app. by left. }
  assert (Hent : ds_entries (c' <| ds_entries ::= alter f i |>) = alter f i (ds_entries c')) by done.
  split; cbn [ma_state]; rewrite ?Hent.
  - split; done.
  - apply registry_ok_alter; [done|]. intros x Hx. rewrite Hi in Hx. injection Hx as <-. by rewrite Hid.
  - intros x y Hx Hy Hxy. apply Hin in Hx. apply list_elem_of_lookup in Hx as [k Hk].
    apply elem_of_alter in Hy as [(j & Hne & Hj)|(e0 & He0 & ->)].
    + assert (k = j) by (by eapply same_stream). subst. rewrite Hk in Hj. injection Hj as ->. lia.
    + rewrite Hi in He0. injection He0 as <-. assert (k = i) by (eapply same_stream; try done; congruence).
      subst. rewrite Hk in Hi. by injection Hi as ->.
  - intros x Hx. rewrite elem_of_alter. split.
    + intros Hin'%Hin. apply list_elem_of_lookup in Hin' as [k Hk]. left. exists k. split; [|done].
      intros ->. rewrite Hi in Hk. injection Hk as <-. done.
    + intros [(j & Hne & Hj)|(e0 & He0 & ->)]; [|rewrite Hi in He0; injection He0 as <-; done].
      apply list_elem_of_lookup_2 in Hj. destruct Hl as [<-|[_ E]]; [done|]. rewrite E in Hj.
      apply elem_of_app in Hj as [?| ->%list_elem_of_singleton]; [done|]. cbn in Hx. done.
Qed.

Lemma one_stream_refl stream_id s p' :
  registry_ok M (ds_entries (ma_state s)) ->
  one_stream stream_id s {| ma_state := ma_state s; ma_process := p'; ma_events := ma_events s |}.
Proof.
  intros Hok. split; [by split|done| |done]. intros x y Hx Hy Hxy. cbn [ma_state] in Hy.
  apply list_elem_of_lookup in Hx as [i Hi]. apply list_elem_of_lookup in Hy as [j Hj].
  assert (i = j) by (eapply same_stream; [apply Hok|done..]). subst. rewrite Hi in Hj. injection Hj as ->. lia.
Qed.

Lemma entries_alter_twice (c : tp_discovery_service_t) i f g :
  (c <| ds_entries ::= alter f i |>) <| ds_entries ::= alter g i |> =
  c <| ds_entries ::= alter (fun e => g (f e)) i |>.
Proof.
  destruct c as [cfg l pubs].
  change (Build_tp_discovery_service_t cfg (alter g i (alter f i l)) pubs =
          Build_tp_discovery_service_t cfg (alter (fun e => g (f e)) i l) pubs).
  by rewrite list_alter_alter_eq.
Qed.

(** The same behind the machine it is the state of. *)
Lemma alter_again (c : tp_discovery_service_t) p (ev : list discovery_event) i f g :
  (ma_state {| ma_state := c <| ds_entries ::= alter f i |>; ma_process := p; ma_events := ev |})
    <| ds_entries ::= alter g i |> = c <| ds_entries ::= alter (fun e => g (f e)) i |>.
Proof. apply entries_alter_twice. Qed.

Lemma alter_nothing (c : tp_discovery_service_t) i : c = c <| ds_entries ::= alter (fun e => e) i |>.
Proof.
  destruct c as [cfg l pubs].
  change (Build_tp_discovery_service_t cfg l pubs =
          Build_tp_discovery_service_t cfg (alter (fun e => e) i l) pubs).
  by rewrite list_alter_id.
Qed.

Lemma copy_pools_spec nslots pools :
  match copy_pools nslots pools with
  | Some l => l = pool_entry <$> pools /\ Forall (fun p => ap_pool_nslots p = nslots) pools
  | None => Exists (fun p => ap_pool_nslots p <> nslots) pools
  end.
Proof.
  induction pools as [|p pools IH]; cbn [copy_pools]; [by split|].
  destruct (Z.eqb_spec (ap_pool_nslots p) nslots) as [Hp|Hp]; cbn [negb]; [|by left].
  destruct (copy_pools nslots pools) as [l|]; cbn; [|by right]. destruct IH as [-> Hf].
  split; [done|by constructor].
Qed.

Lemma pool_entry_fits p : fits 4096 (qe_region_uri (pool_entry p)).
Proof. cbn. destruct (ap_region_uri p); [by apply kept_fits|by apply fits_nil]. Qed.

(** The entry with what was announced: [pools] as they were copied. *)
Lemma announced_entry_ok a e pools count :
  entry_ok M e -> match pools with
                  | Some l => l = pool_entry <$> default [] (an_pools a) /\
                              count = length (default [] (an_pools a)) /\
                              Forall (fun p => ap_pool_nslots p = an_header_nslots a) (default [] (an_pools a))
                  | NULL => M -> count = 0%nat
                  end ->
  forall now, entry_ok M ((announced_entry a e) <| de_pools := pools |> <| de_pool_count := count |>
                            <| de_last_announce_ns := now |>).
Proof.
  intros [H1 _ _ H4 H5 _] Hp now. destruct e. split; cbn; [done| |by destruct (an_header_region_uri a);
    [apply kept_fits|apply fits_nil]|done|done|constructor].
  destruct pools as [l|]; [|done]. destruct Hp as (-> & -> & Hf). split; [by rewrite length_fmap|].
  apply Forall_fmap. eapply Forall_impl; [exact Hf|]. intros p Hp. split; [done|apply pool_entry_fits].
Qed.

Lemma outdated_spec e epoch :
  0 <= epoch -> outdated e epoch = false -> de_epoch e <= epoch.
Proof.
  intros He. unfold outdated. destruct (Z.eqb_spec (de_epoch e) 0); [lia|]. cbn. intros ?%Z.ltb_ge. lia.
Qed.

(** What is left of [one_stream] is that the changed entry is well formed. *)
Ltac settle e c p ev :=
  rewrite ?alter_again, ?entries_alter_twice;
  eapply (one_stream_alter _ {| ma_state := c; ma_process := p; ma_events := ev |});
  try done; try (by destruct e).

(** Up to the entry of the stream. *)
Ltac reserve Hs Hok i e c' p' :=
  apply reserve_spec; [exact Hs|exact Hok|intros _; wps; by apply one_stream_refl|];
  intros i e c' p' Hi Hid Hok' Hc Hp Hl; cbn [ma_state ma_process ma_events] in *;
  assert (Hent : entry_ok M e) by (eapply Forall_lookup_1; [apply Hok'|done]).

Lemma announce_spec a s :
  0 <= an_epoch a -> registry_ok M (ds_entries (ma_state s)) ->
  wp (tp_discovery_service_apply_announce W a) (fun _ => one_stream (an_stream_id a) s) s.
Proof.
  intros He Hok. unfold tp_discovery_service_apply_announce. destruct s as [c p ev].
  cbn [ma_state] in Hok. pose proof (one_stream_refl (an_stream_id a) {| ma_state := c; ma_process := p; ma_events := ev |} p Hok) as Hrefl.
  destruct (Z.eqb_spec (an_stream_id a) 0) as [|Hs]; [by wps|].
  destruct (negb _); [by wps|]. destruct (_ || _); [by wps|]. wps.
  reserve Hs Hok i e c' p'. unfold get_entry. wps. rewrite Hi. wps.
  destruct (outdated e (an_epoch a)) eqn:Eo; wps.
  { rewrite (alter_nothing c' i).
    by eapply (one_stream_alter _ {| ma_state := c; ma_process := p; ma_events := ev |}). }
  apply outdated_spec in Eo; [|done]. unfold touch_entry, now_ns, set_entry. wps.
  destruct (w_alloc W _) eqn:Ea; cbn [negb].
  - pose proof (copy_pools_spec (an_header_nslots a) (default [] (an_pools a))) as Hcp.
    destruct (copy_pools _ _) as [l|]; wps; rewrite ?alter_again, ?entries_alter_twice.
    + destruct Hcp as [-> Hf].
      settle e c p ev.
      eapply (announced_entry_ok a e (Some _)); [done|by split_and!].
    + settle e c p ev.
      eapply (announced_entry_ok a e NULL 0 Hent); done.
  - wps. settle e c p ev.
    replace (announced_entry a e) with ((announced_entry a e) <| de_pools := NULL |>
      <| de_pool_count := length (default [] (an_pools a)) |>
      <| de_last_announce_ns := de_last_announce_ns e |>) by (by destruct e).
    apply announced_entry_ok; [done|]. intros HM. by rewrite HM in Ea.
Qed.

Lemma data_source_spec a s :
  0 <= da_epoch a -> registry_ok M (ds_entries (ma_state s)) ->
  wp (tp_discovery_service_apply_data_source W a) (fun _ => one_stream (da_stream_id a) s) s.
Proof.
  intros He Hok. unfold tp_discovery_service_apply_data_source. destruct s as [c p ev].
  cbn [ma_state] in Hok.
  destruct (Z.eqb_spec (da_stream_id a) 0) as [|Hs]; [wps; by apply one_stream_refl|]. wps.
  reserve Hs Hok i e c' p'. unfold get_entry. wps. rewrite Hi. wps.
  destruct (outdated e (da_epoch a)) eqn:Eo; wps.
  { rewrite (alter_nothing c' i). settle e c p ev. }
  apply outdated_spec in Eo; [|done]. unfold touch_entry, now_ns, set_entry. wps. settle e c p ev.
  destruct Hent as [H1 H2 H3 H4 H5 H6]. destruct e. split; cbn in *; try done.
  destruct (da_name a); [by apply kept_fits|done].
Qed.

Lemma copy_tags_spec tags (Q : option (list chars) -> machine -> Prop) s :
  (forall r p', (r = None -> ~ M) ->
     (forall l, r = Some l -> l = (fun tag => cstring (default [] tag)) <$> tags) ->
     Q r {| ma_state := ma_state s; ma_process := p'; ma_events := ma_events s |}) ->
  wp (copy_tags W tags) Q s.
Proof.
  revert Q s. induction tags as [|tag tags IH]; intros Q s HQ; cbn [copy_tags]; wps.
  { destruct s. apply HQ; [done|]. by intros l [= <-]. }
  destruct (w_alloc W _) eqn:Ea; cbn [negb]; wps.
  2:{ apply HQ; [|done]. intros _ HM. by rewrite HM in Ea. }
  apply IH. intros r p' Hnone Hsome. cbn [ma_state ma_process ma_events]. wps. apply HQ.
  - destruct r; [done|auto].
  - intros l Hl. destruct r as [l'|]; [|done]. injection Hl as <-. cbn. by rewrite (Hsome l').
Qed.

Lemma tags_ok_copied tags : Forall (fun t => "000"%char ∉ t) ((fun tag : ptr chars => cstring (default [] tag)) <$> tags).
Proof. apply Forall_fmap, Forall_forall. intros tag _. apply cstring_no_nul. Qed.

Lemma entry_ok_tags e tags now :
  entry_ok M e -> Forall (fun t => "000"%char ∉ t) tags ->
  entry_ok M (e <| de_tags := tags |> <| de_last_announce_ns := now |>).
Proof. intros [H1 H2 H3 H4 H5 H6] Ht. destruct e. by split. Qed.

Lemma set_tags_spec stream_id tags s :
  registry_ok M (ds_entries (ma_state s)) ->
  wp (tp_discovery_service_set_tags W stream_id tags) (fun _ => one_stream stream_id s) s.
Proof.
  intros Hok. unfold tp_discovery_service_set_tags. destruct s as [c p ev]. cbn [ma_state] in Hok.
  destruct (Z.eqb_spec stream_id 0) as [|Hs]; [wps; by apply one_stream_refl|]. wps.
  reserve Hs Hok i e c' p'. unfold touch_entry, now_ns, set_entry. wps.
  destruct (_ =? 0)%nat; wps.
  { settle e c p ev. apply entry_ok_tags; [done|constructor]. }
  assert (Hno : entry_ok M (e <| de_tags := [] |>)).
  { replace (e <| de_tags := [] |>) with (e <| de_tags := [] |> <| de_last_announce_ns := de_last_announce_ns e |>)
      by (by destruct e). apply entry_ok_tags; [done|constructor]. }
  destruct (w_alloc W _) eqn:Ea; cbn [negb]; wps; [|settle e c p ev].
  apply copy_tags_spec. intros r p2 _ Hr. cbn [ma_state ma_process ma_events]. destruct r as [l|]; wps; [|settle e c p ev].
  settle e c p ev. rewrite (Hr l eq_refl). pose proof (entry_ok_tags e _ (u64 (w_clock_ns W (os_tick p2))) Hent (tags_ok_copied tags)) as H.
  by destruct e.
Qed.
End Operations.

(** ** What a query returns *)

Definition result_of (cfg : tp_discovery_service_config_t) (e : tp_discovery_entry_t) : tp_discovery_result_t :=
  {| rs_stream_id := de_stream_id e; rs_producer_id := de_producer_id e; rs_epoch := de_epoch e;
     rs_layout_version := de_layout_version e; rs_header_nslots := de_header_nslots e;
     rs_header_slot_bytes := de_header_slot_bytes e; rs_max_dims := de_max_dims e;
     rs_data_source_id := de_data_source_id e;
     rs_driver_control_stream_id := u32 (sc_driver_control_stream_id cfg);
     rs_header_region_uri := de_header_region_uri e; rs_data_source_name := de_data_source_name e;
     rs_driver_instance_id := kept 256 (sc_driver_instance_id cfg);
     rs_driver_control_channel := kept 1024 (sc_driver_control_channel cfg);
     rs_pools := if (de_pool_count e =? 0)%nat then NULL
                 else match de_pools e with Some l => Some (pool_info <$> l) | NULL => NULL end;
     rs_pool_count := de_pool_count e;
     rs_tags := if (length (de_tags e) =? 0)%nat then NULL else Some (Some <$> de_tags e);
     rs_tag_count := length (de_tags e) |}.

Section Queries.
Context (W : world).
Abbreviation M := (memory_enough W).
Abbreviation wp := (wp (~ M)).

Lemma tag_copies_spec tags (Q : list (ptr chars) -> machine -> Prop) s :
  (forall r p', (M -> r = Some <$> tags) ->
     Q r {| ma_state := ma_state s; ma_process := p'; ma_events := ma_events s |}) ->
  wp (result_tag_copies W tags) Q s.
Proof.
  revert Q s. induction tags as [|tag tags IH]; intros Q s HQ; cbn [result_tag_copies]; wps.
  { destruct s. by apply HQ. }
  apply IH. intros r p' Hr. cbn [ma_state ma_process ma_events]. wps. apply HQ. intros HM.
  by rewrite HM, Hr.
Qed.

Lemma fill_spec e (Q : tp_discovery_result_t -> machine -> Prop) s :
  entry_ok M e ->
  (forall r p', (M -> r = result_of (ds_config (ma_state s)) e) ->
     Q r {| ma_state := ma_state s; ma_process := p'; ma_events := ma_events s |}) ->
  wp (tp_discovery_result_fill W e) Q s.
Proof.
  intros He HQ. unfold tp_discovery_result_fill. wps.
  assert (Htags : forall pools p, (M -> pools = rs_pools (result_of (ds_config (ma_state s)) e)) ->
    wp (result_tags W e) (fun tags => wp (give
      {| rs_stream_id := de_stream_id e; rs_producer_id := de_producer_id e; rs_epoch := de_epoch e;
         rs_layout_version := de_layout_version e; rs_header_nslots := de_header_nslots e;
         rs_header_slot_bytes := de_header_slot_bytes e; rs_max_dims := de_max_dims e;
         rs_data_source_id := de_data_source_id e;
         rs_driver_control_stream_id := u32 (sc_driver_control_stream_id (ds_config (ma_state s)));
         rs_header_region_uri := de_header_region_uri e; rs_data_source_name := de_data_source_name e;
         rs_driver_instance_id := kept 256 (sc_driver_instance_id (ds_config (ma_state s)));
         rs_driver_control_channel := kept 1024 (sc_driver_control_channel (ds_config (ma_state s)));
         rs_pools := pools; rs_pool_count := de_pool_count e; rs_tags := tags;
         rs_tag_count := length (de_tags e) |}) Q)
      {| ma_state := ma_state s; ma_process := p; ma_events := ma_events s |}).
  { intros pools p Hpools. unfold result_tags. destruct (_ =? 0)%nat eqn:En; wps.
    { apply HQ. intros HM. rewrite (Hpools HM). unfold result_of. by rewrite En. }
    destruct (w_alloc W _) eqn:Ea; cbn [negb]; wps.
    - apply tag_copies_spec. intros r p' Hr. cbn [ma_state ma_process ma_events]. wps. apply HQ.
      intros HM. rewrite (Hpools HM), (Hr HM). unfold result_of. by rewrite En.
    - apply HQ. intros HM. by rewrite HM in Ea. }
  unfold result_pools. destruct (_ =? 0)%nat eqn:En; wps.
  { destruct s. apply Htags. intros _. unfold result_of. cbn. by rewrite En. }
  destruct (w_alloc W _) eqn:Ea; cbn [negb]; wps.
  2:{ apply Htags. intros HM. by rewrite HM in Ea. }
  pose proof (eo_pools _ _ He) as Hp. destruct (de_pools e) as [l|] eqn:El; wps.
  - apply Htags. intros _. unfold result_of. cbn. by rewrite En, El.
  - intros HM. rewrite (Hp HM) in En. done.
Qed.

Lemma fill_results_spec l (Q : list tp_discovery_result_t -> machine -> Prop) s :
  Forall (entry_ok M) l ->
  (forall r p', (M -> r = result_of (ds_config (ma_state s)) <$> l) ->
     Q r {| ma_state := ma_state s; ma_process := p'; ma_events := ma_events s |}) ->
  wp (fill_results W l) Q s.
Proof.
  intros Hl. revert Q s. induction Hl as [|e l He _ IH]; intros Q s HQ; cbn [fill_results]; wps.
  { destruct s. by apply HQ. }
  apply fill_spec; [done|]. intros r p' Hr. wps. apply IH. intros rest p2 Hrest. wps. apply HQ.
  intros HM. by rewrite Hr, Hrest.
Qed.

(** The registry after the expired entries are gone. *)
Definition pruned (now : Z) (c : tp_discovery_service_t) : tp_discovery_service_t :=
  c <| ds_entries := List.filter (fun e => negb (expired now (tp_discovery_expiry_ns (ds_config c)) e))
                       (ds_entries c) |>.

Lemma prune_spec (Q : unit -> machine -> Prop) s :
  Q tt {| ma_state := pruned (u64 (w_clock_ns W (os_tick (ma_process s)))) (ma_state s);
          ma_process := later (ma_process s); ma_events := ma_events s |} ->
  wp (tp_discovery_prune_expired W) Q s.
Proof.
  intros HQ. unfold tp_discovery_prune_expired, now_ns. wps.
  match goal with |- Q _ {| ma_state := ?x |} => replace x with
    (pruned (u64 (w_clock_ns W (os_tick (ma_process s)))) (ma_state s)); [done|] end.
  destruct s as [[cfg l pubs] p ev]. unfold pruned.
  change (Build_tp_discovery_service_t cfg (List.filter (fun e => negb (expired
            (u64 (w_clock_ns W (os_tick p))) (tp_discovery_expiry_ns cfg) e)) l) pubs =
          Build_tp_discovery_service_t cfg (prune_loop (length l)
            (u64 (w_clock_ns W (os_tick p))) (tp_discovery_expiry_ns cfg) 0 l) pubs).
  by rewrite prune_loop_filter.
Qed.

Lemma pruned_ok now c : registry_ok M (ds_entries c) -> registry_ok M (ds_entries (pruned now c)).
Proof. apply registry_ok_sublist, filter_sublist. Qed.

(** The answer to a query, with the time at which it looked. *)
Definition answer_to (q : tp_discovery_request_t) (now : Z) (c : tp_discovery_service_t)
    : tp_discovery_response_t :=
  let found := hits now q c in
  let over := sc_max_results (ds_config c) <? Z.of_nat (length found) in
  {| dr_request_id := rq_request_id q;
     dr_status := if over then discoveryStatus_ERROR else discoveryStatus_OK;
     dr_error_message := if over then lit "result limit exceeded" else [];
     dr_results := if over then [] else result_of (ds_config c) <$> found |}.

Lemma query_spec q (Q : res tp_discovery_response_t -> machine -> Prop) s :
  registry_ok M (ds_entries (ma_state s)) ->
  (let now t := u64 (w_clock_ns W t) in
   let c := pruned (now (os_tick (ma_process s))) (ma_state s) in
   forall r p', (M -> r = Ok (answer_to q (now (S (os_tick (ma_process s)))) c)) ->
     Q r {| ma_state := c; ma_process := p'; ma_events := ma_events s |}) ->
  wp (tp_discovery_service_query W q) Q s.
Proof.
  intros Hok HQ. cbv zeta in HQ. unfold tp_discovery_service_query. wps. apply prune_spec. unfold now_ns. wps.
  set (c := pruned _ (ma_state s)) in *. cbn [later os_tick].
  set (now := u64 (w_clock_ns W (S (os_tick (ma_process s))))) in *.
  assert (Hhits : Forall (entry_ok M) (hits now q c)).
  { apply Forall_forall. intros e Hin. eapply Forall_forall; [eapply ro_entries, (pruned_ok (u64 (w_clock_ns W (os_tick (ma_process s)))) _ Hok)|].
    eapply elem_of_sublist; [exact Hin|apply filter_sublist]. }
  unfold answer_to in HQ. cbv zeta in HQ.
  destruct (_ <? _); wps; [by apply HQ|].
  destruct (hits now q c) as [|e l] eqn:Eh; cbn [length Nat.eqb]; wps; [by apply HQ|].
  destruct (w_alloc W _) eqn:Ea; cbn [negb]; wps.
  - apply fill_results_spec; [done|]. intros r p' Hr. cbn [ma_state ma_process ma_events]. wps. apply HQ.
    intros HM. by rewrite (Hr HM).
  - apply HQ. intros HM. by rewrite HM in Ea.
Qed.
End Queries.

(** ** Runs of the service *)

Definition service_new (cfg : tp_discovery_service_config_t) (p : process) : machine :=
  {| ma_state := {| ds_config := cfg; ds_entries := []; ds_publications := [] |};
     ma_process := p; ma_events := [] |}.

(** ** What a query should find

    Stated without the functions of the service. *)

Definition period_ns (cfg : tp_discovery_service_config_t) : Z :=
  if sc_announce_period_ms cfg =? 0 then 1000000000 else sc_announce_period_ms cfg * 1000000.

(** A stream is lost when its last news is more than three announce periods old. *)
Definition lost (cfg : tp_discovery_service_config_t) (now : Z) (e : tp_discovery_entry_t) : Prop :=
  3 * period_ns cfg < now - de_last_announce_ns e.

(** There were news of the stream at all. *)
Definition heard (e : tp_discovery_entry_t) : Prop := de_last_announce_ns e <> 0.

(** The request leaves a number open, or names the stream's. *)
Definition asks_number (asked open actual : Z) : Prop := asked = open \/ asked = actual.

Record wanted (q : tp_discovery_request_t) (e : tp_discovery_entry_t) : Prop := {
  wt_stream : asks_number (rq_stream_id q) TP_NULL_U32 (de_stream_id e);
  wt_producer : asks_number (rq_producer_id q) TP_NULL_U32 (de_producer_id e);
  wt_source : asks_number (rq_data_source_id q) TP_NULL_U64 (de_data_source_id e);
  wt_name : forall name, rq_data_source_name q = Some name ->
    cstring name = [] \/ cstring name = de_data_source_name e;
  wt_tags : forall tag, tag ∈ rq_tags q -> exists name, tag = Some name /\ cstring name ∈ de_tags e;
}.

(** The period is a 32-bit number, and the 64-bit clock does not end within three
    periods of the last news of a stream. *)
Record times_fit (c : tp_discovery_service_t) : Prop := {
  tf_period : 0 <= sc_announce_period_ms (ds_config c) < 2 ^ 32;
  tf_news : Forall (fun e => 0 <= de_last_announce_ns e /\
              de_last_announce_ns e + 3 * period_ns (ds_config c) < 2 ^ 64) (ds_entries c);
}.

Lemma expiry_periods cfg :
  0 <= sc_announce_period_ms cfg < 2 ^ 32 ->
  tp_discovery_expiry_ns cfg = 3 * period_ns cfg /\ 0 < period_ns cfg.
Proof.
  intros Hp. unfold tp_discovery_expiry_ns, period_ns. cbv zeta.
  rewrite (u64_small (sc_announce_period_ms cfg * 1000000)) by ulia.
  destruct (Z.eqb_spec (sc_announce_period_ms cfg) 0) as [->|Hne]; [done|].
  destruct (Z.eqb_spec (sc_announce_period_ms cfg * 1000000) 0); [lia|].
  rewrite u64_small by ulia. lia.
Qed.

Lemma lost_spec c now e :
  times_fit c -> e ∈ ds_entries c ->
  (u64 (de_last_announce_ns e + tp_discovery_expiry_ns (ds_config c)) <? now) = true <->
  lost (ds_config c) now e.
Proof.
  intros [Hp Hn] He. destruct (expiry_periods _ Hp) as [-> Hpos]. unfold lost.
  eapply Forall_forall in Hn; [|exact He]. cbv beta in Hn. rewrite u64_small, Z.ltb_lt by ulia. lia.
Qed.

Lemma number_asked asked open actual :
  negb (asked =? open) && negb (asked =? actual) = false <-> asks_number asked open actual.
Proof.
  unfold asks_number. destruct (Z.eqb_spec asked open), (Z.eqb_spec asked actual); cbn;
    split; intros; (done || tauto || intuition congruence).
Qed.

Lemma and_under (P Q R : Prop) : (P -> Q <-> R) -> P /\ Q <-> P /\ R.
Proof. tauto. Qed.

Lemma has_tag_spec e tag :
  tp_discovery_entry_has_tag e tag = true <-> exists name, tag = Some name /\ cstring name ∈ de_tags e.
Proof.
  destruct tag as [tag|]; cbn; [|split; [done|by intros (? & ? & _)]].
  rewrite existsb_exists. split.
  - intros (t & Ht%list_elem_of_In & ->%bool_decide_eq_true). by exists tag.
  - intros (name & [= ->] & Hin). exists (cstring name). split; [by apply list_elem_of_In|].
    by apply bool_decide_eq_true.
Qed.

Lemma matches_wanted e q : tp_discovery_entry_matches e q = true <-> wanted q e.
Proof.
  unfold tp_discovery_entry_matches.
  transitivity (asks_number (rq_stream_id q) TP_NULL_U32 (de_stream_id e) /\
    asks_number (rq_producer_id q) TP_NULL_U32 (de_producer_id e) /\
    asks_number (rq_data_source_id q) TP_NULL_U64 (de_data_source_id e) /\
    (forall name, rq_data_source_name q = Some name ->
       cstring name = [] \/ cstring name = de_data_source_name e) /\
    forall tag, tag ∈ rq_tags q -> exists name, tag = Some name /\ cstring name ∈ de_tags e).
  2:{ split; [by intros (? & ? & ? & ? & ?)|by intros []]. }
  rewrite <- !number_asked.
  destruct (negb (rq_stream_id q =? TP_NULL_U32) && _); [by split; [|intros [? _]]|].
  destruct (negb (rq_producer_id q =? TP_NULL_U32) && _); [by split; [|intros (_ & ? & _)]|].
  destruct (negb (rq_data_source_id q =? TP_NULL_U64) && _); [by split; [|intros (_ & _ & ? & _)]|].
  assert (Hname : match rq_data_source_name q with
    | NULL => false
    | Some name => negb (strcmp_eq (cstring name) []) && negb (strcmp_eq (cstring name) (de_data_source_name e))
    end = false <-> forall name, rq_data_source_name q = Some name ->
      cstring name = [] \/ cstring name = de_data_source_name e).
  { destruct (rq_data_source_name q) as [n|]; [|by split; [intros _ ? [=]|]]. unfold strcmp_eq.
    rewrite andb_false_iff, !negb_false_iff, !bool_decide_eq_true. naive_solver. }
  destruct (match rq_data_source_name q with NULL => false | Some _ => _ end).
  - split; [done|]. intros (_ & _ & _ & Hn & _). by apply Hname in Hn.
  - rewrite <- Hname, forallb_forall. split.
    + intros Ht. split_and!; try done. intros tag Hin. by apply has_tag_spec, Ht, list_elem_of_In.
    + intros (_ & _ & _ & _ & Ht) tag Hin%list_elem_of_In. by apply has_tag_spec, Ht.
Qed.

Section Runs.
Context (W : world).
Abbreviation M := (memory_enough W).

(** What can happen to the registry, in any order. *)
Inductive service_step : machine -> machine -> Prop :=
  | step_announce s a r s' :
      0 <= an_epoch a -> tp_discovery_service_apply_announce W a s = Some (r, s') -> service_step s s'
  | step_data_source s a r s' :
      0 <= da_epoch a -> tp_discovery_service_apply_data_source W a s = Some (r, s') -> service_step s s'
  | step_set_tags s stream_id tags r s' :
      tp_discovery_service_set_tags W stream_id tags s = Some (r, s') -> service_step s s'
  | step_query s q r s' :
      tp_discovery_service_query W q s = Some (r, s') -> service_step s s'
  | step_prune s r s' :
      tp_discovery_prune_expired W s = Some (r, s') -> service_step s s'
  | step_publication s channel stream_id r s' :
      tp_discovery_get_publication W channel stream_id s = Some (r, s') -> service_step s s'.

Inductive service_reached (cfg : tp_discovery_service_config_t) (p : process) : machine -> Prop :=
  | reached_new : service_reached cfg p (service_new cfg p)
  | reached_step s s' : service_reached cfg p s -> service_step s s' -> service_reached cfg p s'.

Lemma keeps_newest_refl l : registry_ok M l -> keeps_newest l l.
Proof. intros Hok. by eapply keeps_newest_sublist. Qed.

Lemma publication_spec channel stream_id s :
  wp False (tp_discovery_get_publication W channel stream_id)
    (fun _ s' => ds_entries (ma_state s') = ds_entries (ma_state s) /\
                 ds_config (ma_state s') = ds_config (ma_state s)) s.
Proof.
  unfold tp_discovery_get_publication. wps. destruct (find_index _ _); [by wps|]. wps.
  destruct (w_alloc W _); cbn [negb]; wps; [|done]. by destruct (w_subscribe W _); wps.
Qed.

Lemma step_kept s s' :
  registry_ok M (ds_entries (ma_state s)) -> service_step s s' ->
  registry_ok M (ds_entries (ma_state s')) /\ ds_config (ma_state s') = ds_config (ma_state s) /\
  keeps_newest (ds_entries (ma_state s)) (ds_entries (ma_state s')).
Proof.
  intros Hok Hstep.
  assert (Hone : forall stream_id, one_stream W stream_id s s' ->
    registry_ok M (ds_entries (ma_state s')) /\ ds_config (ma_state s') = ds_config (ma_state s) /\
    keeps_newest (ds_entries (ma_state s)) (ds_entries (ma_state s'))) by (by intros ? [[] ? ? _]).
  assert (Hpruned : forall now, registry_ok M (ds_entries (pruned now (ma_state s))) /\
    ds_config (pruned now (ma_state s)) = ds_config (ma_state s) /\
    keeps_newest (ds_entries (ma_state s)) (ds_entries (pruned now (ma_state s)))).
  { intros now. split_and!; [by apply pruned_ok|by destruct (ma_state s)|].
    eapply keeps_newest_sublist; [done|apply filter_sublist]. }
  destruct Hstep as [s a r s' He E|s a r s' He E|s id tags r s' E|s q r s' E|s r s' E|s channel id r s' E].
  - eapply Hone, (wp_reached (~ M) _ _ _ _ _ (announce_spec W a s He Hok) E).
  - eapply Hone, (wp_reached (~ M) _ _ _ _ _ (data_source_spec W a s He Hok) E).
  - eapply Hone, (wp_reached (~ M) _ _ _ _ _ (set_tags_spec W id tags s Hok) E).
  - assert (Hw : wp (~ M) (tp_discovery_service_query W q) (fun _ s' => exists now, ma_state s' = pruned now (ma_state s)) s)
      by (apply query_spec; [done|]; intros; by eexists).
    apply (wp_reached _ _ _ _ _ _ Hw) in E as [now ->]. apply Hpruned.
  - assert (Hw : wp (~ M) (tp_discovery_prune_expired W) (fun _ s' => exists now, ma_state s' = pruned now (ma_state s)) s)
      by (apply prune_spec; by eexists).
    apply (wp_reached _ _ _ _ _ _ Hw) in E as [now ->]. apply Hpruned.
  - destruct (wp_reached _ _ _ _ _ _ (publication_spec channel id s) E) as [-> ->]. split_and!; [done..|].
    by apply keeps_newest_refl.
Qed.

Lemma reached_ok cfg p s :
  service_reached cfg p s -> registry_ok M (ds_entries (ma_state s)) /\ ds_config (ma_state s) = cfg.
Proof.
  induction 1 as [|s s' _ [IH1 IH2] Hs]; [split; [split; cbn; constructor|done]|].
  apply step_kept in Hs as (? & ? & _); [|done]. by split; [|congruence].
Qed.

(** C18: Whatever is announced, tagged and asked for, and in any order, every entry
    of the registry is of a stream of its own, its texts lie within their arrays,
    the pools it has all have the slots of its header ring and are as many as it
    counts; and as long as a stream stays in the registry its epoch never goes
    back.  All this also when allocations fail.  Only while none does it also holds
    that an entry without an array of pools counts none: the clause [M -> _] of
    [entry_ok] (see [pools_without_memory] for what follows when one fails). *)
Theorem registry_kept cfg p s s' :
  service_reached cfg p s -> service_step s s' ->
  registry_ok M (ds_entries (ma_state s')) /\ ds_config (ma_state s') = cfg /\
  keeps_newest (ds_entries (ma_state s)) (ds_entries (ma_state s')).
Proof.
  intros Hr Hs. apply reached_ok in Hr as [Hok Hcfg]. apply step_kept in Hs as (? & ? & ?); [|done].
  split_and!; [done|congruence|done].
Qed.

(** C21: With memory for all its allocations, a query returns.  It forgets exactly
    the streams that were heard of but not for three announce periods, and answers
    with exactly the remaining streams that were heard of and that the request asks
    for - by stream, producer and data source identifier, by data source name and
    by all its tags, each of which it may leave open -, each once, in the order of
    the registry and with what the registry holds of it; or with an error and no
    results, when these are more than the limit allows.  The clock is read twice;
    its 64 bits do not end within three periods of the last news ([times_fit]). *)
Theorem query_exact cfg p q s :
  memory_enough W -> service_reached cfg p s -> times_fit (ma_state s) ->
  let now t := u64 (w_clock_ns W t) in
  let t := os_tick (ma_process s) in
  exists r s' found, tp_discovery_service_query W q s = Some (Ok r, s') /\
    ds_entries (ma_state s') `sublist_of` ds_entries (ma_state s) /\
    (forall e, e ∈ ds_entries (ma_state s') <->
       e ∈ ds_entries (ma_state s) /\ ~ (heard e /\ lost cfg (now t) e)) /\
    found `sublist_of` ds_entries (ma_state s') /\ NoDup (de_stream_id <$> found) /\
    (forall e, e ∈ found <->
       e ∈ ds_entries (ma_state s') /\ heard e /\ ~ lost cfg (now (S t)) e /\ wanted q e) /\
    dr_request_id r = rq_request_id q /\
    if sc_max_results cfg <? Z.of_nat (length found)
    then dr_status r = discoveryStatus_ERROR /\ dr_results r = []
    else dr_status r = discoveryStatus_OK /\ dr_results r = result_of cfg <$> found.
Proof.
  intros HM Hr Hfit now t. apply reached_ok in Hr as [Hok Hcfg].
  set (c := ma_state s) in *.
  assert (Hw : wp (~ M) (tp_discovery_service_query W q)
    (fun r s' => r = Ok (answer_to q (now (S t)) (pruned (now t) c)) /\
                 ma_state s' = pruned (now t) c) s).
  { apply query_spec; [done|]. intros now' c' r p' Hr. split; [by apply Hr|done]. }
  unfold wp in Hw. destruct (tp_discovery_service_query W q s) as [[r s']|]; [|done].
  destruct Hw as [-> Hs']. exists (answer_to q (now (S t)) (pruned (now t) c)), s',
    (hits (now (S t)) q (pruned (now t) c)).
  assert (Hc : ds_config (pruned (now t) c) = cfg) by (by destruct c).
  assert (He : ds_entries (pruned (now t) c) =
    List.filter (fun e => negb (expired (now t) (tp_discovery_expiry_ns cfg) e)) (ds_entries c))
    by (destruct c; cbn in *; by subst).
  rewrite Hs', He. unfold hits. rewrite Hc, He. rewrite <- Hcfg in *.
  assert (Hleft : forall e, e ∈ List.filter (fun e => negb (expired (now t) (tp_discovery_expiry_ns (ds_config c)) e))
      (ds_entries c) <-> e ∈ ds_entries c /\ ~ (heard e /\ lost (ds_config c) (now t) e)).
  { intros e. rewrite list_elem_of_In, List.filter_In, <- list_elem_of_In.
    apply and_under. intros Hin. unfold expired, heard. rewrite <- (lost_spec _ _ _ Hfit Hin).
    destruct (Z.eqb_spec (de_last_announce_ns e) 0), (_ <? _); cbn; intuition congruence. }
  split_and!; [done|apply filter_sublist|exact Hleft|apply filter_sublist| | |done|].
  - eapply sublist_NoDup; [apply Hok|]. apply fmap_sublist. eapply transitivity; apply filter_sublist.
  - intros e. rewrite list_elem_of_In, List.filter_In, <- list_elem_of_In.
    apply and_under. intros [Hin _]%Hleft. unfold stale, heard.
    rewrite andb_true_iff, matches_wanted, <- (lost_spec _ _ _ Hfit Hin).
    destruct (Z.eqb_spec (de_last_announce_ns e) 0), (_ <? _); cbn; intuition congruence.
  - unfold answer_to, hits. rewrite Hc, He. cbn. by destruct (_ <? _).
Qed.
End Runs.

(** ** From an announcement to the answers *)

Record announceable (a : tp_shm_pool_announce_t) : Prop := {
  ab_stream : an_stream_id a <> 0;
  ab_epoch : 0 <= an_epoch a;
  ab_slot_bytes : an_header_slot_bytes a = TP_HEADER_SLOT_BYTES;
  ab_nslots : an_header_nslots a <> 0;
  ab_pools : default [] (an_pools a) <> [];
  ab_same : Forall (fun p => ap_pool_nslots p = an_header_nslots a) (default [] (an_pools a));
}.

(** The entry of a stream after its announcement at a time; [e] was there before. *)
Definition heard_of (a : tp_shm_pool_announce_t) (e : tp_discovery_entry_t) (now : Z) : tp_discovery_entry_t :=
  (announced_entry a e) <| de_pools := Some (pool_entry <$> default [] (an_pools a)) |>
                        <| de_last_announce_ns := now |>.

(** A request for one stream, without other filters. *)
Record asks_for (stream_id : Z) (q : tp_discovery_request_t) : Prop := {
  af_stream : rq_stream_id q = stream_id;
  af_producer : rq_producer_id q = TP_NULL_U32;
  af_source : rq_data_source_id q = TP_NULL_U64;
  af_name : rq_data_source_name q = NULL;
  af_tags : rq_tags q = [];
}.

Lemma asks_matches stream_id q e :
  asks_for stream_id q -> stream_id <> TP_NULL_U32 ->
  tp_discovery_entry_matches e q = (stream_id =? de_stream_id e).
Proof.
  intros [H1 H2 H3 H4 H5] Hne. unfold tp_discovery_entry_matches.
  rewrite H1, H2, H3, H4, H5, (Z.eqb_refl TP_NULL_U32), (Z.eqb_refl TP_NULL_U64).
  apply Z.eqb_neq in Hne. rewrite Hne. by destruct (stream_id =? de_stream_id e).
Qed.

Lemma filter_only (f : tp_discovery_entry_t -> bool) l e :
  NoDup (de_stream_id <$> l) -> e ∈ l -> f e = true ->
  (forall e', e' ∈ l -> f e' = true -> de_stream_id e' = de_stream_id e) -> List.filter f l = [e].
Proof.
  intros Hn Hin He Hf. apply list_elem_of_split in Hin as (l1 & l2 & ->).
  rewrite fmap_app, fmap_cons in Hn.
  apply NoDup_app in Hn as (_ & H1 & [H2 _]%NoDup_cons).
  assert (Hnil : forall l, (forall x, x ∈ l -> f x = false) -> List.filter f l = []).
  { intros l. induction l as [|x l IH]; intros Hx; [done|]. cbn. rewrite (Hx x) by by left.
    apply IH. intros y Hy. apply Hx. by right. }
  rewrite List.filter_app, Hnil; [cbn; rewrite He, Hnil; [done|]|].
  - intros x Hx. destruct (f x) eqn:Ex; [|done]. exfalso. apply H2, list_elem_of_fmap.
    exists x. split; [|done]. rewrite (Hf x); [done| |done]. apply elem_of_app. right. by right.
  - intros x Hx. destruct (f x) eqn:Ex; [|done]. exfalso. apply (H1 (de_stream_id x)).
    + apply list_elem_of_fmap. by exists x.
    + rewrite (Hf x); [by left| |done]. apply elem_of_app. by left.
Qed.

Section Announced.
Context (W : world) (HM : memory_enough W).
Abbreviation M := (memory_enough W).
Abbreviation wp := (wp (~ M)).

Lemma accepted_spec a (Q : bool -> machine -> Prop) s :
  announceable a -> registry_ok M (ds_entries (ma_state s)) ->
  (forall e, e ∈ ds_entries (ma_state s) -> de_stream_id e = an_stream_id a -> de_epoch e <= an_epoch a) ->
  (forall i e c' p' t, ds_entries c' !! i = Some e -> de_stream_id e = an_stream_id a ->
     ds_config c' = ds_config (ma_state s) -> entry_ok M e ->
     (de_data_source_name e = [] \/ e ∈ ds_entries (ma_state s)) ->
     Q true {| ma_state := c' <| ds_entries ::= alter (fun e => heard_of a e (u64 (w_clock_ns W t))) i |>;
               ma_process := p'; ma_events := ma_events s |}) ->
  wp (tp_discovery_service_apply_announce W a) Q s.
Proof.
  intros [Hs He Hb Hns Hp Hf] Hok Hnew HQ. unfold tp_discovery_service_apply_announce.
  destruct s as [c p ev]. cbn [ma_state ma_process ma_events] in *.
  destruct (Z.eqb_spec (an_stream_id a) 0); [done|]. rewrite Hb, Z.eqb_refl. cbn [negb].
  destruct (Nat.eqb_spec (length (default [] (an_pools a))) 0) as [Hl|_].
  { by apply length_zero_iff_nil in Hl. }
  destruct (Z.eqb_spec (an_header_nslots a) 0); [done|]. cbn [orb]. wps.
  apply reserve_spec; [done|done|by intros []|].
  intros i e c' p' Hi Hid Hok' Hc Hpub Hl. cbn [ma_state ma_process ma_events] in *. unfold get_entry. wps.
  rewrite Hi. wps. assert (Hin : de_data_source_name e = [] /\ de_epoch e = 0 \/ e ∈ ds_entries c).
  { apply list_elem_of_lookup_2 in Hi. destruct Hl as [<-|[_ E]]; [by right|]. rewrite E in Hi.
    apply elem_of_app in Hi as [?| ->%list_elem_of_singleton]; [by right|by left]. }
  assert (Eo : outdated e (an_epoch a) = false).
  { unfold outdated. destruct (Z.eqb_spec (de_epoch e) 0); [done|]. cbn [negb andb]. apply Z.ltb_ge.
    destruct Hin as [[_ E]|Hin]; [lia|]. by apply Hnew. }
  rewrite Eo. unfold touch_entry, now_ns, set_entry. wps. rewrite (HM _). cbn [negb].
  pose proof (copy_pools_spec (an_header_nslots a) (default [] (an_pools a))) as Hcp.
  destruct (copy_pools _ _) as [l|].
  2:{ apply Exists_exists in Hcp as (x & Hx & Hne). exfalso. apply Hne. by eapply Forall_forall in Hf. }
  destruct Hcp as [-> _]. wps. rewrite ?alter_again, ?entries_alter_twice. eapply HQ; try done.
  - eapply Forall_lookup_1; [apply Hok'|done].
  - by destruct Hin as [[? _]|?]; [left|right].
Qed.

(** The window in which an announcement counts: no clock reading is more than
    three periods after another. *)
Definition within_expiry (cfg : tp_discovery_service_config_t) : Prop :=
  forall t t', 0 < w_clock_ns W t /\ w_clock_ns W t' <= w_clock_ns W t + tp_discovery_expiry_ns cfg < 2 ^ 64.

Lemma window_live cfg t t' :
  within_expiry cfg -> u64 (w_clock_ns W t) = w_clock_ns W t /\
  (u64 (w_clock_ns W t + tp_discovery_expiry_ns cfg) <? u64 (w_clock_ns W t')) = false.
Proof.
  intros Hwin. pose proof (Hwin t t) as [Ht [_ Ht2]]. pose proof (Hwin t t') as [_ [Hle _]].
  pose proof (Hwin t' t') as [Ht' [_ Ht2']].
  assert (0 <= tp_discovery_expiry_ns cfg) by (unfold tp_discovery_expiry_ns, u64; apply Z.mod_pos_bound; done).
  rewrite !u64_small by ulia. split; [done|]. by apply Z.ltb_ge.
Qed.

Lemma announce_heard a s :
  announceable a -> registry_ok M (ds_entries (ma_state s)) ->
  (forall e, e ∈ ds_entries (ma_state s) -> de_stream_id e = an_stream_id a -> de_epoch e <= an_epoch a) ->
  wp (tp_discovery_service_apply_announce W a) (fun r s1 => r = true /\
    registry_ok M (ds_entries (ma_state s1)) /\ ds_config (ma_state s1) = ds_config (ma_state s) /\
    ma_events s1 = ma_events s /\
    exists e t, heard_of a e (u64 (w_clock_ns W t)) ∈ ds_entries (ma_state s1) /\
      de_stream_id e = an_stream_id a /\ entry_ok M e /\
      (de_data_source_name e = [] \/ e ∈ ds_entries (ma_state s))) s.
Proof.
  intros Ha Hok Hnew. apply wp_eq, accepted_spec; [done..|]. intros i e c' p' t Hi Hid Hc Hent Hold Hrun.
  pose proof (wp_reached (~ M) _ _ _ _ _ (announce_spec W a s (ab_epoch _ Ha) Hok) Hrun) as Hone.
  cbv beta in Hone. split; [done|]. split; [apply Hone|]. split; [apply Hone|]. split; [done|]. exists e, t.
  split_and!; [|done|done|done]. cbn [ma_state].
  change (heard_of a e (u64 (w_clock_ns W t)) ∈ alter (fun e => heard_of a e (u64 (w_clock_ns W t))) i (ds_entries c')).
  apply elem_of_alter. right. by exists e.
Qed.

(** While its time has not passed it is all that a query for the stream finds. *)
Lemma heard_hit a e t t0 t1 q c :
  registry_ok M (ds_entries c) -> within_expiry (ds_config c) ->
  asks_for (an_stream_id a) q -> an_stream_id a <> TP_NULL_U32 -> de_stream_id e = an_stream_id a ->
  heard_of a e (u64 (w_clock_ns W t)) ∈ ds_entries c ->
  hits (u64 (w_clock_ns W t1)) q (pruned (u64 (w_clock_ns W t0)) c) = [heard_of a e (w_clock_ns W t)].
Proof.
  intros Hok Hwin Hq Hne Hid Hin. destruct (window_live _ t t0 Hwin) as [Et Hl0].
  destruct (window_live _ t t1 Hwin) as [_ Hl1]. rewrite Et in Hin.
  assert (Hlast : de_last_announce_ns (heard_of a e (w_clock_ns W t)) = w_clock_ns W t) by (by destruct e).
  assert (Hsid : de_stream_id (heard_of a e (w_clock_ns W t)) = an_stream_id a) by (by destruct e).
  assert (Hc : ds_config (pruned (u64 (w_clock_ns W t0)) c) = ds_config c) by (by destruct c).
  unfold hits. rewrite Hc. apply filter_only.
  - apply (pruned_ok W _ _ Hok).
  - assert (E : ds_entries (pruned (u64 (w_clock_ns W t0)) c) = List.filter (fun e =>
      negb (expired (u64 (w_clock_ns W t0)) (tp_discovery_expiry_ns (ds_config c)) e)) (ds_entries c))
      by (by destruct c).
    rewrite E. apply list_elem_of_In, List.filter_In. split; [by apply list_elem_of_In|].
    unfold expired. rewrite Hlast, Hl0. by rewrite andb_false_r.
  - rewrite (asks_matches _ _ _ Hq Hne), Hsid, Z.eqb_refl, andb_true_r. unfold stale.
    rewrite Hlast, Hl1, orb_false_r. destruct (Hwin t t). by destruct (Z.eqb_spec (w_clock_ns W t) 0); [lia|].
  - intros e' _. rewrite (asks_matches _ _ _ Hq Hne). intros [_ ?%Z.eqb_eq]%andb_true_iff. congruence.
Qed.

(** What remains of an announcement while its time has not passed. *)
Lemma announced_answer a q s :
  announceable a -> registry_ok M (ds_entries (ma_state s)) ->
  (forall e, e ∈ ds_entries (ma_state s) -> de_stream_id e = an_stream_id a -> de_epoch e <= an_epoch a) ->
  asks_for (an_stream_id a) q -> an_stream_id a <> TP_NULL_U32 ->
  within_expiry (ds_config (ma_state s)) -> 1 <= sc_max_results (ds_config (ma_state s)) ->
  exists s1 s2 e t, tp_discovery_service_apply_announce W a s = Some (true, s1) /\
    tp_discovery_service_query W q s1 =
      Some (Ok {| dr_request_id := rq_request_id q; dr_status := discoveryStatus_OK; dr_error_message := [];
                  dr_results := [result_of (ds_config (ma_state s)) (heard_of a e (w_clock_ns W t))] |}, s2) /\
    ma_events s2 = ma_events s /\ de_stream_id e = an_stream_id a /\ entry_ok M e /\
    (de_data_source_name e = [] \/ e ∈ ds_entries (ma_state s)).
Proof.
  intros Ha Hok Hnew Hq Hne Hwin Hmax. pose proof (announce_heard a s Ha Hok Hnew) as Hw.
  unfold Machine.wp in Hw. destruct (tp_discovery_service_apply_announce W a s) as [[r s1]|]; [|done].
  destruct Hw as (-> & Hok1 & Hc1 & Hev & e & t & Hin & Hid & Hfit & Hold). rewrite <- Hc1 in *.
  set (now n := u64 (w_clock_ns W n)) in *. set (t0 := os_tick (ma_process s1)).
  pose proof (heard_hit a e t t0 (S t0) q _ Hok1 Hwin Hq Hne Hid Hin) as Hhits.
  assert (Hq' : wp (tp_discovery_service_query W q)
    (fun r s' => r = Ok (answer_to q (now (S t0)) (pruned (now t0) (ma_state s1))) /\
                 ma_events s' = ma_events s1) s1).
  { apply query_spec; [done|]. intros now' c' r p' Hr. split; [by apply Hr|done]. }
  unfold Machine.wp in Hq'. destruct (tp_discovery_service_query W q s1) as [[r2 s2]|] eqn:Eq; [|done].
  destruct Hq' as (-> & Hev2). exists s1, s2, e, t. split; [done|]. split.
  { rewrite Eq. unfold answer_to, now. rewrite Hhits.
    replace (ds_config (pruned (u64 (w_clock_ns W t0)) (ma_state s1))) with (ds_config (ma_state s1))
      by (by destruct (ma_state s1)).
    cbn [length]. by destruct (Z.ltb_spec (sc_max_results (ds_config (ma_state s1))) (Z.of_nat 1)); [lia|]. }
  split_and!; [congruence|done..].
Qed.
End Announced.

(** ** A concrete service *)

Module DiscoveryDemo.

Definition demo_world (clock : nat -> Z) (alloc : nat -> bool) : world :=
  {| w_kernel := TwoFiles.kernel_of_two_files; w_memory := fun _ _ => []; w_clock_ns := clock;
     w_realtime_ns := fun _ => 0; w_alloc := alloc; w_subscribe := fun _ => true; w_offer := fun _ => true |}.

(** All at one moment, with memory. *)
Definition calm : world := demo_world (fun _ => 1000) (fun _ => true).

Definition demo_config : tp_discovery_service_config_t :=
  {| sc_driver_instance_id := lit "driver-1"; sc_driver_control_channel := lit "aeron:ipc";
     sc_driver_control_stream_id := 1000; sc_announce_period_ms := 1000; sc_max_results := 2 |}.

Definition demo_service : machine := service_new demo_config fresh.

Definition demo_pool (nslots : Z) : tp_shm_pool_announce_pool_t :=
  {| ap_pool_id := 1; ap_pool_nslots := nslots; ap_stride_bytes := 4096;
     ap_region_uri := Some (TwoFiles.demo_uri "1.pool") |}.

Definition demo_announce (stream_id epoch nslots : Z) : tp_shm_pool_announce_t :=
  {| an_stream_id := stream_id; an_producer_id := 7; an_epoch := epoch; an_announce_timestamp_ns := 900;
     an_announce_clock_domain := 1; an_layout_version := 1; an_header_nslots := 8;
     an_header_slot_bytes := 256; an_header_region_uri := Some (TwoFiles.demo_uri "header.ring");
     an_pools := Some [demo_pool nslots] |}.

Definition demo_source (stream_id epoch : Z) : tp_data_source_announce_t :=
  {| da_stream_id := stream_id; da_producer_id := 7; da_epoch := epoch; da_meta_version := 1;
     da_name := Some (lit "camera"); da_summary := NULL |}.

Definition demo_query (stream_id : Z) (tags : list (ptr chars)) : tp_discovery_request_t :=
  {| rq_request_id := 99; rq_client_id := 7; rq_response_channel := Some (lit "aeron:ipc");
     rq_response_stream_id := 1501; rq_stream_id := stream_id; rq_producer_id := TP_NULL_U32;
     rq_data_source_id := TP_NULL_U64; rq_data_source_name := NULL; rq_tags := tags |}.

(** What a query finds: the streams with their numbers of pools; [None] is a crash. *)
Definition found (r : option (res tp_discovery_response_t * machine)) : option (list (Z * nat)) :=
  match r with
  | Some (Ok r, _) => Some ((fun x => (rs_stream_id x, rs_pool_count x)) <$> dr_results r)
  | Some (Err _, _) => Some []
  | None => None
  end.

#[local] Open Scope tp_scope.

Definition announced_once : option (bool * machine) :=
  tp_discovery_service_apply_announce calm (demo_announce 10 77 8) demo_service.

Lemma announced_ok : exists s, announced_once = Some (true, s).
Proof.
  assert (H : match announced_once with Some (true, _) => True | _ => False end) by (vm_compute; exact I).
  destruct announced_once as [[[] s]|]; [by exists s|destruct H..].
Qed.

Lemma announced_reached s : announced_once = Some (true, s) -> service_reached calm demo_config fresh s.
Proof.
  unfold announced_once. intros E. eapply reached_step; [apply reached_new|].
  eapply step_announce; [|exact E]. vm_compute. discriminate.
Qed.

Lemma registry_kept_witness :
  exists s s', announced_once = Some (true, s) /\
    tp_discovery_service_apply_announce calm (demo_announce 10 78 8) s = Some (true, s') /\
    registry_ok (memory_enough calm) (ds_entries (ma_state s')) /\
    keeps_newest (ds_entries (ma_state s)) (ds_entries (ma_state s')).
Proof.
  destruct announced_ok as [s E].
  assert (Hs : exists s', tp_discovery_service_apply_announce calm (demo_announce 10 78 8) s = Some (true, s')).
  { assert (H : match announced_once with
      | Some (_, s) => match tp_discovery_service_apply_announce calm (demo_announce 10 78 8) s with
                       | Some (true, _) => True | _ => False end
      | None => False end) by (vm_compute; exact I).
    rewrite E in H. destruct (tp_discovery_service_apply_announce _ _ s) as [[[] s']|]; [by exists s'|destruct H..]. }
  destruct Hs as [s' E']. exists s, s'.
  assert (Hstep : service_step calm s s') by (eapply step_announce; [|exact E']; vm_compute; discriminate).
  destruct (registry_kept calm demo_config fresh s s' (announced_reached s E) Hstep) as (H1 & _ & H2).
  split; [exact E|]. split; [exact E'|]. split; [exact H1|exact H2].
Defined.

Lemma query_exact_witness :
  exists s r s' found, announced_once = Some (true, s) /\
    tp_discovery_service_query calm (demo_query 10 []) s = Some (Ok r, s') /\
    dr_status r = discoveryStatus_OK /\ length (dr_results r) = 1%nat /\
    dr_results r = result_of demo_config <$> found /\
    forall e, e ∈ found ->
      e ∈ ds_entries (ma_state s') /\ heard e /\ ~ lost demo_config 1000 e /\ wanted (demo_query 10 []) e.
Proof.
  destruct announced_ok as [s E].
  assert (Hs : times_fit (ma_state s)).
  { assert (H : match announced_once with Some (_, s) => times_fit (ma_state s) | None => True end)
      by (vm_compute; repeat constructor; discriminate).
    by rewrite E in H. }
  destruct (query_exact calm demo_config fresh (demo_query 10 []) s (fun _ => eq_refl) (announced_reached s E) Hs)
    as (r & s' & found & Hq & _ & _ & _ & _ & Hf & _ & Hr).
  assert (Hone : match announced_once with
    | Some (_, s) => match tp_discovery_service_query calm (demo_query 10 []) s with
                     | Some (Ok r, _) => dr_status r = discoveryStatus_OK /\ length (dr_results r) = 1%nat
                     | _ => False
                     end
    | None => False end) by (vm_compute; split; reflexivity).
  rewrite E, Hq in Hone. destruct Hone as [H1 H2].
  exists s, r, s', found. split; [exact E|]. split; [exact Hq|]. split; [exact H1|]. split; [exact H2|].
  split.
  - destruct (_ <? _) in Hr; [|apply Hr]. destruct Hr as [Hr _]. rewrite Hr in H1. discriminate.
  - intros e. apply Hf.
Defined.

(** Every announcement clears the tags of its stream: what was tagged is no longer
    found by its tag one announce period later. *)
Example tags_forgotten :
  found ((let+ _ := tp_discovery_service_apply_announce calm (demo_announce 10 77 8) in
          let+ _ := tp_discovery_service_set_tags calm 10 [Some (lit "vision")] in
          tp_discovery_service_query calm (demo_query 10 [Some (lit "vision")])) demo_service) = Some [(10, 1%nat)] /\
  found ((let+ _ := tp_discovery_service_apply_announce calm (demo_announce 10 77 8) in
          let+ _ := tp_discovery_service_set_tags calm 10 [Some (lit "vision")] in
          let+ _ := tp_discovery_service_apply_announce calm (demo_announce 10 77 8) in
          tp_discovery_service_query calm (demo_query 10 [Some (lit "vision")])) demo_service) = Some [].
Proof. split; vm_compute; reflexivity. Qed.

(** When the array of the pools cannot be allocated the number of pools stays: the
    next query for the stream follows the NULL pointer. *)
Example pools_without_memory :
  found ((let+ _ := tp_discovery_service_apply_announce calm (demo_announce 10 77 8) in
          let+ _ := tp_discovery_service_apply_announce (demo_world (fun _ => 1000) (fun _ => false))
                      (demo_announce 10 77 8) in
          tp_discovery_service_query calm (demo_query 10 [])) demo_service) = None.
Proof. vm_compute. reflexivity. Qed.

(** An announcement that is refused for its pools has already replaced the one
    before: the stream stays, without pools. *)
Example refused_announce_empties :
  found ((let+ _ := tp_discovery_service_apply_announce calm (demo_announce 10 77 8) in
          let+ _ := tp_discovery_service_apply_announce calm (demo_announce 10 78 16) in
          tp_discovery_service_query calm (demo_query 10 [])) demo_service) = Some [(10, 0%nat)].
Proof. vm_compute. reflexivity. Qed.

(** A data source alone makes an entry, and keeps a stream alive whose pools are no
    longer announced. *)
Example source_without_pools :
  found ((let+ _ := tp_discovery_service_apply_data_source calm (demo_source 10 77) in
          tp_discovery_service_query calm (demo_query 10 [])) demo_service) = Some [(10, 0%nat)].
Proof. vm_compute. reflexivity. Qed.

Example source_keeps_alive :
  let late := demo_world (fun _ => 3500000000) (fun _ => true) in
  let found_late source := found ((let+ _ := tp_discovery_service_apply_announce calm (demo_announce 10 77 8) in
     let+ _ := (if source : bool
                then tp_discovery_service_apply_data_source (demo_world (fun _ => 2500000000) (fun _ => true))
                       (demo_source 10 77)
                else give true) in
     tp_discovery_service_query late (demo_query 10 [])) demo_service) in
  found_late false = Some [] /\ found_late true = Some [(10, 1%nat)].
Proof. split; vm_compute; reflexivity. Qed.
End DiscoveryDemo.
