(* ===== verification/DiscoveryMessages.v ===== *)
(** * DiscoveryMessages: requests and answers as bytes (tp_discovery_client.c, tp_discovery_service.c)

    Both ends of the discovery protocol write their messages with the generated
    encoders and read them back with the generated decoders, which keep one
    position per message: variable-length data is found wherever the position is.
    The tags of a message are composites of a length and characters that both
    encoders copy without a look at the end of the buffer.  A decoder of the client
    that is not content with an answer leaves what it has read so far, together
    with a complaint of its own.  How long the generated code takes an entry in a group
    of tags to be is a parameter ([TagsGroup]). *)

From Stdlib Require Import ZArith Lia Bool Ascii String.
From stdpp Require Import strings list.
From coqutil Require Import Datatypes.RecordSetters.
From S2P Require Import Prelude Sbe Uri Shm Message Seqlock Tensor ConsumerManager Driver DriverMessages Control.
From S2P Require Import Machine Regions Discovery.
Import Mapping TriangleBracketNotations.

#[local] Open Scope Z_scope.
#[local] Open Scope list_scope.

(** ** The schema *)

Definition discovery_schema_id : Z := 910.
Definition discovery_schema_version : Z := 1.
Definition discoveryRequest_template : Z := 1.
Definition discoveryResponse_template : Z := 2.
Definition discoveryRequest_block : Z := 32.
Definition discoveryResponse_block : Z := 9.
Definition results_block : Z := 39.
Definition payloadPools_block : Z := 10.
Definition discoveryStatus_values : list Z := [1; 2; 3].

(** The length of an entry in a group of tags is a matter of the generated code: the
    schema gives the entry one field of a type with variable length, and either the
    four bytes of its own length are counted or nothing is. *)
Class TagsGroup := {
  tags_block : Z;
  tags_block_cases : tags_block = 4 \/ tags_block = 0;
}.

Definition discovery_header (block template : Z) : item :=
  header_item block template discovery_schema_id discovery_schema_version.

(** ** Encoding *)

(** [Checked]: through a generated setter, which refuses what does not fit.
    [Copied]: a tag; only the room for its length is checked before the copy.
    [Missing]: an array that is NULL, where an entry of this size would be read. *)
Inductive part :=
  | Checked (it : item)
  | Copied (tag : chars)
  | Refused
  | Missing (room : Z).

Definition item_of (p : part) : list item :=
  match p with
  | Checked it => [it]
  | Copied tag => [Text tag]
  | Refused | Missing _ => []
  end.

Definition items_of (l : list part) : list item := mjoin (item_of <$> l).

(** What the encoder does in a buffer of this length from a position:
    [OutOfBounds] is a write past its end, or a read through NULL. *)
Fixpoint layout (len pos : Z) (l : list part) : outcome unit :=
  match l with
  | [] => Decoded tt
  | Checked it :: l' =>
    if len <? pos + item_size it then Malformed else layout len (pos + item_size it) l'
  | Copied tag :: l' =>
    if len <? pos + 4 then Malformed
    else if len <? pos + 4 + Z.of_nat (length tag) then OutOfBounds
    else layout len (pos + 4 + Z.of_nat (length tag)) l'
  | Refused :: _ => Malformed
  | Missing room :: _ => if len <? pos + room then Malformed else OutOfBounds
  end.

(** A group of entries: their number is written with 16 bits, and the setter
    refuses 65535 and to go beyond the number. *)
Definition group_parts (block : Z) (entries : list (list part)) : list part :=
  let n := Z.of_nat (length entries) in
  if 65534 <? u16 n then [Refused]
  else Checked (group_item block (u16 n)) :: mjoin (take (Z.to_nat (u16 n)) entries) ++
       (if n <? 65536 then [] else [Refused]).

(** The same for an array that may be NULL. *)
Definition array_parts {A} (block : Z) (count : nat) (f : A -> list part) (l : ptr (list A)) : list part :=
  match l with
  | Some l => group_parts block (f <$> take count l)
  | NULL =>
    if (count =? 0)%nat then group_parts block []
    else if 65534 <? u16 (Z.of_nat count) then [Refused]
    else Checked (group_item block (u16 (Z.of_nat count))) ::
         (if u16 (Z.of_nat count) =? 0 then [Refused] else [Missing block])
  end.

Definition optional_u64 (v : Z) : Z := if v =? TP_NULL_U64 then TP_NULL_U64 else v.

Definition pool_parts (p : tp_discovery_pool_info_t) : list part :=
  [Checked (Block payloadPools_block [Write 0 2 (dp_pool_id p); Write 2 4 (dp_nslots p);
                                      Write 6 4 (dp_stride_bytes p)]);
   Checked (Text (dp_region_uri p))].

Definition tag_part (tag : ptr chars) : list part := [Copied (default [] tag)].

Definition result_parts `{TagsGroup} (r : tp_discovery_result_t) : list part :=
  Checked (Block results_block
    [Write 0 4 (rs_stream_id r); Write 4 4 (rs_producer_id r); Write 8 8 (rs_epoch r);
     Write 16 4 (rs_layout_version r); Write 20 4 (rs_header_nslots r);
     Write 24 2 (rs_header_slot_bytes r); Write 26 1 (rs_max_dims r); Write 27 8 (rs_data_source_id r);
     Write 35 4 (rs_driver_control_stream_id r)]) ::
  array_parts payloadPools_block (rs_pool_count r) pool_parts (rs_pools r) ++
  array_parts tags_block (rs_tag_count r) tag_part (rs_tags r) ++
  [Checked (Text (rs_header_region_uri r)); Checked (Text (rs_data_source_name r));
   Checked (Text (rs_driver_instance_id r)); Checked (Text (rs_driver_control_channel r))].

Definition response_parts `{TagsGroup} (r : tp_discovery_response_t) : list part :=
  [Checked (discovery_header discoveryResponse_block discoveryResponse_template);
   Checked (Block discoveryResponse_block [Write 0 8 (dr_request_id r); Write 8 1 (dr_status r)])] ++
  group_parts results_block (result_parts <$> dr_results r) ++
  [Checked (Text (dr_error_message r))].

Record tp_discovery_context_t := {
  qc_request_channel : chars;
  qc_request_stream_id : Z;
  qc_response_channel : chars;
  qc_response_stream_id : Z;
}.

Definition tp_discovery_context_init : tp_discovery_context_t :=
  {| qc_request_channel := []; qc_request_stream_id := -1; qc_response_channel := [];
     qc_response_stream_id := -1 |}.

Definition tp_discovery_context_set_channel (ctx : tp_discovery_context_t) (channel : ptr chars) (stream_id : Z)
    : tp_discovery_context_t :=
  match channel with
  | NULL => ctx
  | Some channel => ctx <| qc_request_channel := kept 1024 channel |> <| qc_request_stream_id := stream_id |>
  end.

Definition tp_discovery_context_set_response_channel (ctx : tp_discovery_context_t) (channel : ptr chars)
    (stream_id : Z) : tp_discovery_context_t :=
  match channel with
  | NULL => ctx
  | Some channel => ctx <| qc_response_channel := kept 1024 channel |> <| qc_response_stream_id := stream_id |>
  end.

(** A request without a data source name ends without that field. *)
Definition request_parts `{TagsGroup} (q : tp_discovery_request_t) (channel : chars) : list part :=
  [Checked (discovery_header discoveryRequest_block discoveryRequest_template);
   Checked (Block discoveryRequest_block
     [Write 0 8 (rq_request_id q); Write 8 4 (rq_client_id q); Write 12 4 (rq_response_stream_id q);
      Write 16 4 (optional_u32 (rq_stream_id q)); Write 20 4 (optional_u32 (rq_producer_id q));
      Write 24 8 (optional_u64 (rq_data_source_id q))])] ++
  group_parts tags_block ((fun tag => tag_part (cstring <$> tag)) <$> rq_tags q) ++
  [Checked (Text channel)] ++
  match cstring <$> rq_data_source_name q with
  | Some (c :: name) => [Checked (Text (c :: name))]
  | _ => []
  end.

(** The allocations of a decoder, by what they are for. *)
Inductive allocation :=
  | ForResults
  | ForPools (result : nat)
  | ForTags (result : nat)
  | ForTag (result tag : nat)
  | ForChannel
  | ForName.

(** The decoder of the client goes on, ends with a message of its own, or reads
    past the fragment. *)
Inductive verdict (A : Type) :=
  | Fine (a : A)
  | Complain (message : chars)
  | Wild.
Arguments Fine {A} a.
Arguments Complain {A} message.
Arguments Wild {A}.

Section Codec.
Context `{Sbe} `{TagsGroup}.
#[local] Open Scope tp_scope.

Definition encode_parts (l : list part) (b : bytes) : outcome bytes :=
  field! _ := layout (blen b) 0 l in require (encode (items_of l) b).

Definition tp_discovery_encode_response (r : tp_discovery_response_t) (b : bytes) : outcome bytes :=
  encode_parts (response_parts r) b.

(** The bytes offered to the request publication, from a buffer of 1024. *)
Definition tp_discovery_request (ctx : tp_discovery_context_t) (q : tp_discovery_request_t) (b : bytes)
    : outcome bytes :=
  match cstring <$> rq_response_channel q with
  | NULL | Some [] => Malformed
  | Some channel =>
    check! negb (rq_response_stream_id q =? 0) in
    check! strcmp_eq (qc_response_channel ctx) [] || strcmp_eq (qc_response_channel ctx) channel in
    encode_parts (request_parts q channel) b
  end.

(** ** Decoding *)

(** The header of a message of this schema, and room for its block. *)
Definition discovery_header_check (b : bytes) (template block : Z) : outcome unit :=
  check! negb (blen b <? messageHeader_encoded_length) in
  if negb (messageHeader_schemaId b =? discovery_schema_id) ||
     negb (messageHeader_templateId b =? template) then NotThisMessage
  else
    check! negb (discovery_schema_version <? messageHeader_version b) in
    check! messageHeader_blockLength b =? block in
    if blen b <? messageHeader_encoded_length + block then OutOfBounds else Decoded tt.

(** Continue, or end with what was read until now. *)
Notation "'read_on!' x ':=' v 'else' r 'in' k" :=
  (match v with Fine x => k | Complain m => (r, Complain m) | Wild => (r, Wild) end)
  (at level 10, x name, v at level 100, r at level 100, k at level 200) : tp_scope.

(** [tp_discovery_copy_ascii] of a getter's data into an array of this size. *)
Definition text_at (b : bytes) (pos size : Z) : verdict (chars * Z) :=
  if blen b <? pos + 4 then Wild
  else
    let len := sbe_get 4 b pos in
    match sbe_var_data pos len (blen b) with
    | None => Fine ([], sbe_var_failed pos)
    | Some off => Fine (cstring (take (Z.to_nat (size - 1)) (sbe_chars b off (Z.to_nat len))), off + len)
    end.

Definition zero_pool_info : tp_discovery_pool_info_t :=
  {| dp_pool_id := 0; dp_nslots := 0; dp_stride_bytes := 0; dp_region_uri := [] |}.

Definition zero_result : tp_discovery_result_t :=
  {| rs_stream_id := 0; rs_producer_id := 0; rs_epoch := 0; rs_layout_version := 0;
     rs_header_nslots := 0; rs_header_slot_bytes := 0; rs_max_dims := 0; rs_data_source_id := 0;
     rs_driver_control_stream_id := 0; rs_header_region_uri := []; rs_data_source_name := [];
     rs_driver_instance_id := []; rs_driver_control_channel := []; rs_pools := NULL;
     rs_pool_count := 0%nat; rs_tags := NULL; rs_tag_count := 0%nat |}.

Definition zero_response : tp_discovery_response_t :=
  {| dr_request_id := 0; dr_status := 0; dr_error_message := []; dr_results := [] |}.

(** A zeroed array whose first entries were filled. *)
Definition filled {A} (zero : A) (n : nat) (l : list A) : list A := l ++ replicate (n - length l) zero.

Section Client.
Context (memory : allocation -> bool).

(** The pools from the position on; a [break] leaves the position where it is. *)
Fixpoint decode_pools (b : bytes) (nslots : Z) (n : nat) (pos block : Z)
    : list tp_discovery_pool_info_t * verdict Z :=
  match n with
  | O => ([], Fine pos)
  | S n' =>
    match sbe_group_next pos block (blen b) with
    | None => ([], Fine pos)
    | Some off =>
      if blen b <? off + payloadPools_block then ([], Wild)
      else
        let p := {| dp_pool_id := sbe_get 2 b off; dp_nslots := sbe_get 4 b (off + 2);
                    dp_stride_bytes := sbe_get 4 b (off + 6); dp_region_uri := [] |} in
        if negb (dp_nslots p =? nslots)
        then ([p], Complain (lit "discovery response pool nslots mismatch"))
        else
          read_on! uri := text_at b (off + block) 4096 else [p] in
          let p := p <| dp_region_uri := fst uri |> in
          if strcmp_eq (fst uri) [] then ([p], Complain (lit "discovery response missing payload uri"))
          else let '(rest, v) := decode_pools b nslots n' (snd uri) block in (p :: rest, v)
    end
  end.

(** The tags of result [i] from the [j]-th on; an empty one is NULL. *)
Fixpoint decode_tags (b : bytes) (i j n : nat) (pos block : Z) : list (ptr chars) * verdict Z :=
  match n with
  | O => ([], Fine pos)
  | S n' =>
    match sbe_group_next pos block (blen b) with
    | None => ([], Fine pos)
    | Some off =>
      if blen b <? off + 4 then ([], Complain (lit "discovery response tag decode failed"))
      else
        let len := sbe_get 4 b off in
        if (0 <? len) && negb (memory (ForTag i j))
        then ([NULL], Complain (lit "discovery response tag string allocation failed"))
        else if blen b <? off + 4 + len then ([], Wild)
        else
          let tag := if 0 <? len then Some (cstring (sbe_chars b (off + 4) (Z.to_nat len))) else NULL in
          let '(rest, v) := decode_tags b i (S j) n' (off + 4 + len) block in (tag :: rest, v)
    end
  end.

Definition result_head (b : bytes) (off : Z) : tp_discovery_result_t :=
  zero_result
    <| rs_stream_id := sbe_get 4 b off |> <| rs_producer_id := sbe_get 4 b (off + 4) |>
    <| rs_epoch := sbe_get 8 b (off + 8) |> <| rs_layout_version := sbe_get 4 b (off + 16) |>
    <| rs_header_nslots := sbe_get 4 b (off + 20) |> <| rs_header_slot_bytes := sbe_get 2 b (off + 24) |>
    <| rs_max_dims := sbe_get 1 b (off + 26) |>
    <| rs_data_source_id := optional_u64 (sbe_get 8 b (off + 27)) |>
    <| rs_driver_control_stream_id := sbe_get 4 b (off + 35) |>.

(** The texts at the end of a result. *)
Definition decode_texts (b : bytes) (r : tp_discovery_result_t) (pos : Z) : tp_discovery_result_t * verdict Z :=
  read_on! uri := text_at b pos 4096 else r in
  let r := r <| rs_header_region_uri := fst uri |> in
  if strcmp_eq (fst uri) [] then (r, Complain (lit "discovery response missing header uri"))
  else
    read_on! name := text_at b (snd uri) 256 else r in
    let r := r <| rs_data_source_name := fst name |> in
    read_on! instance := text_at b (snd name) 256 else r in
    let r := r <| rs_driver_instance_id := fst instance |> in
    read_on! channel := text_at b (snd instance) 1024 else r in
    let r := r <| rs_driver_control_channel := fst channel |> in
    if (rs_driver_control_stream_id r =? 0) || strcmp_eq (fst channel) []
    then (r, Complain (lit "discovery response missing driver control endpoint"))
    else (r, Fine (snd channel)).

(** The tags of a result and what follows.  No group header is checked to be there. *)
Definition decode_result_tags (b : bytes) (i : nat) (r : tp_discovery_result_t) (pos : Z)
    : tp_discovery_result_t * verdict Z :=
  match sbe_group_wrap b pos (blen b) with
  | None => (r, Wild)
  | Some (block, count) =>
    let n := Z.to_nat count in
    if (0 <? count) && negb (memory (ForTags i))
    then (r, Complain (lit "discovery response tag allocation failed"))
    else
      let '(tags, v) := decode_tags b i 0 n (pos + 4) block in
      let r := r <| rs_tag_count := n |>
                 <| rs_tags := if 0 <? count then Some (filled NULL n tags) else NULL |> in
      read_on! pos := v else r in decode_texts b r pos
  end.

Definition decode_result (b : bytes) (i : nat) (off block : Z) : tp_discovery_result_t * verdict Z :=
  if blen b <? off + results_block then (zero_result, Wild)
  else
    let r := result_head b off in
    if negb (rs_header_slot_bytes r =? TP_HEADER_SLOT_BYTES) || negb (rs_max_dims r =? TP_MAX_DIMS)
    then (r, Complain (lit "discovery response slot bytes/max dims mismatch"))
    else
      match sbe_group_wrap b (off + block) (blen b) with
      | None => (r, Wild)
      | Some (pool_block, count) =>
        let n := Z.to_nat count in
        if count =? 0 then (r, Complain (lit "discovery response missing payload pools"))
        else if negb (memory (ForPools i))
        then (r, Complain (lit "discovery response pool allocation failed"))
        else
          let '(pools, v) := decode_pools b (rs_header_nslots r) n (off + block + 4) pool_block in
          let r := r <| rs_pool_count := n |> <| rs_pools := Some (filled zero_pool_info n pools) |> in
          read_on! pos := v else r in decode_result_tags b i r pos
      end.

Fixpoint decode_results (b : bytes) (i n : nat) (pos block : Z) : list tp_discovery_result_t * verdict Z :=
  match n with
  | O => ([], Fine pos)
  | S n' =>
    match sbe_group_next pos block (blen b) with
    | None => ([], Fine pos)
    | Some off =>
      let '(r, v) := decode_result b i off block in
      read_on! pos := v else [r] in
      let '(rest, v) := decode_results b (S i) n' pos block in (r :: rest, v)
    end
  end.

(** An error of the decoder's own, next to what was read. *)
Definition complaint (m : chars) (out : tp_discovery_response_t) : tp_discovery_response_t :=
  out <| dr_status := discoveryStatus_ERROR |> <| dr_error_message := kept 1024 m |>.

(** [out] as the caller has it: not everything is written. *)
Definition tp_discovery_decode_response (b : bytes) (request_id : Z) (out : tp_discovery_response_t)
    : outcome tp_discovery_response_t :=
  field! _ := discovery_header_check b discoveryResponse_template discoveryResponse_block in
  if negb (request_id =? 0) && negb (sbe_get 8 b 8 =? request_id) then NotThisMessage
  else
    let status := default discoveryStatus_ERROR (sbe_enum discoveryStatus_values 255 (sbe_get 1 b (8 + 8))) in
    let out := out <| dr_request_id := sbe_get 8 b 8 |> <| dr_status := status |> in
    let pos := messageHeader_encoded_length + discoveryResponse_block in
    if negb (status =? discoveryStatus_OK) then
      match text_at b pos 1024 with
      | Fine message => Decoded (out <| dr_error_message := fst message |>)
      | _ => OutOfBounds
      end
    else
      match sbe_group_wrap b pos (blen b) with
      | None => OutOfBounds
      | Some (block, count) =>
        let n := Z.to_nat count in
        if (0 <? count) && negb (memory ForResults)
        then Decoded (complaint (lit "discovery response allocation failed") (out <| dr_results := [] |>))
        else
          let '(results, v) := decode_results b 0 n (pos + 4) block in
          let out := out <| dr_results := filled zero_result n results |> in
          match v with
          | Fine _ => Decoded out
          | Complain m => Decoded (complaint m out)
          | Wild => OutOfBounds
          end
      end.

(** ** Waiting for an answer *)

(** [tp_discovery_response_handler]: the answer so far, and whether it is there.
    What cannot be decoded counts as an answer, too. *)
Definition tp_discovery_response_handler (request_id : Z) (st : tp_discovery_response_t * bool) (b : bytes)
    : option (tp_discovery_response_t * bool) :=
  match tp_discovery_decode_response b request_id (fst st) with
  | Decoded out => Some (out, true)
  | Malformed => Some (fst st, true)
  | NotThisMessage => Some st
  | OutOfBounds => None
  end.

Fixpoint handle_all (request_id : Z) (st : tp_discovery_response_t * bool) (l : list bytes)
    : option (tp_discovery_response_t * bool) :=
  match l with
  | [] => Some st
  | b :: l' =>
    match tp_discovery_response_handler request_id st b with
    | Some st => handle_all request_id st l'
    | None => None
    end
  end.

(** [Crashed] past a fragment; [Overflowed] when the deadline is not an int64_t;
    [Waiting] when the fuel is used up. *)
Inductive poll_end :=
  | Answer (out : tp_discovery_response_t)
  | PollFailed (e : errno)
  | TimedOut
  | Crashed
  | Overflowed
  | Waiting.

(** The loop of [tp_discovery_poll]: [poll i] is what the [i]-th poll of the
    subscription delivers, [clock k] the [k]-th reading; the first turn with a
    timeout reads the clock twice. *)
Fixpoint poll_loop (poll : nat -> res (list bytes)) (clock : nat -> Z) (request_id timeout_ns : Z)
    (fuel i k : nat) (deadline : Z) (st : tp_discovery_response_t * bool) : poll_end :=
  if snd st then Answer (fst st)
  else
    match fuel with
    | O => Waiting
    | S fuel' =>
      match poll i with
      | Err e => PollFailed e
      | Ok fragments =>
        match handle_all request_id st fragments with
        | None => Crashed
        | Some st =>
          if 0 <? timeout_ns then
            let k' := if deadline =? 0 then S k else k in
            match (if deadline =? 0 then i64_checked (clock k + timeout_ns) else Some deadline) with
            | None => Overflowed
            | Some deadline =>
              if deadline <? clock k' then TimedOut
              else poll_loop poll clock request_id timeout_ns fuel' (S i) (S k') deadline st
            end
          else poll_loop poll clock request_id timeout_ns fuel' (S i) k deadline st
        end
      end
    end.

Definition tp_discovery_poll (poll : nat -> res (list bytes)) (clock : nat -> Z) (request_id timeout_ns : Z)
    (fuel : nat) : poll_end :=
  poll_loop poll clock request_id timeout_ns fuel 0 0 0 (zero_response, false).

(** The callback of a poller takes any answer. *)
Definition tp_discovery_poller_handler (b : bytes) : option (option tp_discovery_response_t) :=
  match tp_discovery_decode_response b 0 zero_response with
  | Decoded out => Some (Some out)
  | OutOfBounds => None
  | _ => Some None
  end.
End Client.


(** ** The service *)

(** [sbe] data copied with a terminator; a copy from NULL is out of bounds, too. *)
Definition copied_field (alloc : bool) (b : bytes) (pos : Z) : outcome (ptr chars * Z) :=
  if blen b <? pos + 4 then OutOfBounds
  else
    let len := sbe_get 4 b pos in
    let data := sbe_var_data pos len (blen b) in
    if 0 <? len then
      check! alloc in
      match data with
      | None => OutOfBounds
      | Some off => Decoded (Some (cstring (sbe_chars b off (Z.to_nat len))), off + len)
      end
    else Decoded (NULL, match data with Some off => off + len | None => sbe_var_failed pos end).

Section Service.
Context (W : world) (memory : allocation -> bool).

(** The position moves by the block of an entry only, whatever the tag's length. *)
Fixpoint request_tags (b : bytes) (j n : nat) (pos block : Z) : outcome (list (ptr chars)) :=
  match n with
  | O => Decoded []
  | S n' =>
    match sbe_group_next pos block (blen b) with
    | None => Malformed
    | Some off =>
      check! negb (blen b <? off + 4) in
      let len := sbe_get 4 b off in
      check! memory (ForTag 0 j) in
      if blen b <? off + 4 + len then OutOfBounds
      else
        field! rest := request_tags b (S j) n' (off + block) block in
        Decoded (Some (cstring (sbe_chars b (off + 4) (Z.to_nat len))) :: rest)
    end
  end.

(** The variable-length data is read first, from the position where the group is;
    whether there is a group header is not checked. *)
Definition tp_discovery_decode_request (b : bytes) : outcome tp_discovery_request_t :=
  field! _ := discovery_header_check b discoveryRequest_template discoveryRequest_block in
  field! channel := copied_field (memory ForChannel) b (messageHeader_encoded_length + discoveryRequest_block) in
  field! name := copied_field (memory ForName) b (snd channel) in
  match sbe_group_wrap b (snd name) (blen b) with
  | None => OutOfBounds
  | Some (block, count) =>
    check! (count =? 0) || memory (ForTags 0) in
    field! tags := request_tags b 0 (Z.to_nat count) (snd name + 4) block in
    Decoded {| rq_request_id := sbe_get 8 b 8; rq_client_id := sbe_get 4 b (8 + 8);
               rq_response_channel := fst channel; rq_response_stream_id := sbe_get 4 b (8 + 12);
               rq_stream_id := sbe_get 4 b (8 + 16); rq_producer_id := sbe_get 4 b (8 + 20);
               rq_data_source_id := sbe_get 8 b (8 + 24); rq_data_source_name := fst name;
               rq_tags := tags |}
  end.

(** Encoding in a buffer of this length and offering; the answer to the offer is
    not looked at. *)
Definition send_response (length : Z) (channel : chars) (stream_id : Z) (r : tp_discovery_response_t) : C unit :=
  match tp_discovery_encode_response r (repeat 0 (Z.to_nat length)) with
  | OutOfBounds => fault
  | Decoded message =>
    let+ found := tp_discovery_get_publication W channel (i32 stream_id) in
    match found with
    | Some p => emit (Answered (qp_publication p) message)
    | None => give tt
    end
  | _ => give tt
  end.

Definition tp_discovery_send_error (q : tp_discovery_request_t) (message : chars) : C unit :=
  match rq_response_channel q with
  | NULL | Some [] => give tt
  | Some channel =>
    if rq_response_stream_id q =? 0 then give tt
    else send_response 1024 channel (rq_response_stream_id q)
           {| dr_request_id := rq_request_id q; dr_status := discoveryStatus_ERROR;
              dr_error_message := kept 1024 message; dr_results := [] |}
  end.

(** [tp_discovery_handle_request] from where the request has been decoded;
    [text] is what [tp_errmsg] says of an error. *)
Definition answer_request (text : errno -> chars) (q : tp_discovery_request_t) : C unit :=
  match rq_response_channel q with
  | NULL | Some [] => give tt
  | Some channel =>
    if rq_response_stream_id q =? 0
    then tp_discovery_send_error q (lit "response_stream_id must be non-zero")
    else
      let+ r := tp_discovery_service_query W q in
      match r with
      | Err e => tp_discovery_send_error q (text e)
      | Ok r => send_response 4096 channel (rq_response_stream_id q) r
      end
  end.

Definition tp_discovery_handle_request (text : errno -> chars) (b : bytes) : C unit :=
  match tp_discovery_decode_request b with
  | Decoded q => answer_request text q
  | OutOfBounds => fault
  | _ => give tt
  end.

Definition tp_discovery_on_request_fragment (text : errno -> chars) (b : bytes) : C unit :=
  if (blen b <? messageHeader_encoded_length) || negb (messageHeader_schemaId b =? discovery_schema_id)
  then give tt
  else tp_discovery_handle_request text b.

(** The C string at a pointer into a fragment: up to a terminator, which may lie
    [behind] it in memory. *)
Definition string_from (b : bytes) (behind : chars) (off : Z) : chars :=
  cstring (sbe_chars b off (Z.to_nat (blen b - off)) ++ behind).

(** A getter's pointer as a C string, and the position after its data. *)
Definition pointed (b : bytes) (behind : chars) (pos : Z) : outcome (ptr chars * Z) :=
  if blen b <? pos + 4 then OutOfBounds
  else
    let len := sbe_get 4 b pos in
    match sbe_var_data pos len (blen b) with
    | None => Decoded (NULL, sbe_var_failed pos)
    | Some off => Decoded (Some (string_from b behind off), off + len)
    end.

(** The pools; those after a failed step to the next stay zeroed. *)
Fixpoint announce_pools (b : bytes) (behind : chars) (n : nat) (pos block : Z)
    : outcome (list tp_shm_pool_announce_pool_t) :=
  match n with
  | O => Decoded []
  | S n' =>
    match sbe_group_next pos block (blen b) with
    | None => Decoded (replicate n {| ap_pool_id := 0; ap_pool_nslots := 0; ap_stride_bytes := 0;
                                      ap_region_uri := NULL |})
    | Some off =>
      if blen b <? off + announcedPools_block then OutOfBounds
      else
        field! uri := pointed b behind (off + block) in
        field! rest := announce_pools b behind n' (snd uri) block in
        Decoded ({| ap_pool_id := sbe_get 2 b off; ap_pool_nslots := sbe_get 4 b (off + 2);
                    ap_stride_bytes := sbe_get 4 b (off + 6); ap_region_uri := fst uri |} :: rest)
    end
  end.

(** An announcement of the wire schema; again the data of variable length before
    the group in front of it. *)
Definition announce_fragment (b : bytes) (behind : chars) : outcome tp_shm_pool_announce_t :=
  field! _ := control_header_check b shmPoolAnnounce_template shmPoolAnnounce_block in
  field! uri := pointed b behind (messageHeader_encoded_length + shmPoolAnnounce_block) in
  match sbe_group_wrap b (snd uri) (blen b) with
  | None => OutOfBounds
  | Some (block, count) =>
    check! (count =? 0) || memory (ForPools 0) in
    field! pools := announce_pools b behind (Z.to_nat count) (snd uri + 4) block in
    Decoded {| an_stream_id := sbe_get 4 b (8 + 0); an_producer_id := sbe_get 4 b (8 + 4);
               an_epoch := sbe_get 8 b (8 + 8); an_announce_timestamp_ns := sbe_get 8 b (8 + 16);
               an_announce_clock_domain := 0; an_layout_version := sbe_get 4 b (8 + 25);
               an_header_nslots := sbe_get 4 b (8 + 29); an_header_slot_bytes := sbe_get 2 b (8 + 33);
               an_header_region_uri := fst uri;
               an_pools := if count =? 0 then NULL else Some pools |}
  end.

Definition tp_discovery_on_announce_fragment (behind : chars) (b : bytes) : C unit :=
  match announce_fragment b behind with
  | OutOfBounds => fault
  | Decoded a => let+ _ := tp_discovery_service_apply_announce W a in give tt
  | _ => give tt
  end.

Definition source_fragment (b : bytes) (behind : chars) : outcome tp_data_source_announce_t :=
  field! _ := control_header_check b dataSourceAnnounce_template dataSourceAnnounce_block in
  field! name := pointed b behind (messageHeader_encoded_length + dataSourceAnnounce_block) in
  field! summary := pointed b behind (snd name) in
  Decoded {| da_stream_id := sbe_get 4 b (8 + 0); da_producer_id := sbe_get 4 b (8 + 4);
             da_epoch := sbe_get 8 b (8 + 8); da_meta_version := sbe_get 4 b (8 + 16);
             da_name := fst name; da_summary := fst summary |}.

Definition tp_discovery_on_metadata_fragment (behind : chars) (b : bytes) : C unit :=
  match source_fragment b behind with
  | OutOfBounds => fault
  | Decoded a => let+ _ := tp_discovery_service_apply_data_source W a in give tt
  | _ => give tt
  end.

(** What the polls of the three subscriptions deliver, in their order. *)
Definition tp_discovery_service_do_work (text : errno -> chars) (behind : chars)
    (announces metadata requests : list bytes) : C unit :=
  do+ for_each (tp_discovery_on_announce_fragment behind) announces in
  do+ for_each (tp_discovery_on_metadata_fragment behind) metadata in
  do+ for_each (tp_discovery_on_request_fragment text) requests in
  tp_discovery_prune_expired W.
End Service.
End Codec.

(** ** What a client does with an answer *)

Definition tp_discovery_request_init : tp_discovery_request_t :=
  {| rq_request_id := 0; rq_client_id := 0; rq_response_channel := NULL; rq_response_stream_id := 0;
     rq_stream_id := TP_NULL_U32; rq_producer_id := TP_NULL_U32; rq_data_source_id := TP_NULL_U64;
     rq_data_source_name := NULL; rq_tags := [] |}.

Definition tp_discovery_result_has_tag (r : tp_discovery_result_t) (tag : ptr chars) : bool :=
  match tag, rs_tags r with
  | Some tag, Some tags =>
    existsb (fun t => match t with Some t => strcmp_eq t (cstring tag) | NULL => false end)
      (take (rs_tag_count r) tags)
  | _, _ => false
  end.

Definition tp_discovery_result_matches (r : tp_discovery_result_t) (stream_id producer_id : Z)
    (data_source_name : ptr chars) : bool :=
  if negb (stream_id =? TP_NULL_U32) && negb (rs_stream_id r =? stream_id) then false
  else if negb (producer_id =? TP_NULL_U32) && negb (rs_producer_id r =? producer_id) then false
  else match data_source_name with
       | Some name => strcmp_eq (cstring name) [] || strcmp_eq (rs_data_source_name r) (cstring name)
       | NULL => true
       end.
