(* ===== verification/DiscoverySession.v ===== *)
(** * DiscoverySession: what a client learns from the discovery service

    The answers of the service as its clients read them: encoding and decoding an
    answer, the whole way from an announcement to a client that asks for the
    stream, the loop that waits for an answer, and the requests, which the service
    does not read as its clients write them. *)

From Stdlib Require Import ZArith Lia Bool Ascii String.
From stdpp Require Import strings list.
From coqutil Require Import Datatypes.RecordSetters.
From S2P Require Import Prelude Sbe Uri Shm Message Seqlock Tensor ConsumerManager Driver DriverMessages Control.
From S2P Require Import Machine Regions Discovery DiscoveryMessages.
Import Mapping TriangleBracketNotations.

#[local] Open Scope Z_scope.
#[local] Open Scope list_scope.

(** ** Parts and items *)

Lemma items_of_app l1 l2 : items_of (l1 ++ l2) = items_of l1 ++ items_of l2.
Proof. unfold items_of. by rewrite fmap_app, join_app. Qed.

Lemma items_of_join l : items_of (mjoin l) = mjoin (items_of <$> l).
Proof.
  induction l as [|x l IH]; [done|]. change (mjoin (x :: l)) with (x ++ mjoin l).
  by rewrite items_of_app, IH.
Qed.

(** Neither too many entries nor a missing array. *)
Lemma group_parts_items block entries :
  Z.of_nat (length entries) < 65535 ->
  items_of (group_parts block entries) =
    group_item block (Z.of_nat (length entries)) :: mjoin (items_of <$> entries).
Proof.
  intros Hn. unfold group_parts. rewrite u16_small by ulia.
  destruct (Z.ltb_spec 65534 (Z.of_nat (length entries))); [lia|].
  destruct (Z.ltb_spec (Z.of_nat (length entries)) 65536); [|lia].
  rewrite Nat2Z.id, firstn_all, app_nil_r, <- items_of_join. done.
Qed.

Lemma array_parts_items {A} block count (f : A -> list part) l :
  length l = count -> Z.of_nat count < 65535 ->
  items_of (array_parts block count f (Some l)) =
    group_item block (Z.of_nat count) :: mjoin ((fun x => items_of (f x)) <$> l).
Proof.
  intros <- Hn. unfold array_parts. rewrite firstn_all, group_parts_items by (by rewrite length_fmap).
  by rewrite length_fmap, <- list_fmap_compose.
Qed.

Section Session.
Context {SB : Sbe} {TG : TagsGroup}.

Lemma tags_block_range : 0 <= tags_block <= 4.
Proof. destruct tags_block_cases as [-> | ->]; lia. Qed.

Lemma encode_parts_holds l b msg :
  Forall item_ok (items_of l) -> encode_parts l b = Decoded msg -> holds msg 0 (items_of l).
Proof.
  intros Hok. unfold encode_parts. destruct (layout _ _ _); [|done..]. cbn [outcome_bind].
  destruct (encode _ _) as [m|] eqn:E; [|done]. intros [= <-]. by eapply encode_holds.
Qed.

Lemma encode_parts_length l b msg :
  Forall item_ok (items_of l) -> encode_parts l b = Decoded msg ->
  blen msg = items_size (items_of l) /\ items_size (items_of l) <= blen b.
Proof.
  intros Hok. unfold encode_parts. destruct (layout _ _ _); [|done..]. cbn [outcome_bind].
  destruct (encode _ _) as [m|] eqn:E; [|done]. intros [= <-]. split; [by eapply encode_length|].
  unfold encode in E. by destruct (Z.ltb_spec (blen b) (items_size (items_of l))).
Qed.

(** What fits is encoded. *)
Definition plain (p : part) : bool := match p with Checked _ | Copied _ => true | _ => false end.

Lemma layout_fits len l : forall pos,
  Forall item_ok (items_of l) -> forallb plain l = true ->
  pos + items_size (items_of l) <= len -> layout len pos l = Decoded tt.
Proof.
  induction l as [|p l IH]; intros pos Hok Hp Hlen; [done|]. cbn in Hp. apply andb_true_iff in Hp as [Hp Hl].
  change (items_of (p :: l)) with (item_of p ++ items_of l) in Hok, Hlen.
  apply Forall_app in Hok as [Ho Hok]. pose proof (items_size_nonneg _ Hok) as Hn.
  destruct p as [it|tag| |room]; try done; cbn in Hlen |- *.
  - destruct (Z.ltb_spec len (pos + item_size it)); [lia|]. apply IH; [done..|lia].
  - rewrite length_fmap in Hlen. destruct (Z.ltb_spec len (pos + 4)); [lia|].
    destruct (Z.ltb_spec len (pos + 4 + Z.of_nat (length tag))); [lia|]. apply IH; [done..|lia].
Qed.

Lemma encode_parts_fits l b :
  Forall item_ok (items_of l) -> forallb plain l = true -> items_size (items_of l) <= blen b ->
  exists msg, encode_parts l b = Decoded msg.
Proof.
  intros Hok Hp Hlen. unfold encode_parts. rewrite layout_fits by (done || lia). cbn [outcome_bind].
  unfold encode. destruct (Z.ltb_spec (blen b) (items_size (items_of l))); [lia|]. by eexists.
Qed.

(** ** The parts of an answer *)

Record pool_ok (nslots : Z) (p : tp_discovery_pool_info_t) : Prop := {
  pk_id : is_u16 (dp_pool_id p);
  pk_nslots : dp_nslots p = nslots /\ is_u32 nslots;
  pk_stride : is_u32 (dp_stride_bytes p);
  pk_uri : fits 4096 (dp_region_uri p) /\ dp_region_uri p <> [];
}.

(** A tag that was copied. *)
Definition tag_ok (t : ptr chars) : Prop :=
  match t with Some s => ("000"%char ∉ s) /\ Z.of_nat (length s) < 2 ^ 32 | NULL => False end.

(** An answer a client is content with. *)
Record result_ok (r : tp_discovery_result_t) : Prop := {
  rk_words : Forall is_u32 [rs_stream_id r; rs_producer_id r; rs_layout_version r; rs_header_nslots r;
                            rs_driver_control_stream_id r];
  rk_longs : Forall is_u64 [rs_epoch r; rs_data_source_id r];
  rk_layout : rs_header_slot_bytes r = TP_HEADER_SLOT_BYTES /\ rs_max_dims r = TP_MAX_DIMS;
  rk_pools : exists l, rs_pools r = Some l /\ l <> [] /\ length l = rs_pool_count r /\
               Z.of_nat (rs_pool_count r) < 65535 /\ Forall (pool_ok (rs_header_nslots r)) l;
  rk_tags : match rs_tags r with
            | Some l => l <> [] /\ length l = rs_tag_count r /\ Forall tag_ok l
            | NULL => rs_tag_count r = 0%nat
            end /\ Z.of_nat (rs_tag_count r) < 65535;
  rk_uri : fits 4096 (rs_header_region_uri r) /\ rs_header_region_uri r <> [];
  rk_names : fits 256 (rs_data_source_name r) /\ fits 256 (rs_driver_instance_id r);
  rk_control : rs_driver_control_stream_id r <> 0 /\ fits 1024 (rs_driver_control_channel r) /\
               rs_driver_control_channel r <> [];
}.

(** The tags as the client has them: an empty one is NULL. *)
Definition seen_tag (t : ptr chars) : ptr chars := match t with Some [] => NULL | _ => t end.
Definition seen_result (r : tp_discovery_result_t) : tp_discovery_result_t :=
  r <| rs_tags ::= fun l => match l with Some l => Some (seen_tag <$> l) | NULL => NULL end |>.

Definition pool_items (p : tp_discovery_pool_info_t) : list item :=
  [Block payloadPools_block [Write 0 2 (dp_pool_id p); Write 2 4 (dp_nslots p); Write 6 4 (dp_stride_bytes p)];
   Text (dp_region_uri p)].

Definition tag_items (t : ptr chars) : list item := [Text (default [] t)].

Definition result_tail (r : tp_discovery_result_t) : list item :=
  [Text (rs_header_region_uri r); Text (rs_data_source_name r); Text (rs_driver_instance_id r);
   Text (rs_driver_control_channel r)].

Definition result_items (r : tp_discovery_result_t) : list item :=
  Block results_block
    [Write 0 4 (rs_stream_id r); Write 4 4 (rs_producer_id r); Write 8 8 (rs_epoch r);
     Write 16 4 (rs_layout_version r); Write 20 4 (rs_header_nslots r);
     Write 24 2 (rs_header_slot_bytes r); Write 26 1 (rs_max_dims r); Write 27 8 (rs_data_source_id r);
     Write 35 4 (rs_driver_control_stream_id r)] ::
  group_item payloadPools_block (Z.of_nat (rs_pool_count r)) :: mjoin (pool_items <$> default [] (rs_pools r)) ++
  group_item tags_block (Z.of_nat (rs_tag_count r)) :: mjoin (tag_items <$> default [] (rs_tags r)) ++
  result_tail r.

Lemma result_parts_items r : result_ok r -> items_of (result_parts r) = result_items r.
Proof.
  intros [_ _ _ (pools & Ep & _ & Hpl & Hpc & _) [Ht Htc] _ _ _]. unfold result_parts, result_items.
  rewrite Ep. change (items_of (?x :: ?l)) with (item_of x ++ items_of l). rewrite !items_of_app.
  rewrite array_parts_items by done. cbn [default]. cbn [item_of app]. f_equal. f_equal. f_equal.
  destruct (rs_tags r) as [tags|].
  - destruct Ht as (_ & Htl & _). by rewrite array_parts_items.
  - rewrite Ht. done.
Qed.

Lemma info_items_ok nslots l :
  Forall (pool_ok nslots) l -> Forall item_ok (mjoin (pool_items <$> l)).
Proof.
  induction 1 as [|p l [? [E ?] ? [[? _] _]] _ IH]; [constructor|].
  constructor; [split; [done|split; [reflexivity|rewrite E; write_fits_tac]]|].
  constructor; [apply text_ok; lia|exact IH].
Qed.

Lemma tag_items_ok l : Forall tag_ok l -> Forall item_ok (mjoin (tag_items <$> l)).
Proof.
  induction 1 as [|[t|] l Ht _ IH]; [constructor| |done]. constructor; [by apply text_ok, Ht|exact IH].
Qed.

Lemma result_items_ok r : result_ok r -> Forall item_ok (result_items r).
Proof.
  intros [Hw Hl [E1 E2] (pools & Ep & _ & _ & Hpc & Hp) [Ht Htc] [[Hu _] _] [[Hn _] [Hi _]] (_ & [Hc _] & _)].
  decompose_Forall_hyps. constructor.
  { split; [done|]. split; [reflexivity|]. rewrite E1, E2. write_fits_tac. }
  constructor; [apply group_item_ok; [by split|ulia]|]. rewrite Ep. cbn [default].
  apply Forall_app_2; [by eapply info_items_ok|]. constructor; [apply group_item_ok; [pose proof tags_block_range; ulia|ulia]|].
  apply Forall_app_2.
  - destruct (rs_tags r) as [tags|]; [apply tag_items_ok; by destruct Ht as (_ & _ & ?)|constructor].
  - unfold result_tail. repeat (constructor; [apply text_ok; lia|]). constructor.
Qed.

(** ** Reading an answer *)

Lemma text_arrived b pos size s l :
  fits size s -> Forall item_ok (Text s :: l) -> holds b pos (Text s :: l) ->
  text_at b pos size = Fine (s, pos + 4 + Z.of_nat (length s)) /\
  Forall item_ok l /\ holds b (pos + 4 + Z.of_nat (length s)) l.
Proof.
  intros [Hs Hn] Hok Hh. inversion_clear Hok as [|? ? _ Hl]. apply text_bytes in Hh as (E & Ec & Hh).
  pose proof (holds_room _ _ _ Hl Hh) as Hroom. unfold text_at. rewrite E.
  destruct (Z.ltb_spec (blen b) (pos + 4)); [lia|]. rewrite sbe_var_data_spec.
  destruct (Z.leb_spec (pos + 4 + Z.of_nat (length s)) (blen b)); [|lia].
  rewrite Nat2Z.id, Ec, take_ge by lia. by rewrite cstring_id.
Qed.

Lemma strcmp_nonempty (s : chars) : s <> [] -> strcmp_eq s [] = false.
Proof. apply bool_decide_eq_false. Qed.

Section Reading.
Context (memory : allocation -> bool) (HM : forall a, memory a = true).

Lemma pools_read b nslots pools rest : forall pos,
  Forall (pool_ok nslots) pools ->
  Forall item_ok (mjoin (pool_items <$> pools) ++ rest) ->
  holds b pos (mjoin (pool_items <$> pools) ++ rest) ->
  exists pos', decode_pools b nslots (length pools) pos payloadPools_block = (pools, Fine pos') /\
    Forall item_ok rest /\ holds b pos' rest.
Proof.
  induction pools as [|p pools IH]; intros pos Hp Hok Hh; [by exists pos|].
  apply Forall_cons_1 in Hp as [[Hid [E Hns] Hst [Hu Hne]] Hp'].
  change (mjoin (pool_items <$> (p :: pools)) ++ rest) with
    (Block payloadPools_block [Write 0 2 (dp_pool_id p); Write 2 4 (dp_nslots p);
       Write 6 4 (dp_stride_bytes p)] :: Text (dp_region_uri p) ::
       (mjoin (pool_items <$> pools) ++ rest)) in Hok, Hh.
  inversion_clear Hok as [|? ? _ Hok1]. destruct Hh as [Hb Hh].
  pose proof (holds_room _ _ _ Hok1 Hh) as Hroom.
  destruct (text_arrived _ _ _ _ _ Hu Hok1 Hh) as (E1 & Hok2 & Hh2).
  destruct (IH _ Hp' Hok2 Hh2) as (pos' & E2 & Hr). exists pos'. split; [|exact Hr].
  cbn [length decode_pools]. rewrite sbe_group_next_spec.
  destruct (Z.leb_spec (pos + payloadPools_block) (blen b)); [|lia].
  destruct (Z.ltb_spec (blen b) (pos + payloadPools_block)); [lia|].
  pose proof (Hb 0 2 (dp_pool_id p) ltac:(done) ltac:(done) ltac:(done) eq_refl) as E0.
  rewrite Z.add_0_r in E0. rewrite E0.
  block_field Hb 2 4 (dp_nslots p). block_field Hb 6 4 (dp_stride_bytes p).
 cbn [dp_nslots]. rewrite E, Z.eqb_refl. cbn [negb]. rewrite E1. cbn [fst snd].
  rewrite strcmp_nonempty by done. rewrite E2.
  destruct p. cbn in E |- *. by subst.
Qed.

Lemma tags_read b i tags rest : forall j pos,
  Forall tag_ok tags ->
  Forall item_ok (mjoin (tag_items <$> tags) ++ rest) ->
  holds b pos (mjoin (tag_items <$> tags) ++ rest) ->
  exists pos', decode_tags memory b i j (length tags) pos tags_block = (seen_tag <$> tags, Fine pos') /\
    Forall item_ok rest /\ holds b pos' rest.
Proof.
  induction tags as [|t tags IH]; intros j pos Ht Hok Hh; [by exists pos|].
  apply Forall_cons_1 in Ht as [Ht1 Ht']. destruct t as [t|]; [|done]. destruct Ht1 as [Hn Hlen].
  change (mjoin (tag_items <$> (Some t :: tags)) ++ rest) with
    (Text t :: (mjoin (tag_items <$> tags) ++ rest)) in Hok, Hh.
  inversion_clear Hok as [|? ? _ Hok1]. apply text_bytes in Hh as (E & Ec & Hh).
  pose proof (holds_room _ _ _ Hok1 Hh) as Hroom.
  destruct (IH (S j) _ Ht' Hok1 Hh) as (pos' & E2 & Hr). exists pos'. split; [|exact Hr].
  cbn [length decode_tags]. rewrite sbe_group_next_spec. pose proof tags_block_range.
  destruct (Z.leb_spec (pos + tags_block) (blen b)); [|lia].
  destruct (Z.ltb_spec (blen b) (pos + 4)); [lia|]. rewrite E, HM. cbn [negb]. rewrite andb_false_r.
  destruct (Z.ltb_spec (blen b) (pos + 4 + Z.of_nat (length t))); [lia|]. rewrite Nat2Z.id, Ec, E2.
  rewrite cstring_id by done. destruct t; [done|].
  by destruct (Z.ltb_spec 0 (Z.of_nat (length (a :: t)))); [|cbn in *; lia].
Qed.

Lemma texts_read b r rest pos :
  result_ok r -> Forall item_ok (result_tail r ++ rest) -> holds b pos (result_tail r ++ rest) ->
  exists pos', (forall r', rs_driver_control_stream_id r' = rs_driver_control_stream_id r ->
    decode_texts b r' pos =
      (r' <| rs_header_region_uri := rs_header_region_uri r |>
          <| rs_data_source_name := rs_data_source_name r |>
          <| rs_driver_instance_id := rs_driver_instance_id r |>
          <| rs_driver_control_channel := rs_driver_control_channel r |>, Fine pos')) /\
    Forall item_ok rest /\ holds b pos' rest.
Proof.
  intros [_ _ _ _ _ [Hu Hune] [Hn Hi] (Hc & Hch & Hchne)] Hok Hh. unfold result_tail in Hok, Hh.
  cbn [app] in Hok, Hh.
  destruct (text_arrived _ _ _ _ _ Hu Hok Hh) as (E1 & Hok1 & Hh1).
  destruct (text_arrived _ _ _ _ _ Hn Hok1 Hh1) as (E2 & Hok2 & Hh2).
  destruct (text_arrived _ _ _ _ _ Hi Hok2 Hh2) as (E3 & Hok3 & Hh3).
  destruct (text_arrived _ _ _ _ _ Hch Hok3 Hh3) as (E4 & Hok4 & Hh4).
  eexists. split; [|by split]. intros r' Er. unfold decode_texts. rewrite E1. cbn [fst snd].
  rewrite strcmp_nonempty by done. rewrite E2. cbn [fst snd]. rewrite E3. cbn [fst snd].
  rewrite E4. cbn [fst snd]. rewrite strcmp_nonempty by done. rewrite orb_false_r.
  match goal with |- (if ?x =? 0 then _ else _) = _ =>
    replace x with (rs_driver_control_stream_id r) by (by destruct r') end.
  by destruct (Z.eqb_spec (rs_driver_control_stream_id r) 0).
Qed.

Lemma filled_all {A} (zero : A) l : filled zero (length l) l = l.
Proof. unfold filled. by rewrite Nat.sub_diag, app_nil_r. Qed.

Lemma result_tags_read b i r rest pos :
  result_ok r ->
  let items := group_item tags_block (Z.of_nat (rs_tag_count r)) ::
               (mjoin (tag_items <$> default [] (rs_tags r)) ++ result_tail r ++ rest) in
  Forall item_ok items -> holds b pos items ->
  exists pos', (forall r', rs_driver_control_stream_id r' = rs_driver_control_stream_id r ->
    decode_result_tags memory b i r' pos =
      (r' <| rs_tag_count := rs_tag_count r |> <| rs_tags := rs_tags (seen_result r) |>
          <| rs_header_region_uri := rs_header_region_uri r |>
          <| rs_data_source_name := rs_data_source_name r |>
          <| rs_driver_instance_id := rs_driver_instance_id r |>
          <| rs_driver_control_channel := rs_driver_control_channel r |>, Fine pos')) /\
    Forall item_ok rest /\ holds b pos' rest.
Proof.
  intros Hr items Hok Hh. pose proof (rk_tags _ Hr) as [Ht Htc].
  destruct (group_arrived _ _ _ _ _ Hok Hh) as (Eg & Hok1 & Hh1).
  assert (Htags : Forall tag_ok (default [] (rs_tags r)) /\ length (default [] (rs_tags r)) = rs_tag_count r).
  { destruct (rs_tags r); [by destruct Ht as (_ & ? & ?)|by rewrite Ht]. }
  destruct Htags as [Hto Htl].
  destruct (tags_read b i _ _ 0 _ Hto Hok1 Hh1) as (pos1 & E1 & Hok2 & Hh2). rewrite Htl in E1.
  destruct (texts_read _ _ _ _ Hr Hok2 Hh2) as (pos2 & E2 & Hrest). exists pos2. split; [|done].
  intros r' Er. unfold decode_result_tags. rewrite Eg, HM. cbn [negb]. rewrite andb_false_r, Nat2Z.id, E1.
  assert (Et : (if 0 <? Z.of_nat (rs_tag_count r)
                then Some (filled NULL (rs_tag_count r) (seen_tag <$> default [] (rs_tags r))) else NULL) =
               rs_tags (seen_result r)).
  { rewrite <- Htl. unfold seen_result. destruct r as [? ? ? ? ? ? ? ? ? ? ? ? ? ? ? [tags|] ?]; [|done].
    cbn in *. destruct tags; [by destruct Ht|]. cbn. rewrite length_fmap. by rewrite Nat.sub_diag, app_nil_r. }
  rewrite Et, E2; [done|by destruct r'].
Qed.

Lemma result_read b i r rest pos :
  result_ok r -> Forall item_ok (result_items r ++ rest) -> holds b pos (result_items r ++ rest) ->
  exists pos', decode_result memory b i pos results_block = (seen_result r, Fine pos') /\
    Forall item_ok rest /\ holds b pos' rest.
Proof.
  intros Hr Hok Hh. unfold result_items in Hok, Hh. cbn [app] in Hok, Hh. rewrite <- !app_assoc in Hok, Hh.
  cbn [app] in Hok, Hh. rewrite <- !app_assoc in Hok, Hh.
  apply Forall_cons_1 in Hok as [_ Hok]. destruct Hh as [Hb Hh].
  pose proof (holds_room _ _ _ Hok Hh) as Hroom.
  destruct (rk_pools _ Hr) as (pools & Ep & Hpne & Hpl & Hpc & Hp).
  destruct (group_arrived _ _ _ _ _ Hok Hh) as (Eg & Hok1 & Hh1). rewrite Ep in Hok1, Hh1. cbn [default] in Hok1, Hh1.
  destruct (pools_read _ _ _ _ _ Hp Hok1 Hh1) as (pos1 & E1 & Hok2 & Hh2). rewrite Hpl in E1.
  destruct (result_tags_read _ i _ _ _ Hr Hok2 Hh2) as (pos2 & E2 & Hrest). exists pos2. split; [|done].
  assert (Ehead : result_head b pos = zero_result
    <| rs_stream_id := rs_stream_id r |> <| rs_producer_id := rs_producer_id r |>
    <| rs_epoch := rs_epoch r |> <| rs_layout_version := rs_layout_version r |>
    <| rs_header_nslots := rs_header_nslots r |> <| rs_header_slot_bytes := TP_HEADER_SLOT_BYTES |>
    <| rs_max_dims := TP_MAX_DIMS |> <| rs_data_source_id := rs_data_source_id r |>
    <| rs_driver_control_stream_id := rs_driver_control_stream_id r |>).
  { destruct (rk_layout _ Hr) as [<- <-]. unfold result_head.
    pose proof (Hb 0 4 (rs_stream_id r) ltac:(done) ltac:(done) ltac:(done) eq_refl) as E0.
    rewrite Z.add_0_r in E0. rewrite E0.
    block_field Hb 4 4 (rs_producer_id r). block_field Hb 8 8 (rs_epoch r).
    block_field Hb 16 4 (rs_layout_version r). block_field Hb 20 4 (rs_header_nslots r).
    block_field Hb 24 2 (rs_header_slot_bytes r). block_field Hb 26 1 (rs_max_dims r).
    block_field Hb 27 8 (rs_data_source_id r). block_field Hb 35 4 (rs_driver_control_stream_id r).
    unfold optional_u64. by destruct (Z.eqb_spec (rs_data_source_id r) TP_NULL_U64) as [->|]. }
  unfold decode_result. destruct (Z.ltb_spec (blen b) (pos + results_block)); [lia|]. rewrite Ehead.
  match goal with |- context [negb (?x =? TP_HEADER_SLOT_BYTES)] => change x with TP_HEADER_SLOT_BYTES end.
  match goal with |- context [negb (?x =? TP_MAX_DIMS)] => change x with TP_MAX_DIMS end.
  rewrite !Z.eqb_refl. cbn [negb orb]. rewrite Eg, Nat2Z.id, HM. cbn [negb].
  destruct (Z.eqb_spec (Z.of_nat (rs_pool_count r)) 0); [destruct pools; [done|cbn in *; lia]|].
  match goal with |- context [decode_pools b ?x] => change x with (rs_header_nslots r) end.
  rewrite E1, E2 by done. rewrite <- Hpl, filled_all, Hpl. f_equal.
  destruct (rk_layout _ Hr) as [El1 El2]. destruct r. cbn in Ep, El1, El2. by subst.
Qed.

Lemma results_read b rs rest : forall i pos,
  Forall result_ok rs -> Forall item_ok (mjoin (result_items <$> rs) ++ rest) ->
  holds b pos (mjoin (result_items <$> rs) ++ rest) ->
  exists pos', decode_results memory b i (length rs) pos results_block = (seen_result <$> rs, Fine pos').
Proof.
  induction rs as [|r rs IH]; intros i pos Hr Hok Hh; [by exists pos|].
  apply Forall_cons_1 in Hr as [Hr Hrs].
  change (mjoin (result_items <$> (r :: rs)) ++ rest) with
    ((result_items r ++ mjoin (result_items <$> rs)) ++ rest) in Hok, Hh.
  rewrite <- app_assoc in Hok, Hh.
  destruct (result_read _ i _ _ _ Hr Hok Hh) as (pos1 & E1 & Hok1 & Hh1).
  destruct (IH (S i) _ Hrs Hok1 Hh1) as (pos2 & E2). exists pos2. cbn [length decode_results].
  rewrite sbe_group_next_spec.
  assert (Hroom : pos + results_block <= blen b).
  { pose proof (holds_block _ _ _ _ _ Hh) as Hb. inversion_clear Hok as [|? ? _ Hok'].
    exact (holds_room _ _ _ Hok' Hb). }
  destruct (Z.leb_spec (pos + results_block) (blen b)); [|lia]. by rewrite E1, E2.
Qed.
End Reading.

(** ** Answers *)

Lemma plain_join l : Forall (fun x => forallb plain x = true) l -> forallb plain (mjoin l) = true.
Proof.
  induction 1 as [|x l Hx _ IH]; [done|]. change (mjoin (x :: l)) with (x ++ mjoin l).
  by rewrite forallb_app, Hx.
Qed.

Lemma group_parts_plain block entries :
  Z.of_nat (length entries) < 65535 -> Forall (fun x => forallb plain x = true) entries ->
  forallb plain (group_parts block entries) = true.
Proof.
  intros Hn Hp. unfold group_parts. rewrite u16_small by ulia.
  destruct (Z.ltb_spec 65534 (Z.of_nat (length entries))); [lia|].
  destruct (Z.ltb_spec (Z.of_nat (length entries)) 65536); [|lia].
  rewrite Nat2Z.id, firstn_all, app_nil_r. cbn. by apply plain_join.
Qed.

Lemma array_parts_plain {A} block count (f : A -> list part) l :
  (forall x, forallb plain (f x) = true) -> Z.of_nat count < 65535 ->
  match l with Some l => length l = count | NULL => count = 0%nat end ->
  forallb plain (array_parts block count f l) = true.
Proof.
  intros Hf Hn Hl. destruct l as [l|]; [|by rewrite Hl]. unfold array_parts. subst count.
  rewrite firstn_all. apply group_parts_plain; [by rewrite length_fmap|].
  apply Forall_fmap, Forall_forall. intros x _. apply Hf.
Qed.

Lemma result_parts_plain r : result_ok r -> forallb plain (result_parts r) = true.
Proof.
  intros [_ _ _ (pools & Ep & _ & Hpl & Hpc & _) [Ht Htc] _ _ _]. unfold result_parts.
  cbn [forallb plain andb]. rewrite !forallb_app, !array_parts_plain; try done.
  - destruct (rs_tags r) as [tags|]; [apply Ht|done].
  - by rewrite Ep.
Qed.

Definition response_items (r : tp_discovery_response_t) : list item :=
  [discovery_header discoveryResponse_block discoveryResponse_template;
   Block discoveryResponse_block [Write 0 8 (dr_request_id r); Write 8 1 (dr_status r)];
   group_item results_block (Z.of_nat (length (dr_results r)))] ++
  mjoin (result_items <$> dr_results r) ++ [Text (dr_error_message r)].

Record response_ok (r : tp_discovery_response_t) : Prop := {
  sk_id : is_u64 (dr_request_id r);
  sk_status : is_u8 (dr_status r);
  sk_message : fits 1024 (dr_error_message r);
  sk_results : Forall result_ok (dr_results r);
  sk_count : Z.of_nat (length (dr_results r)) < 65535;
}.

Lemma response_parts_items r :
  response_ok r -> items_of (response_parts r) = response_items r /\ forallb plain (response_parts r) = true.
Proof.
  intros [_ _ _ Hr Hn]. unfold response_parts, response_items. rewrite !items_of_app, !forallb_app. split.
  - rewrite group_parts_items by (by rewrite length_fmap). rewrite length_fmap, <- list_fmap_compose.
    assert (E : compose items_of result_parts <$> dr_results r = result_items <$> dr_results r).
    { apply Forall_fmap_ext. eapply Forall_impl; [exact Hr|]. intros x Hx. by apply result_parts_items. }
    by rewrite E.
  - rewrite group_parts_plain; [done|by rewrite length_fmap|].
    apply Forall_fmap. eapply Forall_impl; [exact Hr|]. intros x Hx. by apply result_parts_plain.
Qed.

Lemma response_items_ok r : response_ok r -> Forall item_ok (response_items r).
Proof.
  intros [Hi Hs [Hm _] Hr Hn]. unfold response_items. constructor; [by apply header_item_ok|].
  constructor; [split; [done|split; [reflexivity|write_fits_tac]]|].
  constructor; [apply group_item_ok; [by split|ulia]|]. apply Forall_app_2.
  - clear Hn. induction Hr as [|x l Hx _ IH]; [constructor|]. apply Forall_app_2; [by apply result_items_ok|exact IH].
  - constructor; [apply text_ok; lia|constructor].
Qed.

Lemma discovery_header_holds b block template ws l :
  Forall item_ok l -> holds b 0 (discovery_header block template :: Block block ws :: l) ->
  0 <= block -> discovery_header_check b template block = Decoded tt.
Proof.
  intros Hok Hh Hblock. destruct Hh as [Hb [_ Hr%holds_room]]; [|done]. change (0 + 8) with 8 in Hr.
  unfold discovery_header_check, messageHeader_blockLength, messageHeader_templateId,
    messageHeader_schemaId, messageHeader_version, messageHeader_encoded_length.
  pose proof (Hb 0 2 block ltac:(done) ltac:(done) ltac:(done) eq_refl) as E0.
  pose proof (Hb 2 2 template ltac:(done) ltac:(done) ltac:(done) eq_refl) as E2.
  pose proof (Hb 4 2 discovery_schema_id ltac:(done) ltac:(done) ltac:(done) eq_refl) as E4.
  pose proof (Hb 6 2 discovery_schema_version ltac:(done) ltac:(done) ltac:(done) eq_refl) as E6.
  rewrite !Z.add_0_l in E0, E2, E4, E6. rewrite E0, E2, E4, E6, !Z.eqb_refl.
  destruct (Z.ltb_spec (blen b) 8); [lia|]. simpl negb. cbn [orb].
  change (discovery_schema_version <? discovery_schema_version) with false. cbn [negb].
  by destruct (Z.ltb_spec (blen b) (8 + block)); [lia|].
Qed.

(** The beginning of an answer. *)
Lemma answer_arrived r b msg :
  response_ok r -> tp_discovery_encode_response r b = Decoded msg ->
  discovery_header_check msg discoveryResponse_template discoveryResponse_block = Decoded tt /\
  sbe_get 8 msg 8 = dr_request_id r /\ sbe_get 1 msg (8 + 8) = dr_status r /\
  let l := group_item results_block (Z.of_nat (length (dr_results r))) ::
           mjoin (result_items <$> dr_results r) ++ [Text (dr_error_message r)] in
  Forall item_ok l /\ holds msg (8 + discoveryResponse_block) l.
Proof.
  intros Hr He. destruct (response_parts_items _ Hr) as [Ei _].
  pose proof (response_items_ok _ Hr) as Hok.
  unfold tp_discovery_encode_response in He. apply encode_parts_holds in He; [|by rewrite Ei].
  rewrite Ei in He. unfold response_items in He, Hok. cbn [app] in He, Hok.
  apply Forall_cons_1 in Hok as [_ Hok]. apply Forall_cons_1 in Hok as [_ Hok].
  pose proof (discovery_header_holds _ _ _ _ _ Hok He ltac:(done)) as Eh.
  destruct He as [_ [Hb Hh]]. change (0 + 8) with 8 in Hb, Hh.
  pose proof (Hb 0 8 (dr_request_id r) ltac:(done) ltac:(done) ltac:(done) eq_refl) as E0.
  split; [done|]. split; [done|]. split; [by apply Hb|]. by split.
Qed.

(** An answer without error is what its requester reads; the texts of tags aside
    that are empty. *)
Lemma answer_read memory r b msg request_id :
  (forall a, memory a = true) -> response_ok r -> dr_status r = discoveryStatus_OK ->
  request_id = dr_request_id r \/ request_id = 0 ->
  tp_discovery_encode_response r b = Decoded msg ->
  tp_discovery_decode_response memory msg request_id zero_response =
    Decoded {| dr_request_id := dr_request_id r; dr_status := discoveryStatus_OK; dr_error_message := [];
               dr_results := seen_result <$> dr_results r |}.
Proof.
  intros HM Hr Hst Hid He. destruct (answer_arrived _ _ _ Hr He) as (Eh & E0 & E1 & Hok & Hh).
  destruct (group_arrived _ _ _ _ _ Hok Hh) as (Eg & Hok1 & Hh1).
  destruct (results_read memory HM _ _ _ 0 _ (sk_results _ Hr) Hok1 Hh1) as (pos & E).
  unfold tp_discovery_decode_response. rewrite Eh, E0, E1. cbn [outcome_bind].
  assert (Eid : negb (request_id =? 0) && negb (dr_request_id r =? request_id) = false).
  { destruct Hid as [-> | ->]; [by rewrite Z.eqb_refl, andb_false_r|done]. }
  rewrite Eid, Hst, sbe_enum_valid by (vm_compute; by left).
  unfold messageHeader_encoded_length. cbn [default]. rewrite Z.eqb_refl. cbn [negb].
  rewrite Eg, HM, andb_false_r, Nat2Z.id, E. cbn [fst snd].
  replace (length (dr_results r)) with (length (seen_result <$> dr_results r)) by apply length_fmap.
  by rewrite filled_all.
Qed.

Lemma answer_of_another memory r b msg request_id out :
  response_ok r -> request_id <> 0 -> request_id <> dr_request_id r ->
  tp_discovery_encode_response r b = Decoded msg ->
  tp_discovery_decode_response memory msg request_id out = NotThisMessage.
Proof.
  intros Hr Hne Hid He. destruct (answer_arrived _ _ _ Hr He) as (Eh & E0 & _).
  unfold tp_discovery_decode_response. rewrite Eh, E0. cbn [outcome_bind].
  destruct (Z.eqb_spec request_id 0); [done|]. by destruct (Z.eqb_spec (dr_request_id r) request_id).
Qed.

(** Whether a buffer is long enough. *)
Lemma answer_fits r b :
  response_ok r ->
  items_size (response_items r) <= blen b <-> exists msg, tp_discovery_encode_response r b = Decoded msg.
Proof.
  intros Hr. destruct (response_parts_items _ Hr) as [Ei Hp]. pose proof (response_items_ok _ Hr) as Hok.
  rewrite <- Ei in *. split; [by apply encode_parts_fits|]. intros [msg He].
  by apply (encode_parts_length _ _ _ Hok He).
Qed.


(** C26: An answer with status OK whose results a client accepts ([response_ok]) can be
    encoded exactly in the buffers that have room for it, and what is encoded is read
    by the client that asked, with memory for its allocations, as the answer that was
    sent: with all its streams, pools and texts, but for empty tags, which become
    NULL ([seen_result]); a client that asked for something else does not take it.
    An answer with an error is not read back: its text is lost (see
    [error_text_lost]); and a result of which only the data source is known
    spoils the answer it is in (see [source_spoils_answer]). *)
Theorem discovery_answer_roundtrip r b :
  response_ok r -> dr_status r = discoveryStatus_OK ->
  (items_size (response_items r) <= blen b <-> exists msg, tp_discovery_encode_response r b = Decoded msg) /\
  forall memory msg request_id,
    (forall a, memory a = true) -> tp_discovery_encode_response r b = Decoded msg ->
    tp_discovery_decode_response memory msg request_id zero_response =
      if (request_id =? 0) || (request_id =? dr_request_id r)
      then Decoded {| dr_request_id := dr_request_id r; dr_status := discoveryStatus_OK;
                      dr_error_message := []; dr_results := seen_result <$> dr_results r |}
      else NotThisMessage.
Proof.
  intros Hr Hst. split; [by apply answer_fits|]. intros memory msg request_id HM He.
  destruct (Z.eqb_spec request_id 0) as [->|Hne]; [apply (answer_read memory r b msg 0); auto|].
  destruct (Z.eqb_spec request_id (dr_request_id r)) as [->|Hid]; [apply (answer_read memory r b msg); auto|].
  by apply (answer_of_another memory r b msg).
Qed.

(** ** From a producer to a client *)

(** An announcement with texts for what it announces, all within their arrays. *)
Record announcement_ok (a : tp_shm_pool_announce_t) : Prop := {
  ck_words : Forall is_u32 [an_stream_id a; an_producer_id a; an_layout_version a; an_header_nslots a];
  ck_epoch : is_u64 (an_epoch a);
  ck_uri : exists uri, an_header_region_uri a = Some uri /\ fits 4096 uri /\ uri <> [];
  ck_pools : Forall (fun p => is_u16 (ap_pool_id p) /\ is_u32 (ap_stride_bytes p) /\
                exists uri, ap_region_uri p = Some uri /\ fits 4096 uri /\ uri <> []) (default [] (an_pools a));
}.

Record authority_ok (cfg : tp_discovery_service_config_t) : Prop := {
  yk_stream : u32 (sc_driver_control_stream_id cfg) <> 0;
  yk_channel : fits 1024 (sc_driver_control_channel cfg) /\ sc_driver_control_channel cfg <> [];
  yk_instance : fits 256 (sc_driver_instance_id cfg);
}.

(** The bytes of an answer with one stream, whose name may be as long as it gets. *)
Definition answer_size (cfg : tp_discovery_service_config_t) (a : tp_shm_pool_announce_t) : Z :=
  let text_size (t : chars) := 4 + Z.of_nat (length t) in
  8 + 9 + 4 + 39 + 4 + foldr Z.add 0 ((fun p => 10 + text_size (default [] (ap_region_uri p))) <$> default [] (an_pools a)) +
  4 + text_size (default [] (an_header_region_uri a)) + 259 + text_size (sc_driver_instance_id cfg) +
  text_size (sc_driver_control_channel cfg) + 4.

Definition announced_info (p : tp_shm_pool_announce_pool_t) : tp_discovery_pool_info_t :=
  {| dp_pool_id := ap_pool_id p; dp_nslots := ap_pool_nslots p; dp_stride_bytes := ap_stride_bytes p;
     dp_region_uri := default [] (ap_region_uri p) |}.

(** The stream as it was announced and where its driver is, with the name it has. *)
Definition announced_result (cfg : tp_discovery_service_config_t) (a : tp_shm_pool_announce_t) (name : chars)
    : tp_discovery_result_t :=
  {| rs_stream_id := an_stream_id a; rs_producer_id := an_producer_id a; rs_epoch := an_epoch a;
     rs_layout_version := an_layout_version a; rs_header_nslots := an_header_nslots a;
     rs_header_slot_bytes := an_header_slot_bytes a; rs_max_dims := TP_MAX_DIMS;
     rs_data_source_id := TP_NULL_U64;
     rs_driver_control_stream_id := u32 (sc_driver_control_stream_id cfg);
     rs_header_region_uri := default [] (an_header_region_uri a); rs_data_source_name := name;
     rs_driver_instance_id := sc_driver_instance_id cfg;
     rs_driver_control_channel := sc_driver_control_channel cfg;
     rs_pools := Some (announced_info <$> default [] (an_pools a));
     rs_pool_count := length (default [] (an_pools a)); rs_tags := NULL; rs_tag_count := 0%nat |}.

Lemma announced_infos a :
  announcement_ok a ->
  pool_info <$> (pool_entry <$> default [] (an_pools a)) = announced_info <$> default [] (an_pools a).
Proof.
  intros [_ _ _ Hp]. rewrite <- list_fmap_compose. apply Forall_fmap_ext.
  eapply Forall_impl; [exact Hp|]. intros p (_ & _ & uri & E & Hu & _).
  unfold compose, pool_info, pool_entry, announced_info. cbn. by rewrite E, kept_id.
Qed.

Lemma heard_result cfg M a e now :
  announceable a -> announcement_ok a -> authority_ok cfg -> entry_ok M e -> de_stream_id e = an_stream_id a ->
  result_of cfg (heard_of a e now) = announced_result cfg a (de_data_source_name e).
Proof.
  intros Ha Hk [_ [Hc _] Hi] He Hid. pose proof (announced_infos a Hk) as Hpools.
  pose proof (eo_source _ _ He) as Hsource. destruct (ck_uri a Hk) as (uri & Eu & Hu & _).
  destruct e. cbn in Hid, Hsource. subst. unfold result_of, heard_of, announced_entry, tp_discovery_entry_clear, announced_result.
  cbn. rewrite Eu, kept_id by done. rewrite !kept_id by done. rewrite Hpools. unfold constant.
  destruct (Nat.eqb_spec (length (default [] (an_pools a))) 0) as [E|_]; [|done].
  apply length_zero_iff_nil in E. by destruct (ab_pools _ Ha).
Qed.

Lemma announced_result_ok cfg a name :
  announceable a -> announcement_ok a -> authority_ok cfg -> fits 256 name ->
  Z.of_nat (length (default [] (an_pools a))) < 65535 -> result_ok (announced_result cfg a name).
Proof.
  intros Ha [Hw He (uri & Eu & Hu) Hp] [Hs Hc Hi] Hn Hlen. decompose_Forall_hyps. split; cbn.
  - repeat (apply Forall_cons_2; [done || apply u32_range|]). apply Forall_nil_2.
  - repeat (apply Forall_cons_2; [done|]). apply Forall_nil_2.
  - split; [apply Ha|done].
  - exists (announced_info <$> default [] (an_pools a)). rewrite length_fmap. split_and!; try done.
    { intros E%fmap_nil_inv. by apply (ab_pools _ Ha). }
    apply Forall_fmap, Forall_forall. intros p Hin.
    pose proof (proj1 (Forall_forall _ _) Hp p Hin) as (Hid & Hst & u & Epu & Hpu).
    pose proof (proj1 (Forall_forall _ _) (ab_same _ Ha) p Hin) as Hns.
    unfold compose. split; cbn; [done|by rewrite Hns|done|by rewrite Epu].
  - done.
  - by rewrite Eu.
  - by split.
  - by destruct Hc.
Qed.

Lemma pool_items_size pools :
  items_size (mjoin (pool_items <$> (announced_info <$> pools))) =
  foldr Z.add 0 ((fun p => 10 + (4 + Z.of_nat (length (default [] (ap_region_uri p))))) <$> pools).
Proof.
  induction pools as [|p pools IH]; [done|].
  change (mjoin (pool_items <$> (announced_info <$> (p :: pools)))) with
    (pool_items (announced_info p) ++ mjoin (pool_items <$> (announced_info <$> pools))).
  rewrite items_size_app, IH. unfold pool_items. cbn [items_size item_size fmap list_fmap foldr].
  unfold Text. cbn [item_size]. rewrite length_fmap. unfold payloadPools_block, announced_info. cbn [dp_region_uri]. lia.
Qed.

Lemma announced_size cfg a name id :
  fits 256 name ->
  items_size (response_items {| dr_request_id := id; dr_status := discoveryStatus_OK; dr_error_message := [];
    dr_results := [announced_result cfg a name] |}) <= answer_size cfg a.
Proof.
  intros [Hn _]. unfold response_items. cbn [dr_results dr_request_id dr_status dr_error_message length].
  change (mjoin (result_items <$> [?r])) with (result_items r ++ []). rewrite app_nil_r.
  unfold result_items, result_tail. cbn [rs_pools rs_tags announced_result default].
  rewrite !items_size_app. cbn [items_size]. rewrite !items_size_app. cbn [items_size].
  change (Datatypes.id (announced_info <$> ?l)) with (announced_info <$> l). rewrite pool_items_size.
  change (mjoin (tag_items <$> []) ++ ?l) with l.
  unfold answer_size. cbv zeta. cbn [items_size item_size].
  unfold Text. cbn [item_size]. rewrite !length_fmap. cbn [rs_header_region_uri rs_data_source_name rs_driver_instance_id
    rs_driver_control_channel announced_result length default].
  unfold discovery_header, header_item, group_item. cbn [item_size].
  unfold discoveryResponse_block, results_block. lia.
Qed.

Lemma pools_few cfg a : answer_size cfg a <= 4096 -> Z.of_nat (length (default [] (an_pools a))) < 65535.
Proof.
  unfold answer_size. cbv zeta. intros Hs.
  assert (H14 : forall l, 14 * Z.of_nat (length l) <= foldr Z.add 0
    ((fun p => 10 + (4 + Z.of_nat (length (default [] (ap_region_uri p))))) <$> l)).
  { intros l. induction l as [|p l IH]; [done|]. cbn [length fmap list_fmap foldr] in *. lia. }
  specialize (H14 (default [] (an_pools a))). lia.
Qed.

(** With memory and a transport that opens publications there is one to answer to. *)
Lemma publication_found W channel stream_id s :
  memory_enough W -> (forall t, w_subscribe W t = true) ->
  exists p s', tp_discovery_get_publication W channel stream_id s = Some (Some p, s') /\
    ma_events s' = ma_events s /\ ds_entries (ma_state s') = ds_entries (ma_state s).
Proof.
  intros HM Hsub.
  assert (Hw : Machine.wp False (tp_discovery_get_publication W channel stream_id)
    (fun r s' => is_Some r /\ ma_events s' = ma_events s /\
                 ds_entries (ma_state s') = ds_entries (ma_state s)) s).
  { unfold tp_discovery_get_publication. wps. destruct (find_index _ _) as [i|] eqn:E; wps.
    - split; [|done]. apply lookup_lt_is_Some_2. by eapply find_index_lt.
    - rewrite HM. cbn [negb]. wps. rewrite Hsub. wps. split_and!; [by eexists|done|by destruct (ma_state s)]. }
  unfold Machine.wp in Hw. destruct (tp_discovery_get_publication _ _ _ _) as [[r s']|]; [|done].
  destruct Hw as ([p ->] & Hev & Hent). by exists p, s'.
Qed.

(** C11: From the values of an announcement to the answer a client reads: an announcement
    that is not older than what is known of its stream is accepted, and the answer to
    a request for the stream, while the announcement has not expired, is sent as
    bytes that the client decodes as exactly the announced epoch, layout and pools,
    with the driver that is responsible.  The two messages that reach the service are
    given by their values, not their bytes: [answer_request] is what
    [tp_discovery_handle_request] does after decoding.  The path is not closed at
    that end, because the service misreads the bytes: no request a client encodes is
    read ([request_never_read]), and an announcement loses a text
    ([fragment_texts_wrong]). *)
Theorem announced_stream_reaches_client W cfg p text a q c channel s :
  service_reached W cfg p s ->
  memory_enough W -> (forall t, w_subscribe W t = true) ->
  announceable a -> announcement_ok a -> authority_ok cfg ->
  (forall e, e ∈ ds_entries (ma_state s) -> de_stream_id e = an_stream_id a -> de_epoch e <= an_epoch a) ->
  asks_for (an_stream_id a) q -> an_stream_id a <> TP_NULL_U32 -> is_u64 (rq_request_id q) ->
  rq_response_channel q = Some (c :: channel) -> rq_response_stream_id q <> 0 ->
  within_expiry W cfg -> 1 <= sc_max_results cfg -> answer_size cfg a <= 4096 ->
  exists s1 s2 publication message name,
    tp_discovery_service_apply_announce W a s = Some (true, s1) /\
    answer_request W text q s1 = Some (tt, s2) /\
    ma_events s2 = ma_events s ++ [Answered publication message] /\
    forall memory, (forall x, memory x = true) ->
      tp_discovery_decode_response memory message (rq_request_id q) zero_response =
        Decoded {| dr_request_id := rq_request_id q; dr_status := discoveryStatus_OK;
                   dr_error_message := []; dr_results := [announced_result cfg a name] |}.
Proof.
  intros [Hok Ecfg]%reached_ok HM Hsub Ha Hk Hcfg Hnew Hq Hne Hid Hch Hrs Hwin Hmax Hsize.
  rewrite <- Ecfg in Hwin, Hmax. destruct (announced_answer W HM a q s Ha Hok Hnew Hq Hne Hwin Hmax)
    as (s1 & s2 & e & t & Eann & Equery & Hev & Hsid & He & _).
  rewrite Ecfg in Equery. rewrite (heard_result cfg _ a e _ Ha Hk Hcfg He Hsid) in Equery.
  set (name := de_data_source_name e) in *. assert (Hname : fits 256 name) by apply He.
  set (r := {| dr_request_id := _; dr_results := _ |}) in Equery.
  assert (Hsz : items_size (response_items r) <= 4096) by (pose proof (announced_size cfg a name (rq_request_id q) Hname); unfold r; lia).
  assert (Hn : Z.of_nat (length (default [] (an_pools a))) < 65535) by (apply pools_few with cfg; done).
  assert (Hr : response_ok r).
  { split; cbn; [done|by split|by apply fits_nil| |done].
    constructor; [by apply announced_result_ok|constructor]. }
  destruct (proj1 (answer_fits r (repeat 0 (Z.to_nat 4096)) Hr)) as [message Em].
  { unfold blen. rewrite repeat_length. lia. }
  destruct (publication_found W (c :: channel) (i32 (rq_response_stream_id q)) s2 HM Hsub)
    as (pub & s3 & Ep & Hev3 & _).
  eexists s1, _, (qp_publication pub), message, name. split; [done|]. split.
  { unfold answer_request. rewrite Hch. destruct (Z.eqb_spec (rq_response_stream_id q) 0); [done|].
    unfold next. rewrite Equery. unfold send_response. rewrite Em. unfold next. rewrite Ep.
    reflexivity. }
  split; [cbn; congruence|]. intros memory Hmem.
  rewrite (answer_read memory r _ _ (rq_request_id q) Hmem Hr eq_refl (or_introl eq_refl) Em).
  unfold r. cbn. done.
Qed.

(** ** Waiting *)

Section Waiting.
Context (memory : allocation -> bool) (poll : nat -> res (list bytes)) (clock : nat -> Z).

(** With a deadline set, at most as many turns as the clock takes to pass it. *)
Lemma poll_loop_ends request_id timeout_ns deadline n : forall fuel i k st,
  0 < timeout_ns -> 0 < deadline -> (forall k, (n <= k)%nat -> deadline < clock k) ->
  (n - k < fuel)%nat ->
  let e := poll_loop memory poll clock request_id timeout_ns fuel i k deadline st in
  e <> Waiting /\ e <> Overflowed /\ (e = TimedOut -> exists k', deadline < clock k').
Proof.
  induction fuel as [|fuel IH]; intros i k st Ht Hd Hclock Hf; [lia|]. cbn [poll_loop].
  destruct (snd st); [done|]. destruct (poll i); [|done].
  destruct (handle_all _ _ _ _); [|done].
  destruct (Z.ltb_spec 0 timeout_ns); [|lia]. destruct (Z.eqb_spec deadline 0); [lia|].
  destruct (Z.ltb_spec deadline (clock k)) as [Hlt|Hle]; [split_and!; [done..|by exists k]|].
  apply IH; [done..|]. destruct (decide (n <= k)%nat) as [Hk|]; [|lia]. specialize (Hclock k Hk). lia.
Qed.

(** What ends the wait besides the clock: a fragment that is read as an answer to
    the request, or that cannot be decoded; or one a decoder reads beyond. *)
Definition taken (request_id : Z) (b : bytes) : Prop :=
  exists out, tp_discovery_decode_response memory b request_id out = Malformed \/
    exists r, tp_discovery_decode_response memory b request_id out = Decoded r.

Definition read_beyond (request_id : Z) (b : bytes) : Prop :=
  exists out, tp_discovery_decode_response memory b request_id out = OutOfBounds.

(** The fragment was delivered by a poll. *)
Definition delivered (P : bytes -> Prop) : Prop :=
  exists i fragments b, poll i = Ok fragments /\ b ∈ fragments /\ P b.

Lemma handle_all_ends request_id l : forall st,
  match handle_all memory request_id st l with
  | None => exists b, b ∈ l /\ read_beyond request_id b
  | Some st' => snd st' = true -> snd st = true \/ exists b, b ∈ l /\ taken request_id b
  end.
Proof.
  induction l as [|b l IH]; intros st; cbn [handle_all]; [by left|].
  unfold tp_discovery_response_handler.
  assert (Hin : b ∈ b :: l) by left.
  assert (Hmore : forall P : bytes -> Prop, (exists b, b ∈ l /\ P b) -> exists b', b' ∈ b :: l /\ P b')
    by (intros P (b' & ? & ?); exists b'; split; [by right|done]).
  assert (Htaken : tp_discovery_decode_response memory b request_id (fst st) = Malformed \/
    (exists r, tp_discovery_decode_response memory b request_id (fst st) = Decoded r) ->
    forall st0, match handle_all memory request_id st0 l with
    | None => exists b', b' ∈ b :: l /\ read_beyond request_id b'
    | Some st' => snd st' = true -> snd st = true \/ exists b', b' ∈ b :: l /\ taken request_id b'
    end).
  { intros Ht st0. specialize (IH st0). destruct (handle_all _ _ _ _) as [st'|]; [|by apply Hmore].
    intros _. right. exists b. split; [done|by exists (fst st)]. }
  destruct (tp_discovery_decode_response memory b request_id (fst st)) as [out| | |] eqn:E.
  - apply Htaken. right. by exists out.
  - specialize (IH st). destruct (handle_all _ _ _ _); [|by apply Hmore].
    intros Hd. destruct (IH Hd); [by left|right; by apply Hmore].
  - apply Htaken. by left.
  - exists b. split; [done|by exists (fst st)].
Qed.

Lemma poll_loop_reason request_id timeout_ns : forall fuel i k deadline st,
  (snd st = true -> delivered (taken request_id)) ->
  match poll_loop memory poll clock request_id timeout_ns fuel i k deadline st with
  | Answer _ => delivered (taken request_id)
  | PollFailed e => exists i, poll i = Err e
  | Crashed => delivered (read_beyond request_id)
  | TimedOut | Overflowed | Waiting => True
  end.
Proof.
  induction fuel as [|fuel IH]; intros i k deadline st Hst; cbn [poll_loop];
    (destruct (snd st) eqn:Es; [by apply Hst|]); [done|].
  destruct (poll i) as [fragments|e] eqn:Ep; [|by exists i].
  pose proof (handle_all_ends request_id fragments st) as Hall.
  destruct (handle_all memory request_id st fragments) as [st'|].
  - assert (Hst' : snd st' = true -> delivered (taken request_id)).
    { intros Hd. destruct (Hall Hd) as [?|(b & ? & ?)]; [congruence|]. by exists i, fragments, b. }
    destruct (0 <? timeout_ns); [|by apply IH]. cbv zeta.
    destruct (if deadline =? 0 then _ else _); [|done]. destruct (_ <? _); [done|by apply IH].
  - destruct Hall as (b & ? & ?). by exists i, fragments, b.
Qed.

(** C35: Waiting for an answer with a timeout ends, however many messages arrive: once
    the clock stays past the deadline, at the latest.  It ends in one of four ways.
    It times out, and then the clock was past the deadline.  It fails with the error
    of a poll of the subscription.  It returns a response, and then a fragment was
    delivered that was decoded as an answer to this request - or one that cannot be
    decoded at all, which also ends the wait with success (see
    [undecodable_answers]).  Or it does not return, because a fragment was delivered
    in which the decoder reads beyond its end ([Crashed]).  An answer that arrives
    in the poll after which the deadline has passed is dropped: the wait times
    out. *)
Theorem discovery_poll_returns request_id timeout_ns n :
  0 < timeout_ns -> 0 <= clock 0 -> clock 0 + timeout_ns < 2 ^ 63 ->
  (forall k, (n <= k)%nat -> clock 0 + timeout_ns < clock k) ->
  match tp_discovery_poll memory poll clock request_id timeout_ns (S (S n)) with
  | Waiting | Overflowed => False
  | TimedOut => exists k, clock 0 + timeout_ns < clock k
  | PollFailed e => exists i, poll i = Err e
  | Answer _ => delivered (taken request_id)
  | Crashed => delivered (read_beyond request_id)
  end.
Proof.
  intros Ht H0 Hmax Hclock.
  assert (Hends : match tp_discovery_poll memory poll clock request_id timeout_ns (S (S n)) with
    | Waiting | Overflowed => False
    | TimedOut => exists k, clock 0%nat + timeout_ns < clock k
    | _ => True
    end).
  { unfold tp_discovery_poll. set (fuel := S n). cbn [poll_loop snd].
    destruct (poll 0); [|done]. destruct (handle_all _ _ _ _) as [st|]; [|done].
    destruct (Z.ltb_spec 0 timeout_ns); [|lia]. rewrite Z.eqb_refl.
    replace (i64_checked (clock 0%nat + timeout_ns)) with (Some (clock 0%nat + timeout_ns))
      by (symmetry; apply i64_checked_ok; ulia).
    destruct (Z.ltb_spec (clock 0%nat + timeout_ns) (clock 1%nat)); [by eexists|].
    destruct (poll_loop_ends request_id timeout_ns (clock 0%nat + timeout_ns) n fuel 1 2 st)
      as (Hw & Ho & Hlate); [done|lia|done|lia|].
    destruct (poll_loop _ _ _ _ _ _ _ _ _ _); try done. by apply Hlate. }
  pose proof (poll_loop_reason request_id timeout_ns (S (S n)) 0 0 0 (zero_response, false)
    ltac:(done)) as Hwhy.
  unfold tp_discovery_poll in *. by destruct (poll_loop _ _ _ _ _ _ _ _ _ _).
Qed.
End Waiting.
End Session.

(** ** Requests *)

(** The words of a request, and texts below the width of their length. *)
Record request_ok (q : tp_discovery_request_t) : Prop := {
  qk_longs : Forall is_u64 [rq_request_id q; rq_data_source_id q];
  qk_words : Forall is_u32 [rq_client_id q; rq_response_stream_id q; rq_stream_id q; rq_producer_id q];
  qk_tags : Z.of_nat (length (rq_tags q)) < 65535;
  qk_texts : Forall (fun t => Z.of_nat (length (default [] (cstring <$> t))) < 2 ^ 32)
               (rq_response_channel q :: rq_data_source_name q :: rq_tags q);
}.

Section Requests.
#[local] Existing Instance le_sbe.
Context {TG : TagsGroup}.

Lemma word_bytes b off :
  0 <= off -> sbe_get 4 b off = sbe_get 1 b off + 256 * sbe_get 1 b (off + 1) +
                   65536 * sbe_get 1 b (off + 2) + 16777216 * sbe_get 1 b (off + 3).
Proof.
  intros Ho. cbn [sbe_get le_sbe].
  change (Z.to_nat 4) with 4%nat. change (Z.to_nat 1) with 1%nat. cbn [Le.get].
  replace (Z.to_nat (off + 1)) with (S (Z.to_nat off)) by lia.
  replace (Z.to_nat (off + 2)) with (S (S (Z.to_nat off))) by lia.
  replace (Z.to_nat (off + 3)) with (S (S (S (Z.to_nat off)))) by lia. lia.
Qed.

Lemma half_words b off :
  0 <= off -> sbe_get 4 b off = sbe_get 2 b off + 65536 * sbe_get 2 b (off + 2).
Proof.
  intros Ho. cbn [sbe_get le_sbe].
  change (Z.to_nat 4) with 4%nat. change (Z.to_nat 2) with 2%nat. cbn [Le.get].
  replace (Z.to_nat (off + 2)) with (S (S (Z.to_nat off))) by lia. lia.
Qed.

Lemma text_byte b pos (s : chars) i c :
  sbe_chars b pos (length s) = s -> s !! i = Some c -> "000"%char ∉ s ->
  1 <= sbe_get 1 b (pos + Z.of_nat i) < 256.
Proof.
  intros E Hi Hn. assert (Hc : c <> "000"%char) by (intros ->; by apply Hn, (list_elem_of_lookup_2 _ i)).
  pose proof (sbe_get_range 1 b (pos + Z.of_nat i) ltac:(done)) as R. change (2 ^ (8 * 1)) with 256 in R.
  destruct (decide (sbe_get 1 b (pos + Z.of_nat i) = 0)) as [E0|]; [|lia]. exfalso. apply Hc.
  pose proof (lookup_lt_Some _ _ _ Hi) as Hlt. rewrite <- E in Hi. unfold sbe_chars, sbe_bytes in Hi.
  rewrite !list_lookup_fmap, lookup_seq_lt in Hi by done.
  change (Some (char_of (sbe_get 1 b (pos + Z.of_nat i))) = Some c) in Hi. rewrite E0 in Hi. by injection Hi as <-.
Qed.

Definition request_head (q : tp_discovery_request_t) : item :=
  Block discoveryRequest_block
    [Write 0 8 (rq_request_id q); Write 8 4 (rq_client_id q); Write 12 4 (rq_response_stream_id q);
     Write 16 4 (optional_u32 (rq_stream_id q)); Write 20 4 (optional_u32 (rq_producer_id q));
     Write 24 8 (optional_u64 (rq_data_source_id q))].

Lemma request_head_ok q : request_ok q -> item_ok (request_head q).
Proof.
  intros [Hl Hw _ _]. decompose_Forall_hyps. split; [done|]. split; [reflexivity|].
  unfold optional_u32, optional_u64. repeat case_match; write_fits_tac.
Qed.

Lemma request_parts_items q channel :
  request_ok q -> cstring <$> rq_response_channel q = Some channel -> exists tags name,
    items_of (request_parts q channel) =
      discovery_header discoveryRequest_block discoveryRequest_template ::
      request_head q :: group_item tags_block (Z.of_nat (length (rq_tags q))) :: tags ++ Text channel :: name /\
    (rq_tags q = [] -> tags = []) /\ Forall item_ok (tags ++ Text channel :: name) /\
    (name = [] \/ exists c s, name = [Text (c :: s)]).
Proof.
  intros [_ _ Hn [Hc [Hd Ht]%Forall_cons_1]%Forall_cons_1] Ech. rewrite Ech in Hc. unfold request_parts.
  exists (mjoin (items_of <$> ((fun tag => tag_part (cstring <$> tag)) <$> rq_tags q))).
  set (name := match cstring <$> rq_data_source_name q with Some (c :: _) => _ | _ => _ end).
  exists (items_of name). rewrite !items_of_app, group_parts_items by (by rewrite length_fmap).
  rewrite length_fmap. split_and!.
  - done.
  - by intros ->.
  - apply Forall_app_2; [|constructor; [by apply text_ok|]].
    + rewrite <- list_fmap_compose. clear Hn. induction Ht as [|t l Ht _ IH]; [constructor|].
      cbn [fmap list_fmap]. apply Forall_app_2; [|exact IH]. constructor; [by apply text_ok|constructor].
    + unfold name. destruct (cstring <$> rq_data_source_name q) as [[|c s]|]; [constructor| |constructor].
      constructor; [by apply text_ok|constructor].
  - unfold name. destruct (cstring <$> rq_data_source_name q) as [[|c s]|]; [by left|right; by exists c, s|by left].
Qed.


(** The characters of a channel are no length of anything that is there. *)
Lemma channel_no_length b c s name :
  blen b <= 1024 -> blen b = 44 + items_size (Text (c :: s) :: name) -> ("000"%char ∉ c :: s) ->
  Forall item_ok (Text (c :: s) :: name) -> holds b 44 (Text (c :: s) :: name) ->
  (name = [] \/ exists d t, name = [Text (d :: t)]) ->
  copied_field true b 48 = OutOfBounds.
Proof.
  intros Hmax Hlen Hn Hok Hh Hname. apply text_bytes in Hh as (_ & Ec & Hh).
  change (44 + 4) with 48 in Ec, Hh.
  unfold copied_field. destruct (Z.ltb_spec (blen b) (48 + 4)) as [|H52]; [done|].
  enough (Hbig : blen b < 52 + sbe_get 4 b 48 /\ 0 < sbe_get 4 b 48).
  { destruct (Z.ltb_spec 0 (sbe_get 4 b 48)); [|lia]. cbn [outcome_bind negb]. rewrite sbe_var_data_spec.
    by destruct (Z.leb_spec (48 + 4 + sbe_get 4 b 48) (blen b)); [lia|]. }
  rewrite word_bytes by done.
  pose proof (text_byte b 48 (c :: s) 0 c Ec eq_refl Hn) as B0. change (48 + Z.of_nat 0) with 48 in B0.
  pose proof (sbe_get_range 1 b (48 + 1) ltac:(done)) as B1.
  pose proof (sbe_get_range 1 b (48 + 2) ltac:(done)) as B2.
  pose proof (sbe_get_range 1 b (48 + 3) ltac:(done)) as B3.
  change (2 ^ (8 * 1)) with 256 in B1, B2, B3.
  unfold Text in Hlen at 1. cbn [items_size item_size] in Hlen. rewrite length_fmap in Hlen.
  assert (Hm : Z.of_nat (length (c :: s)) < 4 -> let off := 48 + Z.of_nat (length (c :: s)) in
    1 <= sbe_get 4 b off /\ off + 4 + sbe_get 4 b off = blen b).
  { intros Hs. cbv zeta. destruct Hname as [->|(d & t & ->)]; [cbn [items_size] in Hlen; lia|].
    apply text_bytes in Hh as (-> & _). unfold Text in Hlen. cbn [items_size item_size] in Hlen.
    rewrite length_fmap in Hlen. cbn [length] in *. lia. }
  destruct s as [|c1 [|c2 [|c3 s]]]; cbn [length] in *.
  - destruct Hm as [Hm1 Hm2]; [lia|]. change (48 + Z.of_nat 1) with 49 in Hm1, Hm2.
    rewrite (word_bytes b 49) in Hm1, Hm2 by done.
    pose proof (sbe_get_range 1 b (49 + 3) ltac:(done)) as B4.
    change (49 + 1) with (48 + 2) in Hm1, Hm2. change (49 + 2) with (48 + 3) in Hm1, Hm2.
    change (sbe_get 1 b 49) with (sbe_get 1 b (48 + 1)) in Hm1, Hm2. lia.
  - destruct Hm as [Hm1 Hm2]; [lia|]. change (48 + Z.of_nat 2) with 50 in Hm1, Hm2.
    pose proof (text_byte b 48 [c; c1] 1 c1 Ec eq_refl Hn) as C1. change (48 + Z.of_nat 1) with (48 + 1) in C1.
    rewrite (word_bytes b 50) in Hm1, Hm2 by done.
    pose proof (sbe_get_range 1 b (50 + 2) ltac:(done)) as B4.
    pose proof (sbe_get_range 1 b (50 + 3) ltac:(done)) as B5.
    change (sbe_get 1 b 50) with (sbe_get 1 b (48 + 2)) in Hm1, Hm2.
    change (50 + 1) with (48 + 3) in Hm1, Hm2. lia.
  - pose proof (text_byte b 48 [c; c1; c2] 1 c1 Ec eq_refl Hn) as C1. change (48 + Z.of_nat 1) with (48 + 1) in C1.
    pose proof (text_byte b 48 [c; c1; c2] 2 c2 Ec eq_refl Hn) as C2. change (48 + Z.of_nat 2) with (48 + 2) in C2.
    lia.
  - pose proof (text_byte b 48 (c :: c1 :: c2 :: c3 :: s) 1 c1 Ec eq_refl Hn) as C1. change (48 + Z.of_nat 1) with (48 + 1) in C1.
    pose proof (text_byte b 48 (c :: c1 :: c2 :: c3 :: s) 2 c2 Ec eq_refl Hn) as C2. change (48 + Z.of_nat 2) with (48 + 2) in C2.
    lia.
Qed.

(** Without a header of the tags that counts as a text, the channel is taken for the
    name, and the name's length for the header of the tags. *)
Lemma channel_taken_for_name b c s name :
  blen b <= 1024 -> blen b = 44 + items_size (Text (c :: s) :: name) ->
  Forall item_ok (Text (c :: s) :: name) -> holds b 44 (Text (c :: s) :: name) ->
  (name = [] \/ exists d t, name = [Text (d :: t)]) ->
  exists text pos, copied_field true b 44 = Decoded (text, pos) /\
    (sbe_group_wrap b pos (blen b) = None \/ exists block, sbe_group_wrap b pos (blen b) = Some (block, 0)).
Proof.
  intros Hmax Hlen Hok Hh Hname. inversion_clear Hok as [|? ? _ Hok'].
  apply text_bytes in Hh as (E & _ & Hh). pose proof (holds_room _ _ _ Hok' Hh) as Hroom.
  assert (Hpos : 0 <= items_size name).
  { destruct Hname as [->|(d & t & ->)]; [done|]. unfold Text. cbn [items_size item_size]. lia. }
  unfold copied_field. destruct (Z.ltb_spec (blen b) (44 + 4)); [lia|].
  cbv zeta. rewrite E. destruct (Z.ltb_spec 0 (Z.of_nat (length (c :: s)))); [|cbn [length] in *; lia].
  rewrite sbe_var_data_spec.
  destruct (Z.leb_spec (44 + 4 + Z.of_nat (length (c :: s))) (blen b)); [|lia].
  eexists _, _. split; [reflexivity|]. rewrite sbe_group_wrap_spec.
  set (pos := 44 + 4 + Z.of_nat (length (c :: s))) in *.
  destruct (Z.leb_spec (pos + 4) (blen b)); [right|by left].
  exists (sbe_get 2 b pos). do 2 f_equal.
  unfold Text in Hlen at 1. cbn [items_size item_size] in Hlen. rewrite length_fmap in Hlen.
  destruct Hname as [->|(d & t & ->)]; [cbn [items_size] in Hlen; lia|].
  apply text_bytes in Hh as (E2 & _). rewrite half_words in E2 by lia.
  unfold Text in Hlen. cbn [items_size item_size] in Hlen. rewrite length_fmap in Hlen.
  pose proof (sbe_get_range 2 b pos ltac:(done)). pose proof (sbe_get_range 2 b (pos + 2) ltac:(done)).
  lia.
Qed.

(** A request as it lies in the message. *)
Record request_lies (q : tp_discovery_request_t) (msg : bytes) (c : ascii) (s : chars) (tags name : list item)
    : Prop := {
  rl_header : discovery_header_check msg discoveryRequest_template discoveryRequest_block = Decoded tt;
  rl_group : sbe_get 4 msg 40 = tags_block + 65536 * Z.of_nat (length (rq_tags q));
  rl_untagged : rq_tags q = [] -> tags = [];
  rl_channel : "000"%char ∉ c :: s;
  rl_name : name = [] \/ exists d t, name = [Text (d :: t)];
  rl_ok : Forall item_ok (tags ++ Text (c :: s) :: name);
  rl_rest : holds msg 44 (tags ++ Text (c :: s) :: name);
  rl_size : blen msg = 44 + items_size (tags ++ Text (c :: s) :: name);
  rl_max : 44 <= blen msg <= 1024;
}.

Lemma request_sent ctx q b msg :
  request_ok q -> blen b <= 1024 -> tp_discovery_request ctx q b = Decoded msg ->
  exists c s tags name, request_lies q msg c s tags name.
Proof.
  intros Hq Hb He. unfold tp_discovery_request in He.
  destruct (cstring <$> rq_response_channel q) as [[|c s]|] eqn:Ech; [done| |done].
  destruct (negb (rq_response_stream_id q =? 0)); [|done]. destruct (_ || _); [|done].
  destruct (request_parts_items q (c :: s) Hq Ech) as (tags & name & Ei & Htags & Hok & Hname).
  exists c, s, tags, name.
  pose proof (qk_tags _ Hq) as Hn. pose proof tags_block_range as Hblock.
  assert (Hitems : Forall item_ok (items_of (request_parts q (c :: s)))).
  { rewrite Ei. constructor; [by apply header_item_ok|].
    constructor; [by apply request_head_ok|]. constructor; [apply group_item_ok; ulia|done]. }
  apply encode_parts_holds in He as Hh; [|done].
  assert (Hlen : blen msg = items_size (items_of (request_parts q (c :: s))) /\ blen msg <= 1024).
  { destruct (encode_parts_length _ _ _ Hitems He). lia. }
  rewrite Ei in Hh, Hlen, Hitems. apply Forall_cons_1 in Hitems as [_ Hitems].
  apply Forall_cons_1 in Hitems as [_ Hitems].
  pose proof (discovery_header_holds _ _ _ _ _ Hitems Hh ltac:(done)) as Eh.
  destruct Hh as [_ [_ Hh]]. change (0 + 8 + discoveryRequest_block) with 40 in Hh.
  destruct Hh as [Hg Hh]. change (40 + 4) with 44 in Hh.
  pose proof (Hg 0 2 tags_block ltac:(done) ltac:(done) ltac:(lia) eq_refl) as E0. change (40 + 0) with 40 in E0.
  pose proof (Hg 2 2 (Z.of_nat (length (rq_tags q))) ltac:(done) ltac:(done) ltac:(done) eq_refl) as E1.
  pose proof (holds_room _ _ _ Hok Hh) as Hroom.
  split; try done; [by rewrite half_words, E0, E1 by done| | |lia].
  - destruct (rq_response_channel q) as [t|]; [|done]. injection Ech as <-. apply cstring_no_nul.
  - destruct Hlen as [-> _]. cbn [items_size]. unfold discovery_header, header_item, group_item.
    cbn [item_size]. change (item_size (request_head q)) with 32. lia.
Qed.

(** C33: No request reaches the service as it was sent: the service looks for the texts
    of a request where its tags are.  Every request that a client encodes and sends -
    the publication takes messages of up to 1024 bytes - is read from the wrong place
    and ends with a copy from memory that is not there; but for a request without
    tags when the generated code counts nothing for an entry of their group, which
    may also be read as one without a response channel. *)
Theorem request_never_read ctx q b msg memory :
  (forall a, memory a = true) -> request_ok q -> blen b <= 1024 ->
  tp_discovery_request ctx q b = Decoded msg ->
  tp_discovery_decode_request memory msg = OutOfBounds \/
  tags_block = 0 /\ rq_tags q = [] /\
  exists r, tp_discovery_decode_request memory msg = Decoded r /\ rq_response_channel r = NULL.
Proof.
  intros HM Hq Hb He.
  destruct (request_sent ctx q b msg Hq Hb He) as (c & s & tags & name & [Eh E40 Htags Hnul Hname Hok Hh Hsz Hmax]).
  pose proof tags_block_range as Hblock.
  remember (tp_discovery_decode_request memory msg) as R eqn:ER.
  unfold tp_discovery_decode_request in ER. rewrite Eh in ER. cbn [outcome_bind] in ER.
  change (messageHeader_encoded_length + discoveryRequest_block) with 40 in ER. rewrite !HM in ER.
  unfold copied_field at 1 in ER. destruct (Z.ltb_spec (blen msg) (40 + 4)); [lia|].
  rewrite E40, sbe_var_data_spec in ER.
  destruct (rq_tags q) as [|t l] eqn:Etags.
  2:{ left. cbn [length] in *.
      destruct (Z.ltb_spec 0 (tags_block + 65536 * Z.of_nat (S (length l)))); [|lia].
      by destruct (Z.leb_spec (40 + 4 + (tags_block + 65536 * Z.of_nat (S (length l)))) (blen msg)); [lia|]. }
  rewrite Htags in Hh, Hok, Hsz by done. cbn [app length] in *.
  destruct tags_block_cases as [Eb|Eb]; rewrite Eb in ER.
  - left. change (4 + 65536 * Z.of_nat 0) with 4 in ER. change (0 <? 4) with true in ER. cbv iota in ER.
    destruct (Z.leb_spec (40 + 4 + 4) (blen msg)); [|done]. cbn [outcome_bind fst snd] in ER.
    change (40 + 4 + 4) with 48 in ER. by rewrite (channel_no_length msg c s name) in ER by (done || lia).
  - change (0 + 65536 * Z.of_nat 0) with 0 in ER. change (0 <? 0) with false in ER. cbv iota in ER.
    destruct (Z.leb_spec (40 + 4 + 0) (blen msg)); [|lia]. cbn [outcome_bind fst snd] in ER.
    change (40 + 4 + 0) with 44 in ER.
    destruct (channel_taken_for_name msg c s name) as (text & pos & Ec & Hg'); [lia|lia|done..|].
    rewrite Ec in ER. cbn [outcome_bind fst snd] in ER. destruct Hg' as [Eg|[block Eg]]; rewrite Eg in ER; [by left|right].
    split; [done|]. split; [done|]. eexists. split; [exact ER|reflexivity].
Qed.
End Requests.

(** ** Concrete messages *)

Module DiscoverySessionDemo.
Import DiscoveryDemo.
#[local] Existing Instance le_sbe.

(** The generated code counts the length of a tag, or nothing. *)
#[local] Instance counted_tags : TagsGroup := {| tags_block := 4; tags_block_cases := or_introl eq_refl |}.
Definition uncounted_tags : TagsGroup := {| tags_block := 0; tags_block_cases := or_intror eq_refl |}.

Definition plenty : allocation -> bool := fun _ => true.
Definition demo_text (e : errno) : chars := lit "error".

Ltac fits_tac := split; [vm_compute; reflexivity|apply (bool_decide_eq_true_1 _); vm_compute; reflexivity].

Lemma stream_announceable : announceable (demo_announce 10 77 8).
Proof. split; [done|done|done|done|done|]. by repeat constructor. Qed.

Lemma demo_announcement_ok : announcement_ok (demo_announce 10 77 8).
Proof.
  split; [by repeat (apply Forall_cons_2; [split; done|])|split; done| |].
  - eexists. split; [reflexivity|]. split; [fits_tac|done].
  - apply Forall_cons_2; [|apply Forall_nil_2]. split; [split; done|]. split; [split; done|].
    eexists. split; [reflexivity|]. split; [fits_tac|done].
Qed.

Lemma demo_authority_ok : authority_ok demo_config.
Proof. split; [by vm_compute|split; [fits_tac|done]|fits_tac]. Qed.

Lemma demo_within : within_expiry calm demo_config.
Proof. intros t t'. split; [done|]. split; [|reflexivity]. vm_compute. discriminate. Qed.

Lemma announced_stream_reaches_client_witness :
  exists s1 s2 publication message name,
    tp_discovery_service_apply_announce calm (demo_announce 10 77 8) demo_service = Some (true, s1) /\
    answer_request calm demo_text (demo_query 10 []) s1 = Some (tt, s2) /\
    ma_events s2 = [Answered publication message] /\
    tp_discovery_decode_response plenty message 99 zero_response =
      Decoded {| dr_request_id := 99; dr_status := discoveryStatus_OK; dr_error_message := [];
                 dr_results := [announced_result demo_config (demo_announce 10 77 8) name] |}.
Proof.
  destruct (announced_stream_reaches_client calm demo_config fresh demo_text (demo_announce 10 77 8)
    (demo_query 10 []) "a"%char (lit "eron:ipc") demo_service (reached_new calm demo_config fresh)
    (fun _ => eq_refl) (fun _ => eq_refl) stream_announceable demo_announcement_ok demo_authority_ok)
    as (s1 & s2 & publication & message & name & H1 & H2 & H3 & H4).
  - intros e He. by apply elem_of_nil in He.
  - by split.
  - done.
  - by split.
  - done.
  - done.
  - exact demo_within.
  - by vm_compute.
  - by vm_compute.
  - exists s1, s2, publication, message, name. split; [exact H1|]. split; [exact H2|].
    split; [exact H3|]. apply H4. reflexivity.
Defined.

Definition demo_response : tp_discovery_response_t :=
  {| dr_request_id := 99; dr_status := discoveryStatus_OK; dr_error_message := [];
     dr_results := [(announced_result demo_config (demo_announce 10 77 8) (lit "camera"))
                      <| rs_tags := Some [Some (lit "vision"); Some []] |> <| rs_tag_count := 2%nat |>] |}.

Lemma demo_response_ok : response_ok demo_response.
Proof.
  split; [by split|by split|by apply fits_nil| |done]. constructor; [|constructor].
  pose proof (announced_result_ok demo_config (demo_announce 10 77 8) (lit "camera") stream_announceable
    demo_announcement_ok demo_authority_ok) as [Hw Hl Hlay Hp _ Hu Hn Hc]; [fits_tac|done|].
  split; [exact Hw|exact Hl|exact Hlay|exact Hp| |exact Hu|exact Hn|exact Hc].
  split; [|done]. split; [done|]. split; [done|]. constructor; [|constructor; [|constructor]].
  - split; [apply (bool_decide_eq_true_1 _); vm_compute; reflexivity|reflexivity].
  - split; [apply not_elem_of_nil|reflexivity].
Qed.

Lemma discovery_answer_roundtrip_witness :
  exists msg, tp_discovery_encode_response demo_response (repeat 0 1024) = Decoded msg /\
    tp_discovery_decode_response plenty msg 99 zero_response =
      Decoded (demo_response <| dr_results ::= fmap seen_result |>) /\
    tp_discovery_decode_response plenty msg 98 zero_response = NotThisMessage.
Proof.
  destruct (discovery_answer_roundtrip demo_response (repeat 0 1024) demo_response_ok eq_refl) as [Hfit Hread].
  destruct (proj1 Hfit) as [msg Hmsg]; [vm_compute; discriminate|].
  exists msg. split; [exact Hmsg|]. split.
  - exact (Hread plenty msg 99 (fun _ => eq_refl) Hmsg).
  - exact (Hread plenty msg 98 (fun _ => eq_refl) Hmsg).
Defined.

Definition demo_polls (i : nat) : res (list bytes) := Ok (if (i =? 1)%nat then [[1; 2; 3]] else []).

Lemma discovery_poll_returns_witness :
  tp_discovery_poll plenty demo_polls Z.of_nat 99 3 6 = Answer zero_response /\
  delivered demo_polls (taken plenty 99) /\
  match tp_discovery_poll plenty (fun _ => Ok []) Z.of_nat 99 3 6 with
  | Waiting | Overflowed => False
  | TimedOut => exists k, 0 + 3 < Z.of_nat k
  | PollFailed e => exists i : nat, (Ok [] : res (list bytes)) = Err e
  | Answer _ => delivered (fun _ => Ok []) (taken plenty 99)
  | Crashed => delivered (fun _ => Ok []) (read_beyond plenty 99)
  end.
Proof.
  split; [vm_compute; reflexivity|]. split.
  - apply (discovery_poll_returns plenty demo_polls Z.of_nat 99 3 4); [done|done|done|].
    intros k Hk. change (0 + 3 < Z.of_nat k). lia.
  - apply (discovery_poll_returns plenty (fun _ => Ok []) Z.of_nat 99 3 4); [done|done|done|].
    intros k Hk. change (0 + 3 < Z.of_nat k). lia.
Defined.

Definition demo_context : tp_discovery_context_t :=
  {| qc_request_channel := lit "aeron:ipc"; qc_request_stream_id := 1500; qc_response_channel := [];
     qc_response_stream_id := 1501 |}.

Lemma demo_request_ok : request_ok (demo_query 10 [Some (lit "vision")]).
Proof.
  split; [by repeat (apply Forall_cons_2; [split; done|])|by repeat (apply Forall_cons_2; [split; done|])|done|].
  by repeat (apply Forall_cons_2; [vm_compute; reflexivity|]).
Qed.

Lemma request_never_read_witness :
  exists msg, tp_discovery_request demo_context (demo_query 10 [Some (lit "vision")]) (repeat 0 1024) = Decoded msg /\
    tp_discovery_decode_request plenty msg = OutOfBounds.
Proof.
  assert (H : match tp_discovery_request demo_context (demo_query 10 [Some (lit "vision")]) (repeat 0 1024) with
              | Decoded _ => True | _ => False end) by (vm_compute; exact I).
  destruct (tp_discovery_request demo_context _ _) as [msg| | |] eqn:E; [|destruct H..].
  exists msg. split; [reflexivity|].
  destruct (request_never_read demo_context (demo_query 10 [Some (lit "vision")]) (repeat 0 1024) msg plenty)
    as [Hr|(Hr & _)];
    [reflexivity|exact demo_request_ok|vm_compute; discriminate|exact E|exact Hr|discriminate Hr].
Defined.

(** Where nothing is counted for a tag, a request for a named data source asks for one
    with the name of the channel instead, and wants no answer. *)
Example untagged_request_misread :
  match @tp_discovery_request le_sbe uncounted_tags demo_context
      ((demo_query 10 []) <| rq_data_source_name := Some (lit "cam") |>) (repeat 0 1024) with
  | Decoded msg =>
    match tp_discovery_decode_request plenty msg with
    | Decoded q => rq_response_channel q = NULL /\ rq_data_source_name q = Some (lit "aeron:ipc")
    | _ => False
    end
  | _ => False
  end.
Proof. vm_compute. done. Qed.

(** What does not decode ends the wait as if it were an answer, one with status 0. *)
Example undecodable_answers :
  tp_discovery_poll plenty (fun _ => Ok [[1; 2; 3]]) (fun _ => 5) 99 100 3 = Answer zero_response.
Proof. vm_compute. reflexivity. Qed.

(** The text of an error is looked for where the results begin, and not found. *)
Example error_text_lost :
  match tp_discovery_encode_response
          {| dr_request_id := 99; dr_status := discoveryStatus_ERROR;
             dr_error_message := lit "result limit exceeded"; dr_results := [] |} (repeat 0 1024) with
  | Decoded msg =>
    tp_discovery_decode_response plenty msg 99 zero_response =
      Decoded {| dr_request_id := 99; dr_status := discoveryStatus_ERROR; dr_error_message := [];
                 dr_results := [] |}
  | _ => False
  end.
Proof. vm_compute. reflexivity. Qed.

(** The messages in the answers to a request. *)
Definition answers (q : tp_discovery_request_t) (before : C unit) : option nat :=
  match next before (fun _ => answer_request calm demo_text q) demo_service with
  | Some (_, s) => Some (length (ma_events s))
  | None => None
  end.

#[local] Open Scope tp_scope.

(** The service means to refuse a request without a stream for the answer with an
    error, which it then has nowhere to send. *)
Example refusal_not_sent :
  answers ((demo_query 10 []) <| rq_response_stream_id := 0 |>) (give tt) = Some 0%nat.
Proof. vm_compute. reflexivity. Qed.

(** Nobody is told that an answer has no room in 4096 bytes. *)
Example large_answer_not_sent :
  let many := (demo_announce 10 77 8) <| an_pools := Some (repeat (demo_pool 8) 60) |> in
  answers (demo_query 10 []) (let+ _ := tp_discovery_service_apply_announce calm many in give tt) = Some 0%nat.
Proof. vm_compute. reflexivity. Qed.

(** A stream of which only the data source is known spoils the answer about all others. *)
Example source_spoils_answer :
  match (let+ _ := tp_discovery_service_apply_announce calm (demo_announce 10 77 8) in
         let+ _ := tp_discovery_service_apply_data_source calm (demo_source 11 5) in
         answer_request calm demo_text (demo_query TP_NULL_U32 [])) demo_service with
  | Some (_, s) =>
    match ma_events s with
    | [Answered _ msg] =>
      match tp_discovery_decode_response plenty msg 99 zero_response with
      | Decoded r => dr_status r = discoveryStatus_ERROR /\
          dr_error_message r = lit "discovery response slot bytes/max dims mismatch"
      | _ => False
      end
    | _ => False
    end
  | None => False
  end.
Proof. vm_compute. split; reflexivity. Qed.

(** No stream is found by a data source identifier, not even by its own. *)
Example source_filter_finds_nothing :
  found ((let+ _ := tp_discovery_service_apply_announce calm (demo_announce 10 77 8) in
          let+ _ := tp_discovery_service_apply_data_source calm (demo_source 10 77) in
          tp_discovery_service_query calm ((demo_query 10 []) <| rq_data_source_id := 10 |>)) demo_service) = Some [].
Proof. vm_compute. reflexivity. Qed.

(** The same decoders when a getter that does not read leaves the position alone. *)
Definition still_sbe : Sbe := {|
  sbe_get := @sbe_get le_sbe; sbe_put := @sbe_put le_sbe; sbe_enum := @sbe_enum le_sbe;
  sbe_group_wrap := @sbe_group_wrap le_sbe; sbe_group_next := @sbe_group_next le_sbe;
  sbe_var_data := @sbe_var_data le_sbe; sbe_var_failed := fun pos => pos;
  sbe_put_len := @sbe_put_len le_sbe; sbe_get_range := @sbe_get_range le_sbe;
  sbe_get_put_eq := @sbe_get_put_eq le_sbe; sbe_get_ext := @sbe_get_ext le_sbe;
  sbe_get_drop := @sbe_get_drop le_sbe; sbe_put_outside := @sbe_put_outside le_sbe;
  sbe_enum_valid := @sbe_enum_valid le_sbe; sbe_enum_null := @sbe_enum_null le_sbe;
  sbe_enum_sound := @sbe_enum_sound le_sbe; sbe_group_wrap_spec := @sbe_group_wrap_spec le_sbe;
  sbe_group_next_spec := @sbe_group_next_spec le_sbe; sbe_var_data_spec := @sbe_var_data_spec le_sbe;
|}.

(** An announcement as it is sent: the text of the header ring is not found, and that
    of a pool takes in the next length, here 88 (an X). *)
Example fragment_texts_wrong :
  match encode (driver_announce_items (demo_announce 10 77 8)) (repeat 0 512) with
  | Some b =>
    match @announce_fragment still_sbe plenty b [] with
    | Decoded a => an_header_region_uri a = NULL /\
        ap_region_uri <$> default [] (an_pools a) = [Some (TwoFiles.demo_uri "1.pool" ++ lit "X")]
    | _ => False
    end /\
    match @announce_fragment le_sbe plenty b [] with
    | Decoded a => an_header_region_uri a = NULL /\ length (default [] (an_pools a)) = 8%nat
    | _ => False
    end
  | None => False
  end.
Proof. vm_compute. repeat split. Qed.
End DiscoverySessionDemo.
