(* ===== verification/Conductor.v ===== *)
(** * Conductor: the client conductor (src/client/tp_client_conductor.c)

    The conductor does for a client what has to be done in one thread: it takes
    the requests for publications and subscriptions that any thread puts into its
    queue, starts them with Aeron, keeps the ones under way in two linked lists,
    tells the requesters how they ended, and calls the registered pollers.

    What is shared is the memory: a request is a structure on the heap that the
    requester makes, the conductor links and answers, and the requester frees.  The
    functions of the conductor are [prog]rams whose steps are single accesses of
    that memory, or answers from outside; an access of memory that was freed
    faults.  [run] executes a program undisturbed, for the agent invoker;
    ConductorThreads lets application threads act between any two steps.  What an
    application thread does with a request is one step: until the request is in the
    queue it is known to nobody else, and once it is answered only the fault of
    the conductor that ConductorThreads is about concerns it. *)

From Stdlib Require Import ZArith Lia Bool Ascii String.
From stdpp Require Import strings list gmap.
From coqutil Require Import Datatypes.RecordSetters.
From S2P Require Import Prelude Sbe Uri Shm.
Import TriangleBracketNotations.

#[local] Open Scope Z_scope.
#[local] Open Scope list_scope.

(** ** State *)

Definition addr : Type := nat.

Inductive tp_client_cmd_type_t := TP_CLIENT_CMD_ADD_PUBLICATION | TP_CLIENT_CMD_ADD_SUBSCRIPTION.

Inductive async_status := TP_ASYNC_PENDING | TP_ASYNC_COMPLETE | TP_ASYNC_ERROR.

#[export] Instance cmd_type_eq_dec : EqDecision tp_client_cmd_type_t.
Proof. solve_decision. Defined.
#[export] Instance async_status_eq_dec : EqDecision async_status.
Proof. solve_decision. Defined.

(** [tp_async_add_publication_t] and [tp_async_add_subscription_t], which have the same
    fields; the texts of errors are left out. *)
Record async := {
  as_type : tp_client_cmd_type_t;
  as_channel : ptr chars;
  as_stream_id : Z;
  as_aeron_async : ptr nat;
  as_result : ptr addr;
  as_status : async_status;
  as_errcode : errno;
  as_next : ptr addr;
}.

(** [tp_publication_t] and [tp_subscription_t]. *)
Record wrapper := {
  wr_type : tp_client_cmd_type_t;
  wr_aeron : Z;
  wr_channel : ptr chars;
  wr_stream_id : Z;
}.

Record tp_client_cmd_t := {
  cmd_type : tp_client_cmd_type_t;
  cmd_async : ptr addr;
}.

(** An entry of the list of pollers; [pl_id] is its address, [pl_poller] the function. *)
Record tp_client_poller_entry_t := {
  pl_id : addr;
  pl_poller : Z;
  pl_clientd : Z;
  pl_fragment_limit : Z;
}.

(** The queue is the ring of MpscQueue, which delivers every command once and in
    order, and whose slots ([cs_slots]) the first offer allocates; the pollers are in the order of their links; the five subscriptions are
    under their kinds. *)
Record tp_client_conductor_state_t := {
  cs_command_queue : list tp_client_cmd_t;
  cs_slots : bool;
  cs_pending_publications : ptr addr;
  cs_pending_subscriptions : ptr addr;
  cs_subscriptions : gmap Z addr;
  cs_pollers : list tp_client_poller_entry_t;
  cs_do_work_depth : Z;
}.

(** Both pointers into Aeron are taken to be there as long as the conductor is open. *)
Record tp_client_conductor_t := {
  co_aeron : bool;
  co_use_agent_invoker : bool;
  co_started : bool;
  co_owns_aeron : bool;
  co_state : ptr tp_client_conductor_state_t;
}.

Inductive conductor_event :=
  | Polled (poller clientd : Z)
  | AeronClosed (kind : tp_client_cmd_type_t) (aeron : Z)
  | ClientClosed.

(** The conductor with the memory all threads share. *)
Record store := {
  me_conductor : tp_client_conductor_t;
  me_asyncs : gmap addr async;
  me_wrappers : gmap addr wrapper;
  me_fresh : addr;
  me_tick : nat;
  me_events : list conductor_event;
}.

Definition TP_CLIENT_COMMAND_QUEUE_CAPACITY : nat := 1024.

(** ** Answers from outside *)

(** What an [aeron_async_add_..._poll] returns. *)
Inductive async_answer :=
  | NotYet
  | Failed
  | Opened (aeron : Z).

(** What a poller does besides its own work. *)
Inductive poller_action :=
  | DoWork
  | AddAsync (kind : tp_client_cmd_type_t) (channel : chars) (stream_id : Z)
  | PollAsync (x : addr)
  | RegisterPoller (poller clientd limit : Z)
  | UnregisterPoller (poller clientd : Z).

(** Aeron and the pollers at each point of time; [ae_work] is [None] for an error. *)
Record outside := {
  ae_alloc : nat -> bool;
  ae_start : nat -> bool;
  ae_poll : nat -> async_answer;
  ae_errcode : nat -> Z;
  ae_work : nat -> option Z;
  ae_poller : Z -> Z -> Z -> nat -> list poller_action * Z;
}.

(** ** Programs *)

(** Two accesses are told apart: those of [poll_pending] to a request it has just
    answered, and that of the list of pollers after a poller was called. *)
Inductive access := Plain | Unlinking | NextPoller.

Inductive prog (A : Type) : Type :=
  | Ret (a : A)
  | Step {V : Type} (l : access) (f : store -> option (V * store)) (k : V -> prog A).
Arguments Ret {A} a.
Arguments Step {A V} l f k.

Fixpoint bind {A B} (p : prog A) (k : A -> prog B) : prog B :=
  match p with
  | Ret a => k a
  | Step l f k' => Step l f (fun v => bind (k' v) k)
  end.

Notation "'let>' x ':=' m 'in' k" := (bind m (fun x => k))
  (at level 10, x name, m at level 100, k at level 200) : tp_scope.
Notation "'do>' m 'in' k" := (bind m (fun _ : unit => k))
  (at level 10, m at level 100, k at level 200) : tp_scope.
#[local] Open Scope tp_scope.

(** All steps without interruption. *)
Fixpoint run {A} (p : prog A) (s : store) : option (A * store) :=
  match p with
  | Ret a => Some (a, s)
  | Step l f k => match f s with Some (v, s') => run (k v) s' | None => None end
  end.

Definition step {V} (l : access) (f : store -> option (V * store)) : prog V := Step l f Ret.

Definition ask {V} (f : nat -> V) : prog V :=
  step Plain (fun s => Some (f (me_tick s), s <| me_tick ::= S |>)).

Definition emit (e : conductor_event) : prog unit :=
  step Plain (fun s => Some (tt, s <| me_events ::= fun l => l ++ [e] |>)).

(** An access of the conductor's state. *)
Definition on_state {V} (f : tp_client_conductor_state_t -> V * tp_client_conductor_state_t) : prog V :=
  step Plain (fun s =>
    match co_state (me_conductor s) with
    | Some c => let '(v, c') := f c in Some (v, s <| me_conductor ::= fun co => co <| co_state := Some c' |> |>)
    | NULL => None
    end).

Definition load_async (l : access) (x : addr) : prog async :=
  step l (fun s => r ← me_asyncs s !! x; Some (r, s)).

Definition store_async (l : access) (x : addr) (f : async -> async) : prog unit :=
  step l (fun s => r ← me_asyncs s !! x; Some (tt, s <| me_asyncs ::= <[x := f r]> |>)).

Section Conductor.
Context (W : outside).

(** ** The lists of requests under way *)

(** A [pub_cursor] or [sub_cursor]: the head of a list or the link of a request. *)
Inductive place := Head (kind : tp_client_cmd_type_t) | Link (x : addr).

Definition pending (kind : tp_client_cmd_type_t) (c : tp_client_conductor_state_t) : ptr addr :=
  match kind with
  | TP_CLIENT_CMD_ADD_PUBLICATION => cs_pending_publications c
  | TP_CLIENT_CMD_ADD_SUBSCRIPTION => cs_pending_subscriptions c
  end.

Definition set_pending (kind : tp_client_cmd_type_t) (p : ptr addr) (c : tp_client_conductor_state_t)
    : tp_client_conductor_state_t :=
  match kind with
  | TP_CLIENT_CMD_ADD_PUBLICATION => c <| cs_pending_publications := p |>
  | TP_CLIENT_CMD_ADD_SUBSCRIPTION => c <| cs_pending_subscriptions := p |>
  end.

Definition load_place (c : place) : prog (ptr addr) :=
  match c with
  | Head kind => on_state (fun st => (pending kind st, st))
  | Link x => let> r := load_async Plain x in Ret (as_next r)
  end.

Definition store_place (c : place) (p : ptr addr) : prog unit :=
  match c with
  | Head kind => on_state (fun st => (tt, set_pending kind p st))
  | Link x => store_async Plain x (fun r => r <| as_next := p |>)
  end.

(** ** Requests *)

Definition new_async (kind : tp_client_cmd_type_t) (channel : chars) (stream_id : Z) : async :=
  {| as_type := kind; as_channel := Some channel; as_stream_id := stream_id; as_aeron_async := NULL;
     as_result := NULL; as_status := TP_ASYNC_PENDING; as_errcode := EOS 0; as_next := NULL |}.

Definition allocate (r : async) : prog addr :=
  step Plain (fun s => Some (me_fresh s, s <| me_asyncs ::= <[me_fresh s := r]> |> <| me_fresh ::= S |>)).

Definition free_async (x : addr) : prog unit :=
  step Plain (fun s => _ ← me_asyncs s !! x; Some (tt, s <| me_asyncs ::= delete x |>)).

(** The offer to the queue; its first one also allocates the slots. *)
Definition offer (cmd : tp_client_cmd_t) : prog (res unit) :=
  let> slots := on_state (fun c => (cs_slots c, c)) in
  let> ready := (if slots : bool then Ret true else ask (ae_alloc W)) in
  on_state (fun c =>
    if negb ready then (Err ENOMEM, c)
    else if (length (cs_command_queue c) <? TP_CLIENT_COMMAND_QUEUE_CAPACITY)%nat
    then (Ok tt, c <| cs_slots := true |> <| cs_command_queue ::= fun l => l ++ [cmd] |>)
    else (Err EAGAIN, c <| cs_slots := true |>)).

(** [tp_client_conductor_async_add_publication] and ..._subscription; the memory of the
    channel is part of the request. *)
Definition async_add (kind : tp_client_cmd_type_t) (channel : ptr chars) (stream_id : Z) : prog (res addr) :=
  let> co := step Plain (fun s => Some (me_conductor s, s)) in
  match channel, co_state co with
  | Some channel, Some _ =>
    if negb (co_aeron co) then Ret (Err EINVAL)
    else
      let> alloc := ask (ae_alloc W) in
      if negb alloc then Ret (Err ENOMEM)
      else
        let> copy := ask (ae_alloc W) in
        if negb copy then Ret (Err ENOMEM)
        else
          let> x := allocate (new_async kind channel stream_id) in
          let> offered := offer {| cmd_type := kind; cmd_async := Some x |} in
          match offered with
          | Err e => do> free_async x in Ret (Err e)
          | Ok _ => Ret (Ok x)
          end
  | _, _ => Ret (Err EINVAL)
  end.

Definition tp_client_conductor_async_add_publication (channel : ptr chars) (stream_id : Z) : prog (res addr) :=
  async_add TP_CLIENT_CMD_ADD_PUBLICATION channel stream_id.

Definition tp_client_conductor_async_add_subscription (channel : ptr chars) (stream_id : Z) : prog (res addr) :=
  async_add TP_CLIENT_CMD_ADD_SUBSCRIPTION channel stream_id.

(** [tp_client_conductor_async_add_publication_poll] and ..._subscription_poll: nothing
    yet, or the result, or the error, and then the request is gone. *)
Definition async_add_poll (x : ptr addr) : prog (res (option (ptr addr))) :=
  match x with
  | NULL => Ret (Err EINVAL)
  | Some x =>
    let> r := load_async Plain x in
    match as_status r with
    | TP_ASYNC_PENDING => Ret (Ok None)
    | TP_ASYNC_ERROR => do> free_async x in Ret (Err (as_errcode r))
    | TP_ASYNC_COMPLETE => do> free_async x in Ret (Ok (Some (as_result r)))
    end
  end.

Definition tp_client_conductor_async_add_publication_poll : ptr addr -> prog (res (option (ptr addr))) :=
  async_add_poll.
Definition tp_client_conductor_async_add_subscription_poll : ptr addr -> prog (res (option (ptr addr))) :=
  async_add_poll.

(** ** Answers *)

(** [tp_async_publication_fail] and [tp_async_subscription_fail]. *)
Definition async_fail (x : ptr addr) (e : errno) : prog unit :=
  match x with
  | NULL => Ret tt
  | Some x =>
    do> store_async Plain x (fun r => r <| as_errcode := e |>) in
    store_async Plain x (fun r => r <| as_status := TP_ASYNC_ERROR |>)
  end.

(** [tp_publication_wrap] and [tp_subscription_wrap] into the result of a request; the
    wrapper is known to nobody before it is stored there. *)
Definition wrap (kind : tp_client_cmd_type_t) (aeron : Z) (x : addr) (channel : ptr chars) (stream_id : Z)
    : prog bool :=
  let> alloc := ask (ae_alloc W) in
  if negb alloc then Ret false
  else
    let> copy := (match channel with Some _ => ask (ae_alloc W) | NULL => Ret true end) in
    if negb copy then Ret false
    else
      step Plain (fun s =>
        r ← me_asyncs s !! x;
        Some (true,
          s <| me_wrappers ::= <[me_fresh s := {| wr_type := kind; wr_aeron := aeron; wr_channel := channel;
                                                  wr_stream_id := stream_id |}]> |>
            <| me_asyncs ::= <[x := r <| as_result := Some (me_fresh s) |>]> |> <| me_fresh ::= S |>)).

(** What it does for a request whose answer came. *)
Definition answer_request (kind : tp_client_cmd_type_t) (x : addr) (r : async) (answer : async_answer)
    : prog unit :=
  match answer with
  | Opened aeron =>
    let> wrapped := wrap kind aeron x (as_channel r) (as_stream_id r) in
    if wrapped : bool then store_async Plain x (fun r => r <| as_status := TP_ASYNC_COMPLETE |>)
    else do> emit (AeronClosed kind aeron) in async_fail (Some x) ENOMEM
  | _ => let> e := ask (ae_errcode W) in async_fail (Some x) (EOS e)
  end.

(** The loop of [tp_client_conductor_poll_pending] over one of the lists, from a cursor
    on; [n] turns are enough for [n] requests. *)
Fixpoint poll_pending (kind : tp_client_cmd_type_t) (n : nat) (cursor : place) : prog unit :=
  match n with
  | O => Ret tt
  | S n' =>
    let> current := load_place cursor in
    match current with
    | NULL => Ret tt
    | Some x =>
      let> r := load_async Plain x in
      let> answer := ask (ae_poll W) in
      match answer with
      | NotYet => poll_pending kind n' (Link x)
      | _ =>
        do> answer_request kind x r answer in
        let> r := load_async Unlinking x in
        do> store_place cursor (as_next r) in
        do> store_async Unlinking x (fun r => r <| as_next := NULL |>) in
        poll_pending kind n' cursor
      end
    end
  end.

(** ** Commands *)

(** One command of either kind. *)
Definition start_async (cmd : tp_client_cmd_t) : prog unit :=
  match cmd_async cmd with
  | NULL => Ret tt
  | Some x =>
    let> r := load_async Plain x in
    match as_channel r with
    | NULL => async_fail (Some x) EINVAL
    | Some _ =>
      let> started := ask (fun t => if ae_start W t then Some t else None) in
      match started with
      | None => let> e := ask (ae_errcode W) in async_fail (Some x) (EOS e)
      | Some t =>
        do> store_async Plain x (fun r => r <| as_aeron_async := Some t |>) in
        let> first := load_place (Head (cmd_type cmd)) in
        do> store_async Plain x (fun r => r <| as_next := first |>) in
        store_place (Head (cmd_type cmd)) (Some x)
      end
    end
  end.

Definition poll_command : prog (option tp_client_cmd_t) :=
  on_state (fun c =>
    match cs_command_queue c with
    | [] => (None, c)
    | cmd :: l => (Some cmd, c <| cs_command_queue := l |>)
    end).

(** At most [n] commands. *)
Fixpoint tp_client_conductor_process_commands (n : nat) : prog unit :=
  match n with
  | O => Ret tt
  | S n' =>
    let> cmd := poll_command in
    match cmd with
    | None => Ret tt
    | Some cmd => do> start_async cmd in tp_client_conductor_process_commands n'
    end
  end.

Definition tp_client_conductor_poll_pending (n : nat) : prog unit :=
  do> poll_pending TP_CLIENT_CMD_ADD_PUBLICATION n (Head TP_CLIENT_CMD_ADD_PUBLICATION) in
  poll_pending TP_CLIENT_CMD_ADD_SUBSCRIPTION n (Head TP_CLIENT_CMD_ADD_SUBSCRIPTION).

(** ** Pollers *)

Definition tp_client_conductor_register_poller (poller clientd limit : Z) : prog (res unit) :=
  let> co := step Plain (fun s => Some (me_conductor s, s)) in
  match co_state co with
  | NULL => Ret (Err EINVAL)
  | Some _ =>
    if (poller =? 0) || (limit <=? 0) then Ret (Err EINVAL)
    else
      let> alloc := ask (ae_alloc W) in
      if negb alloc then Ret (Err ENOMEM)
      else
        let> id := step Plain (fun s => Some (me_fresh s, s <| me_fresh ::= S |>)) in
        on_state (fun c =>
          (Ok tt, c <| cs_pollers ::= cons {| pl_id := id; pl_poller := poller; pl_clientd := clientd;
                                             pl_fragment_limit := limit |} |>))
  end.

Definition is_entry (poller clientd : Z) (e : tp_client_poller_entry_t) : bool :=
  (pl_poller e =? poller) && (pl_clientd e =? clientd).

Fixpoint remove_first (f : tp_client_poller_entry_t -> bool) (l : list tp_client_poller_entry_t)
    : list tp_client_poller_entry_t :=
  match l with
  | [] => []
  | e :: l' => if f e then l' else e :: remove_first f l'
  end.

Definition tp_client_conductor_unregister_poller (poller clientd : Z) : prog (res unit) :=
  let> co := step Plain (fun s => Some (me_conductor s, s)) in
  match co_state co with
  | NULL => Ret (Err EINVAL)
  | Some _ =>
    if poller =? 0 then Ret (Err EINVAL)
    else
      on_state (fun c =>
        if existsb (is_entry poller clientd) (cs_pollers c)
        then (Ok tt, c <| cs_pollers ::= remove_first (is_entry poller clientd) |>)
        else (Err EINVAL, c))
  end.

(** Another request, as one step, of the thread that has it. *)
Definition poll_held (x : addr) : prog unit :=
  step Plain (fun s =>
    match me_asyncs s !! x with
    | Some _ => '(_, s') ← run (async_add_poll (Some x)) s; Some (tt, s')
    | None => Some (tt, s)
    end).

Definition add_request (kind : tp_client_cmd_type_t) (channel : chars) (stream_id : Z) : prog unit :=
  step Plain (fun s => '(_, s') ← run (async_add kind (Some channel) stream_id) s; Some (tt, s')).

(** What a poller does, when a nested duty cycle is [work]. *)
Definition perform (work : prog (option Z)) (a : poller_action) : prog unit :=
  match a with
  | DoWork => let> _ := work in Ret tt
  | AddAsync kind channel stream_id => add_request kind channel stream_id
  | PollAsync x => poll_held x
  | RegisterPoller poller clientd limit =>
    let> _ := tp_client_conductor_register_poller poller clientd limit in Ret tt
  | UnregisterPoller poller clientd =>
    let> _ := tp_client_conductor_unregister_poller poller clientd in Ret tt
  end.

Fixpoint perform_all (work : prog (option Z)) (l : list poller_action) : prog unit :=
  match l with
  | [] => Ret tt
  | a :: l' => do> perform work a in perform_all work l'
  end.

(** The entries from one with this address on; [None] when it was freed. *)
Fixpoint entries_from (id : addr) (l : list tp_client_poller_entry_t) : option (list tp_client_poller_entry_t) :=
  match l with
  | [] => None
  | e :: l' => if (pl_id e =? id)%nat then Some l else entries_from id l'
  end.

(** [entry->next]: of an entry that was freed meanwhile there is none to read. *)
Definition next_poller (id : addr) : prog (option tp_client_poller_entry_t) :=
  step NextPoller (fun s =>
    c ← co_state (me_conductor s);
    l ← entries_from id (cs_pollers c);
    Some (head (tail l), s)).

(** The loop of [tp_client_conductor_poll_pollers] from an entry on; [None]: a poller
    failed. *)
Fixpoint poll_pollers (work : prog (option Z)) (n : nat) (entry : option tp_client_poller_entry_t)
    (total : Z) : prog (option Z) :=
  match n, entry with
  | S n', Some e =>
    do> emit (Polled (pl_poller e) (pl_clientd e)) in
    let> answer := ask (ae_poller W (pl_poller e) (pl_clientd e) (pl_fragment_limit e)) in
    do> perform_all work (fst answer) in
    if snd answer <? 0 then Ret None
    else
      let> next := next_poller (pl_id e) in
      poll_pollers work n' next (total + snd answer)
  | _, _ => Ret (Some total)
  end.

Definition tp_client_conductor_poll_pollers (work : prog (option Z)) : prog (option Z) :=
  let> l := on_state (fun c => (cs_pollers c, c)) in
  poll_pollers work (length l) (head l) 0.

(** ** The duty cycle *)

Definition set_depth (f : Z -> Z) : prog Z :=
  on_state (fun c => (f (cs_do_work_depth c), c <| cs_do_work_depth ::= f |>)).

(** The first half: requests. *)
Definition work_requests (n : nat) : prog unit :=
  do> tp_client_conductor_process_commands n in tp_client_conductor_poll_pending n.

(** [None] is -1.  [n] bounds the turns of the loops, [level] the pollers that are under
    way; a duty cycle inside a poller calls none, so that one level is enough. *)
Fixpoint tp_client_conductor_do_work (n level : nat) : prog (option Z) :=
  let> co := step Plain (fun s => Some (me_conductor s, s)) in
  if negb (co_aeron co) then Ret None
  else
    let> invoked := (if co_use_agent_invoker co then ask (ae_work W) else Ret (Some 0)) in
    match invoked with
    | None => Ret None
    | Some invoked =>
      match co_state co with
      | NULL => Ret (Some invoked)
      | Some _ =>
        do> work_requests n in
        let> depth := set_depth (fun d => d + 1) in
        let> polled := (if depth =? 1
                        then match level with
                             | O => step Plain (fun _ => None)
                             | S level' =>
                               tp_client_conductor_poll_pollers (tp_client_conductor_do_work n level')
                             end
                        else Ret (Some 0)) in
        let> _ := set_depth (fun d => d - 1) in
        Ret (match polled with Some work => Some (invoked + work) | None => None end)
      end
    end.

(** ** Opening and closing *)

Definition fresh_state : tp_client_conductor_state_t :=
  {| cs_command_queue := []; cs_slots := false; cs_pending_publications := NULL; cs_pending_subscriptions := NULL;
     cs_subscriptions := ∅; cs_pollers := []; cs_do_work_depth := 0 |}.

Definition state_init : prog (ptr tp_client_conductor_state_t) :=
  let> alloc := ask (ae_alloc W) in Ret (if alloc : bool then Some fresh_state else NULL).

Definition set_conductor (co : tp_client_conductor_t) : prog unit :=
  step Plain (fun s => Some (tt, s <| me_conductor := co |>)).

(** A wrapper is closed with what it wraps; NULL is not. *)
Definition wrapper_close (w : ptr addr) : prog unit :=
  match w with
  | NULL => Ret tt
  | Some w =>
    let> r := step Plain (fun s => r ← me_wrappers s !! w; Some (r, s)) in
    do> emit (AeronClosed (wr_type r) (wr_aeron r)) in
    step Plain (fun s => Some (tt, s <| me_wrappers ::= delete w |>))
  end.

(** The loop that frees a list of requests. *)
Fixpoint free_pending (n : nat) (x : ptr addr) : prog unit :=
  match n, x with
  | S n', Some x =>
    let> r := load_async Plain x in
    do> free_async x in
    free_pending n' (as_next r)
  | _, _ => Ret tt
  end.

Definition TP_CLIENT_SUB_CONTROL : Z := 1.
Definition TP_CLIENT_SUB_ANNOUNCE : Z := 2.
Definition TP_CLIENT_SUB_QOS : Z := 3.
Definition TP_CLIENT_SUB_METADATA : Z := 4.
Definition TP_CLIENT_SUB_DESCRIPTOR : Z := 5.
Definition subscription_kinds : list Z :=
  [TP_CLIENT_SUB_CONTROL; TP_CLIENT_SUB_ANNOUNCE; TP_CLIENT_SUB_QOS; TP_CLIENT_SUB_METADATA;
   TP_CLIENT_SUB_DESCRIPTOR].

Definition known_kind (kind : Z) : bool := existsb (Z.eqb kind) subscription_kinds.

Fixpoint close_subscriptions (l : list Z) : prog unit :=
  match l with
  | [] => Ret tt
  | kind :: l' =>
    let> w := on_state (fun c => (cs_subscriptions c !! kind, c)) in
    do> wrapper_close w in
    do> on_state (fun c => (tt, c <| cs_subscriptions ::= delete kind |>)) in
    close_subscriptions l'
  end.

(** Requests that are still in the queue are not looked at. *)
Definition state_close (n : nat) : prog unit :=
  let> co := step Plain (fun s => Some (me_conductor s, s)) in
  match co_state co with
  | NULL => Ret tt
  | Some c =>
    do> free_pending n (cs_pending_publications c) in
    do> free_pending n (cs_pending_subscriptions c) in
    do> close_subscriptions subscription_kinds in
    set_conductor (co <| co_state := NULL |>)
  end.

Definition tp_client_conductor_close (n : nat) : prog unit :=
  do> state_close n in
  let> co := step Plain (fun s => Some (me_conductor s, s)) in
  do> (if co_aeron co && co_owns_aeron co then emit ClientClosed else Ret tt) in
  set_conductor (co <| co_aeron := false |> <| co_started := false |>).

(** [opened] is the success of all calls that prepare the Aeron client. *)
Definition tp_client_conductor_init_with_client_context (n : nat) (invoker opened : bool) : prog bool :=
  if negb opened then Ret false
  else
    do> set_conductor {| co_aeron := true; co_use_agent_invoker := invoker; co_started := false;
                         co_owns_aeron := true; co_state := NULL |} in
    let> state := state_init in
    match state with
    | NULL => do> tp_client_conductor_close n in Ret false
    | Some st =>
      do> set_conductor {| co_aeron := true; co_use_agent_invoker := invoker; co_started := false;
                           co_owns_aeron := true; co_state := Some st |} in
      Ret true
    end.

(** [tp_client_conductor_init_with_aeron], for a client that is there. *)
Definition tp_client_conductor_init_with_aeron (n : nat) (invoker owns : bool) : prog bool :=
  do> set_conductor {| co_aeron := true; co_use_agent_invoker := invoker; co_started := true;
                       co_owns_aeron := owns; co_state := NULL |} in
  let> state := state_init in
  match state with
  | NULL => do> tp_client_conductor_close n in Ret false
  | Some st =>
    do> set_conductor {| co_aeron := true; co_use_agent_invoker := invoker; co_started := true;
                         co_owns_aeron := owns; co_state := Some st |} in
    Ret true
  end.

(** [started] is the success of [aeron_start]. *)
Definition tp_client_conductor_start (started : bool) : prog bool :=
  let> co := step Plain (fun s => Some (me_conductor s, s)) in
  if negb (co_aeron co) then Ret false
  else if co_started co then Ret true
  else if negb started then Ret false
  else do> set_conductor (co <| co_started := true |>) in Ret true.

Definition tp_client_conductor_set_subscription (kind : Z) (w : ptr addr) : prog (res unit) :=
  let> co := step Plain (fun s => Some (me_conductor s, s)) in
  match co_state co with
  | NULL => Ret (Err EINVAL)
  | Some c =>
    if negb (known_kind kind) then Ret (Err EINVAL)
    else
      do> wrapper_close (cs_subscriptions c !! kind) in
      do> on_state (fun c => (tt, c <| cs_subscriptions ::=
            fun m => match w with Some w => <[kind := w]> m | NULL => delete kind m end |>)) in
      Ret (Ok tt)
  end.

Definition tp_client_conductor_get_subscription (kind : Z) : prog (ptr addr) :=
  let> co := step Plain (fun s => Some (me_conductor s, s)) in
  Ret (match co_state co with
       | NULL => NULL
       | Some c => if known_kind kind then cs_subscriptions c !! kind else NULL
       end).

(** ** Subscriptions of a client (src/client/tp_client.c) *)

(** The loop of [tp_client_add_subscription]: at most [fuel] turns, [None] after that. *)
Fixpoint await_subscription (n fuel : nat) (x : addr) : prog (option (res (ptr addr))) :=
  match fuel with
  | O => Ret None
  | S fuel' =>
    let> polled := tp_client_conductor_async_add_subscription_poll (Some x) in
    match polled with
    | Err e => Ret (Some (Err e))
    | Ok polled =>
      let> _ := tp_client_conductor_do_work n 1 in
      match polled with
      | Some (Some w) => Ret (Some (Ok (Some w)))
      | _ => await_subscription n fuel' x
      end
    end
  end.

Definition tp_client_add_subscription (n fuel : nat) (channel : ptr chars) (stream_id kind : Z)
    : prog (option (res unit)) :=
  match channel with
  | NULL => Ret (Some (Ok tt))
  | Some _ =>
    if stream_id <? 0 then Ret (Some (Ok tt))
    else
      let> added := tp_client_conductor_async_add_subscription channel stream_id in
      match added with
      | Err e => Ret (Some (Err e))
      | Ok x =>
        let> w := await_subscription n fuel x in
        match w with
        | None => Ret None
        | Some (Err e) => Ret (Some (Err e))
        | Some (Ok w) => let> r := tp_client_conductor_set_subscription kind w in Ret (Some r)
        end
      end
  end.
End Conductor.
