(* ===== verification/ConductorThreads.v ===== *)
(** * ConductorThreads: requests between application threads and the conductor

    Between any two accesses of the conductor other threads may add requests, ask
    for and take answers, and close what they were given.  [safe] is the weakest
    precondition of a program that is interrupted in this way; the invariant
    [conductor_ok] says which thread a request belongs to: the queue, the conductor's
    hand, one of its lists, or, once it is answered, the thread that made it. *)

From Stdlib Require Import ZArith Lia Bool Ascii String.
From stdpp Require Import strings list gmap functions relations.
From coqutil Require Import Datatypes.RecordSetters.
From S2P Require Import Prelude Sbe Uri Shm Conductor.
Import TriangleBracketNotations.

#[local] Open Scope Z_scope.
#[local] Open Scope list_scope.

(** ** Lists in memory *)

(** From [p] the links lead through [l] to [q]. *)
Fixpoint path (h : gmap addr async) (p : ptr addr) (l : list addr) (q : ptr addr) : Prop :=
  match l with
  | [] => p = q
  | x :: l' => p = Some x /\ exists r, h !! x = Some r /\ path h (as_next r) l' q
  end.

Lemma path_app h l1 : forall p l2 q,
  path h p (l1 ++ l2) q <-> exists m, path h p l1 m /\ path h m l2 q.
Proof.
  induction l1 as [|x l1 IH]; intros p l2 q; cbn [app path].
  - split; [intros H; by exists p|by intros (m & -> & H)].
  - split.
    + intros (-> & r & Hr & (m & H1 & H2)%IH). exists m. split; [|done]. split; [done|]. by exists r.
    + intros (m & (-> & r & Hr & H1) & H2). split; [done|]. exists r. split; [done|]. apply IH. by exists m.
Qed.

Lemma path_head h p l : path h p l NULL -> p = head l.
Proof. destruct l; [done|by intros [-> _]]. Qed.

(** What happens elsewhere does not change a path, nor what keeps the links. *)
Lemma path_ext h h' l : forall p q,
  (forall x r, x ∈ l -> h !! x = Some r -> exists r', h' !! x = Some r' /\ as_next r' = as_next r) ->
  path h p l q -> path h' p l q.
Proof.
  induction l as [|x l IH]; intros p q Hext; [done|]. intros (-> & r & Hr & Hp).
  destruct (Hext x r) as (r' & Hr' & En); [by left|done|]. split; [done|]. exists r'. split; [done|].
  rewrite En. apply IH; [|done]. intros y ry Hy. apply Hext. by right.
Qed.

Lemma path_insert h p l q x r : (x ∉ l) -> path h p l q -> path (<[x := r]> h) p l q.
Proof.
  intros Hx. apply path_ext. intros y ry Hy Hh. exists ry. split; [|done].
  rewrite lookup_insert_ne; [done|]. by intros ->.
Qed.

(** The last link of a path is set. *)
Lemma path_relink h p l y ry q q' :
  (y ∉ l) -> h !! y = Some ry -> path h p (l ++ [y]) q ->
  path (<[y := ry <| as_next := q' |>]> h) p (l ++ [y]) q'.
Proof.
  intros Hy Hry. rewrite !path_app. intros (m & H1 & -> & _). exists (Some y).
  split; [by apply path_insert|]. split; [done|]. exists (ry <| as_next := q' |>).
  split; [by rewrite lookup_insert_eq|by destruct ry].
Qed.

(** A list of the conductor, possibly with a request in its midst that was answered:
    the requester may have freed it already. *)
Inductive chain :=
  | Whole (l : list addr)
  | Broken (l1 : list addr) (x : addr) (l2 : list addr).

Definition owned (c : chain) : list addr :=
  match c with Whole l => l | Broken l1 x l2 => l1 ++ l2 end.

Definition chain_ok (h : gmap addr async) (p : ptr addr) (c : chain) : Prop :=
  match c with
  | Whole l => path h p l NULL
  | Broken l1 x l2 =>
    path h p l1 (Some x) /\ path h (head l2) l2 NULL /\
    forall r, h !! x = Some r -> as_status r <> TP_ASYNC_PENDING /\ as_next r = head l2
  end.

(** ** Who has a request *)

Abbreviation kind := tp_client_cmd_type_t.

Definition cmd_of (c : kind * addr) : tp_client_cmd_t := {| cmd_type := fst c; cmd_async := Some (snd c) |}.

(** The requests that wait for their answer: in the queue, in hand, in the lists. *)
Definition held (q hand : list (kind * addr)) (ch : kind -> chain) : list (kind * addr) :=
  q ++ hand ++ ((TP_CLIENT_CMD_ADD_PUBLICATION,.) <$> owned (ch TP_CLIENT_CMD_ADD_PUBLICATION)) ++
  ((TP_CLIENT_CMD_ADD_SUBSCRIPTION,.) <$> owned (ch TP_CLIENT_CMD_ADD_SUBSCRIPTION)).

Record holding (h : gmap addr async) (l : list (kind * addr)) : Prop := {
  ho_once : NoDup (l.*2);
  ho_pending : forall k x, (k, x) ∈ l -> exists r, h !! x = Some r /\ as_status r = TP_ASYNC_PENDING /\
                 as_type r = k /\ is_Some (as_channel r);
  ho_all : forall x r, h !! x = Some r -> as_status r = TP_ASYNC_PENDING -> x ∈ l.*2;
}.

(** An answer is what was asked for, and nobody else's. *)
Record memory_ok (s : store) : Prop := {
  mo_fresh : forall x r, me_asyncs s !! x = Some r -> (x < me_fresh s)%nat;
  mo_wrapper : forall w r, me_wrappers s !! w = Some r -> (w < me_fresh s)%nat;
  mo_result : forall x r w, me_asyncs s !! x = Some r -> as_result r = Some w ->
    exists a, me_wrappers s !! w = Some {| wr_type := as_type r; wr_aeron := a;
                wr_channel := as_channel r; wr_stream_id := as_stream_id r |};
  mo_once : forall x x' r r' w, me_asyncs s !! x = Some r -> me_asyncs s !! x' = Some r' ->
    as_result r = Some w -> as_result r' = Some w -> x = x';
  mo_complete : forall x r, me_asyncs s !! x = Some r -> as_status r = TP_ASYNC_COMPLETE ->
    is_Some (as_result r);
}.

Record conductor_ok (hand : list (kind * addr)) (ch : kind -> chain) (s : store) : Prop := {
  ok_memory : memory_ok s;
  ok_state : exists c q, co_state (me_conductor s) = Some c /\ cs_command_queue c = cmd_of <$> q /\
    (forall k, chain_ok (me_asyncs s) (pending k c) (ch k)) /\ holding (me_asyncs s) (held q hand ch);
  ok_hole : forall k l1 x l2, ch k = Broken l1 x l2 -> (x < me_fresh s)%nat;
}.

Lemma holding_perm h l l' : l ≡ₚ l' -> holding h l -> holding h l'.
Proof.
  intros Hp [H1 H2 H3]. split.
  - by rewrite <- Hp.
  - intros k x Hx. apply H2. by rewrite Hp.
  - intros x r Hr Hs. rewrite <- Hp. by eapply H3.
Qed.

#[export] Instance holding_proper h : Proper ((≡ₚ) ==> iff) (holding h).
Proof. intros l l' Hp. split; apply holding_perm; done. Qed.

Lemma held_hand q e hand ch : held q (e :: hand) ch ≡ₚ e :: held q hand ch.
Proof. unfold held. cbn. by rewrite <- Permutation_middle. Qed.

(** The requests of one list and all others. *)
Lemma held_split q hand ch k c :
  exists rest, held q hand ch ≡ₚ ((k,.) <$> owned (ch k)) ++ rest /\
    held q hand (<[k := c]> ch) ≡ₚ ((k,.) <$> owned c) ++ rest /\
    forall e, held q (e :: hand) (<[k := c]> ch) ≡ₚ e :: ((k,.) <$> owned c) ++ rest.
Proof.
  unfold held. destruct k.
  - exists (q ++ hand ++ ((TP_CLIENT_CMD_ADD_SUBSCRIPTION,.) <$> owned (ch TP_CLIENT_CMD_ADD_SUBSCRIPTION))).
    rewrite fn_lookup_insert, fn_lookup_insert_ne by done. split_and!; [solve_Permutation..|intros; solve_Permutation].
  - exists (q ++ hand ++ ((TP_CLIENT_CMD_ADD_PUBLICATION,.) <$> owned (ch TP_CLIENT_CMD_ADD_PUBLICATION))).
    rewrite fn_lookup_insert, fn_lookup_insert_ne by done. split_and!; [solve_Permutation..|intros; solve_Permutation].
Qed.

Lemma chain_ext h h' p c :
  (forall x r, x ∈ owned c -> h !! x = Some r -> h' !! x = Some r) ->
  (forall l1 x l2 r, c = Broken l1 x l2 -> h' !! x = Some r -> h !! x = Some r) ->
  chain_ok h p c -> chain_ok h' p c.
Proof.
  intros Ho Hx. assert (Hp : forall l p q, (forall x, x ∈ l -> x ∈ owned c) -> path h p l q -> path h' p l q).
  { intros l p' q Hl. apply path_ext. intros x r Hin Hr. exists r. split; [|done]. by apply Ho; [apply Hl|]. }
  destruct c as [l|l1 x l2]; cbn [chain_ok owned] in *; [by apply Hp|]. intros (H1 & H2 & H3). split_and!.
  - apply Hp; [|done]. intros y Hy. apply elem_of_app. by left.
  - apply Hp; [|done]. intros y Hy. apply elem_of_app. by right.
  - intros r Hr. apply H3. by eapply Hx.
Qed.

Lemma owned_held q hand ch k x : x ∈ owned (ch k) -> (k, x) ∈ held q hand ch.
Proof.
  intros Hx. unfold held. rewrite !elem_of_app, !list_elem_of_fmap.
  destruct k; [right; right; left; by exists x|right; right; right; by exists x].
Qed.

Lemma holding_ext h h' l l' :
  l' ≡ₚ l ->
  (forall x r, h !! x = Some r -> as_status r = TP_ASYNC_PENDING -> h' !! x = Some r) ->
  (forall x r, h' !! x = Some r -> as_status r = TP_ASYNC_PENDING -> h !! x = Some r) ->
  holding h l -> holding h' l'.
Proof.
  intros Hl H1 H2 Hh. apply (holding_perm _ l); [done|]. destruct Hh as [Ho Hp Ha]. split; [done|..].
  - intros k x Hx. destruct (Hp k x Hx) as (r & Hr & Hs & Hk). exists r. split; [by apply H1|done].
  - intros x r Hr Hs. eapply Ha; [by apply H2|done].
Qed.

Lemma holding_new h l k x r :
  holding h l -> h !! x = None -> as_status r = TP_ASYNC_PENDING -> as_type r = k -> is_Some (as_channel r) ->
  holding (<[x := r]> h) ((k, x) :: l).
Proof.
  intros [Ho Hp Ha] Hx Hs Hk Hc. split.
  - cbn. constructor; [|done]. intros ([k' y] & E & Hin)%list_elem_of_fmap. cbn in E. subst y.
    apply Hp in Hin as (r' & Hr' & _). congruence.
  - intros k' y [E|Hin]%elem_of_cons.
    { injection E as -> ->. exists r. by rewrite lookup_insert_eq. }
    destruct (Hp k' y Hin) as (r' & Hr' & H'). exists r'. rewrite lookup_insert_ne; [done|].
    intros ->. congruence.
  - intros y ry [[<- <-]|[_ Hy]]%lookup_insert_Some Hsy; [by left|]. right. by eapply Ha.
Qed.

(** ** Other threads *)

Lemma run_bind {A B} (p : prog A) (k : A -> prog B) : forall s,
  run (bind p k) s = match run p s with Some (a, s') => run (k a) s' | None => None end.
Proof.
  induction p as [a|V l f k' IH]; intros s; [done|]. cbn. destruct (f s) as [[v s']|]; [|done]. apply IH.
Qed.

Section Threads.
Context (W : outside).

(** What an application thread does with requests and results. *)
Inductive client_step : store -> store -> Prop :=
  | client_add s kind channel stream_id r s' :
      run (async_add W kind channel stream_id) s = Some (r, s') -> client_step s s'
  | client_poll s x r s' :
      is_Some (me_asyncs s !! x) -> run (async_add_poll (Some x)) s = Some (r, s') -> client_step s s'
  | client_close s w :
      (forall x r, me_asyncs s !! x = Some r -> as_result r <> Some w) ->
      client_step s (s <| me_wrappers ::= delete w |>)
  | client_time s : client_step s (s <| me_tick ::= S |>).

(** Whatever else [add] does, it is one of these. *)
Record same_conductor (c c' : tp_client_conductor_state_t) : Prop := {
  sc_pending : forall k, pending k c' = pending k c;
  sc_pollers : cs_pollers c' = cs_pollers c;
  sc_depth : cs_do_work_depth c' = cs_do_work_depth c;
}.

Record add_effect (s s' : store) : Prop := {
  ad_conductor : exists c c', co_state (me_conductor s) = Some c /\ co_state (me_conductor s') = Some c' /\
    same_conductor c c' /\ co_aeron (me_conductor s') = co_aeron (me_conductor s) /\
    (me_asyncs s' = me_asyncs s /\ cs_command_queue c' = cs_command_queue c \/
     exists kind channel stream_id, me_asyncs s' = <[me_fresh s := new_async kind channel stream_id]> (me_asyncs s) /\
       (me_fresh s < me_fresh s')%nat /\ cs_command_queue c' = cs_command_queue c ++ [cmd_of (kind, me_fresh s)]);
  ad_wrappers : me_wrappers s' = me_wrappers s;
  ad_fresh : (me_fresh s <= me_fresh s')%nat;
  ad_events : me_events s' = me_events s;
}.

Lemma add_effects s c kind channel stream_id r s' :
  co_state (me_conductor s) = Some c -> me_asyncs s !! me_fresh s = None ->
  run (async_add W kind channel stream_id) s = Some (r, s') -> add_effect s s'.
Proof.
  intros Hc Hf. destruct s as [[ae inv st ow cs] asyncs wrappers fresh tick events]. cbn in Hc, Hf. subst cs.
  assert (Hnil : forall t slots n, (fresh <= n)%nat -> add_effect
    {| me_conductor := Build_tp_client_conductor_t ae inv st ow (Some c);
       me_asyncs := asyncs; me_wrappers := wrappers; me_fresh := fresh; me_tick := tick; me_events := events |}
    {| me_conductor := Build_tp_client_conductor_t ae inv st ow (Some (c <| cs_slots := slots |>));
       me_asyncs := asyncs; me_wrappers := wrappers; me_fresh := n; me_tick := t; me_events := events |}).
  { intros t slots n Hn. split; [|done..]. exists c, (c <| cs_slots := slots |>). destruct c.
    split_and!; [done|done|by split; [intros []|..]|done|by left]. }
  assert (Hfull : forall t slots e, run (do> free_async fresh in Ret (Err e : res addr)) {|
      me_conductor := Build_tp_client_conductor_t ae inv st ow (Some (c <| cs_slots := slots |>));
      me_asyncs := <[fresh := new_async kind (default [] channel) stream_id]> asyncs; me_wrappers := wrappers;
      me_fresh := S fresh; me_tick := t; me_events := events |} = Some (Err e, {|
      me_conductor := Build_tp_client_conductor_t ae inv st ow (Some (c <| cs_slots := slots |>));
      me_asyncs := asyncs; me_wrappers := wrappers; me_fresh := S fresh; me_tick := t; me_events := events |})).
  { intros t slots e. cbn. rewrite lookup_insert_eq. cbn. by rewrite delete_insert_id. }
  destruct c as [queue slots pubs subs roles pollers depth]. unfold async_add, constant. cbn -[Nat.ltb].
  destruct channel as [channel|]; cbn -[Nat.ltb]; [|intros [= <- <-]; exact (Hnil tick slots fresh (Nat.le_refl _))].
  destruct ae; cbn -[Nat.ltb]; [|intros [= <- <-]; exact (Hnil tick slots fresh (Nat.le_refl _))].
  destruct (ae_alloc W tick); cbn -[Nat.ltb]; [|intros [= <- <-]; exact (Hnil (S tick) slots fresh (Nat.le_refl _))].
  destruct (ae_alloc W (S tick)); cbn -[Nat.ltb]; [|intros [= <- <-]; exact (Hnil (S (S tick)) slots fresh (Nat.le_refl _))].
  assert (Hdone : forall t slots', add_effect
    {| me_conductor := Build_tp_client_conductor_t true inv st ow
         (Some (Build_tp_client_conductor_state_t queue slots pubs subs roles pollers depth));
       me_asyncs := asyncs; me_wrappers := wrappers; me_fresh := fresh; me_tick := tick; me_events := events |}
    {| me_conductor := Build_tp_client_conductor_t true inv st ow
         (Some (Build_tp_client_conductor_state_t (queue ++ [cmd_of (kind, fresh)]) slots' pubs subs roles pollers depth));
       me_asyncs := <[fresh := new_async kind channel stream_id]> asyncs; me_wrappers := wrappers;
       me_fresh := S fresh; me_tick := t; me_events := events |}).
  { intros t slots'. split; [|done|cbn; lia|done]. do 2 eexists. split_and!; [done|done|by split|done|].
    right. exists kind, channel, stream_id. split_and!; [done|cbn; lia|done]. }
  unfold constant. destruct slots; cbn -[Nat.ltb]; unfold constant;
    [|destruct (ae_alloc W (S (S tick))); cbn -[Nat.ltb]; unfold constant].
  1, 2: destruct (_ <? _)%nat;
    [intros [= <- <-]; apply Hdone|
     intros E; first [pose proof (eq_trans (eq_sym E) (Hfull (S (S tick)) true EAGAIN)) as [= -> ->]
                     |pose proof (eq_trans (eq_sym E) (Hfull (S (S (S tick))) true EAGAIN)) as [= -> ->]];
     refine (Hnil _ true _ _); lia].
  intros E. pose proof (eq_trans (eq_sym E) (Hfull (S (S (S tick))) false ENOMEM)) as [= -> ->].
  refine (Hnil _ false _ _). lia.
Qed.

(** What other threads leave alone. *)
Record stable (s s' : store) : Prop := {
  sb_pending : forall x r, me_asyncs s !! x = Some r -> as_status r = TP_ASYNC_PENDING ->
    me_asyncs s' !! x = Some r;
  sb_conductor : forall c, co_state (me_conductor s) = Some c ->
    exists c', co_state (me_conductor s') = Some c' /\ same_conductor c c';
  sb_aeron : co_aeron (me_conductor s') = co_aeron (me_conductor s);
  sb_fresh : (me_fresh s <= me_fresh s')%nat;
  sb_old : forall x r, (x < me_fresh s)%nat -> me_asyncs s' !! x = Some r -> me_asyncs s !! x = Some r;
  sb_events : me_events s' = me_events s;
}.

Lemma stable_refl s : stable s s.
Proof. split; [done| |done..]. intros c Hc. exists c. by split. Qed.

Lemma stable_trans s1 s2 s3 : stable s1 s2 -> stable s2 s3 -> stable s1 s3.
Proof.
  intros [A1 B1 C1 D1 E1 F1] [A2 B2 C2 D2 E2 F2]. split; [auto| |congruence|lia| |congruence].
  2:{ intros x r Hx Hr. apply E1; [done|]. apply E2; [lia|done]. }
  intros c Hc. destruct (B1 c Hc) as (c1 & Hc1 & [P1 P2 P3]). destruct (B2 c1 Hc1) as (c2 & Hc2 & [Q1 Q2 Q3]).
  exists c2. split; [done|]. split; [intros k; by rewrite Q1|congruence|congruence].
Qed.

Lemma memory_fresh s : memory_ok s -> me_asyncs s !! me_fresh s = None.
Proof.
  intros Hm. destruct (_ !! _) eqn:E; [|done]. apply (mo_fresh _ Hm) in E. lia.
Qed.

Lemma add_ok hand ch s s' : conductor_ok hand ch s -> add_effect s s' -> conductor_ok hand ch s' /\ stable s s'.
Proof.
  intros [Hm (c & q & Hc & Hq & Hch & Hho) Hhole] [(c0 & c' & E0 & Hc' & Hsame & Hae & Hcase) Hw Hf Hev].
  rewrite Hc in E0. injection E0 as <-. pose proof (memory_fresh _ Hm) as Hnone.
  assert (Hkeep : forall x r, me_asyncs s !! x = Some r -> me_asyncs s' !! x = Some r).
  { intros x r Hr. destruct Hcase as [[-> _]|(k & chn & sid & -> & _)]; [done|].
    rewrite lookup_insert_ne; [done|]. intros <-. congruence. }
  assert (Hback : forall x r, me_asyncs s' !! x = Some r -> me_asyncs s !! x = Some r \/
    x = me_fresh s /\ (me_fresh s < me_fresh s')%nat /\ exists k chn sid, r = new_async k chn sid).
  { intros x r Hr. destruct Hcase as [[E _]|(k & chn & sid & E & Hlt & _)]; rewrite E in Hr; [by left|].
    apply lookup_insert_Some in Hr as [[<- <-]|[_ Hr]]; [right; eauto 10|by left]. }
  split.
  - split; [split| |].
    + intros x r [Hr|(-> & ? & _)]%Hback; [|done]. apply (mo_fresh _ Hm) in Hr. lia.
    + intros w r. rewrite Hw. intros Hr%(mo_wrapper _ Hm). lia.
    + intros x r w [Hr|(_ & _ & k & chn & sid & ->)]%Hback Hres; [|done]. rewrite Hw. by eapply mo_result.
    + intros x y rx ry w [Hx|(_ & _ & k & chn & sid & ->)]%Hback [Hy|(_ & _ & k' & chn' & sid' & ->)]%Hback;
        [|done..]. by eapply mo_once.
    + intros x r [Hr|(_ & _ & k & chn & sid & ->)]%Hback; [|done]. by eapply mo_complete.
    + assert (Hchains : forall k, chain_ok (me_asyncs s') (pending k c') (ch k)).
      { intros k. rewrite (sc_pending _ _ Hsame). eapply chain_ext; [intros; by apply Hkeep| |apply Hch].
        intros l1 x l2 r Ek [Hr|(-> & _)]%Hback; [done|]. apply Hhole in Ek. lia. }
      destruct Hcase as [[E Eq]|(k & chn & sid & E & Hlt & Eq)].
      * exists c', q. rewrite Eq, E in *. by split_and!.
      * exists c', (q ++ [(k, me_fresh s)]). rewrite Eq, Hq, fmap_app. split_and!; [done..|]. rewrite E.
        apply (holding_perm _ ((k, me_fresh s) :: held q hand ch)); [unfold held; solve_Permutation|].
        by apply holding_new.
    + intros k l1 x l2 Ek%Hhole. lia.
  - split; [intros; by apply Hkeep| |done|done| |done].
    + intros c0 E0. rewrite Hc in E0. injection E0 as <-. by exists c'.
    + intros x r Hx [Hr|(-> & _)]%Hback; [done|lia].
Qed.

Lemma take_ok hand ch s x r :
  conductor_ok hand ch s -> me_asyncs s !! x = Some r -> as_status r <> TP_ASYNC_PENDING ->
  conductor_ok hand ch (s <| me_asyncs ::= delete x |>) /\ stable s (s <| me_asyncs ::= delete x |>).
Proof.
  intros [Hm (c & q & Hc & Hq & Hch & Hho) Hhole] Hx Hs.
  set (s' := s <| me_asyncs ::= delete x |>). assert (E : me_asyncs s' = delete x (me_asyncs s)) by done.
  assert (Hback : forall y ry, me_asyncs s' !! y = Some ry -> me_asyncs s !! y = Some ry)
    by (intros y ry; rewrite E; by intros [_ ?]%lookup_delete_Some).
  assert (Hkeep : forall y ry, me_asyncs s !! y = Some ry -> as_status ry = TP_ASYNC_PENDING ->
    me_asyncs s' !! y = Some ry).
  { intros y ry Hy Hsy. rewrite E. apply lookup_delete_Some. split; [|done]. intros ->. congruence. }
  split.
  - split; [split| |done].
    + intros y ry Hy%Hback. exact (mo_fresh _ Hm y ry Hy).
    + apply Hm.
    + intros y ry w Hy%Hback. exact (mo_result _ Hm y ry w Hy).
    + intros y z ry rz w Hy%Hback Hz%Hback. exact (mo_once _ Hm y z ry rz w Hy Hz).
    + intros y ry Hy%Hback. exact (mo_complete _ Hm y ry Hy).
    + exists c, q. split_and!; [done|done| |].
      * intros k. eapply chain_ext; [| |apply Hch]; [|intros; by apply Hback].
        intros y ry Hy Hr. apply Hkeep; [done|].
        destruct (ho_pending _ _ Hho k y (owned_held q hand ch k y Hy)) as (r' & Hr' & ? & _). congruence.
      * apply (holding_ext _ _ _ _ (reflexivity _) Hkeep); [|done]. intros; by apply Hback.
  - split; [done| |done|done|intros; by apply Hback|done]. intros c' Hc'. by exists c'.
Qed.

Lemma client_step_ok hand ch s s' :
  conductor_ok hand ch s -> client_step s s' -> conductor_ok hand ch s' /\ stable s s'.
Proof.
  intros Hok Hstep. pose proof Hok as [Hm (c & q & Hc & Hq & Hch & Hho) Hhole].
  destruct Hstep as [s k chn sid r s' E|s x r s' [rx Hx] E|s w Hw|s].
  - apply (add_ok hand ch); [done|]. eapply add_effects; [done| |done]. by apply memory_fresh.
  - cbn in E. rewrite Hx in E. cbn in E. destruct (as_status rx) eqn:Es; cbn in E.
    + injection E as <- <-. split; [done|apply stable_refl].
    + rewrite Hx in E. cbn in E. injection E as <- <-. by eapply take_ok; [..|rewrite Es].
    + rewrite Hx in E. cbn in E. injection E as <- <-. by eapply take_ok; [..|rewrite Es].
  - split; [|split; [done| |done..]; intros c' Hc'; by exists c'].
    split; [split| |done].
    + apply Hm.
    + intros y ry Hy. change (delete w (me_wrappers s) !! y = Some ry) in Hy.
      apply lookup_delete_Some in Hy as [_ Hy]. exact (mo_wrapper _ Hm y ry Hy).
    + intros y ry v Hy Hv. destruct (mo_result _ Hm y ry v Hy Hv) as [a Ha]. exists a.
      change (delete w (me_wrappers s) !! v = Some {| wr_type := as_type ry; wr_aeron := a;
        wr_channel := as_channel ry; wr_stream_id := as_stream_id ry |}). apply lookup_delete_Some. split; [|done]. intros <-. by apply (Hw y ry).
    + apply Hm.
    + apply Hm.
    + by exists c, q.
  - split; [|split; [done| |done..]; intros c' Hc'; by exists c'].
    split; [by destruct Hm; split|by exists c, q|done].
Qed.

Lemma clients_ok hand ch s s' :
  conductor_ok hand ch s -> rtc client_step s s' -> conductor_ok hand ch s' /\ stable s s'.
Proof.
  intros Hok Hr. revert Hok. induction Hr as [s|s1 s2 s3 H12 _ IH]; intros Hok; [by split; [|apply stable_refl]|].
  destruct (client_step_ok _ _ _ _ Hok H12) as [H2 S2]. destruct (IH H2) as [H3 S3].
  split; [done|by eapply stable_trans].
Qed.
End Threads.

(** ** Steps of the conductor *)

Definition with_state (c : tp_client_conductor_state_t) (s : store) : store :=
  s <| me_conductor ::= fun co => co <| co_state := Some c |> |>.

Definition with_async (x : addr) (r : async) (s : store) : store := s <| me_asyncs ::= <[x := r]> |>.

(** A request that waits changes, but not what it asks for, nor its link, if it is in
    a list. *)
Record same_request (r r' : async) : Prop := {
  sr_type : as_type r' = as_type r;
  sr_channel : as_channel r' = as_channel r;
  sr_stream_id : as_stream_id r' = as_stream_id r;
  sr_result : as_result r' = as_result r;
}.

Lemma memory_update s x r r' :
  memory_ok s -> me_asyncs s !! x = Some r -> same_request r r' ->
  (as_status r' = TP_ASYNC_COMPLETE -> is_Some (as_result r)) -> memory_ok (with_async x r' s).
Proof.
  intros Hm Hx [E1 E2 E3 E4] Hc.
  assert (Hl : forall y ry, me_asyncs (with_async x r' s) !! y = Some ry ->
    exists r0, me_asyncs s !! y = Some r0 /\ same_request r0 ry /\
      (as_status ry = TP_ASYNC_COMPLETE -> is_Some (as_result ry))).
  { intros y ry Hy. change (<[x := r']> (me_asyncs s) !! y = Some ry) in Hy.
    apply lookup_insert_Some in Hy as [[<- <-]|[_ Hy]].
    - exists r. split; [done|]. split; [done|]. rewrite E4. done.
    - exists ry. split; [done|]. split; [done|]. intros Hs. by apply (mo_complete _ Hm y ry). }
  split.
  - intros y ry (r0 & Hy & _)%Hl. exact (mo_fresh _ Hm y r0 Hy).
  - apply Hm.
  - intros y ry w (r0 & Hy & [F1 F2 F3 F4] & _)%Hl Hw. rewrite F4 in Hw. rewrite F1, F2, F3.
    exact (mo_result _ Hm y r0 w Hy Hw).
  - intros y z ry rz w (r0 & Hy & [_ _ _ F4] & _)%Hl (r1 & Hz & [_ _ _ G4] & _)%Hl Hw Hv.
    rewrite F4 in Hw. rewrite G4 in Hv. exact (mo_once _ Hm y z r0 r1 w Hy Hz Hw Hv).
  - by intros y ry (r0 & Hy & _ & Hs)%Hl.
Qed.

Lemma holding_update h l x r r' :
  holding h l -> h !! x = Some r -> as_status r = TP_ASYNC_PENDING -> as_status r' = TP_ASYNC_PENDING ->
  as_type r' = as_type r -> as_channel r' = as_channel r -> holding (<[x := r']> h) l.
Proof.
  intros [Ho Hp Ha] Hx Hs Hs' E1 E2. split; [done|..].
  - intros k y Hy. destruct (Hp k y Hy) as (ry & Hry & Hsy & Hk & Hc). destruct (decide (y = x)) as [->|Hne].
    + exists r'. rewrite lookup_insert_eq, E1, E2. rewrite Hx in Hry. injection Hry as <-. done.
    + exists ry. rewrite lookup_insert_ne by done. done.
  - intros y ry [[<- <-]|[_ Hy]]%lookup_insert_Some Hsy; [by eapply Ha|by eapply Ha].
Qed.

(** One that was answered leaves those that wait. *)
Lemma holding_answered h k x l r r' :
  holding h ((k, x) :: l) -> as_status r' <> TP_ASYNC_PENDING -> h !! x = Some r -> holding (<[x := r']> h) l.
Proof.
  intros [Ho Hp Ha] Hs Hx. cbn in Ho. apply NoDup_cons in Ho as [Hn Ho]. split; [done|..].
  - intros k' y Hy. destruct (Hp k' y) as (ry & Hry & H'); [by right|]. exists ry.
    rewrite lookup_insert_ne; [done|]. intros ->. apply Hn. apply list_elem_of_fmap. by exists (k', y).
  - intros y ry [[<- <-]|[Hne Hy]]%lookup_insert_Some Hsy; [done|].
    pose proof (Ha y ry Hy Hsy) as Hin. cbn in Hin. apply elem_of_cons in Hin as [->|Hin]; [done|exact Hin].
Qed.

Lemma owned_once q hand ch k x l :
  NoDup ((held q hand ch).*2) -> (k, x) ∈ hand -> (x ∉ owned (ch l)).
Proof.
  intros Hn Hh Ho. unfold held in Hn. rewrite !fmap_app in Hn.
  apply NoDup_app in Hn as (_ & _ & (_ & Hn & _)%NoDup_app).
  apply (Hn x); [apply list_elem_of_fmap; by exists (k, x)|]. rewrite <- !list_fmap_compose.
  apply elem_of_app. destruct l; [left|right]; apply list_elem_of_fmap; by exists x.
Qed.

(** A chain is not touched by what happens to a request outside, or to the fields of one
    inside that are not its link. *)
Lemma chain_update h p c x r r' :
  (x ∉ owned c \/ as_next r' = as_next r) -> h !! x = Some r -> as_status r = TP_ASYNC_PENDING ->
  chain_ok h p c -> chain_ok (<[x := r']> h) p c.
Proof.
  intros Hx Hr Hs.
  assert (Hp : forall l p q, (forall y, y ∈ l -> y ∈ owned c) -> path h p l q -> path (<[x := r']> h) p l q).
  { intros l p' q Hl. apply path_ext. intros y ry Hy Hry. destruct (decide (y = x)) as [->|Hne].
    - exists r'. rewrite lookup_insert_eq. split; [done|]. destruct Hx as [Hx|Hx]; [by apply Hl in Hy|congruence].
    - exists ry. by rewrite lookup_insert_ne. }
  destruct c as [l|l1 y l2]; cbn [chain_ok owned] in *; [by apply Hp|]. intros (H1 & H2 & H3).
  assert (y <> x) by (intros ->; by destruct (H3 r Hr)). split_and!.
  - apply Hp; [|done]. intros z Hz. apply elem_of_app. by left.
  - apply Hp; [|done]. intros z Hz. apply elem_of_app. by right.
  - intros ry. rewrite lookup_insert_ne by done. apply H3.
Qed.

Lemma update_ok hand ch s x r r' :
  conductor_ok hand ch s -> me_asyncs s !! x = Some r -> as_status r = TP_ASYNC_PENDING ->
  as_status r' = TP_ASYNC_PENDING -> same_request r r' ->
  (as_next r' = as_next r \/ exists k, (k, x) ∈ hand) -> conductor_ok hand ch (with_async x r' s).
Proof.
  intros [Hm (c & q & Hc & Hq & Hch & Hho) Hhole] Hx Hs Hs' Hsame Hn. split; [| |done].
  - eapply memory_update; [done..|]. by rewrite Hs'.
  - exists c, q. split_and!; [done|done| |destruct Hsame; by eapply holding_update].
    intros k. eapply chain_update; [|done|done|apply Hch]. destruct Hn as [Hn|[k' Hk]]; [by right|].
    left. eapply owned_once; [apply (ho_once _ _ Hho)|done].
Qed.

(** An answer in hand: the request goes back to its thread. *)
Lemma answered_in_hand hand ch s k x r r' :
  conductor_ok ((k, x) :: hand) ch s -> me_asyncs s !! x = Some r -> as_status r = TP_ASYNC_PENDING ->
  as_status r' <> TP_ASYNC_PENDING -> same_request r r' ->
  (as_status r' = TP_ASYNC_COMPLETE -> is_Some (as_result r)) -> conductor_ok hand ch (with_async x r' s).
Proof.
  intros [Hm (c & q & Hc & Hq & Hch & Hho) Hhole] Hx Hs Hs' Hsame Hcomp. split; [by eapply memory_update| |done].
  exists c, q. split_and!; [done|done| |].
  - intros k'. eapply chain_update; [|done|done|apply Hch]. left.
    eapply (owned_once q ((k, x) :: hand)); [apply (ho_once _ _ Hho)|by left].
  - eapply holding_answered; [|done|done]. by rewrite <- held_hand.
Qed.


(** Where a list goes on behind [l1]. *)
Definition cursor_at (k : kind) (l1 : list addr) : place :=
  match last l1 with Some y => Link y | None => Head k end.

Lemma path_cursor h p l1 l2 :
  path h p (l1 ++ l2) NULL ->
  match last l1 with
  | None => p = head l2
  | Some y => exists r, h !! y = Some r /\ as_next r = head l2
  end.
Proof.
  destruct l1 as [|y l1 _] using rev_ind; [apply path_head|]. rewrite last_snoc, <- app_assoc, path_app.
  intros (m & _ & -> & r & Hr & Hp%path_head). by exists r.
Qed.

(** In list [k], [x] is answered: only the link to it remains. *)
Lemma answered_in_chain hand ch s k l1 x l2 r r' :
  conductor_ok hand ch s -> ch k = Whole (l1 ++ x :: l2) -> me_asyncs s !! x = Some r ->
  as_status r' <> TP_ASYNC_PENDING -> same_request r r' -> as_next r' = as_next r ->
  (as_status r' = TP_ASYNC_COMPLETE -> is_Some (as_result r)) ->
  conductor_ok hand (<[k := Broken l1 x l2]> ch) (with_async x r' s).
Proof.
  intros [Hm (c & q & Hc & Hq & Hch & Hho) Hhole] Hk Hx Hs' Hsame Hn Hcomp.
  destruct (held_split q hand ch k (Broken l1 x l2)) as (rest & P1 & P2 & _). rewrite Hk in P1.
  assert (P : held q hand ch ≡ₚ (k, x) :: held q hand (<[k := Broken l1 x l2]> ch)).
  { rewrite P1, P2. cbn [owned]. rewrite !fmap_app, <- !app_assoc. cbn. symmetry. apply Permutation_middle. }
  rewrite P in Hho. pose proof (ho_once _ _ Hho) as Hnd. cbn in Hnd. apply NoDup_cons in Hnd as [Hnd _].
  assert (Hout : forall k', (x ∉ owned ((<[k := Broken l1 x l2]> ch) k'))).
  { intros k' Hin%(owned_held q hand). apply Hnd, list_elem_of_fmap. by exists (k', x). }
  destruct (ho_pending _ _ Hho k x) as (r0 & Hr0 & Hs & _); [by left|]. rewrite Hx in Hr0. injection Hr0 as <-.
  split; [by eapply memory_update| |].
  - exists c, q. split_and!; [done|done| |by eapply holding_answered]. intros k'. destruct (decide (k' = k)) as [->|Hne].
    + pose proof (Hout k) as Ho. pose proof (Hch k) as Hp. rewrite Hk in Hp. cbn [chain_ok] in Hp.
      rewrite fn_lookup_insert in *. cbn [owned] in Ho. rewrite elem_of_app in Ho.
      apply path_app in Hp as (m & H1 & -> & rx & Hrx & H2). rewrite Hx in Hrx. injection Hrx as <-.
      split_and!; [apply path_insert; tauto|apply path_insert; [tauto|]; by rewrite <- (path_head _ _ _ H2)|].
      intros ry Hry. change (<[x := r']> (me_asyncs s) !! x = Some ry) in Hry. rewrite lookup_insert_eq in Hry.
      injection Hry as <-. split; [done|]. rewrite Hn. by eapply path_head.
    + specialize (Hout k'). rewrite fn_lookup_insert_ne in * by done.
      eapply chain_update; [by left|done|done|apply Hch].
  - intros k' l1' x' l2'. destruct (decide (k' = k)) as [->|Hne].
    + rewrite fn_lookup_insert. intros [= <- <- <-]. exact (mo_fresh _ Hm x r Hx).
    + rewrite fn_lookup_insert_ne by done. apply Hhole.
Qed.

Definition store_at (c : place) (p : ptr addr) (s : store) : option store :=
  match c with
  | Head k => st ← co_state (me_conductor s); Some (with_state (set_pending k p st) s)
  | Link y => r ← me_asyncs s !! y; Some (with_async y (r <| as_next := p |>) s)
  end.

Lemma pending_set k p c k' : pending k' (set_pending k p c) = if decide (k' = k) then p else pending k' c.
Proof. by destruct c, k, k'. Qed.

Lemma queue_set k p c : cs_command_queue (set_pending k p c) = cs_command_queue c.
Proof. by destruct c, k. Qed.

Lemma same_next r p : same_request r (r <| as_next := p |>).
Proof. by destruct r. Qed.

(** Other chains do not have the links of this one. *)
Lemma owned_apart q hand ch k k' x :
  NoDup ((held q hand ch).*2) -> x ∈ owned (ch k) -> k' <> k -> (x ∉ owned (ch k')).
Proof.
  intros Hn Hk Hne Hk'. unfold held in Hn. rewrite !fmap_app, <- !list_fmap_compose in Hn.
  apply NoDup_app in Hn as (_ & _ & (_ & _ & (_ & Hn & _)%NoDup_app)%NoDup_app).
  assert (E : forall k l, x ∈ l -> x ∈ (snd ∘ (pair (k : kind))) <$> l)
    by (intros; apply list_elem_of_fmap; by exists x).
  destruct k, k'; try done; by apply (Hn x); apply E.
Qed.

Lemma owned_NoDup h q hand ch k : holding h (held q hand ch) -> NoDup (owned (ch k)).
Proof.
  intros [Hn _ _]. unfold held in Hn. rewrite !fmap_app, <- !list_fmap_compose in Hn.
  assert (E : forall k l, (snd ∘ (pair (k : kind))) <$> l = (l : list addr)) by (intros; apply list_fmap_id).
  rewrite !E in Hn. apply NoDup_app in Hn as (_ & _ & (_ & _ & (H1 & _ & H2)%NoDup_app)%NoDup_app). by destruct k.
Qed.

(** One list gets other links, and with them other requests. *)
Lemma relinked hand hand' ch s s' k c :
  conductor_ok hand ch s -> memory_ok s' -> (me_fresh s <= me_fresh s')%nat ->
  (exists st st', co_state (me_conductor s) = Some st /\ co_state (me_conductor s') = Some st' /\
    cs_command_queue st' = cs_command_queue st /\
    forall q, cs_command_queue st = cmd_of <$> q -> chain_ok (me_asyncs s) (pending k st) (ch k) ->
      holding (me_asyncs s) (held q hand ch) ->
      chain_ok (me_asyncs s') (pending k st') (Whole c) /\
      (forall k', k' <> k -> chain_ok (me_asyncs s) (pending k' st) (ch k') ->
        chain_ok (me_asyncs s') (pending k' st') (ch k')) /\
      holding (me_asyncs s') (held q hand' (<[k := Whole c]> ch))) ->
  conductor_ok hand' (<[k := Whole c]> ch) s'.
Proof.
  intros [_ (c0 & q & Hc & Hq & Hch & Hho) Hhole] Hm Hf (st & st' & Hst & Hst' & Eq & H).
  rewrite Hc in Hst. injection Hst as <-. destruct (H q Hq (Hch k) Hho) as (H1 & H2 & H3). split; [done| |].
  - exists st', q. rewrite Eq. split_and!; [done..| |done]. intros k'. destruct (decide (k' = k)) as [->|Hne].
    + by rewrite fn_lookup_insert.
    + rewrite fn_lookup_insert_ne by done. by apply H2.
  - intros k' l1 x l2. destruct (decide (k' = k)) as [->|Hne]; [by rewrite fn_lookup_insert|].
    rewrite fn_lookup_insert_ne by done. intros E%Hhole. lia.
Qed.

Lemma cursor_snoc k l y : cursor_at k (l ++ [y]) = Link y.
Proof. unfold cursor_at. by rewrite last_snoc. Qed.

Lemma relink_request hand ch s k y r p :
  conductor_ok hand ch s -> y ∈ owned (ch k) -> me_asyncs s !! y = Some r ->
  memory_ok (with_async y (r <| as_next := p |>) s) /\ as_status r = TP_ASYNC_PENDING /\
  (forall q, holding (me_asyncs s) (held q hand ch) ->
    holding (<[y := r <| as_next := p |>]> (me_asyncs s)) (held q hand ch)) /\
  forall k' pl, k' <> k -> chain_ok (me_asyncs s) pl (ch k') ->
    chain_ok (<[y := r <| as_next := p |>]> (me_asyncs s)) pl (ch k').
Proof.
  intros [Hm (c & q & Hc & Hq & Hch & Hho) Hhole] Hy Hr.
  destruct (ho_pending _ _ Hho k y (owned_held q hand ch k y Hy)) as (r' & Hr' & Hs & _).
  rewrite Hr in Hr'. injection Hr' as <-. assert (Hs' : as_status (r <| as_next := p |>) = TP_ASYNC_PENDING) by by destruct r.
  split_and!; [|done| |].
  - eapply memory_update; [done..|apply same_next|]. by rewrite Hs'.
  - intros q' Hq'. refine (holding_update _ _ y r _ Hq' Hr Hs Hs' _ _); by destruct r.
  - intros k' pl Hne Hp. eapply chain_update; [left|done|done|exact Hp].
    eapply owned_apart; [apply (ho_once _ _ Hho)|exact Hy|done].
Qed.

Lemma unlink_ok hand ch s k l1 x l2 :
  conductor_ok hand ch s -> ch k = Broken l1 x l2 ->
  exists s', store_at (cursor_at k l1) (head l2) s = Some s' /\
    conductor_ok hand (<[k := Whole (l1 ++ l2)]> ch) s'.
Proof.
  intros Hok Hk. pose proof Hok as [Hm (c & q & Hc & Hq & Hch & Hho) Hhole].
  assert (P : forall q, held q hand (<[k := Whole (l1 ++ l2)]> ch) ≡ₚ held q hand ch).
  { intros q'. destruct (held_split q' hand ch k (Whole (l1 ++ l2))) as (rest & P1 & P2 & _).
    by rewrite P1, P2, Hk. }
  pose proof (Hch k) as Hp. rewrite Hk in Hp. destruct Hp as (H1 & H2 & H3).
  destruct l1 as [|y l1 _] using rev_ind.
  - cbn [cursor_at last store_at]. rewrite Hc. cbn. eexists. split; [done|].
    eapply relinked; [exact Hok|by destruct Hm; split|apply Nat.le_refl|].
    exists c, (set_pending k (head l2) c). split_and!; [done|done|by apply queue_set|].
    intros q' Hq' _ Hho'. split_and!; [by rewrite pending_set, decide_True| |by rewrite P].
    intros k' Hne. by rewrite pending_set, decide_False.
  - rewrite cursor_snoc. cbn [store_at].
    assert (Hy : y ∈ owned (ch k)) by (rewrite Hk; cbn; rewrite !elem_of_app; left; right; by left).
    destruct (ho_pending _ _ Hho k y (owned_held q hand ch k y Hy)) as (r & Hr & Hs & _). rewrite Hr. cbn.
    destruct (relink_request hand ch s k y r (head l2) Hok Hy Hr) as (M1 & _ & M3 & M4).
    eexists. split; [done|]. eapply relinked; [exact Hok|exact M1|apply Nat.le_refl|].
    exists c, c. split_and!; [done..|]. intros q' Hq' _ Hho'. split_and!; [|intros; by apply M4|rewrite P; by apply M3].
    cbn [chain_ok]. apply path_app. exists (head l2).
    assert (Hn : NoDup ((l1 ++ [y]) ++ l2)).
    { apply (owned_NoDup _ q hand ch k) in Hho. by rewrite Hk in Hho. }
    apply NoDup_app in Hn as (Hn1 & Hn2 & _). apply NoDup_app in Hn1 as (_ & Hn1 & _). split.
    + eapply path_relink; [|done|exact H1]. intros Hin. apply (Hn1 y Hin). by left.
    + apply path_insert; [|done]. apply Hn2, elem_of_app. right. by left.
Qed.

Lemma link_ok hand ch s k l x r :
  conductor_ok ((k, x) :: hand) ch s -> ch k = Whole l -> me_asyncs s !! x = Some r -> as_next r = head l ->
  exists s', store_at (Head k) (Some x) s = Some s' /\ conductor_ok hand (<[k := Whole (x :: l)]> ch) s'.
Proof.
  intros Hok Hk Hx Hn. pose proof Hok as [Hm (c & q & Hc & Hq & Hch & Hho) Hhole].
  cbn [store_at]. rewrite Hc. cbn. eexists. split; [done|].
  eapply relinked; [exact Hok|by destruct Hm; split|apply Nat.le_refl|].
  exists c, (set_pending k (Some x) c). split_and!; [done|done|by apply queue_set|].
  intros q' Hq' Hp Hho'. rewrite Hk in Hp. split_and!.
  - rewrite pending_set, decide_True by done. split; [done|]. exists r. split; [done|].
    rewrite Hn. by rewrite <- (path_head _ _ _ Hp).
  - intros k' Hne. by rewrite pending_set, decide_False.
  - destruct (held_split q' hand ch k (Whole (x :: l))) as (rest & P1 & P2 & _).
    rewrite held_hand, P1, Hk in Hho'. rewrite P2. exact Hho'.
Qed.

Lemma conductor_state_ok hand ch s c c' :
  conductor_ok hand ch s -> co_state (me_conductor s) = Some c ->
  (forall k, pending k c' = pending k c) -> cs_command_queue c' = cs_command_queue c ->
  conductor_ok hand ch (with_state c' s).
Proof.
  intros [Hm (c0 & q & Hc & Hq & Hch & Hho) Hhole] Hc0 Hp Eq. rewrite Hc in Hc0. injection Hc0 as <-.
  split; [by destruct Hm; split| |done]. exists c', q. rewrite Eq. split_and!; [done|done| |done].
  intros k. rewrite Hp. apply Hch.
Qed.

Lemma command_ok hand ch s c cmd l :
  conductor_ok hand ch s -> co_state (me_conductor s) = Some c -> cs_command_queue c = cmd :: l ->
  exists k x, cmd = cmd_of (k, x) /\ conductor_ok ((k, x) :: hand) ch (with_state (c <| cs_command_queue := l |>) s).
Proof.
  intros [Hm (c0 & q & Hc & Hq & Hch & Hho) Hhole] Hc0 Hl. rewrite Hc in Hc0. injection Hc0 as <-.
  rewrite Hl in Hq. destruct q as [|[k x] q]; [done|]. injection Hq as -> ->. exists k, x. split; [done|].
  split; [by destruct Hm; split| |done]. exists (c0 <| cs_command_queue := cmd_of <$> q |>), q.
  split_and!; [done|by destruct c0|intros k'; by destruct c0, k'; apply Hch|]. by rewrite held_hand.
Qed.

(** An answered request is not the conductor's any more. *)
Lemma release_ok hand ch s x r r' :
  conductor_ok hand ch s -> (forall k, exists l, ch k = Whole l) -> me_asyncs s !! x = Some r ->
  as_status r <> TP_ASYNC_PENDING -> as_status r' = as_status r -> same_request r r' ->
  conductor_ok hand ch (with_async x r' s).
Proof.
  intros [Hm (c & q & Hc & Hq & Hch & Hho) Hhole] Hw Hx Hs Hs' Hsame. split; [| |done].
  - eapply memory_update; [done..|]. rewrite Hs'. intros E. exact (mo_complete _ Hm x r Hx E).
  - assert (Hp : forall y ry, me_asyncs s !! y = Some ry -> as_status ry = TP_ASYNC_PENDING -> y <> x)
      by (intros y ry Hy Hsy ->; congruence).
    exists c, q. split_and!; [done|done| |].
    + intros k. destruct (Hw k) as [l El]. specialize (Hch k). pose proof (fun y => owned_held q hand ch k y) as Ho.
      rewrite El in *. cbn in *. apply path_insert; [|done]. intros Hin%Ho.
      destruct (ho_pending _ _ Hho k x Hin) as (ry & Hy & Hsy & _). congruence.
    + eapply holding_ext; [reflexivity| | |exact Hho].
      * intros y ry Hy Hsy. apply (lookup_insert_Some (me_asyncs s)). right. split; [|done].
        by apply not_eq_sym, (Hp y ry).
      * intros y ry Hy Hsy. apply (lookup_insert_Some (me_asyncs s)) in Hy as [[<- <-]|[_ Hy]]; [congruence|done].
Qed.

Definition with_wrapper (w : wrapper) (x : addr) (r : async) (s : store) : store :=
  s <| me_wrappers ::= <[me_fresh s := w]> |>
    <| me_asyncs ::= <[x := r <| as_result := Some (me_fresh s) |>]> |> <| me_fresh ::= S |>.

Lemma wrapped_ok hand ch s x r a :
  conductor_ok hand ch s -> me_asyncs s !! x = Some r -> as_status r = TP_ASYNC_PENDING ->
  conductor_ok hand ch (with_wrapper {| wr_type := as_type r; wr_aeron := a; wr_channel := as_channel r;
    wr_stream_id := as_stream_id r |} x r s).
Proof.
  intros [Hm (c & q & Hc & Hq & Hch & Hho) Hhole] Hx Hs.
  assert (Hl : forall y ry, <[x := r <| as_result := Some (me_fresh s) |>]> (me_asyncs s) !! y = Some ry ->
    y = x /\ ry = r <| as_result := Some (me_fresh s) |> \/ y <> x /\ me_asyncs s !! y = Some ry).
  { intros y ry [[<- <-]|[Hne Hy]]%lookup_insert_Some; [by left|right]. by split; [apply not_eq_sym|]. }
  assert (Hold : forall y ry w, me_asyncs s !! y = Some ry -> as_result ry = Some w -> (w < me_fresh s)%nat).
  { intros y ry w Hy Hw. destruct (mo_result _ Hm y ry w Hy Hw) as [b Hb]. by apply (mo_wrapper _ Hm) in Hb. }
  assert (Ef : as_status (r <| as_result := Some (me_fresh s) |>) = TP_ASYNC_PENDING) by by destruct r.
  split; [split| |].
  - intros y ry Hy. change (y < S (me_fresh s))%nat. apply Hl in Hy as [[-> _]|[_ Hy]].
    + apply (mo_fresh _ Hm) in Hx. lia.
    + apply (mo_fresh _ Hm) in Hy. lia.
  - intros w rw Hw. assert (exists w0, <[me_fresh s := w0]> (me_wrappers s) !! w = Some rw) as [w0 H0] by (eexists; exact Hw). change (w < S (me_fresh s))%nat.
    apply lookup_insert_Some in H0 as [[<- _]|[_ H0]]; [lia|]. apply (mo_wrapper _ Hm) in H0. lia.
  - intros y ry w Hy Hw. apply Hl in Hy as [[-> ->]|[_ Hy]].
    + destruct r. cbn in Hw. injection Hw as <-. exists a. exact (lookup_insert_eq _ _ _).
    + pose proof (Hold y ry w Hy Hw). destruct (mo_result _ Hm y ry w Hy Hw) as [b Hb]. exists b.
      etrans; [apply lookup_insert_ne; lia|exact Hb].
  - intros y z ry rz w Hy Hz Hwy Hwz. apply Hl in Hy as [[-> ->]|[Hne Hy]]; apply Hl in Hz as [[-> ->]|[Hne' Hz]]; [done|..].
    + destruct r. cbn in Hwy. injection Hwy as <-. pose proof (Hold z rz _ Hz Hwz). lia.
    + destruct r. cbn in Hwz. injection Hwz as <-. pose proof (Hold y ry _ Hy Hwy). lia.
    + exact (mo_once _ Hm y z ry rz w Hy Hz Hwy Hwz).
  - intros y ry Hy Hsy. apply Hl in Hy as [[-> ->]|[_ Hy]]; [congruence|]. exact (mo_complete _ Hm y ry Hy Hsy).
  - assert (Hin : forall k, chain_ok (me_asyncs (with_async x (r <| as_result := Some (me_fresh s) |>) s)) (pending k c) (ch k)).
    { intros k. eapply chain_update; [right|done|done|apply Hch]. by destruct r. }
    exists c, q. split_and!; [done|done|exact Hin|].
    refine (holding_update _ _ x r _ Hho Hx Hs Ef _ _); by destruct r.
  - intros k l1 y l2 Hy%Hhole. change (y < S (me_fresh s))%nat. lia.
Qed.
