(* ===== verification/ConductorSafety.v ===== *)
(** * ConductorSafety: what the conductor does to shared requests, step by step

    [safe] is the weakest precondition of a program of the conductor that other
    threads interrupt between any two steps; with [alone] set they do not, which
    is the mode of the agent invoker.  Faults are only allowed where [may_fault] says so. *)

From Stdlib Require Import ZArith Lia Bool Ascii String.
From stdpp Require Import strings list gmap functions relations.
From coqutil Require Import Datatypes.RecordSetters.
From S2P Require Import Prelude Sbe Uri Shm Conductor ConductorThreads.
Import TriangleBracketNotations.

#[local] Open Scope Z_scope.
#[local] Open Scope list_scope.
#[local] Open Scope tp_scope.

(** The pollers that were called. *)
Definition polled (l : list conductor_event) : list (Z * Z) :=
  omap (fun e => match e with Polled p c => Some (p, c) | _ => None end) l.

Definition command_queue (s : store) : list tp_client_cmd_t :=
  match co_state (me_conductor s) with Some c => cs_command_queue c | NULL => [] end.

Definition pollers (s : store) : list tp_client_poller_entry_t :=
  match co_state (me_conductor s) with Some c => cs_pollers c | NULL => [] end.

Definition depth (s : store) : Z :=
  match co_state (me_conductor s) with Some c => cs_do_work_depth c | NULL => 0 end.

(** Entries have addresses of their own. *)
Record pollers_ok (s : store) : Prop := {
  po_fresh : Forall (fun e => pl_id e < me_fresh s)%nat (pollers s);
  po_once : NoDup (pl_id <$> pollers s);
}.

Definition sound (s : store) : Prop := exists hand ch, conductor_ok hand ch s.

Definition whole (ch : kind -> chain) : Prop := forall k, exists l, ch k = Whole l.

Section Safety.
Context (W : outside) (alone tame : bool).

Definition interference : relation store := if alone then eq else rtc (client_step W).

Definition may_fault (l : access) : Prop :=
  match l with Plain => False | Unlinking => alone = false | NextPoller => tame = false end.

Fixpoint safe {A} (p : prog A) (s : store) (Q : A -> store -> Prop) : Prop :=
  sound s /\
  match p with
  | Ret a => Q a s
  | Step l f k => forall s1, interference s s1 ->
      match f s1 with Some (v, s2) => safe (k v) s2 Q | None => may_fault l end
  end.

Lemma safe_bind {A B} (p : prog A) (k : A -> prog B) : forall s Q,
  safe p s (fun a s' => safe (k a) s' Q) -> safe (bind p k) s Q.
Proof.
  induction p as [a|V l f k' IH]; intros s Q [Hs H]; [done|]. cbn. split; [done|].
  intros s1 Hi. specialize (H s1 Hi). destruct (f s1) as [[v s2]|]; [|done]. by apply IH.
Qed.

Lemma safe_mono {A} (p : prog A) : forall s Q Q',
  (forall a s', Q a s' -> Q' a s') -> safe p s Q -> safe p s Q'.
Proof.
  induction p as [a|V l f k' IH]; intros s Q Q' HQ [Hs H]; (split; [done|]); [by apply HQ|].
  intros s1 Hi. specialize (H s1 Hi). destruct (f s1) as [[v s2]|]; [|done]. by eapply IH.
Qed.

#[local] Arguments safe {A} p s Q : simpl never.

(** What remains as it is while the conductor is at work. *)
Record kept (s s' : store) : Prop := {
  kp_state : is_Some (co_state (me_conductor s)) -> is_Some (co_state (me_conductor s'));
  kp_aeron : co_aeron (me_conductor s') = co_aeron (me_conductor s);
  kp_pollers : pollers_ok s -> pollers_ok s';
  kp_tame : tame = true -> exists new, pollers s' = new ++ pollers s;
}.

(** A poller does not call pollers. *)
Record acted (s s' : store) : Prop := {
  ac_kept : kept s s';
  ac_depth : depth s' = depth s;
  ac_polled : polled (me_events s') = polled (me_events s);
}.

(** The work on requests does not touch the pollers. *)
Record busy (s s' : store) : Prop := {
  bs_acted : acted s s';
  bs_pollers : pollers s' = pollers s;
}.

Record calm (s s' : store) : Prop := {
  cm_busy : busy s s';
  cm_alone : alone = true -> command_queue s' = command_queue s;
}.

#[export] Instance kept_preorder : PreOrder kept.
Proof.
  split.
  - intros s. split; [done..|]. intros _. by exists [].
  - intros s1 s2 s3 [A1 B1 D1 E1] [A2 B2 D2 E2]. split; [auto|congruence|auto|].
    intros Ht. destruct (E1 Ht) as [n1 P1]. destruct (E2 Ht) as [n2 P2]. exists (n2 ++ n1).
    by rewrite P2, P1, app_assoc.
Qed.

#[export] Instance acted_preorder : PreOrder acted.
Proof.
  split; [by intros s; split|]. intros s1 s2 s3 [A1 B1 C1] [A2 B2 C2]. split; [by etrans|congruence..].
Qed.

#[export] Instance busy_preorder : PreOrder busy.
Proof.
  split; [by intros s; split|]. intros s1 s2 s3 [A1 B1] [A2 B2]. split; [by etrans|congruence].
Qed.

#[export] Instance calm_preorder : PreOrder calm.
Proof.
  split; [by intros s; split|]. intros s1 s2 s3 [A1 C1] [A2 C2]. split; [by etrans|intros Ha; by rewrite C2, C1].
Qed.

(** The pollers and the depth are as before, and no other entry was called. *)
Lemma busy_intro s s' :
  (is_Some (co_state (me_conductor s)) -> is_Some (co_state (me_conductor s'))) ->
  co_aeron (me_conductor s') = co_aeron (me_conductor s) -> depth s' = depth s -> pollers s' = pollers s ->
  polled (me_events s') = polled (me_events s) -> (me_fresh s <= me_fresh s')%nat -> busy s s'.
Proof.
  intros Hs Ha Hd Hp He Hf. split; [split|]; [split|..]; [done|done| |by exists []|done..].
  intros [H1 H2]. split; rewrite Hp; [|done]. eapply Forall_impl; [exact H1|]. intros e He'. cbn in *. lia.
Qed.

(** Other threads between two steps. *)
Record meanwhile (s s' : store) : Prop := {
  mw_stable : stable s s';
  mw_calm : calm s s';
  mw_alone : alone = true -> s' = s;
}.

Lemma stable_busy s s' : is_Some (co_state (me_conductor s)) -> stable s s' -> busy s s'.
Proof.
  intros [c Hc] [_ Hcond Hae Hf _ Hev]. destruct (Hcond c Hc) as (c' & Hc' & [Hp Hpl Hd]).
  apply busy_intro; [by rewrite Hc'|done| | |by rewrite Hev|done].
  - unfold depth. by rewrite Hc, Hc'.
  - unfold pollers. by rewrite Hc, Hc'.
Qed.

Lemma ok_open hand ch s : conductor_ok hand ch s -> is_Some (co_state (me_conductor s)).
Proof. intros [_ (c & _ & -> & _) _]. by eexists. Qed.

Lemma interference_ok hand ch s s1 :
  conductor_ok hand ch s -> interference s s1 -> conductor_ok hand ch s1 /\ meanwhile s s1.
Proof.
  intros Hok. unfold interference. pose proof (ok_open _ _ _ Hok) as Hs. destruct alone eqn:Ha.
  - intros <-. split; [done|]. split; [apply stable_refl|done|done].
  - intros Hr. destruct (clients_ok W _ _ _ _ Hok Hr) as [H1 H2]. split; [done|].
    split; [done|split; [by apply stable_busy|congruence]|congruence].
Qed.

(** One step; what is said of [s1] is what the others left. *)
Lemma safe_step {V} l (f : store -> option (V * store)) Q hand ch s :
  conductor_ok hand ch s ->
  (forall s1, conductor_ok hand ch s1 -> meanwhile s s1 ->
    match f s1 with Some (v, s2) => sound s2 /\ Q v s2 | None => may_fault l end) ->
  safe (step l f) s Q.
Proof.
  intros Hok H. split; [by exists hand, ch|]. intros s1 Hi.
  destruct (interference_ok _ _ _ _ Hok Hi) as [H1 M1]. specialize (H s1 H1 M1).
  destruct (f s1) as [[v s2]|]; done.
Qed.

(** ** Single accesses *)

Lemma calm_memory s s' :
  me_conductor s' = me_conductor s -> me_events s' = me_events s -> (me_fresh s <= me_fresh s')%nat -> calm s s'.
Proof.
  intros Hc He Hf. split; [|intros _; unfold command_queue; by rewrite Hc].
  apply busy_intro; unfold depth, pollers; by rewrite ?Hc, ?He.
Qed.

Lemma calm_async x r s : calm s (with_async x r s).
Proof. by apply calm_memory. Qed.

Lemma calm_state c c' s :
  co_state (me_conductor s) = Some c -> cs_pollers c' = cs_pollers c -> cs_do_work_depth c' = cs_do_work_depth c ->
  cs_command_queue c' = cs_command_queue c -> calm s (with_state c' s).
Proof.
  intros Hc Hp Hd Hq. split; [|intros _; unfold command_queue; cbn; by rewrite Hc, Hq].
  apply busy_intro; [done|done| | |done|apply le_n].
  - unfold depth. cbn. by rewrite Hc, Hd.
  - unfold pollers. cbn. by rewrite Hc, Hp.
Qed.

Lemma calm_wrapper w x r s : calm s (with_wrapper w x r s).
Proof. apply calm_memory; [done..|]. apply le_S, le_n. Qed.

Lemma ask_ok hand ch s : conductor_ok hand ch s -> conductor_ok hand ch (s <| me_tick ::= S |>).
Proof. intros Hok. by apply (client_step_ok W hand ch s); [|constructor]. Qed.

Lemma calm_ask s : calm s (s <| me_tick ::= S |>).
Proof. by apply calm_memory. Qed.

(** A step that only reads: those that wait are as they were. *)
Record quiet (s s' : store) : Prop := {
  qu_calm : calm s s';
  qu_waits : forall x r, me_asyncs s !! x = Some r -> as_status r = TP_ASYNC_PENDING -> me_asyncs s' !! x = Some r;
}.

#[export] Instance quiet_preorder : PreOrder quiet.
Proof.
  split; [by intros s; split|]. intros s1 s2 s3 [A1 B1] [A2 B2]. split; [by etrans|auto].
Qed.

Lemma quiet_meanwhile s s' : meanwhile s s' -> quiet s s'.
Proof. intros [M1 M2 _]. split; [done|]. apply (sb_pending _ _ M1). Qed.

Lemma safe_ask {V} (f : nat -> V) Q hand ch s :
  conductor_ok hand ch s ->
  (forall t s2, conductor_ok hand ch s2 -> quiet s s2 -> Q (f t) s2) ->
  safe (ask f) s Q.
Proof.
  intros Hok H. eapply safe_step; [done|]. intros s1 H1 M1. cbn. apply (ask_ok _ _ s1) in H1.
  split; [by exists hand, ch|]. apply H; [done|]. etrans; [by apply quiet_meanwhile|].
  split; [apply calm_ask|done].
Qed.

(** A waiting request is read. *)
Lemma safe_load x r Q hand ch s :
  conductor_ok hand ch s -> me_asyncs s !! x = Some r -> as_status r = TP_ASYNC_PENDING ->
  (forall s2, conductor_ok hand ch s2 -> quiet s s2 -> Q r s2) ->
  safe (load_async Plain x) s Q.
Proof.
  intros Hok Hx Hs H. eapply safe_step; [done|]. intros s1 H1 M1%quiet_meanwhile.
  rewrite (qu_waits _ _ M1 x r Hx Hs). cbn. split; [by exists hand, ch|]. by apply H.
Qed.

(** A waiting request is changed. *)
Lemma safe_store x r f Q hand ch hand' ch' s :
  conductor_ok hand ch s -> me_asyncs s !! x = Some r -> as_status r = TP_ASYNC_PENDING ->
  (forall s1, conductor_ok hand ch s1 -> me_asyncs s1 !! x = Some r ->
    conductor_ok hand' ch' (with_async x (f r) s1)) ->
  (forall s2, conductor_ok hand' ch' s2 -> calm s s2 -> me_asyncs s2 !! x = Some (f r) -> Q tt s2) ->
  safe (store_async Plain x f) s Q.
Proof.
  intros Hok Hx Hs Hf H. eapply safe_step; [done|]. intros s1 H1 [M1 M2 _].
  pose proof (sb_pending _ _ M1 x r Hx Hs) as Hx1. rewrite Hx1. cbn. specialize (Hf s1 H1 Hx1).
  split; [by exists hand', ch'|]. apply H; [done|etrans; [exact M2|apply calm_async]|].
  exact (lookup_insert_eq _ _ _).
Qed.

Lemma safe_state {V} (f : tp_client_conductor_state_t -> V * tp_client_conductor_state_t) Q hand ch s :
  conductor_ok hand ch s ->
  (forall s1 c, conductor_ok hand ch s1 -> meanwhile s s1 -> co_state (me_conductor s1) = Some c ->
    sound (with_state (snd (f c)) s1) /\ Q (fst (f c)) (with_state (snd (f c)) s1)) ->
  safe (on_state f) s Q.
Proof.
  intros Hok H. eapply safe_step; [done|]. intros s1 H1 M1. destruct (ok_open _ _ _ H1) as [c Hc].
  specialize (H s1 c H1 M1 Hc). cbn beta. rewrite Hc. by destruct (f c).
Qed.

Lemma with_state_same s c : co_state (me_conductor s) = Some c -> with_state c s = s.
Proof. destruct s as [[? ? ? ? ?] ? ? ? ? ?]. cbn. by intros ->. Qed.

Lemma set_calm k p c s : co_state (me_conductor s) = Some c -> calm s (with_state (set_pending k p c) s).
Proof. intros Hc. by eapply calm_state; [exact Hc|destruct c, k..]. Qed.

(** The next request of a list. *)
Lemma safe_load_place k l1 l2 Q hand ch s :
  conductor_ok hand ch s -> ch k = Whole (l1 ++ l2) ->
  (forall s2, conductor_ok hand ch s2 -> quiet s s2 -> Q (head l2) s2) ->
  safe (load_place (cursor_at k l1)) s Q.
Proof.
  intros Hok Hk H. destruct l1 as [|y l1 _] using rev_ind.
  - cbn. eapply safe_state; [done|]. intros s1 c H1 M1 Hc. cbn [fst snd]. rewrite with_state_same by done.
    split; [by exists hand, ch|]. pose proof H1 as [_ (c0 & q & Hc0 & _ & Hch & _) _]. rewrite Hc in Hc0.
    injection Hc0 as <-. specialize (Hch k). rewrite Hk in Hch. apply path_head in Hch. cbn in Hch. rewrite Hch.
    apply H; [done|by apply quiet_meanwhile].
  - rewrite cursor_snoc. cbn [load_place]. pose proof Hok as [_ (c & q & Hc & _ & Hch & Hho) _].
    assert (Hy : y ∈ owned (ch k)) by (rewrite Hk; cbn; rewrite !elem_of_app; left; right; by left).
    destruct (ho_pending _ _ Hho k y (owned_held q hand ch k y Hy)) as (r & Hr & Hs & _).
    apply safe_bind. eapply safe_load; [done..|]. intros s2 H2 C2. split; [by exists hand, ch|].
    specialize (Hch k). rewrite Hk in Hch. apply path_cursor in Hch. rewrite last_snoc in Hch.
    destruct Hch as (r' & Hr' & En). rewrite Hr in Hr'. injection Hr' as <-. rewrite En. by apply H.
Qed.

Lemma safe_store_place pl p Q hand ch hand' ch' s :
  conductor_ok hand ch s ->
  (forall s1, conductor_ok hand ch s1 -> meanwhile s s1 ->
    exists s2, store_at pl p s1 = Some s2 /\ conductor_ok hand' ch' s2 /\ Q tt s2) ->
  safe (store_place pl p) s Q.
Proof.
  intros Hok H. destruct pl as [k|y]; cbn.
  - eapply safe_state; [done|]. intros s1 c H1 M1 Hc. destruct (H s1 H1 M1) as (s2 & E2 & H2 & HQ).
    cbn in E2. rewrite Hc in E2. injection E2 as <-. split; [by exists hand', ch'|done].
  - eapply safe_step; [done|]. intros s1 H1 M1. destruct (H s1 H1 M1) as (s2 & E2 & H2 & HQ).
    cbn in E2. destruct (me_asyncs s1 !! y); cbn in *; [|done]. injection E2 as <-.
    split; [by exists hand', ch'|done].
Qed.

(** ** Answers *)

(** Whoever gives the answer, the request is then not his any more. *)
Definition answers (hand : list (kind * addr)) (ch : kind -> chain) (hand' : list (kind * addr))
    (ch' : kind -> chain) (x : addr) : Prop :=
  forall s r r', conductor_ok hand ch s -> me_asyncs s !! x = Some r -> as_status r = TP_ASYNC_PENDING ->
    as_status r' <> TP_ASYNC_PENDING -> same_request r r' -> as_next r' = as_next r ->
    (as_status r' = TP_ASYNC_COMPLETE -> is_Some (as_result r)) -> conductor_ok hand' ch' (with_async x r' s).

Record answered (x : addr) (s : store) : Prop := {
  aw_old : (x < me_fresh s)%nat;
  aw_status : forall r, me_asyncs s !! x = Some r -> as_status r <> TP_ASYNC_PENDING;
  aw_alone : alone = true -> is_Some (me_asyncs s !! x);
}.

Lemma answered_meanwhile x s s' : answered x s -> meanwhile s s' -> answered x s'.
Proof.
  intros [H1 H2 H3] [M1 M2 M3]. split.
  - pose proof (sb_fresh _ _ M1). lia.
  - intros r Hr. apply H2. by apply (sb_old _ _ M1).
  - intros Ha. rewrite (M3 Ha). by apply H3.
Qed.

Lemma answered_insert x r s :
  (x < me_fresh s)%nat -> as_status r <> TP_ASYNC_PENDING -> answered x (with_async x r s).
Proof.
  intros Hx Hs. assert (E : me_asyncs (with_async x r s) !! x = Some r) by exact (lookup_insert_eq _ _ _).
  split; [done| |by exists r]. intros r' Hr'. by pose proof (eq_trans (eq_sym E) Hr') as [= <-].
Qed.

(** The status is the last thing that is written. *)
Lemma safe_answer x r f Q hand ch hand' ch' s :
  conductor_ok hand ch s -> me_asyncs s !! x = Some r -> as_status r = TP_ASYNC_PENDING ->
  answers hand ch hand' ch' x -> as_status (f r) <> TP_ASYNC_PENDING -> same_request r (f r) ->
  as_next (f r) = as_next r -> (as_status (f r) = TP_ASYNC_COMPLETE -> is_Some (as_result r)) ->
  (forall s', conductor_ok hand' ch' s' -> calm s s' -> answered x s' -> Q tt s') ->
  safe (store_async Plain x f) s Q.
Proof.
  intros Hok Hx Hs Ha Hs' Hsame Hn Hc H. eapply safe_step; [done|]. intros s1 H1 [M1 M2 _].
  pose proof (sb_pending _ _ M1 x r Hx Hs) as Hx1. rewrite Hx1. cbn.
  assert (H2 : conductor_ok hand' ch' (with_async x (f r) s1)) by by eapply Ha.
  split; [by exists hand', ch'|]. apply H; [done|etrans; [exact M2|apply calm_async]|].
  apply answered_insert; [|done]. exact (mo_fresh _ (ok_memory _ _ _ H1) x r Hx1).
Qed.

Lemma safe_fail x r e Q hand ch hand' ch' s :
  conductor_ok hand ch s -> me_asyncs s !! x = Some r -> as_status r = TP_ASYNC_PENDING ->
  answers hand ch hand' ch' x ->
  (forall s', conductor_ok hand' ch' s' -> calm s s' -> answered x s' -> Q tt s') ->
  safe (async_fail (Some x) e) s Q.
Proof.
  intros Hok Hx Hs Ha H. cbn [async_fail]. apply safe_bind.
  eapply (safe_store x r _ _ hand ch hand ch); [done..| |].
  - intros s1 H1 Hx1. eapply update_ok; [done|exact Hx1|done|by destruct r..|]. left. by destruct r.
  - intros s2 H2 C2 Hx2. eapply safe_answer; [done|exact Hx2|by destruct r|done|by destruct r..|].
    intros s3 H3 C3. apply H; [done|by etrans].
Qed.

Lemma answers_hand hand ch k x : answers ((k, x) :: hand) ch hand ch x.
Proof. intros s r r' Hok Hx Hs Hs' Hsame Hn Hc. by eapply answered_in_hand. Qed.

Lemma answers_chain hand ch k l1 x l2 :
  ch k = Whole (l1 ++ x :: l2) -> answers hand ch hand (<[k := Broken l1 x l2]> ch) x.
Proof. intros Hk s r r' Hok Hx Hs Hs' Hsame Hn Hc. by eapply answered_in_chain. Qed.

(** ** Starting requests *)

Lemma whole_insert ch k l : whole ch -> whole (<[k := Whole l]> ch).
Proof.
  intros Hw k'. destruct (decide (k' = k)) as [->|Hne]; [rewrite fn_lookup_insert; by exists l|].
  rewrite fn_lookup_insert_ne by done. apply Hw.
Qed.

(** How many requests the lists have. *)
Definition total (ch : kind -> chain) : nat :=
  length (owned (ch TP_CLIENT_CMD_ADD_PUBLICATION)) + length (owned (ch TP_CLIENT_CMD_ADD_SUBSCRIPTION)).

Lemma total_insert ch k x l : ch k = Whole l -> total (<[k := Whole (x :: l)]> ch) = S (total ch).
Proof.
  intros Hl. unfold total. destruct k; rewrite fn_lookup_insert, fn_lookup_insert_ne, Hl by done; cbn; lia.
Qed.

(** A request in hand goes into its list. *)
Lemma enqueue_safe k x r Q hand ch s :
  conductor_ok ((k, x) :: hand) ch s -> whole ch -> me_asyncs s !! x = Some r -> as_status r = TP_ASYNC_PENDING ->
  (forall ch' s', conductor_ok hand ch' s' -> whole ch' -> calm s s' -> (total ch' <= S (total ch))%nat -> Q tt s') ->
  safe (let> first := load_place (Head k) in
        do> store_async Plain x (fun r => r <| as_next := first |>) in
        store_place (Head k) (Some x)) s Q.
Proof.
  intros Hok Hw Hx Hs H. destruct (Hw k) as [l Hl].
  apply safe_bind. apply (safe_load_place k [] l _ ((k, x) :: hand) ch); [done..|]. intros s4 H4 Q4.
  pose proof (qu_waits _ _ Q4 x _ Hx Hs) as Hx4.
  apply safe_bind. eapply (safe_store x r _ _ ((k, x) :: hand) ch ((k, x) :: hand) ch); [done..| |].
  { intros s5 H5 Hx5. eapply update_ok; [done|exact Hx5|done|by destruct r..|]. right. exists k. by left. }
  intros s5 H5 C5 Hx5.
  eapply (safe_store_place (Head k) (Some x) _ _ _ hand (<[k := Whole (x :: l)]> ch)); [done|]. intros s6 H6 M6.
  destruct (link_ok hand ch s6 k l x _ H6 Hl (sb_pending _ _ (mw_stable _ _ M6) _ _ Hx5 ltac:(by destruct r)))
    as (s7 & E7 & H7); [by destruct r|].
  exists s7. split; [done|]. split; [done|]. apply (H (<[k := Whole (x :: l)]> ch)); [done|by apply whole_insert| |by rewrite total_insert].
  etrans; [exact (qu_calm _ _ Q4)|]. etrans; [exact C5|]. etrans; [apply M6|].
  destruct (ok_open _ _ _ H6) as [c Hc]. cbn in E7. rewrite Hc in E7. injection E7 as <-. by apply set_calm.
Qed.

Lemma start_async_safe k x Q hand ch s :
  conductor_ok ((k, x) :: hand) ch s -> whole ch ->
  (forall ch' s', conductor_ok hand ch' s' -> whole ch' -> calm s s' -> (total ch' <= S (total ch))%nat -> Q tt s') ->
  safe (start_async W (cmd_of (k, x))) s Q.
Proof.
  intros Hok Hw H. cbn [start_async cmd_of cmd_async cmd_type fst snd].
  pose proof Hok as [_ (c & q & _ & _ & _ & Hho) _].
  destruct (ho_pending _ _ Hho k x) as (r & Hx & Hs & Hk & [chn Hchn]); [rewrite held_hand; by left|].
  apply safe_bind. eapply safe_load; [done..|]. clear c q Hho. intros s1 H1 Q1. rewrite Hchn.
  apply safe_bind. eapply safe_ask; [done|]. intros t s2 H2 Q2.
  assert (Q12 : quiet s s2) by by etrans. clear s1 H1 Q1 Q2.
  pose proof (qu_waits _ _ Q12 x r Hx Hs) as Hx2. pose proof (qu_calm _ _ Q12) as C2. destruct (ae_start W t).
  2:{ apply safe_bind. eapply safe_ask; [done|]. intros t3 s3 H3 Q3.
      eapply safe_fail; [done|exact (qu_waits _ _ Q3 x r Hx2 Hs)|done|apply answers_hand|]. intros s4 H4 C4 _.
      apply (H ch); [done|done| |lia]. etrans; [exact C2|]. etrans; [exact (qu_calm _ _ Q3)|exact C4]. }
  apply safe_bind. eapply (safe_store x r _ _ ((k, x) :: hand) ch ((k, x) :: hand) ch); [done..| |].
  { intros s3 H3 Hx3. eapply update_ok; [done|exact Hx3|done|by destruct r..|]. left. by destruct r. }
  intros s3 H3 C3 Hx3. eapply enqueue_safe; [done|done|exact Hx3|by destruct r|].
  intros ch' s' H' Hw' C' T'. apply (H ch'); [done|done| |done]. etrans; [exact C2|]. by etrans.
Qed.

Lemma safe_command (Q : option tp_client_cmd_t -> store -> Prop) hand ch s :
  conductor_ok hand ch s ->
  (forall s', conductor_ok hand ch s' -> calm s s' -> command_queue s' = [] -> Q None s') ->
  (forall k x s', conductor_ok ((k, x) :: hand) ch s' -> busy s s' ->
    (alone = true -> command_queue s = cmd_of (k, x) :: command_queue s') -> Q (Some (cmd_of (k, x))) s') ->
  safe poll_command s Q.
Proof.
  intros Hok Hnone Hsome. eapply safe_state; [done|]. intros s1 c H1 M1 Hc.
  destruct (cs_command_queue c) as [|cmd l] eqn:El; cbn [fst snd].
  - rewrite with_state_same by done. split; [by eexists _, _|]. apply Hnone; [done|apply M1|].
    unfold command_queue. by rewrite Hc.
  - destruct (command_ok _ _ _ _ _ _ H1 Hc El) as (k & x & -> & H2). split; [by eexists _, _|].
    apply Hsome; [done| |].
    + etrans; [apply cm_busy, M1|]. apply busy_intro; [done|done| | |done|apply le_n].
      * unfold depth. cbn. rewrite Hc. by destruct c.
      * unfold pollers. cbn. rewrite Hc. by destruct c.
    + intros Ha. rewrite <- (mw_alone _ _ M1 Ha). unfold command_queue. rewrite Hc, El. cbn. by destruct c.
Qed.

Lemma process_commands_safe n : forall Q ch s,
  conductor_ok [] ch s -> whole ch ->
  (forall ch' s', conductor_ok [] ch' s' -> whole ch' -> busy s s' ->
    (alone = true -> (length (command_queue s) <= n)%nat ->
      command_queue s' = [] /\ (total ch' <= total ch + length (command_queue s))%nat) -> Q tt s') ->
  safe (tp_client_conductor_process_commands W n) s Q.
Proof.
  induction n as [|n IH]; intros Q ch s Hok Hw H; cbn [tp_client_conductor_process_commands].
  - split; [by eexists _, _|]. apply (H ch); [done..|]. intros _ Hl%Nat.le_0_r. split; [|lia].
    by apply length_zero_iff_nil.
  - apply safe_bind. eapply safe_command; [done|..].
    + intros s1 H1 C1 Hq. split; [by eexists _, _|]. apply (H ch); [done|done|by apply cm_busy|].
      intros _ _. split; [done|lia].
    + intros k x s1 H1 B1 Hq. apply safe_bind. eapply start_async_safe; [done|done|]. intros ch2 s2 H2 W2 C2 T2.
      apply (IH _ ch2); [done|done|]. intros ch3 s3 H3 W3 B3 Hq3. apply (H ch3); [done|done| |].
      * etrans; [done|]. etrans; [by apply cm_busy|done].
      * intros Ha Hl. rewrite (cm_alone _ _ C2 Ha) in Hq3. rewrite (Hq Ha) in Hl |- *. cbn in Hl |- *.
        destruct Hq3 as [E3 T3]; [done|lia|]. split; [done|lia].
Qed.

(** ** Answering requests *)

Lemma wrap_safe x r a Q hand ch s :
  conductor_ok hand ch s -> me_asyncs s !! x = Some r -> as_status r = TP_ASYNC_PENDING ->
  (forall s', conductor_ok hand ch s' -> quiet s s' -> Q false s') ->
  (forall s' r', conductor_ok hand ch s' -> calm s s' -> me_asyncs s' !! x = Some r' ->
    as_status r' = TP_ASYNC_PENDING -> is_Some (as_result r') -> Q true s') ->
  safe (wrap W (as_type r) a x (as_channel r) (as_stream_id r)) s Q.
Proof.
  intros Hok Hx Hs Hno Hyes. unfold wrap. apply safe_bind. eapply safe_ask; [done|]. intros t s1 H1 Q1.
  destruct (ae_alloc W t); cbn [negb]; [|split; [by eexists _, _|by apply Hno]].
  apply safe_bind. apply safe_mono with (Q := fun (_ : bool) s2 => conductor_ok hand ch s2 /\ quiet s s2).
  2:{ destruct (as_channel r).
      - eapply safe_ask; [done|]. intros t2 s2 H2 Q2. split; [done|by etrans].
      - split; [by eexists _, _|done]. }
  intros copy s2 [H2 Q2]. destruct copy; cbn [negb]; [|split; [by eexists _, _|by apply Hno]].
  eapply safe_step; [done|]. intros s3 H3 M3.
  pose proof (sb_pending _ _ (mw_stable _ _ M3) x r (qu_waits _ _ Q2 x r Hx Hs) Hs) as Hx3. rewrite Hx3. cbn.
  pose proof (wrapped_ok hand ch s3 x r a H3 Hx3 Hs) as H4. split; [by eexists _, _|].
  eapply Hyes; [exact H4| |exact (lookup_insert_eq _ _ _)|by destruct r|by destruct r].
  etrans; [exact (qu_calm _ _ Q2)|]. etrans; [apply M3|apply calm_wrapper].
Qed.

Lemma safe_emit e Q hand ch s :
  conductor_ok hand ch s -> polled [e] = [] ->
  (forall s', conductor_ok hand ch s' -> quiet s s' -> Q tt s') -> safe (emit e) s Q.
Proof.
  intros Hok He H. eapply safe_step; [done|]. intros s1 H1 M1. cbn.
  assert (H2 : conductor_ok hand ch (s1 <| me_events ::= fun l => l ++ [e] |>)).
  { destruct H1 as [[] Hst Hh]. by split. }
  split; [by eexists _, _|]. apply H; [done|]. etrans; [by apply quiet_meanwhile|]. split; [|done].
  split; [|done]. apply busy_intro; [done..| |apply le_n]. cbn. unfold polled in *.
  by rewrite omap_app, He, app_nil_r.
Qed.

Lemma answer_request_safe x r answer Q hand ch hand' ch' s :
  conductor_ok hand ch s -> me_asyncs s !! x = Some r -> as_status r = TP_ASYNC_PENDING ->
  answers hand ch hand' ch' x ->
  (forall s', conductor_ok hand' ch' s' -> calm s s' -> answered x s' -> Q tt s') ->
  safe (answer_request W (as_type r) x r answer) s Q.
Proof.
  intros Hok Hx Hs Ha H.
  assert (Hfail : forall e s1 Q1, conductor_ok hand ch s1 -> quiet s s1 ->
    (forall s', Q tt s' -> Q1 tt s') -> safe (async_fail (Some x) e) s1 Q1).
  { intros e s1 Q1 H1 C1 HQ. eapply safe_fail; [done|by apply (qu_waits _ _ C1)|done|done|].
    intros s2 H2 C2 A2. apply HQ, H; [done| |done]. etrans; [apply C1|done]. }
  destruct answer as [| |a]; cbn [answer_request].
  1, 2: apply safe_bind; eapply safe_ask; [done|]; intros t s1 H1 Q1; by apply Hfail.
  apply safe_bind. eapply wrap_safe; [done..| |].
  - intros s1 H1 Q1. apply safe_bind. eapply safe_emit; [done|done|]. intros s2 H2 Q2.
    apply Hfail; [done|by etrans|done].
  - intros s1 r1 H1 C1 Hx1 Hs1 Hr1. eapply safe_answer; [done|exact Hx1|done|done|by destruct r1..|].
    intros s2 H2 C2 A2. apply H; [done|by etrans|done].
Qed.

(** The link to an answered request is taken out. *)
Lemma unlink_safe {A} (K : prog A) k l1 x l2 Q hand ch s :
  conductor_ok hand ch s -> ch k = Broken l1 x l2 -> (forall k', k' <> k -> exists l, ch k' = Whole l) ->
  answered x s ->
  (forall s', conductor_ok hand (<[k := Whole (l1 ++ l2)]> ch) s' -> calm s s' -> safe K s' Q) ->
  safe (let> r := load_async Unlinking x in
        do> store_place (cursor_at k l1) (as_next r) in
        do> store_async Unlinking x (fun r => r <| as_next := NULL |>) in
        K) s Q.
Proof.
  intros Hok Hk Hw Ha H. apply safe_bind. eapply safe_step; [done|]. intros s1 H1 M1.
  pose proof (answered_meanwhile _ _ _ Ha M1) as Ha1. destruct (me_asyncs s1 !! x) as [r|] eqn:Hx; cbn [mbind option_bind].
  2:{ destruct alone eqn:Eal; [|done]. destruct (aw_alone _ _ Ha1 Eal) as [r E]; congruence. }
  split; [by eexists _, _|].
  assert (as_next r = head l2) as ->.
  { destruct H1 as [_ (c & q & _ & _ & Hch & _) _]. specialize (Hch k). rewrite Hk in Hch.
    destruct Hch as (_ & _ & Hch). by apply Hch. }
  apply safe_bind. eapply safe_store_place; [done|]. intros s2 H2 M2.
  destruct (unlink_ok _ _ _ _ _ _ _ H2 Hk) as (s3 & E3 & H3). exists s3. split; [done|]. split; [done|].
  pose proof (answered_meanwhile _ _ _ Ha1 M2) as Ha2.
  assert (Ha3 : answered x s3 /\ calm s2 s3).
  { unfold cursor_at in E3. destruct (last l1) as [y|]; cbn in E3.
    - destruct (me_asyncs s2 !! y) as [ry|] eqn:Ey; [|done]. cbn in E3. injection E3 as <-.
      split; [|apply calm_async]. destruct Ha2 as [B1 B2 B3]. split; [done|..].
      + intros r' Hr'. change (<[y := ry <| as_next := head l2 |>]> (me_asyncs s2) !! x = Some r') in Hr'.
        apply lookup_insert_Some in Hr' as [[-> <-]|[_ Hr']]; [|by apply B2]. apply B2 in Ey. by destruct ry.
      + intros Hal. apply B3 in Hal as [r' Hr'].
        change (is_Some (<[y := ry <| as_next := head l2 |>]> (me_asyncs s2) !! x)).
        destruct (decide (x = y)) as [->|Hne]; [rewrite lookup_insert_eq|rewrite lookup_insert_ne by done]; by eexists.
    - destruct (co_state (me_conductor s2)) as [c|] eqn:Hc; [|done]. cbn in E3. injection E3 as <-.
      split; [by destruct Ha2|by apply set_calm]. }
  destruct Ha3 as [Ha3 C3]. apply safe_bind. eapply safe_step; [done|]. intros s4 H4 M4.
  pose proof (answered_meanwhile _ _ _ Ha3 M4) as Ha4. destruct (me_asyncs s4 !! x) as [r4|] eqn:Hx4; cbn.
  2:{ destruct alone eqn:Eal; [|done]. destruct (aw_alone _ _ Ha4 Eal) as [r4 E]; congruence. }
  assert (H5 : conductor_ok hand (<[k := Whole (l1 ++ l2)]> ch) (with_async x (r4 <| as_next := NULL |>) s4)).
  { eapply release_ok; [done| |done|by apply (aw_status _ _ Ha4)|by destruct r4|apply same_next].
    intros k'. destruct (decide (k' = k)) as [->|Hne]; [rewrite fn_lookup_insert; by eexists|].
    rewrite fn_lookup_insert_ne by done. by apply Hw. }
  split; [by eexists _, _|]. apply H; [done|]. etrans; [apply M1|]. etrans; [apply M2|]. etrans; [exact C3|].
  etrans; [apply M4|apply calm_async].
Qed.

Lemma chain_insert_twice (ch : kind -> chain) k c c' k' : (<[k := c']> (<[k := c]> ch)) k' = (<[k := c']> ch) k'.
Proof.
  destruct (decide (k' = k)) as [->|Hne]; [by rewrite !fn_lookup_insert|by rewrite !fn_lookup_insert_ne].
Qed.

Lemma poll_pending_safe k n : forall l1 l2 Q ch s,
  conductor_ok [] ch s -> whole ch -> ch k = Whole (l1 ++ l2) ->
  (forall ch' s' l, conductor_ok [] ch' s' -> whole ch' -> calm s s' -> ch' k = Whole (l1 ++ l) ->
    (forall k', k' <> k -> ch' k' = ch k') ->
    ((forall t, ae_poll W t <> NotYet) -> (length l2 <= n)%nat -> l = []) -> Q tt s') ->
  safe (poll_pending W k n (cursor_at k l1)) s Q.
Proof.
  induction n as [|n IH]; intros l1 l2 Q ch s Hok Hw Hk H; cbn [poll_pending].
  - split; [by eexists _, _|]. apply (H ch s l2); [done..|]. intros _ Hl. by apply length_zero_iff_nil, Nat.le_0_r.
  - apply safe_bind. eapply safe_load_place; [done..|]. intros s1 H1 Q1. destruct l2 as [|x l2]; cbn [head].
    { split; [by eexists _, _|]. by apply (H ch s1 []); [..|apply Q1| | |]. }
    pose proof H1 as [_ (c & q & _ & _ & _ & Hho) _].
    destruct (ho_pending _ _ Hho k x) as (r & Hx & Hs & Ht & _).
    { apply owned_held. rewrite Hk. cbn. apply elem_of_app. right. by left. }
    apply safe_bind. eapply safe_load; [done..|]. intros s2 H2 Q2.
    apply safe_bind. eapply safe_ask; [done|]. intros t s3 H3 Q3.
    assert (Q123 : quiet s s3) by (etrans; [exact Q1|by etrans]).
    pose proof (qu_waits _ _ Q3 x r (qu_waits _ _ Q2 x r Hx Hs) Hs) as Hx3.
    assert (Hgo : safe (do> answer_request W k x r (ae_poll W t) in
      let> r := load_async Unlinking x in
      do> store_place (cursor_at k l1) (as_next r) in
      do> store_async Unlinking x (fun r => r <| as_next := NULL |>) in
      poll_pending W k n (cursor_at k l1)) s3 Q).
    { rewrite <- Ht. apply safe_bind.
      eapply answer_request_safe; [done..|by apply (answers_chain _ _ k l1 x l2)|]. intros s4 H4 C4 A4.
      rewrite Ht. eapply unlink_safe; [done|by rewrite fn_lookup_insert| |done|].
      { intros k' Hne. rewrite fn_lookup_insert_ne by done. apply Hw. }
      intros s5 H5 C5. eapply (IH l1 l2); [exact H5|..].
      - intros k'. rewrite chain_insert_twice. by apply whole_insert.
      - by rewrite fn_lookup_insert.
      - intros ch' s' l H' W' C' E' O' D'. apply (H ch' s' l); [done|done| |done|..].
        + etrans; [apply Q123|]. etrans; [exact C4|]. by etrans.
        + intros k' Hne. rewrite O' by done. by rewrite !fn_lookup_insert_ne.
        + intros Hall Hl. apply D'; [done|]. cbn in Hl. lia. }
    destruct (ae_poll W t) as [| |a] eqn:Ea; [|exact Hgo..].
    replace (Link x) with (cursor_at k (l1 ++ [x])) by apply cursor_snoc.
    apply (IH (l1 ++ [x]) l2 _ ch); [done|done|by rewrite <- app_assoc|].
    intros ch' s' l H' W' C' E' O' _. apply (H ch' s' (x :: l)); [done|done| |by rewrite E', <- app_assoc|done|].
    + etrans; [apply Q123|done].
    + intros Hall. by destruct (Hall t).
Qed.

(** The whole work on requests: where Aeron answers every one, none waits afterwards. *)
Definition none_waits (s : store) : Prop :=
  forall x r, me_asyncs s !! x = Some r -> as_status r <> TP_ASYNC_PENDING.

Lemma work_requests_safe n Q ch s :
  conductor_ok [] ch s -> whole ch ->
  (forall ch' s', conductor_ok [] ch' s' -> whole ch' -> busy s s' ->
    (alone = true -> (forall t, ae_poll W t <> NotYet) ->
      (length (command_queue s) + total ch <= n)%nat -> none_waits s') -> Q tt s') ->
  safe (work_requests W n) s Q.
Proof.
  intros Hok Hw H. unfold work_requests. apply safe_bind. eapply process_commands_safe; [done|done|].
  intros ch1 s1 H1 W1 B1 E1. unfold tp_client_conductor_poll_pending. apply safe_bind.
  destruct (W1 TP_CLIENT_CMD_ADD_PUBLICATION) as [lp Hp], (W1 TP_CLIENT_CMD_ADD_SUBSCRIPTION) as [ls Hs].
  apply (poll_pending_safe _ n [] lp _ ch1); [done..|]. intros ch2 s2 lp' H2 W2 C2 Hp2 O2 D2.
  assert (Hs2 : ch2 TP_CLIENT_CMD_ADD_SUBSCRIPTION = Whole ([] ++ ls)) by by rewrite O2.
  apply (poll_pending_safe _ n [] ls _ ch2); [done..|]. intros ch3 s3 ls' H3 W3 C3 Hs3 O3 D3.
  apply (H ch3); [done|done| |].
  - etrans; [exact B1|]. etrans; [apply cm_busy; exact C2|apply cm_busy; exact C3].
  - intros Ha Hall Hn. destruct (E1 Ha) as [E1' T1]; [lia|].
    rewrite <- (cm_alone _ _ C2 Ha), <- (cm_alone _ _ C3 Ha) in E1'. unfold total in T1, Hn.
    rewrite Hp, Hs in T1. cbn in T1. rewrite D3 in Hs3 by (try done; lia). assert (Hp3 : ch3 TP_CLIENT_CMD_ADD_PUBLICATION = Whole []).
    { rewrite O3, Hp2 by done. rewrite D2 by (try done; lia). done. }
    intros x r Hx Hst. destruct H3 as [_ (c & q & Hc & Hq & _ & Hho) _].
    pose proof (ho_all _ _ Hho x r Hx Hst) as Hin. unfold command_queue in E1'. rewrite Hc, Hq in E1'.
    apply fmap_nil_inv in E1' as ->. unfold held in Hin. rewrite Hp3, Hs3 in Hin. cbn in Hin. by apply elem_of_nil in Hin.
Qed.

End Safety.
