(* ===== verification/ConductorAgent.v ===== *)
(** * ConductorAgent: the pollers and the duty cycle of the conductor

    The steps of registering pollers, of what pollers do and of calling them in turn, and
    [do_work_safe] for the whole duty cycle, which pollers may run again inside. *)

From Stdlib Require Import ZArith Lia Bool Ascii String.
From stdpp Require Import strings list gmap functions relations.
From coqutil Require Import Datatypes.RecordSetters.
From S2P Require Import Prelude Sbe Uri Shm Conductor ConductorThreads ConductorSafety.
Import TriangleBracketNotations.

#[local] Open Scope Z_scope.
#[local] Open Scope list_scope.
#[local] Open Scope tp_scope.

#[local] Arguments safe W alone tame {A} p s Q : simpl never.

(** No request is in anybody's hand: between two duty cycles. *)
Definition idle (s : store) : Prop := exists ch, conductor_ok [] ch s /\ whole ch.

Lemma idle_sound s : idle s -> sound s.
Proof. intros (ch & H & _). by exists [], ch. Qed.

Lemma idle_open s : idle s -> is_Some (co_state (me_conductor s)).
Proof. intros (ch & H & _). by eapply ok_open. Qed.

Lemma idle_state s c c' :
  idle s -> co_state (me_conductor s) = Some c ->
  (forall k, pending k c' = pending k c) -> cs_command_queue c' = cs_command_queue c -> idle (with_state c' s).
Proof. intros (ch & H & Hw) Hc Hp Hq. exists ch. split; [by eapply conductor_state_ok|done]. Qed.

(** Pollers keep to their own entries. *)
Definition keeps_entries (a : poller_action) : Prop :=
  match a with UnregisterPoller _ _ => False | _ => True end.

Definition tame_outside (W : outside) : Prop :=
  forall p c l t, Forall keeps_entries (fst (ae_poller W p c l t)).

Lemma add_runs W kind channel stream_id s :
  is_Some (co_state (me_conductor s)) -> is_Some (run (async_add W kind (Some channel) stream_id) s).
Proof.
  intros [c Hc]. destruct s as [[ae inv st ow cs] asyncs wrappers fresh tick events]. cbn in Hc. subst cs.
  destruct c as [queue slots pubs subs roles pollers depth].
  unfold async_add. cbn -[Nat.ltb]. destruct ae; cbn -[Nat.ltb]; [|by eexists].
  destruct (ae_alloc W tick); cbn -[Nat.ltb]; [|by eexists].
  destruct (ae_alloc W (S tick)); cbn -[Nat.ltb]; [|by eexists]. unfold constant.
  destruct slots; cbn -[Nat.ltb]; unfold constant; [|destruct (ae_alloc W (S (S tick))); cbn -[Nat.ltb]; unfold constant];
    try (destruct (_ <? _)%nat; cbn; [by eexists|]); cbn; rewrite lookup_insert_eq; cbn; by eexists.
Qed.

Section Agent.
Context (W : outside) (alone tame : bool).

Abbreviation safe := (safe W alone tame).
Abbreviation kept := (kept tame).
Abbreviation acted := (acted tame).
Abbreviation busy := (busy tame).
Abbreviation meanwhile := (meanwhile alone tame).

Lemma safe_idle_step {V} l (f : store -> option (V * store)) Q s :
  idle s ->
  (forall s1, idle s1 -> meanwhile s s1 ->
    match f s1 with Some (v, s2) => sound s2 /\ Q v s2 | None => may_fault alone tame l end) ->
  safe (step l f) s Q.
Proof.
  intros (ch & Hok & Hw) H. eapply safe_step; [done|]. intros s1 H1 M1. apply H; [by exists ch|done].
Qed.

Lemma mw_acted s s1 : meanwhile s s1 -> acted s s1.
Proof. intros M. apply M. Qed.

(** Something an application thread might do as well. *)
Lemma acted_client s s' : idle s -> client_step W s s' -> idle s' /\ acted s s'.
Proof.
  intros (ch & Hok & Hw) Hstep. destruct (client_step_ok W _ _ _ _ Hok Hstep) as [H' S'].
  split; [by exists ch|]. apply bs_acted, stable_busy; [by eapply ok_open|done].
Qed.

(** The pollers change, nothing else. *)
Lemma acted_pollers s s1 c c' :
  acted s s1 -> co_state (me_conductor s1) = Some c -> cs_do_work_depth c' = cs_do_work_depth c ->
  (pollers_ok s -> pollers_ok (with_state c' s1)) ->
  (tame = true -> exists new, cs_pollers c' = new ++ pollers s) -> acted s (with_state c' s1).
Proof.
  intros [[A1 A2 A3 A4] Ad Ap] Hc Hd Hp Ht. split; [split| |]; [done|done|done| | |done].
  - intros E. destruct (Ht E) as [new En]. exists new. by rewrite <- En.
  - rewrite <- Ad. unfold depth. cbn. by rewrite Hc, Hd.
Qed.

Lemma mw_busy s s1 : meanwhile s s1 -> busy s s1.
Proof. intros M. apply M. Qed.

Lemma read_busy Q s :
  idle s -> (forall s1 c, idle s1 -> busy s s1 -> co_state (me_conductor s1) = Some c ->
    Q (me_conductor s1) s1) ->
  safe (step Plain (fun s => Some (me_conductor s, s))) s Q.
Proof.
  intros Hi H. apply safe_idle_step; [done|]. intros s1 I1 M1. split; [by apply idle_sound|].
  destruct (idle_open _ I1) as [c Hc]. apply (H s1 c); [done|by apply mw_busy|done].
Qed.

Lemma read_conductor Q s :
  idle s -> (forall s1 c, idle s1 -> acted s s1 -> co_state (me_conductor s1) = Some c ->
    Q (me_conductor s1) s1) ->
  safe (step Plain (fun s => Some (me_conductor s, s))) s Q.
Proof. intros Hi H. apply read_busy; [done|]. intros s1 c I1 B1. apply H; [done|apply B1]. Qed.

Lemma ret_safe {A} (a : A) Q s : idle s -> Q a s -> safe (Ret a) s Q.
Proof. intros Hi HQ. split; [by apply idle_sound|done]. Qed.

Lemma ask_busy {V} (f : nat -> V) Q s :
  idle s -> (forall t s1, idle s1 -> busy s s1 -> Q (f t) s1) -> safe (ask f) s Q.
Proof.
  intros (ch & Hok & Hw) H. eapply safe_ask; [done|]. intros t s1 H1 Q1. apply H; [by exists ch|apply Q1].
Qed.

Lemma ask_safe {V} (f : nat -> V) Q s :
  idle s -> (forall t s1, idle s1 -> acted s s1 -> Q (f t) s1) -> safe (ask f) s Q.
Proof. intros Hi H. apply ask_busy; [done|]. intros t s1 I1 B1. apply H; [done|apply B1]. Qed.

Lemma register_safe poller clientd limit Q s :
  idle s -> (forall r s', idle s' -> acted s s' -> Q r s') ->
  safe (tp_client_conductor_register_poller W poller clientd limit) s Q.
Proof.
  intros Hi H. unfold tp_client_conductor_register_poller. apply safe_bind, read_conductor; [done|].
  intros s1 c I1 A1 Hc. rewrite Hc. destruct (_ || _); [by apply ret_safe; [|apply H]|].
  apply safe_bind, ask_safe; [done|]. intros t s2 I2 A2. destruct (ae_alloc W t); cbn [negb].
  2:{ apply ret_safe, H; [done|done|]. by etrans. }
  apply safe_bind, safe_idle_step; [done|]. intros s3 I3 M3.
  set (s4 := s3 <| me_fresh ::= S |>).
  assert (I4 : idle s4).
  { destruct I3 as (ch & [[F1 F2 F3 F4 F5] Hst Hh] & Hw). exists ch. split; [|done]. split; [split|done|].
    - intros x r Hx. apply le_S. exact (F1 x r Hx).
    - intros w r Hr. apply le_S. exact (F2 w r Hr).
    - exact F3.
    - exact F4.
    - exact F5.
    - intros k l1 x l2 Hk. apply le_S. exact (Hh k l1 x l2 Hk). }
  assert (B4 : busy s3 s4) by (apply busy_intro; [done..|apply le_S, le_n]).
  split; [by apply idle_sound|]. apply safe_idle_step; [done|]. intros s5 I5 M5.
  destruct (idle_open _ I5) as [c5 Hc5]. rewrite Hc5.
  match goal with |- sound ?s6 /\ _ => assert (I6 : idle s6) by (by eapply (idle_state s5 c5); [..|intros []|])  end.
  split; [by apply idle_sound|]. apply H; [done|]. do 2 (etrans; [eassumption|]).
  etrans; [apply mw_acted; exact M3|]. assert (B5 : busy s3 s5) by (etrans; [exact B4|apply M5]).
  pose proof (bs_pollers _ _ _ B5) as E5. assert (Ec : cs_pollers c5 = pollers s3).
  { rewrite <- E5. unfold pollers. by rewrite Hc5. }
  eapply acted_pollers; [apply B5|exact Hc5|done| |].
  - intros [P1 P2]. pose proof (sb_fresh _ _ (mw_stable _ _ _ _ M5)) as Hf. change (S (me_fresh s3) <= me_fresh s5)%nat in Hf.
    match goal with |- pollers_ok ?s6 =>
      assert (E6 : exists e, pollers s6 = e :: pollers s3 /\ pl_id e = me_fresh s3)
        by (eexists; rewrite <- Ec; split; reflexivity); assert (Ef : me_fresh s6 = me_fresh s5) by reflexivity
    end.
    destruct E6 as (e & E6 & He). split; rewrite E6.
    + rewrite Ef. constructor; [lia|]. eapply Forall_impl; [exact P1|]. intros e' He'. cbn in *. lia.
    + constructor; [|done]. intros (e' & E & He')%list_elem_of_fmap.
      apply Forall_forall with (x := e') in P1; [|done]. cbn in E, P1. lia.
  - intros _. eexists [_]. rewrite <- Ec. reflexivity.
Qed.

Lemma remove_first_sublist f l : remove_first f l `sublist_of` l.
Proof.
  induction l as [|e l IH]; cbn; [constructor|]. destruct (f e); [by apply sublist_cons|by apply sublist_skip].
Qed.

Lemma unregister_safe poller clientd Q s :
  idle s -> tame = false -> (forall r s', idle s' -> acted s s' -> Q r s') ->
  safe (tp_client_conductor_unregister_poller poller clientd) s Q.
Proof.
  intros Hi Ht H. unfold tp_client_conductor_unregister_poller. apply safe_bind, read_conductor; [done|].
  intros s1 c I1 A1 Hc. rewrite Hc. destruct (_ =? _); [by apply ret_safe; [|apply H]|].
  apply safe_idle_step; [done|]. intros s2 I2 M2. destruct (idle_open _ I2) as [c2 Hc2]. rewrite Hc2.
  destruct (existsb _ _).
  - assert (I3 : idle (with_state (c2 <| cs_pollers ::= remove_first (is_entry poller clientd) |>) s2))
      by (by eapply (idle_state s2 c2); [..|intros []|]).
    split; [by apply idle_sound|]. apply H; [done|]. etrans; [exact A1|].
    eapply acted_pollers; [apply mw_acted; exact M2|exact Hc2|done| |by rewrite Ht].
    intros P0. destruct (kp_pollers _ _ _ (ac_kept _ _ _ (mw_acted _ _ M2)) P0) as [P1 P2].
    unfold pollers in P1, P2. rewrite Hc2 in P1, P2.
    pose proof (remove_first_sublist (is_entry poller clientd) (cs_pollers c2)) as Hsub.
    split; unfold pollers; cbn.
    + rewrite Forall_forall in P1 |- *. intros e He. apply P1. eapply elem_of_submseteq; [exact He|].
      by apply sublist_submseteq.
    + eapply sublist_NoDup; [exact P2|]. by apply fmap_sublist.
  - change (sound (with_state c2 s2) /\ Q (Err EINVAL) (with_state c2 s2)). rewrite with_state_same by done.
    split; [by apply idle_sound|]. apply H; [done|]. etrans; [exact A1|by apply mw_acted].
Qed.

(** ** What a poller does *)

(** A duty cycle in a poller. *)
Definition nested (work : prog (option Z)) : Prop :=
  forall s Q, idle s -> pollers_ok s -> 1 <= depth s -> (forall r s', idle s' -> acted s s' -> Q r s') -> safe work s Q.

Lemma perform_safe work a Q s :
  nested work -> idle s -> pollers_ok s -> 1 <= depth s -> (tame = true -> keeps_entries a) ->
  (forall s', idle s' -> acted s s' -> Q tt s') -> safe (perform W work a) s Q.
Proof.
  intros Hwork Hi Hpo Hd Ht H. destruct a as [|k chn sid|x|p c l|p c]; cbn [perform].
  - apply safe_bind, Hwork; [done..|]. intros r s' I' A'. apply ret_safe; [done|]. by apply H.
  - apply safe_idle_step; [done|]. intros s1 I1 M1.
    destruct (add_runs W k chn sid s1 (idle_open _ I1)) as [[r s2] E]. rewrite E. cbn.
    destruct (acted_client s1 s2 I1) as [I2 A2]; [by econstructor|]. split; [by apply idle_sound|].
    apply H; [done|]. etrans; [by apply mw_acted|done].
  - apply safe_idle_step; [done|]. intros s1 I1 M1. destruct (me_asyncs s1 !! x) as [rx|] eqn:Hx.
    2:{ split; [by apply idle_sound|]. apply H; [done|by apply mw_acted]. }
    destruct (run (async_add_poll (Some x)) s1) as [[r s2]|] eqn:E.
    + cbn. destruct (acted_client s1 s2 I1) as [I2 A2]; [by eapply client_poll; [rewrite Hx|]|].
      split; [by apply idle_sound|]. apply H; [done|]. etrans; [by apply mw_acted|done].
    + cbn in E. rewrite Hx in E. cbn in E. destruct (as_status rx); cbn in E; [done|..]; rewrite Hx in E; done.
  - apply safe_bind, register_safe; [done|]. intros r s' I' A'. apply ret_safe; [done|]. by apply H.
  - apply safe_bind, unregister_safe; [done| |].
    + destruct tame; [|done]. by destruct Ht.
    + intros r s' I' A'. apply ret_safe; [done|]. by apply H.
Qed.

Lemma perform_all_safe work l : forall Q s,
  nested work -> idle s -> pollers_ok s -> 1 <= depth s -> (tame = true -> Forall keeps_entries l) ->
  (forall s', idle s' -> acted s s' -> Q tt s') -> safe (perform_all W work l) s Q.
Proof.
  induction l as [|a l IH]; intros Q s Hwork Hi Hpo Hd Ht H; cbn [perform_all]; [by apply ret_safe, H|].
  apply safe_bind, perform_safe; [done..|intros E; by destruct (Forall_cons_1 _ _ _ (Ht E))|].
  intros s1 I1 A1. apply IH; [done|done|by apply A1|by rewrite (ac_depth _ _ _ A1)|intros E; by destruct (Forall_cons_1 _ _ _ (Ht E))|].
  intros s2 I2 A2. apply H; [done|by etrans].
Qed.

(** ** The pollers in turn *)

Definition called (l : list tp_client_poller_entry_t) : list (Z * Z) := (fun e => (pl_poller e, pl_clientd e)) <$> l.

(** Calling pollers in turn, as it should be: from those that are due, those that are
    called and the sum of their answers, or none when the last one called failed. *)
Definition answer_of (e : tp_client_poller_entry_t) (t : nat) : Z :=
  snd (ae_poller W (pl_poller e) (pl_clientd e) (pl_fragment_limit e) t).

Inductive served : list tp_client_poller_entry_t -> list tp_client_poller_entry_t -> option Z -> Prop :=
  | served_none : served [] [] (Some 0)
  | served_failed e l t : answer_of e t < 0 -> served (e :: l) [e] None
  | served_one e l c r t :
      0 <= answer_of e t -> served l c r -> served (e :: l) (e :: c) (Z.add (answer_of e t) <$> r).

(** [l] was due, and [r] is the answer, with what had been counted before. *)
Definition serving (l : list tp_client_poller_entry_t) (total : Z) (r : option Z) (s s' : store) : Prop :=
  exists c w, served l c w /\ polled (me_events s') = polled (me_events s) ++ called c /\ r = Z.add total <$> w.

Record turned (l : list tp_client_poller_entry_t) (total : Z) (r : option Z) (s s' : store) : Prop := {
  tu_kept : kept s s';
  tu_depth : depth s' = depth s;
  tu_polled : tame = true -> serving l total r s s';
}.

Lemma acted_turned s s1 s' l total r : acted s s1 -> turned l total r s1 s' -> turned l total r s s'.
Proof.
  intros [A1 A2 A3] [B1 B2 B3]. split; [by etrans|congruence|]. intros Ht.
  destruct (B3 Ht) as (c & w & Hs & Hp & Hr). exists c, w. by rewrite Hp, A3.
Qed.

Lemma served_end total s s' :
  polled (me_events s') = polled (me_events s) -> serving [] total (Some total) s s'.
Proof.
  intros Hp. exists [], (Some 0). split; [constructor|]. split; [by rewrite Hp, app_nil_r|].
  cbn. by rewrite Z.add_0_r.
Qed.

Lemma entries_from_split pre e rest :
  NoDup (pl_id <$> pre ++ e :: rest) -> entries_from (pl_id e) (pre ++ e :: rest) = Some (e :: rest).
Proof.
  induction pre as [|e' pre IH]; cbn.
  - intros _. by rewrite Nat.eqb_refl.
  - intros [Hn Hnd]%NoDup_cons. replace (pl_id e' =? pl_id e)%nat with false; [by apply IH|].
    symmetry. apply Nat.eqb_neq. intros E. apply Hn. rewrite E. apply list_elem_of_fmap. exists e.
    split; [done|]. apply elem_of_app. right. by left.
Qed.

Lemma emit_polled_safe e Q s :
  idle s ->
  (forall s1 s2, idle s2 -> acted s s1 -> kept s1 s2 -> depth s2 = depth s1 ->
    polled (me_events s2) = polled (me_events s1) ++ called [e] -> Q tt s2) ->
  safe (emit (Polled (pl_poller e) (pl_clientd e))) s Q.
Proof.
  intros Hi H. apply safe_idle_step; [done|]. intros s1 I1 M1.
  set (s2 := s1 <| me_events ::= fun l => l ++ [Polled (pl_poller e) (pl_clientd e)] |>).
  assert (I2 : idle s2) by (destruct I1 as (ch & [[] Hst Hh] & Hw); by exists ch).
  split; [by apply idle_sound|]. apply (H s1); [done|by apply mw_acted| |done|].
  - split; [done|done|by intros []|]. intros _. by exists [].
  - cbn. unfold polled. by rewrite omap_app.
Qed.

Lemma poll_pollers_safe work n : forall entry total rest Q s,
  nested work -> (tame = true -> tame_outside W) -> idle s -> 1 <= depth s -> pollers_ok s ->
  (tame = true -> (exists pre, pollers s = pre ++ rest) /\ entry = head rest /\ (length rest <= n)%nat) ->
  (forall r s', idle s' -> turned rest total r s s' -> Q r s') ->
  safe (poll_pollers W work n entry total) s Q.
Proof.
  induction n as [|n IH]; intros entry total rest Q s Hwork Hout Hi Hd Hp Hrest H; cbn [poll_pollers].
  { apply ret_safe; [done|]. apply H; [done|]. split; [done|done|]. intros Ht.
    destruct (Hrest Ht) as (_ & _ & Hl). destruct rest; [by apply served_end|by apply Nat.nle_succ_0 in Hl]. }
  destruct entry as [e|].
  2:{ apply ret_safe; [done|]. apply H; [done|]. split; [done|done|]. intros Ht.
      destruct (Hrest Ht) as (_ & Hh & _). by destruct rest; [apply served_end|]. }
  apply safe_bind, emit_polled_safe; [done|]. intros s1 s2 I2 A1 K2 D2 P2.
  apply safe_bind, ask_safe; [done|]. intros t s3 I3 A3.
  assert (K3 : kept s s3) by (etrans; [apply A1|]; etrans; [exact K2|apply A3]).
  assert (D3 : depth s3 = depth s) by (rewrite (ac_depth _ _ _ A3), D2; apply A1).
  apply safe_bind, perform_all_safe; [done|done|by apply (kp_pollers _ _ _ K3)|lia|intros Ht; by apply Hout|]. intros s4 I4 A4.
  assert (K4 : kept s s4).
  { etrans; [exact K3|apply A4]. }
  assert (D4 : depth s4 = depth s) by (rewrite (ac_depth _ _ _ A4); done).
  assert (P4 : polled (me_events s4) = polled (me_events s) ++ called [e]).
  { rewrite (ac_polled _ _ _ A4), (ac_polled _ _ _ A3), P2. by rewrite (ac_polled _ _ _ A1). }
  fold (answer_of e t). destruct (Z.ltb_spec (answer_of e t) 0) as [Hneg|Hpos].
  { apply ret_safe; [done|]. apply H; [done|]. split; [done|done|]. intros Ht.
    destruct (Hrest Ht) as (_ & Hh & _). destruct rest as [|e' rest]; [done|]. injection Hh as <-.
    exists [e], None. split; [by apply served_failed with t|done]. }
  apply safe_bind, safe_idle_step; [done|]. intros s5 I5 M5. destruct (idle_open _ I5) as [c5 Hc5].
  pose proof (mw_acted _ _ M5) as A5. assert (K5 : kept s s5) by (etrans; [exact K4|apply A5]).
  pose proof (kp_pollers _ _ _ K5 Hp) as Hp5. rewrite Hc5. cbn [mbind option_bind].
  assert (Hnext : tame = true -> exists rest', rest = e :: rest' /\ (length rest' <= n)%nat /\
    entries_from (pl_id e) (cs_pollers c5) = Some (e :: rest') /\ exists pre, pollers s5 = pre ++ rest').
  { intros Ht. destruct (Hrest Ht) as ([pre Epre] & Hh & Hl). destruct rest as [|e' rest']; [done|].
    injection Hh as <-. exists rest'. destruct (kp_tame _ _ _ K5 Ht) as [new En]. rewrite Epre in En.
    destruct Hp5 as [_ Hp5]. unfold pollers in *. rewrite Hc5 in *. rewrite En in Hp5 |- *. rewrite app_assoc in Hp5 |- *.
    split_and!; [done|cbn in Hl; lia|by apply entries_from_split|]. exists ((new ++ pre) ++ [e]).
    by rewrite <- (app_assoc _ [e]). }
  destruct (entries_from (pl_id e) (cs_pollers c5)) as [l|] eqn:El; cbn [mbind option_bind].
  2:{ destruct tame eqn:Et; [|done]. by destruct (Hnext eq_refl) as (? & _ & _ & ? & _). }
  split; [by apply idle_sound|].
  apply (IH _ _ (tail rest)); [done|done|done|rewrite (ac_depth _ _ _ A5); lia|done|..].
  - intros Ht. destruct (Hnext Ht) as (rest' & -> & Hl & [= ->] & Hpre). by split_and!.
  - intros r s' I' [K' D' P']. apply H; [done|]. split; [by etrans|rewrite D', (ac_depth _ _ _ A5); done|].
    intros Ht. destruct (Hnext Ht) as (rest' & -> & _). destruct (P' Ht) as (c & w & Hs & Hpl & ->).
    exists (e :: c), (Z.add (answer_of e t) <$> w). split; [by apply served_one|].
    split; [by rewrite Hpl, (ac_polled _ _ _ A5), P4, <- app_assoc|].
    destruct w; [|done]. cbn. by rewrite Z.add_assoc.
Qed.

(** ** The duty cycle *)

Lemma set_depth_safe f Q s :
  idle s ->
  (forall s1 s2, idle s2 -> meanwhile s s1 -> kept s1 s2 -> depth s2 = f (depth s1) -> pollers s2 = pollers s1 ->
    polled (me_events s2) = polled (me_events s1) -> Q (f (depth s1)) s2) ->
  safe (set_depth f) s Q.
Proof.
  intros Hi H. apply safe_idle_step; [done|]. intros s1 I1 M1. destruct (idle_open _ I1) as [c Hc]. rewrite Hc.
  set (s2 := with_state (c <| cs_do_work_depth ::= f |>) s1).
  assert (I2 : idle s2) by (by eapply (idle_state s1 c); [..|intros []|]).
  assert (Ep : pollers s2 = pollers s1) by (unfold pollers; rewrite Hc; by destruct c).
  change (sound s2 /\ Q (f (cs_do_work_depth c)) s2). split; [by apply idle_sound|].
  replace (cs_do_work_depth c) with (depth s1) by (unfold depth; by rewrite Hc).
  apply (H s1); [done|done| | |done|done].
  - split; [done|done| |by intros _; exists []]. intros [P1 P2]. split; by rewrite Ep.
  - unfold depth. rewrite Hc. by destruct c.
Qed.

(** The end of a duty cycle: the depth is taken back. *)
Lemma finish_safe (r : option Z) Q s s1 :
  idle s1 -> kept s s1 -> depth s1 = depth s + 1 ->
  (forall s', idle s' -> kept s s' -> depth s' = depth s -> polled (me_events s') = polled (me_events s1) -> Q r s') ->
  safe (let> _ := set_depth (fun d => d - 1) in Ret r) s1 Q.
Proof.
  intros I1 K1 D1 H. apply safe_bind, set_depth_safe; [done|]. intros s2 s3 I3 M2 K3 D3 _ P3.
  pose proof (mw_acted _ _ M2) as A2. apply ret_safe; [done|].
  apply H; [done| | |by rewrite P3; apply A2].
  - etrans; [exact K1|]. etrans; [apply A2|exact K3].
  - rewrite D3, (ac_depth _ _ _ A2), D1. lia.
Qed.

(** What the duty cycle does at its depth. *)
Definition poll_due (n level : nat) (depth : Z) : prog (option Z) :=
  if depth =? 1
  then match level with
       | O => step Plain (fun _ => None)
       | S level' => tp_client_conductor_poll_pollers W (tp_client_conductor_do_work W n level')
       end
  else Ret (Some 0).

Lemma do_work_unfold n level :
  tp_client_conductor_do_work W n level =
  let> co := step Plain (fun s => Some (me_conductor s, s)) in
  if negb (co_aeron co) then Ret None
  else
    let> invoked := (if co_use_agent_invoker co then ask (ae_work W) else Ret (Some 0)) in
    match invoked with
    | None => Ret None
    | Some invoked =>
      match co_state co with
      | NULL => Ret (Some invoked)
      | Some _ =>
        do> work_requests W n in
        let> depth := set_depth (fun d => d + 1) in
        let> polled := poll_due n level depth in
        let> _ := set_depth (fun d => d - 1) in
        Ret (match polled with Some work => Some (invoked + work) | None => None end)
      end
    end.
Proof. by destruct level. Qed.

(** A duty cycle that fails before it comes to the pollers: without Aeron, or with an
    error of its invoker. *)
Definition not_begun (s : store) (r : option Z) (s' : store) : Prop :=
  r = None /\ polled (me_events s') = polled (me_events s) /\
  (co_aeron (me_conductor s) = false \/ exists t, ae_work W t = None).

(** What the duty cycle does to pollers, and its answer: with the work of the invoker. *)
Definition pollers_served (s : store) (r : option Z) (s' : store) : Prop :=
  not_begun s r s' \/
  exists invoked, (invoked = 0 \/ exists t, ae_work W t = Some invoked) /\ serving (pollers s) invoked r s s'.

(** Inside a poller no poller is called. *)
Record worked (s : store) (r : option Z) (s' : store) : Prop := {
  wk_kept : kept s s';
  wk_depth : depth s' = depth s;
  wk_nested : depth s <> 0 -> polled (me_events s') = polled (me_events s);
  wk_served : tame = true -> depth s = 0 -> pollers_served s r s';
}.

Lemma worked_error s s1 s' :
  kept s s1 -> acted s s' -> co_aeron (me_conductor s1) = false \/ (exists t, ae_work W t = None) -> worked s None s'.
Proof.
  intros K1 [A1 A2 A3] Hwhy. split; [done|done|done|]. intros _ _. left. split; [done|]. split; [done|].
  by rewrite <- (kp_aeron _ _ _ K1).
Qed.

Lemma nested_do_work n level :
  (forall Q s, idle s -> pollers_ok s -> 0 <= depth s -> (depth s = 0 -> (0 < level)%nat) ->
    (forall r s', idle s' -> worked s r s' -> Q r s') -> safe (tp_client_conductor_do_work W n level) s Q) ->
  forall s Q, idle s -> pollers_ok s -> 1 <= depth s -> (forall r s', idle s' -> acted s s' -> Q r s') ->
    safe (tp_client_conductor_do_work W n level) s Q.
Proof.
  intros H s Q Hi Hp Hd HQ. apply H; [done|done|lia|lia|]. intros r s' I' [T1 T2 T3 _]. apply HQ; [done|].
  split; [done|done|]. apply T3. lia.
Qed.

Lemma do_work_at n level Q s :
  idle s -> pollers_ok s -> 0 <= depth s ->
  (depth s + 1 =? 1 = true -> forall Q1 s1, idle s1 -> pollers_ok s1 -> depth s1 = 1 -> pollers s1 = pollers s ->
    (forall r s', idle s' -> turned (pollers s) 0 r s1 s' -> Q1 r s') -> safe (poll_due n level (depth s + 1)) s1 Q1) ->
  (forall r s', idle s' -> worked s r s' -> Q r s') -> safe (tp_client_conductor_do_work W n level) s Q.
Proof.
  intros Hi Hp Hd Hpoll H. rewrite do_work_unfold. apply safe_bind, read_busy; [done|]. intros s1 c I1 B1 Hc.
  destruct (co_aeron (me_conductor s1)) eqn:Eae; cbn [negb].
  2:{ apply ret_safe, H, (worked_error s s1); [done|done|apply B1|apply B1|by left]. }
  apply safe_bind, safe_mono with (Q := fun invoked s2 => idle s2 /\ busy s s2 /\
    match invoked with
    | Some w => w = 0 \/ exists t, ae_work W t = Some w
    | None => exists t, ae_work W t = None
    end).
  2:{ destruct (co_use_agent_invoker _); [apply ask_busy|apply ret_safe; [done|split_and!; [done..|by left]]]; [done|].
      intros t s2 I2 B2. split; [done|]. split; [by etrans|]. destruct (ae_work W t) eqn:Et; [right|]; by exists t. }
  intros [invoked|] s2 (I2 & B2 & Hinv).
  2:{ apply ret_safe, H, (worked_error s s1); [done|done|apply B1|apply B2|by right]. }
  rewrite Hc.
  destruct I2 as (ch & H2 & W2). apply safe_bind. eapply work_requests_safe; [done|done|]. intros ch3 s3 H3 W3 B3 _.
  assert (I3 : idle s3) by by exists ch3. assert (B13 : busy s s3) by by etrans.
  apply safe_bind, set_depth_safe; [done|]. intros s4 s5 I5 M4 K5 D5 E5 P5.
  assert (B4 : busy s s4) by (etrans; [exact B13|by apply mw_busy]).
  rewrite (ac_depth _ _ _ (bs_acted _ _ _ B4)) in D5 |- *. assert (K : kept s s5) by (etrans; [apply B4|exact K5]).
  assert (P : polled (me_events s5) = polled (me_events s)) by (rewrite P5; apply B4).
  apply safe_bind. destruct (depth s + 1 =? 1) eqn:E.
  - apply Z.eqb_eq in E. apply Hpoll; [done|done|by apply (kp_pollers _ _ _ K)|lia|rewrite E5; apply B4|].
    intros r s6 I6 [T1 T2 T3]. apply (finish_safe _ _ s); [done|by etrans|congruence|].
    intros s7 I7 K7 D7 P7. apply H; [done|]. split; [done|done|lia|]. intros Ht _. right.
    exists invoked. split; [done|]. destruct (T3 Ht) as (c' & w & Hs & Hpl & ->). exists c', w.
    split; [done|]. split; [by rewrite P7, Hpl, P|]. by destruct w.
  - unfold poll_due. rewrite E. apply Z.eqb_neq in E. apply ret_safe; [done|].
    apply (finish_safe _ _ s); [done..|]. intros s7 I7 K7 D7 P7. apply H; [done|].
    split; [done|done|by rewrite P7|lia].
Qed.

Lemma do_work_safe n level : (tame = true -> tame_outside W) -> forall Q s,
  idle s -> pollers_ok s -> 0 <= depth s -> (depth s = 0 -> (0 < level)%nat) ->
  (forall r s', idle s' -> worked s r s' -> Q r s') -> safe (tp_client_conductor_do_work W n level) s Q.
Proof.
  intros Hout. induction level as [|level IH]; intros Q s Hi Hp Hd Hlevel H.
  - apply do_work_at; [done..| |exact H]. intros E%Z.eqb_eq. assert (E0 : depth s = 0) by lia. by destruct (Nat.lt_irrefl 0 (Hlevel E0)).
  - apply do_work_at; [done..| |exact H]. intros E Q1 s1 I1 P1 D1 E1 HQ1. unfold poll_due. rewrite E.
    apply safe_bind, safe_idle_step; [done|]. intros s2 I2 M2. destruct (idle_open _ I2) as [c2 Hc2]. rewrite Hc2.
    pose proof (mw_busy _ _ M2) as B2. assert (Ec : cs_pollers c2 = pollers s).
    { rewrite <- E1, <- (bs_pollers _ _ _ B2). unfold pollers. by rewrite Hc2. }
    change (sound (with_state c2 s2) /\ safe (poll_pollers W (tp_client_conductor_do_work W n level)
      (length (cs_pollers c2)) (head (cs_pollers c2)) 0) (with_state c2 s2) Q1).
    rewrite with_state_same, Ec by done. split; [by apply idle_sound|].
    apply (poll_pollers_safe _ _ _ _ (pollers s)); [|done|done|rewrite (ac_depth _ _ _ (bs_acted _ _ _ B2)); lia|by apply B2|..].
    + intros s3 Q3 I3 P3 D3. by apply nested_do_work.
    + intros _. split_and!; [|done|done]. exists []. by rewrite (bs_pollers _ _ _ B2).
    + intros r s3 I3 T3. apply HQ1; [done|]. eapply acted_turned; [apply B2|done].
Qed.

End Agent.
