(* ===== verification/ConductorSession.v ===== *)
(** * ConductorSession: the conductor among application threads

    What holds in every interleaving of a duty cycle with other threads
    ([requests_stay_consistent]), what holds where nothing comes between, as for the
    agent invoker ([requests_are_answered], [pollers_called_once]), and the schedule
    in which the conductor uses a request that its owner has freed
    ([answer_taken_too_early]). *)

From Stdlib Require Import ZArith Lia Bool Ascii String.
From stdpp Require Import strings list gmap functions relations.
From coqutil Require Import Datatypes.RecordSetters.
From S2P Require Import Prelude Sbe Uri Shm Conductor ConductorThreads ConductorSafety ConductorAgent.
Import TriangleBracketNotations.

#[local] Open Scope Z_scope.
#[local] Open Scope list_scope.
#[local] Open Scope tp_scope.

#[local] Arguments safe W alone tame {A} p s Q : simpl never.

(** ** Interleavings *)

(** What is left of the conductor's program, and the memory. *)
Inductive go (W : outside) {A : Type} : prog A * store -> prog A * store -> Prop :=
  | go_client p s s' : client_step W s s' -> go W (p, s) (p, s')
  | go_conductor V l (f : store -> option (V * store)) k s v s' :
      f s = Some (v, s') -> go W (Step l f k, s) (k v, s').

(** The next access is to memory that was freed. *)
Definition faults_at {A} (p : prog A) (s : store) (l : access) : Prop :=
  match p with Ret _ => False | Step l' f _ => l' = l /\ f s = None end.

Lemma client_sound W s s' : sound s -> client_step W s s' -> sound s'.
Proof.
  intros (hand & ch & Hok) Hstep. exists hand, ch. by apply (client_step_ok W hand ch s).
Qed.

Lemma client_idle W s s' : idle s -> client_step W s s' -> idle s'.
Proof. intros (ch & Hok & Hw) Hstep. exists ch. split; [|done]. by apply (client_step_ok W [] ch s). Qed.

Lemma safe_go W tame {A} (Q : A -> store -> Prop) p s p' s' :
  (forall a s s', Q a s -> client_step W s s' -> Q a s') ->
  safe W false tame p s Q -> go W (p, s) (p', s') -> safe W false tame p' s' Q.
Proof.
  intros HQ Hs Hg. remember (p, s) as c eqn:Ec. remember (p', s') as c' eqn:Ec'.
  destruct Hg as [p0 s0 s0' Hstep|V l f k s0 v s0' E]; injection Ec as <- <-; injection Ec' as <- <-.
  - destruct p0 as [a|V l f k]; destruct Hs as [Hs Hp]; (split; [by eapply client_sound|]); [by eapply HQ|].
    intros s1 Hi. apply Hp. by eapply rtc_l.
  - destruct Hs as [_ Hp]. specialize (Hp s0 (rtc_refl _ _)). by rewrite E in Hp.
Qed.

Lemma safe_reachable W tame {A} (Q : A -> store -> Prop) c c' :
  (forall a s s', Q a s -> client_step W s s' -> Q a s') ->
  rtc (go W) c c' -> safe W false tame (fst c) (snd c) Q -> safe W false tame (fst c') (snd c') Q.
Proof.
  intros HQ Hr. induction Hr as [c|[p1 s1] [p2 s2] c3 Hg _ IH]; [done|]. intros Hs. apply IH.
  by eapply safe_go.
Qed.

Lemma safe_run W {A} (p : prog A) (Q : A -> store -> Prop) : forall s,
  safe W true true p s Q -> exists a s', run p s = Some (a, s') /\ Q a s'.
Proof.
  induction p as [a|V l f k IH]; intros s [_ Hp]; [by exists a, s|]. cbn [run].
  specialize (Hp s eq_refl). destruct (f s) as [[v s']|]; [by apply IH|by destruct l].
Qed.

(** C3: while the conductor works, application threads may add requests, take answers and
    close what they got between any two accesses of its; in every such interleaving the
    requests stay in order ([sound]: each waits in one place, and each answer is the
    publication or subscription asked for, given out once), no access but those that
    take out an answered request is to freed memory, if no poller unregisters one, and
    after the duty cycle the next can start. *)
Theorem requests_stay_consistent W n s p s' :
  idle s -> pollers_ok s -> depth s = 0 -> rtc (go W) (tp_client_conductor_do_work W n 1, s) (p, s') ->
  sound s' /\
  (forall l, faults_at p s' l -> l <> Plain /\ (tame_outside W -> l = Unlinking)) /\
  (forall r, p = Ret r -> idle s' /\ pollers_ok s' /\ depth s' = 0).
Proof.
  intros Hi Hp Hd Hr. set (Q := fun (_ : option Z) s' => idle s' /\ pollers_ok s' /\ depth s' = 0).
  assert (HQ : forall a s s', Q a s -> client_step W s s' -> Q a s').
  { intros a s1 s2 (I1 & P1 & D1) Hstep. destruct (acted_client W false s1 s2 I1 Hstep) as [I2 A2].
    split_and!; [done|by apply A2|by rewrite (ac_depth _ _ _ A2)]. }
  assert (H : forall tame, (tame = true -> tame_outside W) -> safe W false tame p s' Q).
  { intros tame Ht. apply (safe_reachable W tame Q _ _ HQ Hr). cbn [fst snd].
    apply do_work_safe; [done|done|done|lia|lia|]. intros r s1 I1 [T1 T2 _ _].
    split_and!; [done|by apply T1|by rewrite T2]. }
  assert (Hf : forall tame l, (tame = true -> tame_outside W) -> faults_at p s' l -> may_fault false tame l).
  { intros tame l Ht Hl. specialize (H tame Ht). destruct p as [a|V l' f k]; [done|]. destruct Hl as [<- Hl].
    destruct H as [_ H]. specialize (H s' (rtc_refl _ _)). by rewrite Hl in H. }
  split; [|split].
  - destruct p; by apply (H false).
  - intros l Hl. split; [intros ->; by apply (Hf false) in Hl|]. intros Ht.
    apply (Hf true) in Hl; [|done]. by destruct l.
  - intros r ->. by apply (H false).
Qed.

(** ** Where nothing comes between *)

(** C22: with the agent invoker the work on requests touches no freed memory and returns;
    and where Aeron has an answer for every request, every one in the queue and in the
    lists is answered after it: with its publication or subscription, or an error. *)
Theorem requests_are_answered W n s ch :
  conductor_ok [] ch s -> whole ch ->
  exists s', run (work_requests W n) s = Some (tt, s') /\ idle s' /\
    ((forall t, ae_poll W t <> NotYet) -> (length (command_queue s) + total ch <= n)%nat -> none_waits s').
Proof.
  intros Hok Hw.
  destruct (safe_run W (work_requests W n) (fun _ s' => idle s' /\ ((forall t, ae_poll W t <> NotYet) ->
    (length (command_queue s) + total ch <= n)%nat -> none_waits s')) s) as ([] & s' & E & H).
  - eapply work_requests_safe; [done|done|]. intros ch' s' H' W' _ E'. split; [by exists ch'|by apply E'].
  - by exists s'.
Qed.

Lemma served_all W l c w : served W l c (Some w) -> c = l.
Proof.
  intros H. remember (Some w) as r eqn:E. revert w E.
  induction H as [|e l t|e l c r t _ _ IH]; intros w E; [done|done|].
  destruct r as [w'|]; [|done]. by rewrite (IH w' eq_refl).
Qed.

(** C28: undisturbed, and with pollers that may add and take requests, register others and
    run the duty cycle again, but do not unregister any, a duty cycle returns without a
    fault.  It fails without calling a poller when there is no Aeron or the invoker has
    an error; otherwise it calls the registered pollers once each, in the order of the
    list ([served]), until one answers with a negative number: then it fails, and the
    later ones are not called; when none does, all were called, and the answer is the
    work of the invoker and the sum of theirs.  The duty cycles that pollers run call
    none. *)
Theorem pollers_called_once W n s :
  tame_outside W -> idle s -> pollers_ok s -> depth s = 0 ->
  exists r s', run (tp_client_conductor_do_work W n 1) s = Some (r, s') /\ idle s' /\ depth s' = 0 /\
    (r = None /\ polled (me_events s') = polled (me_events s) /\
       (co_aeron (me_conductor s) = false \/ (exists t, ae_work W t = None)) \/
     exists invoked c w, (invoked = 0 \/ exists t, ae_work W t = Some invoked) /\
       served W (pollers s) c w /\ polled (me_events s') = polled (me_events s) ++ called c /\
       r = Z.add invoked <$> w) /\
    (is_Some r -> polled (me_events s') = polled (me_events s) ++ called (pollers s)).
Proof.
  intros Ht Hi Hp Hd.
  eapply safe_run, (do_work_safe W true true); [done|done|done|lia|lia|].
  intros r s' I' [_ T2 _ T4]. split; [done|]. split; [by rewrite T2|].
  destruct (T4 eq_refl Hd) as [Hn|(invoked & Hinv & c & w & Hs & Hpl & ->)].
  - split; [by left|]. destruct Hn as [-> _]. by intros [].
  - split; [right; by exists invoked, c, w|]. intros [x Hx]. destruct w as [w|]; [|done].
    by rewrite Hpl, (served_all _ _ _ _ Hs).
Qed.

(** ** Instances *)

Module ConductorSessionDemo.

Definition aeron_ready : outside :=
  {| ae_alloc := fun _ => true; ae_start := fun _ => true; ae_poll := fun _ => Opened 7; ae_errcode := fun _ => 5;
     ae_work := fun _ => Some 0; ae_poller := fun _ _ _ _ => ([DoWork], 1) |}.

(** A conductor with an agent invoker and these pollers. *)
Definition opened (l : list tp_client_poller_entry_t) : store :=
  {| me_conductor := {| co_aeron := true; co_use_agent_invoker := true; co_started := true; co_owns_aeron := true;
                        co_state := Some (fresh_state <| cs_pollers := l |>) |};
     me_asyncs := ∅; me_wrappers := ∅; me_fresh := 10%nat; me_tick := 0%nat; me_events := [] |}.

Lemma opened_ok l : conductor_ok [] (fun _ => Whole []) (opened l).
Proof.
  split; [split; by intros|exists (fresh_state <| cs_pollers := l |>), []|by intros].
  split_and!; [done|done|by intros []|]. split; [constructor|by intros ? ? ?%elem_of_nil|by intros].
Qed.

Lemma opened_idle l : idle (opened l).
Proof. exists (fun _ => Whole []). split; [apply opened_ok|by exists []]. Qed.

Definition two_pollers : list tp_client_poller_entry_t :=
  [{| pl_id := 4%nat; pl_poller := 1; pl_clientd := 11; pl_fragment_limit := 8 |};
   {| pl_id := 3%nat; pl_poller := 2; pl_clientd := 12; pl_fragment_limit := 8 |}].

Lemma two_pollers_ok : pollers_ok (opened two_pollers).
Proof. split; [repeat constructor|apply (bool_decide_unpack _); vm_compute]; cbn; try lia; done. Qed.

Definition channel : chars := lit "aeron:ipc".

(** After these requests of the application. *)
Definition after_add (s : store) : store :=
  match run (tp_client_conductor_async_add_publication aeron_ready (Some channel) 1001) s with
  | Some (_, s') => s'
  | None => s
  end.

Lemma after_add_step s : is_Some (co_state (me_conductor s)) -> client_step aeron_ready s (after_add s).
Proof.
  intros Hs. destruct (add_runs aeron_ready TP_CLIENT_CMD_ADD_PUBLICATION channel 1001 s Hs) as [[r s'] E].
  unfold after_add, tp_client_conductor_async_add_publication. rewrite E. by econstructor.
Qed.

(** So many steps of the conductor. *)
Fixpoint steps {A} (n : nat) (p : prog A) (s : store) : option (prog A * store) :=
  match n, p with
  | O, _ => Some (p, s)
  | S n', Ret _ => None
  | S n', Step l f k => match f s with Some (v, s') => steps n' (k v) s' | None => None end
  end.

Lemma steps_go W {A} n : forall (p : prog A) s p' s', steps n p s = Some (p', s') -> rtc (go W) (p, s) (p', s').
Proof.
  induction n as [|n IH]; intros p s p' s'; cbn [steps]; [by intros [= -> ->]|].
  destruct p as [a|V l f k]; [done|]. destruct (f s) as [[v s1]|] eqn:E; [|done]. intros H%IH.
  eapply rtc_l; [by apply go_conductor|exact H].
Qed.

(** A request of an application, and the duty cycle that answers it. *)
Definition asked : store := after_add (opened two_pollers).

Lemma asked_idle : idle asked.
Proof. apply (client_idle aeron_ready (opened two_pollers)); [apply opened_idle|by apply after_add_step]. Qed.

Lemma asked_ok : pollers_ok asked /\ depth asked = 0.
Proof.
  split; [|by vm_compute].
  apply (acted_client aeron_ready false (opened two_pollers)); [apply opened_idle|by apply after_add_step|].
  apply two_pollers_ok.
Qed.

(** The application takes its answer [n] steps on; where is the conductor then? *)
Definition taken_after (n : nat) : option access :=
  match steps n (tp_client_conductor_do_work aeron_ready 4 1) asked with
  | Some (p, s) =>
    match run (async_add_poll (Some 10%nat)) s with
    | Some (Ok (Some _), s') =>
      match p with Step l f _ => match f s' with None => Some l | Some _ => None end | Ret _ => None end
    | _ => None
    end
  | None => None
  end.

Lemma poll_present x s r : run (async_add_poll (Some x)) s = Some r -> is_Some (me_asyncs s !! x).
Proof. cbn. destruct (me_asyncs s !! x); [done|]. by cbn. Qed.

Lemma taken_fault n l : taken_after n = Some l ->
  exists p s, rtc (go aeron_ready) (tp_client_conductor_do_work aeron_ready 4 1, asked) (p, s) /\ faults_at p s l.
Proof.
  unfold taken_after. destruct (steps _ _ _) as [[p s]|] eqn:E; [|done]. apply (steps_go aeron_ready) in E.
  destruct (run _ s) as [[[[w|]|] s']|] eqn:Er; [|done..]. destruct p as [a|V l' f k]; [done|].
  destruct (f s') eqn:Ef; [done|]. intros [= <-]. exists (Step l' f k), s'. split; [|done].
  eapply rtc_r; [exact E|]. constructor. apply (client_poll aeron_ready s 10%nat _ s') in Er; [done|].
  exact (poll_present _ _ _ Er).
Qed.

(** The status of a request is published before its link is read: the application may
    have taken the answer and freed the request. *)
Example answer_taken_too_early :
  exists p s, rtc (go aeron_ready) (tp_client_conductor_do_work aeron_ready 4 1, asked) (p, s) /\
    faults_at p s Unlinking.
Proof. apply (taken_fault 17). by vm_compute. Qed.

(** A step of the conductor, a request of the application, some steps more. *)
Lemma requests_stay_consistent_witness :
  exists p s, rtc (go aeron_ready) (tp_client_conductor_do_work aeron_ready 4 1, asked) (p, s) /\
    faults_at p s Unlinking /\ sound s.
Proof.
  destruct answer_taken_too_early as (p & s & Hr & Hf). exists p, s. split; [exact Hr|]. split; [exact Hf|].
  apply (requests_stay_consistent aeron_ready 4 asked p s); [apply asked_idle|apply asked_ok|apply asked_ok|exact Hr].
Defined.

Lemma asked_chain : exists ch, conductor_ok [] ch asked /\ whole ch /\ (length (command_queue asked) + total ch)%nat = 1%nat.
Proof.
  exists (fun _ => Whole []). split; [|split; [by exists []|by vm_compute]].
  apply (client_step_ok aeron_ready [] _ (opened two_pollers)); [apply opened_ok|by apply after_add_step].
Qed.

Lemma requests_are_answered_witness :
  exists s', run (work_requests aeron_ready 1) asked = Some (tt, s') /\ none_waits s'.
Proof.
  destruct asked_chain as (ch & Hok & Hw & Hn).
  destruct (requests_are_answered aeron_ready 1 asked ch Hok Hw) as (s' & E & _ & H). exists s'. split; [exact E|].
  apply H; [done|rewrite Hn; apply le_n].
Defined.

Lemma asked_tame : tame_outside aeron_ready.
Proof. intros p c l t. by repeat constructor. Qed.

(** Two pollers with one unit of work each; and when the first of them fails. *)
Definition poller_failing : outside :=
  {| ae_alloc := fun _ => true; ae_start := fun _ => true; ae_poll := fun _ => Opened 7; ae_errcode := fun _ => 5;
     ae_work := fun _ => Some 0; ae_poller := fun _ _ _ _ => ([], -1) |}.

Lemma failing_tame : tame_outside poller_failing.
Proof. intros p c l t. by constructor. Qed.

Lemma pollers_called_once_witness :
  (exists r s', run (tp_client_conductor_do_work aeron_ready 4 1) asked = Some (r, s') /\ r = Some 2 /\
    polled (me_events s') = [(1, 11); (2, 12)]) /\
  exists r s', run (tp_client_conductor_do_work poller_failing 4 1) asked = Some (r, s') /\ r = None /\
    polled (me_events s') = [(1, 11)] /\
    exists c, served poller_failing (pollers asked) c None /\ polled (me_events asked) ++ called c = [(1, 11)].
Proof.
  split.
  - destruct (pollers_called_once aeron_ready 4 asked) as (r & s' & E & _ & _ & _ & H);
      [apply asked_tame|apply asked_idle|apply asked_ok|apply asked_ok|].
    assert (Hr : fst <$> run (tp_client_conductor_do_work aeron_ready 4 1) asked = Some (Some 2))
      by (vm_compute; reflexivity).
    rewrite E in Hr. injection Hr as Hr. exists r, s'. split; [exact E|]. split; [exact Hr|].
    subst r. apply H. by exists 2.
  - destruct (pollers_called_once poller_failing 4 asked) as (r & s' & E & _ & _ & H & _);
      [apply failing_tame|apply asked_idle|apply asked_ok|apply asked_ok|].
    assert (Hr : (fun p => (fst p, polled (me_events (snd p)))) <$>
      run (tp_client_conductor_do_work poller_failing 4 1) asked = Some (None, [(1, 11)]))
      by (vm_compute; reflexivity).
    rewrite E in Hr. cbn in Hr. injection Hr as Hr Hpl. exists r, s'. split; [exact E|]. split; [exact Hr|].
    split; [exact Hpl|]. destruct H as [(_ & _ & [Ha|[t Ht]])|(invoked & c & w & _ & Hs & Hc & Hw)].
    + discriminate Ha.
    + discriminate Ht.
    + rewrite Hr in Hw. destruct w; [discriminate Hw|]. exists c. split; [exact Hs|]. rewrite <- Hc. exact Hpl.
Defined.

(** ** What goes wrong *)

(** Aeron that never has an answer. *)
Definition aeron_silent : outside :=
  {| ae_alloc := fun _ => true; ae_start := fun _ => true; ae_poll := fun _ => NotYet; ae_errcode := fun _ => 5;
     ae_work := fun _ => Some 0; ae_poller := fun p c _ _ => ([UnregisterPoller p c], 1) |}.

Definition result {A} (r : option (A * store)) : option A := fst <$> r.

(** [close] frees the requests under way, which their owners still hold: the next poll of
    one reads freed memory. *)
Example closed_under_requests :
  result (run (do> work_requests aeron_silent 1 in
               let> _ := tp_client_conductor_async_add_publication_poll (Some 10%nat) in
               tp_client_conductor_close 1) asked) = Some tt /\
  run (do> work_requests aeron_silent 1 in
       do> tp_client_conductor_close 1 in
       tp_client_conductor_async_add_publication_poll (Some 10%nat)) asked = None.
Proof. by vm_compute. Qed.

(** Those still in the queue are neither freed nor answered: they wait for ever. *)
Example closed_over_queue :
  result (run (do> tp_client_conductor_close 1 in
               tp_client_conductor_async_add_publication_poll (Some 10%nat)) asked) = Some (Ok None).
Proof. by vm_compute. Qed.

(** A poller that unregisters itself is freed before its link is read. *)
Example poller_unregisters_itself :
  run (tp_client_conductor_do_work aeron_silent 4 1) (opened two_pollers) = None.
Proof. by vm_compute. Qed.

(** [tp_client_add_subscription] has no limit of its own. *)
Example subscription_awaited_for_ever :
  (forall fuel, fuel ∈ [1; 2; 5; 20]%nat ->
    result (run (tp_client_add_subscription aeron_silent 4 fuel (Some channel) 1001 TP_CLIENT_SUB_QOS) (opened []))
      = Some None).
Proof. intros fuel Hf. repeat (apply elem_of_cons in Hf as [->|Hf]; [by vm_compute|]). by apply elem_of_nil in Hf. Qed.

(** A duty cycle that fails does not disturb it. *)
Example failing_work_ignored :
  result (run (tp_client_conductor_do_work poller_failing 4 1) (opened two_pollers)) = Some None /\
  result (run (tp_client_add_subscription poller_failing 4 5 (Some channel) 1001 TP_CLIENT_SUB_QOS) (opened two_pollers))
    = Some (Some (Ok tt)).
Proof. by vm_compute. Qed.

End ConductorSessionDemo.
